(* ===== verification/_CoqProject ===== *)
-Q . S2P
Prelude.v
Floats.v
Proto.v
CommandMachine.v
CommandsHelper.v
CommandInvariant.v
CommandSend.v
CommandReachable.v
CommandEventIDs.v
CommandTransitions.v
CommandLifecycle.v
CommandData.v
Channel.v
ChannelFacts.v
Sync.v
Dispatcher.v
DispatcherFacts.v
Flags.v
History.v
HistoryFacts.v
HistoryTasks.v
Replay.v
ReplayFacts.v
Lru.v
LruFacts.v
Update.v
UpdateFacts.v
PollerGroups.v
PollerGroupsFacts.v
Balancer.v
BalancerFacts.v
BalancerPolls.v
Autoscaler.v
Completion.v
Context.v
ContextChildren.v
ContextCancel.v
ContextFacts.v
ContextReachable.v
Errors.v
FailureConverter.v
FailureConverterFacts.v
Retry.v
Environment.v
EventHandlers.v
EnvironmentFacts.v
Callbacks.v
Deliveries.v
Tunnel.v
TaskContext.v
TaskCompletion.v
TaskProcessing.v
TaskFacts.v
TaskCompletionFacts.v
TaskLoop.v
WorkerCache.v
TaskCache.v
TaskHandlers.v
Slots.v
WorkerSlots.v
WorkerSlotsFacts.v
SlotAccounts.v
TaskExecution.v
SlotShutdown.v
SlotGauges.v
Processor.v
ProcessorFacts.v
ProcessorHandler.v
ClientRun.v
ClientRunFacts.v
ClientStart.v
ClientUpdate.v
ClientUpdateFacts.v
Heartbeat.v
HeartbeatFacts.v
ActivityTask.v
ActivityTaskFacts.v
