(* ===== verification/Prelude.v ===== *)
(** * A verification library for the Temporal Go SDK

    The SDK ([src/]) lets Go code run as a durable workflow. A worker polls the
    service for workflow tasks; a task carries a part of the history of one
    workflow execution, page by page. The worker replays the history through
    the workflow code, which runs in coroutines and asks for activities,
    timers, child workflows and so on by creating commands. Commands go back to
    the service with the completion of the task. On replay the commands that
    the code produces again are compared with the events the original commands
    left in the history. Clients start workflows, send them updates and wait for
    their results. This library models that cycle, from the slot a poll needs to
    the request that answers the task, and the client's side of it, and proves
    what makes it correct.

    ** How the parts fit together

    - [History] cuts the event stream of a task into tasks for the workflow
      code ([nextTask]); it consults [Flags] for the SDK flags recorded with
      each completed task.
    - [Dispatcher] runs the coroutines until all are blocked; coroutines block
      on the objects of [Channel] and [Sync].
    - Workflow code calls the operations of [Environment], which create
      commands through [CommandsHelper] and attach to them the callbacks that
      wait for an outcome; [EventHandlers] processes history events, which
      drive the machines of the commands ([CommandMachine]) and run the
      callbacks. Failures travel as the messages of [FailureConverter].
    - [Context] carries cancellation through the workflow code; its [Done]
      channels are channels of [Channel].
    - [Update] turns protocol messages into update handlers and answers; its
      messages become commands of [CommandsHelper] and entries of the outbox
      that [Replay] consults.
    - [Replay] compares replayed commands with history events.
    - [TaskContext] is the state of an execution that a worker keeps between
      tasks. [TaskProcessing] feeds the tasks of [History] to the event handler
      of an execution ([TaskHandlers], made of [EventHandlers] and [Update]) and
      checks the replay; [TaskCompletion] makes the answer. [TaskCache] finds
      the context of a task in the cache that workers share ([WorkerCache], on
      top of [Lru]).
    - [Processor] takes a polled task through the handler, sends its heartbeats
      and its answer ([Completion] cuts an answer that is too large into pages)
      and gives the context back; [ProcessorHandler] puts the handler of
      [TaskProcessing] behind the interface that [Processor] uses.
    - [Tunnel] passes local activities to the goroutines that run them; [Retry]
      has the policies they and the service calls are retried with.
    - [PollerGroups], [Balancer] and [Autoscaler] decide how many polls a
      worker keeps open, and for which queues and groups; [Slots] and
      [WorkerSlots] how many tasks it takes.
    - [ClientRun], [ClientStart] and [ClientUpdate] are the client; an eager
      start takes a slot of a worker in the same process.

    ** Files and sources

    - [Prelude] (this file): the monad of Go methods ([Go]: a state and an
      outcome, a value or a panic, the mutations kept in both), results with
      errors, weakest preconditions, lists, machine integers.
    - [Proto]: the messages of the service API, a third-party package, as far
      as the code reads and writes them.
    - [CommandMachine], [CommandsHelper]: all of
      internal/internal_command_state_machine.go. Machines are heap objects
      shared by the ordered list, the map and the Nexus cancelation field.
      [CommandInvariant] has the invariant and its Hoare logic, [CommandSend]
      the exact behaviour of [getCommands], [CommandReachable] the operations
      and reachable states, [CommandEventIDs] the event id prediction,
      [CommandTransitions] the abstract automaton, [CommandLifecycle] the end
      of commands, [CommandData] which operations look up, create or leave
      alone the data of commands.
    - [Channel], [ChannelFacts]: channels, futures and selectors of
      internal/internal_workflow.go. Callbacks are closures over local
      variables of blocked calls; they are data here, and a blocking call is
      split at its yield into a start and a resume.
    - [Sync]: Await, Mutex, Semaphore and WaitGroup of
      internal/internal_workflow.go and internal/workflow.go.
    - [Dispatcher], [DispatcherFacts]: dispatcherImpl of
      internal/internal_workflow.go; the code of a coroutine between two yields
      is a parameter.
    - [Flags]: all of internal/internal_flags.go.
    - [History], [HistoryFacts], [HistoryTasks]: history, prepareTask and
      nextTask of internal/internal_task_handlers.go, the page iterator of
      internal/internal_task_pollers.go and the decoding of raw pages of
      internal/common/serializer/serializer.go. The service is the list of
      answers it will give; decoders and the payload visitor are parameters.
    - [Replay], [ReplayFacts]: matchReplayWithHistory and what it calls, of
      internal/internal_task_handlers.go.
    - [Lru], [LruFacts]: internal/common/cache/lru.go.
    - [Update], [UpdateFacts]: updateProtocol and defaultUpdateHandler of
      internal/internal_update.go, internal/protocol/registry.go, and Send and
      the update queue of internal/internal_event_handlers.go.
    - [Environment]: workflowEnvironmentImpl of
      internal/internal_event_handlers.go, with the serialization of search
      attributes and memos. A callback is a number, and running it appends a
      delivery with its arguments to a log; creating a closure takes the next
      number. [EventHandlers]: workflowExecutionEventHandlerImpl of the same
      file; the workflow definition and the failure converter are parameters.
      [EnvironmentFacts] has the invariant on callbacks and its triples,
      [Callbacks] the operations, [Deliveries] the handlers and executions.
    - [Errors]: the error types of internal/error.go, as one inductive type;
      [FailureConverter], [FailureConverterFacts]: internal/failure_converter.go,
      converter/failure_converter.go and the Nexus failure conversions of
      internal/nexus_operations.go.
    - [Context], [ContextChildren], [ContextCancel], [ContextFacts],
      [ContextReachable]: internal/context.go. Contexts, list nodes and
      channels live in one store; the invariant relates it to a forest.
    - [TaskContext], [TaskProcessing], [TaskCompletion]:
      workflowExecutionContextImpl and workflowTaskHandlerImpl of
      internal/internal_task_handlers.go; [TaskCache]: GetOrCreateWorkflowContext,
      Unlock and onEviction of the same file over a store of shared contexts;
      [TaskHandlers]: the rest of the event handler of
      internal/internal_event_handlers.go. The event handler is a class
      ([workflowExecutionEventHandler]) for the task files. [TaskFacts] has the
      calls made on the handler, [TaskCompletionFacts] the content of the answer,
      [TaskLoop] the termination of the loop, [TaskExecution] that work on a
      context leaves its execution alone.
    - [WorkerCache]: internal/internal_worker_cache.go; [Tunnel]:
      localActivityTunnel of internal/internal_task_pollers.go, with goroutines
      that interleave.
    - [Floats], [Retry]: Go's floats; internal/common/backoff/retrypolicy.go and
      retry.go, internal/internal_retry.go and the backoff of local activities.
    - [Processor], [ProcessorFacts], [ProcessorHandler]: workflowTaskProcessor of
      internal/internal_task_pollers.go. The service is a list of answers; the
      task handler is a class with laws, and [ProcessorHandler] the instance.
    - [Slots], [WorkerSlots]: the slot suppliers of internal/tuning.go, baseWorker
      of internal/internal_worker_base.go, internal/internal_eager_activity.go
      and the token bucket of internal/session.go. Each goroutine is a program
      counter with its local variables, and a schedule of events says which one
      moves. [WorkerSlotsFacts] has the accounts of the permits,
      [SlotAccounts] the invariant, [SlotShutdown] what is left after a stop,
      [SlotGauges] the metrics published without the lock.
    - [ClientRun], [ClientRunFacts], [ClientStart], [ClientUpdate],
      [ClientUpdateFacts]: workflow runs, starts and updates of
      internal/internal_workflow_client.go, withStartWorkflowOperationImpl of
      internal/client.go and internal/internal_eager_workflow.go.
    - [Completion]: internal/internal_workflow_task_pagination.go and the loop
      that sends the pages, of internal/internal_task_pollers.go.
    - [PollerGroups], [PollerGroupsFacts]: internal/internal_poller_groups.go;
      [Balancer], [BalancerFacts], [BalancerPolls]:
      internal/internal_workflow_autoscaling_balancer.go; [Autoscaler]:
      pollerAutoscaler and the admission of polls of
      internal/internal_worker_base.go. Weights are single-precision floats.

    ** What the theorems show

    - Commands: in every reachable state the list and the map index the same
      live machines and no operation dereferences nil, except the two handlers
      of a Nexus cancel event, which a theorem shows can; [getCommands]
      returns exactly the commands due, in order, and each is sent once; the
      event id the helper predicts is the one the service will assign; the
      machines refine an abstract automaton; a timer or an activity that ends
      leaves no trace in the index.
    - History: tasks do not depend on the paging, every event is delivered once
      and in order, and a gap or a premature end is always reported.
    - Replay: the check is the comparison in step of the filtered sequences,
      and two runs that pass agree on all checked commands; flags give the same
      answers in replay as in the original execution.
    - Coroutines: the dispatcher stops when and only when nothing can run, and
      terminates for code with bounded work. Channels are bounded FIFO queues,
      a receive takes the first value that decodes, futures are set once,
      mutexes exclude, semaphores stay within their size, wait groups release.
    - Workflow tasks: the handler is called with every event and message of the
      task, once and in order; an answer has the commands that are due and waits
      for local activities; a task whose replay differs is never completed; a
      context taken from the cache fits the history of the task and the worker;
      panics of the workflow stay in its execution. A task is answered at most
      once for each token, with the cause of its failure, and a task that failed
      leaves no context behind.
    - Cache: the map and the linked list act as one list in access order; size
      is bounded and pinned entries stay; the last worker to leave destroys the
      contexts, and no context is destroyed while a worker may find it.
    - Slots: every permit issued is held by exactly one goroutine, task or
      queue, whatever the schedule; a worker that has stopped holds none; gauges
      settle at the true counts.
    - Local activities: no task in the tunnel is lost or waits while a receiver
      sleeps; the backoff of a retry follows the policy.
    - Clients: a wait follows the chain of runs and returns how the last one
      closed; an update is sent until it is durable; the slot of an eager start
      is used or released.
    - Updates: every update gets one answer, and a replayed acceptance matches
      its event.
    - Environment: whatever the history and the workflow code, a callback is
      run at most once, a command or local activity that waits still holds it,
      and the type assertions of the handlers hold.
    - Failures: an error of the SDK comes back from its message as the error
      that the receiver is meant to see, retryable exactly when it was, and
      encoded attributes reveal no text.
    - Contexts: the error of a context and its [Done] channel follow the
      cancellations in the forest, and cancellation goes in creation order.
    - Completion: the pages recombine to the request, within the limit and as
      few as possible.
    - Polling: counters are exact, no wakeup is lost, polling never stalls,
      every group is covered and targets stay in their bounds.
    - Where the code does not do what its comments or callers expect, a theorem
      states what it does: Nexus operations cancelled before they are sent,
      selectors on closed channels, receives that never decode, raw pages that
      cannot be decoded, updates whose header cannot be propagated, Nexus
      handler errors that are sent on in clear, contexts that start over after a
      reset, failures reported for a task that a heartbeat has replaced, the
      slot of an eager start whose payloads cannot be visited, errors of a poll
      for an update, start operations that never complete.

    ** Bounds and fuel

    64-bit counters wrap ([wrap64]). Recursion is structural wherever the data
    bounds it. Fuel appears in: [versionMarkerLoop], with the size of the map it
    shrinks; [loadUntil] and [orderEvents], with the answers and events that are
    left, shown sufficient by the refinement in [HistoryFacts], whose
    specification has no fuel; [receiveLoop], with the values that can be
    received; the loops over blocked callbacks and ordered commands, with their
    lengths; [ReceiveAsyncWithMoreFlag], with a parameter, as it need not
    terminate; [ExecuteUntilAllBlocked], whose termination theorem gives enough
    fuel for code with a bounded amount of work; chained futures, with the
    number of futures; [processEvents], with a measure of the history that is
    left, shown to decrease in [TaskLoop]; [Retry], with the attempts of the
    script. A service is a list of answers, unavailable when it is used up, and
    the loops that talk to it ([processLoop], [paginate], [getResult],
    [updateLoop], [pollLoop], [withStartLoop], the sending of pages) have one
    step more than there are answers, shown enough; the wait of the task handler
    has the length of the script of its events, shown to end
    ([handler_wait_ends]).

    ** What is not modelled

    Real time (a timer fires when the schedule or script says so), logging and
    metrics other than the slot gauges, user code, data converters, codecs and
    reflection, interceptors and the public API that forwards to them: these are
    left out or are parameters. Goroutines are modelled where the code
    synchronises them itself (the tunnel, the slots, the gauges); elsewhere an
    operation under a lock is atomic. Not modelled are the building of poll
    requests, activities and their heartbeats, sessions beyond their tokens,
    Nexus task handling, resource based tuning, schedules, deployments and the
    other single requests of clients, the test environment and the contributed
    packages: they are calls to the service or to third-party libraries with
    little state of their own, or simulate the service. *)

From stdpp Require Import base list gmap strings pretty.

Declare Scope go_scope.
Delimit Scope go_scope with go.

(** ** Panics and the state monad of a Go method

    A Go method that mutates its receiver is a function of the receiver's
    state.  It either returns a value or panics; in both cases the mutations
    made so far stay in place, so the final state is kept in both outcomes. *)

(** The values the SDK panics with: [illegalState] is
    [stateMachineIllegalStatePanic], [panicString] a bare string,
    [panicError] an [error] value, [runtimeError] a panic raised by the Go
    runtime itself (nil dereference, failed type assertion). *)
Inductive panicValue : Type :=
| illegalState (message : string)
| panicString (message : string)
| panicError (message : string)
| runtimeError (message : string).

(** The text of a panic value, as [%v] prints it. *)
Definition panicText (p : panicValue) : string :=
  match p with
  | illegalState s | panicString s | panicError s | runtimeError s => s
  end.

#[export] Instance panicValue_eq_dec : EqDecision panicValue.
Proof. solve_decision. Defined.

Inductive outcome (A : Type) : Type :=
| Returned (a : A)
| Panicked (p : panicValue).
Arguments Returned {A} a.
Arguments Panicked {A} p.

(** Computations that may panic but change no state. *)
#[global] Instance outcome_ret : MRet outcome := λ A a, Returned a.
#[global] Instance outcome_bind : MBind outcome := λ A B f m,
  match m with
  | Returned a => f a
  | Panicked p => Panicked p
  end.

Definition Go (S A : Type) : Type := S → outcome A * S.

Section GoMonad.
Context {S : Type}.

#[global] Instance go_ret : MRet (Go S) := λ A a s, (Returned a, s).

#[global] Instance go_bind : MBind (Go S) := λ A B f m s,
  match m s with
  | (Returned a, s') => f a s'
  | (Panicked p, s') => (Panicked p, s')
  end.

Definition get : Go S S := λ s, (Returned s, s).
Definition modify (f : S → S) : Go S unit := λ s, (Returned tt, f s).
Definition panic {A} (p : panicValue) : Go S A := λ s, (Panicked p, s).

(** A computation that does not touch the state. *)
Definition lift {A} (o : outcome A) : Go S A := λ s, (o, s).

(** The final state of a run, whatever its outcome. *)
Definition final {A} (m : Go S A) (s : S) : S := snd (m s).
Definition result {A} (m : Go S A) (s : S) : outcome A := fst (m s).
End GoMonad.

(** Running the first part of a sequence. *)
Lemma bind_returned {S A B} (m : Go S A) (f : A → Go S B) s a s' :
  m s = (Returned a, s') → (m ≫= f) s = f a s'.
Proof. intros H. unfold mbind, go_bind. by rewrite H. Qed.

Lemma bind_panicked {S A B} (m : Go S A) (f : A → Go S B) s p s' :
  m s = (Panicked p, s') → (m ≫= f) s = (Panicked p, s').
Proof. intros H. unfold mbind, go_bind. by rewrite H. Qed.

Lemma bind_assoc {S A B C} (m : Go S A) (f : A → Go S B) (g : B → Go S C) s :
  (m ≫= λ a, f a ≫= g) s = ((m ≫= f) ≫= g) s.
Proof. unfold mbind, go_bind. by destruct (m s) as [[a|p] s']. Qed.

(** ** Functions that return an error

    A result [(T, error)] is a sum: [inl] is a non-nil error, [inr] the value. *)

#[global] Instance sum_ret {E} : MRet (sum E) := λ A a, inr a.
#[global] Instance sum_bind {E} : MBind (sum E) := λ A B f r,
  match r with
  | inl e => inl e
  | inr a => f a
  end.
(** [x, err := m; if err != nil { return nil, err }]: the state that [m] left
    is kept. *)
Definition try_bind {S E A B} (m : Go S (E + A)) (f : A → Go S (E + B)) : Go S (E + B) :=
  r ← m;
  match r with
  | inl err => mret (inl err)
  | inr a => f a
  end.

#[global] Instance sum_fmap {E} : FMap (sum E) := λ A B f r,
  match r with
  | inl e => inl e
  | inr a => inr (f a)
  end.

(** ** Weakest preconditions *)

Definition wp {S A} (m : Go S A) (Q : A → S → Prop) (E : panicValue → S → Prop)
    (s : S) : Prop :=
  match m s with
  | (Returned a, s') => Q a s'
  | (Panicked p, s') => E p s'
  end.

Section Wp.
Context {S : Type}.
Implicit Types (s : S).

Lemma wp_ret {A} (a : A) (Q : A → S → Prop) E s : wp (mret a) Q E s ↔ Q a s.
Proof. done. Qed.

Lemma wp_bind {A B} (m : Go S A) (f : A → Go S B) Q E s :
  wp (m ≫= f) Q E s ↔ wp m (λ a s', wp (f a) Q E s') E s.
Proof.
  unfold wp, mbind, go_bind. by destruct (m s) as [[a|p] s'].
Qed.

Lemma wp_get (Q : S → S → Prop) E s : wp get Q E s ↔ Q s s.
Proof. done. Qed.

Lemma wp_modify (f : S → S) (Q : unit → S → Prop) E s :
  wp (modify f) Q E s ↔ Q tt (f s).
Proof. done. Qed.

Lemma wp_panic {A} p (Q : A → S → Prop) E s : wp (panic p) Q E s ↔ E p s.
Proof. done. Qed.

Lemma wp_mono {A} (m : Go S A) (Q Q' : A → S → Prop) (E E' : panicValue → S → Prop) s :
  wp m Q E s → (∀ a s', Q a s' → Q' a s') → (∀ p s', E p s' → E' p s') →
  wp m Q' E' s.
Proof. unfold wp. destruct (m s) as [[a|p] s']; eauto. Qed.

Lemma wp_returned {A} (m : Go S A) (Q : A → S → Prop) E s :
  wp m Q E s → ∀ a s', m s = (Returned a, s') → Q a s'.
Proof. unfold wp. intros H a s' Hm. by rewrite Hm in H. Qed.
End Wp.

(** ** Lists *)

Lemma filter_bool_ext {A} (f g : A → bool) (l : list A) :
  (∀ x, x ∈ l → f x = g x) →
  filter (λ x, Is_true (f x)) l = filter (λ x, Is_true (g x)) l.
Proof.
  induction l as [|x l IH]; intros Hfg; [done|].
  rewrite !filter_cons, (Hfg x) by by left.
  rewrite IH; [done|]. intros y Hy. apply Hfg. by right.
Qed.

Lemma omap_ext_in {A B} (f g : A → option B) (l : list A) :
  (∀ x, x ∈ l → f x = g x) → omap f l = omap g l.
Proof.
  induction l as [|x l IH]; intros Hfg; [done|]. csimpl.
  rewrite (Hfg x) by by left. rewrite IH; [done|]. intros y Hy. apply Hfg. by right.
Qed.

Lemma elem_of_middle {A} (x : A) (pre rest : list A) : x ∈ pre ++ x :: rest.
Proof. apply elem_of_app. right. by left. Qed.

Lemma elem_of_after {A} (x y : A) (pre rest : list A) : y ∈ rest → y ∈ pre ++ x :: rest.
Proof. intros. apply elem_of_app. right. by right. Qed.

Lemma filter_all {A} (P : A → Prop) `{∀ x, Decision (P x)} (l : list A) :
  (∀ x, x ∈ l → P x) → filter P l = l.
Proof.
  induction l as [|x l IH]; intros H'; [done|]. rewrite filter_cons_True by (apply H'; by left).
  f_equal. apply IH. intros y Hy. apply H'. by right.
Qed.

Lemma filter_none {A} (P : A → Prop) `{∀ x, Decision (P x)} (l : list A) :
  (∀ x, x ∈ l → ¬ P x) → filter P l = [].
Proof.
  induction l as [|x l IH]; intros H'; [done|]. rewrite filter_cons_False by (apply H'; by left).
  apply IH. intros y Hy. apply H'. by right.
Qed.

Lemma removelast_app_one {A} (l : list A) x : removelast (l ++ [x]) = l.
Proof. induction l as [|y l IH]; [done|]. simpl. rewrite IH. by destruct (l ++ [x]) eqn:E; destruct l. Qed.

Lemma length_removelast {A} (x : A) (l : list A) : length (removelast (x :: l)) = length l.
Proof.
  destruct (exists_last (l := x :: l)) as (l' & y & Hl); [done|]. rewrite Hl, removelast_app_one.
  apply (f_equal length) in Hl. rewrite length_app in Hl. simpl in Hl. lia.
Qed.

(** Two lists related to a third one position by position. *)
Lemma Forall2_join {A B C} (P : A → C → Prop) (Q : B → C → Prop) (R : A → B → Prop) l k m :
  (∀ a b c, P a c → Q b c → R a b) → Forall2 P l m → Forall2 Q k m → Forall2 R l k.
Proof.
  intros HR H. revert k. induction H as [|a c l m Hp _ IH]; intros k Hk; inversion Hk; subst; constructor.
  - by eapply HR.
  - by apply IH.
Qed.

Lemma NoDup_fmap_elem_inj {A B} (f : A → B) (l : list A) x y :
  NoDup (f <$> l) → x ∈ l → y ∈ l → f x = f y → x = y.
Proof.
  induction l as [|z l IH]; intros Hnd Hx Hy Hf; [by apply not_elem_of_nil in Hx|].
  apply NoDup_cons in Hnd as [Hn Hnd]. apply elem_of_cons in Hx as [->|Hx], Hy as [->|Hy]; auto.
  - destruct Hn. rewrite Hf. by apply list_elem_of_fmap_2.
  - destruct Hn. rewrite <- Hf. by apply list_elem_of_fmap_2.
Qed.

(** ** Operations that keep a part of the state *)

Create HintDb keeps.

Definition keeps {S T A} (π : S → T) (m : Go S A) : Prop := ∀ s, π (final m s) = π s.

Section Combinators.
  Context {S T : Type} (π : S → T).

Lemma keep_ret {A} (a : A) : keeps π (mret a).
Proof. by intros s. Qed.

Lemma keep_panic {A} v : keeps π (panic (A := A) v).
Proof. by intros s. Qed.

Lemma keep_get : keeps π get.
Proof. by intros s. Qed.

Lemma keep_lift {A} (o : outcome A) : keeps π (lift o).
Proof. by intros s. Qed.

Lemma keep_modify f : (∀ s, π (f s) = π s) → keeps π (modify f).
Proof. intros Hf s. apply Hf. Qed.

Lemma keep_bind {A B} (m : Go S A) (k : A → Go S B) : keeps π m → (∀ a, keeps π (k a)) → keeps π (m ≫= k).
Proof.
  intros Hm Hk s. specialize (Hm s). unfold final, mbind, go_bind in *.
  destruct (m s) as [[a|v] s1]; [|done]. etrans; [apply Hk|done].
Qed.

Lemma keep_try_bind {E A B} (m : Go S (E + A)) (k : A → Go S (E + B)) :
  keeps π m → (∀ a, keeps π (k a)) → keeps π (try_bind m k).
Proof. intros Hm Hk. apply keep_bind; [done|]. intros [e|a]; [apply keep_ret|apply Hk]. Qed.
End Combinators.

#[export] Hint Resolve keep_ret keep_panic keep_get keep_lift : keeps.

(** Follows the structure of an operation. *)
Ltac keep_steps :=
  repeat lazymatch goal with
    | |- ∀ _, _ => intro
    | |- keeps _ (try_bind _ _) => apply keep_try_bind
    | |- keeps _ (_ ≫= _) => apply keep_bind
    | |- keeps _ (modify _) => apply keep_modify
    | |- _ => first [solve [auto with keeps] | case_match]
    end.

(** ** Machine integers

    [int64] values are integers in [[-2^63, 2^63)]; Go's arithmetic on them
    wraps around. *)

Open Scope Z_scope.

Definition wrap64 (z : Z) : Z := (z + 2 ^ 63) `mod` 2 ^ 64 - 2 ^ 63.
(** [int32(z)]. *)
Definition wrap32 (z : Z) : Z := (z + 2 ^ 31) `mod` 2 ^ 32 - 2 ^ 31.

Definition int64_range (z : Z) : Prop := - 2 ^ 63 ≤ z < 2 ^ 63.

Lemma wrap64_range z : int64_range (wrap64 z).
Proof.
  unfold int64_range, wrap64.
  pose proof (Z.mod_pos_bound (z + 2 ^ 63) (2 ^ 64) ltac:(lia)). lia.
Qed.

Lemma wrap64_id z : int64_range z → wrap64 z = z.
Proof. unfold int64_range, wrap64. intros. rewrite Z.mod_small; lia. Qed.

Lemma wrap64_add_l a b : wrap64 (wrap64 a + b) = wrap64 (a + b).
Proof.
  unfold wrap64. f_equal.
  replace ((a + 2 ^ 63) `mod` 2 ^ 64 - 2 ^ 63 + b + 2 ^ 63)
    with ((a + 2 ^ 63) `mod` 2 ^ 64 + b) by lia.
  rewrite Z.add_mod_idemp_l by lia. f_equal. lia.
Qed.

(** [strconv.FormatInt(i, 10)] and the [%v]/[%d] verbs on integers. *)
Definition FormatInt (i : Z) : string := pretty i.

#[export] Instance FormatInt_inj : Inj (=) (=) FormatInt.
Proof. unfold FormatInt. apply _. Qed.

(** The [%v] verb on a boolean and on a slice of strings. *)
Definition FormatBool (b : bool) : string := if b then "true" else "false".

Definition FormatStrings (l : list string) : string :=
  ("[" +:+ String.concat " " l +:+ "]")%string.
