(* ===== verification/Floats.v ===== *)
(** * Floating point numbers of Go.

    [float32] and [float64] as the specification floats of the Standard
    Library, with the operations and the functions of package [math] that the
    sources use. *)

From stdpp Require Import base list gmap strings.
From Stdlib Require Import SpecFloat.
From S2P Require Import Prelude.
Open Scope Z_scope.

Abbreviation float32 := spec_float (only parsing).
Abbreviation float64 := spec_float (only parsing).

(** ** Single precision *)

Definition f32_zero : float32 := S754_zero false.
Definition f32_add (a b : float32) : float32 := SFadd 24 128 a b.
Definition f32_sub (a b : float32) : float32 := SFsub 24 128 a b.
Definition f32_mul (a b : float32) : float32 := SFmul 24 128 a b.
(** Comparisons with a NaN are false. *)
Definition f32_lt (a b : float32) : bool := SFltb a b.
Definition f32_le (a b : float32) : bool := SFleb a b.

(** ** Double precision *)

(** [float64(i)], rounded to nearest. *)
Definition float64_of_int64 (i : Z) : float64 := binary_normalize 53 1024 i 0 false.
Definition f64_zero : float64 := S754_zero false.
Definition f64_one : float64 := S754_finite false 4503599627370496 (-52).
Definition f64_half : float64 := S754_finite false 4503599627370496 (-53).
Definition f64_add (a b : float64) : float64 := SFadd 53 1024 a b.
Definition f64_sub (a b : float64) : float64 := SFsub 53 1024 a b.
Definition f64_mul (a b : float64) : float64 := SFmul 53 1024 a b.
Definition f64_div (a b : float64) : float64 := SFdiv 53 1024 a b.
Definition f64_le (a b : float64) : bool := SFleb a b.
Definition f64_lt (a b : float64) : bool := SFltb a b.
Definition f64_eq (a b : float64) : bool := SFeqb a b.
(** The constant [1.1]. *)
Definition f64_1_1 : float64 := S754_finite false 4953959590107546 (-52).

Definition isNaN (x : float64) : bool := match x with S754_nan => true | _ => false end.

(** [math.Min] and [math.Max]. *)
Definition math_Min (x y : float64) : float64 :=
  match x, y with
  | S754_infinity true, _ | _, S754_infinity true => S754_infinity true
  | S754_nan, _ | _, S754_nan => S754_nan
  | S754_zero s, S754_zero s' => S754_zero (s || s')
  | _, _ => if f64_lt x y then x else y
  end.
Definition math_Max (x y : float64) : float64 :=
  match x, y with
  | S754_infinity false, _ | _, S754_infinity false => S754_infinity false
  | S754_nan, _ | _, S754_nan => S754_nan
  | S754_zero s, S754_zero s' => S754_zero (s && s')
  | _, _ => if f64_lt y x then x else y
  end.

(** The loop of [math.Pow] that multiplies by [x ^ i], with [x = x1 * 2 ^ xe]
    and the answer so far [a1 * 2 ^ ae]. *)
Fixpoint powLoop (i : positive) (x1 : float64) (xe : Z) (a1 : float64) (ae : Z) : float64 * Z :=
  if bool_decide (xe < -4096) || bool_decide (4096 < xe) then (a1, ae + xe)
  else
    let squared := f64_mul x1 x1 in
    let small := f64_lt squared f64_half in
    let x1' := if small then f64_add squared squared else squared in
    let xe' := if small then 2 * xe - 1 else 2 * xe in
    match i with
    | xH => (f64_mul a1 x1, ae + xe)
    | xO i' => powLoop i' x1' xe' a1 ae
    | xI i' => powLoop i' x1' xe' (f64_mul a1 x1) (ae + xe)
    end.

(** [math.Pow(x, float64(n))], where [n] has at most 53 bits. *)
Definition math_Pow (x : float64) (n : Z) : float64 :=
  if bool_decide (n = 0) || f64_eq x f64_one then f64_one
  else if bool_decide (n = 1) then x
  else
    match x with
    | S754_nan => S754_nan
    | S754_zero s =>
        if bool_decide (n < 0) then S754_infinity (s && Z.odd n) else S754_zero (s && Z.odd n)
    | S754_infinity s =>
        if bool_decide (n < 0) then S754_zero (s && Z.odd n) else S754_infinity (s && Z.odd n)
    | S754_finite _ _ _ =>
        let (x1, xe) := SFfrexp 53 1024 x in
        let (a1, ae) := powLoop (Z.to_pos (Z.abs n)) x1 xe f64_one 0 in
        if bool_decide (n < 0) then SFldexp 53 1024 (f64_div f64_one a1) (- ae)
        else SFldexp 53 1024 a1 ae
    end.

(** ** Conversion to integers *)

(** The integer part of a finite float. *)
Definition truncate (x : float64) : option Z :=
  match x with
  | S754_zero _ => Some 0
  | S754_finite s m e =>
      let z := if bool_decide (0 ≤ e) then Z.pos m * 2 ^ e else Z.pos m `quot` 2 ^ (- e) in
      Some (if s then - z else z)
  | _ => None
  end.

(** [int64(x)]: the integer part when it is an [int64]; otherwise Go leaves the
    value to the implementation. *)
Definition int64_of_float64 (implementation : float64 → Z) (x : float64) : Z :=
  match truncate x with
  | Some z => if bool_decide (- 2 ^ 63 ≤ z) && bool_decide (z < 2 ^ 63) then z
              else implementation x
  | None => implementation x
  end.
