(* ===== verification/Proto.v ===== *)
(** * Messages of the Temporal API that the modelled code builds and reads.

    The Go types live in the generated package [go.temporal.io/api].  Each is a
    record of the fields the SDK code under [src/internal] reads or writes; a
    pointer field is an [option] ([None] is [nil]), and a protobuf [oneof] is
    an inductive type.  Getters on a nil message return the zero value, as the
    generated getters do. *)

From stdpp Require Import base list gmap strings.
From S2P Require Import Prelude Floats.
Open Scope Z_scope.

(** ** Common messages *)

(** Byte strings are [string]s: a [Payload] carries metadata and data bytes. *)
Record Payload : Type := mkPayload {
  Payload_Metadata : gmap string string;
  Payload_Data : string;
}.

#[export] Instance Payload_eq_dec : EqDecision Payload.
Proof. solve_decision. Defined.

Abbreviation Payloads := (list Payload).

Record UserMetadata : Type := mkUserMetadata {
  UserMetadata_Summary : option Payload;
  UserMetadata_Details : option Payload;
}.

#[export] Instance UserMetadata_eq_dec : EqDecision UserMetadata.
Proof. solve_decision. Defined.

Inductive EventGroupMarker : Type :=
| EventGroupMarker_Label (id : string) (label : option Payload)
| EventGroupMarker_InboundUpdate (inboundUpdateId : string).

#[export] Instance EventGroupMarker_eq_dec : EqDecision EventGroupMarker.
Proof. solve_decision. Defined.

(** [RetryState], [TimeoutType] and the other enumerations of failures are
    carried as numbers; the values the code names are constants. *)
Definition RETRY_STATE_NON_RETRYABLE_FAILURE : Z := 2.
Definition TIMEOUT_TYPE_START_TO_CLOSE : Z := 1.
Definition TIMEOUT_TYPE_SCHEDULE_TO_START : Z := 2.
Definition TIMEOUT_TYPE_SCHEDULE_TO_CLOSE : Z := 3.
Definition TIMEOUT_TYPE_HEARTBEAT : Z := 4.

Record WorkflowExecution : Type := mkWorkflowExecution {
  we_WorkflowId : string;
  we_RunId : string;
}.

#[export] Instance WorkflowExecution_eq_dec : EqDecision WorkflowExecution.
Proof. solve_decision. Defined.

(** The [oneof] of a failure; [NoFailureInfo] when it is not set. *)
Inductive FailureInfo : Type :=
| NoFailureInfo
| ApplicationFailureInfo (type : string) (nonRetryable : bool) (details : option Payloads)
    (nextRetryDelay : option Z) (category : Z)
| CanceledFailureInfo (details : option Payloads)
| TimeoutFailureInfo (timeoutType : Z) (lastHeartbeatDetails : option Payloads)
| TerminatedFailureInfo
| ServerFailureInfo (nonRetryable : bool)
| ResetWorkflowFailureInfo (lastHeartbeatDetails : option Payloads)
| ActivityFailureInfo (scheduledEventId startedEventId : Z) (identity : string)
    (activityType : option string) (activityId : string) (retryState : Z)
| ChildWorkflowExecutionFailureInfo (namespace : string)
    (workflowExecution : option WorkflowExecution) (workflowType : option string)
    (initiatedEventId startedEventId : Z) (retryState : Z)
| NexusOperationFailureInfo (scheduledEventId : Z) (endpoint service operation : string)
    (operationId operationToken : string)
| NexusHandlerFailureInfo (type : string) (retryBehavior : Z).

#[export] Instance FailureInfo_eq_dec : EqDecision FailureInfo.
Proof. solve_decision. Defined.

#[warnings="-register-all"]
Inductive Failure : Type :=
| mkFailure (message source stackTrace : string) (encodedAttributes : option Payload)
    (cause : option Failure) (failureInfo : FailureInfo).

Abbreviation IndexedFields := (gmap string Payload).

(** ** Commands *)

Inductive CommandType : Type :=
| COMMAND_TYPE_SCHEDULE_ACTIVITY_TASK
| COMMAND_TYPE_REQUEST_CANCEL_ACTIVITY_TASK
| COMMAND_TYPE_START_TIMER
| COMMAND_TYPE_COMPLETE_WORKFLOW_EXECUTION
| COMMAND_TYPE_FAIL_WORKFLOW_EXECUTION
| COMMAND_TYPE_CANCEL_TIMER
| COMMAND_TYPE_CANCEL_WORKFLOW_EXECUTION
| COMMAND_TYPE_REQUEST_CANCEL_EXTERNAL_WORKFLOW_EXECUTION
| COMMAND_TYPE_RECORD_MARKER
| COMMAND_TYPE_CONTINUE_AS_NEW_WORKFLOW_EXECUTION
| COMMAND_TYPE_START_CHILD_WORKFLOW_EXECUTION
| COMMAND_TYPE_SIGNAL_EXTERNAL_WORKFLOW_EXECUTION
| COMMAND_TYPE_UPSERT_WORKFLOW_SEARCH_ATTRIBUTES
| COMMAND_TYPE_PROTOCOL_MESSAGE
| COMMAND_TYPE_MODIFY_WORKFLOW_PROPERTIES
| COMMAND_TYPE_SCHEDULE_NEXUS_OPERATION
| COMMAND_TYPE_REQUEST_CANCEL_NEXUS_OPERATION.

#[export] Instance CommandType_eq_dec : EqDecision CommandType.
Proof. solve_decision. Defined.

(** A message that the code only passes on (a retry policy, a priority), by
    its encoding. *)
Abbreviation opaqueMessage := string (only parsing).

(** The [durationpb] fields of an activity command, in nanoseconds. *)
Record activityTimeouts : Type := mkActivityTimeouts {
  ScheduleToCloseTimeout : Z;
  ScheduleToStartTimeout : Z;
  StartToCloseTimeout : Z;
  HeartbeatTimeout : Z;
}.

Record ScheduleActivityTaskCommandAttributes : Type := mkScheduleActivityTask {
  sat_ActivityId : string;
  sat_ActivityType : string;
  sat_TaskQueue : string;
  sat_Input : option Payloads;
  sat_RequestEagerExecution : bool;
  sat_Timeouts : activityTimeouts;
  sat_UseWorkflowBuildId : bool;
  sat_Header : gmap string Payload;
  sat_RetryPolicy : option opaqueMessage;
  sat_Priority : option opaqueMessage;
}.

Record RequestCancelActivityTaskCommandAttributes : Type := mkRequestCancelActivityTask {
  rca_ScheduledEventId : Z;
}.

Record StartTimerCommandAttributes : Type := mkStartTimer {
  st_TimerId : string;
  st_StartToFireTimeout : Z;
}.

Record CancelTimerCommandAttributes : Type := mkCancelTimer {
  ct_TimerId : string;
}.

Record StartChildWorkflowExecutionCommandAttributes : Type := mkStartChildWorkflow {
  scw_Namespace : string;
  scw_WorkflowId : string;
  scw_WorkflowType : string;
  scw_Input : option Payloads;
  scw_TaskQueue : string;
  scw_WorkflowExecutionTimeout : Z;
  scw_WorkflowRunTimeout : Z;
  scw_WorkflowTaskTimeout : Z;
  scw_WorkflowIdReusePolicy : Z;
  scw_ParentClosePolicy : Z;
  scw_RetryPolicy : option opaqueMessage;
  scw_Priority : option opaqueMessage;
  scw_Header : gmap string Payload;
  scw_Memo : option (gmap string Payload);
  scw_SearchAttributes : option IndexedFields;
  scw_VersioningOverride : option opaqueMessage;
  scw_CronSchedule : string;
  scw_InheritBuildId : bool;
}.

Record RequestCancelExternalWorkflowExecutionCommandAttributes : Type :=
  mkRequestCancelExternal {
  rce_Namespace : string;
  rce_WorkflowId : string;
  rce_RunId : string;
  rce_Control : string;
  rce_ChildWorkflowOnly : bool;
}.

Record SignalExternalWorkflowExecutionCommandAttributes : Type := mkSignalExternal {
  se_Namespace : string;
  se_WorkflowId : string;
  se_RunId : string;
  se_SignalName : string;
  se_Input : option Payloads;
  se_Control : string;
  se_ChildWorkflowOnly : bool;
  se_Header : gmap string Payload;
}.

Record RecordMarkerCommandAttributes : Type := mkRecordMarker {
  rm_MarkerName : string;
  rm_Details : gmap string (option Payloads);
  rm_Failure : option Failure;
}.

Record ScheduleNexusOperationCommandAttributes : Type := mkScheduleNexusOperation {
  sno_Endpoint : string;
  sno_Service : string;
  sno_Operation : string;
  sno_Input : option Payload;
  sno_ScheduleToCloseTimeout : Z;
  sno_ScheduleToStartTimeout : Z;
  sno_StartToCloseTimeout : Z;
  sno_NexusHeader : gmap string string;
}.

Record RequestCancelNexusOperationCommandAttributes : Type := mkRequestCancelNexus {
  rcn_ScheduledEventId : Z;
}.

(** The message of a retry policy, with its durations in nanoseconds. *)
Record PBRetryPolicy : Type := mkPBRetryPolicy {
  pb_InitialInterval : Z;
  pb_BackoffCoefficient : float64;
  pb_MaximumInterval : Z;
  pb_MaximumAttempts : Z;
  pb_NonRetryableErrorTypes : list string;
}.

Record ContinueAsNewWorkflowExecutionCommandAttributes : Type := mkContinueAsNewAttributes {
  cana_WorkflowType : string;
  cana_Input : option Payloads;
  cana_TaskQueue : string;
  cana_WorkflowRunTimeout : Z;
  cana_WorkflowTaskTimeout : Z;
  cana_BackoffStartInterval : option Z;
  cana_Header : gmap string Payload;
  cana_Memo : option (gmap string Payload);
  cana_SearchAttributes : option IndexedFields;
  cana_RetryPolicy : option PBRetryPolicy;
  cana_InheritBuildId : bool;
  cana_InitialVersioningBehavior : Z;
}.

Inductive CommandAttributes : Type :=
| Command_ScheduleActivityTaskCommandAttributes
    (a : ScheduleActivityTaskCommandAttributes)
| Command_RequestCancelActivityTaskCommandAttributes
    (a : RequestCancelActivityTaskCommandAttributes)
| Command_StartTimerCommandAttributes (a : StartTimerCommandAttributes)
| Command_CancelTimerCommandAttributes (a : CancelTimerCommandAttributes)
| Command_StartChildWorkflowExecutionCommandAttributes
    (a : StartChildWorkflowExecutionCommandAttributes)
| Command_RequestCancelExternalWorkflowExecutionCommandAttributes
    (a : RequestCancelExternalWorkflowExecutionCommandAttributes)
| Command_SignalExternalWorkflowExecutionCommandAttributes
    (a : SignalExternalWorkflowExecutionCommandAttributes)
| Command_RecordMarkerCommandAttributes (a : RecordMarkerCommandAttributes)
| Command_UpsertWorkflowSearchAttributesCommandAttributes
    (searchAttributes : option IndexedFields)
| Command_ModifyWorkflowPropertiesCommandAttributes
    (upsertedMemo : option (gmap string Payload))
| Command_ProtocolMessageCommandAttributes (messageId : string)
| Command_ScheduleNexusOperationCommandAttributes
    (a : ScheduleNexusOperationCommandAttributes)
| Command_RequestCancelNexusOperationCommandAttributes
    (a : RequestCancelNexusOperationCommandAttributes)
| Command_CompleteWorkflowExecutionCommandAttributes (result : option Payloads)
| Command_FailWorkflowExecutionCommandAttributes (failure : option Failure)
| Command_CancelWorkflowExecutionCommandAttributes (details : option Payloads)
| Command_ContinueAsNewWorkflowExecutionCommandAttributes
    (a : ContinueAsNewWorkflowExecutionCommandAttributes).

Record Command : Type := mkCommand {
  Command_CommandType : CommandType;
  Command_Attributes : option CommandAttributes;
  Command_UserMetadata : option UserMetadata;
  Command_EventGroupMarkers : list EventGroupMarker;
}.

(** ** History events *)

Inductive EventType : Type :=
| EVENT_TYPE_WORKFLOW_EXECUTION_STARTED
| EVENT_TYPE_WORKFLOW_EXECUTION_COMPLETED
| EVENT_TYPE_WORKFLOW_EXECUTION_FAILED
| EVENT_TYPE_WORKFLOW_EXECUTION_TIMED_OUT
| EVENT_TYPE_WORKFLOW_TASK_SCHEDULED
| EVENT_TYPE_WORKFLOW_TASK_STARTED
| EVENT_TYPE_WORKFLOW_TASK_COMPLETED
| EVENT_TYPE_WORKFLOW_TASK_TIMED_OUT
| EVENT_TYPE_WORKFLOW_TASK_FAILED
| EVENT_TYPE_ACTIVITY_TASK_SCHEDULED
| EVENT_TYPE_ACTIVITY_TASK_STARTED
| EVENT_TYPE_ACTIVITY_TASK_COMPLETED
| EVENT_TYPE_ACTIVITY_TASK_FAILED
| EVENT_TYPE_ACTIVITY_TASK_TIMED_OUT
| EVENT_TYPE_ACTIVITY_TASK_CANCEL_REQUESTED
| EVENT_TYPE_ACTIVITY_TASK_CANCELED
| EVENT_TYPE_TIMER_STARTED
| EVENT_TYPE_TIMER_FIRED
| EVENT_TYPE_TIMER_CANCELED
| EVENT_TYPE_WORKFLOW_EXECUTION_CANCEL_REQUESTED
| EVENT_TYPE_WORKFLOW_EXECUTION_CANCELED
| EVENT_TYPE_REQUEST_CANCEL_EXTERNAL_WORKFLOW_EXECUTION_INITIATED
| EVENT_TYPE_REQUEST_CANCEL_EXTERNAL_WORKFLOW_EXECUTION_FAILED
| EVENT_TYPE_EXTERNAL_WORKFLOW_EXECUTION_CANCEL_REQUESTED
| EVENT_TYPE_MARKER_RECORDED
| EVENT_TYPE_WORKFLOW_EXECUTION_SIGNALED
| EVENT_TYPE_WORKFLOW_EXECUTION_TERMINATED
| EVENT_TYPE_WORKFLOW_EXECUTION_CONTINUED_AS_NEW
| EVENT_TYPE_START_CHILD_WORKFLOW_EXECUTION_INITIATED
| EVENT_TYPE_START_CHILD_WORKFLOW_EXECUTION_FAILED
| EVENT_TYPE_CHILD_WORKFLOW_EXECUTION_STARTED
| EVENT_TYPE_CHILD_WORKFLOW_EXECUTION_COMPLETED
| EVENT_TYPE_CHILD_WORKFLOW_EXECUTION_FAILED
| EVENT_TYPE_CHILD_WORKFLOW_EXECUTION_CANCELED
| EVENT_TYPE_CHILD_WORKFLOW_EXECUTION_TIMED_OUT
| EVENT_TYPE_CHILD_WORKFLOW_EXECUTION_TERMINATED
| EVENT_TYPE_SIGNAL_EXTERNAL_WORKFLOW_EXECUTION_INITIATED
| EVENT_TYPE_SIGNAL_EXTERNAL_WORKFLOW_EXECUTION_FAILED
| EVENT_TYPE_EXTERNAL_WORKFLOW_EXECUTION_SIGNALED
| EVENT_TYPE_UPSERT_WORKFLOW_SEARCH_ATTRIBUTES
| EVENT_TYPE_WORKFLOW_EXECUTION_UPDATE_ADMITTED
| EVENT_TYPE_WORKFLOW_EXECUTION_UPDATE_ACCEPTED
| EVENT_TYPE_WORKFLOW_EXECUTION_UPDATE_REJECTED
| EVENT_TYPE_WORKFLOW_EXECUTION_UPDATE_COMPLETED
| EVENT_TYPE_WORKFLOW_PROPERTIES_MODIFIED
| EVENT_TYPE_NEXUS_OPERATION_SCHEDULED
| EVENT_TYPE_NEXUS_OPERATION_STARTED
| EVENT_TYPE_NEXUS_OPERATION_COMPLETED
| EVENT_TYPE_NEXUS_OPERATION_FAILED
| EVENT_TYPE_NEXUS_OPERATION_CANCELED
| EVENT_TYPE_NEXUS_OPERATION_TIMED_OUT
| EVENT_TYPE_NEXUS_OPERATION_CANCEL_REQUESTED
| EVENT_TYPE_NEXUS_OPERATION_CANCEL_REQUEST_COMPLETED
| EVENT_TYPE_NEXUS_OPERATION_CANCEL_REQUEST_FAILED
| EVENT_TYPE_OTHER (value : Z).

#[export] Instance EventType_eq_dec : EqDecision EventType.
Proof. solve_decision. Defined.

(** The causes that events carry: the values the code names, and the others
    by the text [String] gives them. *)
Inductive WorkflowTaskFailedCause : Type :=
| WORKFLOW_TASK_FAILED_CAUSE_RESET_WORKFLOW
| WORKFLOW_TASK_FAILED_CAUSE_OTHER (name : string).

Inductive StartChildWorkflowExecutionFailedCause : Type :=
| START_CHILD_WORKFLOW_EXECUTION_FAILED_CAUSE_WORKFLOW_ALREADY_EXISTS
| START_CHILD_WORKFLOW_EXECUTION_FAILED_CAUSE_NAMESPACE_NOT_FOUND
| START_CHILD_WORKFLOW_EXECUTION_FAILED_CAUSE_INVALID_VERSIONING_OVERRIDE
| START_CHILD_WORKFLOW_EXECUTION_FAILED_CAUSE_OTHER (name : string).

(** The causes of [CancelExternalWorkflowExecutionFailedCause] and
    [SignalExternalWorkflowExecutionFailedCause]. *)
Inductive ExternalWorkflowFailedCause : Type :=
| FAILED_CAUSE_EXTERNAL_WORKFLOW_EXECUTION_NOT_FOUND
| FAILED_CAUSE_NAMESPACE_NOT_FOUND
| FAILED_CAUSE_OTHER (name : string).

(** The attributes of a history event that the modelled code reads. *)
(** What a started event says of the execution; the name of the task queue is
    [None] for a nil message. *)
Record startedExecution : Type := mkStartedExecution {
  started_TaskQueue : option string;
  started_OriginalExecutionRunId : string;
  started_FirstExecutionRunId : string;
  started_ContinuedExecutionRunId : string;
  started_WorkflowExecutionTimeout : Z;
  started_WorkflowRunTimeout : Z;
  started_WorkflowTaskTimeout : Z;
  started_Attempt : Z;
  started_LastCompletionResult : option Payloads;
  started_ContinuedFailure : option Failure;
  started_CronSchedule : string;
  started_ParentNamespace : string;
  started_ParentExecution : option WorkflowExecution;
  started_RootExecution : option WorkflowExecution;
  started_Memo : option (gmap string Payload);
  started_SearchAttributes : option IndexedFields;
  started_RetryPolicy : option PBRetryPolicy;
  started_Priority : option opaqueMessage;
  started_PropagatedNexusSerializationContext : option opaqueMessage;
}.

Inductive EventAttributes : Type :=
| NoEventAttributes
| WorkflowTaskCompletedEventAttributes (binaryChecksum : string)
    (langUsedFlags : list Z) (sdkName sdkVersion : string)
    (deploymentBuildId workerDeploymentVersion workerVersionBuildId : string)
| ActivityTaskScheduledEventAttributes (activityId activityType : string)
| ActivityTaskCompletedEventAttributes (scheduledEventId : Z) (result : option Payloads)
| ActivityTaskFailedEventAttributes (scheduledEventId startedEventId : Z) (identity : string)
    (retryState : Z) (failure : option Failure)
| ActivityTaskTimedOutEventAttributes (scheduledEventId startedEventId : Z) (retryState : Z)
    (failure : option Failure)
| ActivityTaskCanceledEventAttributes (scheduledEventId startedEventId : Z) (identity : string)
    (details : option Payloads)
| ActivityTaskCancelRequestedEventAttributes (scheduledEventId : Z)
| TimerStartedEventAttributes (timerId : string)
| TimerCanceledEventAttributes (timerId : string)
| MarkerRecordedEventAttributes (markerName : string)
    (details : option (gmap string (option Payloads))) (failure : option Failure)
| RequestCancelExternalInitiatedEventAttributes (namespace workflowId control : string)
| SignalExternalInitiatedEventAttributes (namespace workflowId signalName control : string)
| StartChildInitiatedEventAttributes (workflowId workflowType : string)
| UpsertSearchAttributesEventAttributes (searchAttributes : IndexedFields)
| UpdateAcceptedEventAttributes (protocolInstanceId acceptedRequestMessageId : string)
    (acceptedRequestSequencingEventId : Z) (acceptedRequest : option string)
| UpdateCompletedEventAttributes (updateId : string)
| UpdateAdmittedEventAttributes (updateId : string) (request : option string)
| NexusOperationScheduledEventAttributes (service operation : string)
| NexusOperationCancelRequestedEventAttributes (scheduledEventId : Z)
| WorkflowExecutionStartedEventAttributes (header : gmap string Payload) (input : option Payloads)
    (execution : startedExecution)
| WorkflowTaskStartedEventAttributes (suggestContinueAsNew : bool)
    (suggestContinueAsNewReasons : list Z) (targetWorkerDeploymentVersionChanged : bool)
    (historySizeBytes : Z)
| WorkflowTaskFailedEventAttributes (cause : WorkflowTaskFailedCause) (newRunId : string)
| TimerFiredEventAttributes (timerId : string)
| WorkflowExecutionSignaledEventAttributes (signalName : string) (input : option Payloads)
    (header : gmap string Payload)
| RequestCancelExternalFailedEventAttributes (initiatedEventId : Z) (workflowId : string)
    (cause : ExternalWorkflowFailedCause)
| ExternalCancelRequestedEventAttributes (initiatedEventId : Z) (workflowId : string)
| SignalExternalFailedEventAttributes (initiatedEventId : Z)
    (cause : ExternalWorkflowFailedCause)
| ExternalSignaledEventAttributes (initiatedEventId : Z)
| StartChildFailedEventAttributes (namespace workflowId workflowType : string)
    (initiatedEventId : Z) (cause : StartChildWorkflowExecutionFailedCause)
| ChildWorkflowStartedEventAttributes (execution : WorkflowExecution)
| ChildWorkflowCompletedEventAttributes (execution : WorkflowExecution) (result : option Payloads)
| ChildWorkflowFailedEventAttributes (namespace : string) (execution : WorkflowExecution)
    (workflowType : string) (initiatedEventId startedEventId : Z) (retryState : Z)
    (failure : option Failure)
| ChildWorkflowCanceledEventAttributes (namespace : string) (execution : WorkflowExecution)
    (workflowType : string) (initiatedEventId startedEventId : Z) (details : option Payloads)
| ChildWorkflowTimedOutEventAttributes (namespace : string) (execution : WorkflowExecution)
    (workflowType : string) (initiatedEventId startedEventId : Z) (retryState : Z)
| ChildWorkflowTerminatedEventAttributes (namespace : string) (execution : WorkflowExecution)
    (workflowType : string) (initiatedEventId startedEventId : Z)
| WorkflowPropertiesModifiedEventAttributes (upsertedMemo : option (gmap string Payload))
| NexusOperationStartedEventAttributes (scheduledEventId : Z) (operationToken operationId : string)
| NexusOperationCompletedEventAttributes (scheduledEventId : Z) (result : option Payload)
| NexusOperationFailedEventAttributes (scheduledEventId : Z) (failure : option Failure)
| NexusOperationCanceledEventAttributes (scheduledEventId : Z) (failure : option Failure)
| NexusOperationTimedOutEventAttributes (scheduledEventId : Z) (failure : option Failure)
| NexusOperationCancelRequestCompletedEventAttributes (scheduledEventId : Z)
| NexusOperationCancelRequestFailedEventAttributes (scheduledEventId : Z)
    (failure : option Failure).

Record HistoryEvent : Type := mkHistoryEvent {
  Event_EventId : Z;
  Event_EventType : EventType;
  Event_Attributes : EventAttributes;
  Event_EventTime : Z;
  Event_WorkerMayIgnore : bool;
}.

(** ** Data conversion

    [converter.DataConverter] is an interface implemented by the user or by
    the default converter: here, the methods the modelled code calls, on the
    Go values it passes. *)

(** What a local activity marker records. *)
Record localActivityMarkerData : Type := mkLocalActivityMarkerData {
  lamd_ActivityID : string;
  lamd_ActivityType : string;
  lamd_ReplayTime : Z;
  lamd_Attempt : Z;
  lamd_Backoff : Z;
}.

(** A value passed as [any]; [goUser] is a value of a type of the user, by
    identity. *)
Inductive goValue : Type :=
| goString (s : string)
| goInt64 (z : Z)
| goInt (z : Z)
| goBool (b : bool)
| goPayloads (p : option Payloads)
| goLocalActivityMarkerData (d : localActivityMarkerData)
| goEncodedFailure (message stackTrace : string)
| goEncodedValues (values : option Payloads)
| goStrings (l : list string)
| goSessionInfos (l : list (string * string))
| goNil
| goUser (v : nat).

(** The type of the pointer a value is decoded into. *)
Inductive goKind : Type :=
| kindString
| kindInt64
| kindInt
| kindBool
| kindPayloads
| kindLocalActivityMarkerData
| kindEncodedFailure
| kindEncodedValues
| kindStrings
| kindSessionInfos
| kindNil
| kindUser.

Definition kindOf (v : goValue) : goKind :=
  match v with
  | goString _ => kindString
  | goInt64 _ => kindInt64
  | goInt _ => kindInt
  | goBool _ => kindBool
  | goPayloads _ => kindPayloads
  | goLocalActivityMarkerData _ => kindLocalActivityMarkerData
  | goEncodedFailure _ _ => kindEncodedFailure
  | goEncodedValues _ => kindEncodedValues
  | goStrings _ => kindStrings
  | goSessionInfos _ => kindSessionInfos
  | goNil => kindNil
  | goUser _ => kindUser
  end.

Record DataConverter : Type := mkDataConverter {
  ToPayload : goValue → string + Payload;
  ToPayloads : list goValue → string + option Payloads;
  FromPayload : Payload → goKind → string + goValue;
  FromPayloads : option Payloads → list goKind → string + list goValue;
}.

(** What [DataConverter] documents: a value decodes to what was encoded. *)
Record converts (dc : DataConverter) : Prop := {
  payload_roundtrip : ∀ v p, ToPayload dc v = inr p → FromPayload dc p (kindOf v) = inr v;
  payloads_roundtrip : ∀ vs ps, ToPayloads dc vs = inr ps →
    FromPayloads dc ps (kindOf <$> vs) = inr vs;
}.
