(* ===== verification/CommandMachine.v ===== *)
(** * Command state machines ([src/internal/internal_command_state_machine.go]).

    A workflow command (schedule an activity, start a timer, ...) is tracked by
    a state machine from its creation to its completion.  The machines and the
    [commandsHelper] that indexes them refer to each other by pointer, and the
    helper's map, its two lists and a Nexus machine's [cancelation] field alias
    the same machines, so the machines live in a heap ([machines]) and every
    alias is a reference ([ref]) into it. *)

From stdpp Require Import base list gmap strings.
From S2P Require Import Prelude Proto.
Open Scope Z_scope.

(** ** Data *)

Inductive commandState : Type :=
| commandStateCreated
| commandStateCommandSent
| commandStateCanceledBeforeInitiated
| commandStateInitiated
| commandStateStarted
| commandStateCanceledAfterInitiated
| commandStateCanceledAfterStarted
| commandStateCancellationCommandSent
| commandStateCompletedAfterCancellationCommandSent
| commandStateCompleted
| commandStateCanceledBeforeSent
| commandStateCancellationCommandAccepted.

#[export] Instance commandState_eq_dec : EqDecision commandState.
Proof. solve_decision. Defined.

Inductive commandType : Type :=
| commandTypeActivity
| commandTypeChildWorkflow
| commandTypeCancellation
| commandTypeMarker
| commandTypeTimer
| commandTypeSignal
| commandTypeUpsertSearchAttributes
| commandTypeCancelTimer
| commandTypeRequestCancelActivityTask
| commandTypeAcceptWorkflowUpdate
| commandTypeCompleteWorkflowUpdate
| commandTypeModifyProperties
| commandTypeRejectWorkflowUpdate
| commandTypeProtocolMessage
| commandTypeNexusOperation
| commandTypeRequestCancelNexusOperation.

#[export] Instance commandType_eq_dec : EqDecision commandType.
Proof. solve_decision. Defined.

(** The numeric value of a [commandType] constant. *)
Definition commandType_value (t : commandType) : nat :=
  match t with
  | commandTypeActivity => 0
  | commandTypeChildWorkflow => 1
  | commandTypeCancellation => 2
  | commandTypeMarker => 3
  | commandTypeTimer => 4
  | commandTypeSignal => 5
  | commandTypeUpsertSearchAttributes => 6
  | commandTypeCancelTimer => 7
  | commandTypeRequestCancelActivityTask => 8
  | commandTypeAcceptWorkflowUpdate => 9
  | commandTypeCompleteWorkflowUpdate => 10
  | commandTypeModifyProperties => 11
  | commandTypeRejectWorkflowUpdate => 12
  | commandTypeProtocolMessage => 13
  | commandTypeNexusOperation => 14
  | commandTypeRequestCancelNexusOperation => 15
  end%nat.

Definition commandType_of_value (n : nat) : option commandType :=
  match n with
  | 0 => Some commandTypeActivity
  | 1 => Some commandTypeChildWorkflow
  | 2 => Some commandTypeCancellation
  | 3 => Some commandTypeMarker
  | 4 => Some commandTypeTimer
  | 5 => Some commandTypeSignal
  | 6 => Some commandTypeUpsertSearchAttributes
  | 7 => Some commandTypeCancelTimer
  | 8 => Some commandTypeRequestCancelActivityTask
  | 9 => Some commandTypeAcceptWorkflowUpdate
  | 10 => Some commandTypeCompleteWorkflowUpdate
  | 11 => Some commandTypeModifyProperties
  | 12 => Some commandTypeRejectWorkflowUpdate
  | 13 => Some commandTypeProtocolMessage
  | 14 => Some commandTypeNexusOperation
  | 15 => Some commandTypeRequestCancelNexusOperation
  | _ => None
  end%nat.

#[export] Instance commandType_countable : Countable commandType.
Proof.
  refine (inj_countable commandType_value commandType_of_value _). by intros [].
Defined.

Record commandID : Type := mkCommandID {
  commandID_commandType : commandType;
  commandID_id : string;
}.

#[export] Instance commandID_eq_dec : EqDecision commandID.
Proof. solve_decision. Defined.

#[export] Instance commandID_countable : Countable commandID.
Proof.
  refine (inj_countable' (λ i, (commandID_commandType i, commandID_id i))
            (λ p, mkCommandID p.1 p.2) _). by intros [].
Defined.

(** The events recorded in a machine's debug history. *)
Definition eventCancel : string := "cancel".
Definition eventCommandSent : string := "handleCommandSent".
Definition eventInitiated : string := "handleInitiatedEvent".
Definition eventInitiationFailed : string := "handleInitiationFailedEvent".
Definition eventStarted : string := "handleStartedEvent".
Definition eventCompletion : string := "handleCompletionEvent".
Definition eventCancelInitiated : string := "handleCancelInitiatedEvent".
Definition eventCancelFailed : string := "handleCancelFailedEvent".
Definition eventCanceled : string := "handleCanceledEvent".
Definition eventExternalWorkflowExecutionCancelRequested : string :=
  "handleExternalWorkflowExecutionCancelRequested".

Definition sideEffectMarkerName : string := "SideEffect".
Definition versionMarkerName : string := "Version".
Definition localActivityMarkerName : string := "LocalActivity".
Definition mutableSideEffectMarkerName : string := "MutableSideEffect".
Definition sideEffectMarkerIDName : string := "side-effect-id".
Definition sideEffectMarkerDataName : string := "data".
Definition versionMarkerChangeIDName : string := "change-id".
Definition versionMarkerDataName : string := "version".
Definition versionSearchAttributeUpdatedName : string :=
  "version-search-attribute-updated".
Definition mutableSideEffectCallCounterName : string :=
  "mutable-side-effect-call-counter".

(** What [setData] attaches to a machine: the [scheduled*] structs of
    [internal_event_handlers.go].  A callback is a Go closure and a failure
    converter an interface value, both represented by an identifier; [None] is
    a nil callback. *)
Inductive machineData : Type :=
| scheduledTimer (callback : nat) (handled : bool)
| scheduledActivity (callback : nat) (waitForCancelRequest handled : bool)
    (activityType : string) (failureConverter : nat)
| scheduledNexusOperation (startedCallback completedCallback : option nat)
    (cancellationType : Z) (endpoint service operation : string) (failureConverter : nat)
| scheduledChildWorkflow (resultCallback startedCallback : nat)
    (waitForCancellation handled : bool) (failureConverter : nat)
| scheduledCancellation (callback : nat) (handled : bool)
| scheduledSignal (callback : nat) (handled : bool).

(** References to heap-allocated machines. *)
Abbreviation ref := nat.

(** The concrete machine types with the fields each adds to the base. *)
Inductive machineKind : Type :=
| activityCommandStateMachine (scheduleID : Z)
    (attributes : ScheduleActivityTaskCommandAttributes)
    (startMetadata : option UserMetadata)
| cancelActivityStateMachine (attributes : RequestCancelActivityTaskCommandAttributes)
| timerCommandStateMachine (attributes : StartTimerCommandAttributes)
    (startMetadata : option UserMetadata)
| cancelTimerCommandStateMachine (attributes : CancelTimerCommandAttributes)
| childWorkflowCommandStateMachine
    (attributes : StartChildWorkflowExecutionCommandAttributes)
    (startMetadata : option UserMetadata)
| cancelExternalWorkflowCommandStateMachine (command : Command)
| signalExternalWorkflowCommandStateMachine (command : Command)
| markerCommandStateMachine (command : Command)
| completeOnSendStateMachine (command : Command)
| modifyPropertiesCommandStateMachine (command : Command)
| nexusOperationStateMachine (seq scheduledEventID : Z)
    (attributes : ScheduleNexusOperationCommandAttributes)
    (cancelation : option ref) (startMetadata : option UserMetadata)
| requestCancelNexusOperationStateMachine
    (attributes : RequestCancelNexusOperationCommandAttributes).

(** [commandStateMachineBase] together with the fields of the concrete type. *)
Record machine : Type := mkMachine {
  m_id : commandID;
  m_state : commandState;
  m_history : list string;
  m_data : option machineData;
  m_eventGroupMarkers : list EventGroupMarker;
  m_kind : machineKind;
}.

Record versionMarker : Type := mkVersionMarker {
  vm_changeID : string;
  vm_searchAttrUpdated : bool;
}.

(** An element of a [container/list] list: its identity and its value. *)
Record element : Type := mkElement {
  elem_id : nat;
  elem_value : ref;
}.

#[export] Instance element_eq_dec : EqDecision element.
Proof. solve_decision. Defined.

(** [commandsHelper], with the heap of its machines.  [machines] and
    [next_ref] are the Go heap restricted to state machines; [next_elem]
    generates list-element identities. *)
Record commandsHelper : Type := mkCommandsHelper {
  nextCommandEventID : Z;
  orderedCommands : list element;
  commands : gmap commandID element;
  scheduledEventIDToActivityID : gmap Z string;
  scheduledEventIDToCancellationID : gmap Z string;
  scheduledEventIDToSignalID : gmap Z string;
  versionMarkerLookup : gmap Z versionMarker;
  scheduledEventIDToNexusSeq : gmap Z Z;
  nexusOperationsWithoutScheduledID : list element;
  machines : gmap ref machine;
  next_ref : ref;
  next_elem : nat;
}.

(** A method of the helper or of one of its machines. *)
Abbreviation M := (Go commandsHelper).

(** ** Field updates *)

Definition set_nextCommandEventID (v : Z) (h : commandsHelper) : commandsHelper :=
  mkCommandsHelper v (orderedCommands h) (commands h) (scheduledEventIDToActivityID h)
    (scheduledEventIDToCancellationID h) (scheduledEventIDToSignalID h)
    (versionMarkerLookup h) (scheduledEventIDToNexusSeq h)
    (nexusOperationsWithoutScheduledID h) (machines h) (next_ref h) (next_elem h).

Definition set_index (l : list element) (c : gmap commandID element)
    (h : commandsHelper) : commandsHelper :=
  mkCommandsHelper (nextCommandEventID h) l c (scheduledEventIDToActivityID h)
    (scheduledEventIDToCancellationID h) (scheduledEventIDToSignalID h)
    (versionMarkerLookup h) (scheduledEventIDToNexusSeq h)
    (nexusOperationsWithoutScheduledID h) (machines h) (next_ref h) (next_elem h).

Definition set_scheduledEventIDToActivityID (v : gmap Z string) (h : commandsHelper) :=
  mkCommandsHelper (nextCommandEventID h) (orderedCommands h) (commands h) v
    (scheduledEventIDToCancellationID h) (scheduledEventIDToSignalID h)
    (versionMarkerLookup h) (scheduledEventIDToNexusSeq h)
    (nexusOperationsWithoutScheduledID h) (machines h) (next_ref h) (next_elem h).

Definition set_scheduledEventIDToCancellationID (v : gmap Z string) (h : commandsHelper) :=
  mkCommandsHelper (nextCommandEventID h) (orderedCommands h) (commands h)
    (scheduledEventIDToActivityID h) v (scheduledEventIDToSignalID h)
    (versionMarkerLookup h) (scheduledEventIDToNexusSeq h)
    (nexusOperationsWithoutScheduledID h) (machines h) (next_ref h) (next_elem h).

Definition set_scheduledEventIDToSignalID (v : gmap Z string) (h : commandsHelper) :=
  mkCommandsHelper (nextCommandEventID h) (orderedCommands h) (commands h)
    (scheduledEventIDToActivityID h) (scheduledEventIDToCancellationID h) v
    (versionMarkerLookup h) (scheduledEventIDToNexusSeq h)
    (nexusOperationsWithoutScheduledID h) (machines h) (next_ref h) (next_elem h).

Definition set_versionMarkerLookup (v : gmap Z versionMarker) (h : commandsHelper) :=
  mkCommandsHelper (nextCommandEventID h) (orderedCommands h) (commands h)
    (scheduledEventIDToActivityID h) (scheduledEventIDToCancellationID h)
    (scheduledEventIDToSignalID h) v (scheduledEventIDToNexusSeq h)
    (nexusOperationsWithoutScheduledID h) (machines h) (next_ref h) (next_elem h).

Definition set_scheduledEventIDToNexusSeq (v : gmap Z Z) (h : commandsHelper) :=
  mkCommandsHelper (nextCommandEventID h) (orderedCommands h) (commands h)
    (scheduledEventIDToActivityID h) (scheduledEventIDToCancellationID h)
    (scheduledEventIDToSignalID h) (versionMarkerLookup h) v
    (nexusOperationsWithoutScheduledID h) (machines h) (next_ref h) (next_elem h).

Definition set_nexusOperationsWithoutScheduledID (v : list element) (h : commandsHelper) :=
  mkCommandsHelper (nextCommandEventID h) (orderedCommands h) (commands h)
    (scheduledEventIDToActivityID h) (scheduledEventIDToCancellationID h)
    (scheduledEventIDToSignalID h) (versionMarkerLookup h) (scheduledEventIDToNexusSeq h)
    v (machines h) (next_ref h) (next_elem h).

Definition set_machines (v : gmap ref machine) (n : ref) (h : commandsHelper) :=
  mkCommandsHelper (nextCommandEventID h) (orderedCommands h) (commands h)
    (scheduledEventIDToActivityID h) (scheduledEventIDToCancellationID h)
    (scheduledEventIDToSignalID h) (versionMarkerLookup h) (scheduledEventIDToNexusSeq h)
    (nexusOperationsWithoutScheduledID h) v n (next_elem h).

Definition set_next_elem (n : nat) (h : commandsHelper) :=
  mkCommandsHelper (nextCommandEventID h) (orderedCommands h) (commands h)
    (scheduledEventIDToActivityID h) (scheduledEventIDToCancellationID h)
    (scheduledEventIDToSignalID h) (versionMarkerLookup h) (scheduledEventIDToNexusSeq h)
    (nexusOperationsWithoutScheduledID h) (machines h) (next_ref h) n.

Definition m_set_state (s : commandState) (m : machine) : machine :=
  mkMachine (m_id m) s (m_history m) (m_data m) (m_eventGroupMarkers m) (m_kind m).
Definition m_add_history (e : string) (m : machine) : machine :=
  mkMachine (m_id m) (m_state m) (m_history m ++ [e]) (m_data m)
    (m_eventGroupMarkers m) (m_kind m).
Definition m_set_data (d : option machineData) (m : machine) : machine :=
  mkMachine (m_id m) (m_state m) (m_history m) d (m_eventGroupMarkers m) (m_kind m).
Definition m_set_eventGroupMarkers (g : list EventGroupMarker) (m : machine) : machine :=
  mkMachine (m_id m) (m_state m) (m_history m) (m_data m) g (m_kind m).
Definition m_set_kind (k : machineKind) (m : machine) : machine :=
  mkMachine (m_id m) (m_state m) (m_history m) (m_data m) (m_eventGroupMarkers m) k.

(** ** Pointers and [container/list] *)

(** Dereferencing a pointer that was never allocated is a nil dereference. *)
Definition deref (d : ref) : M machine :=
  h ← get;
  match machines h !! d with
  | Some m => mret m
  | None => panic (runtimeError "invalid memory address or nil pointer dereference")
  end.

Definition alloc (m : machine) : M ref :=
  h ← get;
  _ ← modify (λ h, set_machines (<[next_ref h := m]> (machines h)) (S (next_ref h)) h);
  mret (next_ref h).

(** Writes through a pointer. *)
Definition update (d : ref) (f : machine → machine) : M unit :=
  m ← deref d;
  modify (λ h, set_machines (<[d := f m]> (machines h)) (next_ref h) h).

(** [List.Remove]: removes the element if it still belongs to the list. *)
Definition list_remove (e : element) (l : list element) : list element :=
  filter (λ e', elem_id e' ≠ elem_id e) l.

(** [Element.Next]: the following element; nil at the end of the list and for
    an element that no longer belongs to it. *)
Fixpoint list_next (e : element) (l : list element) : option element :=
  match l with
  | [] => None
  | e' :: l' => if decide (elem_id e' = elem_id e) then head l' else list_next e l'
  end.

Definition new_element (d : ref) : M element :=
  h ← get;
  _ ← modify (set_next_elem (S (next_elem h)));
  mret (mkElement (next_elem h) d).

(** ** Printing *)

Definition commandState_String (d : commandState) : string :=
  match d with
  | commandStateCreated => "Created"
  | commandStateCommandSent => "CommandSent"
  | commandStateCanceledBeforeInitiated => "CanceledBeforeInitiated"
  | commandStateInitiated => "Initiated"
  | commandStateStarted => "Started"
  | commandStateCanceledAfterInitiated => "CanceledAfterInitiated"
  | commandStateCanceledAfterStarted => "CanceledAfterStarted"
  | commandStateCancellationCommandSent => "CancellationCommandSent"
  | commandStateCompletedAfterCancellationCommandSent =>
      "CompletedAfterCancellationCommandSent"
  | commandStateCompleted => "Completed"
  | commandStateCanceledBeforeSent => "CanceledBeforeSent"
  | commandStateCancellationCommandAccepted => "CancellationCommandAccepted"
  end.

Definition commandType_String (d : commandType) : string :=
  match d with
  | commandTypeActivity => "Activity"
  | commandTypeChildWorkflow => "ChildWorkflow"
  | commandTypeCancellation => "Cancellation"
  | commandTypeMarker => "Marker"
  | commandTypeTimer => "Timer"
  | commandTypeSignal => "Signal"
  | commandTypeCancelTimer => "CancelTimer"
  | commandTypeRequestCancelActivityTask => "RequestCancelActivityTask"
  | commandTypeAcceptWorkflowUpdate => "AcceptWorkflowUpdate"
  | commandTypeCompleteWorkflowUpdate => "CompleteWorkflowUpdate"
  | commandTypeRejectWorkflowUpdate => "RejectWorkflowUpdate"
  | commandTypeNexusOperation => "NexusOperation"
  | commandTypeRequestCancelNexusOperation => "RequestCancelNexusOperation"
  | _ => "Unknown"
  end.

Definition commandID_String (d : commandID) : string :=
  ("CommandType: " +:+ commandType_String (commandID_commandType d) +:+
   ", ID: " +:+ commandID_id d)%string.

Definition makeCommandID (t : commandType) (id : string) : commandID := mkCommandID t id.

(** ** The methods of the base machine *)

Definition base_isDone (m : machine) : bool :=
  bool_decide (m_state m = commandStateCompleted) ||
  bool_decide (m_state m = commandStateCompletedAfterCancellationCommandSent).

Definition base_String (m : machine) : string :=
  (commandID_String (m_id m) +:+ ", state=" +:+ commandState_String (m_state m) +:+
   ", isDone()=" +:+ FormatBool (base_isDone m) +:+
   ", history=" +:+ FormatStrings (m_history m))%string.

Definition panicIllegalState {A} (message : string) : M A := panic (illegalState message).

Definition failStateTransition {A} (d : ref) (event : string) : M A :=
  m ← deref d;
  panicIllegalState ("[TMPRL1100] invalid state transition: attempt to " +:+ event +:+
                     ", " +:+ base_String m)%string.

Definition getState (d : ref) : M commandState := m ← deref d; mret (m_state m).
Definition getID (d : ref) : M commandID := m ← deref d; mret (m_id m).
Definition setData (d : ref) (data : option machineData) : M unit :=
  update d (m_set_data data).
Definition getData (d : ref) : M (option machineData) := m ← deref d; mret (m_data m).

(** Records the event and the new state; a machine that completes is removed
    from the helper's list and map. *)
Definition moveState (d : ref) (newState : commandState) (event : string) : M unit :=
  _ ← update d (λ m, m_add_history (commandState_String newState)
                       (m_set_state newState (m_add_history event m)));
  if decide (newState = commandStateCompleted) then
    id ← getID d;
    h ← get;
    match commands h !! id with
    | Some elem =>
        modify (λ h, set_index (list_remove elem (orderedCommands h))
                       (delete id (commands h)) h)
    | None => mret tt
    end
  else mret tt.

Definition base_handleCommandSent (d : ref) : M unit :=
  s ← getState d;
  match s with
  | commandStateCreated => moveState d commandStateCommandSent eventCommandSent
  | _ => mret tt
  end.

Definition base_cancel (d : ref) : M unit :=
  s ← getState d;
  match s with
  | commandStateCompleted | commandStateCompletedAfterCancellationCommandSent => mret tt
  | commandStateCanceledAfterInitiated | commandStateCancellationCommandSent => mret tt
  | commandStateCreated => moveState d commandStateCanceledBeforeSent eventCancel
  | commandStateCommandSent => moveState d commandStateCancellationCommandSent eventCancel
  | commandStateInitiated => moveState d commandStateCanceledAfterInitiated eventCancel
  | _ => failStateTransition d eventCancel
  end.

Definition base_handleInitiatedEvent (d : ref) : M unit :=
  s ← getState d;
  match s with
  | commandStateCommandSent => moveState d commandStateInitiated eventInitiated
  | commandStateCanceledBeforeInitiated | commandStateCanceledBeforeSent
  | commandStateCancellationCommandSent =>
      moveState d commandStateCanceledAfterInitiated eventInitiated
  | _ => failStateTransition d eventInitiated
  end.

Definition base_handleInitiationFailedEvent (d : ref) : M unit :=
  s ← getState d;
  match s with
  | commandStateInitiated | commandStateCommandSent
  | commandStateCanceledBeforeInitiated | commandStateCancellationCommandSent =>
      moveState d commandStateCompleted eventInitiationFailed
  | _ => failStateTransition d eventInitiationFailed
  end.

Definition base_handleStartedEvent (d : ref) : M unit :=
  update d (m_add_history eventStarted).

Definition base_handleCompletionEvent (d : ref) : M unit :=
  s ← getState d;
  match s with
  | commandStateCanceledAfterInitiated | commandStateInitiated =>
      moveState d commandStateCompleted eventCompletion
  | commandStateCancellationCommandSent =>
      moveState d commandStateCompletedAfterCancellationCommandSent eventCompletion
  | _ => failStateTransition d eventCompletion
  end.

Definition base_handleCancelInitiatedEvent (d : ref) : M unit :=
  _ ← update d (m_add_history eventCancelInitiated);
  s ← getState d;
  match s with
  | commandStateCancellationCommandSent | commandStateCanceledAfterInitiated => mret tt
  | commandStateInitiated =>
      moveState d commandStateCanceledAfterInitiated eventCancelInitiated
  | _ => failStateTransition d eventCancelInitiated
  end.

Definition base_handleCancelFailedEvent (d : ref) : M unit :=
  s ← getState d;
  match s with
  | commandStateCompletedAfterCancellationCommandSent =>
      moveState d commandStateCompleted eventCancelFailed
  | _ => failStateTransition d eventCancelFailed
  end.

Definition base_handleCanceledEvent (d : ref) : M unit :=
  s ← getState d;
  match s with
  | commandStateCancellationCommandSent | commandStateCanceledAfterInitiated
  | commandStateCanceledAfterStarted | commandStateCancellationCommandAccepted =>
      moveState d commandStateCompleted eventCanceled
  | _ => failStateTransition d eventCanceled
  end.

(** ** Constructors *)

Definition newCommandStateMachineBase (t : commandType) (id : string)
    (k : machineKind) : M ref :=
  alloc (mkMachine (makeCommandID t id) commandStateCreated
           [commandState_String commandStateCreated] None [] k).

Definition newActivityCommandStateMachine (scheduleID : Z)
    (attributes : ScheduleActivityTaskCommandAttributes)
    (startMetadata : option UserMetadata) : M ref :=
  newCommandStateMachineBase commandTypeActivity (sat_ActivityId attributes)
    (activityCommandStateMachine scheduleID attributes startMetadata).

Definition newCancelActivityStateMachine
    (attributes : RequestCancelActivityTaskCommandAttributes) : M ref :=
  newCommandStateMachineBase commandTypeRequestCancelActivityTask
    (FormatInt (rca_ScheduledEventId attributes))
    (cancelActivityStateMachine attributes).

(** A Nexus machine also joins the list of machines that have no scheduled
    event yet. *)
Definition newNexusOperationStateMachine (seq : Z)
    (attributes : ScheduleNexusOperationCommandAttributes)
    (startMetadata : option UserMetadata) : M ref :=
  sm ← newCommandStateMachineBase commandTypeNexusOperation (FormatInt seq)
         (nexusOperationStateMachine seq 0 attributes None startMetadata);
  elem ← new_element sm;
  _ ← modify (λ h, set_nexusOperationsWithoutScheduledID
                     (nexusOperationsWithoutScheduledID h ++ [elem]) h);
  mret sm.

Definition newRequestCancelNexusOperationStateMachine
    (attributes : RequestCancelNexusOperationCommandAttributes) : M ref :=
  newCommandStateMachineBase commandTypeRequestCancelNexusOperation
    (FormatInt (rcn_ScheduledEventId attributes))
    (requestCancelNexusOperationStateMachine attributes).

Definition newTimerCommandStateMachine (attributes : StartTimerCommandAttributes)
    (startMetadata : option UserMetadata) : M ref :=
  newCommandStateMachineBase commandTypeTimer (st_TimerId attributes)
    (timerCommandStateMachine attributes startMetadata).

Definition newCancelTimerCommandStateMachine
    (attributes : CancelTimerCommandAttributes) : M ref :=
  newCommandStateMachineBase commandTypeCancelTimer (ct_TimerId attributes)
    (cancelTimerCommandStateMachine attributes).

Definition newChildWorkflowCommandStateMachine
    (attributes : StartChildWorkflowExecutionCommandAttributes)
    (startMetadata : option UserMetadata) : M ref :=
  newCommandStateMachineBase commandTypeChildWorkflow (scw_WorkflowId attributes)
    (childWorkflowCommandStateMachine attributes startMetadata).

(** [newNaiveCommandStateMachine], for the machine type that embeds it. *)
Definition newNaiveCommandStateMachine (t : commandType) (id : string)
    (embed : Command → machineKind) (command : Command) : M ref :=
  newCommandStateMachineBase t id (embed command).

Definition createNewCommand (t : CommandType) : Command := mkCommand t None None [].

Definition createNewCommandWithMetadata (t : CommandType)
    (metadata : option UserMetadata) : Command := mkCommand t None metadata [].

(** [d.Attributes = a; d.EventGroupMarkers = g]. *)
Definition withAttributes (d : Command) (a : CommandAttributes)
    (g : list EventGroupMarker) : Command :=
  mkCommand (Command_CommandType d) (Some a) (Command_UserMetadata d) g.

Definition newMarkerCommandStateMachine (id : string)
    (attributes : RecordMarkerCommandAttributes) (userMetadata : option UserMetadata)
    (eventGroupMarkers : list EventGroupMarker) : M ref :=
  let d := withAttributes
             (createNewCommandWithMetadata COMMAND_TYPE_RECORD_MARKER userMetadata)
             (Command_RecordMarkerCommandAttributes attributes) eventGroupMarkers in
  newNaiveCommandStateMachine commandTypeMarker id markerCommandStateMachine d.

Definition newCancelExternalWorkflowStateMachine
    (attributes : RequestCancelExternalWorkflowExecutionCommandAttributes)
    (cancellationID : string) (eventGroupMarkers : list EventGroupMarker) : M ref :=
  let d := withAttributes
             (createNewCommand COMMAND_TYPE_REQUEST_CANCEL_EXTERNAL_WORKFLOW_EXECUTION)
             (Command_RequestCancelExternalWorkflowExecutionCommandAttributes attributes)
             eventGroupMarkers in
  newNaiveCommandStateMachine commandTypeCancellation cancellationID
    cancelExternalWorkflowCommandStateMachine d.

Definition newSignalExternalWorkflowStateMachine
    (attributes : SignalExternalWorkflowExecutionCommandAttributes)
    (signalID : string) (eventGroupMarkers : list EventGroupMarker) : M ref :=
  let d := withAttributes
             (createNewCommand COMMAND_TYPE_SIGNAL_EXTERNAL_WORKFLOW_EXECUTION)
             (Command_SignalExternalWorkflowExecutionCommandAttributes attributes)
             eventGroupMarkers in
  newNaiveCommandStateMachine commandTypeSignal signalID
    signalExternalWorkflowCommandStateMachine d.

Definition newUpsertSearchAttributesStateMachine (attributes : option IndexedFields)
    (upsertID : string) (eventGroupMarkers : list EventGroupMarker) : M ref :=
  let d := withAttributes
             (createNewCommand COMMAND_TYPE_UPSERT_WORKFLOW_SEARCH_ATTRIBUTES)
             (Command_UpsertWorkflowSearchAttributesCommandAttributes attributes)
             eventGroupMarkers in
  newNaiveCommandStateMachine commandTypeUpsertSearchAttributes upsertID
    completeOnSendStateMachine d.

Definition newModifyPropertiesStateMachine (attributes : option (gmap string Payload))
    (changeID : string) (eventGroupMarkers : list EventGroupMarker) : M ref :=
  let d := withAttributes
             (createNewCommand COMMAND_TYPE_MODIFY_WORKFLOW_PROPERTIES)
             (Command_ModifyWorkflowPropertiesCommandAttributes attributes)
             eventGroupMarkers in
  newNaiveCommandStateMachine commandTypeModifyProperties changeID
    modifyPropertiesCommandStateMachine d.

(** ** The part of the helper that machines call back *)

Definition newCommandsHelper : commandsHelper :=
  mkCommandsHelper 0 [] ∅ ∅ ∅ ∅ ∅ ∅ [] ∅ 0 0.

Definition incrementNextCommandEventID : M unit :=
  modify (λ h, set_nextCommandEventID (wrap64 (nextCommandEventID h + 1)) h).

(** The loop of [incrementNextCommandEventIDIfVersionMarker]: every iteration
    deletes one marker, so the size of the lookup table bounds them. *)
Fixpoint versionMarkerLoop (fuel : nat) (next : Z) (lookup : gmap Z versionMarker)
    : Z * gmap Z versionMarker :=
  match fuel with
  | O => (next, lookup)
  | S fuel' =>
      match lookup !! next with
      | Some marker =>
          let next1 := wrap64 (next + 1) in
          let next2 := if vm_searchAttrUpdated marker then wrap64 (next1 + 1) else next1 in
          versionMarkerLoop fuel' next2 (delete next lookup)
      | None => (next, lookup)
      end
  end.

Definition incrementNextCommandEventIDIfVersionMarker : M unit :=
  modify (λ h,
    let r := versionMarkerLoop (size (versionMarkerLookup h)) (nextCommandEventID h)
               (versionMarkerLookup h) in
    set_versionMarkerLookup r.2 (set_nextCommandEventID r.1 h)).

Definition getNextID : M Z :=
  _ ← incrementNextCommandEventIDIfVersionMarker;
  h ← get;
  if decide (nextCommandEventID h = 0) then
    panic (panicString
      "Attempt to generate a command before processing WorkflowTaskStarted event")
  else mret (nextCommandEventID h).

Definition getCommand (id : commandID) : M ref :=
  h ← get;
  match commands h !! id with
  | None =>
      panicIllegalState
        ("[TMPRL1100] During replay, a matching " +:+
         commandType_String (commandID_commandType id) +:+
         " command was expected in history event position " +:+ commandID_id id +:+
         ". However, the replayed code did not produce that. " +:+
         "Possible causes are nondeterministic workflow definition code, or an incompatible change in the workflow definition.")%string
  | Some command => mret (elem_value command)
  end.

Definition addCommand (command : ref) : M unit :=
  m ← deref command;
  h ← get;
  match commands h !! m_id m with
  | Some _ =>
      panicIllegalState ("[TMPRL1100] adding duplicate command " +:+ base_String m)%string
  | None =>
      element ← new_element command;
      _ ← modify (λ h, set_index (orderedCommands h ++ [element])
                         (<[m_id m := element]> (commands h)) h);
      _ ← incrementNextCommandEventIDIfVersionMarker;
      incrementNextCommandEventID
  end.

Definition removeCancelOfResolvedCommand (id : commandID) : M unit :=
  if bool_decide (commandID_commandType id ≠ commandTypeCancelTimer) &&
     bool_decide (commandID_commandType id ≠ commandTypeRequestCancelActivityTask) then
    panic (panicString
      "removeCancelOfResolvedCommand should only be called for cancel timer / activity")
  else
    h ← get;
    match commands h !! id with
    | Some orderedCmdEl =>
        modify (λ h, set_index (list_remove orderedCmdEl (orderedCommands h))
                       (delete id (commands h)) h)
    | None => mret tt
    end.

Definition moveCommandToBack (command : ref) : M unit :=
  m ← deref command;
  h ← get;
  match commands h !! m_id m with
  | None =>
      panicIllegalState ("[TMPRL1100] moving command not present " +:+ base_String m)%string
  | Some elem =>
      element ← new_element command;
      modify (λ h, set_index (list_remove elem (orderedCommands h) ++ [element])
                     (<[m_id m := element]> (commands h)) h)
  end.

(** ** The methods of the concrete machines

    A method on [*activityCommandStateMachine], say, reads the receiver's own
    fields; the dispatch functions below pass them along. *)

Definition unsupportedOperation {A} : M A := panic (panicString "unsupported operation").

Definition activity_getCommand (m : machine)
    (attributes : ScheduleActivityTaskCommandAttributes)
    (startMetadata : option UserMetadata) : option Command :=
  match m_state m with
  | commandStateCreated | commandStateCanceledBeforeSent =>
      Some (mkCommand COMMAND_TYPE_SCHEDULE_ACTIVITY_TASK
              (Some (Command_ScheduleActivityTaskCommandAttributes attributes))
              startMetadata (m_eventGroupMarkers m))
  | _ => None
  end.

Definition activity_handleCommandSent (d : ref) : M unit :=
  s ← getState d;
  match s with
  | commandStateCanceledAfterInitiated =>
      moveState d commandStateCancellationCommandSent eventCommandSent
  | _ => base_handleCommandSent d
  end.

Definition activity_handleCancelFailedEvent (d : ref) : M unit :=
  failStateTransition d eventCancelFailed.

Definition activity_setRequestEagerExecution (b : bool) (m : machine) : machine :=
  match m_kind m with
  | activityCommandStateMachine scheduleID a md =>
      m_set_kind (activityCommandStateMachine scheduleID
        (mkScheduleActivityTask (sat_ActivityId a) (sat_ActivityType a)
           (sat_TaskQueue a) (sat_Input a) b (sat_Timeouts a) (sat_UseWorkflowBuildId a)
           (sat_Header a) (sat_RetryPolicy a) (sat_Priority a)) md) m
  | _ => m
  end.

Definition activity_cancel (d : ref) (scheduleID : Z) : M unit :=
  m ← deref d;
  _ ← match m_state m with
      | commandStateCreated | commandStateCommandSent | commandStateInitiated =>
          cancelCmd ← newCancelActivityStateMachine
                        (mkRequestCancelActivityTask scheduleID);
          _ ← update cancelCmd (m_set_eventGroupMarkers (m_eventGroupMarkers m));
          _ ← addCommand cancelCmd;
          s ← getState d;
          if decide (s ≠ commandStateCommandSent)
          then update d (activity_setRequestEagerExecution false)
          else mret tt
      | _ => mret tt
      end;
  base_cancel d.

Definition timer_cancel (d : ref) (attributes : StartTimerCommandAttributes) : M unit :=
  m ← deref d;
  _ ← match m_state m with
      | commandStateCreated | commandStateCommandSent | commandStateInitiated =>
          cancelCmd ← newCancelTimerCommandStateMachine
                        (mkCancelTimer (st_TimerId attributes));
          _ ← update cancelCmd (m_set_eventGroupMarkers (m_eventGroupMarkers m));
          addCommand cancelCmd
      | _ => mret tt
      end;
  base_cancel d.

Definition timer_isDone (m : machine) : bool :=
  bool_decide (m_state m = commandStateCompleted).

Definition timer_handleCommandSent (d : ref) : M unit :=
  s ← getState d;
  match s with
  | commandStateCanceledAfterInitiated =>
      moveState d commandStateCancellationCommandSent eventCommandSent
  | _ => base_handleCommandSent d
  end.

Definition cancelActivity_getCommand (m : machine)
    (attributes : RequestCancelActivityTaskCommandAttributes) : option Command :=
  match m_state m with
  | commandStateCreated =>
      Some (withAttributes (createNewCommand COMMAND_TYPE_REQUEST_CANCEL_ACTIVITY_TASK)
              (Command_RequestCancelActivityTaskCommandAttributes attributes)
              (m_eventGroupMarkers m))
  | _ => None
  end.

Definition timer_getCommand (m : machine) (attributes : StartTimerCommandAttributes)
    (startMetadata : option UserMetadata) : option Command :=
  match m_state m with
  | commandStateCreated | commandStateCanceledBeforeSent =>
      Some (mkCommand COMMAND_TYPE_START_TIMER
              (Some (Command_StartTimerCommandAttributes attributes))
              startMetadata (m_eventGroupMarkers m))
  | _ => None
  end.

Definition cancelTimer_getCommand (m : machine)
    (attributes : CancelTimerCommandAttributes) : option Command :=
  match m_state m with
  | commandStateCreated =>
      Some (withAttributes (createNewCommand COMMAND_TYPE_CANCEL_TIMER)
              (Command_CancelTimerCommandAttributes attributes) (m_eventGroupMarkers m))
  | _ => None
  end.

Definition childWorkflow_getCommand (m : machine)
    (attributes : StartChildWorkflowExecutionCommandAttributes)
    (startMetadata : option UserMetadata) : option Command :=
  match m_state m with
  | commandStateCreated =>
      Some (mkCommand COMMAND_TYPE_START_CHILD_WORKFLOW_EXECUTION
              (Some (Command_StartChildWorkflowExecutionCommandAttributes attributes))
              startMetadata (m_eventGroupMarkers m))
  | commandStateCanceledAfterStarted =>
      Some (withAttributes
              (createNewCommand COMMAND_TYPE_REQUEST_CANCEL_EXTERNAL_WORKFLOW_EXECUTION)
              (Command_RequestCancelExternalWorkflowExecutionCommandAttributes
                 (mkRequestCancelExternal (scw_Namespace attributes)
                    (scw_WorkflowId attributes) "" "" true))
              (m_eventGroupMarkers m))
  | _ => None
  end.

Definition childWorkflow_handleCommandSent (d : ref) : M unit :=
  s ← getState d;
  match s with
  | commandStateCanceledAfterStarted =>
      moveState d commandStateCancellationCommandSent eventCommandSent
  | _ => base_handleCommandSent d
  end.

Definition childWorkflow_handleStartedEvent (d : ref) : M unit :=
  s ← getState d;
  match s with
  | commandStateInitiated => moveState d commandStateStarted eventStarted
  | commandStateCanceledAfterInitiated =>
      moveState d commandStateCanceledAfterStarted eventStarted
  | _ => base_handleStartedEvent d
  end.

Definition childWorkflow_handleInitiatedEvent (d : ref) : M unit :=
  s ← getState d;
  match s with
  | commandStateCancellationCommandSent => failStateTransition d eventInitiated
  | _ => base_handleInitiatedEvent d
  end.

Definition childWorkflow_handleCancelFailedEvent (d : ref) : M unit :=
  s ← getState d;
  match s with
  | commandStateCancellationCommandSent =>
      moveState d commandStateStarted eventCancelFailed
  | _ => base_handleCancelFailedEvent d
  end.

Definition childWorkflow_cancel (d : ref) : M unit :=
  s ← getState d;
  match s with
  | commandStateStarted =>
      _ ← moveState d commandStateCanceledAfterStarted eventCancel;
      _ ← moveCommandToBack d;
      incrementNextCommandEventID
  | _ => base_cancel d
  end.

Definition childWorkflow_handleCanceledEvent (d : ref) : M unit :=
  s ← getState d;
  match s with
  | commandStateStarted => moveState d commandStateCompleted eventCanceled
  | commandStateCancellationCommandSent =>
      moveState d commandStateCompletedAfterCancellationCommandSent eventCanceled
  | _ => base_handleCanceledEvent d
  end.

Definition childWorkflow_handleCompletionEvent (d : ref) : M unit :=
  s ← getState d;
  match s with
  | commandStateStarted | commandStateCanceledAfterStarted
  | commandStateCompletedAfterCancellationCommandSent
  | commandStateCancellationCommandAccepted =>
      moveState d commandStateCompleted eventCompletion
  | _ => base_handleCompletionEvent d
  end.

Definition childWorkflow_handleExternalWorkflowExecutionCancelRequested (d : ref) : M unit :=
  s ← getState d;
  if decide (s = commandStateCompletedAfterCancellationCommandSent)
  then childWorkflow_handleCompletionEvent d
  else moveState d commandStateCancellationCommandAccepted
         eventExternalWorkflowExecutionCancelRequested.

Definition naive_getCommand (m : machine) (command : Command) : option Command :=
  match m_state m with
  | commandStateCreated => Some command
  | _ => None
  end.

Definition cancelExternalWorkflow_handleInitiatedEvent (d : ref) : M unit :=
  s ← getState d;
  match s with
  | commandStateCommandSent => moveState d commandStateInitiated eventInitiated
  | _ => failStateTransition d eventInitiated
  end.

Definition cancelExternalWorkflow_handleCompletionEvent (d : ref) : M unit :=
  s ← getState d;
  match s with
  | commandStateInitiated => moveState d commandStateCompleted eventCompletion
  | _ => failStateTransition d eventCompletion
  end.

Definition signalExternalWorkflow_handleInitiatedEvent (d : ref) : M unit :=
  s ← getState d;
  match s with
  | commandStateCommandSent => moveState d commandStateInitiated eventInitiated
  | _ => failStateTransition d eventInitiated
  end.

Definition signalExternalWorkflow_handleCompletionEvent (d : ref) : M unit :=
  s ← getState d;
  match s with
  | commandStateInitiated => moveState d commandStateCompleted eventCompletion
  | _ => failStateTransition d eventCompletion
  end.

Definition marker_handleCommandSent (d : ref) : M unit :=
  s ← getState d;
  match s with
  | commandStateCreated => moveState d commandStateCompleted eventCommandSent
  | _ => mret tt
  end.

Definition completeOnSend_handleCommandSent (d : ref) : M unit :=
  s ← getState d;
  match s with
  | commandStateCreated => moveState d commandStateCompleted eventCommandSent
  | _ => mret tt
  end.

Definition modifyProperties_handleCommandSent (d : ref) : M unit :=
  s ← getState d;
  match s with
  | commandStateCreated => moveState d commandStateCompleted eventCommandSent
  | _ => mret tt
  end.

Definition nexusOperation_getCommand (m : machine)
    (attributes : ScheduleNexusOperationCommandAttributes)
    (cancelation : option ref) (startMetadata : option UserMetadata) : option Command :=
  if bool_decide (m_state m = commandStateCreated) && bool_decide (cancelation = None)
  then Some (mkCommand COMMAND_TYPE_SCHEDULE_NEXUS_OPERATION
               (Some (Command_ScheduleNexusOperationCommandAttributes attributes))
               startMetadata (m_eventGroupMarkers m))
  else None.

Definition nexusOperation_handleStartedEvent (d : ref) : M unit :=
  s ← getState d;
  match s with
  | commandStateInitiated => moveState d commandStateStarted eventStarted
  | _ => failStateTransition d eventStarted
  end.

Definition nexusOperation_handleCompletionEvent (d : ref) : M unit :=
  s ← getState d;
  match s with
  | commandStateInitiated | commandStateStarted =>
      moveState d commandStateCompleted eventCompletion
  | _ => failStateTransition d eventCompletion
  end.

Definition requestCancelNexusOperation_getCommand (m : machine)
    (attributes : RequestCancelNexusOperationCommandAttributes) : option Command :=
  match m_state m with
  | commandStateCreated =>
      Some (withAttributes (createNewCommand COMMAND_TYPE_REQUEST_CANCEL_NEXUS_OPERATION)
              (Command_RequestCancelNexusOperationCommandAttributes attributes)
              (m_eventGroupMarkers m))
  | _ => None
  end.

Definition requestCancelNexusOperation_handleInitiatedEvent (d : ref) : M unit :=
  s ← getState d;
  match s with
  | commandStateCommandSent => moveState d commandStateInitiated eventInitiated
  | _ => failStateTransition d eventInitiated
  end.

Definition requestCancelNexusOperation_handleCompletionEvent (d : ref) : M unit :=
  s ← getState d;
  match s with
  | commandStateCreated | commandStateInitiated =>
      moveState d commandStateCompleted eventCompletion
  | _ => failStateTransition d eventCompletion
  end.

Definition nexusOperation_setCancelation (c : ref) (m : machine) : machine :=
  match m_kind m with
  | nexusOperationStateMachine seq ev a _ md =>
      m_set_kind (nexusOperationStateMachine seq ev a (Some c) md) m
  | _ => m
  end.

Definition nexusOperation_setScheduledEventID (ev : Z) (m : machine) : machine :=
  match m_kind m with
  | nexusOperationStateMachine seq _ a c md =>
      m_set_kind (nexusOperationStateMachine seq ev a c md) m
  | _ => m
  end.

Definition nexusOperation_cancel (sm : ref) (scheduledEventID : Z)
    (cancelation : option ref) : M unit :=
  m ← deref sm;
  if bool_decide (cancelation ≠ None) || bool_decide (m_state m = commandStateCompleted)
  then mret tt
  else
    cancelCmd ← newRequestCancelNexusOperationStateMachine
                  (mkRequestCancelNexus scheduledEventID);
    _ ← update cancelCmd (m_set_eventGroupMarkers (m_eventGroupMarkers m));
    _ ← update sm (nexusOperation_setCancelation cancelCmd);
    _ ← addCommand cancelCmd;
    s ← getState sm;
    if decide (s = commandStateCreated)
    then requestCancelNexusOperation_handleCompletionEvent cancelCmd
    else mret tt.

(** ** Dynamic dispatch on the [commandStateMachine] interface *)

Definition machine_getCommand (m : machine) : option Command :=
  match m_kind m with
  | activityCommandStateMachine _ a md => activity_getCommand m a md
  | cancelActivityStateMachine a => cancelActivity_getCommand m a
  | timerCommandStateMachine a md => timer_getCommand m a md
  | cancelTimerCommandStateMachine a => cancelTimer_getCommand m a
  | childWorkflowCommandStateMachine a md => childWorkflow_getCommand m a md
  | cancelExternalWorkflowCommandStateMachine c
  | signalExternalWorkflowCommandStateMachine c
  | markerCommandStateMachine c
  | completeOnSendStateMachine c
  | modifyPropertiesCommandStateMachine c => naive_getCommand m c
  | nexusOperationStateMachine _ _ a c md => nexusOperation_getCommand m a c md
  | requestCancelNexusOperationStateMachine a =>
      requestCancelNexusOperation_getCommand m a
  end.

Definition machine_isDone (m : machine) : bool :=
  match m_kind m with
  | timerCommandStateMachine _ _ => timer_isDone m
  | _ => base_isDone m
  end.

Definition cancel (d : ref) : M unit :=
  m ← deref d;
  match m_kind m with
  | activityCommandStateMachine scheduleID _ _ => activity_cancel d scheduleID
  | timerCommandStateMachine a _ => timer_cancel d a
  | childWorkflowCommandStateMachine _ _ => childWorkflow_cancel d
  | nexusOperationStateMachine _ ev _ c _ => nexusOperation_cancel d ev c
  | cancelExternalWorkflowCommandStateMachine _
  | signalExternalWorkflowCommandStateMachine _
  | markerCommandStateMachine _
  | completeOnSendStateMachine _
  | modifyPropertiesCommandStateMachine _ => unsupportedOperation
  | _ => base_cancel d
  end.

Definition handleCommandSent (d : ref) : M unit :=
  m ← deref d;
  match m_kind m with
  | activityCommandStateMachine _ _ _ => activity_handleCommandSent d
  | timerCommandStateMachine _ _ => timer_handleCommandSent d
  | childWorkflowCommandStateMachine _ _ => childWorkflow_handleCommandSent d
  | markerCommandStateMachine _ => marker_handleCommandSent d
  | completeOnSendStateMachine _ => completeOnSend_handleCommandSent d
  | modifyPropertiesCommandStateMachine _ => modifyProperties_handleCommandSent d
  | _ => base_handleCommandSent d
  end.

Definition handleStartedEvent (d : ref) : M unit :=
  m ← deref d;
  match m_kind m with
  | childWorkflowCommandStateMachine _ _ => childWorkflow_handleStartedEvent d
  | nexusOperationStateMachine _ _ _ _ _ => nexusOperation_handleStartedEvent d
  | cancelExternalWorkflowCommandStateMachine _
  | signalExternalWorkflowCommandStateMachine _
  | markerCommandStateMachine _
  | completeOnSendStateMachine _
  | modifyPropertiesCommandStateMachine _ => unsupportedOperation
  | _ => base_handleStartedEvent d
  end.

Definition handleInitiatedEvent (d : ref) : M unit :=
  m ← deref d;
  match m_kind m with
  | childWorkflowCommandStateMachine _ _ => childWorkflow_handleInitiatedEvent d
  | cancelExternalWorkflowCommandStateMachine _ =>
      cancelExternalWorkflow_handleInitiatedEvent d
  | signalExternalWorkflowCommandStateMachine _ =>
      signalExternalWorkflow_handleInitiatedEvent d
  | requestCancelNexusOperationStateMachine _ =>
      requestCancelNexusOperation_handleInitiatedEvent d
  | markerCommandStateMachine _
  | completeOnSendStateMachine _
  | modifyPropertiesCommandStateMachine _ => unsupportedOperation
  | _ => base_handleInitiatedEvent d
  end.

Definition handleInitiationFailedEvent (d : ref) : M unit :=
  m ← deref d;
  match m_kind m with
  | cancelExternalWorkflowCommandStateMachine _
  | signalExternalWorkflowCommandStateMachine _
  | markerCommandStateMachine _
  | completeOnSendStateMachine _
  | modifyPropertiesCommandStateMachine _ => unsupportedOperation
  | _ => base_handleInitiationFailedEvent d
  end.

Definition handleCompletionEvent (d : ref) : M unit :=
  m ← deref d;
  match m_kind m with
  | childWorkflowCommandStateMachine _ _ => childWorkflow_handleCompletionEvent d
  | cancelExternalWorkflowCommandStateMachine _ =>
      cancelExternalWorkflow_handleCompletionEvent d
  | signalExternalWorkflowCommandStateMachine _ =>
      signalExternalWorkflow_handleCompletionEvent d
  | nexusOperationStateMachine _ _ _ _ _ => nexusOperation_handleCompletionEvent d
  | requestCancelNexusOperationStateMachine _ =>
      requestCancelNexusOperation_handleCompletionEvent d
  | markerCommandStateMachine _
  | completeOnSendStateMachine _
  | modifyPropertiesCommandStateMachine _ => unsupportedOperation
  | _ => base_handleCompletionEvent d
  end.

Definition handleCancelInitiatedEvent (d : ref) : M unit :=
  m ← deref d;
  match m_kind m with
  | cancelExternalWorkflowCommandStateMachine _
  | signalExternalWorkflowCommandStateMachine _
  | markerCommandStateMachine _
  | completeOnSendStateMachine _
  | modifyPropertiesCommandStateMachine _ => unsupportedOperation
  | _ => base_handleCancelInitiatedEvent d
  end.

Definition handleCancelFailedEvent (d : ref) : M unit :=
  m ← deref d;
  match m_kind m with
  | activityCommandStateMachine _ _ _ => activity_handleCancelFailedEvent d
  | childWorkflowCommandStateMachine _ _ => childWorkflow_handleCancelFailedEvent d
  | cancelExternalWorkflowCommandStateMachine _
  | signalExternalWorkflowCommandStateMachine _
  | markerCommandStateMachine _
  | completeOnSendStateMachine _
  | modifyPropertiesCommandStateMachine _ => unsupportedOperation
  | _ => base_handleCancelFailedEvent d
  end.

Definition handleCanceledEvent (d : ref) : M unit :=
  m ← deref d;
  match m_kind m with
  | childWorkflowCommandStateMachine _ _ => childWorkflow_handleCanceledEvent d
  | cancelExternalWorkflowCommandStateMachine _
  | signalExternalWorkflowCommandStateMachine _
  | markerCommandStateMachine _
  | completeOnSendStateMachine _
  | modifyPropertiesCommandStateMachine _ => unsupportedOperation
  | _ => base_handleCanceledEvent d
  end.
