(* ===== verification/CommandsHelper.v ===== *)
(** * The operations of [commandsHelper]
      ([src/internal/internal_command_state_machine.go]).

    Workflow code creates and cancels commands through these operations;
    history events drive the machines through the [handle*] operations;
    [getCommands] collects the commands of a workflow task completion. *)

From stdpp Require Import base list gmap strings.
From S2P Require Import Prelude Proto CommandMachine.
Open Scope Z_scope.

(** ** Event numbering and collection *)

Definition has_command (h : commandsHelper) (e : element) : bool :=
  match machines h !! elem_value e with
  | Some m => bool_decide (machine_getCommand m ≠ None)
  | None => false
  end.

(** Commands that exist before the workflow task started event is processed
    are counted in: they will be sent first. *)
Definition setCurrentWorkflowTaskStartedEventID (workflowTaskStartedEventID : Z) : M unit :=
  modify (λ h,
    let uncountedCommands :=
      Z.of_nat (length (filter (λ e, Is_true (has_command h e)) (orderedCommands h))) in
    set_nextCommandEventID (wrap64 (workflowTaskStartedEventID + 2 + uncountedCommands)) h).

(** One iteration of the loop of [getCommands] on the current element: the
    command it contributes. *)
Definition getCommands_step (markAsSent : bool) (curr : element) : M (list Command) :=
  let d := elem_value curr in
  m ← deref d;
  _ ← (if markAsSent then handleCommandSent d else mret tt);
  s ← getState d;
  id ← getID d;
  _ ← (if decide (s = commandStateCompleted)
       then modify (λ h, set_index (list_remove curr (orderedCommands h))
                           (delete id (commands h)) h)
       else mret tt);
  mret (match machine_getCommand m with Some c => [c] | None => [] end).

(** The loop: [next] is read before the body runs, since the body may remove
    the current element. *)
Fixpoint getCommands_loop (fuel : nat) (markAsSent : bool) (curr : option element)
    (acc : list Command) : M (list Command) :=
  match fuel, curr with
  | O, _ => mret acc
  | _, None => mret acc
  | S fuel', Some e =>
      h ← get;
      let next := list_next e (orderedCommands h) in
      cs ← getCommands_step markAsSent e;
      getCommands_loop fuel' markAsSent next (acc ++ cs)
  end.

Definition getCommands (markAsSent : bool) : M (list Command) :=
  h ← get;
  getCommands_loop (length (orderedCommands h)) markAsSent (head (orderedCommands h)) [].

(** ** Activities *)

Definition scheduleActivityTask (scheduleID : Z)
    (attributes : ScheduleActivityTaskCommandAttributes)
    (metadata : option UserMetadata) (eventGroupMarkers : list EventGroupMarker) : M ref :=
  _ ← modify (λ h, set_scheduledEventIDToActivityID
                (<[scheduleID := sat_ActivityId attributes]> (scheduledEventIDToActivityID h)) h);
  command ← newActivityCommandStateMachine scheduleID attributes metadata;
  _ ← update command (m_set_eventGroupMarkers eventGroupMarkers);
  _ ← addCommand command;
  mret command.

Definition requestCancelActivityTask (activityID : string) : M ref :=
  let id := makeCommandID commandTypeActivity activityID in
  command ← getCommand id;
  _ ← cancel command;
  mret command.

Definition handleActivityTaskClosed (activityID : string) (scheduledEventID : Z) : M ref :=
  command ← getCommand (makeCommandID commandTypeActivity activityID);
  let possibleCancelID :=
    makeCommandID commandTypeRequestCancelActivityTask (FormatInt scheduledEventID) in
  _ ← removeCancelOfResolvedCommand possibleCancelID;
  _ ← handleCompletionEvent command;
  _ ← modify (λ h, set_scheduledEventIDToActivityID
                (delete scheduledEventID (scheduledEventIDToActivityID h)) h);
  mret command.

Definition handleActivityTaskScheduled (activityID : string) (scheduledEventID : Z) : M unit :=
  h ← get;
  match scheduledEventIDToActivityID h !! scheduledEventID with
  | None =>
      panicIllegalState
        ("[TMPRL1100] lookup failed for scheduledEventID to activityID: scheduleEventID: " +:+
         FormatInt scheduledEventID +:+ ", activityID: " +:+ activityID)%string
  | Some _ =>
      command ← getCommand (makeCommandID commandTypeActivity activityID);
      handleInitiatedEvent command
  end.

Definition handleActivityTaskCancelRequested (scheduledEventID : Z) : M unit :=
  h ← get;
  match scheduledEventIDToActivityID h !! scheduledEventID with
  | None =>
      panicIllegalState
        ("[TMPRL1100] unable to find activityID for the scheduledEventID: " +:+
         FormatInt scheduledEventID)%string
  | Some activityID =>
      command ← getCommand (makeCommandID commandTypeActivity activityID);
      handleCancelInitiatedEvent command
  end.

Definition handleActivityTaskCanceled (activityID : string) (scheduledEventID : Z) : M ref :=
  command ← getCommand (makeCommandID commandTypeActivity activityID);
  _ ← handleCanceledEvent command;
  _ ← modify (λ h, set_scheduledEventIDToActivityID
                (delete scheduledEventID (scheduledEventIDToActivityID h)) h);
  mret command.

Section EventPrinting.
  (** [util.HistoryEventToString] and the generated [EventType.String]: only
      the text of panic messages depends on them. *)
  Variable HistoryEventToString : HistoryEvent → string.
  Variable EventType_String : EventType → string.

Definition getActivityAndScheduledEventIDs (event : HistoryEvent) : M (string * Z) :=
  scheduledEventID ←
    match Event_EventType event with
    | EVENT_TYPE_ACTIVITY_TASK_CANCELED =>
        mret (match Event_Attributes event with
              | ActivityTaskCanceledEventAttributes i _ _ _ => i | _ => 0 end)
    | EVENT_TYPE_ACTIVITY_TASK_COMPLETED =>
        mret (match Event_Attributes event with
              | ActivityTaskCompletedEventAttributes i _ => i | _ => 0 end)
    | EVENT_TYPE_ACTIVITY_TASK_FAILED =>
        mret (match Event_Attributes event with
              | ActivityTaskFailedEventAttributes i _ _ _ _ => i | _ => 0 end)
    | EVENT_TYPE_ACTIVITY_TASK_TIMED_OUT =>
        mret (match Event_Attributes event with
              | ActivityTaskTimedOutEventAttributes i _ _ _ => i | _ => 0 end)
    | t =>
        panicIllegalState
          ("[TMPRL1100] unexpected event type: " +:+ EventType_String t)%string
    end;
  h ← get;
  match scheduledEventIDToActivityID h !! scheduledEventID with
  | None =>
      panicIllegalState
        ("[TMPRL1100] unable to find activityID for the event: " +:+
         HistoryEventToString event)%string
  | Some activityID => mret (activityID, scheduledEventID)
  end.

(** The scheduled event belongs to the first operation that has none yet. *)
Definition handleNexusOperationScheduled (event : HistoryEvent) : M unit :=
  h ← get;
  match nexusOperationsWithoutScheduledID h with
  | [] =>
      panicIllegalState
        ("[TMPRL1100] unable to find nexus operation state machine for event: " +:+
         HistoryEventToString event)%string
  | elem :: rest =>
      _ ← modify (set_nexusOperationsWithoutScheduledID rest);
      let command := elem_value elem in
      m ← deref command;
      match m_kind m with
      | nexusOperationStateMachine seq _ _ _ _ =>
          _ ← update command (nexusOperation_setScheduledEventID (Event_EventId event));
          _ ← modify (λ h, set_scheduledEventIDToNexusSeq
                        (<[Event_EventId event := seq]> (scheduledEventIDToNexusSeq h)) h);
          handleInitiatedEvent command
      | _ => panic (runtimeError "interface conversion")
      end
  end.
End EventPrinting.

(** ** Nexus operations *)

Definition scheduleNexusOperation (seq : Z)
    (attributes : ScheduleNexusOperationCommandAttributes)
    (startMetadata : option UserMetadata) (eventGroupMarkers : list EventGroupMarker) : M ref :=
  command ← newNexusOperationStateMachine seq attributes startMetadata;
  _ ← update command (m_set_eventGroupMarkers eventGroupMarkers);
  _ ← addCommand command;
  mret command.

Definition getNexusOperationCommand (seq : Z) : M ref :=
  getCommand (makeCommandID commandTypeNexusOperation (FormatInt seq)).

(** The lookup shared by the handlers of Nexus events. *)
Definition getNexusSeq (scheduledEventID : Z) : M Z :=
  h ← get;
  match scheduledEventIDToNexusSeq h !! scheduledEventID with
  | None =>
      panicIllegalState
        ("[TMPRL1100] unable to find nexus operation state machine for event ID: " +:+
         FormatInt scheduledEventID)%string
  | Some seq => mret seq
  end.

Definition handleNexusOperationStarted (scheduledEventID : Z) : M ref :=
  seq ← getNexusSeq scheduledEventID;
  command ← getNexusOperationCommand seq;
  _ ← handleStartedEvent command;
  mret command.

Definition handleNexusOperationCompleted (scheduledEventID : Z) : M ref :=
  seq ← getNexusSeq scheduledEventID;
  _ ← modify (λ h, set_scheduledEventIDToNexusSeq
                (delete scheduledEventID (scheduledEventIDToNexusSeq h)) h);
  command ← getNexusOperationCommand seq;
  _ ← handleCompletionEvent command;
  mret command.

(** [command.( *nexusOperationStateMachine).cancelation]; calling a method on
    a nil [cancelation] dereferences nil. *)
Definition getCancelation (command : ref) : M ref :=
  m ← deref command;
  match m_kind m with
  | nexusOperationStateMachine _ _ _ (Some c) _ => mret c
  | nexusOperationStateMachine _ _ _ None _ =>
      panic (runtimeError "invalid memory address or nil pointer dereference")
  | _ => panic (runtimeError "interface conversion")
  end.

Definition handleNexusOperationCancelRequested (scheduledEventID : Z) : M ref :=
  seq ← getNexusSeq scheduledEventID;
  command ← getNexusOperationCommand seq;
  cancelation ← getCancelation command;
  _ ← handleInitiatedEvent cancelation;
  mret command.

Definition handleNexusOperationCancelRequestDelivered (scheduledEventID : Z) : M ref :=
  seq ← getNexusSeq scheduledEventID;
  command ← getNexusOperationCommand seq;
  cancelation ← getCancelation command;
  _ ← handleCompletionEvent cancelation;
  mret command.

(** Removes the first element whose machine has the given sequence number; the
    list holds Nexus machines only. *)
Fixpoint removeNexusSeq (ms : gmap ref machine) (seq : Z) (l : list element)
    : list element :=
  match l with
  | [] => []
  | elem :: l' =>
      match ms !! elem_value elem with
      | Some m =>
          match m_kind m with
          | nexusOperationStateMachine seq' _ _ _ _ =>
              if decide (seq' = seq) then l' else elem :: removeNexusSeq ms seq l'
          | _ => elem :: removeNexusSeq ms seq l'
          end
      | None => elem :: removeNexusSeq ms seq l'
      end
  end.

Definition requestCancelNexusOperation (seq : Z) : M ref :=
  command ← getNexusOperationCommand seq;
  _ ← cancel command;
  s ← getState command;
  if decide (s ≠ commandStateCanceledBeforeSent) then mret command
  else
    _ ← modify (λ h, set_nexusOperationsWithoutScheduledID
                  (removeNexusSeq (machines h) seq (nexusOperationsWithoutScheduledID h)) h);
    mret command.

(** ** Markers *)

(** [if err != nil { panic(err) }] *)
Definition must {A} (r : string + A) : M A :=
  match r with
  | inl e => panic (panicError e)
  | inr a => mret a
  end.

Definition recordVersionMarker (changeID : string) (version : Z) (dc : DataConverter)
    (searchAttributeWasUpdated : bool) (eventGroupMarkers : list EventGroupMarker) : M ref :=
  let markerID := (versionMarkerName +:+ "_" +:+ changeID)%string in
  changeIDPayload ← must (ToPayloads dc [goString changeID]);
  versionPayload ← must (ToPayloads dc [goInt version]);
  let details : gmap string (option Payloads) :=
    <[versionMarkerChangeIDName := changeIDPayload]>
      {[versionMarkerDataName := versionPayload]} in
  details ←
    (if searchAttributeWasUpdated then mret details
     else
       p ← must (ToPayloads dc [goBool searchAttributeWasUpdated]);
       mret (<[versionSearchAttributeUpdatedName := p]> details));
  command ← newMarkerCommandStateMachine markerID
              (mkRecordMarker versionMarkerName details None) None eventGroupMarkers;
  _ ← addCommand command;
  mret command.

Definition handleVersionMarker (eventID : Z) (changeID : string)
    (searchAttrUpdated : bool) : M unit :=
  h ← get;
  match versionMarkerLookup h !! eventID with
  | Some _ =>
      panicIllegalState
        ("[TMPRL1100] marker event already exists for eventID in lookup: eventID: " +:+
         FormatInt eventID +:+ ", changeID: " +:+ changeID)%string
  | None =>
      modify (λ h, set_versionMarkerLookup
        (<[eventID := mkVersionMarker changeID searchAttrUpdated]> (versionMarkerLookup h)) h)
  end.

Definition recordSideEffectMarker (sideEffectID : Z) (data : option Payloads)
    (dc : DataConverter) (userMetadata : option UserMetadata)
    (eventGroupMarkers : list EventGroupMarker) : M ref :=
  let markerID := (sideEffectMarkerName +:+ "_" +:+ FormatInt sideEffectID)%string in
  sideEffectIDPayload ← must (ToPayloads dc [goInt64 sideEffectID]);
  let attributes := mkRecordMarker sideEffectMarkerName
    (<[sideEffectMarkerIDName := sideEffectIDPayload]>
       {[sideEffectMarkerDataName := data]}) None in
  command ← newMarkerCommandStateMachine markerID attributes userMetadata eventGroupMarkers;
  _ ← addCommand command;
  mret command.

Definition recordLocalActivityMarker (activityID : string)
    (details : gmap string (option Payloads)) (failure : option Failure)
    (metadata : option UserMetadata) (eventGroupMarkers : list EventGroupMarker) : M ref :=
  let markerID := (localActivityMarkerName +:+ "_" +:+ activityID)%string in
  let attributes := mkRecordMarker localActivityMarkerName details failure in
  command ← newMarkerCommandStateMachine markerID attributes metadata eventGroupMarkers;
  _ ← getNextID;
  _ ← addCommand command;
  mret command.

Definition recordMutableSideEffectMarker (mutableSideEffectID : string)
    (callCountHint : Z) (data : option Payloads) (dc : DataConverter)
    (userMetadata : option UserMetadata) (eventGroupMarkers : list EventGroupMarker) : M ref :=
  nextID ← getNextID;
  let mutableSideEffectID := (mutableSideEffectID +:+ "_" +:+ FormatInt nextID)%string in
  let markerID := (mutableSideEffectMarkerName +:+ "_" +:+ mutableSideEffectID)%string in
  mutableSideEffectIDPayload ← must (ToPayloads dc [goString mutableSideEffectID]);
  mutableSideEffectCounterPayload ← must (ToPayloads dc [goInt callCountHint]);
  let attributes := mkRecordMarker mutableSideEffectMarkerName
    (<[sideEffectMarkerIDName := mutableSideEffectIDPayload]>
       (<[sideEffectMarkerDataName := data]>
          {[mutableSideEffectCallCounterName := mutableSideEffectCounterPayload]}))
    None in
  command ← newMarkerCommandStateMachine markerID attributes userMetadata eventGroupMarkers;
  _ ← addCommand command;
  mret command.

(** ** Child and external workflows *)

(** The error of [startChildWorkflowExecution]. *)
Record childWorkflowExistsWithId : Type := mkChildWorkflowExistsWithId {
  cwe_id : string;
}.

Definition childWorkflowExistsWithId_Error (e : childWorkflowExistsWithId) : string :=
  ("child workflow already exists with id: " +:+ cwe_id e)%string.

Definition startChildWorkflowExecution
    (attributes : StartChildWorkflowExecutionCommandAttributes)
    (startMetadata : option UserMetadata) (eventGroupMarkers : list EventGroupMarker)
    : M (childWorkflowExistsWithId + ref) :=
  command ← newChildWorkflowCommandStateMachine attributes startMetadata;
  _ ← update command (m_set_eventGroupMarkers eventGroupMarkers);
  id ← getID command;
  h ← get;
  match commands h !! id with
  | Some _ => mret (inl (mkChildWorkflowExistsWithId (scw_WorkflowId attributes)))
  | None =>
      _ ← addCommand command;
      mret (inr command)
  end.

Definition handleStartChildWorkflowExecutionInitiated (workflowID : string) : M unit :=
  command ← getCommand (makeCommandID commandTypeChildWorkflow workflowID);
  handleInitiatedEvent command.

Definition handleStartChildWorkflowExecutionFailed (workflowID : string) : M ref :=
  command ← getCommand (makeCommandID commandTypeChildWorkflow workflowID);
  _ ← handleInitiationFailedEvent command;
  mret command.

Definition requestCancelExternalWorkflowExecution
    (namespace workflowID runID cancellationID : string) (childWorkflowOnly : bool)
    (eventGroupMarkers : list EventGroupMarker) : M ref :=
  if childWorkflowOnly then
    if decide (cancellationID ≠ "") then
      panic (panicString "cancellation on child workflow should not use cancellation ID")
    else if decide (runID ≠ "") then
      panic (panicString "cancellation on child workflow should not use run ID")
    else
      command ← getCommand (makeCommandID commandTypeChildWorkflow workflowID);
      _ ← cancel command;
      mret command
  else if decide (cancellationID = "") then
    panic (panicString "cancellation on external workflow should use cancellation ID")
  else
    let attributes :=
      mkRequestCancelExternal namespace workflowID runID cancellationID false in
    command ← newCancelExternalWorkflowStateMachine attributes cancellationID
                eventGroupMarkers;
    _ ← addCommand command;
    mret command.

Definition isCancelExternalWorkflowEventForChildWorkflow (cancellationID : string) : bool :=
  bool_decide (cancellationID = "").

Definition handleRequestCancelExternalWorkflowExecutionInitiated (initiatedeventID : Z)
    (workflowID cancellationID : string) : M unit :=
  if isCancelExternalWorkflowEventForChildWorkflow cancellationID then
    command ← getCommand (makeCommandID commandTypeChildWorkflow workflowID);
    handleCancelInitiatedEvent command
  else
    _ ← modify (λ h, set_scheduledEventIDToCancellationID
          (<[initiatedeventID := cancellationID]> (scheduledEventIDToCancellationID h)) h);
    command ← getCommand (makeCommandID commandTypeCancellation cancellationID);
    handleInitiatedEvent command.

Definition handleExternalWorkflowExecutionCancelRequested (initiatedeventID : Z)
    (workflowID : string) : M (bool * ref) :=
  h ← get;
  match scheduledEventIDToCancellationID h !! initiatedeventID with
  | None =>
      command ← getCommand (makeCommandID commandTypeChildWorkflow workflowID);
      m ← deref command;
      match m_kind m with
      | childWorkflowCommandStateMachine _ _ =>
          _ ← childWorkflow_handleExternalWorkflowExecutionCancelRequested command;
          mret (false, command)
      | _ => panic (runtimeError "interface conversion")
      end
  | Some cancellationID =>
      command ← getCommand (makeCommandID commandTypeCancellation cancellationID);
      _ ← handleCompletionEvent command;
      mret (true, command)
  end.

Definition handleRequestCancelExternalWorkflowExecutionFailed (initiatedeventID : Z)
    (workflowID : string) : M (bool * ref) :=
  h ← get;
  match scheduledEventIDToCancellationID h !! initiatedeventID with
  | None =>
      command ← getCommand (makeCommandID commandTypeChildWorkflow workflowID);
      _ ← handleCancelFailedEvent command;
      mret (false, command)
  | Some cancellationID =>
      command ← getCommand (makeCommandID commandTypeCancellation cancellationID);
      _ ← handleCompletionEvent command;
      mret (true, command)
  end.

Definition signalExternalWorkflowExecution
    (namespace workflowID runID signalName : string) (input : option Payloads)
    (header : gmap string Payload) (signalID : string) (childWorkflowOnly : bool)
    (eventGroupMarkers : list EventGroupMarker) : M ref :=
  let attributes := mkSignalExternal namespace workflowID runID signalName input
                      signalID childWorkflowOnly header in
  command ← newSignalExternalWorkflowStateMachine attributes signalID eventGroupMarkers;
  _ ← addCommand command;
  mret command.

Definition addProtocolMessage (msgID : string) : M ref :=
  let cmd := withAttributes (createNewCommand COMMAND_TYPE_PROTOCOL_MESSAGE)
               (Command_ProtocolMessageCommandAttributes msgID) [] in
  sm ← newNaiveCommandStateMachine commandTypeProtocolMessage msgID
         completeOnSendStateMachine cmd;
  _ ← addCommand sm;
  mret sm.

Definition upsertSearchAttributes (upsertID : string) (searchAttr : option IndexedFields)
    (eventGroupMarkers : list EventGroupMarker) : M ref :=
  command ← newUpsertSearchAttributesStateMachine searchAttr upsertID eventGroupMarkers;
  _ ← addCommand command;
  mret command.

Definition modifyProperties (changeID : string) (memo : option (gmap string Payload))
    (eventGroupMarkers : list EventGroupMarker) : M ref :=
  command ← newModifyPropertiesStateMachine memo changeID eventGroupMarkers;
  _ ← addCommand command;
  mret command.

Definition handleSignalExternalWorkflowExecutionInitiated (initiatedEventID : Z)
    (signalID : string) : M unit :=
  _ ← modify (λ h, set_scheduledEventIDToSignalID
        (<[initiatedEventID := signalID]> (scheduledEventIDToSignalID h)) h);
  command ← getCommand (makeCommandID commandTypeSignal signalID);
  handleInitiatedEvent command.

Definition getSignalID (initiatedEventID : Z) : M string :=
  h ← get;
  match scheduledEventIDToSignalID h !! initiatedEventID with
  | None =>
      panic (panicString ("unable to find signalID for initiatedEventID: " +:+
                          FormatInt initiatedEventID))%string
  | Some signalID => mret signalID
  end.

Definition handleSignalExternalWorkflowExecutionCompleted (initiatedEventID : Z) : M ref :=
  signalID ← getSignalID initiatedEventID;
  command ← getCommand (makeCommandID commandTypeSignal signalID);
  _ ← handleCompletionEvent command;
  mret command.

Definition handleSignalExternalWorkflowExecutionFailed (initiatedEventID : Z) : M ref :=
  signalID ← getSignalID initiatedEventID;
  command ← getCommand (makeCommandID commandTypeSignal signalID);
  _ ← handleCompletionEvent command;
  mret command.

(** ** Timers *)

(** [BuildUserMetadata] of [internal_workflow_client.go]. *)
Definition BuildUserMetadata (summary details : string) (dc : DataConverter)
    : string + option UserMetadata :=
  if bool_decide (summary = "") && bool_decide (details = "") then inr None
  else
    match (if decide (summary ≠ "") then Some <$> ToPayload dc (goString summary)
           else inr None) with
    | inl err => inl ("failed converting summary to payload: " +:+ err)%string
    | inr s =>
        match (if decide (details ≠ "") then Some <$> ToPayload dc (goString details)
               else inr None) with
        | inl err => inl ("failed converting details to payload: " +:+ err)%string
        | inr d => inr (Some (mkUserMetadata s d))
        end
    end.

Definition startTimer (attributes : StartTimerCommandAttributes) (summary : string)
    (dc : DataConverter) (eventGroupMarkers : list EventGroupMarker) : M ref :=
  startMetadata ← must (BuildUserMetadata summary "" dc);
  command ← newTimerCommandStateMachine attributes startMetadata;
  _ ← update command (m_set_eventGroupMarkers eventGroupMarkers);
  _ ← addCommand command;
  mret command.

Definition cancelTimer (timerID : string) : M ref :=
  command ← getCommand (makeCommandID commandTypeTimer timerID);
  _ ← cancel command;
  mret command.

Definition handleTimerClosed (timerID : string) : M ref :=
  command ← getCommand (makeCommandID commandTypeTimer timerID);
  let possibleCancelID := makeCommandID commandTypeCancelTimer timerID in
  _ ← removeCancelOfResolvedCommand possibleCancelID;
  _ ← handleCompletionEvent command;
  mret command.

Definition handleTimerStarted (timerID : string) : M unit :=
  command ← getCommand (makeCommandID commandTypeTimer timerID);
  handleInitiatedEvent command.

Definition handleTimerCanceled (timerID : string) : M unit :=
  command ← getCommand (makeCommandID commandTypeTimer timerID);
  handleCanceledEvent command.

Definition handleChildWorkflowExecutionStarted (workflowID : string) : M ref :=
  command ← getCommand (makeCommandID commandTypeChildWorkflow workflowID);
  _ ← handleStartedEvent command;
  mret command.

Definition handleChildWorkflowExecutionClosed (workflowID : string) : M ref :=
  command ← getCommand (makeCommandID commandTypeChildWorkflow workflowID);
  _ ← handleCompletionEvent command;
  mret command.

Definition handleChildWorkflowExecutionCanceled (workflowID : string) : M ref :=
  command ← getCommand (makeCommandID commandTypeChildWorkflow workflowID);
  _ ← handleCanceledEvent command;
  mret command.
