(* ===== verification/CommandInvariant.v ===== *)
(** * Well-formedness of the command index, and memory safety.

    [helper_wf] says that the helper's map and its ordered list index the same
    live machines, each under its own identifier, and that every pointer the
    helper or a machine holds is valid.  A small Hoare logic ([hoare]) proves
    that every operation keeps it, whether the operation returns or panics,
    and that no operation fails with a Go runtime error. *)

From stdpp Require Import base list gmap strings.
From S2P Require Import Prelude Proto CommandMachine CommandsHelper.
Open Scope Z_scope.

(** ** The invariant *)

(** The identifier a machine must carry, by its concrete type. *)
Definition kind_ok (m : machine) : Prop :=
  match m_kind m with
  | activityCommandStateMachine _ a _ =>
      m_id m = mkCommandID commandTypeActivity (sat_ActivityId a)
  | cancelActivityStateMachine a =>
      m_id m = mkCommandID commandTypeRequestCancelActivityTask
                 (FormatInt (rca_ScheduledEventId a))
  | timerCommandStateMachine a _ => m_id m = mkCommandID commandTypeTimer (st_TimerId a)
  | cancelTimerCommandStateMachine a =>
      m_id m = mkCommandID commandTypeCancelTimer (ct_TimerId a)
  | childWorkflowCommandStateMachine a _ =>
      m_id m = mkCommandID commandTypeChildWorkflow (scw_WorkflowId a)
  | cancelExternalWorkflowCommandStateMachine _ =>
      commandID_commandType (m_id m) = commandTypeCancellation
  | signalExternalWorkflowCommandStateMachine _ =>
      commandID_commandType (m_id m) = commandTypeSignal
  | markerCommandStateMachine _ => commandID_commandType (m_id m) = commandTypeMarker
  | completeOnSendStateMachine _ =>
      commandID_commandType (m_id m) = commandTypeUpsertSearchAttributes ∨
      commandID_commandType (m_id m) = commandTypeProtocolMessage
  | modifyPropertiesCommandStateMachine _ =>
      commandID_commandType (m_id m) = commandTypeModifyProperties
  | nexusOperationStateMachine seq _ _ _ _ =>
      m_id m = mkCommandID commandTypeNexusOperation (FormatInt seq)
  | requestCancelNexusOperationStateMachine a =>
      m_id m = mkCommandID commandTypeRequestCancelNexusOperation
                 (FormatInt (rcn_ScheduledEventId a))
  end.

(** [d] points to a machine with identifier [id]. *)
Definition points (d : ref) (id : commandID) (h : commandsHelper) : Prop :=
  ∃ m, machines h !! d = Some m ∧ m_id m = id.

(** [d] points to a machine of the given command type. *)
Definition typed (d : ref) (t : commandType) (h : commandsHelper) : Prop :=
  ∃ m, machines h !! d = Some m ∧ commandID_commandType (m_id m) = t.

Definition live (m : machine) : Prop := m_state m ≠ commandStateCompleted.

Definition nexus_cancelation (m : machine) : option ref :=
  match m_kind m with
  | nexusOperationStateMachine _ _ _ c _ => c
  | _ => None
  end.

Record helper_wf (h : commandsHelper) : Prop := {
  wf_refs : ∀ d m, machines h !! d = Some m → (d < next_ref h)%nat;
  wf_elems : ∀ e, e ∈ orderedCommands h → (elem_id e < next_elem h)%nat;
  wf_nodup : NoDup (elem_id <$> orderedCommands h);
  wf_index : ∀ id e, commands h !! id = Some e ↔
               e ∈ orderedCommands h ∧ points (elem_value e) id h;
  wf_live : ∀ e, e ∈ orderedCommands h →
              ∃ m, machines h !! elem_value e = Some m ∧ live m;
  wf_kind : ∀ d m, machines h !! d = Some m → kind_ok m;
  wf_nexus : ∀ e, e ∈ nexusOperationsWithoutScheduledID h →
               typed (elem_value e) commandTypeNexusOperation h;
  wf_cancelation : ∀ d m c, machines h !! d = Some m → nexus_cancelation m = Some c →
               typed c commandTypeRequestCancelNexusOperation h;
}.

(** Machines are never freed; they keep their identifier and the data attached
    to them, and a new machine has none. *)
Record extends (h h' : commandsHelper) : Prop := {
  extends_old : ∀ d m, machines h !! d = Some m →
    ∃ m', machines h' !! d = Some m' ∧ m_id m' = m_id m ∧ m_data m' = m_data m;
  extends_new : ∀ d m', machines h' !! d = Some m' → machines h !! d = None → m_data m' = None;
}.

Lemma extends_same h h' : machines h' = machines h → extends h h'.
Proof. intros Heq. split; rewrite Heq; [eauto|congruence]. Qed.

#[export] Instance extends_refl : Reflexive extends.
Proof. intros h. by apply extends_same. Qed.

#[export] Instance extends_trans : Transitive extends.
Proof.
  intros h1 h2 h3 [H12 N12] [H23 N23]. split.
  - intros d m Hm. destruct (H12 d m Hm) as (m' & Hm' & E & D).
    destruct (H23 d m' Hm') as (m'' & ? & ? & ?). exists m''. split_and!; congruence.
  - intros d m3 Hm3 Hn. destruct (machines h2 !! d) as [m2|] eqn:Hm2; [|eauto].
    destruct (H23 d m2 Hm2) as (m'' & ? & _ & D). rewrite <- (N12 d m2 Hm2 Hn). congruence.
Qed.

(** Assertions that survive every operation. *)
Class Stable (P : commandsHelper → Prop) : Prop :=
  stable : ∀ h h', extends h h' → P h → P h'.

#[export] Instance points_stable d id : Stable (points d id).
Proof.
  intros h h' He (m & Hm & Hid). destruct (extends_old _ _ He d m Hm) as (m' & ? & ? & _).
  exists m'. split; congruence.
Qed.

#[export] Instance typed_stable d t : Stable (typed d t).
Proof.
  intros h h' He (m & Hm & Hid). destruct (extends_old _ _ He d m Hm) as (m' & ? & ? & _).
  exists m'. split; congruence.
Qed.

#[export] Instance True_stable : Stable (λ _, True).
Proof. by intros h h' _ _. Qed.

#[export] Instance and_stable P Q : Stable P → Stable Q → Stable (λ h, P h ∧ Q h).
Proof. intros HP HQ h h' He [? ?]. split; [by eapply HP|by eapply HQ]. Qed.

(** ** The Hoare logic *)

(** No Go runtime error. *)
Definition not_runtime (p : panicValue) : Prop :=
  match p with
  | runtimeError _ => False
  | _ => True
  end.

(** No failed type assertion. *)
Definition no_conversion (p : panicValue) : Prop := p ≠ runtimeError "interface conversion".

Lemma not_runtime_no_conversion p : not_runtime p → no_conversion p.
Proof. by destruct p. Qed.

Definition any_panic (p : panicValue) : Prop := True.

Definition hoare {A} (E : panicValue → Prop) (P : commandsHelper → Prop) (m : M A)
    (Q : A → commandsHelper → Prop) : Prop :=
  ∀ h, helper_wf h → P h →
    wp m (λ a h', helper_wf h' ∧ extends h h' ∧ Q a h')
         (λ p h', helper_wf h' ∧ extends h h' ∧ E p) h.

Create HintDb hoare discriminated.

Section HoareRules.
Context {E : panicValue → Prop}.
Implicit Types P : commandsHelper → Prop.

Lemma hoare_ret {A} P (a : A) (Q : A → commandsHelper → Prop) :
  (∀ h, P h → Q a h) → hoare E P (mret a) Q.
Proof. intros HQ h Hwf HP. rewrite wp_ret. split_and!; eauto. reflexivity. Qed.

Lemma hoare_panic {A} P p (Q : A → commandsHelper → Prop) :
  E p → hoare E P (panic p) Q.
Proof. intros HE h Hwf HP. rewrite wp_panic. split_and!; eauto. reflexivity. Qed.

Lemma hoare_get P : hoare E P get (λ h h', h = h' ∧ P h').
Proof. intros h Hwf HP. rewrite wp_get. split_and!; eauto. reflexivity. Qed.

Lemma hoare_conseq {A} P P' (m : M A) (Q Q' : A → commandsHelper → Prop) :
  hoare E P m Q → (∀ h, P' h → P h) → (∀ a h, Q a h → Q' a h) → hoare E P' m Q'.
Proof.
  intros Hm HP HQ h Hwf HP'. eapply wp_mono; [by apply Hm, HP| |]; naive_solver.
Qed.

(** Binding keeps every stable fact known before. *)
Lemma hoare_bind {A B} P (m : M A) (f : A → M B) Q R :
  Stable P → hoare E P m Q → (∀ a, hoare E (λ h, P h ∧ Q a h) (f a) R) →
  hoare E P (m ≫= f) R.
Proof.
  intros HS Hm Hf h Hwf HP. rewrite wp_bind.
  eapply wp_mono; [by apply Hm| |done].
  intros a h1 (Hwf1 & He1 & HQ). simpl.
  eapply wp_mono; [apply (Hf a h1); [done|split; [by eapply HS|done]]| |];
    intros ? h2 (? & ? & ?); split_and!; eauto; by etrans.
Qed.

(** Binding when the fact is about the current state only. *)
Lemma hoare_bind_here {A B} P (m : M A) (f : A → M B) Q R :
  hoare E P m Q → (∀ a, hoare E (Q a) (f a) R) → hoare E P (m ≫= f) R.
Proof.
  intros Hm Hf h Hwf HP. rewrite wp_bind.
  eapply wp_mono; [by apply Hm| |done].
  intros a h1 (Hwf1 & He1 & HQ). simpl.
  eapply wp_mono; [apply (Hf a h1); eauto| |];
    intros ? h2 (? & ? & ?); split_and!; eauto; by etrans.
Qed.

Lemma hoare_get_bind {B} P (f : commandsHelper → M B) R :
  (∀ h0, hoare E (λ h, h = h0 ∧ P h) (f h0) R) → hoare E P (get ≫= f) R.
Proof. intros Hf h Hwf HP. rewrite wp_bind, wp_get. apply (Hf h h); auto. Qed.

Lemma hoare_modify P f :
  (∀ h, helper_wf h → P h → helper_wf (f h) ∧ extends h (f h)) →
  hoare E P (modify f) (λ _ _, True).
Proof. intros Hf h Hwf HP. rewrite wp_modify. naive_solver. Qed.
End HoareRules.

Lemma hoare_weaken_panic {A} (E E' : panicValue → Prop) P (m : M A) Q :
  hoare E P m Q → (∀ p, E p → E' p) → hoare E' P m Q.
Proof.
  intros Hm HE h Hwf HP. eapply wp_mono; [by apply Hm|done|]. naive_solver.
Qed.

(** Consequence of a triple on the final state, whatever the outcome. *)
Lemma hoare_final {A} E P (m : M A) Q h :
  hoare E P m Q → helper_wf h → P h → helper_wf (final m h) ∧ extends h (final m h).
Proof.
  intros Hm Hwf HP. specialize (Hm h Hwf HP). unfold wp, final in *.
  destruct (m h) as [[a|p] h']; naive_solver.
Qed.

(** ** Primitive state changes *)

Section HeapUpdates.
Variables (h : commandsHelper) (d : ref) (m m' : machine).
Hypothesis Hd : machines h !! d = Some m.
Hypothesis Hid : m_id m' = m_id m.

Let h' := set_machines (<[d := m']> (machines h)) (next_ref h) h.

Lemma extends_set_machine : m_data m' = m_data m → extends h h'.
Proof.
  intros Hdata. split.
  - intros r n Hr. destruct (decide (r = d)) as [->|Hne]; simpl.
    + exists m'. rewrite lookup_insert_eq. split_and!; congruence.
    + exists n. by rewrite lookup_insert_ne.
  - intros r n. simpl. rewrite lookup_insert_Some. intros [[<- _]|[_ ?]] ?; congruence.
Qed.

Lemma points_set_machine r id : points r id h' ↔ points r id h.
Proof.
  unfold points; simpl. destruct (decide (r = d)) as [->|Hne].
  - rewrite lookup_insert_eq. split; intros (n & E & <-); simplify_eq; eauto.
  - by rewrite lookup_insert_ne.
Qed.

Lemma typed_set_machine c t : typed c t h → typed c t h'.
Proof.
  intros (n & Hn & Ht). unfold typed; simpl. destruct (decide (c = d)) as [->|Hne].
  - exists m'. rewrite lookup_insert_eq. split; congruence.
  - exists n. by rewrite lookup_insert_ne.
Qed.

Lemma wf_set_machine :
  helper_wf h → kind_ok m' → (live m → live m') →
  (∀ c, nexus_cancelation m' = Some c → typed c commandTypeRequestCancelNexusOperation h) →
  helper_wf h'.
Proof.
  intros [Hrefs Helems Hnd Hidx Hlive Hkind Hnex Hcanc] Hk Hl Hc.
  assert (Hins : ∀ r n, machines h' !! r = Some n →
            (r = d ∧ n = m') ∨ (r ≠ d ∧ machines h !! r = Some n)).
  { intros r n; simpl. destruct (decide (r = d)) as [->|Hne].
    - rewrite lookup_insert_eq. intros [= ->]. auto.
    - rewrite lookup_insert_ne by done. auto. }
  split.
  - intros r n Hr. destruct (Hins r n Hr) as [[-> ->]|[_ Hr']]; eauto.
  - exact Helems.
  - exact Hnd.
  - intros id e. simpl. rewrite points_set_machine. apply Hidx.
  - intros e He'. destruct (Hlive e He') as (n & Hn & Hln). simpl.
    destruct (decide (elem_value e = d)) as [Heq|Hne].
    + exists m'. rewrite Heq, lookup_insert_eq. split; [done|]. apply Hl. congruence.
    + exists n. by rewrite lookup_insert_ne.
  - intros r n Hr. destruct (Hins r n Hr) as [[-> ->]|[_ Hr']]; eauto.
  - intros e He'. apply typed_set_machine. by apply Hnex.
  - intros r n c Hr Hcn. apply typed_set_machine.
    destruct (Hins r n Hr) as [[-> ->]|[_ Hr']]; eauto.
Qed.
End HeapUpdates.

(** Two list elements with the same identity are the same element. *)
Lemma nodup_elem_id (l : list element) e1 e2 :
  NoDup (elem_id <$> l) → e1 ∈ l → e2 ∈ l → elem_id e1 = elem_id e2 → e1 = e2.
Proof.
  intros Hnd (i & Hi)%list_elem_of_lookup (j & Hj)%list_elem_of_lookup Heq.
  assert (i = j) as ->; [|congruence].
  eapply NoDup_lookup; [exact Hnd| |]; rewrite list_lookup_fmap.
  - by rewrite Hi.
  - by rewrite Hj, Heq.
Qed.

Lemma elem_of_list_remove e e' l :
  e' ∈ list_remove e l ↔ e' ∈ l ∧ elem_id e' ≠ elem_id e.
Proof. unfold list_remove. rewrite list_elem_of_filter. tauto. Qed.

Lemma nodup_list_remove e l :
  NoDup (elem_id <$> l) → NoDup (elem_id <$> list_remove e l).
Proof.
  unfold list_remove. induction l as [|e' l IH]; simpl; [done|].
  rewrite NoDup_cons. intros [Hn Hnd]. rewrite filter_cons.
  destruct (decide _); [|by apply IH]. simpl. apply NoDup_cons. split; [|by apply IH].
  intros (x & Hx & Hin)%list_elem_of_fmap. apply Hn. apply list_elem_of_fmap.
  exists x. split; [done|]. by apply list_elem_of_filter in Hin as [_ ?].
Qed.

(** Everything of [helper_wf] that does not depend on the live-machine
    condition of the element being removed. *)
Lemma wf_remove h id e :
  commands h !! id = Some e →
  (∀ d m, machines h !! d = Some m → (d < next_ref h)%nat) →
  (∀ e, e ∈ orderedCommands h → (elem_id e < next_elem h)%nat) →
  NoDup (elem_id <$> orderedCommands h) →
  (∀ id e, commands h !! id = Some e ↔ e ∈ orderedCommands h ∧ points (elem_value e) id h) →
  (∀ e', e' ∈ orderedCommands h → e' ≠ e →
     ∃ m, machines h !! elem_value e' = Some m ∧ live m) →
  (∀ d m, machines h !! d = Some m → kind_ok m) →
  (∀ e, e ∈ nexusOperationsWithoutScheduledID h →
     typed (elem_value e) commandTypeNexusOperation h) →
  (∀ d m c, machines h !! d = Some m → nexus_cancelation m = Some c →
     typed c commandTypeRequestCancelNexusOperation h) →
  helper_wf (set_index (list_remove e (orderedCommands h)) (delete id (commands h)) h).
Proof.
  intros Hc Hrefs Helems Hnd Hidx Hlive Hkind Hnex Hcanc.
  destruct (proj1 (Hidx id e) Hc) as [Hin Hpt].
  split; simpl; try done.
  - intros e' [Hin' _]%elem_of_list_remove. auto.
  - by apply nodup_list_remove.
  - intros id' e'. rewrite lookup_delete_Some, Hidx, elem_of_list_remove. split.
    + intros (Hne & Hin' & Hpt'). split_and!; [done| |done].
      intros Heq. rewrite (nodup_elem_id _ e' e) in Hpt' by done.
      destruct Hpt as (m1 & ? & ?), Hpt' as (m2 & ? & ?). congruence.
    + intros [[Hin' Hne'] Hpt']. split_and!; [|done|done].
      intros <-. assert (commands h !! id = Some e') as He' by by apply Hidx.
      congruence.
  - intros e' [Hin' Hne']%elem_of_list_remove. apply Hlive; [done|]. by intros ->.
Qed.

Lemma extends_set_index l c h : extends h (set_index l c h).
Proof. by apply extends_same. Qed.

(** ** Triples of the primitives *)

Definition valid (d : ref) (h : commandsHelper) : Prop := is_Some (machines h !! d).

(** [d] points to a machine that has not completed. *)
Definition live_at (d : ref) (h : commandsHelper) : Prop :=
  ∃ m, machines h !! d = Some m ∧ live m.

#[export] Instance valid_stable d : Stable (valid d).
Proof. intros h h' He [m Hm]. destruct (extends_old _ _ He d m Hm) as (m' & ? & _). by exists m'. Qed.

Lemma points_valid d id h : points d id h → valid d h.
Proof. intros (m & ? & _). by exists m. Qed.

Lemma typed_valid d t h : typed d t h → valid d h.
Proof. intros (m & ? & _). by exists m. Qed.

Lemma live_at_valid d h : live_at d h → valid d h.
Proof. intros (m & ? & _). by exists m. Qed.

Lemma points_typed d id h : points d id h → typed d (commandID_commandType id) h.
Proof. intros (m & ? & <-). by exists m. Qed.

#[export] Hint Resolve points_valid typed_valid live_at_valid : hoare.

(** Unfolds a primitive to its effect on the state. *)
Ltac wp_unfold :=
  unfold wp, mbind, mret, go_bind, go_ret, get, modify, panic; simpl.

Lemma hoare_deref {E} P d :
  (∀ h, P h → valid d h) →
  hoare E P (deref d) (λ m h, P h ∧ machines h !! d = Some m).
Proof.
  intros HP h Hwf HPh. destruct (HP h HPh) as [m Hm]. unfold deref. wp_unfold.
  rewrite Hm. wp_unfold. split_and!; auto. reflexivity.
Qed.

Lemma hoare_deref_bind {E B} P d (f : machine → M B) R :
  (∀ h, P h → valid d h) →
  (∀ m, hoare E (λ h, P h ∧ machines h !! d = Some m) (f m) R) →
  hoare E P (deref d ≫= f) R.
Proof. intros HP Hf. eapply hoare_bind_here; [by apply hoare_deref|]. exact Hf. Qed.

Lemma hoare_getState_bind {E B} P d (f : commandState → M B) R :
  (∀ h, P h → valid d h) → (∀ s, hoare E P (f s) R) → hoare E P (getState d ≫= f) R.
Proof.
  intros HP Hf. eapply hoare_bind_here.
  - unfold getState. apply hoare_deref_bind; [exact HP|]. intros m.
    apply (hoare_ret _ _ (λ _ h, P h)). tauto.
  - exact Hf.
Qed.

(** Writing through a pointer; [keep] is a fact about another machine that
    the write does not disturb. *)
Lemma hoare_update {E} d f :
  (∀ m, m_id (f m) = m_id m) → (∀ m, m_data (f m) = m_data m) →
  (∀ m, kind_ok m → kind_ok (f m)) →
  (∀ m, live m → live (f m)) → (∀ m, nexus_cancelation (f m) = nexus_cancelation m) →
  hoare E (valid d) (update d f) (λ _ h, valid d h).
Proof.
  intros Hid Hd Hk Hl Hc h Hwf [m Hm]. unfold update, deref. wp_unfold. rewrite Hm. wp_unfold.
  pose proof (wf_kind h Hwf d m Hm) as Hkm.
  split_and!.
  - eapply wf_set_machine; eauto.
    intros c Hcm. rewrite Hc in Hcm. by eapply wf_cancelation.
  - by eapply extends_set_machine.
  - exists (f m). simpl. by rewrite lookup_insert_eq.
Qed.

Lemma live_at_update d d' f h m :
  (∀ m, live m → live (f m)) → machines h !! d = Some m → live_at d' h →
  live_at d' (set_machines (<[d := f m]> (machines h)) (next_ref h) h).
Proof.
  intros Hl Hm (m' & Hm' & Hlm'). unfold live_at. simpl.
  destruct (decide (d = d')) as [->|Hne].
  - exists (f m). rewrite lookup_insert_eq. split; [done|]. apply Hl. congruence.
  - exists m'. by rewrite lookup_insert_ne.
Qed.

Lemma hoare_update_live {E} d d' f :
  (∀ m, m_id (f m) = m_id m) → (∀ m, m_data (f m) = m_data m) →
  (∀ m, kind_ok m → kind_ok (f m)) →
  (∀ m, live m → live (f m)) → (∀ m, nexus_cancelation (f m) = nexus_cancelation m) →
  hoare E (λ h, valid d h ∧ live_at d' h) (update d f) (λ _ h, live_at d' h).
Proof.
  intros Hid Hd Hk Hl Hc h Hwf [[m Hm] Hd']. unfold update, deref. wp_unfold.
  rewrite Hm. wp_unfold. pose proof (wf_kind h Hwf d m Hm) as Hkm.
  split_and!.
  - eapply wf_set_machine; eauto.
    intros c Hcm. rewrite Hc in Hcm. by eapply wf_cancelation.
  - by eapply extends_set_machine.
  - by apply live_at_update.
Qed.

Lemma hoare_setCancelation {E} sm c :
  hoare E (λ h, valid sm h ∧ typed c commandTypeRequestCancelNexusOperation h ∧ live_at c h)
    (update sm (nexusOperation_setCancelation c)) (λ _ h, live_at c h).
Proof.
  intros h Hwf ([m Hm] & Htc & Hlc). unfold update, deref. wp_unfold.
  rewrite Hm. wp_unfold. pose proof (wf_kind h Hwf sm m Hm) as Hkm.
  assert (m_id (nexusOperation_setCancelation c m) = m_id m ∧
    m_data (nexusOperation_setCancelation c m) = m_data m) as [Hid Hdata]
    by by unfold nexusOperation_setCancelation; destruct (m_kind m).
  split_and!.
  - eapply wf_set_machine; eauto.
    + unfold kind_ok, nexusOperation_setCancelation in *.
      by destruct (m_kind m) eqn:Hk; simpl; rewrite ?Hk.
    + unfold live, nexusOperation_setCancelation. by destruct (m_kind m).
    + intros c' Hc'. unfold nexus_cancelation, nexusOperation_setCancelation in Hc'.
      destruct (m_kind m) eqn:Hk; simpl in Hc'; rewrite ?Hk in Hc'; simplify_eq; done.
  - by eapply extends_set_machine.
  - apply live_at_update; auto.
    intros m'. unfold live, nexusOperation_setCancelation. by destruct (m_kind m').
Qed.

Lemma hoare_alloc {E} m :
  kind_ok m → live m → nexus_cancelation m = None → m_data m = None →
  hoare E (λ _, True) (alloc m) (λ d h, machines h !! d = Some m).
Proof.
  intros Hk Hl Hc Hdata h Hwf _. unfold alloc. wp_unfold.
  assert (Hfresh : machines h !! next_ref h = None).
  { destruct (machines h !! next_ref h) eqn:Hd; [|done].
    apply (wf_refs h Hwf) in Hd. lia. }
  set (h' := set_machines _ _ h).
  assert (He : extends h h').
  { split.
    - intros d n Hd. exists n. simpl. rewrite lookup_insert_ne; [done|]. congruence.
    - intros d n. simpl. rewrite lookup_insert_Some. intros [[_ <-]|[_ ?]] ?; congruence. }
  assert (Hpt : ∀ d id, d ≠ next_ref h → points d id h' ↔ points d id h).
  { intros d id Hne. unfold points. simpl. by rewrite lookup_insert_ne. }
  split_and!; [|done|simpl; by rewrite lookup_insert_eq].
  destruct Hwf as [Hrefs Helems Hnd Hidx Hlive Hkind Hnex Hcanc].
  assert (Hne : ∀ e, e ∈ orderedCommands h → elem_value e ≠ next_ref h).
  { intros e He' Heq. destruct (Hlive e He') as (n & Hn & _). congruence. }
  assert (Hins : ∀ r n, machines h' !! r = Some n →
            (r = next_ref h ∧ n = m) ∨ machines h !! r = Some n).
  { intros r n; simpl. destruct (decide (r = next_ref h)) as [->|Hn].
    - rewrite lookup_insert_eq. intros [= ->]. auto.
    - rewrite lookup_insert_ne by done. auto. }
  split.
  - intros r n Hr. simpl. destruct (Hins r n Hr) as [[-> _]|Hr']; [lia|].
    apply Hrefs in Hr'. lia.
  - exact Helems.
  - exact Hnd.
  - intros id e. simpl. rewrite Hidx. split; intros [He' Hp]; (split; [done|]).
    + rewrite Hpt; auto.
    + rewrite <- Hpt; auto.
  - intros e He'. destruct (Hlive e He') as (n & Hn & Hln). exists n.
    simpl. rewrite lookup_insert_ne; [done|]. by apply not_eq_sym, Hne.
  - intros r n Hr. destruct (Hins r n Hr) as [[-> ->]|Hr']; eauto.
  - intros e He'. eapply typed_stable; [exact He|]. by apply Hnex.
  - intros r n c Hr Hcn. eapply typed_stable; [exact He|].
    destruct (Hins r n Hr) as [[-> ->]|Hr']; [congruence|eauto].
Qed.

Lemma hoare_failStateTransition {A} P d event (Q : A → commandsHelper → Prop) :
  (∀ h, P h → valid d h) → hoare not_runtime P (failStateTransition d event) Q.
Proof.
  intros HP. unfold failStateTransition. apply hoare_deref_bind; [exact HP|].
  intros m. by apply hoare_panic.
Qed.

(** Completing a machine removes exactly its own index entry. *)
Lemma hoare_moveState P d s event :
  (∀ h, P h → valid d h) → hoare not_runtime P (moveState d s event) (λ _ _, True).
Proof.
  intros HP h Hwf HPh. destruct (HP h HPh) as [m Hm].
  set (m' := m_add_history (commandState_String s)
               (m_set_state s (m_add_history event m))).
  set (h1 := set_machines (<[d := m']> (machines h)) (next_ref h) h).
  assert (He : extends h h1) by by eapply extends_set_machine.
  assert (Hd1 : machines h1 !! d = Some m') by by simpl; rewrite lookup_insert_eq.
  unfold moveState, update, deref, getID. wp_unfold. rewrite Hm. wp_unfold. fold m' h1.
  destruct (decide (s = commandStateCompleted)) as [->|Hs].
  2: { wp_unfold. split_and!; [|done|done].
       eapply wf_set_machine; eauto; [exact (wf_kind h Hwf d m Hm)|..]; try done.
       intros c Hc. by eapply wf_cancelation. }
  unfold deref. wp_unfold. change (<[d:=m']> (machines h)) with (machines h1).
  rewrite Hd1. wp_unfold.
  assert (Hpt : ∀ r id, points r id h1 ↔ points r id h)
    by (intros; by eapply points_set_machine).
  pose proof Hwf as [Hrefs Helems Hnd Hidx Hlive Hkind Hnex Hcanc].
  assert (Hlive1 : ∀ e, e ∈ orderedCommands h → commands h !! m_id m ≠ Some e →
            ∃ n, machines h1 !! elem_value e = Some n ∧ live n).
  { intros e Hin Hne. destruct (Hlive e Hin) as (n & Hn & Hln). exists n.
    simpl. rewrite lookup_insert_ne; [done|]. intros ->. apply Hne, Hidx.
    split; [done|]. by exists m. }
  assert (Hkind1 : ∀ r n, machines h1 !! r = Some n → kind_ok n).
  { intros r n. simpl. rewrite lookup_insert_Some. intros [[<- <-]|[_ ?]]; [|eauto].
    exact (Hkind d m Hm). }
  assert (Hrefs1 : ∀ r n, machines h1 !! r = Some n → (r < next_ref h1)%nat).
  { intros r n. simpl. rewrite lookup_insert_Some. intros [[<- <-]|[_ ?]]; eauto. }
  assert (Hcanc1 : ∀ r n c, machines h1 !! r = Some n → nexus_cancelation n = Some c →
            typed c commandTypeRequestCancelNexusOperation h1).
  { intros r n c. simpl. rewrite lookup_insert_Some. intros Hr Hc.
    eapply typed_stable; [exact He|].
    destruct Hr as [[<- <-]|[_ ?]]; [by eapply (Hcanc d m)|eauto]. }
  assert (Hnex1 : ∀ e, e ∈ nexusOperationsWithoutScheduledID h1 →
            typed (elem_value e) commandTypeNexusOperation h1).
  { intros e Hin. eapply typed_stable; [exact He|]. by apply Hnex. }
  destruct (commands h !! m_id m) as [e|] eqn:Hc; wp_unfold.
  - split_and!; [|by etrans; [exact He|apply extends_set_index]|done].
    apply wf_remove with (h := h1); simpl; auto.
    + intros id e'. rewrite Hpt. apply Hidx.
    + intros e' Hin Hne. apply Hlive1; [done|]. congruence.
  - split_and!; [|done|done]. split; simpl; auto.
    intros id e'. rewrite Hpt. apply Hidx.
Qed.

(** State changes that leave the heap and the index alone. *)
Lemma hoare_frame {E} P f :
  (∀ h, machines (f h) = machines h ∧ next_ref (f h) = next_ref h ∧
        next_elem (f h) = next_elem h ∧ orderedCommands (f h) = orderedCommands h ∧
        commands (f h) = commands h ∧
        (nexusOperationsWithoutScheduledID (f h) ⊆ nexusOperationsWithoutScheduledID h)) →
  hoare E (λ h, P (machines h)) (modify f) (λ _ h, P (machines h)).
Proof.
  intros Hf h Hwf HP. wp_unfold. destruct (Hf h) as (Hm & Hr & Hel & Ho & Hc & Hn).
  split_and!.
  - destruct Hwf as [Hrefs Helems Hnd Hidx Hlive Hkind Hnex Hcanc].
    split; unfold points, typed, live_at in *; rewrite ?Hm, ?Hr, ?Hel, ?Ho, ?Hc; auto.
  - by apply extends_same.
  - by rewrite Hm.
Qed.

Lemma frame_nextCommandEventID {E} P g :
  hoare E (λ h, P (machines h)) (modify (λ h, set_nextCommandEventID (g h) h))
    (λ _ h, P (machines h)).
Proof. apply hoare_frame. done. Qed.

Lemma hoare_incrementNextCommandEventID {E} P :
  hoare E (λ h, P (machines h)) incrementNextCommandEventID (λ _ h, P (machines h)).
Proof. apply frame_nextCommandEventID. Qed.

Lemma hoare_incrementIfVersionMarker {E} P :
  hoare E (λ h, P (machines h)) incrementNextCommandEventIDIfVersionMarker
    (λ _ h, P (machines h)).
Proof. apply hoare_frame. done. Qed.

Lemma hoare_getNextID P :
  hoare not_runtime (λ h, P (machines h)) getNextID (λ _ h, P (machines h)).
Proof.
  unfold getNextID.
  eapply hoare_bind_here; [apply (hoare_incrementIfVersionMarker P)|]; simpl.
  intros []. apply hoare_get_bind. intros h0. destruct (decide _).
  - by apply hoare_panic.
  - apply hoare_ret. tauto.
Qed.

(** [set_next_elem] only makes element identities fresher. *)
Lemma wf_set_next_elem h n :
  helper_wf h → (next_elem h ≤ n)%nat → helper_wf (set_next_elem n h).
Proof.
  intros [Hrefs Helems Hnd Hidx Hlive Hkind Hnex Hcanc] Hn.
  split; simpl; auto. intros e He. apply Helems in He. lia.
Qed.

(** Appending a live machine under a fresh identifier. *)
Lemma wf_append h m d :
  helper_wf h → machines h !! d = Some m → live m → commands h !! m_id m = None →
  helper_wf (set_index (orderedCommands h ++ [mkElement (next_elem h) d])
               (<[m_id m := mkElement (next_elem h) d]> (commands h))
               (set_next_elem (S (next_elem h)) h)).
Proof.
  intros [Hrefs Helems Hnd Hidx Hlive Hkind Hnex Hcanc] Hm Hl Hc.
  set (e0 := mkElement (next_elem h) d).
  assert (He0 : e0 ∉ orderedCommands h) by (intros Hin; apply Helems in Hin; simpl in Hin; lia).
  split; simpl; auto.
  - intros e [Hin|Heq%list_elem_of_singleton]%elem_of_app; [apply Helems in Hin; lia|].
    rewrite Heq. simpl. lia.
  - rewrite fmap_app. apply NoDup_app. split_and!; [done| |apply NoDup_singleton].
    simpl. intros x (e & -> & Hin)%list_elem_of_fmap Hx%list_elem_of_singleton.
    apply Helems in Hin. simpl in Hx. lia.
  - intros id e. rewrite lookup_insert_Some, elem_of_app, list_elem_of_singleton, Hidx. split.
    + intros [[<- <-]|(Hne & Hin & Hp)]; [|tauto]. split; [by right|]. by exists m.
    + intros [[Hin|Heq] Hp]; [|rewrite Heq in *].
      * right. split_and!; [|done|done]. intros <-.
        assert (commands h !! m_id m = Some e) by by apply Hidx. congruence.
      * left. destruct Hp as (n & Hn & Hid). simpl in Hn. split; [|done].
        rewrite Hm in Hn. by injection Hn as ->.
  - intros e [Hin|Heq%list_elem_of_singleton]%elem_of_app; [by apply Hlive|].
    rewrite Heq. simpl. eauto.
Qed.

Lemma hoare_addCommand d :
  hoare not_runtime (live_at d) (addCommand d) (λ _ _, True).
Proof.
  intros h Hwf (m & Hm & Hl). unfold addCommand, deref. wp_unfold. rewrite Hm. wp_unfold.
  destruct (commands h !! m_id m) eqn:Hc.
  { unfold panicIllegalState. wp_unfold. split_and!; [done|reflexivity|done]. }
  set (h1 := set_index _ _ _).
  assert (Hwf1 : helper_wf h1) by by apply wf_append.
  pose proof (hoare_bind_here (E := not_runtime) (λ _, True) _
                (λ _, incrementNextCommandEventID) _ _
                (hoare_incrementIfVersionMarker (λ _, True))
                (λ _, hoare_incrementNextCommandEventID (λ _, True))) as Hinc.
  assert (He : extends h h1) by by apply extends_same.
  eapply wp_mono; [by apply (Hinc h1)| |]; intros ? h2 (? & ? & ?); split_and!; auto; by etrans.
Qed.

Lemma hoare_removeCancelOfResolvedCommand id :
  hoare not_runtime (λ _, True) (removeCancelOfResolvedCommand id) (λ _ _, True).
Proof.
  intros h Hwf _. unfold removeCancelOfResolvedCommand.
  destruct (_ && _); [by split_and!; [done|reflexivity|]|]. wp_unfold.
  destruct (commands h !! id) as [e|] eqn:Hc; wp_unfold.
  - split_and!; [|apply extends_set_index|done].
    destruct Hwf. apply wf_remove; auto.
  - split_and!; [done|reflexivity|done].
Qed.

Lemma hoare_moveCommandToBack d :
  hoare not_runtime (live_at d) (moveCommandToBack d) (λ _ _, True).
Proof.
  intros h Hwf (m & Hm & Hl). unfold moveCommandToBack, deref. wp_unfold.
  rewrite Hm. wp_unfold. destruct (commands h !! m_id m) as [e|] eqn:Hc.
  2: { unfold panicIllegalState. wp_unfold. split_and!; [done|reflexivity|done]. }
  wp_unfold. split_and!; [|by apply extends_same|done].
  set (h1 := set_index (list_remove e (orderedCommands h)) (delete (m_id m) (commands h)) h).
  assert (Hwf1 : helper_wf h1) by (destruct Hwf; apply wf_remove; auto).
  pose proof (wf_append h1 m d Hwf1 Hm Hl) as Hap. simpl in Hap.
  rewrite lookup_delete_eq, insert_delete_eq in Hap. by apply Hap.
Qed.

Lemma hoare_getCommand id :
  hoare not_runtime (λ _, True) (getCommand id) (λ d h, points d id h).
Proof.
  intros h Hwf _. unfold getCommand, panicIllegalState. wp_unfold.
  destruct (commands h !! id) as [e|] eqn:Hc; wp_unfold.
  - apply (wf_index h Hwf) in Hc as [_ ?]. split_and!; [done|reflexivity|done].
  - split_and!; [done|reflexivity|done].
Qed.

(** ** Machine methods *)

(** A method that is safe to call on any allocated machine. *)
Definition safe_method (f : ref → M unit) : Prop :=
  ∀ d, hoare not_runtime (valid d) (f d) (λ _ _, True).

Lemma hoare_method f P d :
  safe_method f → (∀ h, P h → valid d h) → hoare not_runtime P (f d) (λ _ _, True).
Proof. intros Hf HP. eapply hoare_conseq; [apply Hf|exact HP|done]. Qed.

Lemma hoare_pure_update {E} P d f :
  (∀ h, P h → valid d h) →
  (∀ m, m_id (f m) = m_id m) → (∀ m, m_data (f m) = m_data m) →
  (∀ m, kind_ok m → kind_ok (f m)) →
  (∀ m, live m → live (f m)) → (∀ m, nexus_cancelation (f m) = nexus_cancelation m) →
  hoare E P (update d f) (λ _ _, True).
Proof. intros HP ?????. eapply hoare_conseq; [by apply (hoare_update d)|exact HP|done]. Qed.

#[export] Hint Extern 1 (hoare _ _ (mret _) _) => (by apply hoare_ret) : hoare.
#[export] Hint Extern 1 (hoare _ _ (failStateTransition _ _) _) =>
  (apply hoare_failStateTransition; tauto) : hoare.
#[export] Hint Extern 1 (hoare _ _ (moveState _ _ _) _) =>
  (apply hoare_moveState; tauto) : hoare.
#[export] Hint Extern 1 (hoare _ _ unsupportedOperation _) =>
  (by apply hoare_panic) : hoare.

(** A method that reads the state and moves along a table of transitions. *)
Ltac transition_table :=
  lazymatch goal with
  | |- hoare _ _ (getState _ ≫= _) _ =>
      apply hoare_getState_bind; [tauto|intros []]; eauto 2 with hoare
  end.

Lemma safe_base_handleCommandSent : safe_method base_handleCommandSent.
Proof. intros d. unfold base_handleCommandSent. transition_table. Qed.
Lemma safe_base_cancel : safe_method base_cancel.
Proof. intros d. unfold base_cancel. transition_table. Qed.
Lemma safe_base_handleInitiatedEvent : safe_method base_handleInitiatedEvent.
Proof. intros d. unfold base_handleInitiatedEvent. transition_table. Qed.
Lemma safe_base_handleInitiationFailedEvent : safe_method base_handleInitiationFailedEvent.
Proof. intros d. unfold base_handleInitiationFailedEvent. transition_table. Qed.
Lemma safe_base_handleStartedEvent : safe_method base_handleStartedEvent.
Proof. intros d. by apply hoare_pure_update. Qed.
Lemma safe_base_handleCompletionEvent : safe_method base_handleCompletionEvent.
Proof. intros d. unfold base_handleCompletionEvent. transition_table. Qed.
Lemma safe_base_handleCancelInitiatedEvent : safe_method base_handleCancelInitiatedEvent.
Proof.
  intros d. unfold base_handleCancelInitiatedEvent.
  eapply hoare_bind_here; [by apply hoare_update|]. intros []. transition_table.
Qed.
Lemma safe_base_handleCancelFailedEvent : safe_method base_handleCancelFailedEvent.
Proof. intros d. unfold base_handleCancelFailedEvent. transition_table. Qed.
Lemma safe_base_handleCanceledEvent : safe_method base_handleCanceledEvent.
Proof. intros d. unfold base_handleCanceledEvent. transition_table. Qed.

#[export] Hint Resolve safe_base_handleCommandSent safe_base_cancel
  safe_base_handleInitiatedEvent safe_base_handleInitiationFailedEvent
  safe_base_handleStartedEvent safe_base_handleCompletionEvent
  safe_base_handleCancelInitiatedEvent safe_base_handleCancelFailedEvent
  safe_base_handleCanceledEvent : hoare.
#[export] Hint Extern 2 (hoare _ _ (?f ?d) _) =>
  (apply (hoare_method f); [solve [eauto 1 with hoare]|tauto]) : hoare.

Lemma safe_activity_handleCommandSent : safe_method activity_handleCommandSent.
Proof. intros d. unfold activity_handleCommandSent. transition_table. Qed.
Lemma safe_timer_handleCommandSent : safe_method timer_handleCommandSent.
Proof. intros d. unfold timer_handleCommandSent. transition_table. Qed.
Lemma safe_childWorkflow_handleCommandSent : safe_method childWorkflow_handleCommandSent.
Proof. intros d. unfold childWorkflow_handleCommandSent. transition_table. Qed.
Lemma safe_childWorkflow_handleStartedEvent : safe_method childWorkflow_handleStartedEvent.
Proof. intros d. unfold childWorkflow_handleStartedEvent. transition_table. Qed.
Lemma safe_childWorkflow_handleInitiatedEvent : safe_method childWorkflow_handleInitiatedEvent.
Proof. intros d. unfold childWorkflow_handleInitiatedEvent. transition_table. Qed.
Lemma safe_childWorkflow_handleCancelFailedEvent :
  safe_method childWorkflow_handleCancelFailedEvent.
Proof. intros d. unfold childWorkflow_handleCancelFailedEvent. transition_table. Qed.
Lemma safe_childWorkflow_handleCanceledEvent : safe_method childWorkflow_handleCanceledEvent.
Proof. intros d. unfold childWorkflow_handleCanceledEvent. transition_table. Qed.
Lemma safe_childWorkflow_handleCompletionEvent :
  safe_method childWorkflow_handleCompletionEvent.
Proof. intros d. unfold childWorkflow_handleCompletionEvent. transition_table. Qed.
Lemma safe_cancelExternalWorkflow_handleInitiatedEvent :
  safe_method cancelExternalWorkflow_handleInitiatedEvent.
Proof. intros d. unfold cancelExternalWorkflow_handleInitiatedEvent. transition_table. Qed.
Lemma safe_cancelExternalWorkflow_handleCompletionEvent :
  safe_method cancelExternalWorkflow_handleCompletionEvent.
Proof. intros d. unfold cancelExternalWorkflow_handleCompletionEvent. transition_table. Qed.
Lemma safe_signalExternalWorkflow_handleInitiatedEvent :
  safe_method signalExternalWorkflow_handleInitiatedEvent.
Proof. intros d. unfold signalExternalWorkflow_handleInitiatedEvent. transition_table. Qed.
Lemma safe_signalExternalWorkflow_handleCompletionEvent :
  safe_method signalExternalWorkflow_handleCompletionEvent.
Proof. intros d. unfold signalExternalWorkflow_handleCompletionEvent. transition_table. Qed.
Lemma safe_marker_handleCommandSent : safe_method marker_handleCommandSent.
Proof. intros d. unfold marker_handleCommandSent. transition_table. Qed.
Lemma safe_completeOnSend_handleCommandSent : safe_method completeOnSend_handleCommandSent.
Proof. intros d. unfold completeOnSend_handleCommandSent. transition_table. Qed.
Lemma safe_modifyProperties_handleCommandSent :
  safe_method modifyProperties_handleCommandSent.
Proof. intros d. unfold modifyProperties_handleCommandSent. transition_table. Qed.
Lemma safe_nexusOperation_handleStartedEvent : safe_method nexusOperation_handleStartedEvent.
Proof. intros d. unfold nexusOperation_handleStartedEvent. transition_table. Qed.
Lemma safe_nexusOperation_handleCompletionEvent :
  safe_method nexusOperation_handleCompletionEvent.
Proof. intros d. unfold nexusOperation_handleCompletionEvent. transition_table. Qed.
Lemma safe_requestCancelNexusOperation_handleInitiatedEvent :
  safe_method requestCancelNexusOperation_handleInitiatedEvent.
Proof. intros d. unfold requestCancelNexusOperation_handleInitiatedEvent. transition_table. Qed.
Lemma safe_requestCancelNexusOperation_handleCompletionEvent :
  safe_method requestCancelNexusOperation_handleCompletionEvent.
Proof. intros d. unfold requestCancelNexusOperation_handleCompletionEvent. transition_table. Qed.
Lemma safe_activity_handleCancelFailedEvent : safe_method activity_handleCancelFailedEvent.
Proof. intros d. unfold activity_handleCancelFailedEvent. eauto with hoare. Qed.

#[export] Hint Resolve safe_activity_handleCommandSent safe_timer_handleCommandSent
  safe_childWorkflow_handleCommandSent safe_childWorkflow_handleStartedEvent
  safe_childWorkflow_handleInitiatedEvent safe_childWorkflow_handleCancelFailedEvent
  safe_childWorkflow_handleCanceledEvent safe_childWorkflow_handleCompletionEvent
  safe_cancelExternalWorkflow_handleInitiatedEvent
  safe_cancelExternalWorkflow_handleCompletionEvent
  safe_signalExternalWorkflow_handleInitiatedEvent
  safe_signalExternalWorkflow_handleCompletionEvent safe_marker_handleCommandSent
  safe_completeOnSend_handleCommandSent safe_modifyProperties_handleCommandSent
  safe_nexusOperation_handleStartedEvent safe_nexusOperation_handleCompletionEvent
  safe_requestCancelNexusOperation_handleInitiatedEvent
  safe_requestCancelNexusOperation_handleCompletionEvent
  safe_activity_handleCancelFailedEvent : hoare.

Lemma hoare_stable_frame {E A} P (m : M A) Q R :
  Stable R → hoare E P m Q → hoare E (λ h, P h ∧ R h) m (λ a h, Q a h ∧ R h).
Proof.
  intros HS Hm h Hwf [HP HR]. eapply wp_mono; [by apply Hm| |done].
  intros a h' (? & He & ?). split_and!; auto. by eapply HS.
Qed.

Lemma hoare_moveState_live {E} d s event :
  s ≠ commandStateCompleted →
  hoare E (valid d) (moveState d s event) (λ _ h, live_at d h).
Proof.
  intros Hs. unfold moveState. rewrite decide_False by done.
  intros h Hwf [m Hm]. unfold update, deref. wp_unfold. rewrite Hm. wp_unfold.
  split_and!.
  - eapply wf_set_machine; eauto; [exact (wf_kind h Hwf d m Hm)|..]; try done.
    intros c Hc. by eapply wf_cancelation.
  - by eapply extends_set_machine.
  - eexists. simpl. rewrite lookup_insert_eq. split; [done|]. exact Hs.
Qed.

Lemma safe_childWorkflow_cancelRequested :
  safe_method childWorkflow_handleExternalWorkflowExecutionCancelRequested.
Proof.
  intros d. unfold childWorkflow_handleExternalWorkflowExecutionCancelRequested.
  apply hoare_getState_bind; [tauto|]. intros s. destruct (decide _); eauto with hoare.
Qed.

Lemma safe_childWorkflow_cancel : safe_method childWorkflow_cancel.
Proof.
  intros d. unfold childWorkflow_cancel.
  apply hoare_getState_bind; [tauto|]; intros []; eauto 2 with hoare.
  eapply hoare_bind_here; [by apply hoare_moveState_live|]. intros [].
  eapply hoare_bind_here; [by apply hoare_moveCommandToBack|]. intros [].
  apply (hoare_incrementNextCommandEventID (λ _, True)).
Qed.

(** ** Creating machines *)

Lemma hoare_new {E} t id k :
  kind_ok (mkMachine (makeCommandID t id) commandStateCreated
             [commandState_String commandStateCreated] None [] k) →
  match k with nexusOperationStateMachine _ _ _ c _ => c | _ => None end = None →
  hoare E (λ _, True) (newCommandStateMachineBase t id k)
    (λ d h, live_at d h ∧ typed d t h).
Proof.
  intros Hk Hc. eapply hoare_conseq; [apply (hoare_alloc (E := E)); auto|done|].
  - done.
  - intros d h Hm. simpl in Hm. split; by eexists.
Qed.

(** [c := new(); c.eventGroupMarkers = g; addCommand(c); k(c)]. *)
Lemma hoare_create {B} P new g (k : ref → M B) R t :
  Stable P →
  hoare not_runtime (λ _, True) new (λ c h, live_at c h ∧ typed c t h) →
  (∀ c, hoare not_runtime (λ h, P h ∧ typed c t h) (k c) R) →
  hoare not_runtime P
    (c ← new; _ ← update c (m_set_eventGroupMarkers g); _ ← addCommand c; k c) R.
Proof.
  intros HS Hnew Hk.
  eapply hoare_bind; [done|eapply hoare_conseq; [apply Hnew|done|intros ??; exact id]|].
  intros c. simpl.
  eapply hoare_bind_here.
  { eapply hoare_conseq.
    - eapply (hoare_stable_frame _ _ _ (λ h, P h ∧ typed c t h));
        [apply _|by apply (hoare_update_live c c)].
    - intros h (HP & Hl & Ht). split_and!; eauto using live_at_valid.
    - intros ??; exact id. }
  intros []. simpl. eapply hoare_bind_here.
  { eapply (hoare_stable_frame _ _ _ (λ h, P h ∧ typed c t h));
      [apply _|apply hoare_addCommand]. }
  intros []. simpl. eapply hoare_conseq; [apply Hk|tauto|done].
Qed.

(** [c := new(); addCommand(c); k(c)]. *)
Lemma hoare_create_plain {B} P new (k : ref → M B) R t :
  Stable P →
  hoare not_runtime (λ _, True) new (λ c h, live_at c h ∧ typed c t h) →
  (∀ c, hoare not_runtime (λ h, P h ∧ typed c t h) (k c) R) →
  hoare not_runtime P (c ← new; _ ← addCommand c; k c) R.
Proof.
  intros HS Hnew Hk.
  eapply hoare_bind; [done|eapply hoare_conseq; [apply Hnew|done|intros ??; exact id]|].
  intros c. simpl. eapply hoare_bind_here.
  { eapply hoare_conseq.
    - eapply (hoare_stable_frame _ _ _ (λ h, P h ∧ typed c t h));
        [apply _|apply hoare_addCommand].
    - tauto.
    - intros ??; exact id. }
  intros []. simpl. eapply hoare_conseq; [apply Hk|tauto|done].
Qed.

(** The branches of a cancelling method: cancel in the states listed. *)
Lemma safe_activity_cancel scheduleID : safe_method (λ d, activity_cancel d scheduleID).
Proof.
  intros d. unfold activity_cancel. apply hoare_deref_bind; [done|]. intros m.
  eapply hoare_conseq with (P := valid d) (Q := λ _ _, True); [|tauto|done].
  eapply hoare_bind with (Q := λ _ _, True); [apply _| |intros ?; eauto with hoare].
  destruct (m_state m); eauto with hoare.
  all: eapply hoare_create; [apply _|by apply hoare_new|]; intros c;
    apply hoare_getState_bind; [tauto|]; intros s;
    destruct (decide _); eauto with hoare.
  all: apply hoare_pure_update; [tauto|..]; intros m'; unfold activity_setRequestEagerExecution,
    kind_ok, live, nexus_cancelation; destruct (m_kind m') eqn:Hk; simpl; rewrite ?Hk; done.
Qed.

Lemma safe_timer_cancel a : safe_method (λ d, timer_cancel d a).
Proof.
  intros d. unfold timer_cancel. apply hoare_deref_bind; [done|]. intros m.
  eapply hoare_conseq with (P := valid d) (Q := λ _ _, True); [|tauto|done].
  eapply hoare_bind with (Q := λ _ _, True); [apply _| |intros ?; eauto with hoare].
  destruct (m_state m); eauto with hoare.
  all: eapply hoare_bind with (Q := λ c h, live_at c h ∧ typed c commandTypeCancelTimer h);
    [apply _|eapply hoare_conseq; [by apply hoare_new|done|done]|]; intros c;
    eapply hoare_bind_here;
      [eapply hoare_conseq; [by apply (hoare_update_live c c)| |intros ??; exact id];
       naive_solver eauto using live_at_valid
      |intros []; apply hoare_addCommand].
Qed.

Lemma safe_nexusOperation_cancel ev cancelation :
  safe_method (λ d, nexusOperation_cancel d ev cancelation).
Proof.
  intros sm. unfold nexusOperation_cancel. apply hoare_deref_bind; [done|]. intros m.
  eapply hoare_conseq with (P := valid sm) (Q := λ _ _, True); [|tauto|done].
  destruct (_ || _); [eauto with hoare|].
  eapply hoare_bind with
    (Q := λ c h, live_at c h ∧ typed c commandTypeRequestCancelNexusOperation h);
    [apply _|eapply hoare_conseq; [by apply hoare_new|done|done]|]. intros c.
  set (R := λ h, valid sm h ∧ typed c commandTypeRequestCancelNexusOperation h).
  eapply hoare_bind_here.
  { eapply hoare_conseq;
      [eapply (hoare_stable_frame _ _ _ R); [apply _|by apply (hoare_update_live c c)]
      | |intros ??; exact id].
    intros h (? & ? & ?). split_and!; eauto using live_at_valid. done. }
  intros []. eapply hoare_bind_here.
  { eapply hoare_conseq;
      [eapply (hoare_stable_frame _ _ _ R); [apply _|apply hoare_setCancelation]
      | |intros ??; exact id].
    unfold R. tauto. }
  intros []. eapply hoare_bind_here.
  { eapply (hoare_stable_frame _ _ _ R); [apply _|apply hoare_addCommand]. }
  intros []. simpl. apply hoare_getState_bind; [unfold R; tauto|]. intros s.
  destruct (decide _); [|eauto with hoare].
  apply (hoare_method requestCancelNexusOperation_handleCompletionEvent);
    [eauto with hoare|]. intros h (_ & _ & ?). eauto using typed_valid.
Qed.

#[export] Hint Resolve safe_childWorkflow_cancelRequested safe_childWorkflow_cancel : hoare.

(** ** Dispatched methods *)

Ltac dispatch :=
  apply hoare_deref_bind; [done|]; intros m; destruct (m_kind m); eauto 2 with hoare.

Lemma safe_cancel : safe_method cancel.
Proof.
  intros d. unfold cancel. dispatch.
  - apply (hoare_method (λ d, activity_cancel d scheduleID)); [apply safe_activity_cancel|tauto].
  - apply (hoare_method (λ d, timer_cancel d attributes)); [apply safe_timer_cancel|tauto].
  - apply (hoare_method (λ d, nexusOperation_cancel d scheduledEventID cancelation));
      [apply safe_nexusOperation_cancel|tauto].
Qed.

Lemma safe_handleCommandSent : safe_method handleCommandSent.
Proof. intros d. unfold handleCommandSent. dispatch. Qed.
Lemma safe_handleStartedEvent : safe_method handleStartedEvent.
Proof. intros d. unfold handleStartedEvent. dispatch. Qed.
Lemma safe_handleInitiatedEvent : safe_method handleInitiatedEvent.
Proof. intros d. unfold handleInitiatedEvent. dispatch. Qed.
Lemma safe_handleInitiationFailedEvent : safe_method handleInitiationFailedEvent.
Proof. intros d. unfold handleInitiationFailedEvent. dispatch. Qed.
Lemma safe_handleCompletionEvent : safe_method handleCompletionEvent.
Proof. intros d. unfold handleCompletionEvent. dispatch. Qed.
Lemma safe_handleCancelInitiatedEvent : safe_method handleCancelInitiatedEvent.
Proof. intros d. unfold handleCancelInitiatedEvent. dispatch. Qed.
Lemma safe_handleCancelFailedEvent : safe_method handleCancelFailedEvent.
Proof. intros d. unfold handleCancelFailedEvent. dispatch. Qed.
Lemma safe_handleCanceledEvent : safe_method handleCanceledEvent.
Proof. intros d. unfold handleCanceledEvent. dispatch. Qed.

#[export] Hint Resolve safe_cancel safe_handleCommandSent safe_handleStartedEvent
  safe_handleInitiatedEvent safe_handleInitiationFailedEvent safe_handleCompletionEvent
  safe_handleCancelInitiatedEvent safe_handleCancelFailedEvent
  safe_handleCanceledEvent : hoare.
