(* ===== verification/CommandSend.v ===== *)
(** * Collecting and sending commands.

    Exact behaviour of [moveState], [handleCommandSent] and [getCommands] on a
    well-formed helper: what is sent, in which order, and which machines stay. *)

From stdpp Require Import base list gmap strings.
From S2P Require Import Prelude Proto CommandMachine CommandsHelper CommandInvariant.
Open Scope Z_scope.

(** ** [moveState] as a function on states *)

Definition moved (s : commandState) (event : string) (m : machine) : machine :=
  m_add_history (commandState_String s) (m_set_state s (m_add_history event m)).

Definition move_result (d : ref) (m : machine) (s : commandState) (event : string)
    (h : commandsHelper) : commandsHelper :=
  let h1 := set_machines (<[d := moved s event m]> (machines h)) (next_ref h) h in
  if decide (s = commandStateCompleted) then
    match commands h !! m_id m with
    | Some e => set_index (list_remove e (orderedCommands h)) (delete (m_id m) (commands h)) h1
    | None => h1
    end
  else h1.

Lemma moveState_spec d m s event h :
  machines h !! d = Some m →
  moveState d s event h = (Returned tt, move_result d m s event h).
Proof.
  intros Hm. unfold moveState, update, deref, getID, move_result.
  unfold mbind, go_bind, get, modify; simpl. rewrite Hm. simpl. fold (moved s event m).
  destruct (decide (s = commandStateCompleted)); [|done].
  unfold deref, mbind, go_bind, get; simpl. rewrite lookup_insert_eq. simpl.
  by destruct (commands h !! m_id m).
Qed.

(** ** [handleCommandSent] *)

(** The state a machine moves to when its command is sent, if it moves. *)
Definition sent_target (m : machine) : option commandState :=
  match m_kind m, m_state m with
  | activityCommandStateMachine _ _ _, commandStateCanceledAfterInitiated
  | timerCommandStateMachine _ _, commandStateCanceledAfterInitiated
  | childWorkflowCommandStateMachine _ _, commandStateCanceledAfterStarted =>
      Some commandStateCancellationCommandSent
  | markerCommandStateMachine _, commandStateCreated
  | completeOnSendStateMachine _, commandStateCreated
  | modifyPropertiesCommandStateMachine _, commandStateCreated => Some commandStateCompleted
  | _, commandStateCreated => Some commandStateCommandSent
  | _, _ => None
  end.

Definition sent_result (d : ref) (m : machine) (h : commandsHelper) : commandsHelper :=
  match sent_target m with
  | Some s => move_result d m s eventCommandSent h
  | None => h
  end.

Lemma handleCommandSent_spec d m h :
  machines h !! d = Some m → handleCommandSent d h = (Returned tt, sent_result d m h).
Proof.
  intros Hm.
  assert (Hmv : ∀ s, moveState d s eventCommandSent h =
                (Returned tt, move_result d m s eventCommandSent h))
    by (intros; by apply moveState_spec).
  unfold handleCommandSent, sent_result, sent_target, activity_handleCommandSent,
    timer_handleCommandSent, childWorkflow_handleCommandSent, marker_handleCommandSent,
    completeOnSend_handleCommandSent, modifyProperties_handleCommandSent,
    base_handleCommandSent, getState, deref, mbind, go_bind, get, mret, go_ret; simpl.
  rewrite Hm; simpl.
  destruct (m_kind m), (m_state m) eqn:Hs; simpl; rewrite ?Hm; simpl; rewrite ?Hs; simpl;
    rewrite ?Hm; simpl; rewrite ?Hs; auto.
Qed.

(** ** Elements and machines of a well-formed helper *)

Section WellFormed.
Variable h : commandsHelper.
Hypothesis Hwf : helper_wf h.

Lemma wf_element e :
  e ∈ orderedCommands h →
  ∃ m, machines h !! elem_value e = Some m ∧ live m ∧ commands h !! m_id m = Some e.
Proof.
  intros He. destruct (wf_live h Hwf e He) as (m & Hm & Hl). exists m.
  split_and!; [done|done|]. apply (wf_index h Hwf). split; [done|]. by exists m.
Qed.

(** Distinct elements hold distinct machines. *)
Lemma wf_element_inj e1 e2 :
  e1 ∈ orderedCommands h → e2 ∈ orderedCommands h → elem_value e1 = elem_value e2 → e1 = e2.
Proof.
  intros H1 H2 Heq. destruct (wf_element e1 H1) as (m1 & Hm1 & _ & Hc1).
  destruct (wf_element e2 H2) as (m2 & Hm2 & _ & Hc2). congruence.
Qed.

(** The other elements of the list hold other machines. *)
Lemma wf_split e :
  e ∈ orderedCommands h →
  ∃ pre rest, orderedCommands h = pre ++ e :: rest ∧
    ∀ e', e' ∈ pre ++ rest → elem_value e' ≠ elem_value e.
Proof.
  intros He. pose proof (wf_nodup h Hwf) as Hnd.
  apply list_elem_of_split in He as Hsplit. destruct Hsplit as (pre & rest & Heq).
  exists pre, rest. split; [done|]. intros e' Hin Hv.
  assert (e' = e) as -> by (apply wf_element_inj; [rewrite Heq; set_solver|done|done]).
  rewrite Heq, fmap_app in Hnd; simpl in Hnd. apply NoDup_app in Hnd as (_ & Hdis & Hnd).
  apply NoDup_cons in Hnd as [Hnr _]. apply elem_of_app in Hin as [Hin|Hin].
  - apply (Hdis (elem_id e)); [by apply list_elem_of_fmap_2|by left].
  - by apply Hnr, list_elem_of_fmap_2.
Qed.
End WellFormed.

(** ** One step of [getCommands] *)

Lemma list_remove_idemp e l : list_remove e (list_remove e l) = list_remove e l.
Proof.
  unfold list_remove. rewrite list_filter_filter. apply list_filter_iff. intros x. tauto.
Qed.

Lemma move_result_id d m s event h :
  machines h !! d = Some m →
  ∃ m', machines (move_result d m s event h) !! d = Some m' ∧
        m_id m' = m_id m ∧ m_state m' = s.
Proof.
  intros Hm. exists (moved s event m). unfold move_result.
  destruct (decide _); [destruct (commands h !! m_id m)|]; simpl;
    by rewrite lookup_insert_eq.
Qed.

Lemma sent_target_live m :
  live m → sent_target m ≠ Some commandStateCompleted →
  match sent_target m with Some s => s | None => m_state m end ≠ commandStateCompleted.
Proof. intros Hl. destruct (sent_target m); congruence. Qed.

(** The state after one step; the explicit removal of [getCommands] never
    removes anything that [moveState] did not remove already. *)
Definition step_result (markAsSent : bool) (d : ref) (m : machine) (h : commandsHelper) :=
  if markAsSent then sent_result d m h else h.

Lemma getCommands_step_spec b e m h :
  helper_wf h → e ∈ orderedCommands h → machines h !! elem_value e = Some m →
  getCommands_step b e h =
    (Returned (match machine_getCommand m with Some c => [c] | None => [] end),
     step_result b (elem_value e) m h).
Proof.
  intros Hwf He Hm.
  destruct (wf_element h Hwf e He) as (m0 & Hm0 & Hl & Hc).
  rewrite Hm in Hm0. injection Hm0 as <-.
  unfold getCommands_step, deref, mbind, go_bind, get, mret, go_ret. simpl. rewrite Hm. simpl.
  assert (Hend : ∀ h' m', machines h' !! elem_value e = Some m' →
    m_state m' ≠ commandStateCompleted ∨
    (list_remove e (orderedCommands h') = orderedCommands h' ∧
     delete (m_id m') (commands h') = commands h') →
    (getState (elem_value e) ≫= λ s, getID (elem_value e) ≫= λ id,
       (if decide (s = commandStateCompleted)
        then modify (λ h, set_index (list_remove e (orderedCommands h))
                            (delete id (commands h)) h)
        else mret tt) ≫= λ _, mret (match machine_getCommand m with
                                     | Some c => [c] | None => [] end)) h' =
    (Returned (match machine_getCommand m with Some c => [c] | None => [] end), h')).
  { intros h' m' Hm' Hdone.
    unfold getState, getID, deref, mbind, go_bind, get, mret, go_ret, modify; simpl.
    rewrite Hm'; simpl. rewrite Hm'; simpl.
    destruct (decide _) as [Hcomp|_]; [|done].
    destruct Hdone as [?|[E1 E2]]; [done|]. rewrite E1, E2. by destruct h'. }
  destruct b; simpl.
  - rewrite (handleCommandSent_spec _ m) by done. simpl. unfold sent_result.
    destruct (sent_target m) as [s|] eqn:Hst; [|by apply (Hend h m); auto].
    destruct (move_result_id (elem_value e) m s eventCommandSent h Hm) as (m' & Hm' & Hid & Hs).
    apply (Hend _ m' Hm'). destruct (decide (s = commandStateCompleted)) as [->|Hne];
      [right|left; congruence].
    unfold move_result. rewrite decide_True by done. rewrite Hc, Hid. simpl.
    by rewrite list_remove_idemp, delete_delete_eq.
  - apply (Hend h m); auto.
Qed.

(** ** The loop *)

Definition pending_of (h : commandsHelper) (l : list element) : list Command :=
  omap (λ e, machines h !! elem_value e ≫= machine_getCommand) l.

(** The commands that are ready to be sent, in order. *)
Definition pending_commands (h : commandsHelper) : list Command :=
  pending_of h (orderedCommands h).

(** What sending does to one machine. *)
Definition sent (m : machine) : machine :=
  match sent_target m with
  | Some s => moved s eventCommandSent m
  | None => m
  end.

(** Whether the machine completes as soon as its command is sent. *)
Definition completes_on_send (m : machine) : bool :=
  bool_decide (sent_target m = Some commandStateCompleted).

Definition stays (h : commandsHelper) (e : element) : bool :=
  match machines h !! elem_value e with
  | Some m => negb (completes_on_send m)
  | None => true
  end.

Lemma list_next_head pre e rest :
  NoDup (elem_id <$> (pre ++ e :: rest)) → list_next e (pre ++ e :: rest) = head rest.
Proof.
  induction pre as [|e' pre IH]; simpl; intros Hnd.
  - by rewrite decide_True.
  - apply NoDup_cons in Hnd as [Hn Hnd]. rewrite decide_False; [exact (IH Hnd)|].
    intros Heq. apply Hn. rewrite Heq. apply list_elem_of_fmap_2, elem_of_middle.
Qed.

Lemma list_remove_not_in e l : elem_id e ∉ elem_id <$> l → list_remove e l = l.
Proof.
  intros Hn. unfold list_remove. induction l as [|e' l IH]; [done|].
  rewrite filter_cons, decide_True.
  - f_equal. apply IH. intros Hin. apply Hn. by right.
  - intros Heq. apply Hn. simpl. rewrite Heq. by left.
Qed.

Lemma list_remove_middle pre e rest :
  NoDup (elem_id <$> (pre ++ e :: rest)) → list_remove e (pre ++ e :: rest) = pre ++ rest.
Proof.
  rewrite fmap_app. simpl. intros (Hpre & Hd & [Hn Hr]%NoDup_cons)%NoDup_app.
  unfold list_remove. rewrite filter_app, filter_cons, decide_False by auto.
  f_equal; apply list_remove_not_in; [|done].
  intros Hin. apply (Hd _ Hin). by left.
Qed.

(** One step of the collection on the element after [pre]. *)
Lemma step_result_facts b pre e rest m h :
  helper_wf h → orderedCommands h = pre ++ e :: rest →
  machines h !! elem_value e = Some m →
  let h' := step_result b (elem_value e) m h in
  helper_wf h' ∧ extends h h' ∧
  nextCommandEventID h' = nextCommandEventID h ∧
  orderedCommands h' =
    pre ++ (if b && completes_on_send m then rest else e :: rest) ∧
  machines h' = (if b then <[elem_value e := sent m]> (machines h) else machines h).
Proof.
  intros Hwf Ho Hm h'. destruct b; [|by split_and!].
  assert (He : e ∈ orderedCommands h) by (rewrite Ho; apply elem_of_middle).
  destruct (wf_element h Hwf e He) as (m0 & Hm0 & Hl & Hc). simplify_eq.
  assert (helper_wf h' ∧ extends h h') as [Hwf' Hext].
  { pose proof (hoare_final _ _ _ _ h (safe_handleCommandSent (elem_value e)) Hwf) as H.
    unfold final in H. rewrite (handleCommandSent_spec _ m) in H by done.
    apply H. by exists m. }
  split_and!; [done|done|..]; unfold h'; simpl; unfold sent_result, sent, completes_on_send.
  - destruct (sent_target m); [|done]. unfold move_result.
    by repeat case_match.
  - destruct (sent_target m) as [s|] eqn:Hst; [|done]. unfold move_result.
    rewrite Hc. destruct (decide (s = commandStateCompleted)) as [->|Hne].
    + rewrite bool_decide_true by done. simpl. rewrite Ho. apply list_remove_middle.
      rewrite <- Ho. apply (wf_nodup h Hwf).
    + rewrite bool_decide_false by congruence. exact Ho.
  - destruct (sent_target m) as [s|]; simpl.
    + unfold move_result. by repeat case_match.
    + symmetry. by apply insert_id.
Qed.

Lemma wf_rest_distinct h pre e rest :
  helper_wf h → orderedCommands h = pre ++ e :: rest →
  ∀ e', e' ∈ rest → elem_value e' ≠ elem_value e.
Proof.
  intros Hwf Ho e' Hin Heq.
  apply (wf_element_inj h Hwf) in Heq; [|rewrite Ho; by apply elem_of_after|rewrite Ho; apply elem_of_middle].
  subst e'. pose proof (wf_nodup h Hwf) as Hnd. rewrite Ho, fmap_app in Hnd.
  apply NoDup_app in Hnd as (_ & _ & Hnd). simpl in Hnd.
  apply NoDup_cons in Hnd as [Hnd _]. apply Hnd. by apply list_elem_of_fmap_2.
Qed.

(** Sending the first element, then the rest, sends them all. *)
Lemma lookup_sent_cons (ms : gmap ref machine) e m rest d :
  ms !! elem_value e = Some m → (∀ e', e' ∈ rest → elem_value e' ≠ elem_value e) →
  (if bool_decide (d ∈ elem_value <$> rest) then sent <$> <[elem_value e := sent m]> ms !! d
   else <[elem_value e := sent m]> ms !! d) =
  (if bool_decide (d ∈ elem_value <$> e :: rest) then sent <$> ms !! d else ms !! d).
Proof.
  intros Hm Hne. simpl. destruct (decide (d = elem_value e)) as [->|Hd].
  - rewrite lookup_insert_eq, Hm. rewrite (bool_decide_true (_ ∈ _ :: _)) by by left.
    rewrite bool_decide_false; [done|].
    intros (e' & Heq & Hin)%list_elem_of_fmap. by apply (Hne e' Hin).
  - rewrite lookup_insert_ne by done.
    destruct (decide (d ∈ elem_value <$> rest)).
    + rewrite !bool_decide_true; [done|by right|done].
    + rewrite !bool_decide_false; [done| |done]. rewrite elem_of_cons. naive_solver.
Qed.

Lemma getCommands_loop_spec b rest : ∀ k pre acc h,
  helper_wf h → orderedCommands h = pre ++ rest →
  ∃ h', getCommands_loop (length rest + k) b (head rest) acc h =
          (Returned (acc ++ pending_of h rest), h') ∧
    helper_wf h' ∧ extends h h' ∧ nextCommandEventID h' = nextCommandEventID h ∧
    (b = false → h' = h) ∧
    (b = true → orderedCommands h' = pre ++ filter (λ e, Is_true (stays h e)) rest) ∧
    (b = true → ∀ d, machines h' !! d =
       if bool_decide (d ∈ elem_value <$> rest) then sent <$> machines h !! d
       else machines h !! d).
Proof.
  induction rest as [|e rest IH]; intros k pre acc h Hwf Ho.
  { exists h. split_and!; try done.
    destruct k; simpl; by rewrite app_nil_r. }
  assert (He : e ∈ orderedCommands h) by (rewrite Ho; apply elem_of_middle).
  destruct (wf_element h Hwf e He) as (m & Hm & _).
  destruct (step_result_facts b pre e rest m h Hwf Ho Hm) as (Hwf1 & He1 & Hn1 & Ho1 & Hm1).
  set (h1 := step_result b (elem_value e) m h) in *.
  pose proof (wf_rest_distinct h pre e rest Hwf Ho) as Hne.
  assert (Hsame : ∀ e', e' ∈ rest → machines h1 !! elem_value e' = machines h !! elem_value e').
  { intros e' Hin. rewrite Hm1. destruct b; [|done]. rewrite lookup_insert_ne; [done|].
    apply not_eq_sym. auto. }
  set (pre1 := if b && completes_on_send m then pre else pre ++ [e]).
  assert (Ho1' : orderedCommands h1 = pre1 ++ rest).
  { rewrite Ho1. unfold pre1. destruct (b && completes_on_send m); [done|].
    by rewrite <- app_assoc. }
  set (cs := match machine_getCommand m with Some c => [c] | None => [] end).
  destruct (IH k pre1 (acc ++ cs) h1 Hwf1 Ho1')
    as (h2 & Hrun & Hwf2 & He2 & Hn2 & Hf2 & Hord2 & Hmach2).
  exists h2.
  assert (Hstays : filter (λ e, Is_true (stays h1 e)) rest = filter (λ e, Is_true (stays h e)) rest).
  { apply filter_bool_ext. intros e' Hin. unfold stays. by rewrite Hsame. }
  split_and!; [|done|by etrans|congruence|..].
  - simpl. unfold mbind at 1, go_bind, get; simpl. rewrite Ho.
    rewrite list_next_head by (rewrite <- Ho; apply (wf_nodup h Hwf)).
    unfold mbind, go_bind; simpl. rewrite (getCommands_step_spec b e m h Hwf He Hm).
    fold cs h1. rewrite Hrun. f_equal. f_equal. rewrite <- app_assoc. f_equal.
    unfold pending_of. simpl. rewrite Hm. simpl.
    replace (omap (λ e, machines h1 !! elem_value e ≫= machine_getCommand) rest)
      with (omap (λ e, machines h !! elem_value e ≫= machine_getCommand) rest).
    + unfold cs. by destruct (machine_getCommand m).
    + apply omap_ext_in. intros e' Hin. by rewrite Hsame.
  - intros ->. rewrite Hf2 by done. done.
  - intros ->. rewrite Hord2 by done. rewrite Hstays, filter_cons. unfold pre1, stays.
    rewrite Hm. simpl. destruct (completes_on_send m); simpl.
    + done.
    + by rewrite <- app_assoc.
  - intros -> d. rewrite Hmach2 by done. rewrite Hm1. by apply lookup_sent_cons.
Qed.

Lemma getCommands_spec b h :
  helper_wf h →
  ∃ h', getCommands b h = (Returned (pending_commands h), h') ∧
    helper_wf h' ∧ extends h h' ∧ nextCommandEventID h' = nextCommandEventID h ∧
    (b = false → h' = h) ∧
    (b = true → orderedCommands h' = filter (λ e, Is_true (stays h e)) (orderedCommands h)) ∧
    (b = true → ∀ d, machines h' !! d =
       if bool_decide (d ∈ elem_value <$> orderedCommands h)
       then sent <$> machines h !! d else machines h !! d).
Proof.
  intros Hwf.
  destruct (getCommands_loop_spec b (orderedCommands h) 0 [] [] h Hwf eq_refl) as (h' & Hrun & ?).
  exists h'. rewrite Nat.add_0_r in Hrun. by split.
Qed.

(** A machine offers its command again after a send only when it was canceled
    before the send and stays in that state. *)
Lemma sent_getCommand m :
  machine_getCommand (sent m) =
    if decide (m_state m = commandStateCanceledBeforeSent)
    then machine_getCommand m else None.
Proof.
  unfold sent, sent_target, machine_getCommand, activity_getCommand, timer_getCommand,
    childWorkflow_getCommand, cancelActivity_getCommand, cancelTimer_getCommand,
    naive_getCommand, nexusOperation_getCommand, requestCancelNexusOperation_getCommand.
  by destruct (m_kind m) eqn:Hk, (m_state m) eqn:Hs; simpl; rewrite ?Hk, ?Hs; simpl.
Qed.

Lemma stays_cancelled h e m :
  machines h !! elem_value e = Some m → m_state m = commandStateCanceledBeforeSent →
  stays h e = true.
Proof.
  intros Hm Hs. unfold stays, completes_on_send, sent_target. rewrite Hm, Hs.
  by destruct (m_kind m).
Qed.

Lemma pending_after_send h :
  helper_wf h →
  pending_commands (final (getCommands true) h) =
    omap (λ e, m ← machines h !! elem_value e;
               if decide (m_state m = commandStateCanceledBeforeSent)
               then machine_getCommand m else None) (orderedCommands h).
Proof.
  intros Hwf. destruct (getCommands_spec true h Hwf) as (h' & Hrun & _ & _ & _ & _ & Ho & Hm).
  unfold final. rewrite Hrun. simpl. unfold pending_commands, pending_of.
  rewrite Ho by done. specialize (Hm eq_refl).
  assert (Hall : ∀ e, e ∈ orderedCommands h → machines h' !! elem_value e =
                   sent <$> machines h !! elem_value e).
  { intros e He. rewrite Hm, bool_decide_true; [done|]. by apply list_elem_of_fmap_2. }
  clear Hm Ho Hrun. induction (orderedCommands h) as [|e l IH]; [done|].
  rewrite filter_cons. csimpl.
  destruct (machines h !! elem_value e) as [m|] eqn:He; csimpl.
  - destruct (decide (m_state m = commandStateCanceledBeforeSent)) as [Hs|Hs].
    + rewrite (stays_cancelled h e m) by done. rewrite decide_True by done. csimpl.
      rewrite Hall, He by by left. csimpl. rewrite sent_getCommand, decide_True by done.
      rewrite IH; [done|]. intros e' ?. apply Hall. by right.
    + destruct (decide (Is_true (stays h e))); csimpl.
      * rewrite Hall, He by by left. csimpl. rewrite sent_getCommand, decide_False by done.
        apply IH. intros e' ?. apply Hall. by right.
      * apply IH. intros e' ?. apply Hall. by right.
  - assert (stays h e = true) as -> by (unfold stays; by rewrite He).
    rewrite decide_True by done. csimpl.
    rewrite Hall, He by by left. csimpl. apply IH. intros e' ?. apply Hall. by right.
Qed.

Lemma hoare_getCommands b :
  hoare not_runtime (λ _, True) (getCommands b) (λ _ _, True).
Proof.
  intros h Hwf _. destruct (getCommands_spec b h Hwf) as (h' & Hrun & ? & ? & _).
  unfold wp. by rewrite Hrun.
Qed.
