(* ===== verification/CommandReachable.v ===== *)
(** * Every operation keeps the invariant; reachable states; memory safety. *)

From stdpp Require Import base list gmap strings.
From S2P Require Import Prelude Proto CommandMachine CommandsHelper CommandInvariant CommandSend.
Open Scope Z_scope.

(** The type of an operation whose triple needs no precondition. *)
Abbreviation safe_op m := (hoare not_runtime (λ _, True) m (λ _ _, True)).

Lemma hoare_must {A} P (r : string + A) :
  hoare not_runtime P (must r) (λ _ h, P h).
Proof. destruct r; [by apply hoare_panic|by apply hoare_ret]. Qed.

(** Look a command up and call a method on it. *)
Lemma hoare_lookup_call {B} id f (k : ref → M B) R :
  safe_method f → (∀ d, hoare not_runtime (λ h, points d id h ∧ True) (k d) R) →
  hoare not_runtime (λ _, True) (d ← getCommand id; _ ← f d; k d) R.
Proof.
  intros Hf Hk. eapply hoare_bind_here; [apply hoare_getCommand|]. intros d.
  eapply hoare_bind with (Q := λ _ _, True); [apply _| |intros ?; apply Hk].
  apply (hoare_method f); [done|]. apply points_valid.
Qed.

Lemma hoare_lookup_last id f :
  safe_method f → safe_op (d ← getCommand id; f d).
Proof.
  intros Hf. eapply hoare_bind_here; [apply hoare_getCommand|]. intros d.
  apply (hoare_method f); [done|]. apply points_valid.
Qed.

(** State changes that only touch the event tables. *)
Lemma hoare_modify_bind {B} f (k : M B) R :
  (∀ h, machines (f h) = machines h ∧ next_ref (f h) = next_ref h ∧
        next_elem (f h) = next_elem h ∧ orderedCommands (f h) = orderedCommands h ∧
        commands (f h) = commands h ∧
        nexusOperationsWithoutScheduledID (f h) = nexusOperationsWithoutScheduledID h) →
  hoare not_runtime (λ _, True) k R →
  hoare not_runtime (λ _, True) (_ ← modify f; k) R.
Proof.
  intros Hf Hk. eapply hoare_bind_here.
  - apply (hoare_frame (λ _, True)). intros h.
    destruct (Hf h) as (? & ? & ? & ? & ? & ->). by split_and!.
  - intros []. exact Hk.
Qed.

Lemma hoare_True {A} P (m : M A) R :
  hoare not_runtime (λ _, True) m R → hoare not_runtime P m R.
Proof. intros Hm. by eapply hoare_conseq. Qed.

Ltac call := apply hoare_lookup_call; [eauto 1 with hoare|]; intros ?; eauto 2 with hoare.
Ltac create := eapply hoare_create_plain; [apply _|by apply hoare_new|]; eauto 2 with hoare.
Ltac create_marked := eapply hoare_create; [apply _|by apply hoare_new|]; eauto 2 with hoare.

(** ** Activities *)

Lemma safe_scheduleActivityTask i a md g : safe_op (scheduleActivityTask i a md g).
Proof. apply hoare_modify_bind; [done|]. create_marked. Qed.

Lemma safe_requestCancelActivityTask a : safe_op (requestCancelActivityTask a).
Proof. unfold requestCancelActivityTask. cbv zeta. call. Qed.

Lemma safe_handleActivityTaskClosed a i : safe_op (handleActivityTaskClosed a i).
Proof.
  unfold handleActivityTaskClosed.
  eapply hoare_bind_here; [apply hoare_getCommand|]. intros d. cbv zeta.
  eapply hoare_bind with (Q := λ _ _, True);
    [apply _|by apply hoare_True, hoare_removeCancelOfResolvedCommand|]. intros ?.
  eapply hoare_bind_here.
  - apply (hoare_method handleCompletionEvent); [eauto with hoare|].
    intros h [? _]. eauto using points_valid.
  - intros ?. apply hoare_modify_bind; [done|]. eauto with hoare.
Qed.

Lemma safe_handleActivityTaskScheduled a i : safe_op (handleActivityTaskScheduled a i).
Proof.
  unfold handleActivityTaskScheduled. apply hoare_get_bind. intros h0. apply hoare_True.
  destruct (_ !! i); [|by apply hoare_panic]. apply hoare_lookup_last. eauto with hoare.
Qed.

Lemma safe_handleActivityTaskCancelRequested i : safe_op (handleActivityTaskCancelRequested i).
Proof.
  unfold handleActivityTaskCancelRequested. apply hoare_get_bind. intros h0. apply hoare_True.
  destruct (_ !! i); [|by apply hoare_panic]. apply hoare_lookup_last. eauto with hoare.
Qed.

Lemma safe_handleActivityTaskCanceled a i : safe_op (handleActivityTaskCanceled a i).
Proof.
  unfold handleActivityTaskCanceled. apply hoare_lookup_call; [eauto with hoare|].
  intros d. apply hoare_True, hoare_modify_bind; [done|]. eauto with hoare.
Qed.

Lemma safe_getActivityAndScheduledEventIDs p1 p2 e :
  safe_op (getActivityAndScheduledEventIDs p1 p2 e).
Proof.
  unfold getActivityAndScheduledEventIDs.
  eapply hoare_bind_here with (Q := λ _ _, True).
  - destruct (Event_EventType e); by (apply hoare_ret || apply hoare_panic).
  - intros i. apply hoare_get_bind. intros h0.
    destruct (_ !! i); by (apply hoare_ret || apply hoare_panic).
Qed.

(** ** Nexus operations *)

(** Dereferencing a pointer whose command type is known. *)
Lemma hoare_deref_typed {E B} d t (f : machine → M B) R :
  (∀ m, kind_ok m → commandID_commandType (m_id m) = t → hoare E (valid d) (f m) R) →
  hoare E (typed d t) (deref d ≫= f) R.
Proof.
  intros Hf h Hwf (m & Hm & Ht). unfold deref. wp_unfold. rewrite Hm. wp_unfold.
  apply Hf; [by eapply wf_kind|done|done|by exists m].
Qed.

(** A machine of command type [commandTypeNexusOperation] is a Nexus machine. *)
Lemma typed_nexus m :
  kind_ok m → commandID_commandType (m_id m) = commandTypeNexusOperation →
  ∃ seq ev a c md, m_kind m = nexusOperationStateMachine seq ev a c md.
Proof.
  intros Hk Ht. unfold kind_ok in Hk.
  destruct (m_kind m); eauto; try (by rewrite Hk in Ht); naive_solver congruence.
Qed.

Lemma typed_child m :
  kind_ok m → commandID_commandType (m_id m) = commandTypeChildWorkflow →
  ∃ a md, m_kind m = childWorkflowCommandStateMachine a md.
Proof.
  intros Hk Ht. unfold kind_ok in Hk.
  destruct (m_kind m); eauto; try (by rewrite Hk in Ht); naive_solver congruence.
Qed.

Lemma wf_nexus_sublist h l :
  helper_wf h → l ⊆ nexusOperationsWithoutScheduledID h →
  helper_wf (set_nexusOperationsWithoutScheduledID l h).
Proof.
  intros [Hrefs Helems Hnd Hidx Hlive Hkind Hnex Hcanc] Hl. split; simpl; auto.
  intros e He. by apply Hnex, Hl.
Qed.

Lemma safe_handleNexusOperationScheduled p e : safe_op (handleNexusOperationScheduled p e).
Proof.
  unfold handleNexusOperationScheduled. apply hoare_get_bind. intros h0.
  destruct (nexusOperationsWithoutScheduledID h0) as [|elem rest] eqn:Hl;
    [by apply hoare_panic|].
  eapply hoare_bind_here with
    (Q := λ _ h, typed (elem_value elem) commandTypeNexusOperation h).
  { intros h Hwf [-> _]. wp_unfold. split_and!.
    - apply wf_nexus_sublist; [done|]. rewrite Hl. set_solver.
    - by apply extends_same.
    - apply (wf_nexus h0 Hwf). rewrite Hl. by left. }
  intros _. cbv zeta. apply hoare_deref_typed. intros m Hkm Ht.
  destruct (typed_nexus m Hkm Ht) as (seq & ev & a & c & md & ->).
  eapply hoare_bind_here.
  { apply hoare_update; intros m'; unfold nexusOperation_setScheduledEventID, kind_ok, live,
      nexus_cancelation; destruct (m_kind m') eqn:Hk'; simpl; rewrite ?Hk'; done. }
  intros []. simpl. eapply hoare_bind with (Q := λ _ _, True); [apply _| |].
  - apply hoare_True, (hoare_frame (λ _, True)). done.
  - intros []. apply (hoare_method handleInitiatedEvent); [eauto with hoare|tauto].
Qed.

Lemma safe_scheduleNexusOperation seq a md g : safe_op (scheduleNexusOperation seq a md g).
Proof.
  unfold scheduleNexusOperation. eapply hoare_create; [apply _| |eauto 2 with hoare].
  unfold newNexusOperationStateMachine.
  eapply hoare_bind_here; [by apply hoare_new|]. intros sm.
  intros h Hwf [Hl Ht]. unfold new_element. wp_unfold. split_and!; [|by apply extends_same|done|done].
  destruct (wf_set_next_elem h (S (next_elem h)) Hwf ltac:(lia))
    as [Hrefs Helems Hnd Hidx Hlive Hkind Hnex Hcanc].
  split; simpl in *; auto.
  intros e [Hin|Heq%list_elem_of_singleton]%elem_of_app; [by apply Hnex|]. by rewrite Heq.
Qed.

Lemma hoare_getNexusSeq i : safe_op (getNexusSeq i).
Proof.
  unfold getNexusSeq. apply hoare_get_bind. intros h0.
  destruct (_ !! i); by (apply hoare_ret || apply hoare_panic).
Qed.

Lemma safe_handleNexusOperationStarted i : safe_op (handleNexusOperationStarted i).
Proof.
  unfold handleNexusOperationStarted. eapply hoare_bind_here; [apply hoare_getNexusSeq|].
  intros seq. call.
Qed.

Lemma safe_handleNexusOperationCompleted i : safe_op (handleNexusOperationCompleted i).
Proof.
  unfold handleNexusOperationCompleted. eapply hoare_bind_here; [apply hoare_getNexusSeq|].
  intros seq. apply hoare_modify_bind; [done|]. call.
Qed.

(** The cancelation handlers dereference [cancelation]: safe when the machine
    has one. *)
Lemma hoare_getCancelation {E} d id :
  commandID_commandType id = commandTypeNexusOperation →
  E (runtimeError "invalid memory address or nil pointer dereference") →
  hoare E (points d id) (getCancelation d) (λ c h, valid c h).
Proof.
  intros Ht HE h Hwf (m & Hm & Hid). unfold getCancelation, deref. wp_unfold.
  rewrite Hm. wp_unfold. subst id.
  destruct (typed_nexus m (wf_kind h Hwf d m Hm) Ht) as (seq & ev & a & c & md & Hk).
  rewrite Hk.
  destruct c as [c|]; wp_unfold; split_and!; auto; try reflexivity.
  eapply typed_valid, (wf_cancelation h Hwf d m c Hm). unfold nexus_cancelation. by rewrite Hk.
Qed.

Lemma keeps_nexusCancelation (E : panicValue → Prop) f i :
  safe_method f → (∀ p, not_runtime p → E p) →
  E (runtimeError "invalid memory address or nil pointer dereference") →
  hoare E (λ _, True)
    (seq ← getNexusSeq i; command ← getNexusOperationCommand seq;
     cancelation ← getCancelation command; _ ← f cancelation; mret command) (λ _ _, True).
Proof.
  intros Hf HE Hnil.
  eapply hoare_bind_here; [eapply hoare_weaken_panic; [apply hoare_getNexusSeq|done]|].
  intros seq.
  eapply hoare_bind_here; [eapply hoare_weaken_panic; [apply hoare_getCommand|done]|].
  intros d. eapply hoare_bind_here; [by apply hoare_getCancelation|]. intros c.
  eapply hoare_bind_here; [eapply hoare_weaken_panic; [apply Hf|done]|].
  intros ?. by apply hoare_ret.
Qed.

Lemma safe_requestCancelNexusOperation seq : safe_op (requestCancelNexusOperation seq).
Proof.
  unfold requestCancelNexusOperation. apply hoare_lookup_call; [eauto with hoare|].
  intros d. apply hoare_getState_bind; [intros h [? _]; eauto using points_valid|].
  intros s. destruct (decide _); [eauto with hoare|].
  eapply hoare_bind_here with (Q := λ _ _, True); [|intros ?; eauto with hoare].
  intros h Hwf _. wp_unfold. split_and!; [|by apply extends_same|done].
  apply wf_nexus_sublist; [done|]. generalize (machines h). intros ms.
  induction (nexusOperationsWithoutScheduledID h) as [|e l IH]; [done|]. simpl.
  repeat case_match; set_solver.
Qed.

(** ** Markers *)

Lemma safe_recordVersionMarker c v dc b g : safe_op (recordVersionMarker c v dc b g).
Proof.
  unfold recordVersionMarker. cbv zeta.
  eapply hoare_bind_here; [apply hoare_must|]. intros p1.
  eapply hoare_bind_here; [apply hoare_must|]. intros p2.
  eapply hoare_bind_here with (Q := λ _ _, True).
  { destruct b; [by apply hoare_ret|].
    eapply hoare_bind_here; [apply hoare_must|]. intros p3. by apply hoare_ret. }
  intros details. create.
Qed.

Lemma safe_handleVersionMarker i c b : safe_op (handleVersionMarker i c b).
Proof.
  unfold handleVersionMarker. apply hoare_get_bind. intros h0. apply hoare_True.
  destruct (_ !! i); [by apply hoare_panic|]. apply (hoare_frame (λ _, True)). done.
Qed.

Lemma safe_recordSideEffectMarker i p dc md g : safe_op (recordSideEffectMarker i p dc md g).
Proof.
  unfold recordSideEffectMarker. cbv zeta.
  eapply hoare_bind_here; [apply hoare_must|]. intros ?. create.
Qed.

Lemma safe_recordLocalActivityMarker a det f md g :
  safe_op (recordLocalActivityMarker a det f md g).
Proof.
  unfold recordLocalActivityMarker. cbv zeta.
  eapply hoare_bind_here; [by apply hoare_new|]. intros d.
  eapply hoare_bind_here with (Q := λ _ h, live_at d h).
  - eapply hoare_conseq; [apply (hoare_getNextID (λ ms, ∃ m, ms !! d = Some m ∧ live m))|..].
    + intros h [? _]. done.
    + done.
  - intros ?. eapply hoare_bind_here; [apply hoare_addCommand|]. intros ?. by apply hoare_ret.
Qed.

Lemma safe_recordMutableSideEffectMarker i n p dc md g :
  safe_op (recordMutableSideEffectMarker i n p dc md g).
Proof.
  unfold recordMutableSideEffectMarker.
  eapply hoare_bind_here; [apply (hoare_getNextID (λ _, True))|]. intros ?. cbv zeta.
  eapply hoare_bind_here; [apply hoare_must|]. intros ?.
  eapply hoare_bind_here; [apply hoare_must|]. intros ?. create.
Qed.

(** ** Child and external workflows *)

Lemma safe_startChildWorkflowExecution a md g : safe_op (startChildWorkflowExecution a md g).
Proof.
  unfold startChildWorkflowExecution.
  eapply hoare_bind_here; [by apply hoare_new|]. intros d.
  eapply hoare_bind_here.
  { eapply hoare_conseq; [by apply (hoare_update_live d d)| |intros ??; exact id].
    intros h [? _]. eauto using live_at_valid. }
  intros []. eapply hoare_bind_here with (Q := λ _, live_at d).
  { unfold getID. apply hoare_deref_bind; [apply live_at_valid|]. intros m.
    apply hoare_ret. tauto. }
  intros cid. apply hoare_get_bind. intros h0. destruct (commands h0 !! cid).
  - by apply hoare_ret.
  - eapply hoare_conseq; [|by intros h [_ Hl]; exact Hl|intros ??; exact id].
    eapply hoare_bind_here; [apply hoare_addCommand|]. intros ?. by apply hoare_ret.
Qed.

Lemma safe_handleStartChildInitiated w :
  safe_op (handleStartChildWorkflowExecutionInitiated w).
Proof. apply hoare_lookup_last. eauto with hoare. Qed.

Lemma safe_handleStartChildFailed w : safe_op (handleStartChildWorkflowExecutionFailed w).
Proof. unfold handleStartChildWorkflowExecutionFailed. call. Qed.

Lemma safe_requestCancelExternal n w r c b g :
  safe_op (requestCancelExternalWorkflowExecution n w r c b g).
Proof.
  unfold requestCancelExternalWorkflowExecution. destruct b.
  - repeat (destruct (decide _); [by apply hoare_panic|]). call.
  - destruct (decide _); [by apply hoare_panic|]. cbv zeta. create.
Qed.

Lemma safe_handleRequestCancelExternalInitiated i w c :
  safe_op (handleRequestCancelExternalWorkflowExecutionInitiated i w c).
Proof.
  unfold handleRequestCancelExternalWorkflowExecutionInitiated. destruct (isCancelExternalWorkflowEventForChildWorkflow _).
  - apply hoare_lookup_last. eauto with hoare.
  - apply hoare_modify_bind; [done|]. apply hoare_lookup_last. eauto with hoare.
Qed.

Lemma safe_handleExternalCancelRequested i w :
  safe_op (handleExternalWorkflowExecutionCancelRequested i w).
Proof.
  unfold handleExternalWorkflowExecutionCancelRequested. apply hoare_get_bind. intros h0.
  apply hoare_True. destruct (_ !! i); [call|].
  eapply hoare_bind_here; [apply hoare_getCommand|]. intros d.
  eapply hoare_conseq; [|intros h Hp; exact (points_typed _ _ _ Hp)|intros ??; exact id].
  apply hoare_deref_typed. intros m Hk Ht.
  destruct (typed_child m Hk Ht) as (a & md & ->).
  eapply hoare_bind_here; [apply safe_childWorkflow_cancelRequested|]. intros ?.
  by apply hoare_ret.
Qed.

Lemma safe_handleRequestCancelExternalFailed i w :
  safe_op (handleRequestCancelExternalWorkflowExecutionFailed i w).
Proof.
  unfold handleRequestCancelExternalWorkflowExecutionFailed. apply hoare_get_bind. intros h0.
  apply hoare_True. destruct (_ !! i); call.
Qed.

Lemma safe_signalExternal n w r s p hd i b g :
  safe_op (signalExternalWorkflowExecution n w r s p hd i b g).
Proof. unfold signalExternalWorkflowExecution. cbv zeta. create. Qed.

Lemma safe_addProtocolMessage i : safe_op (addProtocolMessage i).
Proof.
  unfold addProtocolMessage. cbv zeta.
  eapply hoare_create_plain; [apply _|apply hoare_new; [by right|done]|]. eauto with hoare.
Qed.

Lemma safe_upsertSearchAttributes i a g : safe_op (upsertSearchAttributes i a g).
Proof.
  unfold upsertSearchAttributes.
  eapply hoare_create_plain; [apply _|apply hoare_new; [by left|done]|]. eauto with hoare.
Qed.

Lemma safe_modifyProperties i a g : safe_op (modifyProperties i a g).
Proof. unfold modifyProperties. create. Qed.

Lemma safe_handleSignalInitiated i s :
  safe_op (handleSignalExternalWorkflowExecutionInitiated i s).
Proof. apply hoare_modify_bind; [done|]. apply hoare_lookup_last. eauto with hoare. Qed.

Lemma hoare_getSignalID i : safe_op (getSignalID i).
Proof.
  unfold getSignalID. apply hoare_get_bind. intros h0.
  destruct (_ !! i); by (apply hoare_ret || apply hoare_panic).
Qed.

Lemma safe_handleSignalCompleted i :
  safe_op (handleSignalExternalWorkflowExecutionCompleted i).
Proof. eapply hoare_bind_here; [apply hoare_getSignalID|]. intros ?. call. Qed.

Lemma safe_handleSignalFailed i : safe_op (handleSignalExternalWorkflowExecutionFailed i).
Proof. eapply hoare_bind_here; [apply hoare_getSignalID|]. intros ?. call. Qed.

(** ** Timers and child workflow events *)

Lemma safe_startTimer a s dc g : safe_op (startTimer a s dc g).
Proof.
  unfold startTimer. eapply hoare_bind_here; [apply hoare_must|]. intros ?. create_marked.
Qed.

Lemma safe_cancelTimer t : safe_op (cancelTimer t).
Proof. unfold cancelTimer. call. Qed.

Lemma safe_handleTimerClosed t : safe_op (handleTimerClosed t).
Proof.
  unfold handleTimerClosed.
  eapply hoare_bind_here; [apply hoare_getCommand|]. intros d. cbv zeta.
  eapply hoare_bind with (Q := λ _ _, True);
    [apply _|by apply hoare_True, hoare_removeCancelOfResolvedCommand|]. intros ?.
  eapply hoare_bind_here.
  - apply (hoare_method handleCompletionEvent); [eauto with hoare|].
    intros h [? _]. eauto using points_valid.
  - intros ?. by apply hoare_ret.
Qed.

Lemma safe_handleTimerStarted t : safe_op (handleTimerStarted t).
Proof. apply hoare_lookup_last. eauto with hoare. Qed.
Lemma safe_handleTimerCanceled t : safe_op (handleTimerCanceled t).
Proof. apply hoare_lookup_last. eauto with hoare. Qed.
Lemma safe_handleChildStarted w : safe_op (handleChildWorkflowExecutionStarted w).
Proof. unfold handleChildWorkflowExecutionStarted. call. Qed.
Lemma safe_handleChildClosed w : safe_op (handleChildWorkflowExecutionClosed w).
Proof. unfold handleChildWorkflowExecutionClosed. call. Qed.
Lemma safe_handleChildCanceled w : safe_op (handleChildWorkflowExecutionCanceled w).
Proof. unfold handleChildWorkflowExecutionCanceled. call. Qed.

Lemma safe_setCurrentWorkflowTaskStartedEventID i :
  safe_op (setCurrentWorkflowTaskStartedEventID i).
Proof. apply (hoare_frame (λ _, True)). done. Qed.

(** The triples of the operations, one per operation. *)
Create HintDb safe_op discriminated.
#[export] Hint Constants Opaque : safe_op.
#[export] Hint Resolve hoare_getCommands : safe_op.
#[export] Hint Resolve safe_scheduleActivityTask safe_requestCancelActivityTask : safe_op.
#[export] Hint Resolve safe_handleActivityTaskClosed safe_handleActivityTaskScheduled : safe_op.
#[export] Hint Resolve safe_handleActivityTaskCancelRequested : safe_op.
#[export] Hint Resolve safe_handleActivityTaskCanceled : safe_op.
#[export] Hint Resolve safe_getActivityAndScheduledEventIDs : safe_op.
#[export] Hint Resolve safe_handleNexusOperationScheduled safe_scheduleNexusOperation : safe_op.
#[export] Hint Resolve safe_handleNexusOperationStarted : safe_op.
#[export] Hint Resolve safe_handleNexusOperationCompleted : safe_op.
#[export] Hint Resolve safe_requestCancelNexusOperation safe_recordVersionMarker : safe_op.
#[export] Hint Resolve safe_handleVersionMarker safe_recordSideEffectMarker : safe_op.
#[export] Hint Resolve safe_recordLocalActivityMarker safe_recordMutableSideEffectMarker : safe_op.
#[export] Hint Resolve safe_startChildWorkflowExecution safe_handleStartChildInitiated : safe_op.
#[export] Hint Resolve safe_handleStartChildFailed safe_requestCancelExternal : safe_op.
#[export] Hint Resolve safe_handleRequestCancelExternalInitiated : safe_op.
#[export] Hint Resolve safe_handleExternalCancelRequested : safe_op.
#[export] Hint Resolve safe_handleRequestCancelExternalFailed safe_signalExternal : safe_op.
#[export] Hint Resolve safe_addProtocolMessage safe_upsertSearchAttributes : safe_op.
#[export] Hint Resolve safe_modifyProperties safe_handleSignalInitiated : safe_op.
#[export] Hint Resolve safe_handleSignalCompleted safe_handleSignalFailed : safe_op.
#[export] Hint Resolve safe_startTimer safe_cancelTimer safe_handleTimerClosed : safe_op.
#[export] Hint Resolve safe_handleTimerStarted safe_handleTimerCanceled : safe_op.
#[export] Hint Resolve safe_handleChildStarted safe_handleChildClosed : safe_op.
#[export] Hint Resolve safe_handleChildCanceled : safe_op.
#[export] Hint Resolve safe_setCurrentWorkflowTaskStartedEventID : safe_op.

Lemma safe_getNextID : safe_op getNextID.
Proof. eapply hoare_conseq; [apply (hoare_getNextID (λ _, True))|done|done]. Qed.
#[export] Hint Resolve safe_getNextID : safe_op.

(** ** The operations as one type, and the states they reach *)

Inductive operation : Type :=
| OpSetCurrentWorkflowTaskStartedEventID (id : Z)
| OpGetNextID
| OpGetCommands (markAsSent : bool)
| OpScheduleActivityTask (scheduleID : Z) (a : ScheduleActivityTaskCommandAttributes)
    (md : option UserMetadata) (g : list EventGroupMarker)
| OpRequestCancelActivityTask (activityID : string)
| OpHandleActivityTaskClosed (activityID : string) (scheduledEventID : Z)
| OpHandleActivityTaskScheduled (activityID : string) (scheduledEventID : Z)
| OpHandleActivityTaskCancelRequested (scheduledEventID : Z)
| OpHandleActivityTaskCanceled (activityID : string) (scheduledEventID : Z)
| OpGetActivityAndScheduledEventIDs (event : HistoryEvent)
| OpScheduleNexusOperation (seq : Z) (a : ScheduleNexusOperationCommandAttributes)
    (md : option UserMetadata) (g : list EventGroupMarker)
| OpHandleNexusOperationScheduled (event : HistoryEvent)
| OpHandleNexusOperationStarted (scheduledEventID : Z)
| OpHandleNexusOperationCompleted (scheduledEventID : Z)
| OpHandleNexusOperationCancelRequested (scheduledEventID : Z)
| OpHandleNexusOperationCancelRequestDelivered (scheduledEventID : Z)
| OpRequestCancelNexusOperation (seq : Z)
| OpRecordVersionMarker (changeID : string) (version : Z) (dc : DataConverter)
    (updated : bool) (g : list EventGroupMarker)
| OpHandleVersionMarker (eventID : Z) (changeID : string) (updated : bool)
| OpRecordSideEffectMarker (id : Z) (data : option Payloads) (dc : DataConverter)
    (md : option UserMetadata) (g : list EventGroupMarker)
| OpRecordLocalActivityMarker (activityID : string) (details : gmap string (option Payloads))
    (failure : option Failure) (md : option UserMetadata) (g : list EventGroupMarker)
| OpRecordMutableSideEffectMarker (id : string) (hint : Z) (data : option Payloads)
    (dc : DataConverter) (md : option UserMetadata) (g : list EventGroupMarker)
| OpStartChildWorkflowExecution (a : StartChildWorkflowExecutionCommandAttributes)
    (md : option UserMetadata) (g : list EventGroupMarker)
| OpHandleStartChildWorkflowExecutionInitiated (workflowID : string)
| OpHandleStartChildWorkflowExecutionFailed (workflowID : string)
| OpRequestCancelExternalWorkflowExecution (namespace workflowID runID cancellationID : string)
    (childWorkflowOnly : bool) (g : list EventGroupMarker)
| OpHandleRequestCancelExternalInitiated (id : Z) (workflowID cancellationID : string)
| OpHandleExternalCancelRequested (id : Z) (workflowID : string)
| OpHandleRequestCancelExternalFailed (id : Z) (workflowID : string)
| OpSignalExternalWorkflowExecution (namespace workflowID runID signalName : string)
    (input : option Payloads) (header : gmap string Payload) (signalID : string)
    (childWorkflowOnly : bool) (g : list EventGroupMarker)
| OpAddProtocolMessage (msgID : string)
| OpUpsertSearchAttributes (id : string) (a : option IndexedFields) (g : list EventGroupMarker)
| OpModifyProperties (id : string) (memo : option (gmap string Payload))
    (g : list EventGroupMarker)
| OpHandleSignalInitiated (id : Z) (signalID : string)
| OpHandleSignalCompleted (id : Z)
| OpHandleSignalFailed (id : Z)
| OpStartTimer (a : StartTimerCommandAttributes) (summary : string) (dc : DataConverter)
    (g : list EventGroupMarker)
| OpCancelTimer (timerID : string)
| OpHandleTimerClosed (timerID : string)
| OpHandleTimerStarted (timerID : string)
| OpHandleTimerCanceled (timerID : string)
| OpHandleChildWorkflowExecutionStarted (workflowID : string)
| OpHandleChildWorkflowExecutionClosed (workflowID : string)
| OpHandleChildWorkflowExecutionCanceled (workflowID : string).

Section Reachability.
  (** Text of panic messages, see [CommandsHelper]. *)
  Variable HistoryEventToString : HistoryEvent → string.
  Variable EventType_String : EventType → string.

Definition discard {A} (m : M A) : M unit := _ ← m; mret tt.

Definition run_op (op : operation) : M unit :=
  match op with
  | OpSetCurrentWorkflowTaskStartedEventID i => setCurrentWorkflowTaskStartedEventID i
  | OpGetNextID => discard getNextID
  | OpGetCommands b => discard (getCommands b)
  | OpScheduleActivityTask i a md g => discard (scheduleActivityTask i a md g)
  | OpRequestCancelActivityTask a => discard (requestCancelActivityTask a)
  | OpHandleActivityTaskClosed a i => discard (handleActivityTaskClosed a i)
  | OpHandleActivityTaskScheduled a i => handleActivityTaskScheduled a i
  | OpHandleActivityTaskCancelRequested i => handleActivityTaskCancelRequested i
  | OpHandleActivityTaskCanceled a i => discard (handleActivityTaskCanceled a i)
  | OpGetActivityAndScheduledEventIDs e =>
      discard (getActivityAndScheduledEventIDs HistoryEventToString EventType_String e)
  | OpScheduleNexusOperation s a md g => discard (scheduleNexusOperation s a md g)
  | OpHandleNexusOperationScheduled e => handleNexusOperationScheduled HistoryEventToString e
  | OpHandleNexusOperationStarted i => discard (handleNexusOperationStarted i)
  | OpHandleNexusOperationCompleted i => discard (handleNexusOperationCompleted i)
  | OpHandleNexusOperationCancelRequested i =>
      discard (handleNexusOperationCancelRequested i)
  | OpHandleNexusOperationCancelRequestDelivered i =>
      discard (handleNexusOperationCancelRequestDelivered i)
  | OpRequestCancelNexusOperation s => discard (requestCancelNexusOperation s)
  | OpRecordVersionMarker c v dc b g => discard (recordVersionMarker c v dc b g)
  | OpHandleVersionMarker i c b => handleVersionMarker i c b
  | OpRecordSideEffectMarker i p dc md g => discard (recordSideEffectMarker i p dc md g)
  | OpRecordLocalActivityMarker a d f md g => discard (recordLocalActivityMarker a d f md g)
  | OpRecordMutableSideEffectMarker i n p dc md g =>
      discard (recordMutableSideEffectMarker i n p dc md g)
  | OpStartChildWorkflowExecution a md g => discard (startChildWorkflowExecution a md g)
  | OpHandleStartChildWorkflowExecutionInitiated w =>
      handleStartChildWorkflowExecutionInitiated w
  | OpHandleStartChildWorkflowExecutionFailed w =>
      discard (handleStartChildWorkflowExecutionFailed w)
  | OpRequestCancelExternalWorkflowExecution n w r c b g =>
      discard (requestCancelExternalWorkflowExecution n w r c b g)
  | OpHandleRequestCancelExternalInitiated i w c =>
      handleRequestCancelExternalWorkflowExecutionInitiated i w c
  | OpHandleExternalCancelRequested i w =>
      discard (handleExternalWorkflowExecutionCancelRequested i w)
  | OpHandleRequestCancelExternalFailed i w =>
      discard (handleRequestCancelExternalWorkflowExecutionFailed i w)
  | OpSignalExternalWorkflowExecution n w r s p hd i b g =>
      discard (signalExternalWorkflowExecution n w r s p hd i b g)
  | OpAddProtocolMessage i => discard (addProtocolMessage i)
  | OpUpsertSearchAttributes i a g => discard (upsertSearchAttributes i a g)
  | OpModifyProperties i a g => discard (modifyProperties i a g)
  | OpHandleSignalInitiated i s => handleSignalExternalWorkflowExecutionInitiated i s
  | OpHandleSignalCompleted i => discard (handleSignalExternalWorkflowExecutionCompleted i)
  | OpHandleSignalFailed i => discard (handleSignalExternalWorkflowExecutionFailed i)
  | OpStartTimer a s dc g => discard (startTimer a s dc g)
  | OpCancelTimer t => discard (cancelTimer t)
  | OpHandleTimerClosed t => discard (handleTimerClosed t)
  | OpHandleTimerStarted t => handleTimerStarted t
  | OpHandleTimerCanceled t => handleTimerCanceled t
  | OpHandleChildWorkflowExecutionStarted w => discard (handleChildWorkflowExecutionStarted w)
  | OpHandleChildWorkflowExecutionClosed w => discard (handleChildWorkflowExecutionClosed w)
  | OpHandleChildWorkflowExecutionCanceled w =>
      discard (handleChildWorkflowExecutionCanceled w)
  end.

(** Operations that dereference the [cancelation] of a Nexus machine. *)
Definition uses_cancelation (op : operation) : bool :=
  match op with
  | OpHandleNexusOperationCancelRequested _
  | OpHandleNexusOperationCancelRequestDelivered _ => true
  | _ => false
  end.

(** The states of a helper after any sequence of operations, panics included. *)
Inductive reachable : commandsHelper → Prop :=
| reachable_new : reachable newCommandsHelper
| reachable_step h op : reachable h → reachable (final (run_op op) h).

Fixpoint run_ops (ops : list operation) (h : commandsHelper) : commandsHelper :=
  match ops with
  | [] => h
  | op :: ops' => run_ops ops' (final (run_op op) h)
  end.

Lemma reachable_run_ops ops h : reachable h → reachable (run_ops ops h).
Proof. revert h. induction ops; simpl; auto using reachable. Qed.

Lemma newCommandsHelper_wf : helper_wf newCommandsHelper.
Proof.
  split; simpl; try (intros *; rewrite ?lookup_empty; set_solver).
  - apply NoDup_nil_2.
Qed.

Lemma hoare_discard {A} E (m : M A) Q :
  hoare E (λ _, True) m Q → hoare E (λ _, True) (discard m) (λ _ _, True).
Proof. intros Hm. eapply hoare_bind_here; [exact Hm|]. intros ?. by apply hoare_ret. Qed.

Lemma run_op_hoare op :
  hoare (if uses_cancelation op then any_panic else not_runtime) (λ _, True) (run_op op)
    (λ _ _, True).
Proof.
  destruct op; cbn [uses_cancelation run_op]; try (eapply hoare_discard); eauto 1 with safe_op;
    apply keeps_nexusCancelation; done || eauto with hoare.
Qed.

Lemma reachable_wf h : reachable h → helper_wf h.
Proof.
  induction 1 as [|h op _ IH]; [apply newCommandsHelper_wf|].
  by destruct (hoare_final _ _ _ _ h (run_op_hoare op) IH).
Qed.
End Reachability.
