(* ===== verification/CommandEventIDs.v ===== *)
(** * Prediction of event identifiers.

    The helper numbers the commands of the current workflow task ahead of the
    server: [nextCommandEventID] must be the identifier of the history event
    the next command will produce.  This file gives the exact result of
    creating a command and shows that the counter stays two past the started
    event plus the number of commands waiting to be sent. *)

From stdpp Require Import base list gmap strings.
From S2P Require Import Prelude Proto CommandMachine CommandsHelper CommandInvariant CommandSend CommandReachable.
Open Scope Z_scope.

(** ** The version-marker loop *)

(** The identifiers the loop visits, as a relation. *)
Inductive skips : Z → gmap Z versionMarker → Z → gmap Z versionMarker → Prop :=
| skips_stop n l : l !! n = None → skips n l n l
| skips_marker n l v n' l' :
    l !! n = Some v →
    skips (wrap64 (n + (if vm_searchAttrUpdated v then 2 else 1))) (delete n l) n' l' →
    skips n l n' l'.

Lemma skips_end n l n' l' : skips n l n' l' → l' !! n' = None.
Proof. induction 1; auto. Qed.

Lemma skips_det n l n1 l1 n2 l2 :
  skips n l n1 l1 → skips n l n2 l2 → n1 = n2 ∧ l1 = l2.
Proof.
  intros H. revert n2 l2. induction H; inversion 1; simplify_eq; auto.
Qed.

Lemma versionMarkerLoop_skips fuel n l :
  (size l ≤ fuel)%nat →
  skips n l (versionMarkerLoop fuel n l).1 (versionMarkerLoop fuel n l).2.
Proof.
  revert n l. induction fuel as [|fuel IH]; intros n l Hsz; simpl.
  - constructor. assert (l = ∅) as -> by (apply map_size_empty_iff; lia). done.
  - destruct (l !! n) as [v|] eqn:Hv; [|by constructor].
    eapply skips_marker; [exact Hv|].
    replace (wrap64 (n + (if vm_searchAttrUpdated v then 2 else 1))) with
      (if vm_searchAttrUpdated v then wrap64 (wrap64 (n + 1) + 1) else wrap64 (n + 1)).
    + apply IH. rewrite map_size_delete, Hv. simpl. lia.
    + destruct (vm_searchAttrUpdated v); [|done]. rewrite wrap64_add_l. f_equal. lia.
Qed.

Lemma versionMarkerLoop_empty fuel n : versionMarkerLoop fuel n ∅ = (n, ∅).
Proof. by destruct fuel. Qed.

(** ** The exact result of creating a command *)

Definition bump (h : commandsHelper) : commandsHelper :=
  let r := versionMarkerLoop (size (versionMarkerLookup h)) (nextCommandEventID h)
             (versionMarkerLookup h) in
  set_nextCommandEventID (wrap64 (r.1 + 1)) (set_versionMarkerLookup r.2 h).

(** The machine [m], already allocated at [d], joins the index. *)
Definition with_command (d : ref) (id : commandID) (h : commandsHelper) : commandsHelper :=
  let e := mkElement (next_elem h) d in
  bump (set_index (orderedCommands h ++ [e]) (<[id := e]> (commands h))
          (set_next_elem (S (next_elem h)) h)).

Lemma addCommand_spec d m h :
  machines h !! d = Some m → commands h !! m_id m = None →
  addCommand d h = (Returned tt, with_command d (m_id m) h).
Proof.
  intros Hm Hc. unfold addCommand, deref, mbind, go_bind, get; simpl. rewrite Hm; simpl.
  by rewrite Hc.
Qed.

Lemma addCommand_duplicate d m e h :
  machines h !! d = Some m → commands h !! m_id m = Some e →
  addCommand d h =
    (Panicked (illegalState ("[TMPRL1100] adding duplicate command " +:+ base_String m)), h).
Proof.
  intros Hm Hc. unfold addCommand, deref, mbind, go_bind, get; simpl. rewrite Hm; simpl.
  by rewrite Hc.
Qed.

(** A fresh machine [m] at the next reference. *)
Definition with_machine (m : machine) (h : commandsHelper) : commandsHelper :=
  set_machines (<[next_ref h := m]> (machines h)) (S (next_ref h)) h.

Lemma alloc_spec m h : alloc m h = (Returned (next_ref h), with_machine m h).
Proof. done. Qed.

Lemma update_fresh_spec m f h :
  update (next_ref h) f (with_machine m h) = (Returned tt, with_machine (f m) h).
Proof.
  unfold update, deref, mbind, go_bind, get, modify; simpl.
  rewrite lookup_insert_eq; simpl. unfold with_machine, set_machines; simpl.
  by rewrite insert_insert_eq.
Qed.

(** [m] is created under [m_id m], which must be free. *)
Definition created (m : machine) (h : commandsHelper) : commandsHelper :=
  with_command (next_ref h) (m_id m) (with_machine m h).

Lemma addCommand_fresh_spec m h :
  commands h !! m_id m = None →
  addCommand (next_ref h) (with_machine m h) = (Returned tt, created m h).
Proof. intros Hc. apply addCommand_spec; [|done]. simpl. apply lookup_insert_eq. Qed.

(** ** Pending commands *)

Lemma pending_of_ext h h' l :
  (∀ e, e ∈ l → machines h' !! elem_value e = machines h !! elem_value e) →
  pending_of h' l = pending_of h l.
Proof. intros He. apply omap_ext_in. intros e Hin. by rewrite He. Qed.

Lemma pending_of_app h l1 l2 : pending_of h (l1 ++ l2) = pending_of h l1 ++ pending_of h l2.
Proof.
  unfold pending_of. induction l1 as [|e l1 IH]; [done|]. csimpl. rewrite IH.
  by destruct (_ ≫= _).
Qed.

(** The next reference is not in use. *)
Definition fresh (h : commandsHelper) : Prop :=
  ∀ e, e ∈ orderedCommands h → elem_value e ≠ next_ref h.

Lemma wf_fresh h : helper_wf h → fresh h.
Proof.
  intros Hwf e He Heq. destruct (wf_element h Hwf e He) as (m & Hm & _).
  apply (wf_refs h Hwf) in Hm. lia.
Qed.

Lemma pending_with_machine m h :
  fresh h → pending_commands (with_machine m h) = pending_commands h.
Proof.
  intros Hwf. apply pending_of_ext. intros e He. simpl.
  apply lookup_insert_ne, not_eq_sym; auto.
Qed.

Lemma pending_created m h :
  fresh h →
  pending_commands (created m h) = pending_commands h ++ option_list (machine_getCommand m).
Proof.
  intros Hwf. unfold pending_commands, created, with_command, bump; simpl.
  rewrite pending_of_app. f_equal.
  - apply pending_with_machine; done.
  - unfold pending_of; simpl. rewrite lookup_insert_eq; simpl.
    by destruct (machine_getCommand m).
Qed.

(** ** The counter *)

(** With no version marker ahead, the counter is the identifier of the event
    the next command produces: the started event, the completed event, then
    one event per pending command. *)
Definition counted (started : Z) (h : commandsHelper) : Prop :=
  versionMarkerLookup h = ∅ ∧
  nextCommandEventID h = wrap64 (started + 2 + Z.of_nat (length (pending_commands h))).

Definition counts {A} (m : M A) : Prop :=
  ∀ s h, helper_wf h → counted s h → counted s (final m h).

Lemma counted_created s m h :
  fresh h → machine_getCommand m ≠ None → counted s h → counted s (created m h).
Proof.
  intros Hwf Hc [Hv Hn]. unfold counted. rewrite pending_created by done.
  unfold created, with_command, bump; simpl. rewrite Hv, versionMarkerLoop_empty; simpl.
  split; [done|]. rewrite Hn, wrap64_add_l, length_app. f_equal.
  destruct (machine_getCommand m); [simpl; lia|done].
Qed.

Lemma counted_with_machine s m h :
  fresh h → counted s h → counted s (with_machine m h).
Proof. intros Hwf [Hv Hn]. split; [done|]. rewrite pending_with_machine by done. exact Hn. Qed.

(** The steps every operation that creates a command goes through. *)
Lemma run_create {B} m f (k : ref → M B) h :
  commands h !! m_id (f m) = None →
  (d ← alloc m; _ ← update d f; _ ← addCommand d; k d) h = k (next_ref h) (created (f m) h).
Proof.
  intros Hc. unfold mbind, go_bind. by rewrite alloc_spec, update_fresh_spec,
    addCommand_fresh_spec.
Qed.

Lemma run_create_duplicate {B} m f (k : ref → M B) h e :
  commands h !! m_id (f m) = Some e →
  (d ← alloc m; _ ← update d f; _ ← addCommand d; k d) h =
  (Panicked (illegalState ("[TMPRL1100] adding duplicate command " +:+ base_String (f m))),
   with_machine (f m) h).
Proof.
  intros Hc. unfold mbind, go_bind. rewrite alloc_spec, update_fresh_spec.
  rewrite (addCommand_duplicate _ (f m) e); [done| |done]. simpl. apply lookup_insert_eq.
Qed.

Lemma run_create_plain {B} m (k : ref → M B) h :
  (d ← alloc m; _ ← addCommand d; k d) h =
  (d ← alloc m; _ ← update d id; _ ← addCommand d; k d) h.
Proof. unfold mbind, go_bind. by rewrite alloc_spec, update_fresh_spec. Qed.

(** Only whether a machine offers a command matters for the counter. *)
Definition offers (m : machine) : bool := bool_decide (machine_getCommand m ≠ None).

Definition set_machine (d : ref) (m : machine) (h : commandsHelper) : commandsHelper :=
  set_machines (<[d := m]> (machines h)) (next_ref h) h.

Lemma length_pending_of h l :
  length (pending_of h l) =
  length (filter (λ e, Is_true (has_command h e)) l).
Proof.
  unfold pending_of. induction l as [|e l IH]; [done|]. csimpl. rewrite filter_cons.
  assert (has_command h e = bool_decide (machines h !! elem_value e ≫= machine_getCommand ≠ None))
    as -> by (unfold has_command; by destruct (machines h !! elem_value e)).
  by destruct (_ ≫= _); simpl; rewrite <- IH.
Qed.

Lemma has_command_set_machine d m m' h e :
  machines h !! d = Some m → offers m' = offers m →
  has_command (set_machine d m' h) e = has_command h e.
Proof.
  intros Hm Ho. unfold has_command; simpl.
  destruct (decide (d = elem_value e)) as [->|?].
  - rewrite lookup_insert_eq, Hm. exact Ho.
  - by rewrite lookup_insert_ne.
Qed.

Lemma counted_set_machine s d m m' h :
  machines h !! d = Some m → offers m' = offers m → counted s h →
  counted s (set_machine d m' h).
Proof.
  intros Hm Ho [Hv Hn]. split; [done|]. simpl. rewrite Hn. unfold pending_commands.
  rewrite !length_pending_of; simpl.
  rewrite (filter_bool_ext (has_command (set_machine d m' h)) (has_command h)); [done|].
  intros e _. by eapply has_command_set_machine.
Qed.

Lemma counts_create m f :
  machine_getCommand (f m) ≠ None →
  counts (d ← alloc m; _ ← update d f; _ ← addCommand d; mret d).
Proof.
  intros Hg s h Hwf Hc. unfold final. destruct (commands h !! m_id (f m)) as [e|] eqn:Hi.
  - rewrite (run_create_duplicate _ _ _ _ e) by done. by apply counted_with_machine; [apply wf_fresh|].
  - rewrite run_create by done. by apply counted_created; [apply wf_fresh|..].
Qed.

Lemma counts_create_plain m :
  machine_getCommand m ≠ None → counts (d ← alloc m; _ ← addCommand d; mret d).
Proof.
  intros Hg s h Hwf Hc. unfold final. rewrite run_create_plain. by apply (counts_create m id).
Qed.

Lemma counts_must {A B} (r : string + A) (k : A → M B) :
  (∀ a, counts (k a)) → counts (a ← must r; k a).
Proof. intros Hk. destruct r; [by intros ??|apply Hk]. Qed.

Lemma counted_getNextID s h :
  counted s h →
  getNextID h =
    (if decide (nextCommandEventID h = 0) then Panicked (panicString
       "Attempt to generate a command before processing WorkflowTaskStarted event")
     else Returned (nextCommandEventID h), h).
Proof.
  intros [Hv _]. unfold getNextID, incrementNextCommandEventIDIfVersionMarker.
  unfold mbind, go_bind, modify, get; simpl. rewrite Hv, versionMarkerLoop_empty; simpl.
  assert (set_versionMarkerLookup ∅ (set_nextCommandEventID (nextCommandEventID h) h) = h)
    as -> by (rewrite <- Hv; by destruct h).
  by destruct (decide _).
Qed.

Lemma counts_getNextID {B} (k : Z → M B) :
  (∀ i, counts (k i)) → counts (i ← getNextID; k i).
Proof.
  intros Hk s h Hwf Hc. unfold final, mbind, go_bind. rewrite (counted_getNextID s) by done.
  destruct (decide _); [done|]. by apply (Hk _ s h).
Qed.

(** Reading the index keeps the state. *)
Lemma counts_getCommand {B} id (k : ref → M B) s h :
  (∀ e m, commands h !! id = Some e → machines h !! elem_value e = Some m →
     m_id m = id → live m → counted s (final (k (elem_value e)) h)) →
  helper_wf h → counted s h → counted s (final (d ← getCommand id; k d) h).
Proof.
  intros Hk Hwf Hc. unfold final, mbind, go_bind, getCommand, get; simpl.
  unfold mbind, go_bind; simpl.
  destruct (commands h !! id) as [e|] eqn:He; [|done].
  apply (wf_index h Hwf) in He as Hp. destruct Hp as (Hin & m & Hm & Hid).
  destruct (wf_live h Hwf e Hin) as (m2 & Hm2 & Hl). rewrite Hm in Hm2. injection Hm2 as <-.
  by apply (Hk e m).
Qed.

Create HintDb counts discriminated.
#[export] Hint Constants Opaque : counts.

Lemma counts_scheduleActivityTask i a md g : counts (scheduleActivityTask i a md g).
Proof.
  intros s h Hwf Hc. refine (counts_create _ _ _ s _ _ _); [done| |done].
  by destruct Hwf; split.
Qed.

Lemma counts_scheduleNexusOperation i a md g : counts (scheduleNexusOperation i a md g).
Proof.
  intros s h Hwf Hc. unfold scheduleNexusOperation, newNexusOperationStateMachine,
    newCommandStateMachineBase.
  set (m0 := mkMachine _ _ _ _ _ _).
  set (h' := set_nexusOperationsWithoutScheduledID
    (nexusOperationsWithoutScheduledID h ++ [mkElement (next_elem h) (next_ref h)])
    (set_next_elem (S (next_elem h)) h)).
  change (counted s (final (_ ← update (next_ref h') (m_set_eventGroupMarkers g);
    _ ← addCommand (next_ref h'); mret (next_ref h')) (with_machine m0 h'))).
  pose proof (wf_fresh h Hwf : fresh h') as Hf.
  pose proof (counted_with_machine s (m_set_eventGroupMarkers g m0) h' Hf Hc) as Hd.
  pose proof (counted_created s (m_set_eventGroupMarkers g m0) h' Hf) as Hn.
  unfold final, mbind, go_bind. rewrite update_fresh_spec.
  destruct (commands h' !! m_id (m_set_eventGroupMarkers g m0)) as [e|] eqn:He.
  - rewrite (addCommand_duplicate _ (m_set_eventGroupMarkers g m0) e); [exact Hd| |done].
    simpl. apply lookup_insert_eq.
  - rewrite addCommand_fresh_spec by done. by apply Hn.
Qed.

Ltac counts_new := (apply counts_create || apply counts_create_plain); done.

Lemma counts_recordVersionMarker c v dc b g : counts (recordVersionMarker c v dc b g).
Proof.
  unfold recordVersionMarker. cbv zeta. apply counts_must. intros p1.
  apply counts_must. intros p2. destruct b; [counts_new|].
  intros s h Hwf Hc. destruct (ToPayloads dc [goBool false]) as [err|p3]; [done|].
  revert s h Hwf Hc. change (counts (command ← newMarkerCommandStateMachine
    (versionMarkerName +:+ "_" +:+ c)
    (mkRecordMarker versionMarkerName
       (<[versionSearchAttributeUpdatedName := p3]>
         (<[versionMarkerChangeIDName := p1]> {[versionMarkerDataName := p2]})) None)
    None g; _ ← addCommand command; mret command)). counts_new.
Qed.

Lemma counts_recordSideEffectMarker i p dc md g : counts (recordSideEffectMarker i p dc md g).
Proof. apply counts_must. intros. counts_new. Qed.

Lemma counts_recordMutableSideEffectMarker i n p dc md g :
  counts (recordMutableSideEffectMarker i n p dc md g).
Proof.
  apply counts_getNextID. intros. apply counts_must. intros. apply counts_must. intros. counts_new.
Qed.

Lemma getNextID_frame h :
  machines (final getNextID h) = machines h ∧ commands (final getNextID h) = commands h.
Proof.
  unfold getNextID, final, incrementNextCommandEventIDIfVersionMarker, mbind, go_bind,
    modify, get; simpl. by destruct (decide _).
Qed.

(** The marker is allocated before the counter is consulted. *)
Lemma counts_recordLocalActivityMarker i d f md g :
  counts (recordLocalActivityMarker i d f md g).
Proof.
  intros s h Hwf Hc. unfold recordLocalActivityMarker, newMarkerCommandStateMachine,
    newNaiveCommandStateMachine, newCommandStateMachineBase; cbv zeta.
  set (m := mkMachine _ _ _ _ _ _). unfold final, mbind, go_bind at 1. rewrite alloc_spec.
  pose proof (counted_with_machine s m h (wf_fresh h Hwf) Hc) as Hw.
  unfold go_bind at 1. rewrite (counted_getNextID s) by exact Hw.
  destruct (decide _); [exact Hw|]. unfold go_bind at 1.
  destruct (commands h !! m_id m) as [e|] eqn:He.
  - rewrite (addCommand_duplicate _ m e); [exact Hw| |exact He]. simpl. apply lookup_insert_eq.
  - rewrite addCommand_fresh_spec by done. by apply counted_created; [apply wf_fresh|..].
Qed.

(** The machine of a new child workflow. *)
Definition childMachine (a : StartChildWorkflowExecutionCommandAttributes)
    (md : option UserMetadata) (g : list EventGroupMarker) : machine :=
  mkMachine (makeCommandID commandTypeChildWorkflow (scw_WorkflowId a)) commandStateCreated
    [commandState_String commandStateCreated] None g (childWorkflowCommandStateMachine a md).

Lemma run_startChildWorkflowExecution a md g h :
  startChildWorkflowExecution a md g h =
  match commands h !! makeCommandID commandTypeChildWorkflow (scw_WorkflowId a) with
  | Some _ => (Returned (inl (mkChildWorkflowExistsWithId (scw_WorkflowId a))),
               with_machine (childMachine a md g) h)
  | None => (Returned (inr (next_ref h)), created (childMachine a md g) h)
  end.
Proof.
  unfold startChildWorkflowExecution, newChildWorkflowCommandStateMachine,
    newCommandStateMachineBase, mbind, go_bind at 1. rewrite alloc_spec.
  unfold go_bind at 1. rewrite update_fresh_spec.
  change (m_set_eventGroupMarkers g _) with (childMachine a md g). set (m := childMachine a md g).
  assert (Hg : getID (next_ref h) (with_machine m h) = (Returned (m_id m), with_machine m h)).
  { unfold getID, deref, mbind, go_bind, get; simpl. by rewrite lookup_insert_eq. }
  unfold go_bind at 1. rewrite Hg. unfold go_bind at 1; simpl.
  destruct (commands h !! _) eqn:He; [done|].
  unfold go_bind. by rewrite (addCommand_fresh_spec m h).
Qed.

Lemma counts_startChildWorkflowExecution a md g : counts (startChildWorkflowExecution a md g).
Proof.
  intros s h Hwf Hc. unfold final. rewrite run_startChildWorkflowExecution.
  destruct (commands h !! _).
  - apply counted_with_machine; [by apply wf_fresh|done].
  - apply counted_created; [by apply wf_fresh|done|done].
Qed.

Lemma counts_signalExternal n w r sn p hd i b g :
  counts (signalExternalWorkflowExecution n w r sn p hd i b g).
Proof. unfold signalExternalWorkflowExecution. counts_new. Qed.
Lemma counts_addProtocolMessage i : counts (addProtocolMessage i).
Proof. unfold addProtocolMessage. counts_new. Qed.
Lemma counts_upsertSearchAttributes i a g : counts (upsertSearchAttributes i a g).
Proof. unfold upsertSearchAttributes. counts_new. Qed.
Lemma counts_modifyProperties i a g : counts (modifyProperties i a g).
Proof. unfold modifyProperties. counts_new. Qed.
Lemma counts_startTimer a sm dc g : counts (startTimer a sm dc g).
Proof. apply counts_must. intros. counts_new. Qed.

(** ** Cancelling a command *)

Lemma run_deref d m h : machines h !! d = Some m → deref d h = (Returned m, h).
Proof. intros Hm. unfold deref, mbind, go_bind, get; simpl. by rewrite Hm. Qed.

Lemma run_getState d m h :
  machines h !! d = Some m → getState d h = (Returned (m_state m), h).
Proof.
  intros Hm. unfold getState, mbind, go_bind. by rewrite (run_deref d m).
Qed.

Lemma run_update d m f h :
  machines h !! d = Some m → update d f h = (Returned tt, set_machine d (f m) h).
Proof. intros Hm. unfold update, mbind, go_bind. by rewrite (run_deref d m). Qed.

Lemma counted_moveState s d m st ev h :
  machines h !! d = Some m → st ≠ commandStateCompleted →
  offers (moved st ev m) = offers m → counted s h → counted s (final (moveState d st ev) h).
Proof.
  intros Hm Hst Ho Hc. unfold final. rewrite (moveState_spec d m) by done.
  unfold move_result. rewrite decide_False by done. by apply (counted_set_machine s d m).
Qed.

Lemma final_failStateTransition {A} d m ev h :
  machines h !! d = Some m → final (failStateTransition (A:=A) d ev) h = h.
Proof.
  intros Hm. unfold final, failStateTransition, mbind, go_bind. by rewrite (run_deref d m).
Qed.

(** Machines that still offer their command after a cancel before the send,
    or were sent already. *)
Definition cancels_in_place (m : machine) : Prop :=
  match m_kind m with
  | activityCommandStateMachine _ _ _ | timerCommandStateMachine _ _ => True
  | childWorkflowCommandStateMachine _ _ => m_state m ≠ commandStateCreated
  | _ => False
  end.

Lemma counted_base_cancel s d m h :
  machines h !! d = Some m → cancels_in_place m → counted s h →
  counted s (final (base_cancel d) h).
Proof.
  intros Hm Hk Hc. unfold base_cancel, final, mbind, go_bind.
  rewrite (run_getState d m) by done.
  unfold cancels_in_place in Hk.
  destruct (m_state m) eqn:Hs; try exact Hc;
    try (change (counted s (final (failStateTransition d eventCancel : M unit) h));
         by rewrite (final_failStateTransition d m));
    (apply (counted_moveState s d m); [done|done| |done]);
    unfold offers, machine_getCommand, moved; simpl;
    unfold activity_getCommand, timer_getCommand, childWorkflow_getCommand; simpl; rewrite Hs;
    destruct (m_kind m); try done.
Qed.

Lemma counted_activity_eager s d m b h :
  machines h !! d = Some m → counted s h →
  counted s (set_machine d (activity_setRequestEagerExecution b m) h).
Proof.
  intros Hm. apply (counted_set_machine s d m); [done|].
  unfold activity_setRequestEagerExecution, offers, machine_getCommand.
  destruct (m_kind m) eqn:Hk; rewrite ?Hk; try done; simpl.
  unfold activity_getCommand; simpl. by destruct (m_state m).
Qed.

Lemma created_lookup d m m' h :
  helper_wf h → machines h !! d = Some m → machines (created m' h) !! d = Some m.
Proof.
  intros Hwf Hm. simpl. rewrite lookup_insert_ne; [done|].
  apply (wf_refs h Hwf) in Hm. lia.
Qed.

(** A cancel command [mc] is created, [k] adjusts the machine, and the machine
    itself is cancelled. *)
Lemma counted_cancel_by s d m mc f (k : ref → M unit) h :
  helper_wf h → machines h !! d = Some m → machine_getCommand (f mc) ≠ None → counted s h →
  (∀ c h1, machines h1 !! d = Some m → counted s h1 →
     ∃ h2 m2, k c h1 = (Returned tt, h2) ∧ machines h2 !! d = Some m2 ∧
       cancels_in_place m2 ∧ counted s h2) →
  counted s (final (_ ← (c ← alloc mc; _ ← update c f; _ ← addCommand c; k c);
                    base_cancel d) h).
Proof.
  intros Hwf Hm Hg Hc Hk. unfold final, mbind at 1, go_bind at 1.
  destruct (commands h !! m_id (f mc)) as [e|] eqn:He.
  - rewrite (run_create_duplicate _ _ _ _ e) by done.
    apply counted_with_machine; [by apply wf_fresh|done].
  - rewrite run_create by done.
    destruct (Hk (next_ref h) (created (f mc) h)) as (h2 & m2 & -> & Hm2 & Hip & Hc2).
    + by apply created_lookup.
    + apply counted_created; [by apply wf_fresh|done|done].
    + by apply (counted_base_cancel s d m2).
Qed.

Lemma counted_activity_cancel s d m i a md h :
  helper_wf h → machines h !! d = Some m → m_kind m = activityCommandStateMachine i a md →
  counted s h → counted s (final (activity_cancel d i) h).
Proof.
  intros Hwf Hm Hk Hc.
  assert (Hip : cancels_in_place m) by (unfold cancels_in_place; by rewrite Hk).
  unfold activity_cancel, final, mbind at 1, go_bind at 1. rewrite (run_deref d m) by done.
  unfold newCancelActivityStateMachine, newCommandStateMachineBase.
  destruct (m_state m) eqn:Hs; try (exact (counted_base_cancel s d m h Hm Hip Hc));
    (apply (counted_cancel_by s d m); [done|done|done|done|]; intros c h1 Hm1 Hc1;
     unfold mbind, go_bind; rewrite (run_getState d m), Hs by done).
  2: by exists h1, m.
  all: rewrite decide_True, (run_update d m) by done;
    eexists _, _; split_and!; [done|simpl; apply lookup_insert_eq| |by apply counted_activity_eager];
    unfold cancels_in_place, activity_setRequestEagerExecution; by rewrite Hk.
Qed.

Lemma bind_tt (m : M unit) h : (_ ← m; mret tt) h = m h.
Proof. unfold mbind, go_bind. by destruct (m h) as [[[]|] ?]. Qed.

Lemma counted_timer_cancel s d m a md h :
  helper_wf h → machines h !! d = Some m → m_kind m = timerCommandStateMachine a md →
  counted s h → counted s (final (timer_cancel d a) h).
Proof.
  intros Hwf Hm Hk Hc.
  assert (Hip : cancels_in_place m) by (unfold cancels_in_place; by rewrite Hk).
  assert (Hby : ∀ mc f, machine_getCommand (f mc) ≠ None →
    counted s (final (_ ← (c ← alloc mc; _ ← update c f; addCommand c); base_cancel d) h)).
  { intros mc f Hg.
    pose proof (counted_cancel_by s d m mc f (λ _, mret tt) h Hwf Hm Hg Hc) as H.
    unfold final, mbind, go_bind in H |- *. rewrite alloc_spec, update_fresh_spec in H |- *.
    pose proof (bind_tt (addCommand (next_ref h)) (with_machine (f mc) h)) as Hb.
    unfold mbind, go_bind in Hb. rewrite Hb in H. apply H. intros c h1 ??. by exists h1, m. }
  unfold timer_cancel, final, mbind at 1, go_bind at 1. rewrite (run_deref d m) by done.
  destruct (m_state m) eqn:Hs; try (exact (counted_base_cancel s d m h Hm Hip Hc));
    by apply Hby.
Qed.

Lemma has_command_set_other d m' h e :
  elem_value e ≠ d → has_command (set_machine d m' h) e = has_command h e.
Proof. intros Hne. unfold has_command; simpl. by rewrite lookup_insert_ne. Qed.

(** A machine that starts to offer a command is moved to the back. *)
Lemma pending_moved_back d m m' e h :
  helper_wf h → e ∈ orderedCommands h → elem_value e = d →
  machines h !! d = Some m → offers m = false → offers m' = true →
  length (pending_of (set_machine d m' h)
            (list_remove e (orderedCommands h) ++ [mkElement (next_elem h) d])) =
  S (length (pending_commands h)).
Proof.
  intros Hwf He Hd Hm Ho Ho'. unfold pending_commands.
  pose proof (wf_nodup h Hwf) as Hnd.
  destruct (wf_split h Hwf e He) as (pre & rest & Heq & Hne). rewrite Hd in Hne.
  rewrite Heq in Hnd |- *. rewrite list_remove_middle by done.
  rewrite !length_pending_of, filter_app, length_app.
  rewrite (filter_bool_ext (has_command (set_machine d m' h)) (has_command h))
    by (intros; apply has_command_set_other; auto).
  assert (has_command h e = false) as Hf
    by (unfold has_command; rewrite Hd, Hm; exact Ho).
  assert (has_command (set_machine d m' h) (mkElement (next_elem h) d) = true) as Ht
    by (unfold has_command; simpl; rewrite lookup_insert_eq; exact Ho').
  rewrite !filter_app, !filter_cons, Hf, Ht; simpl. rewrite !length_app; simpl. lia.
Qed.

Lemma counted_childWorkflow_cancel s d e m a md h :
  helper_wf h → commands h !! m_id m = Some e → elem_value e = d →
  machines h !! d = Some m → m_kind m = childWorkflowCommandStateMachine a md →
  m_state m ≠ commandStateCreated → counted s h →
  counted s (final (childWorkflow_cancel d) h).
Proof.
  intros Hwf He Hd Hm Hk Hs Hc.
  assert (Hin : e ∈ orderedCommands h) by (apply (wf_index h Hwf) in He; tauto).
  unfold childWorkflow_cancel, final, mbind at 1, go_bind at 1.
  rewrite (run_getState d m) by done.
  assert (Hb : counted s (final (base_cancel d) h)).
  { apply (counted_base_cancel s d m); [done| |done]. unfold cancels_in_place. by rewrite Hk. }
  destruct (m_state m) eqn:Hst; try exact Hb.
  unfold mbind, go_bind at 1. rewrite (moveState_spec d m) by done.
  unfold move_result. rewrite decide_False by done.
  set (m' := moved _ _ m). change (set_machines _ _ h) with (set_machine d m' h).
  unfold go_bind. unfold moveCommandToBack, mbind, go_bind.
  rewrite (run_deref d m') by (simpl; apply lookup_insert_eq). unfold get; simpl. rewrite He.
  unfold new_element, modify, mbind, go_bind, get; simpl.
  destruct Hc as [Hv Hn]. split; [done|]; simpl. rewrite Hn, wrap64_add_l. f_equal.
  unfold pending_commands at 2; simpl.
  pose proof (pending_moved_back d m m' e h Hwf Hin Hd Hm) as Hp.
  change (pending_of _ _) with (pending_of (set_machine d m' h)
    (list_remove e (orderedCommands h) ++ [mkElement (next_elem h) d])).
  rewrite Hp; [lia| |]; unfold offers, machine_getCommand; simpl; rewrite Hk;
    unfold childWorkflow_getCommand; simpl; by rewrite ?Hst.
Qed.

Lemma with_machine_set_machine d m mc h :
  d ≠ next_ref h →
  set_machine d m (with_machine mc h) = with_machine mc (set_machine d m h).
Proof.
  intros Hne. unfold set_machine, with_machine, set_machines; simpl.
  by rewrite (insert_insert_ne (machines h)) by done.
Qed.

Lemma counted_nexusOperation_cancel s d m seq ev a c md h :
  helper_wf h → machines h !! d = Some m → m_kind m = nexusOperationStateMachine seq ev a c md →
  m_state m ≠ commandStateCreated → counted s h →
  counted s (final (nexusOperation_cancel d ev c) h).
Proof.
  intros Hwf Hm Hk Hs Hc. unfold nexusOperation_cancel, final, mbind at 1, go_bind at 1.
  rewrite (run_deref d m) by done. destruct (_ || _); [exact Hc|].
  unfold newRequestCancelNexusOperationStateMachine, newCommandStateMachineBase.
  unfold mbind, go_bind at 1. rewrite alloc_spec. unfold go_bind at 1.
  rewrite update_fresh_spec. set (mc := m_set_eventGroupMarkers _ _).
  assert (Hne : d ≠ next_ref h) by (apply (wf_refs h Hwf) in Hm; lia).
  unfold go_bind at 1.
  rewrite (run_update d m) by (simpl; by rewrite lookup_insert_ne).
  rewrite with_machine_set_machine by done. set (m' := nexusOperation_setCancelation _ m).
  assert (Hc' : counted s (set_machine d m' h)).
  { apply (counted_set_machine s d m); [done| |done].
    unfold m', nexusOperation_setCancelation, offers, machine_getCommand. rewrite Hk; simpl.
    unfold nexusOperation_getCommand; simpl. by rewrite (bool_decide_false (m_state m = _)). }
  assert (Hf : fresh (set_machine d m' h)) by exact (wf_fresh h Hwf).
  unfold go_bind at 1. destruct (commands h !! m_id mc) as [e|] eqn:He.
  - rewrite (addCommand_duplicate _ mc e); [by apply counted_with_machine| |done].
    simpl. apply lookup_insert_eq.
  - pose proof (addCommand_fresh_spec mc (set_machine d m' h) He) as Hadd; simpl in Hadd.
    rewrite Hadd. unfold go_bind. rewrite (run_getState d m').
    + rewrite decide_False; [by apply counted_created|].
      unfold m', nexusOperation_setCancelation. by rewrite Hk.
    + simpl. rewrite lookup_insert_ne by done. apply lookup_insert_eq.
Qed.

(** ** Every operation of the workflow code keeps the prediction *)

(** The operations workflow code issues while it runs. *)
Definition workflow_op (op : operation) : bool :=
  match op with
  | OpGetNextID | OpScheduleActivityTask _ _ _ _ | OpRequestCancelActivityTask _
  | OpScheduleNexusOperation _ _ _ _ | OpRequestCancelNexusOperation _
  | OpRecordVersionMarker _ _ _ _ _ | OpRecordSideEffectMarker _ _ _ _ _
  | OpRecordLocalActivityMarker _ _ _ _ _ | OpRecordMutableSideEffectMarker _ _ _ _ _ _
  | OpStartChildWorkflowExecution _ _ _
  | OpRequestCancelExternalWorkflowExecution _ _ _ _ _ _
  | OpSignalExternalWorkflowExecution _ _ _ _ _ _ _ _ _ | OpAddProtocolMessage _
  | OpUpsertSearchAttributes _ _ _ | OpModifyProperties _ _ _ | OpStartTimer _ _ _ _
  | OpCancelTimer _ => true
  | _ => false
  end.

Definition unsent (id : commandID) (h : commandsHelper) : bool :=
  match commands h !! id with
  | Some e =>
      match machines h !! elem_value e with
      | Some m => bool_decide (m_state m = commandStateCreated)
      | None => false
      end
  | None => false
  end.

(** The two cancels that withdraw a command which was counted already: of a
    Nexus operation and of a child workflow that were not sent yet. *)
Definition withdraws (op : operation) (h : commandsHelper) : bool :=
  match op with
  | OpRequestCancelNexusOperation seq =>
      unsent (makeCommandID commandTypeNexusOperation (FormatInt seq)) h
  | OpRequestCancelExternalWorkflowExecution _ workflowID _ _ true _ =>
      unsent (makeCommandID commandTypeChildWorkflow workflowID) h
  | _ => false
  end.

Lemma not_unsent id h e m :
  unsent id h = false → commands h !! id = Some e → machines h !! elem_value e = Some m →
  m_state m ≠ commandStateCreated.
Proof.
  unfold unsent. intros Hu He Hm. rewrite He, Hm in Hu. by apply bool_decide_eq_false in Hu.
Qed.

Lemma run_cancel d m h :
  machines h !! d = Some m →
  cancel d h =
  match m_kind m with
  | activityCommandStateMachine scheduleID _ _ => activity_cancel d scheduleID
  | timerCommandStateMachine a _ => timer_cancel d a
  | childWorkflowCommandStateMachine _ _ => childWorkflow_cancel d
  | nexusOperationStateMachine _ ev _ c _ => nexusOperation_cancel d ev c
  | cancelExternalWorkflowCommandStateMachine _ | signalExternalWorkflowCommandStateMachine _
  | markerCommandStateMachine _ | completeOnSendStateMachine _
  | modifyPropertiesCommandStateMachine _ => unsupportedOperation
  | _ => base_cancel d
  end h.
Proof. intros Hm. unfold cancel, mbind, go_bind. by rewrite (run_deref d m). Qed.

(** A machine of command type [commandTypeActivity] or [commandTypeTimer]. *)
Lemma typed_activity m :
  kind_ok m → commandID_commandType (m_id m) = commandTypeActivity →
  ∃ i a md, m_kind m = activityCommandStateMachine i a md.
Proof.
  intros Hk Ht. unfold kind_ok in Hk.
  destruct (m_kind m); eauto; try (by rewrite Hk in Ht); naive_solver congruence.
Qed.

Lemma typed_timer m :
  kind_ok m → commandID_commandType (m_id m) = commandTypeTimer →
  ∃ a md, m_kind m = timerCommandStateMachine a md.
Proof.
  intros Hk Ht. unfold kind_ok in Hk.
  destruct (m_kind m); eauto; try (by rewrite Hk in Ht); naive_solver congruence.
Qed.

(** What follows the cancel reads the state only. *)
Lemma final_then {A B} (m : M A) (k : A → M B) h :
  (∀ a h', final (k a) h' = h') → final (m ≫= k) h = final m h.
Proof.
  intros Hk. unfold final, mbind, go_bind in *. by destruct (m h) as [[a|p] h'].
Qed.

Lemma counts_requestCancelActivityTask i : counts (requestCancelActivityTask i).
Proof.
  intros s h Hwf Hc. apply counts_getCommand; [|done|done]. intros e m He Hm Hid Hl.
  destruct (typed_activity m) as (n & a & md & Hk); [by eapply wf_kind|by rewrite Hid|].
  rewrite final_then by done. unfold final. rewrite (run_cancel _ m), Hk by done.
  by eapply counted_activity_cancel.
Qed.

Lemma counts_cancelTimer t : counts (cancelTimer t).
Proof.
  intros s h Hwf Hc. apply counts_getCommand; [|done|done]. intros e m He Hm Hid Hl.
  destruct (typed_timer m) as (a & md & Hk); [by eapply wf_kind|by rewrite Hid|].
  rewrite final_then by done. unfold final. rewrite (run_cancel _ m), Hk by done.
  by eapply counted_timer_cancel.
Qed.

Lemma counted_requestCancelExternal s n w r c b g h :
  (b = true → unsent (makeCommandID commandTypeChildWorkflow w) h = false) →
  helper_wf h → counted s h →
  counted s (final (requestCancelExternalWorkflowExecution n w r c b g) h).
Proof.
  intros Hu Hwf Hc. unfold requestCancelExternalWorkflowExecution. destruct b.
  - repeat (destruct (decide _); [done|]). apply counts_getCommand; [|done|done].
    intros e m He Hm Hid Hl.
    destruct (typed_child m) as (a & md & Hk); [by eapply wf_kind|by rewrite Hid|].
    rewrite final_then by done. unfold final. rewrite (run_cancel _ m), Hk by done.
    eapply (counted_childWorkflow_cancel s _ e m); try done; [by rewrite Hid|].
    by eapply not_unsent; [apply Hu| |].
  - destruct (decide _); [done|]. cbv zeta. revert s h Hu Hwf Hc.
    intros s h _. revert s h. refine (counts_create_plain _ _). done.
Qed.

Lemma counted_then {A B} s (m : M A) (k : A → M B) h :
  counted s (final m h) → (∀ a h', counted s h' → counted s (final (k a) h')) →
  counted s (final (m ≫= k) h).
Proof.
  intros Hm Hk. unfold final, mbind, go_bind in *. destruct (m h) as [[a|p] h']; simpl in *; auto.
Qed.

Lemma counted_requestCancelNexusOperation s seq h :
  unsent (makeCommandID commandTypeNexusOperation (FormatInt seq)) h = false →
  helper_wf h → counted s h → counted s (final (requestCancelNexusOperation seq) h).
Proof.
  intros Hu Hwf Hc. unfold requestCancelNexusOperation, getNexusOperationCommand.
  apply counts_getCommand; [|done|done]. intros e m He Hm Hid Hl.
  destruct (typed_nexus m) as (seq' & ev & a & c & md & Hk); [by eapply wf_kind|by rewrite Hid|].
  apply counted_then.
  - unfold final. rewrite (run_cancel _ m), Hk by done.
    eapply counted_nexusOperation_cancel; try done. by eapply not_unsent.
  - intros _ h' Hc'. apply counted_then; [|by intros st h''; destruct (decide _)].
    unfold final, getState, deref, mbind, go_bind, get; simpl.
    by destruct (machines h' !! _).
Qed.

#[export] Hint Resolve counts_scheduleActivityTask counts_scheduleNexusOperation
  counts_recordVersionMarker counts_recordSideEffectMarker
  counts_recordMutableSideEffectMarker counts_recordLocalActivityMarker
  counts_startChildWorkflowExecution counts_signalExternal counts_addProtocolMessage
  counts_upsertSearchAttributes counts_modifyProperties counts_startTimer
  counts_requestCancelActivityTask counts_cancelTimer : counts.

Section Prediction.
  Variable HistoryEventToString : HistoryEvent → string.
  Variable EventType_String : EventType → string.
  Local Abbreviation run_op := (run_op HistoryEventToString EventType_String).
  Local Abbreviation run_ops := (run_ops HistoryEventToString EventType_String).

Lemma counted_discard {A} s (m : M A) h :
  counted s (final m h) → counted s (final (discard m) h).
Proof. intros Hc. unfold discard. by rewrite final_then. Qed.

Lemma run_op_counted op s h :
  workflow_op op = true → withdraws op h = false → helper_wf h → counted s h →
  counted s (final (run_op op) h).
Proof.
  intros Hop Hw Hwf Hc.
  destruct op; try done; cbn [CommandReachable.run_op]; apply counted_discard;
    try (assert (Hcts : ∀ A (m : M A), counts m → counted s (final m h)) by (intros ?? H; by apply H);
         apply Hcts; by eauto 1 with counts).
  - unfold final. by rewrite (counted_getNextID s).
  - by apply counted_requestCancelNexusOperation.
  - apply counted_requestCancelExternal; [|done|done]. by intros ->.
Qed.

(** The state stays legal for the prediction along a run of workflow code. *)
Fixpoint plain_run (ops : list operation) (h : commandsHelper) : bool :=
  match ops with
  | [] => true
  | op :: ops' =>
      workflow_op op && negb (withdraws op h) && plain_run ops' (final (run_op op) h)
  end.

Lemma run_ops_counted ops s h :
  plain_run ops h = true → helper_wf h → counted s h →
  helper_wf (run_ops ops h) ∧ counted s (run_ops ops h).
Proof.
  revert h. induction ops as [|op ops IH]; intros h Hp Hwf Hc; [done|].
  simpl in Hp. apply andb_true_iff in Hp as [[Hop Hw]%andb_true_iff Hp].
  apply negb_true_iff in Hw. apply IH; [done| |by apply run_op_counted].
  by destruct (hoare_final _ _ _ _ h
    (run_op_hoare HistoryEventToString EventType_String op) Hwf).
Qed.

Lemma counted_start s h :
  versionMarkerLookup h = ∅ → counted s (final (setCurrentWorkflowTaskStartedEventID s) h).
Proof.
  intros Hv. split; [done|]. simpl. unfold pending_commands. by rewrite length_pending_of.
Qed.
End Prediction.

(** ** Claims *)

Definition noEvent (e : HistoryEvent) : string := "".
Definition noType (t : EventType) : string := "".

(** C3. Event identifiers are predicted: once the started event [s] of a
    workflow task is processed and no version marker is ahead, after any run
    of workflow code (creating and cancelling commands, failures included)
    [nextCommandEventID] is [s + 2] plus the number of commands [getCommands]
    will send, in [int64] arithmetic.  The only operations excluded are the
    cancel of a Nexus operation or child workflow that was not sent yet. *)
Theorem event_ids_predicted hes ets ops s h :
  reachable hes ets h → versionMarkerLookup h = ∅ →
  let h0 := final (setCurrentWorkflowTaskStartedEventID s) h in
  plain_run hes ets ops h0 = true →
  let h' := run_ops hes ets ops h0 in
  result (getCommands true) h' = Returned (pending_commands h') ∧
  nextCommandEventID h' = wrap64 (s + 2 + Z.of_nat (length (pending_commands h'))).
Proof.
  intros Hr Hv h0 Hp h'. apply reachable_wf in Hr as Hwf.
  destruct (run_ops_counted hes ets ops s h0) as [Hwf' [_ Hn]];
    [done|by destruct Hwf; split|by apply counted_start|].
  split; [|done]. destruct (getCommands_spec true h' Hwf') as (h2 & Hg & _).
  unfold result. by rewrite Hg.
Qed.

Definition exampleActivity (id : string) : ScheduleActivityTaskCommandAttributes :=
  mkScheduleActivityTask id "charge" "queue" None true (mkActivityTimeouts 0 0 10 0) true ∅ None None.

Definition exampleOps : list operation :=
  [OpScheduleActivityTask 5 (exampleActivity "5") None [];
   OpRequestCancelActivityTask "5"; OpRequestCancelActivityTask "5";
   OpScheduleActivityTask 7 (exampleActivity "5") None [];
   OpScheduleActivityTask 7 (exampleActivity "7") None []].

Lemma event_ids_predicted_witness :
  let h := run_ops noEvent noType exampleOps
             (final (setCurrentWorkflowTaskStartedEventID 3) newCommandsHelper) in
  nextCommandEventID h = 8 ∧ length (pending_commands h) = 3%nat.
Proof.
  intros h.
  destruct (event_ids_predicted noEvent noType exampleOps 3 newCommandsHelper) as [_ Hn];
    [constructor|reflexivity|vm_compute; reflexivity|].
  assert (Hl : length (pending_commands h) = 3%nat) by (vm_compute; reflexivity).
  split; [|exact Hl]. fold h in Hn. rewrite Hn, Hl. reflexivity.
Defined.

(** The identifier an activity is scheduled under is the one its event will
    get: after [getNextID] returned [i], scheduling the activity under [i]
    sends its command right after the commands pending before, so that [i] is
    [s + 2] plus the command's position in what [getCommands] returns. *)
Theorem activity_event_id s h i a md g :
  helper_wf h → counted s h →
  commands h !! makeCommandID commandTypeActivity (sat_ActivityId a) = None →
  result getNextID h = Returned i →
  let h' := final (scheduleActivityTask i a md g) (final getNextID h) in
  ∃ before c,
    result (getCommands true) h' = Returned (before ++ [c]) ∧
    Command_Attributes c = Some (Command_ScheduleActivityTaskCommandAttributes a) ∧
    scheduledEventIDToActivityID h' !! i = Some (sat_ActivityId a) ∧
    i = wrap64 (s + 2 + Z.of_nat (length before)).
Proof.
  intros Hwf Hc Hfree Hi h'.
  unfold result in Hi. rewrite (counted_getNextID s) in Hi by done. simpl in Hi.
  destruct (decide _) as [|Hnz]; [done|]. injection Hi as Hi.
  assert (Hh' : h' = final (scheduleActivityTask i a md g) h).
  { unfold h', final at 2. by rewrite (counted_getNextID s). }
  set (hr := set_scheduledEventIDToActivityID
    (<[i := sat_ActivityId a]> (scheduledEventIDToActivityID h)) h).
  set (m := m_set_eventGroupMarkers g (mkMachine
    (makeCommandID commandTypeActivity (sat_ActivityId a)) commandStateCreated
    [commandState_String commandStateCreated] None [] (activityCommandStateMachine i a md))).
  assert (Hrun : h' = created m hr).
  { rewrite Hh'. unfold final.
    transitivity (snd ((d ← alloc (m_set_eventGroupMarkers [] m);
      _ ← update d (m_set_eventGroupMarkers g); _ ← addCommand d; mret d) hr));
      [reflexivity|]. by rewrite run_create. }
  assert (Hwf' : helper_wf h').
  { rewrite Hh'.
    by destruct (hoare_final _ _ _ _ h (safe_scheduleActivityTask i a md g) Hwf). }
  destruct (getCommands_spec true h' Hwf') as (h2 & Hg & _).
  assert (Hp : pending_commands h' = pending_commands h ++ option_list (machine_getCommand m)).
  { rewrite Hrun, (pending_created m hr); [done|exact (wf_fresh h Hwf)]. }
  exists (pending_commands h). eexists. split_and!.
  - unfold result. rewrite Hg, Hp. simpl. reflexivity.
  - reflexivity.
  - rewrite Hrun. simpl. apply lookup_insert_eq.
  - destruct Hc as [_ Hn]. congruence.
Qed.

Lemma activity_event_id_witness :
  let h := run_ops noEvent noType exampleOps
             (final (setCurrentWorkflowTaskStartedEventID 3) newCommandsHelper) in
  ∃ before c,
    result (getCommands true)
      (final (scheduleActivityTask 8 (exampleActivity "8") None []) (final getNextID h)) =
      Returned (before ++ [c]) ∧ 8 = wrap64 (3 + 2 + Z.of_nat (length before)).
Proof.
  intros h.
  destruct (run_ops_counted noEvent noType exampleOps 3
    (final (setCurrentWorkflowTaskStartedEventID 3) newCommandsHelper)) as [Hwf Hc];
    [vm_compute; reflexivity|destruct newCommandsHelper_wf; by split|by apply counted_start|].
  destruct (activity_event_id 3 h 8 (exampleActivity "8") None []) as (b & c & H1 & _ & _ & H2);
    [exact Hwf|exact Hc|vm_compute; reflexivity|vm_compute; reflexivity|].
  exists b, c. split; [exact H1|exact H2].
Defined.

(** The version-marker loop terminates within the size of its table, stops
    at the first identifier that has no marker, and skips one identifier per
    marker, two when the marker also wrote a search attribute. *)
Theorem getNextID_skips h :
  ∃ n l, skips (nextCommandEventID h) (versionMarkerLookup h) n l ∧
    getNextID h =
      ((if decide (n = 0) then Panicked (panicString
          "Attempt to generate a command before processing WorkflowTaskStarted event")
        else Returned n),
       set_versionMarkerLookup l (set_nextCommandEventID n h)) ∧
    l !! n = None.
Proof.
  pose proof (versionMarkerLoop_skips (size (versionMarkerLookup h)) (nextCommandEventID h)
    (versionMarkerLookup h) ltac:(lia)) as Hs.
  eexists _, _. split_and!; [exact Hs| |by eapply skips_end].
  unfold getNextID, incrementNextCommandEventIDIfVersionMarker, mbind, go_bind, modify, get.
  simpl. by destruct (decide _).
Qed.
