(* ===== verification/CommandTransitions.v ===== *)
(** * The command machines as labelled transition systems.

    [table] is the abstract automaton of every machine type; the methods of
    the concrete machines refine it.  The transitions the source documents for
    the external-workflow, marker and Nexus machines are compared with it. *)

From stdpp Require Import base list gmap strings.
From S2P Require Import Prelude Proto CommandMachine CommandsHelper CommandInvariant CommandSend CommandReachable CommandEventIDs.
Open Scope Z_scope.

(** ** Events and the abstract automaton *)

(** The event methods of the [commandStateMachine] interface other than
    [cancel], which also creates commands. *)
Inductive event : Type :=
| EvCommandSent | EvInitiated | EvInitiationFailed | EvStarted | EvCompletion
| EvCancelInitiated | EvCancelFailed | EvCanceled.

#[export] Instance event_eq_dec : EqDecision event.
Proof. solve_decision. Defined.

Definition deliver (ev : event) : ref → M unit :=
  match ev with
  | EvCommandSent => handleCommandSent
  | EvInitiated => handleInitiatedEvent
  | EvInitiationFailed => handleInitiationFailedEvent
  | EvStarted => handleStartedEvent
  | EvCompletion => handleCompletionEvent
  | EvCancelInitiated => handleCancelInitiatedEvent
  | EvCancelFailed => handleCancelFailedEvent
  | EvCanceled => handleCanceledEvent
  end.

Definition event_name (ev : event) : string :=
  match ev with
  | EvCommandSent => eventCommandSent
  | EvInitiated => eventInitiated
  | EvInitiationFailed => eventInitiationFailed
  | EvStarted => eventStarted
  | EvCompletion => eventCompletion
  | EvCancelInitiated => eventCancelInitiated
  | EvCancelFailed => eventCancelFailed
  | EvCanceled => eventCanceled
  end.

(** The reaction of a machine: it moves, it stays in its state, or the event
    is illegal. *)
Inductive reaction : Type :=
| Moves (s : commandState)
| Stays
| Illegal.

#[export] Instance reaction_eq_dec : EqDecision reaction.
Proof. solve_decision. Defined.

(** The families of machines that share an automaton. *)
Inductive family : Type :=
| FActivity | FTimer | FPlain | FChild | FExternal | FOnSend | FNexus | FCancelNexus.

#[export] Instance family_eq_dec : EqDecision family.
Proof. solve_decision. Defined.

Definition family_of (m : machine) : family :=
  match m_kind m with
  | activityCommandStateMachine _ _ _ => FActivity
  | timerCommandStateMachine _ _ => FTimer
  | cancelActivityStateMachine _ | cancelTimerCommandStateMachine _ => FPlain
  | childWorkflowCommandStateMachine _ _ => FChild
  | cancelExternalWorkflowCommandStateMachine _
  | signalExternalWorkflowCommandStateMachine _ => FExternal
  | markerCommandStateMachine _ | completeOnSendStateMachine _
  | modifyPropertiesCommandStateMachine _ => FOnSend
  | nexusOperationStateMachine _ _ _ _ _ => FNexus
  | requestCancelNexusOperationStateMachine _ => FCancelNexus
  end.

(** The automaton, one line per group of transitions. *)
Definition table (f : family) (ev : event) (s : commandState) : reaction :=
  match ev, f, s with
  (* a command is sent *)
  | EvCommandSent, FOnSend, commandStateCreated => Moves commandStateCompleted
  | EvCommandSent, (FActivity | FTimer), commandStateCanceledAfterInitiated
  | EvCommandSent, FChild, commandStateCanceledAfterStarted =>
      Moves commandStateCancellationCommandSent
  | EvCommandSent, _, commandStateCreated => Moves commandStateCommandSent
  | EvCommandSent, _, _ => Stays
  (* markers and the like have no history events *)
  | _, FOnSend, _ => Illegal
  (* the scheduled, started-timer or initiated event *)
  | EvInitiated, _, commandStateCommandSent => Moves commandStateInitiated
  | EvInitiated, (FActivity | FTimer | FPlain | FNexus), commandStateCancellationCommandSent
  | EvInitiated, (FActivity | FTimer | FPlain | FNexus | FChild),
      (commandStateCanceledBeforeInitiated | commandStateCanceledBeforeSent) =>
      Moves commandStateCanceledAfterInitiated
  | EvInitiated, _, _ => Illegal
  (* completion *)
  | EvCompletion, (FActivity | FTimer | FPlain | FChild),
      (commandStateInitiated | commandStateCanceledAfterInitiated)
  | EvCompletion, FChild,
      (commandStateStarted | commandStateCanceledAfterStarted |
       commandStateCompletedAfterCancellationCommandSent |
       commandStateCancellationCommandAccepted)
  | EvCompletion, FExternal, commandStateInitiated
  | EvCompletion, FNexus, (commandStateInitiated | commandStateStarted)
  | EvCompletion, FCancelNexus, (commandStateCreated | commandStateInitiated) =>
      Moves commandStateCompleted
  | EvCompletion, (FActivity | FTimer | FPlain | FChild), commandStateCancellationCommandSent =>
      Moves commandStateCompletedAfterCancellationCommandSent
  | EvCompletion, _, _ => Illegal
  (* external workflows have no further events *)
  | _, FExternal, _ => Illegal
  (* start *)
  | EvStarted, (FChild | FNexus), commandStateInitiated => Moves commandStateStarted
  | EvStarted, FChild, commandStateCanceledAfterInitiated =>
      Moves commandStateCanceledAfterStarted
  | EvStarted, FNexus, _ => Illegal
  | EvStarted, _, _ => Stays
  (* failed initiation *)
  | EvInitiationFailed, _,
      (commandStateInitiated | commandStateCommandSent |
       commandStateCanceledBeforeInitiated | commandStateCancellationCommandSent) =>
      Moves commandStateCompleted
  | EvInitiationFailed, _, _ => Illegal
  (* cancellation *)
  | EvCancelInitiated, _, commandStateInitiated => Moves commandStateCanceledAfterInitiated
  | EvCancelInitiated, _,
      (commandStateCancellationCommandSent | commandStateCanceledAfterInitiated) => Stays
  | EvCancelInitiated, _, _ => Illegal
  | EvCancelFailed, FActivity, _ => Illegal
  | EvCancelFailed, FChild, commandStateCancellationCommandSent => Moves commandStateStarted
  | EvCancelFailed, _, commandStateCompletedAfterCancellationCommandSent =>
      Moves commandStateCompleted
  | EvCancelFailed, _, _ => Illegal
  | EvCanceled, FChild, commandStateStarted => Moves commandStateCompleted
  | EvCanceled, FChild, commandStateCancellationCommandSent =>
      Moves commandStateCompletedAfterCancellationCommandSent
  | EvCanceled, _,
      (commandStateCancellationCommandSent | commandStateCanceledAfterInitiated |
       commandStateCanceledAfterStarted | commandStateCancellationCommandAccepted) =>
      Moves commandStateCompleted
  | EvCanceled, _, _ => Illegal
  end.

(** What an event leaves of the machine besides its state: the debug history
    of [handleStartedEvent] and [handleCancelInitiatedEvent] is written before
    the state is looked at. *)
Definition noted (ev : event) (m : machine) : machine :=
  match ev, family_of m with
  | EvStarted, (FActivity | FTimer | FPlain | FChild | FCancelNexus) =>
      m_add_history eventStarted m
  | EvCancelInitiated, (FActivity | FTimer | FPlain | FChild | FNexus | FCancelNexus) =>
      m_add_history eventCancelInitiated m
  | _, _ => m
  end.

Definition illegal (p : panicValue) : Prop :=
  match p with
  | illegalState _ => True
  | panicString s => s = "unsupported operation"
  | _ => False
  end.

(** The concrete result of a reaction. *)
Definition refines (ev : event) (d : ref) (m : machine) (h : commandsHelper)
    (r : outcome unit * commandsHelper) : Prop :=
  match table (family_of m) ev (m_state m) with
  | Moves s =>
      r = (Returned tt,
           match ev with
           | EvCancelInitiated =>
               move_result d (noted ev m) s (event_name ev) (set_machine d (noted ev m) h)
           | _ => move_result d m s (event_name ev) h
           end)
  | Stays => r = (Returned tt, set_machine d (noted ev m) h)
  | Illegal =>
      ∃ p, illegal p ∧
           r = (Panicked p,
                match ev with EvCancelInitiated => set_machine d (noted ev m) h | _ => h end)
  end.

(** ** The methods refine the automaton *)

Lemma set_machine_id d m h : machines h !! d = Some m → set_machine d m h = h.
Proof.
  intros Hm. unfold set_machine, set_machines. rewrite insert_id by done. by destruct h.
Qed.

Lemma run_failStateTransition {A} d m ev h :
  machines h !! d = Some m →
  ∃ msg, failStateTransition (A:=A) d ev h = (Panicked (illegalState msg), h).
Proof.
  intros Hm. unfold failStateTransition, mbind, go_bind. rewrite (run_deref d m) by done. eauto.
Qed.

Ltac refine_cases m d Hm :=
  unfold refines, family_of, noted, family_of;
  destruct (m_kind m) eqn:?; cbn [deliver];
  unfold handleInitiatedEvent, handleInitiationFailedEvent, handleStartedEvent,
    handleCompletionEvent, handleCancelFailedEvent, handleCanceledEvent,
    handleCommandSent,
    childWorkflow_handleInitiatedEvent, cancelExternalWorkflow_handleInitiatedEvent,
    signalExternalWorkflow_handleInitiatedEvent,
    requestCancelNexusOperation_handleInitiatedEvent, childWorkflow_handleStartedEvent,
    nexusOperation_handleStartedEvent, childWorkflow_handleCompletionEvent,
    cancelExternalWorkflow_handleCompletionEvent,
    signalExternalWorkflow_handleCompletionEvent, nexusOperation_handleCompletionEvent,
    requestCancelNexusOperation_handleCompletionEvent, activity_handleCancelFailedEvent,
    childWorkflow_handleCancelFailedEvent, childWorkflow_handleCanceledEvent,
    activity_handleCommandSent, timer_handleCommandSent, childWorkflow_handleCommandSent,
    marker_handleCommandSent, completeOnSend_handleCommandSent,
    modifyProperties_handleCommandSent,
    base_handleInitiatedEvent, base_handleInitiationFailedEvent,
    base_handleStartedEvent, base_handleCompletionEvent, base_handleCancelFailedEvent,
    base_handleCanceledEvent, base_handleCommandSent, unsupportedOperation;
  unfold mbind, go_bind; rewrite (run_deref d m) by exact Hm;
  repeat match goal with H : m_kind m = _ |- _ => rewrite H; clear H end;
  rewrite ?(run_getState d m) by exact Hm;
  destruct (m_state m) eqn:?; cbn [table];
  repeat (rewrite (run_getState d m) by exact Hm);
  repeat match goal with H : m_state m = _ |- _ => rewrite H end;
  rewrite ?(moveState_spec d m), ?(run_update d m) by exact Hm;
  try reflexivity;
  try (by rewrite set_machine_id);
  try (by eexists (panicString _));
  match goal with
  | |- context [failStateTransition d ?e _] =>
      edestruct (run_failStateTransition (A:=unit) d m e) as [msg ->]; [exact Hm|];
      by exists (illegalState msg)
  end.

Lemma refines_plain ev d m h :
  machines h !! d = Some m → ev ≠ EvCancelInitiated → refines ev d m h (deliver ev d h).
Proof. intros Hm Hev. destruct ev; [..|done|idtac|idtac]; abstract refine_cases m d Hm. Qed.

Lemma refines_cancelInitiated d m h :
  machines h !! d = Some m → refines EvCancelInitiated d m h (deliver EvCancelInitiated d h).
Proof.
  intros Hm. set (m' := m_add_history eventCancelInitiated m).
  assert (Hm' : machines (set_machine d m' h) !! d = Some m')
    by (simpl; apply lookup_insert_eq).
  assert (Hs : m_state m' = m_state m) by done.
  unfold refines, deliver, handleCancelInitiatedEvent, base_handleCancelInitiatedEvent,
    noted, family_of. fold m'.
  unfold mbind, go_bind; rewrite (run_deref d m) by done.
  destruct (m_kind m) eqn:Hk; rewrite ?(run_update d m) by done; fold m';
    rewrite ?(run_getState d m'), ?Hs by done;
    destruct (m_state m) eqn:Hst; cbn [table];
    rewrite ?(moveState_spec d m') by done; try reflexivity;
    try (rewrite set_machine_id by done; by eexists (panicString _));
    edestruct (run_failStateTransition (A:=unit) d m' eventCancelInitiated) as [msg ->];
      try exact Hm'; by exists (illegalState msg).
Qed.

(** ** The documented life cycles *)

(** The valid transitions listed in the comments of the source. *)
Definition documented (f : family) (s s' : commandState) : bool :=
  match f, s, s' with
  | (FExternal | FNexus | FCancelNexus), commandStateCreated, commandStateCommandSent
  | (FExternal | FNexus | FCancelNexus), commandStateCommandSent, commandStateInitiated
  | (FExternal | FNexus | FCancelNexus), commandStateInitiated, commandStateCompleted
  | FNexus, commandStateInitiated, commandStateStarted
  | FNexus, commandStateStarted, commandStateCompleted => true
  | _, _, _ => false
  end.

(** The one transition of the code that the comment on
    [requestCancelNexusOperationStateMachine] does not list: the cancel of an
    operation that was never sent. *)
Definition undocumented (f : family) (s s' : commandState) : bool :=
  match f, s, s' with
  | FCancelNexus, commandStateCreated, commandStateCompleted => true
  | _, _, _ => false
  end.

(** The events the helper delivers to machines of these families. *)
Definition delivered (f : family) (ev : event) : bool :=
  match f, ev with
  | (FExternal | FNexus | FCancelNexus), (EvCommandSent | EvInitiated | EvCompletion)
  | FNexus, EvStarted => true
  | _, _ => false
  end.

(** The states on the documented paths from [commandStateCreated]. *)
Definition on_path (f : family) (s : commandState) : bool :=
  match f, s with
  | (FExternal | FNexus | FCancelNexus),
      (commandStateCreated | commandStateCommandSent | commandStateInitiated |
       commandStateCompleted)
  | FNexus, commandStateStarted => true
  | _, _ => false
  end.

Lemma table_documented f ev s s' :
  on_path f s = true → delivered f ev = true → table f ev s = Moves s' →
  on_path f s' = true ∧ documented f s s' || undocumented f s s' = true.
Proof.
  destruct f; try done; destruct s; try done; destruct ev; try done; simpl;
    intros _ _ [= <-]; done.
Qed.

Lemma documented_table f s s' :
  documented f s s' = true → ∃ ev, delivered f ev = true ∧ table f ev s = Moves s'.
Proof.
  destruct f; try done; destruct s; try done; destruct s'; try done; intros _;
    first [ by exists EvCommandSent | by exists EvInitiated
          | by exists EvCompletion | by exists EvStarted ].
Qed.

Lemma move_result_lookup d m s ev h :
  machines (move_result d m s ev h) !! d = Some (moved s ev m).
Proof. unfold move_result. repeat case_match; simpl; by rewrite lookup_insert_eq. Qed.

Lemma family_of_moved s ev m : family_of (moved s ev m) = family_of m.
Proof. done. Qed.

(** ** Claims *)


Definition exampleTimerMachine (s : commandState) : machine :=
  mkMachine (makeCommandID commandTypeTimer "7") s [commandState_String s] None []
    (timerCommandStateMachine (mkStartTimer "7" 1000) None).

Definition exampleHelper (m : machine) : commandsHelper :=
  set_index [mkElement 0 0] {[ m_id m := mkElement 0 0 ]}
    (set_next_elem 1 (with_machine m newCommandsHelper)).


(** External cancellations, external signals, Nexus operations and Nexus
    cancel requests take the transitions their comments list and no others,
    apart from completing a cancel request that was never sent: an event
    leaves such a machine on its documented path, in its state or one
    documented transition further; and each documented transition is taken by
    some event. *)
Theorem documented_transitions ev d m h :
  machines h !! d = Some m → on_path (family_of m) (m_state m) = true →
  delivered (family_of m) ev = true →
  (∃ m', machines (final (deliver ev d) h) !! d = Some m' ∧
     family_of m' = family_of m ∧ on_path (family_of m) (m_state m') = true ∧
     (m_state m' = m_state m ∨
      documented (family_of m) (m_state m) (m_state m') = true ∨
      undocumented (family_of m) (m_state m) (m_state m') = true)) ∧
  (∀ s', documented (family_of m) (m_state m) s' = true →
     ∃ ev', delivered (family_of m) ev' = true ∧
       result (deliver ev' d) h = Returned tt ∧
       m_state <$> machines (final (deliver ev' d) h) !! d = Some s').
Proof.
  intros Hm Hp Hd. split.
  - assert (Hev : ev ≠ EvCancelInitiated) by (intros ->; by destruct (family_of m)).
    pose proof (refines_plain ev d m h Hm Hev) as Hr. unfold refines in Hr.
    destruct (table _ _ _) as [s'| |] eqn:Ht; unfold final.
    + assert (deliver ev d h = (Returned tt, move_result d m s' (event_name ev) h)) as ->
        by (by destruct ev).
      exists (moved s' (event_name ev) m).
      cbn [snd]. rewrite move_result_lookup. destruct (table_documented _ _ _ _ Hp Hd Ht) as [? Hdoc].
      split_and!; try done. right. by apply orb_true_iff.
    + rewrite Hr. exists (noted ev m). simpl. rewrite lookup_insert_eq.
      assert (m_state (noted ev m) = m_state m ∧ family_of (noted ev m) = family_of m)
        as [Hs Hf] by (unfold noted; repeat case_match; done).
      rewrite Hs, Hf. split_and!; auto.
    + destruct Hr as (p & _ & Hr). exists m.
      assert (deliver ev d h = (Panicked p, h)) as -> by (by destruct ev).
      split_and!; auto.
  - intros s' Hs'. destruct (documented_table _ _ _ Hs') as (ev' & Hd' & Ht').
    exists ev'. assert (Hev : ev' ≠ EvCancelInitiated) by (intros ->; by destruct (family_of m)).
    pose proof (refines_plain ev' d m h Hm Hev) as Hr. unfold refines in Hr. rewrite Ht' in Hr.
    assert (deliver ev' d h = (Returned tt, move_result d m s' (event_name ev') h)) as Hr'
      by (by destruct ev').
    unfold result, final. rewrite Hr'; simpl. by rewrite move_result_lookup.
Qed.

Definition exampleNexusMachine (s : commandState) : machine :=
  mkMachine (makeCommandID commandTypeNexusOperation "1") s [commandState_String s] None []
    (nexusOperationStateMachine 1 5 (mkScheduleNexusOperation "e" "s" "o" None 0 0 0 ∅) None None).

Lemma documented_transitions_witness :
  let m := exampleNexusMachine commandStateInitiated in
  ∃ m', machines (final (deliver EvStarted 0) (exampleHelper m)) !! 0%nat = Some m' ∧
        on_path FNexus (m_state m') = true.
Proof.
  intros m.
  destruct (documented_transitions EvStarted 0 m (exampleHelper m)) as [(m' & H1 & _ & H2 & _) _];
    [reflexivity|reflexivity|reflexivity|].
  exists m'. split; [exact H1|exact H2].
Defined.
