(* ===== verification/CommandLifecycle.v ===== *)
(** * Life cycle of commands: what a resolved command leaves behind, duplicate
      commands, and Nexus operations cancelled before they are sent. *)

From stdpp Require Import base list gmap strings.
From S2P Require Import Prelude Proto CommandMachine CommandsHelper CommandInvariant CommandSend CommandReachable CommandEventIDs CommandTransitions.
Open Scope Z_scope.

(** ** Removing a command from the index *)

Definition without (id : commandID) (h : commandsHelper) : commandsHelper :=
  match commands h !! id with
  | Some e => set_index (list_remove e (orderedCommands h)) (delete id (commands h)) h
  | None => h
  end.

Lemma without_commands id h : commands (without id h) = delete id (commands h).
Proof.
  unfold without. destruct (commands h !! id) eqn:He; [done|].
  by rewrite delete_id.
Qed.

Lemma without_machines id h : machines (without id h) = machines h.
Proof. unfold without. by destruct (commands h !! id). Qed.

Lemma without_next id h : nextCommandEventID (without id h) = nextCommandEventID h.
Proof. unfold without. by destruct (commands h !! id). Qed.

Lemma without_ordered id h e :
  helper_wf h →
  e ∈ orderedCommands (without id h) ↔ e ∈ orderedCommands h ∧ commands h !! id ≠ Some e.
Proof.
  intros Hwf. unfold without. destruct (commands h !! id) as [e0|] eqn:He; simpl; [|naive_solver].
  unfold list_remove. rewrite list_elem_of_filter.
  apply (wf_index h Hwf) in He as [Hin _]. split.
  - intros [Hne ?]. split; [done|]. by intros [= ->].
  - intros [Hin' Hne]. split; [|done]. intros Heq. apply Hne. f_equal.
    by eapply (NoDup_fmap_elem_inj elem_id); eauto using wf_nodup.
Qed.

Lemma run_removeCancel id h :
  commandID_commandType id = commandTypeCancelTimer ∨
  commandID_commandType id = commandTypeRequestCancelActivityTask →
  removeCancelOfResolvedCommand id h = (Returned tt, without id h).
Proof.
  intros Hid. unfold removeCancelOfResolvedCommand, without.
  assert (bool_decide (commandID_commandType id ≠ commandTypeCancelTimer) &&
          bool_decide (commandID_commandType id ≠ commandTypeRequestCancelActivityTask) = false)
    as -> by (destruct Hid as [-> | ->]; done).
  unfold mbind, go_bind, get. by destruct (commands h !! id).
Qed.

Lemma run_getCommand id e h :
  commands h !! id = Some e → getCommand id h = (Returned (elem_value e), h).
Proof. intros He. unfold getCommand, mbind, go_bind, get. by rewrite He. Qed.

Lemma move_result_completed d m ev h :
  move_result d m commandStateCompleted ev h =
  without (m_id m) (set_machine d (moved commandStateCompleted ev m) h).
Proof. unfold move_result, without. by rewrite decide_True. Qed.

(** Closing a machine that was initiated, after its pending cancel is removed. *)
Definition closable (s : commandState) : bool :=
  match s with
  | commandStateInitiated | commandStateCanceledAfterInitiated => true
  | _ => false
  end.

Definition resolved (id cancelID : commandID) (e : element) (h h' : commandsHelper) : Prop :=
  commands h' = delete id (delete cancelID (commands h)) ∧
  nextCommandEventID h' = nextCommandEventID h ∧
  (∀ e', e' ∈ orderedCommands h' ↔
     e' ∈ orderedCommands h ∧ e' ≠ e ∧ commands h !! cancelID ≠ Some e') ∧
  m_state <$> machines h' !! elem_value e = Some commandStateCompleted.

Lemma resolve_spec id cancelID e m h :
  helper_wf h → id ≠ cancelID → commands h !! id = Some e →
  machines h !! elem_value e = Some m → m_id m = id →
  (family_of m = FActivity ∨ family_of m = FTimer) → closable (m_state m) = true →
  helper_wf (without cancelID h) →
  ∃ h', handleCompletionEvent (elem_value e) (without cancelID h) = (Returned tt, h') ∧
    resolved id cancelID e h h' ∧
    scheduledEventIDToActivityID h' = scheduledEventIDToActivityID h.
Proof.
  intros Hwf Hne He Hm Hid Hf Hs Hwf1.
  assert (Hm1 : machines (without cancelID h) !! elem_value e = Some m)
    by by rewrite without_machines.
  pose proof (refines_plain EvCompletion _ m _ Hm1 ltac:(done)) as Hr.
  unfold refines in Hr; cbn [deliver event_name] in Hr.
  assert (Htab : table (family_of m) EvCompletion (m_state m) = Moves commandStateCompleted)
    by (destruct Hf as [-> | ->], (m_state m); done).
  rewrite Htab, move_result_completed, Hid in Hr. eexists. split; [exact Hr|].
  set (m' := moved _ _ _). set (h1 := without cancelID h) in *.
  split; [unfold resolved; split_and!|].
  - rewrite without_commands. unfold h1. simpl. by rewrite without_commands.
  - rewrite without_next. simpl. unfold h1. by rewrite without_next.
  - intros e'. assert (He1 : commands h1 !! id = Some e)
      by (unfold h1; by rewrite without_commands, lookup_delete_ne).
    assert (Heq : orderedCommands (without id (set_machine (elem_value e) m' h1)) =
                  orderedCommands (without id h1)).
    { unfold without; simpl. by rewrite He1. }
    rewrite Heq, without_ordered, He1 by done. unfold h1. rewrite without_ordered by done.
    naive_solver.
  - rewrite without_machines. simpl. by rewrite lookup_insert_eq.
  - unfold without at 1; simpl. destruct (commands h1 !! id); simpl; unfold h1, without;
      by destruct (commands h !! cancelID).
Qed.

Lemma wf_without cancelID h :
  commandID_commandType cancelID = commandTypeCancelTimer ∨
  commandID_commandType cancelID = commandTypeRequestCancelActivityTask →
  helper_wf h → helper_wf (without cancelID h).
Proof.
  intros Ht Hwf.
  assert (without cancelID h = final (removeCancelOfResolvedCommand cancelID) h) as ->
    by (unfold final; by rewrite run_removeCancel).
  by destruct (hoare_final _ _ _ _ h (hoare_removeCancelOfResolvedCommand cancelID) Hwf).
Qed.

(** ** Nexus operations cancelled before they are sent *)

(** The state after the cancel: the request machine was added, completed and
    removed again. *)
Lemma run_nexusOperation_cancel_unsent d m seq ev a md h :
  helper_wf h → machines h !! d = Some m →
  m_kind m = nexusOperationStateMachine seq ev a None md →
  m_state m = commandStateCreated →
  commands h !! makeCommandID commandTypeRequestCancelNexusOperation (FormatInt ev) = None →
  ∃ h', nexusOperation_cancel d ev None h = (Returned tt, h') ∧
    machines h' !! d = Some (nexusOperation_setCancelation (next_ref h) m) ∧
    (∀ d', d' ≠ d → d' ≠ next_ref h → machines h' !! d' = machines h !! d') ∧
    orderedCommands h' = orderedCommands h ∧ commands h' = commands h ∧
    nexusOperationsWithoutScheduledID h' = nexusOperationsWithoutScheduledID h ∧
    nextCommandEventID h' = nextCommandEventID (bump h).
Proof.
  intros Hwf Hm Hk Hs Hfree.
  assert (Hne : d ≠ next_ref h) by (apply (wf_refs h Hwf) in Hm; lia).
  unfold nexusOperation_cancel, mbind at 1, go_bind at 1. rewrite (run_deref d m), Hs by done.
  rewrite bool_decide_false by auto. rewrite bool_decide_false by done. cbn [orb].
  unfold newRequestCancelNexusOperationStateMachine, newCommandStateMachineBase.
  unfold mbind, go_bind at 1. rewrite alloc_spec. unfold go_bind at 1.
  rewrite update_fresh_spec. set (mc := m_set_eventGroupMarkers _ _).
  unfold go_bind at 1. rewrite (run_update d m) by (simpl; by rewrite lookup_insert_ne).
  rewrite with_machine_set_machine by done. set (m' := nexusOperation_setCancelation _ m).
  unfold go_bind at 1.
  pose proof (addCommand_fresh_spec mc (set_machine d m' h) Hfree) as Hadd; simpl in Hadd.
  rewrite Hadd. set (h1 := created mc (set_machine d m' h)). unfold go_bind.
  assert (Hs' : m_state m' = commandStateCreated)
    by (unfold m', nexusOperation_setCancelation; by rewrite Hk).
  assert (Hm' : machines h1 !! d = Some m')
    by (simpl; rewrite lookup_insert_ne by done; apply lookup_insert_eq).
  rewrite (run_getState d m') by done. rewrite decide_True by done.
  assert (Hmc : machines h1 !! next_ref h = Some mc) by (simpl; apply lookup_insert_eq).
  pose proof (refines_plain EvCompletion (next_ref h) mc h1 Hmc ltac:(done)) as Hr.
  unfold refines, deliver, handleCompletionEvent, mbind, go_bind in Hr.
  rewrite (run_deref _ mc) in Hr by done. cbn in Hr. rewrite Hr. clear Hr.
  eexists. split; [reflexivity|].
  change (move_result _ _ _ _ _) with
    (move_result (next_ref h) mc commandStateCompleted eventCompletion h1).
  rewrite move_result_completed.
  assert (Hi : commands (set_machine (next_ref h) (moved commandStateCompleted eventCompletion mc) h1)
               !! m_id mc = Some (mkElement (next_elem h) (next_ref h)))
    by (simpl; apply lookup_insert_eq).
  split_and!.
  - rewrite without_machines. simpl. rewrite lookup_insert_ne by done.
    rewrite lookup_insert_ne by done. apply lookup_insert_eq.
  - intros d' ??. rewrite without_machines. simpl. by rewrite !lookup_insert_ne.
  - unfold without. rewrite Hi. simpl. unfold list_remove.
    rewrite filter_app, filter_cons, decide_False, app_nil_r by auto.
    apply list_remove_not_in. intros (e & Heq & Hin)%list_elem_of_fmap; simpl in Heq.
    apply (wf_elems h Hwf) in Hin. lia.
  - rewrite without_commands. simpl. apply delete_insert_id. exact Hfree.
  - unfold without. by rewrite Hi.
  - by rewrite without_next.
Qed.

(** Withdrawing the command of one machine. *)
Lemma pending_withdrawn d e m m' h h' :
  helper_wf h → e ∈ orderedCommands h → elem_value e = d →
  machines h !! d = Some m → machines h' !! d = Some m' →
  offers m = true → offers m' = false →
  (∀ d', d' ≠ d → d' ≠ next_ref h → machines h' !! d' = machines h !! d') →
  orderedCommands h' = orderedCommands h →
  length (pending_commands h) = S (length (pending_commands h')).
Proof.
  intros Hwf He Hd Hm Hm' Ho Ho' Hother Hord. unfold pending_commands. rewrite Hord.
  assert (Hother' : ∀ e', e' ∈ orderedCommands h → elem_value e' ≠ d →
            has_command h' e' = has_command h e').
  { intros e' Hin Hne. unfold has_command. rewrite Hother; [done|done|].
    by apply wf_fresh. }
  destruct (wf_split h Hwf e He) as (pre & rest & Heq & Hne). rewrite Hd in Hne.
  rewrite Heq in Hother' |- *.
  rewrite !length_pending_of, !filter_app, !filter_cons.
  assert (has_command h e = true) as -> by (unfold has_command; rewrite Hd, Hm; exact Ho).
  assert (has_command h' e = false) as -> by (unfold has_command; rewrite Hd, Hm'; exact Ho').
  rewrite (filter_bool_ext (has_command h') (has_command h) pre),
    (filter_bool_ext (has_command h') (has_command h) rest)
    by (intros; apply Hother'; [set_solver|apply Hne; set_solver]).
  simpl. rewrite !length_app. simpl. lia.
Qed.

(** ** Claims *)

(** C1. In every state the helper can reach, by any sequence of operations and
    whether or not they panicked, the map and the ordered list index the same
    machines, each once, under its own identifier; indexed machines are not
    completed; and all pointers held by the helper are valid and of the right
    type. *)
Theorem reachable_invariant hes ets h : reachable hes ets h → helper_wf h.
Proof. apply reachable_wf. Qed.

Lemma reachable_invariant_witness :
  let h := run_ops noEvent noType (OpSetCurrentWorkflowTaskStartedEventID 3 :: exampleOps)
             newCommandsHelper in
  helper_wf h ∧ length (orderedCommands h) = 3%nat.
Proof.
  split; [|vm_compute; reflexivity].
  apply (reachable_invariant noEvent noType), reachable_run_ops, reachable_new.
Defined.

(** No operation other than the two handlers of Nexus cancel events fails
    with a Go runtime error (nil dereference or failed type assertion) in a
    reachable state: the failures are the SDK's own panics. *)
Theorem operations_memory_safe hes ets op h msg :
  reachable hes ets h → uses_cancelation op = false →
  result (run_op hes ets op) h ≠ Panicked (runtimeError msg).
Proof.
  intros Hr Hu. pose proof (run_op_hoare hes ets op h (reachable_wf _ _ _ Hr) I) as Hw.
  rewrite Hu in Hw. unfold wp in Hw. unfold result.
  destruct (run_op hes ets op h) as [[[]|p] h']; [done|]. simpl. intros [= ->].
  by destruct Hw as (_ & _ & ?).
Qed.

Lemma operations_memory_safe_witness :
  result (run_op noEvent noType (OpHandleTimerClosed "1")) newCommandsHelper
    ≠ Panicked (runtimeError "invalid memory address or nil pointer dereference").
Proof.
  apply (operations_memory_safe noEvent noType); [constructor|reflexivity].
Defined.

(** The handler of a Nexus cancel-requested event fails with a nil
    dereference exactly when the operation it belongs to was never cancelled
    by the workflow code. *)
Theorem nexus_cancel_event_nil i seq e m h :
  helper_wf h → scheduledEventIDToNexusSeq h !! i = Some seq →
  commands h !! makeCommandID commandTypeNexusOperation (FormatInt seq) = Some e →
  machines h !! elem_value e = Some m →
  (∃ msg, result (handleNexusOperationCancelRequested i) h = Panicked (runtimeError msg)) ↔
  nexus_cancelation m = None.
Proof.
  intros Hwf Hi He Hm. apply (wf_index h Hwf) in He as Hp.
  destruct Hp as (_ & m0 & Hm0 & Hid). rewrite Hm in Hm0. injection Hm0 as <-.
  destruct (typed_nexus m) as (q & ev & a & c & md & Hk);
    [by eapply wf_kind|by rewrite Hid|].
  unfold result, handleNexusOperationCancelRequested, getNexusSeq, getNexusOperationCommand,
    getCancelation.
  unfold mbind, go_bind, get. rewrite Hi. cbn. rewrite (run_getCommand _ e) by done.
  unfold mbind, go_bind. rewrite (run_deref _ m), Hk by done.
  unfold nexus_cancelation. rewrite Hk. destruct c as [c|]; simpl; [|naive_solver].
  split; [|done]. intros [msg Hmsg]. exfalso.
  assert (Hc : typed c commandTypeRequestCancelNexusOperation h)
    by (eapply (wf_cancelation h Hwf); [done|unfold nexus_cancelation; by rewrite Hk]).
  destruct Hc as (mc & Hmc & _).
  pose proof (safe_handleInitiatedEvent c h Hwf ltac:(by exists mc)) as Hw.
  unfold wp in Hw. destruct (handleInitiatedEvent c h) as [[[]|p] h']; simpl in Hmsg; [done|].
  injection Hmsg as ->. by destruct Hw as (_ & _ & ?).
Qed.

Definition exampleNexus : ScheduleNexusOperationCommandAttributes :=
  mkScheduleNexusOperation "endpoint" "service" "operation" None 0 0 0 ∅.

Definition nexusScheduled (id : Z) : HistoryEvent :=
  mkHistoryEvent id EVENT_TYPE_NEXUS_OPERATION_SCHEDULED
    (NexusOperationScheduledEventAttributes "service" "operation") 0 false.

Definition nexusRun : list operation :=
  [OpSetCurrentWorkflowTaskStartedEventID 3; OpScheduleNexusOperation 1 exampleNexus None [];
   OpGetCommands true; OpHandleNexusOperationScheduled (nexusScheduled 5)].

Lemma nexus_cancel_event_nil_witness :
  ∃ msg, result (handleNexusOperationCancelRequested 5)
           (run_ops noEvent noType nexusRun newCommandsHelper) = Panicked (runtimeError msg).
Proof.
  set (h := run_ops noEvent noType nexusRun newCommandsHelper).
  assert (Hwf : helper_wf h)
    by (apply (reachable_wf noEvent noType), reachable_run_ops, reachable_new).
  destruct (machines h !! 0%nat) as [m|] eqn:Hm; [|vm_compute in Hm; discriminate Hm].
  apply (nexus_cancel_event_nil 5 1 (mkElement 1 0) m h);
    [exact Hwf|vm_compute; reflexivity|vm_compute; reflexivity|exact Hm|].
  vm_compute in Hm. injection Hm as <-. reflexivity.
Defined.

(** C2. [getCommands] terminates and returns exactly the commands of the
    machines that offer one, in the order of the list; without [markAsSent] it
    changes nothing, with it every indexed machine is marked as sent, the ones
    that complete on sending leave the list, and the numbering is unchanged. *)
Theorem getCommands_exact b h :
  helper_wf h →
  ∃ h', getCommands b h = (Returned (pending_commands h), h') ∧
    helper_wf h' ∧ nextCommandEventID h' = nextCommandEventID h ∧
    (b = false → h' = h) ∧
    (b = true →
       orderedCommands h' = filter (λ e, Is_true (stays h e)) (orderedCommands h) ∧
       ∀ d, machines h' !! d =
         if bool_decide (d ∈ elem_value <$> orderedCommands h)
         then sent <$> machines h !! d else machines h !! d).
Proof.
  intros Hwf. destruct (getCommands_spec b h Hwf) as (h' & ? & ? & _ & ? & ? & Ho & Hm).
  exists h'. split_and!; auto.
Qed.

Lemma getCommands_exact_witness :
  let h := final (setCurrentWorkflowTaskStartedEventID 3) newCommandsHelper in
  let h1 := run_ops noEvent noType exampleOps h in
  result (getCommands true) h1 = Returned (pending_commands h1) ∧
  length (pending_commands h1) = 3%nat.
Proof.
  intros h h1. split; [|vm_compute; reflexivity].
  assert (Hwf : helper_wf h1)
    by (apply (reachable_wf noEvent noType), reachable_run_ops,
          (reachable_step _ _ _ (OpSetCurrentWorkflowTaskStartedEventID 3)), reachable_new).
  destruct (getCommands_exact true h1 Hwf) as (h' & Hg & _). unfold result. by rewrite Hg.
Defined.

(** A command is sent once: after [getCommands(true)] the only commands
    still offered are those of activities and timers that were cancelled
    before they were sent, which keep their place in the list. *)
Theorem commands_sent_once h :
  helper_wf h →
  pending_commands (final (getCommands true) h) =
    omap (λ e, m ← machines h !! elem_value e;
               if decide (m_state m = commandStateCanceledBeforeSent)
               then machine_getCommand m else None) (orderedCommands h) ∧
  ∀ e m, e ∈ orderedCommands h → machines h !! elem_value e = Some m →
    m_state m = commandStateCanceledBeforeSent → machine_getCommand m ≠ None →
    family_of m = FActivity ∨ family_of m = FTimer.
Proof.
  intros Hwf. split; [by apply pending_after_send|]. intros e m _ _ Hs Hg.
  unfold machine_getCommand, family_of, childWorkflow_getCommand, cancelActivity_getCommand,
    cancelTimer_getCommand, naive_getCommand, nexusOperation_getCommand,
    requestCancelNexusOperation_getCommand in *.
  rewrite Hs in Hg. destruct (m_kind m); auto; done.
Qed.

Lemma commands_sent_once_witness :
  let h := run_ops noEvent noType
             [OpSetCurrentWorkflowTaskStartedEventID 3;
              OpScheduleActivityTask 5 (exampleActivity "5") None []] newCommandsHelper in
  length (pending_commands h) = 1%nat ∧ pending_commands (final (getCommands true) h) = [].
Proof.
  intros h. split; [vm_compute; reflexivity|].
  assert (Hwf : helper_wf h)
    by (apply (reachable_wf noEvent noType), reachable_run_ops, reachable_new).
  destruct (commands_sent_once h Hwf) as [Hp _]. rewrite Hp. vm_compute. reflexivity.
Defined.

(** A fired timer leaves no trace: closing an initiated timer completes it
    and removes from the index, besides the timer itself, the command that
    would cancel it if that was still waiting to be sent; everything else and
    the numbering stay. *)
Theorem timer_closed_leaves_no_trace t e m h :
  helper_wf h → commands h !! makeCommandID commandTypeTimer t = Some e →
  machines h !! elem_value e = Some m → closable (m_state m) = true →
  ∃ h', handleTimerClosed t h = (Returned (elem_value e), h') ∧
    resolved (makeCommandID commandTypeTimer t) (makeCommandID commandTypeCancelTimer t) e h h'.
Proof.
  intros Hwf He Hm Hs. apply (wf_index h Hwf) in He as Hp.
  destruct Hp as (_ & m0 & Hm0 & Hid). rewrite Hm in Hm0. injection Hm0 as <-.
  destruct (typed_timer m) as (a & md & Hk); [by eapply wf_kind|by rewrite Hid|].
  destruct (resolve_spec (makeCommandID commandTypeTimer t)
    (makeCommandID commandTypeCancelTimer t) e m h) as (h' & Hrun & Hres & _); try done;
    [right; unfold family_of; by rewrite Hk|by apply wf_without; [left|]|].
  exists h'. split; [|done]. unfold handleTimerClosed, mbind, go_bind.
  rewrite (run_getCommand _ e), run_removeCancel by auto. by rewrite Hrun.
Qed.

(** A converter that encodes nothing. *)
Definition noConverter : DataConverter :=
  mkDataConverter (λ _, inl "no") (λ _, inl "no") (λ _ _, inl "no") (λ _ _, inl "no").

Lemma timer_closed_leaves_no_trace_witness :
  let h := run_ops noEvent noType
             [OpSetCurrentWorkflowTaskStartedEventID 3;
              OpStartTimer (mkStartTimer "1" 1000) "" noConverter [];
              OpGetCommands true; OpHandleTimerStarted "1"; OpCancelTimer "1"]
             newCommandsHelper in
  length (pending_commands h) = 1%nat ∧
  ∃ h', handleTimerClosed "1" h = (Returned 0%nat, h') ∧
        commands h' !! makeCommandID commandTypeCancelTimer "1" = None.
Proof.
  intros h. split; [vm_compute; reflexivity|].
  assert (Hwf : helper_wf h)
    by (apply (reachable_wf noEvent noType), reachable_run_ops, reachable_new).
  destruct (machines h !! 0%nat) as [m|] eqn:Hm; [|vm_compute in Hm; discriminate Hm].
  destruct (timer_closed_leaves_no_trace "1" (mkElement 0 0) m h) as (h' & Hrun & Hc & _);
    [exact Hwf|vm_compute; reflexivity|exact Hm|
     vm_compute in Hm; injection Hm as <-; reflexivity|].
  exists h'. split; [exact Hrun|]. rewrite Hc. rewrite lookup_delete_ne by done.
  apply lookup_delete_eq.
Defined.

(** A closed activity leaves no trace: besides completing and removing the
    activity and its pending cancel request, closing it forgets the link from
    its scheduled event. *)
Theorem activity_closed_leaves_no_trace a i e m h :
  helper_wf h → commands h !! makeCommandID commandTypeActivity a = Some e →
  machines h !! elem_value e = Some m → closable (m_state m) = true →
  ∃ h', handleActivityTaskClosed a i h = (Returned (elem_value e), h') ∧
    resolved (makeCommandID commandTypeActivity a)
      (makeCommandID commandTypeRequestCancelActivityTask (FormatInt i)) e h h' ∧
    scheduledEventIDToActivityID h' = delete i (scheduledEventIDToActivityID h).
Proof.
  intros Hwf He Hm Hs. apply (wf_index h Hwf) in He as Hp.
  destruct Hp as (_ & m0 & Hm0 & Hid). rewrite Hm in Hm0. injection Hm0 as <-.
  destruct (typed_activity m) as (n & at' & md & Hk); [by eapply wf_kind|by rewrite Hid|].
  destruct (resolve_spec (makeCommandID commandTypeActivity a)
    (makeCommandID commandTypeRequestCancelActivityTask (FormatInt i)) e m h)
    as (h' & Hrun & Hres & Hev); try done;
    [left; unfold family_of; by rewrite Hk|by apply wf_without; [right|]|].
  eexists. split_and!.
  - unfold handleActivityTaskClosed, mbind, go_bind.
    rewrite (run_getCommand _ e), run_removeCancel by auto. rewrite Hrun. reflexivity.
  - exact Hres.
  - simpl. by rewrite Hev.
Qed.

Lemma activity_closed_leaves_no_trace_witness :
  let h := run_ops noEvent noType
             [OpSetCurrentWorkflowTaskStartedEventID 3;
              OpScheduleActivityTask 5 (exampleActivity "5") None [];
              OpGetCommands true; OpHandleActivityTaskScheduled "5" 5;
              OpRequestCancelActivityTask "5"] newCommandsHelper in
  length (pending_commands h) = 1%nat ∧
  ∃ h', handleActivityTaskClosed "5" 5 h = (Returned 0%nat, h') ∧
        scheduledEventIDToActivityID h' = ∅.
Proof.
  intros h. split; [vm_compute; reflexivity|].
  assert (Hwf : helper_wf h)
    by (apply (reachable_wf noEvent noType), reachable_run_ops, reachable_new).
  destruct (machines h !! 0%nat) as [m|] eqn:Hm; [|vm_compute in Hm; discriminate Hm].
  destruct (activity_closed_leaves_no_trace "5" 5 (mkElement 0 0) m h) as (h' & Hrun & _ & Hev);
    [exact Hwf|vm_compute; reflexivity|exact Hm|
     vm_compute in Hm; injection Hm as <-; reflexivity|].
  exists h'. split; [exact Hrun|]. rewrite Hev. vm_compute. reflexivity.
Defined.

(** Starting a child workflow under the identifier of a live one returns
    the error [childWorkflowExistsWithId] and leaves the index and the event
    numbering as they were; under a free identifier it succeeds and the child
    is found under its identifier. *)
Theorem startChildWorkflowExecution_unique a md g h :
  helper_wf h →
  let id := makeCommandID commandTypeChildWorkflow (scw_WorkflowId a) in
  let h' := final (startChildWorkflowExecution a md g) h in
  match commands h !! id with
  | Some _ =>
      result (startChildWorkflowExecution a md g) h =
        Returned (inl (mkChildWorkflowExistsWithId (scw_WorkflowId a))) ∧
      commands h' = commands h ∧ orderedCommands h' = orderedCommands h ∧
      nextCommandEventID h' = nextCommandEventID h ∧
      pending_commands h' = pending_commands h
  | None =>
      result (startChildWorkflowExecution a md g) h = Returned (inr (next_ref h)) ∧
      result (getCommand id) h' = Returned (next_ref h) ∧
      ∃ c, pending_commands h' = pending_commands h ++ [c] ∧
           Command_Attributes c =
             Some (Command_StartChildWorkflowExecutionCommandAttributes a)
  end.
Proof.
  intros Hwf id h'. unfold h', result, final. rewrite run_startChildWorkflowExecution.
  fold id. destruct (commands h !! id) as [e|] eqn:He; cbn [fst snd].
  - split_and!; try done. by apply pending_with_machine, wf_fresh.
  - split_and!; [done| |].
    + unfold getCommand, mbind, go_bind, get. simpl. by rewrite lookup_insert_eq.
    + eexists. rewrite pending_created by by apply wf_fresh. by split.
Qed.

Definition exampleChild : StartChildWorkflowExecutionCommandAttributes :=
  mkStartChildWorkflow "namespace" "child" "type" None "queue" 0 0 0 0 0 None None ∅ None None None "" true.

Lemma startChildWorkflowExecution_unique_witness :
  result (startChildWorkflowExecution exampleChild None [])
    newCommandsHelper = Returned (inr 0%nat).
Proof.
  exact (proj1 (startChildWorkflowExecution_unique exampleChild
    None [] newCommandsHelper newCommandsHelper_wf)).
Defined.

(** Cancelling a Nexus operation before it is sent withdraws its command
    but neither takes it off the list of operations that wait for a scheduled
    event nor lowers the event counter: the operation stays in the list, and
    the counter, exact before, is two past the number of pending commands. *)
Theorem nexus_cancel_unsent s seq ev a md e m h :
  helper_wf h → counted s h →
  commands h !! makeCommandID commandTypeNexusOperation (FormatInt seq) = Some e →
  machines h !! elem_value e = Some m → m_state m = commandStateCreated →
  m_kind m = nexusOperationStateMachine seq ev a None md →
  commands h !! makeCommandID commandTypeRequestCancelNexusOperation (FormatInt ev) = None →
  ∃ h', requestCancelNexusOperation seq h = (Returned (elem_value e), h') ∧
    length (pending_commands h) = S (length (pending_commands h')) ∧
    nexusOperationsWithoutScheduledID h' = nexusOperationsWithoutScheduledID h ∧
    nextCommandEventID h' =
      wrap64 (s + 2 + Z.of_nat (length (pending_commands h')) + 2).
Proof.
  intros Hwf [Hv Hn] He Hm Hs Hk Hfree.
  destruct (run_nexusOperation_cancel_unsent (elem_value e) m seq ev a md h)
    as (h' & Hrun & Hm' & Hother & Hord & _ & Hnex & Hnext); try done.
  assert (Hcan : cancel (elem_value e) h = (Returned tt, h'))
    by (by rewrite (run_cancel _ m), Hk).
  assert (Hin : e ∈ orderedCommands h) by (apply (wf_index h Hwf) in He; tauto).
  assert (Hlen : length (pending_commands h) = S (length (pending_commands h'))).
  { eapply (pending_withdrawn (elem_value e) e m _ h h'); try done;
      unfold offers, machine_getCommand, nexusOperation_setCancelation; rewrite Hk; simpl;
      unfold nexusOperation_getCommand; simpl; by rewrite Hs. }
  exists h'. split_and!; [|done|done|].
  - unfold requestCancelNexusOperation, getNexusOperationCommand, mbind, go_bind.
    rewrite (run_getCommand _ e) by done. rewrite Hcan.
    erewrite (run_getState _ _ h') by exact Hm'.
    unfold nexusOperation_setCancelation. rewrite Hk; simpl. by rewrite Hs.
  - rewrite Hnext. unfold bump; simpl. rewrite Hv, versionMarkerLoop_empty; simpl.
    rewrite Hn, Hlen, wrap64_add_l. f_equal. lia.
Qed.

Lemma nexus_cancel_unsent_witness :
  let h := run_ops noEvent noType
             [OpSetCurrentWorkflowTaskStartedEventID 3;
              OpScheduleNexusOperation 1 exampleNexus None []] newCommandsHelper in
  ∃ h', requestCancelNexusOperation 1 h = (Returned 0%nat, h') ∧
        nexusOperationsWithoutScheduledID h' = [mkElement 0 0].
Proof.
  intros h.
  destruct (run_ops_counted noEvent noType [OpScheduleNexusOperation 1 exampleNexus None []] 3
    (final (setCurrentWorkflowTaskStartedEventID 3) newCommandsHelper)) as [Hwf Hc];
    [vm_compute; reflexivity|destruct newCommandsHelper_wf; by split|by apply counted_start|].
  destruct (machines h !! 0%nat) as [m|] eqn:Hm; [|vm_compute in Hm; discriminate Hm].
  destruct (nexus_cancel_unsent 3 1 0 exampleNexus None (mkElement 1 0) m h)
    as (h' & Hrun & _ & Hl & _);
    [exact Hwf|exact Hc|vm_compute; reflexivity|exact Hm|
     vm_compute in Hm; injection Hm as <-; reflexivity|
     vm_compute in Hm; injection Hm as <-; reflexivity|vm_compute; reflexivity|].
  exists h'. split; [exact Hrun|]. rewrite Hl. vm_compute. reflexivity.
Defined.

(** Workflow code starts operation 1, cancels it, starts operation 2 and
    schedules an activity in one workflow task. *)
Definition cancelledRun : list operation :=
  [OpSetCurrentWorkflowTaskStartedEventID 3;
   OpScheduleNexusOperation 1 exampleNexus None [];
   OpRequestCancelNexusOperation 1;
   OpScheduleNexusOperation 2 exampleNexus None []].

(** The scheduled event of another operation is then given to the cancelled
    one: only operation 2 is sent, but its scheduled event, number 5, is
    recorded for operation 1, so that the completion of operation 2 completes
    operation 1 and leaves operation 2 open; and an activity scheduled in the
    same task expects event 8 while its command produces event 6. *)
Theorem nexus_scheduled_event_misassigned :
  let h := run_ops noEvent noType cancelledRun newCommandsHelper in
  let h1 := run_ops noEvent noType
              [OpGetCommands true; OpHandleNexusOperationScheduled (nexusScheduled 5);
               OpHandleNexusOperationCompleted 5] h in
  length (pending_commands h) = 1%nat ∧
  scheduledEventIDToNexusSeq
    (run_ops noEvent noType
       [OpGetCommands true; OpHandleNexusOperationScheduled (nexusScheduled 5)] h) !! 5 = Some 1 ∧
  commands h1 !! makeCommandID commandTypeNexusOperation "1" = None ∧
  result (getCommand (makeCommandID commandTypeNexusOperation "2")) h1 = Returned 2%nat ∧
  result getNextID h = Returned 8.
Proof. vm_compute. by split_and!. Qed.
