(* ===== verification/CommandData.v ===== *)
(** * The data attached to commands.

    The environment attaches a [scheduled*] struct to every command of a type
    whose outcome a callback waits for, and reads it back with a type
    assertion.  Here: which commands an operation of the helper adds to the
    index, and which command it returns. *)

From stdpp Require Import base list gmap strings.
From S2P Require Import Prelude Proto CommandMachine CommandsHelper CommandInvariant CommandSend CommandReachable CommandEventIDs CommandLifecycle.
Open Scope Z_scope.

(** The command types that carry data. *)
Definition dataType (t : commandType) : bool :=
  match t with
  | commandTypeActivity | commandTypeChildWorkflow | commandTypeCancellation
  | commandTypeTimer | commandTypeSignal | commandTypeNexusOperation => true
  | _ => false
  end.

Definition carriesData (id : commandID) : bool := dataType (commandID_commandType id).

(** The data of the machine at [d]. *)
Definition dataAt (h : commandsHelper) (d : ref) : option machineData :=
  machines h !! d ≫= m_data.

Lemma extends_dataAt h h' d : extends h h' → dataAt h' d = dataAt h d.
Proof.
  intros He. unfold dataAt. destruct (machines h !! d) as [m|] eqn:Hm; simpl.
  - destruct (extends_old _ _ He d m Hm) as (m' & -> & _ & Hd). exact Hd.
  - destruct (machines h' !! d) as [m'|] eqn:Hm'; simpl; [|done]. by eapply extends_new.
Qed.

(** ** Operations that index no new command with data *)

Definition quiet_rel (h h' : commandsHelper) : Prop :=
  ∀ id e', commands h' !! id = Some e' → carriesData id = true →
    ∃ e, commands h !! id = Some e ∧ elem_value e = elem_value e'.

#[export] Instance quiet_rel_refl : Reflexive quiet_rel.
Proof. intros h id e He _. eauto. Qed.

#[export] Instance quiet_rel_trans : Transitive quiet_rel.
Proof.
  intros h1 h2 h3 H12 H23 id e3 He3 Hd. destruct (H23 id e3 He3 Hd) as (e2 & He2 & E2).
  destruct (H12 id e2 He2 Hd) as (e1 & ? & ?). exists e1. split; congruence.
Qed.

Lemma quiet_rel_same h h' : commands h' = commands h → quiet_rel h h'.
Proof. intros Heq id e'. rewrite Heq. eauto. Qed.

Lemma quiet_rel_delete h h' id : commands h' = delete id (commands h) → quiet_rel h h'.
Proof. intros Heq id' e'. rewrite Heq, lookup_delete_Some. intros [_ ?]. eauto. Qed.

Lemma quiet_rel_insert h h' id e :
  carriesData id = false → commands h' = <[id := e]> (commands h) → quiet_rel h h'.
Proof.
  intros Hid Heq id' e'. rewrite Heq, lookup_insert_Some. intros [[<- _]|[_ ?]]; [congruence|eauto].
Qed.

(** A triple: from [P], the operation is quiet and a result satisfies [Q]. *)
Definition qh {A} (P : commandsHelper → Prop) (m : M A) (Q : A → commandsHelper → Prop) : Prop :=
  ∀ h, P h → wp m (λ a h', quiet_rel h h' ∧ Q a h') (λ _ h', quiet_rel h h') h.

Abbreviation quiet m := (qh (λ _, True) m (λ _ _, True)).

Lemma qh_final {A} P (m : M A) Q h : qh P m Q → P h → quiet_rel h (final m h).
Proof.
  intros Hm HP. specialize (Hm h HP). unfold wp, final in *. destruct (m h) as [[] ?]; naive_solver.
Qed.

Create HintDb quiet discriminated.

Lemma qh_ret {A} P (a : A) (Q : A → commandsHelper → Prop) : (∀ h, P h → Q a h) → qh P (mret a) Q.
Proof. intros HQ h HP. rewrite wp_ret. split; [reflexivity|auto]. Qed.
Lemma qh_panic {A} P p (Q : A → commandsHelper → Prop) : qh P (panic p) Q.
Proof. intros h HP. rewrite wp_panic. reflexivity. Qed.

Lemma qh_bind {A B} P (m : M A) (f : A → M B) Q R :
  qh P m Q → (∀ a, qh (Q a) (f a) R) → qh P (m ≫= f) R.
Proof.
  intros Hm Hf h HP. rewrite wp_bind. eapply wp_mono; [by apply Hm| |done].
  intros a h1 [Hq HQ]. simpl.
  eapply wp_mono; [by apply (Hf a h1)| |]; [intros b h2 [? ?]; split; [by etrans|done]|].
  intros p h2 ?. by etrans.
Qed.

Lemma qh_conseq {A} (P P' : commandsHelper → Prop) (m : M A) (Q Q' : A → commandsHelper → Prop) :
  qh P m Q → (∀ h, P' h → P h) → (∀ a h, Q a h → Q' a h) → qh P' m Q'.
Proof. intros Hm HP HQ h HP'. eapply wp_mono; [by apply Hm, HP| |done]. naive_solver. Qed.

Lemma quiet_any {A} P (m : M A) : quiet m → qh P m (λ _ _, True).
Proof. intros Hm. by eapply qh_conseq. Qed.

Lemma quiet_bind {A B} (m : M A) (f : A → M B) : quiet m → (∀ a, quiet (f a)) → quiet (m ≫= f).
Proof. intros Hm Hf. by eapply qh_bind. Qed.

Lemma quiet_get : quiet get.
Proof. intros h _. rewrite wp_get. split; [reflexivity|done]. Qed.

Lemma quiet_modify f :
  (∀ h, commands (f h) = commands h ∨ ∃ id, commands (f h) = delete id (commands h)) →
  quiet (modify f).
Proof.
  intros Hf h _. rewrite wp_modify. split; [|done].
  destruct (Hf h) as [?|[id ?]]; [by apply quiet_rel_same|by eapply quiet_rel_delete].
Qed.

Lemma quiet_deref d : quiet (deref d).
Proof.
  intros h _. unfold deref. wp_unfold. destruct (machines h !! d); wp_unfold;
    repeat split; reflexivity.
Qed.

Lemma quiet_update d f : quiet (update d f).
Proof. apply quiet_bind; [apply quiet_deref|]. intros m. apply quiet_modify. by left. Qed.

#[export] Hint Extern 1 (qh _ (mret _) _) => (by apply qh_ret) : quiet.
#[export] Hint Extern 1 (qh _ (panic _) _) => (apply qh_panic) : quiet.
#[export] Hint Extern 1 (qh _ (panicIllegalState _) _) => (apply qh_panic) : quiet.
#[export] Hint Extern 1 (qh _ unsupportedOperation _) => (apply qh_panic) : quiet.
#[export] Hint Extern 1 (qh _ (modify _) _) =>
  (apply quiet_modify; intros ?; first [by left | right; eexists; reflexivity]) : quiet.
#[export] Hint Resolve quiet_get quiet_deref quiet_update : quiet.

(** Follows the structure of an operation. *)
Ltac quiet_steps :=
  repeat first
    [ solve [eauto 2 with quiet]
    | apply quiet_bind; [|intros ?]
    | progress cbv zeta
    | match goal with
      | |- qh _ (if decide ?P then _ else _) _ => destruct (decide P)
      | |- qh _ (if ?b then _ else _) _ => destruct b
      | |- qh _ (match ?x with _ => _ end) _ => destruct x
      end ].

Lemma quiet_getState d : quiet (getState d). Proof. unfold getState. quiet_steps. Qed.
Lemma quiet_getID d : quiet (getID d). Proof. unfold getID. quiet_steps. Qed.
#[export] Hint Resolve quiet_getState quiet_getID : quiet.

Lemma quiet_failStateTransition {A} d ev : quiet (failStateTransition (A:=A) d ev).
Proof. unfold failStateTransition. quiet_steps. Qed.
#[export] Hint Resolve quiet_failStateTransition : quiet.

Lemma quiet_moveState d s ev : quiet (moveState d s ev).
Proof. unfold moveState. quiet_steps. Qed.
#[export] Hint Resolve quiet_moveState : quiet.

Lemma quiet_incrementNextCommandEventID : quiet incrementNextCommandEventID.
Proof. unfold incrementNextCommandEventID. quiet_steps. Qed.
Lemma quiet_incrementIfVersionMarker : quiet incrementNextCommandEventIDIfVersionMarker.
Proof. unfold incrementNextCommandEventIDIfVersionMarker. quiet_steps. Qed.
#[export] Hint Resolve quiet_incrementNextCommandEventID quiet_incrementIfVersionMarker : quiet.

Lemma quiet_getNextID : quiet getNextID.
Proof. unfold getNextID. quiet_steps. Qed.
Lemma quiet_removeCancelOfResolvedCommand id : quiet (removeCancelOfResolvedCommand id).
Proof. unfold removeCancelOfResolvedCommand. quiet_steps. Qed.
Lemma quiet_getCommand id : quiet (getCommand id).
Proof. unfold getCommand. quiet_steps. Qed.
Lemma quiet_must {A} (r : string + A) : quiet (must r).
Proof. unfold must. quiet_steps. Qed.
Lemma quiet_new_element d : quiet (new_element d).
Proof. unfold new_element. quiet_steps. Qed.
#[export] Hint Resolve quiet_getNextID quiet_removeCancelOfResolvedCommand quiet_getCommand
  @quiet_must quiet_new_element : quiet.

(** ** The methods of machines *)

Ltac quiet_method :=
  intros; unfold handleCommandSent, handleInitiatedEvent, handleInitiationFailedEvent,
    handleStartedEvent, handleCompletionEvent, handleCancelInitiatedEvent,
    handleCancelFailedEvent, handleCanceledEvent,
    childWorkflow_handleInitiatedEvent, cancelExternalWorkflow_handleInitiatedEvent,
    signalExternalWorkflow_handleInitiatedEvent,
    requestCancelNexusOperation_handleInitiatedEvent, childWorkflow_handleStartedEvent,
    nexusOperation_handleStartedEvent, childWorkflow_handleCompletionEvent,
    cancelExternalWorkflow_handleCompletionEvent,
    signalExternalWorkflow_handleCompletionEvent, nexusOperation_handleCompletionEvent,
    requestCancelNexusOperation_handleCompletionEvent, activity_handleCancelFailedEvent,
    childWorkflow_handleCancelFailedEvent, childWorkflow_handleCanceledEvent,
    activity_handleCommandSent, timer_handleCommandSent, childWorkflow_handleCommandSent,
    marker_handleCommandSent, completeOnSend_handleCommandSent,
    modifyProperties_handleCommandSent,
    base_handleInitiatedEvent, base_handleInitiationFailedEvent,
    base_handleStartedEvent, base_handleCompletionEvent, base_handleCancelInitiatedEvent,
    base_handleCancelFailedEvent, base_handleCanceledEvent, base_handleCommandSent;
  quiet_steps.

Lemma quiet_handleCommandSent d : quiet (handleCommandSent d). Proof. quiet_method. Qed.
Lemma quiet_handleInitiatedEvent d : quiet (handleInitiatedEvent d). Proof. quiet_method. Qed.
Lemma quiet_handleInitiationFailedEvent d : quiet (handleInitiationFailedEvent d).
Proof. quiet_method. Qed.
Lemma quiet_handleStartedEvent d : quiet (handleStartedEvent d). Proof. quiet_method. Qed.
Lemma quiet_handleCompletionEvent d : quiet (handleCompletionEvent d). Proof. quiet_method. Qed.
Lemma quiet_handleCancelInitiatedEvent d : quiet (handleCancelInitiatedEvent d).
Proof. quiet_method. Qed.
Lemma quiet_handleCancelFailedEvent d : quiet (handleCancelFailedEvent d).
Proof. quiet_method. Qed.
Lemma quiet_handleCanceledEvent d : quiet (handleCanceledEvent d). Proof. quiet_method. Qed.
Lemma quiet_externalCancelRequested d :
  quiet (childWorkflow_handleExternalWorkflowExecutionCancelRequested d).
Proof. unfold childWorkflow_handleExternalWorkflowExecutionCancelRequested. quiet_method. Qed.
Lemma quiet_base_cancel d : quiet (base_cancel d).
Proof. unfold base_cancel. quiet_steps. Qed.
#[export] Hint Resolve quiet_handleCommandSent quiet_handleInitiatedEvent
  quiet_handleInitiationFailedEvent quiet_handleStartedEvent quiet_handleCompletionEvent
  quiet_handleCancelInitiatedEvent quiet_handleCancelFailedEvent quiet_handleCanceledEvent
  quiet_externalCancelRequested quiet_base_cancel : quiet.

(** ** Creating commands without data *)

(** The machine at [d], if any, has an identifier of a type without data. *)
Definition noDataAt (d : ref) (h : commandsHelper) : Prop :=
  ∀ m, machines h !! d = Some m → carriesData (m_id m) = false.

Lemma qh_alloc m :
  carriesData (m_id m) = false → qh (λ _, True) (alloc m) (λ d h, noDataAt d h).
Proof.
  intros Hm h _. unfold alloc. wp_unfold. split; [by apply quiet_rel_same|].
  intros m'. simpl. rewrite lookup_insert_eq. by intros [= <-].
Qed.

Lemma qh_update_noData c d f :
  (∀ m, m_id (f m) = m_id m) → qh (noDataAt c) (update d f) (λ _, noDataAt c).
Proof.
  intros Hf h Hc. unfold update, deref. wp_unfold. destruct (machines h !! d) as [m|] eqn:Hm; wp_unfold.
  - split; [by apply quiet_rel_same|]. intros m'. simpl. rewrite lookup_insert_Some.
    intros [[-> <-]|[_ ?]]; [rewrite Hf|]; by apply Hc.
  - reflexivity.
Qed.

Lemma qh_addCommand d : qh (noDataAt d) (addCommand d) (λ _ _, True).
Proof.
  intros h Hd. unfold addCommand, deref. wp_unfold.
  destruct (machines h !! d) as [m|] eqn:Hm; wp_unfold; [|reflexivity].
  destruct (commands h !! m_id m) eqn:Hc.
  - unfold panicIllegalState. wp_unfold. reflexivity.
  - wp_unfold. split; [|done]. eapply quiet_rel_insert; [by apply Hd|done].
Qed.

Lemma quiet_create {B} m f (k : ref → M B) :
  carriesData (m_id m) = false → (∀ m, m_id (f m) = m_id m) → (∀ d, quiet (k d)) →
  quiet (d ← alloc m; _ ← update d f; _ ← addCommand d; k d).
Proof.
  intros Hm Hf Hk. eapply qh_bind; [by apply qh_alloc|]. intros d.
  eapply qh_bind; [by apply qh_update_noData|]. intros ?.
  eapply qh_bind; [apply qh_addCommand|]. intros ?. apply Hk.
Qed.

Lemma quiet_create_plain {B} m (k : ref → M B) :
  carriesData (m_id m) = false → (∀ d, quiet (k d)) →
  quiet (d ← alloc m; _ ← addCommand d; k d).
Proof.
  intros Hm Hk. eapply qh_bind; [by apply qh_alloc|]. intros d.
  eapply qh_bind; [apply qh_addCommand|]. intros ?. apply Hk.
Qed.

#[export] Hint Extern 1 (qh _ (newCancelActivityStateMachine _ ≫= _) _) =>
  (apply quiet_create; [done|done|intros ?; quiet_steps]) : quiet.
#[export] Hint Extern 1 (qh _ (newMarkerCommandStateMachine _ _ _ _ ≫= _) _) =>
  (apply quiet_create_plain; [done|intros ?; quiet_steps]) : quiet.

#[export] Hint Extern 1 (qh _ (newUpsertSearchAttributesStateMachine _ _ _ ≫= _) _) =>
  (apply quiet_create_plain; [done|intros ?; quiet_steps]) : quiet.
#[export] Hint Extern 1 (qh _ (newModifyPropertiesStateMachine _ _ _ ≫= _) _) =>
  (apply quiet_create_plain; [done|intros ?; quiet_steps]) : quiet.
#[export] Hint Extern 1 (qh _ (newNaiveCommandStateMachine commandTypeProtocolMessage _ _ _ ≫= _) _) =>
  (apply quiet_create_plain; [done|intros ?; quiet_steps]) : quiet.

Lemma quiet_activity_cancel d i : quiet (activity_cancel d i).
Proof. unfold activity_cancel. quiet_steps. Qed.

Lemma quiet_timer_cancel d a : quiet (timer_cancel d a).
Proof.
  unfold timer_cancel. apply quiet_bind; [eauto with quiet|]. intros m.
  apply quiet_bind; [|intros ?; eauto with quiet].
  assert (quiet (cancelCmd ← newCancelTimerCommandStateMachine (mkCancelTimer (st_TimerId a));
    _ ← update cancelCmd (m_set_eventGroupMarkers (m_eventGroupMarkers m)); addCommand cancelCmd)).
  { eapply qh_bind; [by apply qh_alloc|]. intros c.
    eapply qh_bind; [by apply qh_update_noData|]. intros ?. apply qh_addCommand. }
  quiet_steps.
Qed.

Lemma quiet_nexusOperation_cancel d ev c : quiet (nexusOperation_cancel d ev c).
Proof.
  unfold nexusOperation_cancel. apply quiet_bind; [eauto with quiet|]. intros m.
  destruct (_ || _); [eauto with quiet|]. eapply qh_bind; [by apply qh_alloc|]. intros cc.
  eapply qh_bind; [by apply qh_update_noData|]. intros ?.
  eapply qh_bind.
  { apply qh_update_noData. intros m'. unfold nexusOperation_setCancelation.
    by destruct (m_kind m'). }
  intros ?. eapply qh_bind; [apply qh_addCommand|]. intros ?.
  unfold requestCancelNexusOperation_handleCompletionEvent. quiet_steps.
Qed.
#[export] Hint Resolve quiet_activity_cancel quiet_timer_cancel quiet_nexusOperation_cancel : quiet.

(** Cancelling a started child moves its command to the back of the list:
    quiet when the command is the one indexed. *)
Lemma qh_moveCommandToBack d :
  qh (λ h, ∃ m e, machines h !! d = Some m ∧ commands h !! m_id m = Some e ∧ elem_value e = d)
    (moveCommandToBack d) (λ _ _, True).
Proof.
  intros h (m & e & Hm & He & Hd). unfold moveCommandToBack, deref. wp_unfold.
  rewrite Hm. wp_unfold. rewrite He. wp_unfold. split; [|done].
  intros id e'. simpl. rewrite lookup_insert_Some. intros [[<- <-]|[_ ?]] _; [|by eauto].
  exists e. split; [done|]. simpl. congruence.
Qed.

Definition indexed (d : ref) (h : commandsHelper) : Prop :=
  ∃ m e, machines h !! d = Some m ∧ commands h !! m_id m = Some e ∧ elem_value e = d.

Lemma qh_childWorkflow_cancel d : qh (indexed d) (childWorkflow_cancel d) (λ _ _, True).
Proof.
  unfold childWorkflow_cancel. eapply (qh_bind _ _ _ (λ _, indexed d)).
  { intros h Hd. unfold getState, deref. destruct Hd as (m & e & Hm & ?). wp_unfold.
    rewrite Hm. wp_unfold. split; [reflexivity|]. by exists m, e. }
  intros []; try solve [apply quiet_any; eauto with quiet].
  eapply (qh_bind _ _ _ (λ _, indexed d)); [|intros ?; eapply qh_bind;
    [apply qh_moveCommandToBack|intros ?; eauto with quiet]].
  intros h (m & e & Hm & He & Hd). unfold wp. rewrite (moveState_spec d m) by done.
  unfold move_result. simpl. split; [by apply quiet_rel_same|].
  eexists _, e. simpl. rewrite lookup_insert_eq. split_and!; [reflexivity|done|done].
Qed.

Lemma qh_cancel d : qh (indexed d) (cancel d) (λ _ _, True).
Proof.
  unfold cancel. eapply (qh_bind _ _ _ (λ _, indexed d)).
  { intros h Hd. unfold deref. pose proof Hd as (m & e & Hm & ?). wp_unfold.
    rewrite Hm. wp_unfold. split; [reflexivity|done]. }
  intros m. destruct (m_kind m); first [apply qh_childWorkflow_cancel | solve [apply quiet_any; eauto with quiet]].
Qed.

(** Looking a command up and cancelling it. *)
Lemma quiet_cancel_command {B} id (k : ref → M B) h :
  helper_wf h → (∀ d, quiet (k d)) →
  quiet_rel h (final (d ← getCommand id; _ ← cancel d; k d) h).
Proof.
  intros Hwf Hk. unfold final. destruct (commands h !! id) as [e|] eqn:He.
  - rewrite (bind_returned _ _ h (elem_value e) h) by (by apply run_getCommand).
    assert (Hd : indexed (elem_value e) h).
    { apply (wf_index h Hwf) in He as Hp. destruct Hp as (_ & m & Hm & <-). by exists m, e. }
    eapply (qh_final (indexed (elem_value e))); [|done].
    eapply qh_bind; [apply qh_cancel|]. intros ?. apply Hk.
  - unfold mbind, go_bind, getCommand. unfold mbind, go_bind, get. rewrite He. reflexivity.
Qed.

(** ** The operations of the helper *)

(** An operation that is safe, fails no type assertion and indexes no new
    command with data. *)
Record calmOp {A} (m : M A) : Prop := {
  calm_hoare : hoare no_conversion (λ _, True) m (λ _ _, True);
  calm_quiet : ∀ h, helper_wf h → quiet_rel h (final m h);
}.

Lemma calm_intro {A} (m : M A) : safe_op m → quiet m → calmOp m.
Proof.
  intros Hs Hq. split.
  - eapply hoare_weaken_panic; [exact Hs|]. apply not_runtime_no_conversion.
  - intros h _. by apply (qh_final (λ _, True) m (λ _ _, True)).
Qed.

(** [d] is indexed under an identifier of type [t]. *)
Definition indexedAs (t : commandType) (d : ref) (h : commandsHelper) : Prop :=
  ∃ id e, commands h !! id = Some e ∧ elem_value e = d ∧ commandID_commandType id = t.

(** The operation returns a command that was indexed with type [t]. *)
Definition resolves (t : commandType) (m : M ref) : Prop :=
  ∀ h d, result m h = Returned d → indexedAs t d h.

Definition returns {A} (a : A) (m : M A) : Prop := ∀ h b, result m h = Returned b → b = a.

Lemma returns_ret {A} (a : A) : returns a (mret a).
Proof. by intros h b [= <-]. Qed.

Lemma returns_bind {A B} (b : B) (m : M A) (k : A → M B) :
  (∀ a, returns b (k a)) → returns b (m ≫= k).
Proof.
  intros Hk h b'. unfold result, mbind, go_bind. destruct (m h) as [[a|p] h']; [apply Hk|done].
Qed.

Lemma resolves_lookup t id (k : ref → M ref) :
  commandID_commandType id = t → (∀ d, returns d (k d)) → resolves t (getCommand id ≫= k).
Proof.
  intros Ht Hk h d. unfold result, mbind, go_bind, getCommand. unfold mbind, go_bind, get.
  destruct (commands h !! id) as [e|] eqn:He; [|done]. simpl. intros Hd.
  apply Hk in Hd as ->. by exists id, e.
Qed.

Lemma resolves_after {A} t (m : M A) (k : A → M ref) :
  (∀ h, commands (final m h) = commands h) → (∀ a, resolves t (k a)) → resolves t (m ≫= k).
Proof.
  intros Hm Hk h d. specialize (Hm h). unfold result, final, mbind, go_bind in *.
  destruct (m h) as [[a|p] h']; [|done]. simpl in *. intros Hd.
  destruct (Hk a h' d Hd) as (id & e & He & ?). exists id, e. by rewrite <- Hm.
Qed.

Lemma getNexusSeq_commands i h : commands (final (getNexusSeq i) h) = commands h.
Proof. unfold getNexusSeq, final, mbind, go_bind, get. by destruct (_ !! i). Qed.
Lemma getSignalID_commands i h : commands (final (getSignalID i) h) = commands h.
Proof. unfold getSignalID, final, mbind, go_bind, get. by destruct (_ !! i). Qed.

Create HintDb calm discriminated.

Tactic Notation "calm" reference(f) :=
  apply calm_intro; [eauto 1 with safe_op|unfold f; quiet_steps].
Ltac resolve_op :=
  repeat (apply resolves_after; [first [done|apply getNexusSeq_commands|apply getSignalID_commands]|intros ?]);
  apply resolves_lookup; [done|]; intros ?;
  repeat first [apply returns_ret | apply returns_bind; intros ?
    | match goal with |- returns _ (if ?b then _ else _) => destruct b end].

Lemma calm_getNextID : calmOp getNextID.
Proof. calm getNextID. Qed.
Lemma calm_setCurrentWorkflowTaskStartedEventID i : calmOp (setCurrentWorkflowTaskStartedEventID i).
Proof. calm setCurrentWorkflowTaskStartedEventID. Qed.
Lemma calm_handleActivityTaskClosed a i : calmOp (handleActivityTaskClosed a i).
Proof. calm handleActivityTaskClosed. Qed.
Lemma resolves_handleActivityTaskClosed a i : resolves commandTypeActivity (handleActivityTaskClosed a i).
Proof. unfold handleActivityTaskClosed. cbv zeta. resolve_op. Qed.
Lemma calm_handleActivityTaskScheduled a i : calmOp (handleActivityTaskScheduled a i).
Proof. calm handleActivityTaskScheduled. Qed.
Lemma calm_handleActivityTaskCancelRequested i : calmOp (handleActivityTaskCancelRequested i).
Proof. calm handleActivityTaskCancelRequested. Qed.
Lemma calm_handleActivityTaskCanceled a i : calmOp (handleActivityTaskCanceled a i).
Proof. calm handleActivityTaskCanceled. Qed.
Lemma resolves_handleActivityTaskCanceled a i : resolves commandTypeActivity (handleActivityTaskCanceled a i).
Proof. unfold handleActivityTaskCanceled. cbv zeta. resolve_op. Qed.
Lemma calm_handleNexusOperationScheduled p e : calmOp (handleNexusOperationScheduled p e).
Proof. calm handleNexusOperationScheduled. Qed.
Lemma calm_handleNexusOperationStarted i : calmOp (handleNexusOperationStarted i).
Proof. calm handleNexusOperationStarted. Qed.
Lemma resolves_handleNexusOperationStarted i : resolves commandTypeNexusOperation (handleNexusOperationStarted i).
Proof. unfold handleNexusOperationStarted. cbv zeta. resolve_op. Qed.
Lemma calm_handleNexusOperationCompleted i : calmOp (handleNexusOperationCompleted i).
Proof. calm handleNexusOperationCompleted. Qed.
Lemma resolves_handleNexusOperationCompleted i : resolves commandTypeNexusOperation (handleNexusOperationCompleted i).
Proof. unfold handleNexusOperationCompleted. cbv zeta. resolve_op. Qed.
Lemma calm_recordVersionMarker c v dc b g : calmOp (recordVersionMarker c v dc b g).
Proof. calm recordVersionMarker. Qed.
Lemma calm_handleVersionMarker i c b : calmOp (handleVersionMarker i c b).
Proof. calm handleVersionMarker. Qed.
Lemma calm_recordSideEffectMarker i p dc md g : calmOp (recordSideEffectMarker i p dc md g).
Proof. calm recordSideEffectMarker. Qed.
Lemma calm_recordMutableSideEffectMarker i n p dc md g : calmOp (recordMutableSideEffectMarker i n p dc md g).
Proof. calm recordMutableSideEffectMarker. Qed.
Lemma calm_handleStartChildWorkflowExecutionInitiated w : calmOp (handleStartChildWorkflowExecutionInitiated w).
Proof. calm handleStartChildWorkflowExecutionInitiated. Qed.
Lemma calm_handleStartChildWorkflowExecutionFailed w : calmOp (handleStartChildWorkflowExecutionFailed w).
Proof. calm handleStartChildWorkflowExecutionFailed. Qed.
Lemma resolves_handleStartChildWorkflowExecutionFailed w : resolves commandTypeChildWorkflow (handleStartChildWorkflowExecutionFailed w).
Proof. unfold handleStartChildWorkflowExecutionFailed. cbv zeta. resolve_op. Qed.
Lemma calm_handleRequestCancelExternalWorkflowExecutionInitiated i w c : calmOp (handleRequestCancelExternalWorkflowExecutionInitiated i w c).
Proof. calm handleRequestCancelExternalWorkflowExecutionInitiated. Qed.
Lemma calm_handleExternalWorkflowExecutionCancelRequested i w : calmOp (handleExternalWorkflowExecutionCancelRequested i w).
Proof. calm handleExternalWorkflowExecutionCancelRequested. Qed.
Lemma calm_handleRequestCancelExternalWorkflowExecutionFailed i w : calmOp (handleRequestCancelExternalWorkflowExecutionFailed i w).
Proof. calm handleRequestCancelExternalWorkflowExecutionFailed. Qed.
Lemma calm_upsertSearchAttributes i a g : calmOp (upsertSearchAttributes i a g).
Proof. calm upsertSearchAttributes. Qed.
Lemma calm_modifyProperties i a g : calmOp (modifyProperties i a g).
Proof. calm modifyProperties. Qed.
Lemma calm_handleSignalExternalWorkflowExecutionInitiated i s : calmOp (handleSignalExternalWorkflowExecutionInitiated i s).
Proof. calm handleSignalExternalWorkflowExecutionInitiated. Qed.
Lemma calm_handleSignalExternalWorkflowExecutionCompleted i : calmOp (handleSignalExternalWorkflowExecutionCompleted i).
Proof. calm handleSignalExternalWorkflowExecutionCompleted. Qed.
Lemma resolves_handleSignalExternalWorkflowExecutionCompleted i : resolves commandTypeSignal (handleSignalExternalWorkflowExecutionCompleted i).
Proof. unfold handleSignalExternalWorkflowExecutionCompleted. cbv zeta. resolve_op. Qed.
Lemma calm_handleSignalExternalWorkflowExecutionFailed i : calmOp (handleSignalExternalWorkflowExecutionFailed i).
Proof. calm handleSignalExternalWorkflowExecutionFailed. Qed.
Lemma resolves_handleSignalExternalWorkflowExecutionFailed i : resolves commandTypeSignal (handleSignalExternalWorkflowExecutionFailed i).
Proof. unfold handleSignalExternalWorkflowExecutionFailed. cbv zeta. resolve_op. Qed.
Lemma calm_handleTimerClosed t : calmOp (handleTimerClosed t).
Proof. calm handleTimerClosed. Qed.
Lemma resolves_handleTimerClosed t : resolves commandTypeTimer (handleTimerClosed t).
Proof. unfold handleTimerClosed. cbv zeta. resolve_op. Qed.
Lemma calm_handleTimerStarted t : calmOp (handleTimerStarted t).
Proof. calm handleTimerStarted. Qed.
Lemma calm_handleTimerCanceled t : calmOp (handleTimerCanceled t).
Proof. calm handleTimerCanceled. Qed.
Lemma calm_handleChildWorkflowExecutionStarted w : calmOp (handleChildWorkflowExecutionStarted w).
Proof. calm handleChildWorkflowExecutionStarted. Qed.
Lemma resolves_handleChildWorkflowExecutionStarted w : resolves commandTypeChildWorkflow (handleChildWorkflowExecutionStarted w).
Proof. unfold handleChildWorkflowExecutionStarted. cbv zeta. resolve_op. Qed.
Lemma calm_handleChildWorkflowExecutionClosed w : calmOp (handleChildWorkflowExecutionClosed w).
Proof. calm handleChildWorkflowExecutionClosed. Qed.
Lemma resolves_handleChildWorkflowExecutionClosed w : resolves commandTypeChildWorkflow (handleChildWorkflowExecutionClosed w).
Proof. unfold handleChildWorkflowExecutionClosed. cbv zeta. resolve_op. Qed.
Lemma calm_handleChildWorkflowExecutionCanceled w : calmOp (handleChildWorkflowExecutionCanceled w).
Proof. calm handleChildWorkflowExecutionCanceled. Qed.
Lemma resolves_handleChildWorkflowExecutionCanceled w : resolves commandTypeChildWorkflow (handleChildWorkflowExecutionCanceled w).
Proof. unfold handleChildWorkflowExecutionCanceled. cbv zeta. resolve_op. Qed.
Lemma calm_addProtocolMessage i : calmOp (addProtocolMessage i).
Proof. calm addProtocolMessage. Qed.

Lemma calm_getActivityAndScheduledEventIDs p1 p2 e :
  calmOp (getActivityAndScheduledEventIDs p1 p2 e).
Proof.
  apply calm_intro; [eauto 1 with safe_op|]. unfold getActivityAndScheduledEventIDs.
  apply quiet_bind; [destruct (Event_EventType e); eauto with quiet|]. intros ?. quiet_steps.
Qed.

Lemma calm_recordLocalActivityMarker a det f md g : calmOp (recordLocalActivityMarker a det f md g).
Proof.
  apply calm_intro; [eauto 1 with safe_op|]. unfold recordLocalActivityMarker. cbv zeta.
  eapply qh_bind; [by apply qh_alloc|]. intros d.
  eapply (qh_bind _ _ _ (λ _, noDataAt d)).
  - intros h Hd. unfold getNextID, incrementNextCommandEventIDIfVersionMarker. wp_unfold.
    case_decide; wp_unfold; [by apply quiet_rel_same|]. split; [by apply quiet_rel_same|exact Hd].
  - intros ?. eapply qh_bind; [apply qh_addCommand|]. intros ?. eauto with quiet.
Qed.

Lemma quiet_getCommands_loop fuel b curr acc : quiet (getCommands_loop fuel b curr acc).
Proof.
  revert curr acc. induction fuel as [|fuel IH]; intros [e|] acc; simpl; eauto with quiet.
  apply quiet_bind; [eauto with quiet|]. intros h0. unfold getCommands_step. cbv zeta.
  apply quiet_bind; [quiet_steps|]. intros ?. apply IH.
Qed.

Lemma calm_getCommands b : calmOp (getCommands b).
Proof.
  apply calm_intro; [eauto 1 with safe_op|]. unfold getCommands.
  apply quiet_bind; [eauto with quiet|]. intros ?. apply quiet_getCommands_loop.
Qed.

(** *** Nexus operations *)

Lemma resolves_getNexusOperationCommand seq :
  resolves commandTypeNexusOperation (getNexusOperationCommand seq).
Proof.
  intros h d. unfold getNexusOperationCommand, getCommand, result, mbind, go_bind, get.
  destruct (_ !! _) as [e|] eqn:He; [|done]. intros [= <-]. by eexists _, e.
Qed.

Lemma calm_getNexusOperationCommand seq : calmOp (getNexusOperationCommand seq).
Proof.
  apply calm_intro; [|unfold getNexusOperationCommand; quiet_steps].
  eapply hoare_conseq; [apply hoare_getCommand|done|done].
Qed.

Lemma quiet_nexusCancelation (f : ref → M unit) i :
  (∀ d, quiet (f d)) →
  quiet (seq ← getNexusSeq i; command ← getNexusOperationCommand seq;
         cancelation ← getCancelation command; _ ← f cancelation; mret command).
Proof.
  intros Hf. unfold getNexusSeq, getNexusOperationCommand, getCancelation. quiet_steps.
Qed.

Lemma calm_nexusCancelation (f : ref → M unit) i :
  safe_method f → (∀ d, quiet (f d)) →
  calmOp (seq ← getNexusSeq i; command ← getNexusOperationCommand seq;
          cancelation ← getCancelation command; _ ← f cancelation; mret command).
Proof.
  intros Hs Hq. split.
  - apply keeps_nexusCancelation; [done|apply not_runtime_no_conversion|done].
  - intros h _. eapply qh_final; [by apply quiet_nexusCancelation|done].
Qed.

Lemma calm_handleNexusOperationCancelRequested i : calmOp (handleNexusOperationCancelRequested i).
Proof. apply calm_nexusCancelation; eauto with hoare quiet. Qed.
Lemma resolves_handleNexusOperationCancelRequested i :
  resolves commandTypeNexusOperation (handleNexusOperationCancelRequested i).
Proof. unfold handleNexusOperationCancelRequested. resolve_op. Qed.
Lemma calm_handleNexusOperationCancelRequestDelivered i :
  calmOp (handleNexusOperationCancelRequestDelivered i).
Proof. apply calm_nexusCancelation; eauto with hoare quiet. Qed.
Lemma resolves_handleNexusOperationCancelRequestDelivered i :
  resolves commandTypeNexusOperation (handleNexusOperationCancelRequestDelivered i).
Proof. unfold handleNexusOperationCancelRequestDelivered. resolve_op. Qed.

(** *** Cancelling *)

Lemma calm_cancel_command {B} id (k : ref → M B) :
  safe_op (d ← getCommand id; _ ← cancel d; k d) → (∀ d, quiet (k d)) →
  calmOp (d ← getCommand id; _ ← cancel d; k d).
Proof.
  intros Hs Hk. split; [|intros h Hwf; by apply quiet_cancel_command].
  eapply hoare_weaken_panic; [exact Hs|]. apply not_runtime_no_conversion.
Qed.

Lemma calm_requestCancelActivityTask a : calmOp (requestCancelActivityTask a).
Proof. apply calm_cancel_command; [apply safe_requestCancelActivityTask|]. intros ?; eauto with quiet. Qed.
Lemma resolves_requestCancelActivityTask a :
  resolves commandTypeActivity (requestCancelActivityTask a).
Proof. unfold requestCancelActivityTask. cbv zeta. resolve_op. Qed.
Lemma calm_cancelTimer t : calmOp (cancelTimer t).
Proof. apply calm_cancel_command; [apply safe_cancelTimer|]. intros ?; eauto with quiet. Qed.
Lemma resolves_cancelTimer t : resolves commandTypeTimer (cancelTimer t).
Proof. unfold cancelTimer. resolve_op. Qed.
Lemma calm_requestCancelNexusOperation s : calmOp (requestCancelNexusOperation s).
Proof.
  apply calm_cancel_command; [apply safe_requestCancelNexusOperation|]. intros ?. quiet_steps.
Qed.
Lemma resolves_requestCancelNexusOperation s :
  resolves commandTypeNexusOperation (requestCancelNexusOperation s).
Proof. unfold requestCancelNexusOperation, getNexusOperationCommand. resolve_op. Qed.
Lemma calm_requestCancelChild n w : calmOp (requestCancelExternalWorkflowExecution n w "" "" true []).
Proof.
  apply (calm_cancel_command (makeCommandID commandTypeChildWorkflow w) (λ d, mret d));
    [apply (safe_requestCancelExternal n w "" "" true [])|]. intros ?; eauto with quiet.
Qed.

(** *** External workflows *)

Definition resolvesCancellation (m : M (bool * ref)) : Prop :=
  ∀ h d, result m h = Returned (true, d) → indexedAs commandTypeCancellation d h.

Lemma resolves_externalCancelRequested i w :
  resolvesCancellation (handleExternalWorkflowExecutionCancelRequested i w).
Proof.
  intros h d. unfold handleExternalWorkflowExecutionCancelRequested, result.
  rewrite (bind_returned get _ h h h) by done. destruct (_ !! i) as [c|].
  - pose proof (resolves_lookup commandTypeCancellation (makeCommandID commandTypeCancellation c)
      (λ d, _ ← handleCompletionEvent d; mret d) eq_refl
      (λ d, returns_bind d _ _ (λ _, returns_ret d)) h d) as Hr.
    unfold result, mbind, go_bind in *. destruct (getCommand _ h) as [[d'|] h1]; [|done].
    destruct (handleCompletionEvent d' h1) as [[]]; [|done]. intros [= ->]. by apply Hr.
  - unfold mbind, go_bind. repeat case_match; try done; simpl; by intros [= ].
Qed.

Lemma resolves_requestCancelExternalFailed i w :
  resolvesCancellation (handleRequestCancelExternalWorkflowExecutionFailed i w).
Proof.
  intros h d. unfold handleRequestCancelExternalWorkflowExecutionFailed, result.
  rewrite (bind_returned get _ h h h) by done. destruct (_ !! i) as [c|].
  - pose proof (resolves_lookup commandTypeCancellation (makeCommandID commandTypeCancellation c)
      (λ d, _ ← handleCompletionEvent d; mret d) eq_refl
      (λ d, returns_bind d _ _ (λ _, returns_ret d)) h d) as Hr.
    unfold result, mbind, go_bind in *. destruct (getCommand _ h) as [[d'|] h1]; [|done].
    destruct (handleCompletionEvent d' h1) as [[]]; [|done]. intros [= ->]. by apply Hr.
  - unfold mbind, go_bind. repeat case_match; try done; simpl; by intros [= ].
Qed.

(** ** Creating commands with data *)

(** The one new command, of type [t], is the one returned. *)
Definition adds (t : commandType) (h : commandsHelper) (d : ref) (h' : commandsHelper) : Prop :=
  machines h !! d = None ∧
  ∃ id e, commandID_commandType id = t ∧ commands h' !! id = Some e ∧ elem_value e = d ∧
    ∀ id' e', id' ≠ id → commands h' !! id' = Some e' → commands h !! id' = Some e'.

Record creates (t : commandType) (m : M ref) : Prop := {
  creates_hoare : hoare no_conversion (λ _, True) m (λ _ _, True);
  creates_adds : ∀ h, helper_wf h → wp m (adds t h) (λ _ h', quiet_rel h h') h;
}.

Lemma wf_next_ref h : helper_wf h → machines h !! next_ref h = None.
Proof.
  intros Hwf. destruct (machines h !! next_ref h) eqn:Hd; [|done].
  apply (wf_refs h Hwf) in Hd. lia.
Qed.

(** From the allocation on. *)
Lemma adds_allocated m f h :
  machines h !! next_ref h = None → (∀ m, m_id (f m) = m_id m) →
  wp (_ ← update (next_ref h) f; _ ← addCommand (next_ref h); mret (next_ref h))
    (adds (commandID_commandType (m_id m)) h) (λ _ h', quiet_rel h h') (with_machine m h).
Proof.
  intros Hr Hf. unfold wp, mbind, go_bind. rewrite update_fresh_spec.
  destruct (commands h !! m_id (f m)) as [e|] eqn:Hc.
  - rewrite (addCommand_duplicate _ (f m) e); [by apply quiet_rel_same| |done].
    simpl. apply lookup_insert_eq.
  - rewrite addCommand_fresh_spec by done. simpl. split; [done|]. exists (m_id m), (mkElement (next_elem h) (next_ref h)). simpl.
    rewrite Hf. split_and!; [done|apply lookup_insert_eq|done|].
    intros id' e' Hne. by rewrite lookup_insert_ne.
Qed.

Lemma adds_created m f h :
  helper_wf h → (∀ m, m_id (f m) = m_id m) →
  wp (d ← alloc m; _ ← update d f; _ ← addCommand d; mret d)
    (adds (commandID_commandType (m_id m)) h) (λ _ h', quiet_rel h h') h.
Proof.
  intros Hwf Hf. rewrite wp_bind. unfold wp at 1. rewrite alloc_spec.
  apply adds_allocated; [by apply wf_next_ref|done].
Qed.

Lemma adds_created_plain m h :
  helper_wf h →
  wp (d ← alloc m; _ ← addCommand d; mret d)
    (adds (commandID_commandType (m_id m)) h) (λ _ h', quiet_rel h h') h.
Proof.
  intros Hwf. unfold wp. rewrite run_create_plain. by apply (adds_created m id).
Qed.

Lemma creates_intro t (m : M ref) :
  safe_op m → (∀ h, helper_wf h → wp m (adds t h) (λ _ h', quiet_rel h h') h) → creates t m.
Proof.
  intros Hs Ha. split; [|exact Ha].
  eapply hoare_weaken_panic; [exact Hs|]. apply not_runtime_no_conversion.
Qed.

Lemma creates_scheduleActivityTask i a md g :
  creates commandTypeActivity (scheduleActivityTask i a md g).
Proof.
  apply creates_intro; [eauto 1 with safe_op|]. intros h Hwf. unfold scheduleActivityTask.
  rewrite wp_bind, wp_modify.
  set (h1 := set_scheduledEventIDToActivityID _ h).
  assert (Hwf1 : helper_wf h1) by by destruct Hwf.
  exact (adds_created _ (m_set_eventGroupMarkers g) h1 Hwf1 (λ _, eq_refl)).
Qed.

Lemma creates_startTimer a s dc g : creates commandTypeTimer (startTimer a s dc g).
Proof.
  apply creates_intro; [eauto 1 with safe_op|]. intros h Hwf. unfold startTimer, must.
  destruct (BuildUserMetadata _ _ _); rewrite wp_bind; [rewrite wp_panic; reflexivity|].
  rewrite wp_ret. exact (adds_created _ (m_set_eventGroupMarkers g) h Hwf (λ _, eq_refl)).
Qed.

Lemma creates_requestCancelExternal n w r c g :
  creates commandTypeCancellation (requestCancelExternalWorkflowExecution n w r c false g).
Proof.
  apply creates_intro; [eauto 1 with safe_op|]. intros h Hwf.
  unfold requestCancelExternalWorkflowExecution. case_decide; [rewrite wp_panic; reflexivity|].
  by apply adds_created_plain.
Qed.

Lemma creates_signalExternal n w r s p hd i b g :
  creates commandTypeSignal (signalExternalWorkflowExecution n w r s p hd i b g).
Proof.
  apply creates_intro; [eauto 1 with safe_op|]. intros h Hwf. by apply adds_created_plain.
Qed.

Lemma creates_scheduleNexusOperation s a md g :
  creates commandTypeNexusOperation (scheduleNexusOperation s a md g).
Proof.
  apply creates_intro; [eauto 1 with safe_op|]. intros h Hwf.
  set (h1 := set_nexusOperationsWithoutScheduledID
    (nexusOperationsWithoutScheduledID h ++ [mkElement (next_elem h) (next_ref h)])
    (set_next_elem (S (next_elem h)) h)).
  set (m := mkMachine (makeCommandID commandTypeNexusOperation (FormatInt s)) commandStateCreated
    [commandState_String commandStateCreated] None []
    (nexusOperationStateMachine s 0 a None md)).
  change (wp (_ ← update (next_ref h1) (m_set_eventGroupMarkers g); _ ← addCommand (next_ref h1);
    mret (next_ref h1)) (adds commandTypeNexusOperation h1) (λ _ h', quiet_rel h1 h')
    (with_machine m h1)).
  apply (adds_allocated m); [exact (wf_next_ref h Hwf)|done].
Qed.

(** A child whose identifier is taken leaves the index alone. *)
Lemma creates_startChildWorkflowExecution a md g h :
  helper_wf h →
  wp (startChildWorkflowExecution a md g)
    (λ r h', match r with inr d => adds commandTypeChildWorkflow h d h' | inl _ => quiet_rel h h' end)
    (λ _ h', quiet_rel h h') h.
Proof.
  intros Hwf. unfold wp. rewrite run_startChildWorkflowExecution.
  destruct (commands h !! _) eqn:Hc; [by apply quiet_rel_same|].
  split; [by apply wf_next_ref|].
  exists (m_id (childMachine a md g)), (mkElement (next_elem h) (next_ref h)). simpl.
  split_and!; [done|apply lookup_insert_eq|done|]. intros id' e' Hne. by rewrite lookup_insert_ne.
Qed.

Lemma hoare_startChildWorkflowExecution a md g :
  hoare no_conversion (λ _, True) (startChildWorkflowExecution a md g) (λ _ _, True).
Proof.
  eapply hoare_weaken_panic; [apply safe_startChildWorkflowExecution|].
  apply not_runtime_no_conversion.
Qed.

(** *** Reading a machine *)

Lemma calm_deref d : calmOp (deref d).
Proof.
  split; [|intros h _; by eapply (qh_final (λ _, True)); [apply quiet_deref|]].
  intros h Hwf _. unfold deref. wp_unfold.
  destruct (machines h !! d); wp_unfold; split_and!; done || reflexivity.
Qed.

Lemma calm_getState d : calmOp (getState d).
Proof.
  split; [|intros h _; by eapply (qh_final (λ _, True)); [apply quiet_getState|]].
  unfold getState. eapply hoare_bind_here; [apply (calm_hoare _ (calm_deref d))|].
  intros m. by apply hoare_ret.
Qed.
