(* ===== verification/Channel.v ===== *)
(** * Workflow channels, futures and selectors ([src/internal/internal_workflow.go]).

    Coroutines of a workflow communicate over [channelImpl] channels.  A
    blocked receiver, sender or selector leaves a callback in the channel; the
    callback is a closure over the local variables of the call that registered
    it.  The closures are data here ([receiveFn], [sendFn]) and the variables
    they capture are cells of the [world], so that a channel, a cell or a
    ready branch shared by several callbacks is one object. *)

From stdpp Require Import base list gmap strings.
From S2P Require Import Prelude.
Open Scope nat_scope.

Section Channels.
  (** The dynamic type of non-nil values, and the two SDK flags [Select] tries
      to use ([SDKFlagBlockedSelectorSignalReceive] and
      [SDKFlagWorkflowNewChannelLostMessages]). *)
  Context {V : Type}.
  Variable dropSignalFlag : bool.
  Variable channelLostMsgFlag : bool.

(** A value of type [any]; [None] is nil. *)
Abbreviation any := (option V).

(** ** Data *)

(** The function of a [sendCallback]: of [Send], which captures
    [valueConsumed], and of the send case of [Select], which captures
    [readyBranch]. *)
Inductive sendFn : Type :=
| sendWait (valueConsumed : nat)
| sendSelect (readyBranch : nat) (pairIdx : nat).

Record sendCallback : Type := mkSendCallback {
  sc_id : nat;
  sc_value : any;
  sc_fn : sendFn;
}.

(** The function of a [receiveCallback]: of [Receive], which captures the
    result variables; of the receive case of [Select], which captures
    [readyBranch], the channel and [hasDefault]; of its future case. *)
Inductive receiveFn : Type :=
| receiveWait (result : nat)
| receiveSelect (readyBranch : nat) (c : nat) (pairIdx : nat) (hasDefault : bool)
| futureSelect (readyBranch : nat) (pairIdx : nat) (f : nat).

Record receiveCallback : Type := mkReceiveCallback {
  rc_id : nat;
  rc_fn : receiveFn;
}.

Record channelImpl : Type := mkChannelImpl {
  ch_size : nat;
  ch_buffer : list any;
  ch_blockedSends : list sendCallback;
  ch_blockedReceives : list receiveCallback;
  ch_closed : bool;
  ch_recValue : option any;
}.

(** What a [readyBranch] closure does when [Select] runs it. *)
Inductive branch : Type :=
| branchReceive (c : nat) (pairIdx : nat) (v : any) (more storeNow : bool)
| branchSend (pairIdx : nat)
| branchFuture (pairIdx : nat) (f : nat)
| branchTaken.

Record futureImpl : Type := mkFutureImpl {
  fut_value : any;
  fut_err : option string;
  fut_ready : bool;
  fut_channel : nat;
  fut_chained : list nat;
}.

(** A case of a selector; [caseRemoved] has all its functions nil. *)
Inductive selectCase : Type :=
| caseReceive (c : nat)
| caseSend (c : nat) (v : any)
| caseFuture (f : nat)
| caseRemoved.

Record selectorImpl : Type := mkSelectorImpl {
  sel_cases : list selectCase;
  sel_default : bool;
}.

(** The objects of a workflow: channels, futures and the captured variables
    [result]/[hasResult]/[more] of [Receive], [valueConsumed] of [Send] and
    [readyBranch] of [Select]. *)
Record world : Type := mkWorld {
  channels : gmap nat channelImpl;
  futures : gmap nat futureImpl;
  results : gmap nat (any * bool);
  consumed : gset nat;
  ready : gmap nat branch;
  selectors : gmap nat selectorImpl;
  next_id : nat;
}.

Abbreviation W := (Go world).

(** ** Objects *)

Definition set_channel (c : nat) (ch : channelImpl) (w : world) : world :=
  mkWorld (<[c := ch]> (channels w)) (futures w) (results w) (consumed w) (ready w) (selectors w)
    (next_id w).
Definition set_future (f : nat) (fu : futureImpl) (w : world) : world :=
  mkWorld (channels w) (<[f := fu]> (futures w)) (results w) (consumed w) (ready w) (selectors w)
    (next_id w).
Definition set_results (r : gmap nat (any * bool)) (w : world) : world :=
  mkWorld (channels w) (futures w) r (consumed w) (ready w) (selectors w)
    (next_id w).
Definition set_consumed (s : gset nat) (w : world) : world :=
  mkWorld (channels w) (futures w) (results w) s (ready w) (selectors w)
    (next_id w).
Definition set_ready (r : gmap nat branch) (w : world) : world :=
  mkWorld (channels w) (futures w) (results w) (consumed w) r (selectors w) (next_id w).
Definition set_selector (i : nat) (sel : selectorImpl) (w : world) : world :=
  mkWorld (channels w) (futures w) (results w) (consumed w) (ready w)
    (<[i := sel]> (selectors w)) (next_id w).
Definition set_next (n : nat) (w : world) : world :=
  mkWorld (channels w) (futures w) (results w) (consumed w) (ready w) (selectors w) n.

Definition nilPanic {A} : W A :=
  panic (runtimeError "invalid memory address or nil pointer dereference").

Definition getChannel (c : nat) : W channelImpl :=
  w ← get;
  match channels w !! c with
  | Some ch => mret ch
  | None => nilPanic
  end.
Definition putChannel (c : nat) (ch : channelImpl) : W unit := modify (set_channel c ch).

Definition getFuture (f : nat) : W futureImpl :=
  w ← get;
  match futures w !! f with
  | Some fu => mret fu
  | None => nilPanic
  end.

Definition fresh_id : W nat :=
  w ← get;
  _ ← modify (set_next (S (next_id w)));
  mret (next_id w).

Definition with_buffer (b : list any) (ch : channelImpl) : channelImpl :=
  mkChannelImpl (ch_size ch) b (ch_blockedSends ch) (ch_blockedReceives ch) (ch_closed ch)
    (ch_recValue ch).
Definition with_blockedSends (l : list sendCallback) (ch : channelImpl) : channelImpl :=
  mkChannelImpl (ch_size ch) (ch_buffer ch) l (ch_blockedReceives ch) (ch_closed ch)
    (ch_recValue ch).
Definition with_blockedReceives (l : list receiveCallback) (ch : channelImpl) : channelImpl :=
  mkChannelImpl (ch_size ch) (ch_buffer ch) (ch_blockedSends ch) l (ch_closed ch)
    (ch_recValue ch).
Definition with_closed (b : bool) (ch : channelImpl) : channelImpl :=
  mkChannelImpl (ch_size ch) (ch_buffer ch) (ch_blockedSends ch) (ch_blockedReceives ch) b
    (ch_recValue ch).
Definition with_recValue (v : option any) (ch : channelImpl) : channelImpl :=
  mkChannelImpl (ch_size ch) (ch_buffer ch) (ch_blockedSends ch) (ch_blockedReceives ch)
    (ch_closed ch) v.

(** [NewBufferedChannel]; [NewChannel] has size 0. *)
Definition NewBufferedChannel (size : nat) : W nat :=
  c ← fresh_id;
  _ ← putChannel c (mkChannelImpl size [] [] [] false None);
  mret c.

(** ** Callbacks *)

(** Whether the [readyBranch] variable [rb] is non-nil. *)
Definition isReadyBranch (rb : nat) : W bool :=
  w ← get; mret (bool_decide (is_Some (ready w !! rb))).
Definition setReadyBranch (rb : nat) (b : branch) : W unit :=
  modify (λ w, set_ready (<[rb := b]> (ready w)) w).

(** [b.fn()] *)
Definition callSend (fn : sendFn) : W bool :=
  match fn with
  | sendWait cell =>
      _ ← modify (λ w, set_consumed ({[cell]} ∪ consumed w) w);
      mret true
  | sendSelect rb pairIdx =>
      r ← isReadyBranch rb;
      if r : bool then mret false
      else _ ← setReadyBranch rb (branchSend pairIdx); mret true
  end.

(** [callback.fn(v, more)] *)
Definition callReceive (fn : receiveFn) (v : any) (more : bool) : W bool :=
  match fn with
  | receiveWait cell =>
      _ ← modify (λ w, set_results (<[cell := (v, more)]> (results w)) w);
      mret true
  | receiveSelect rb c pairIdx hasDefault =>
      r ← isReadyBranch rb;
      if r : bool then mret false
      else
        let storeNow := dropSignalFlag && (negb channelLostMsgFlag || hasDefault) in
        _ ← (if storeNow
             then ch ← getChannel c; putChannel c (with_recValue (Some v) ch)
             else mret tt);
        _ ← setReadyBranch rb (branchReceive c pairIdx v more storeNow);
        mret true
  | futureSelect rb pairIdx f =>
      r ← isReadyBranch rb;
      if r : bool then mret false
      else _ ← setReadyBranch rb (branchFuture pairIdx f); mret true
  end.

(** ** Channel operations *)

Definition CanReceiveWithoutBlocking (ch : channelImpl) : bool :=
  bool_decide (ch_recValue ch ≠ None) || bool_decide (0 < length (ch_buffer ch)) ||
  bool_decide (0 < length (ch_blockedSends ch)) || ch_closed ch.

Definition CanSendWithoutBlocking (ch : channelImpl) : bool :=
  bool_decide (length (ch_buffer ch) < ch_size ch) ||
  bool_decide (0 < length (ch_blockedReceives ch)).

Definition Len (ch : channelImpl) : nat :=
  let result := length (ch_buffer ch) + length (ch_blockedSends ch) in
  match ch_recValue ch with
  | Some _ => result + 1
  | None => result
  end.

(** [for len(c.blockedSends) > 0 { pop b; if b.fn() { ... } }]: the value of
    the first sender that agrees.  Every iteration pops one sender, so their
    number bounds the loop. *)
Fixpoint popSend (fuel : nat) (c : nat) : W (option any) :=
  match fuel with
  | O => mret None
  | S fuel' =>
      ch ← getChannel c;
      match ch_blockedSends ch with
      | [] => mret None
      | b :: rest =>
          _ ← putChannel c (with_blockedSends rest ch);
          r ← callSend (sc_fn b);
          if r : bool then mret (Some (sc_value b)) else popSend fuel' c
      end
  end.

(** Results: the value, [ok] and [more]. *)
Definition receiveAsyncImpl (c : nat) (callback : option receiveCallback)
    : W (any * bool * bool) :=
  ch ← getChannel c;
  match ch_recValue ch with
  | Some r =>
      _ ← putChannel c (with_recValue None ch);
      mret (r, true, true)
  | None =>
      match ch_buffer ch with
      | r :: rest =>
          _ ← putChannel c (with_buffer rest ch);
          moved ← popSend (length (ch_blockedSends ch)) c;
          _ ← match moved with
              | Some v =>
                  ch' ← getChannel c;
                  putChannel c (with_buffer (ch_buffer ch' ++ [v]) ch')
              | None => mret tt
              end;
          mret (r, true, true)
      | [] =>
          if ch_closed ch then mret (None, false, false)
          else
            direct ← popSend (length (ch_blockedSends ch)) c;
            match direct with
            | Some v => mret (v, true, true)
            | None =>
                _ ← match callback with
                    | Some cb =>
                        ch' ← getChannel c;
                        putChannel c (with_blockedReceives (ch_blockedReceives ch' ++ [cb]) ch')
                    | None => mret tt
                    end;
                mret (None, false, true)
            end
      end
  end.

(** [for len(c.blockedReceives) > 0 { pop; if blockedGet(v, true) ... }] *)
Fixpoint popReceive (fuel : nat) (c : nat) (v : any) : W bool :=
  match fuel with
  | O => mret false
  | S fuel' =>
      ch ← getChannel c;
      match ch_blockedReceives ch with
      | [] => mret false
      | b :: rest =>
          _ ← putChannel c (with_blockedReceives rest ch);
          r ← callReceive (rc_fn b) v true;
          if r : bool then mret true else popReceive fuel' c v
      end
  end.

Definition sendAsyncImpl (c : nat) (v : any) (pair : option sendCallback) : W bool :=
  ch ← getChannel c;
  if ch_closed ch then panic (panicString "Closed channel")
  else
    r ← popReceive (length (ch_blockedReceives ch)) c v;
    if r : bool then mret true
    else
      ch' ← getChannel c;
      if decide (length (ch_buffer ch') < ch_size ch') then
        _ ← putChannel c (with_buffer (ch_buffer ch' ++ [v]) ch');
        mret true
      else
        _ ← match pair with
            | Some cb => putChannel c (with_blockedSends (ch_blockedSends ch' ++ [cb]) ch')
            | None => mret tt
            end;
        mret false.

(** Removes the first callback with the given identity. *)
Fixpoint removeFirst {A} (p : A → bool) (l : list A) : list A :=
  match l with
  | [] => []
  | a :: l' => if p a then l' else a :: removeFirst p l'
  end.

Definition removeReceiveCallback (c : nat) (callback : nat) : W unit :=
  ch ← getChannel c;
  putChannel c (with_blockedReceives
    (removeFirst (λ cb, bool_decide (rc_id cb = callback)) (ch_blockedReceives ch)) ch).

Definition removeSendCallback (c : nat) (callback : nat) : W unit :=
  ch ← getChannel c;
  putChannel c (with_blockedSends
    (removeFirst (λ cb, bool_decide (sc_id cb = callback)) (ch_blockedSends ch)) ch).

Fixpoint callAll (l : list receiveCallback) : W unit :=
  match l with
  | [] => mret tt
  | cb :: l' => _ ← callReceive (rc_fn cb) None false; callAll l'
  end.

(** The callbacks are called on a copy of [blockedReceives], which is kept. *)
Definition Close (c : nat) : W unit :=
  ch ← getChannel c;
  _ ← putChannel c (with_closed true ch);
  callAll (ch_blockedReceives ch).

Definition SendAsync (c : nat) (v : any) : W bool := sendAsyncImpl c v None.

(** ** Blocking receive and send

    A coroutine that cannot proceed yields to the dispatcher, and continues
    with the [resume] function when the dispatcher gives it control again. *)

Inductive receiveState : Type :=
| receiveDone (v : any) (more : bool)
| receiveBlocked (callback : receiveCallback).

Section Decoding.
  (** Whether [decodeAndAssignValue] succeeds on a value. *)
  Variable decodes : any → bool.

(** The outer loop of [Receive]; a value that does not decode is dropped.
    [None] means that the fuel ran out. *)
Fixpoint receiveLoop (fuel : nat) (c : nat) (callback : receiveCallback)
    : W (option receiveState) :=
  match fuel with
  | O => mret None
  | S fuel' =>
      r ← receiveAsyncImpl c (Some callback);
      let '(v, ok, m) := r in
      if negb ok && negb m then mret (Some (receiveDone None m))
      else if ok || negb m then
        if decodes v then mret (Some (receiveDone v m)) else receiveLoop fuel' c callback
      else mret (Some (receiveBlocked callback))
  end.

(** Every dropped value makes the channel shorter. *)
Definition receiveAgain (c : nat) (callback : receiveCallback) : W (option receiveState) :=
  ch ← getChannel c;
  receiveLoop (S (Len ch)) c callback.

Definition Receive (c : nat) : W (option receiveState) :=
  cell ← fresh_id;
  id ← fresh_id;
  receiveAgain c (mkReceiveCallback id (receiveWait cell)).

(** The inner loop, after a yield: [hasResult] is whether the cell is set; it
    is reset before the outer loop starts again. *)
Definition Receive_resume (c : nat) (callback : receiveCallback) : W (option receiveState) :=
  match rc_fn callback with
  | receiveWait cell =>
      w ← get;
      match results w !! cell with
      | Some (v, more) =>
          if decodes v then mret (Some (receiveDone v more))
          else
            _ ← modify (λ w, set_results (delete cell (results w)) w);
            receiveAgain c callback
      | None => mret (Some (receiveBlocked callback))
      end
  | _ => mret (Some (receiveBlocked callback))
  end.

Fixpoint ReceiveAsyncWithMoreFlag (fuel : nat) (c : nat) : W (option (any * bool * bool)) :=
  match fuel with
  | O => mret None
  | S fuel' =>
      r ← receiveAsyncImpl c None;
      let '(v, ok, more) := r in
      if negb ok && negb more then mret (Some (None, ok, more))
      else if decodes v then mret (Some (v, ok, more))
      else ReceiveAsyncWithMoreFlag fuel' c
  end.

Definition ReceiveAsync (fuel : nat) (c : nat) : W (option (any * bool)) :=
  r ← ReceiveAsyncWithMoreFlag fuel c;
  mret (fst <$> r).

(** The result of [AwaitWithTimeout(ctx, timeout, c.Len() > 0)]: the context
    was cancelled, the timer fired, or the condition held. *)
Inductive awaitResult : Type :=
| awaitCanceled
| awaitTimedOut
| awaitHeld.

Definition ReceiveWithTimeout (fuel : nat) (c : nat) (await : awaitResult)
    : W (option (any * bool * bool)) :=
  match await with
  | awaitCanceled | awaitTimedOut => mret (Some (None, false, true))
  | awaitHeld =>
      r ← ReceiveAsyncWithMoreFlag fuel c;
      match r with
      | Some (v, true, more) => mret (Some (v, true, more))
      | Some (_, false, _) => panic (panicString "unexpected empty channel")
      | None => mret None
      end
  end.
End Decoding.

Inductive sendState : Type :=
| sendDone
| sendBlocked (valueConsumed : nat).

(** The loop of [Send]. *)
Definition Send_resume (c : nat) (valueConsumed : nat) : W sendState :=
  w ← get;
  if decide (valueConsumed ∈ consumed w) then mret sendDone
  else
    ch ← getChannel c;
    if ch_closed ch then panic (panicString "Closed channel")
    else mret (sendBlocked valueConsumed).

Definition Send (c : nat) (v : any) : W sendState :=
  cell ← fresh_id;
  id ← fresh_id;
  ok ← sendAsyncImpl c v (Some (mkSendCallback id v (sendWait cell)));
  if ok : bool then mret sendDone else Send_resume c cell.

(** ** Futures *)

Definition NewFuture : W nat :=
  c ← NewBufferedChannel 0;
  f ← fresh_id;
  _ ← modify (set_future f (mkFutureImpl None None false c []));
  mret f.

Definition alreadySet {A} : W A := panic (panicString "already set").

(** [Set] on a future sets the futures chained to it.  Each call makes one
    more future ready, so their number bounds the depth. *)
Fixpoint futureSet (fuel : nat) (f : nat) (value : any) (err : option string) : W unit :=
  fu ← getFuture f;
  if fut_ready fu then alreadySet
  else
    _ ← modify (set_future f
           (mkFutureImpl value err true (fut_channel fu) (fut_chained fu)));
    _ ← Close (fut_channel fu);
    match fuel with
    | O => mret tt
    | S fuel' =>
        (fix setAll (l : list nat) : W unit :=
           match l with
           | [] => mret tt
           | g :: l' => _ ← futureSet fuel' g value err; setAll l'
           end) (fut_chained fu)
    end.

Definition Future_Set (f : nat) (value : any) (err : option string) : W unit :=
  w ← get; futureSet (size (futures w)) f value err.

Definition SetValue (f : nat) (value : any) : W unit :=
  fu ← getFuture f;
  if fut_ready fu then alreadySet else Future_Set f value None.

Definition SetError (f : nat) (err : option string) : W unit :=
  fu ← getFuture f;
  if fut_ready fu then alreadySet else Future_Set f None err.

Definition IsReady (f : nat) : W bool := fu ← getFuture f; mret (fut_ready fu).

Definition ChainFuture (f g : nat) : W unit :=
  fu ← getFuture f;
  modify (set_future f (mkFutureImpl (fut_value fu) (fut_err fu) (fut_ready fu)
                          (fut_channel fu) (fut_chained fu ++ [g]))).

Definition GetValueAndError (f : nat) : W (any * option string) :=
  fu ← getFuture f; mret (fut_value fu, fut_err fu).

Definition Chain (f future : nat) : W unit :=
  fu ← getFuture f;
  if fut_ready fu then alreadySet
  else
    r ← IsReady future;
    if r : bool then
      ve ← GetValueAndError future;
      Future_Set f (fst ve) (snd ve)
    else ChainFuture future f.

Definition GetAsync (f : nat) (callback : receiveCallback) : W (any * bool * option string) :=
  fu ← getFuture f;
  r ← receiveAsyncImpl (fut_channel fu) (Some callback);
  let '(_, _, more) := r in
  if more : bool then mret (None, false, None)
  else
    fu' ← getFuture f;
    if fut_ready fu' then mret (fut_value fu', true, fut_err fu')
    else panic (panicString "not ready").

Definition RemoveReceiveCallback (f : nat) (callback : nat) : W unit :=
  fu ← getFuture f; removeReceiveCallback (fut_channel fu) callback.

Inductive getState : Type :=
| getDone (value : any) (err : option string)
| getBlocked (callback : receiveCallback).

(** [Get] receives from the future's channel with a nil [valuePtr], for which
    every value decodes; the value is then copied out by reflection. *)
Definition Get_finish (f : nat) (st : option receiveState) : W (option getState) :=
  match st with
  | Some (receiveDone _ more) =>
      if more : bool then panic (panicString "not closed")
      else
        fu ← getFuture f;
        if fut_ready fu then mret (Some (getDone (fut_value fu) (fut_err fu)))
        else panic (panicString "not ready")
  | Some (receiveBlocked cb) => mret (Some (getBlocked cb))
  | None => mret None
  end.

Definition Get (f : nat) : W (option getState) :=
  fu ← getFuture f;
  st ← Receive (λ _, true) (fut_channel fu);
  Get_finish f st.

Definition Get_resume (f : nat) (callback : receiveCallback) : W (option getState) :=
  fu ← getFuture f;
  st ← Receive_resume (λ _, true) (fut_channel fu) callback;
  Get_finish f st.

(** ** Selectors *)

Definition getSelector (i : nat) : W selectorImpl :=
  w ← get;
  match selectors w !! i with
  | Some sel => mret sel
  | None => nilPanic
  end.

Definition addCase (i : nat) (k : selectCase) : W unit :=
  sel ← getSelector i;
  modify (set_selector i (mkSelectorImpl (sel_cases sel ++ [k]) (sel_default sel))).

Definition NewSelector : W nat :=
  i ← fresh_id;
  _ ← modify (set_selector i (mkSelectorImpl [] false));
  mret i.

Definition AddReceive (i c : nat) : W unit := addCase i (caseReceive c).
Definition AddSend (i c : nat) (v : any) : W unit := addCase i (caseSend c v).
Definition AddFuture (i f : nat) : W unit := addCase i (caseFuture f).
Definition AddDefault (i : nat) : W unit :=
  sel ← getSelector i;
  modify (set_selector i (mkSelectorImpl (sel_cases sel) true)).

(** [pair.receiveFunc = nil] or [pair.futureFunc = nil]. *)
Definition removeCase (i : nat) (pairIdx : nat) : W unit :=
  sel ← getSelector i;
  modify (set_selector i
    (mkSelectorImpl (<[pairIdx := caseRemoved]> (sel_cases sel)) (sel_default sel))).

Definition casePending (k : selectCase) : W bool :=
  match k with
  | caseReceive c => ch ← getChannel c; mret (CanReceiveWithoutBlocking ch)
  | caseSend c _ => ch ← getChannel c; mret (CanSendWithoutBlocking ch)
  | caseFuture f => IsReady f
  | caseRemoved => mret false
  end.

Fixpoint hasPendingLoop (l : list selectCase) : W bool :=
  match l with
  | [] => mret false
  | k :: l' => b ← casePending k; if b : bool then mret true else hasPendingLoop l'
  end.

Definition HasPending (i : nat) : W bool := sel ← getSelector i; hasPendingLoop (sel_cases sel).

(** The branch function [Select] calls, with its arguments. *)
Inductive selected : Type :=
| selReceive (pairIdx c : nat) (more : bool)
| selSend (pairIdx : nat)
| selFuture (pairIdx f : nat)
| selDefault.

Inductive cleanup : Type :=
| cleanReceive (c callback : nat)
| cleanSend (c callback : nat)
| cleanFuture (f callback : nat).

Definition runCleanup (k : cleanup) : W unit :=
  match k with
  | cleanReceive c cb => removeReceiveCallback c cb
  | cleanSend c cb => removeSendCallback c cb
  | cleanFuture f cb => RemoveReceiveCallback f cb
  end.

Fixpoint runCleanups (l : list cleanup) : W unit :=
  match l with
  | [] => mret tt
  | k :: l' => _ ← runCleanup k; runCleanups l'
  end.

(** [defer]: the cleanups run whether the branch returns or panics. *)
Definition deferred {A} (m : W A) (cleanups : list cleanup) : W A := λ w,
  let (o, w1) := m w in
  match runCleanups cleanups w1 with
  | (Returned _, w2) => (o, w2)
  | (Panicked p, w2) => (Panicked p, w2)
  end.

Inductive selectState : Type :=
| selectDone (chosen : selected)
| selectBlocked (readyBranch : nat) (cleanups : list cleanup).

Section Branches.
  (** The user's branch functions. *)
  Variable branches : selected → W unit.

(** The loop over the cases; [rb] is the [readyBranch] variable. *)
Fixpoint selectCases (i rb : nat) (hasDefault : bool) (pairIdx : nat)
    (l : list selectCase) (cleanups : list cleanup) : W selectState :=
  match l with
  | [] =>
      if hasDefault then
        deferred (_ ← branches selDefault; mret (selectDone selDefault)) cleanups
      else mret (selectBlocked rb cleanups)
  | caseReceive c :: l' =>
      id ← fresh_id;
      r ← receiveAsyncImpl c (Some (mkReceiveCallback id (receiveSelect rb c pairIdx hasDefault)));
      let '(v, ok, more) := r in
      if ok || negb more then
        deferred
          (_ ← setReadyBranch rb branchTaken;
           _ ← (if more : bool
                then ch ← getChannel c; putChannel c (with_recValue (Some v) ch)
                else removeCase i pairIdx);
           _ ← branches (selReceive pairIdx c more);
           mret (selectDone (selReceive pairIdx c more))) cleanups
      else selectCases i rb hasDefault (S pairIdx) l' (cleanups ++ [cleanReceive c id])
  | caseSend c v :: l' =>
      id ← fresh_id;
      ok ← sendAsyncImpl c v (Some (mkSendCallback id v (sendSelect rb pairIdx)));
      if ok : bool then
        deferred
          (_ ← setReadyBranch rb branchTaken;
           _ ← branches (selSend pairIdx);
           mret (selectDone (selSend pairIdx))) cleanups
      else selectCases i rb hasDefault (S pairIdx) l' (cleanups ++ [cleanSend c id])
  | caseFuture f :: l' =>
      id ← fresh_id;
      r ← GetAsync f (mkReceiveCallback id (futureSelect rb pairIdx f));
      let '(_, ok, _) := r in
      if ok : bool then
        deferred
          (_ ← setReadyBranch rb branchTaken;
           _ ← removeCase i pairIdx;
           _ ← branches (selFuture pairIdx f);
           mret (selectDone (selFuture pairIdx f))) cleanups
      else selectCases i rb hasDefault (S pairIdx) l' (cleanups ++ [cleanFuture f id])
  | caseRemoved :: l' => selectCases i rb hasDefault (S pairIdx) l' cleanups
  end.

Definition Select (i : nat) : W selectState :=
  sel ← getSelector i;
  rb ← fresh_id;
  selectCases i rb (sel_default sel) 0 (sel_cases sel) [].

(** [readyBranch()] *)
Definition runBranch (i : nat) (b : branch) : W selected :=
  match b with
  | branchReceive c pairIdx v more storeNow =>
      _ ← (if storeNow : bool then mret tt
           else ch ← getChannel c; putChannel c (with_recValue (Some v) ch));
      _ ← branches (selReceive pairIdx c more);
      mret (selReceive pairIdx c more)
  | branchSend pairIdx => _ ← branches (selSend pairIdx); mret (selSend pairIdx)
  | branchFuture pairIdx f =>
      _ ← removeCase i pairIdx;
      _ ← branches (selFuture pairIdx f);
      mret (selFuture pairIdx f)
  | branchTaken => mret selDefault
  end.

(** The loop of [Select] that waits for a branch, after a yield. *)
Definition Select_resume (i rb : nat) (cleanups : list cleanup) : W selectState :=
  w ← get;
  match ready w !! rb with
  | Some b => deferred (s ← runBranch i b; mret (selectDone s)) cleanups
  | None => mret (selectBlocked rb cleanups)
  end.
End Branches.

(** ** Signals *)

(** [getUnhandledSignalNames] over the signal channels, in the order the map
    is ranged over. *)
Fixpoint getUnhandledSignalNames (signalChannels : list (string * nat)) : W (list string) :=
  match signalChannels with
  | [] => mret []
  | (k, c) :: rest =>
      r ← receiveAsyncImpl c None;
      let '(v, ok, _) := r in
      _ ← (if ok : bool then ch ← getChannel c; putChannel c (with_recValue (Some v) ch)
           else mret tt);
      names ← getUnhandledSignalNames rest;
      mret (if ok : bool then k :: names else names)
  end.
End Channels.

Arguments world V : clear implicits.
Arguments channelImpl V : clear implicits.
Arguments sendCallback V : clear implicits.
Arguments futureImpl V : clear implicits.
Arguments selectCase V : clear implicits.
Arguments selectorImpl V : clear implicits.
Arguments branch V : clear implicits.
Arguments receiveState V : clear implicits.
Arguments getState V : clear implicits.
