(* ===== verification/ChannelFacts.v ===== *)
(** * Channels deliver in order, futures are set once, selectors choose one
      branch: theorems about [Channel]. *)

From stdpp Require Import base list gmap strings.
From S2P Require Import Prelude Channel.
Open Scope nat_scope.

(** ** Plain channels: only [Send] and [Receive] wait on them *)

Section Plain.
  Context {V : Type}.
  Variables dropSignalFlag channelLostMsgFlag : bool.
  Implicit Types (ch : channelImpl V) (w : world V).
  Local Abbreviation any := (option V).
  Local Abbreviation callReceive := (callReceive dropSignalFlag channelLostMsgFlag).
  Local Abbreviation popReceive := (popReceive dropSignalFlag channelLostMsgFlag).
  Local Abbreviation sendAsyncImpl := (sendAsyncImpl dropSignalFlag channelLostMsgFlag).
  Local Abbreviation Send := (Send dropSignalFlag channelLostMsgFlag).
  Local Abbreviation SendAsync := (SendAsync dropSignalFlag channelLostMsgFlag).
  Local Abbreviation Close := (Close dropSignalFlag channelLostMsgFlag).

Definition plain_send (b : sendCallback V) : bool :=
  match sc_fn b with sendWait _ => true | _ => false end.

Definition plain_receive (b : receiveCallback) : bool :=
  match rc_fn b with receiveWait _ => true | _ => false end.

Record plain (ch : channelImpl V) : Prop := {
  plain_sends : Forall (λ b, Is_true (plain_send b)) (ch_blockedSends ch);
  plain_receives : Forall (λ b, Is_true (plain_receive b)) (ch_blockedReceives ch);
  plain_recValue : ch_recValue ch = None;
  (* nobody waits for a value that is there *)
  plain_waiting : ch_closed ch = false → ch_blockedReceives ch ≠ [] →
    ch_buffer ch = [] ∧ ch_blockedSends ch = [];
  (* nobody waits for space that is there *)
  plain_full : ch_blockedSends ch ≠ [] → length (ch_buffer ch) = ch_size ch;
  plain_bound : length (ch_buffer ch) ≤ ch_size ch;
}.

(** The values in the channel, in the order they will be received. *)
Definition contents (ch : channelImpl V) : list any :=
  option_list (ch_recValue ch) ++ ch_buffer ch ++ (sc_value <$> ch_blockedSends ch).

Lemma run_getChannel c ch w :
  channels w !! c = Some ch → getChannel c w = (Returned ch, w).
Proof. intros Hc. unfold getChannel, mbind, go_bind, get. by rewrite Hc. Qed.

Lemma run_fresh_id w : fresh_id w = (Returned (next_id w), set_next (S (next_id w)) w).
Proof. done. Qed.

(** The sender's [valueConsumed]. *)
Definition consume (b : sendCallback V) (w : world V) : world V :=
  match sc_fn b with
  | sendWait cell => set_consumed ({[cell]} ∪ consumed w) w
  | sendSelect _ _ => w
  end.

Lemma popSend_spec n c ch w :
  channels w !! c = Some ch → plain ch → length (ch_blockedSends ch) ≤ n →
  popSend n c w =
  match ch_blockedSends ch with
  | [] => (Returned None, w)
  | b :: rest =>
      (Returned (Some (sc_value b)), consume b (set_channel c (with_blockedSends rest ch) w))
  end.
Proof.
  intros Hc Hp Hn. revert Hn. destruct n as [|n]; intros Hn; simpl.
  - revert Hn. by destruct (ch_blockedSends ch); simpl; [|lia].
  - unfold mbind, go_bind. rewrite (run_getChannel c ch) by done.
    destruct (ch_blockedSends ch) as [|b rest] eqn:Hb; [done|].
    pose proof (plain_sends ch Hp) as Hs. rewrite Hb in Hs.
    apply Forall_cons in Hs as [Hs _]. unfold plain_send in Hs. unfold consume, callSend.
    destruct (sc_fn b); [|done]. done.
Qed.

Lemma consume_channels b w : channels (consume b w) = channels w.
Proof. unfold consume. by destruct (sc_fn b). Qed.

(** The channel after one value is taken. *)
Definition taken (ch : channelImpl V) : channelImpl V :=
  match ch_buffer ch, ch_blockedSends ch with
  | _ :: rest, [] => with_buffer rest ch
  | _ :: rest, b :: sends => with_blockedSends sends (with_buffer (rest ++ [sc_value b]) ch)
  | [], _ :: sends => with_blockedSends sends ch
  | [], [] => ch
  end.

Definition can_take (ch : channelImpl V) : bool :=
  match ch_buffer ch, ch_blockedSends ch with
  | [], [] => false
  | [], _ :: _ => negb (ch_closed ch)
  | _ :: _, _ => true
  end.

Lemma receive_take c cb ch w :
  channels w !! c = Some ch → plain ch → can_take ch = true →
  ∃ v w', receiveAsyncImpl c cb w = (Returned (v, true, true), w') ∧
    contents ch = v :: contents (taken ch) ∧
    channels w' = <[c := taken ch]> (channels w) ∧ results w' = results w ∧
    next_id w' = next_id w.
Proof.
  intros Hc Hp Ht. unfold receiveAsyncImpl, contents, taken, can_take in *.
  rewrite (plain_recValue ch Hp).
  unfold mbind at 1, go_bind at 1. rewrite (run_getChannel c ch) by done.
  rewrite (plain_recValue ch Hp).
  destruct (ch_buffer ch) as [|r rest] eqn:Hbuf.
  - destruct (ch_blockedSends ch) as [|b sends] eqn:Hs; [done|].
    destruct (ch_closed ch); [done|].
    unfold mbind, go_bind. rewrite (popSend_spec _ c ch) by (try done; by rewrite Hs).
    rewrite Hs. eexists _, _. split_and!; [done| | | |].
    + simpl. by rewrite (plain_recValue ch Hp), Hbuf.
    + by rewrite consume_channels.
    + unfold consume. by destruct (sc_fn b).
    + unfold consume. by destruct (sc_fn b).
  - set (w1 := set_channel c (with_buffer rest ch) w).
    assert (Hc1 : channels w1 !! c = Some (with_buffer rest ch))
      by (simpl; apply lookup_insert_eq).
    unfold mbind, go_bind, putChannel, modify. fold w1.
    destruct (ch_blockedSends ch) as [|b sends] eqn:Hs.
    + simpl. eexists _, _. split_and!; [done| |done|done|done].
      simpl. by rewrite (plain_recValue ch Hp), Hs.
    + simpl length. simpl popSend. unfold mbind, go_bind.
      rewrite (run_getChannel c (with_buffer rest ch)) by done. simpl. rewrite Hs.
      pose proof (plain_sends ch Hp) as Hf. rewrite Hs in Hf.
      apply Forall_cons in Hf as [Hf _]. unfold plain_send in Hf.
      unfold callSend. destruct (sc_fn b) eqn:Hfn; [|done].
      unfold mbind, go_bind, modify, putChannel, modify. simpl.
      rewrite (run_getChannel c (with_blockedSends sends (with_buffer rest ch)))
        by (simpl; apply lookup_insert_eq).
      eexists _, _. split_and!; [done| | | |]; simpl.
      * rewrite (plain_recValue ch Hp). simpl. by rewrite <- app_assoc.
      * by rewrite !insert_insert_eq.
      * done.
      * done.
Qed.

Lemma receive_none c cb ch w :
  channels w !! c = Some ch → plain ch → can_take ch = false →
  receiveAsyncImpl c cb w =
    if ch_closed ch then (Returned (None, false, false), w)
    else (Returned (None, false, true),
          match cb with
          | Some k => set_channel c (with_blockedReceives (ch_blockedReceives ch ++ [k]) ch) w
          | None => w
          end).
Proof.
  intros Hc Hp Ht. unfold receiveAsyncImpl, can_take in *.
  unfold mbind at 1, go_bind at 1. rewrite (run_getChannel c ch) by done.
  rewrite (plain_recValue ch Hp).
  destruct (ch_buffer ch) as [|r rest] eqn:Hbuf; [|done].
  destruct (ch_closed ch) eqn:Hcl; [done|].
  destruct (ch_blockedSends ch) as [|b sends] eqn:Hs; [|done].
  unfold mbind, go_bind. simpl. destruct cb; [|done].
  by rewrite (run_getChannel c ch).
Qed.

(** A waiting receiver gets the value; else it is buffered; else the sender
    waits. *)
Definition offered (ch : channelImpl V) (v : any) (pr : option (sendCallback V))
    : channelImpl V :=
  match ch_blockedReceives ch with
  | _ :: rest => with_blockedReceives rest ch
  | [] =>
      if decide (length (ch_buffer ch) < ch_size ch) then with_buffer (ch_buffer ch ++ [v]) ch
      else match pr with
           | Some b => with_blockedSends (ch_blockedSends ch ++ [b]) ch
           | None => ch
           end
  end.

Definition accepts (ch : channelImpl V) : bool :=
  match ch_blockedReceives ch with
  | _ :: _ => true
  | [] => bool_decide (length (ch_buffer ch) < ch_size ch)
  end.

(** The cell of the first waiting receiver gets the value. *)
Definition handed (ch : channelImpl V) (v : any) (w : world V) : gmap nat (any * bool) :=
  match ch_blockedReceives ch with
  | b :: _ =>
      match rc_fn b with
      | receiveWait cell => <[cell := (v, true)]> (results w)
      | _ => results w
      end
  | [] => results w
  end.

Lemma send_spec c v pr ch w :
  channels w !! c = Some ch → plain ch → ch_closed ch = false →
  ∃ w', sendAsyncImpl c v pr w = (Returned (accepts ch), w') ∧
    channels w' = <[c := offered ch v pr]> (channels w) ∧ results w' = handed ch v w ∧
    consumed w' = consumed w.
Proof.
  intros Hc Hp Hcl. unfold sendAsyncImpl, Channel.sendAsyncImpl, offered, accepts, handed.
  unfold mbind at 1, go_bind at 1. rewrite (run_getChannel c ch), Hcl by done.
  destruct (ch_blockedReceives ch) as [|b rest] eqn:Hr.
  - unfold mbind, go_bind. simpl. rewrite (run_getChannel c ch) by done.
    destruct (decide (length (ch_buffer ch) < ch_size ch)) as [Hlt|Hge].
    + rewrite bool_decide_true by done. by eexists.
    + rewrite bool_decide_false by done. destruct pr.
      * by eexists.
      * exists w. split_and!; try done. by rewrite insert_id.
  - pose proof (plain_receives ch Hp) as Hf. rewrite Hr in Hf.
    apply Forall_cons in Hf as [Hf _]. unfold plain_receive in Hf.
    unfold mbind, go_bind. simpl. unfold mbind, go_bind. rewrite (run_getChannel c ch), Hr by done.
    unfold Channel.callReceive. destruct (rc_fn b) eqn:Hfn; try done.
    eexists. split_and!; [done|done|done|done].
Qed.

(** ** Preservation of [plain] *)

Lemma plain_taken ch : plain ch → can_take ch = true → plain (taken ch).
Proof.
  intros [Hs Hr Hv Hw Hf Hb] Ht. unfold taken, can_take in *.
  destruct (ch_buffer ch) as [|r rest] eqn:Hbuf, (ch_blockedSends ch) as [|b sends] eqn:Hsnd;
    try done; split; simpl; rewrite ?Hbuf, ?Hsnd; try done.
  - by apply Forall_cons in Hs as [_ ?].
  - intros Hcl Hne. by destruct (Hw Hcl Hne).
  - intros Hne. by apply Hf.
  - intros Hcl Hne. by destruct (Hw Hcl Hne).
  - simpl in Hb. lia.
  - by apply Forall_cons in Hs as [_ ?].
  - intros Hcl Hne. by destruct (Hw Hcl Hne).
  - intros _. specialize (Hf ltac:(done)). simpl in Hf. rewrite length_app. simpl. lia.
  - specialize (Hf ltac:(done)). simpl in Hf. rewrite length_app. simpl. lia.
Qed.

Lemma plain_offered ch v pr :
  plain ch → ch_closed ch = false → (∀ b, pr = Some b → plain_send b = true) →
  plain (offered ch v pr).
Proof.
  intros [Hs Hr Hv Hw Hf Hb] Hcl Hpr. unfold offered.
  destruct (ch_blockedReceives ch) as [|b rest] eqn:Hrec.
  - destruct (decide (length (ch_buffer ch) < ch_size ch)) as [Hlt|Hge].
    + split; simpl; rewrite ?Hrec; try done.
      * intros Hne. specialize (Hf Hne). lia.
      * rewrite length_app. simpl. lia.
    + destruct pr as [k|]; [|by split; rewrite ?Hrec].
      split; simpl; rewrite ?Hrec; try done.
      * apply Forall_app. split; [done|]. apply Forall_singleton. by rewrite Hpr.
      * intros _. lia.
  - destruct (Hw Hcl ltac:(done)) as [Hb0 Hs0]. apply Forall_cons in Hr as [_ Hr].
    split; simpl; rewrite ?Hb0, ?Hs0 in *; done.
Qed.

Lemma plain_blockedReceives ch k :
  plain ch → can_take ch = false → ch_closed ch = false → plain_receive k = true →
  plain (with_blockedReceives (ch_blockedReceives ch ++ [k]) ch).
Proof.
  intros [Hs Hr Hv Hw Hf Hb] Ht Hcl Hk. split; simpl; try done.
  - apply Forall_app. split; [done|]. apply Forall_singleton. by rewrite Hk.
  - intros _ _. unfold can_take in Ht. rewrite Hcl in Ht.
    by destruct (ch_buffer ch), (ch_blockedSends ch).
Qed.

Lemma contents_offered ch v pr :
  plain ch → ch_closed ch = false → (∀ b, pr = Some b → sc_value b = v) →
  contents ch ++ (if accepts ch || bool_decide (pr ≠ None) then [v] else []) =
  (match ch_blockedReceives ch with [] => [] | _ :: _ => [v] end) ++
    contents (offered ch v pr).
Proof.
  intros Hp Hcl Hpr. unfold accepts, offered, contents. rewrite (plain_recValue ch Hp).
  destruct (ch_blockedReceives ch) as [|k rest] eqn:Hr.
  - destruct (decide (length (ch_buffer ch) < ch_size ch)) as [Hlt|Hge].
    + rewrite bool_decide_true by done. simpl. rewrite (plain_recValue ch Hp).
      assert (ch_blockedSends ch = []) as ->.
      { destruct (ch_blockedSends ch) eqn:Hs; [done|].
        pose proof (plain_full ch Hp ltac:(by rewrite Hs)). lia. }
      destruct pr; simpl; by rewrite !app_nil_r.
    + rewrite (bool_decide_false (_ < _)) by done. destruct pr as [b|]; simpl.
      * rewrite (plain_recValue ch Hp), fmap_app. simpl. rewrite (Hpr b) by done.
        by rewrite app_assoc.
      * by rewrite (plain_recValue ch Hp), app_nil_r.
  - destruct (plain_waiting ch Hp Hcl ltac:(by rewrite Hr)) as [Hb Hs].
    destruct pr; simpl; by rewrite (plain_recValue ch Hp), Hb, Hs.
Qed.

(** ** Runs of channel operations *)

Inductive chanOp : Type :=
| CSendAsync (v : any)
| CSend (v : any)
| CReceiveAsync
| CReceive
| CClose.

(** The value the receiver that waited longest will find when it resumes. *)
Definition woken (c : nat) (w w' : world V) : list any :=
  match channels w !! c with
  | Some ch =>
      match ch_blockedReceives ch with
      | b :: _ =>
          match rc_fn b with
          | receiveWait cell =>
              match results w' !! cell with
              | Some (v, true) => [v]
              | _ => []
              end
          | _ => []
          end
      | [] => []
      end
  | None => []
  end.

(** The state after an operation, the values it put into the channel and the
    values that reached a receiver. *)
Definition chanStep (c : nat) (op : chanOp) (w : world V) : world V * list any * list any :=
  match op with
  | CSendAsync v =>
      match SendAsync c v w with
      | (Returned true, w') => (w', [v], woken c w w')
      | (_, w') => (w', [], [])
      end
  | CSend v =>
      match Send c v w with
      | (Returned _, w') => (w', [v], woken c w w')
      | (_, w') => (w', [], [])
      end
  | CReceiveAsync =>
      match ReceiveAsyncWithMoreFlag (λ _, true) 1 c w with
      | (Returned (Some (v, true, _)), w') => (w', [], [v])
      | (_, w') => (w', [], [])
      end
  | CReceive =>
      match Receive (λ _, true) c w with
      | (Returned (Some (receiveDone v true)), w') => (w', [], [v])
      | (_, w') => (w', [], [])
      end
  | CClose => (final (Close c) w, [], [])
  end.

Fixpoint chanRun (c : nat) (ops : list chanOp) (w : world V)
    : world V * list any * list any :=
  match ops with
  | [] => (w, [], [])
  | op :: ops' =>
      let '(w1, acc1, del1) := chanStep c op w in
      let '(w2, acc2, del2) := chanRun c ops' w1 in
      (w2, acc1 ++ acc2, del1 ++ del2)
  end.

Lemma taken_size ch : ch_size (taken ch) = ch_size ch.
Proof. unfold taken. by repeat case_match. Qed.

Lemma offered_size ch v pr : ch_size (offered ch v pr) = ch_size ch.
Proof. unfold offered. by repeat case_match. Qed.

Definition at_channel (c n : nat) (w : world V) (ch : channelImpl V) : Prop :=
  channels w !! c = Some ch ∧ plain ch ∧ ch_size ch = n.

(** What one operation does to the queue. *)
Definition conserves (c n : nat) (ch : channelImpl V) (r : world V * list any * list any) : Prop :=
  let '(w', acc, del) := r in
  ∃ ch', at_channel c n w' ch' ∧ contents ch ++ acc = del ++ contents ch'.

Lemma woken_handed c ch v w w' :
  channels w !! c = Some ch → plain ch → results w' = handed ch v w →
  woken c w w' = match ch_blockedReceives ch with [] => [] | _ :: _ => [v] end.
Proof.
  intros Hc Hp Hr. unfold woken. rewrite Hc.
  destruct (ch_blockedReceives ch) as [|b rest] eqn:Hb; [done|].
  pose proof (plain_receives ch Hp) as Hf. rewrite Hb in Hf.
  apply Forall_cons in Hf as [Hf _]. unfold plain_receive in Hf.
  unfold handed in Hr. rewrite Hb in Hr. destruct (rc_fn b); try done.
  by rewrite Hr, lookup_insert_eq.
Qed.

Lemma send_closed c v pr ch w :
  channels w !! c = Some ch → ch_closed ch = true →
  sendAsyncImpl c v pr w = (Panicked (panicString "Closed channel"), w).
Proof.
  intros Hc Hcl. unfold Channel.sendAsyncImpl, mbind, go_bind.
  rewrite (run_getChannel c ch) by done. by rewrite Hcl.
Qed.

Lemma chanStep_SendAsync c n ch v w :
  at_channel c n w ch → conserves c n ch (chanStep c (CSendAsync v) w).
Proof.
  intros (Hc & Hp & Hn). unfold chanStep, Channel.SendAsync. destruct (ch_closed ch) eqn:Hcl.
  - rewrite (send_closed c v None ch) by done. exists ch. split; [done|]. by rewrite app_nil_r.
  - destruct (send_spec c v None ch w Hc Hp Hcl) as (w' & -> & Hch & Hres & _).
    pose proof (contents_offered ch v None Hp Hcl ltac:(done)) as Hq.
    assert (Hat : at_channel c n w' (offered ch v None)).
    { split_and!; [rewrite Hch; apply lookup_insert_eq|by apply plain_offered|].
      by rewrite offered_size. }
    pose proof (woken_handed c ch v w w' Hc Hp Hres) as Hwk.
    destruct (accepts ch) eqn:Ha; simpl in Hq.
    + exists (offered ch v None). split; [done|]. by rewrite Hwk.
    + exists (offered ch v None). split; [done|]. rewrite Hq.
      unfold accepts in Ha. by destruct (ch_blockedReceives ch).
Qed.

Lemma chanStep_Send c n ch v w :
  at_channel c n w ch → conserves c n ch (chanStep c (CSend v) w).
Proof.
  intros (Hc & Hp & Hn). unfold chanStep, Channel.Send, mbind, go_bind. rewrite !run_fresh_id.
  set (w1 := set_next (S (next_id (set_next _ _))) _). set (b := mkSendCallback _ _ _).
  assert (Hc1 : channels w1 !! c = Some ch) by exact Hc.
  destruct (ch_closed ch) eqn:Hcl.
  - rewrite (send_closed c v _ ch) by done. exists ch. split; [done|]. by rewrite app_nil_r.
  - destruct (send_spec c v (Some b) ch w1 Hc1 Hp Hcl) as (w' & -> & Hch & Hres & _).
    pose proof (contents_offered ch v (Some b) Hp Hcl ltac:(by intros ? [= <-])) as Hq.
    rewrite (bool_decide_true (Some b ≠ None)), orb_true_r in Hq by done.
    assert (Hat : at_channel c n w' (offered ch v (Some b))).
    { split_and!; [rewrite Hch; apply lookup_insert_eq| |by rewrite offered_size].
      apply plain_offered; try done. by intros ? [= <-]. }
    pose proof (woken_handed c ch v w w' Hc Hp Hres) as Hwk.
    destruct (accepts ch) eqn:Ha.
    + exists (offered ch v (Some b)). split; [done|]. by rewrite Hwk.
    + unfold Send_resume, mbind, go_bind, get. destruct (decide _).
      * exists (offered ch v (Some b)). split; [done|]. by rewrite Hwk.
      * destruct Hat as (Hat1 & Hat2 & Hat3). rewrite (run_getChannel c _ w' Hat1).
        assert (ch_closed (offered ch v (Some b)) = false) as ->
          by (unfold offered; repeat case_match; done).
        exists (offered ch v (Some b)). split; [done|]. by rewrite Hwk.
Qed.

Lemma chanStep_ReceiveAsync c n ch w :
  at_channel c n w ch → conserves c n ch (chanStep c CReceiveAsync w).
Proof.
  intros (Hc & Hp & Hn). unfold chanStep, ReceiveAsyncWithMoreFlag, mbind, go_bind.
  destruct (can_take ch) eqn:Ht.
  - destruct (receive_take c None ch w Hc Hp Ht) as (v & w' & -> & Hq & Hch & _).
    exists (taken ch). split; [|by rewrite app_nil_r].
    split_and!; [rewrite Hch; apply lookup_insert_eq|by apply plain_taken|by rewrite taken_size].
  - rewrite (receive_none c None ch) by done.
    destruct (ch_closed ch); exists ch; (split; [done|by rewrite app_nil_r]).
Qed.

Lemma chanStep_Receive c n ch w :
  at_channel c n w ch → conserves c n ch (chanStep c CReceive w).
Proof.
  intros (Hc & Hp & Hn). unfold chanStep, Receive, receiveAgain, mbind, go_bind.
  rewrite !run_fresh_id. set (w1 := set_next (S (next_id (set_next _ _))) _).
  assert (Hc1 : channels w1 !! c = Some ch) by exact Hc.
  rewrite (run_getChannel c ch) by done. simpl receiveLoop. unfold mbind, go_bind.
  set (k := mkReceiveCallback _ _). destruct (can_take ch) eqn:Ht.
  - destruct (receive_take c (Some k) ch w1 Hc1 Hp Ht) as (v & w' & -> & Hq & Hch & _).
    exists (taken ch). split; [|by rewrite app_nil_r].
    split_and!; [rewrite Hch; apply lookup_insert_eq|by apply plain_taken|by rewrite taken_size].
  - rewrite (receive_none c (Some k) ch) by done. destruct (ch_closed ch) eqn:Hcl.
    + exists ch. split; [done|by rewrite app_nil_r].
    + eexists. split; [split_and!; [simpl; apply lookup_insert_eq|by apply plain_blockedReceives|done]|].
      by rewrite app_nil_r.
Qed.

Lemma callAll_channels l w :
  Forall (λ b, Is_true (plain_receive b)) l →
  channels (final (callAll dropSignalFlag channelLostMsgFlag l) w) = channels w.
Proof.
  revert w. induction l as [|b l IH]; intros w Hf; [done|].
  apply Forall_cons in Hf as [Hb Hf]. unfold plain_receive in Hb. simpl.
  unfold final, mbind, go_bind, Channel.callReceive. destruct (rc_fn b); try done.
  exact (IH _ Hf).
Qed.

Lemma chanStep_Close c n ch w :
  at_channel c n w ch → conserves c n ch (chanStep c CClose w).
Proof.
  intros (Hc & Hp & Hn). simpl. exists (with_closed true ch).
  unfold final, Channel.Close, mbind, go_bind. rewrite (run_getChannel c ch) by done.
  unfold putChannel, modify. split; [|by rewrite app_nil_r].
  pose proof (callAll_channels (ch_blockedReceives ch)
    (set_channel c (with_closed true ch) w) (plain_receives ch Hp)) as Hch.
  unfold final in Hch. split_and!; [rewrite Hch; simpl; apply lookup_insert_eq| |done].
  destruct Hp; by split.
Qed.

Lemma chanStep_conserves c n op ch w :
  at_channel c n w ch → conserves c n ch (chanStep c op w).
Proof.
  intros Hat. destruct op;
    eauto using chanStep_SendAsync, chanStep_Send, chanStep_ReceiveAsync, chanStep_Receive,
      chanStep_Close.
Qed.

Lemma chanRun_conserves c n ops : ∀ ch w,
  at_channel c n w ch → conserves c n ch (chanRun c ops w).
Proof.
  induction ops as [|op ops IH]; intros ch w Hat; simpl.
  { exists ch. split; [done|]. by rewrite app_nil_r. }
  pose proof (chanStep_conserves c n op ch w Hat) as Hs.
  destruct (chanStep c op w) as [[w1 acc1] del1]. destruct Hs as (ch1 & Hat1 & Hq1).
  specialize (IH ch1 w1 Hat1). destruct (chanRun c ops w1) as [[w2 acc2] del2].
  destruct IH as (ch2 & Hat2 & Hq2). exists ch2. split; [done|].
  by rewrite app_assoc, Hq1, <- app_assoc, Hq2, app_assoc.
Qed.

(** ** Receiving with values that do not decode *)

Section Decode.
  Variable decodes : any → bool.

Lemma length_contents ch : length (contents ch) = Len ch.
Proof.
  unfold contents, Len. rewrite !length_app, length_fmap.
  destruct (ch_recValue ch); simpl; lia.
Qed.

(** The outcome of [Receive] on a channel. *)
Definition received (c n : nat) (callback : receiveCallback) (ch : channelImpl V)
    (r : outcome (option (receiveState V)) * world V) : Prop :=
  ∃ bad ch' st w', r = (Returned (Some st), w') ∧ at_channel c n w' ch' ∧
    Forall (λ v, decodes v = false) bad ∧
    match st with
    | receiveDone v true => decodes v = true ∧ contents ch = bad ++ v :: contents ch'
    | receiveDone v false =>
        v = None ∧ ch_closed ch = true ∧ contents ch = bad ++ contents ch' ∧ ch_buffer ch' = []
    | receiveBlocked k =>
        k = callback ∧ ch_closed ch = false ∧ contents ch = bad ∧ contents ch' = [] ∧
        ∃ l, ch_blockedReceives ch' = l ++ [callback]
    end.

Lemma taken_closed ch : ch_closed (taken ch) = ch_closed ch.
Proof. unfold taken. by repeat case_match. Qed.

Lemma receiveLoop_received fuel c n callback : ∀ ch w,
  at_channel c n w ch → plain_receive callback = true → Len ch < fuel →
  received c n callback ch (receiveLoop decodes fuel c callback w).
Proof.
  induction fuel as [|fuel IH]; intros ch w (Hc & Hp & Hn) Hk Hlen; [lia|].
  simpl. unfold mbind, go_bind. destruct (can_take ch) eqn:Ht.
  - destruct (receive_take c (Some callback) ch w Hc Hp Ht) as (v & w' & -> & Hq & Hch & _).
    assert (Hat : at_channel c n w' (taken ch)).
    { split_and!; [rewrite Hch; apply lookup_insert_eq|by apply plain_taken|by rewrite taken_size]. }
    simpl. destruct (decodes v) eqn:Hd.
    + exists [], (taken ch), (receiveDone v true), w'. by split_and!.
    + assert (Hlt : Len (taken ch) < fuel).
      { rewrite <- length_contents in Hlen |- *. rewrite Hq in Hlen. simpl in Hlen. lia. }
      destruct (IH (taken ch) w' Hat Hk Hlt) as (bad & ch' & st & w2 & -> & Hat' & Hbad & Hst).
      exists (v :: bad), ch', st, w2. split_and!; [done|done|by constructor|].
      rewrite taken_closed in Hst. rewrite Hq. simpl.
      destruct st as [v' []|k]; [destruct Hst as (? & ->)|destruct Hst as (? & ? & -> & ?)|
        destruct Hst as (? & ? & -> & ? & ?)]; by split_and!.
  - rewrite (receive_none c (Some callback) ch) by done. destruct (ch_closed ch) eqn:Hcl; simpl.
    + exists [], ch, (receiveDone None false), w. split_and!; try done.
      unfold can_take in Ht. by destruct (ch_buffer ch).
    + assert (ch_buffer ch = [] ∧ ch_blockedSends ch = []) as [Hb Hs].
      { unfold can_take in Ht. rewrite Hcl in Ht.
        by destruct (ch_buffer ch), (ch_blockedSends ch). }
      eexists [], _, (receiveBlocked callback), _. split; [reflexivity|].
      split; [split_and!; [simpl; apply lookup_insert_eq|by apply plain_blockedReceives|done]|].
      split; [constructor|].
      unfold contents; simpl. rewrite (plain_recValue ch Hp), Hb, Hs. eauto 10.
Qed.

Lemma receiveAgain_received c n callback ch w :
  at_channel c n w ch → plain_receive callback = true →
  received c n callback ch (receiveAgain decodes c callback w).
Proof.
  intros Hat Hk. unfold receiveAgain, mbind, go_bind.
  rewrite (run_getChannel c ch) by apply Hat. apply receiveLoop_received; auto.
Qed.
End Decode.

(** The predicates agree with the operations. *)
Lemma can_take_CanReceive ch :
  plain ch → CanReceiveWithoutBlocking ch = can_take ch || ch_closed ch.
Proof.
  intros Hp. unfold CanReceiveWithoutBlocking, can_take. rewrite (plain_recValue ch Hp).
  destruct (ch_buffer ch), (ch_blockedSends ch), (ch_closed ch); done.
Qed.

Lemma accepts_CanSend ch : CanSendWithoutBlocking ch = accepts ch.
Proof.
  unfold CanSendWithoutBlocking, accepts. destruct (ch_blockedReceives ch); simpl.
  - by rewrite orb_false_r.
  - by rewrite orb_true_r.
Qed.

(** ** Futures *)

Lemma callAll_frame l w :
  Forall (λ b, Is_true (plain_receive b)) l →
  ∃ w', callAll dropSignalFlag channelLostMsgFlag l w = (Returned tt, w') ∧
    channels w' = channels w ∧ futures w' = futures w ∧
    (∀ cell, results w !! cell = Some (None, false) → results w' !! cell = Some (None, false)) ∧
    (∀ b cell, b ∈ l → rc_fn b = receiveWait cell → results w' !! cell = Some (None, false)).
Proof.
  revert w. induction l as [|b l IH]; intros w Hf.
  { exists w. split_and!; try done. set_solver. }
  apply Forall_cons in Hf as [Hb Hf]. unfold plain_receive in Hb. simpl.
  unfold mbind, go_bind, Channel.callReceive. destruct (rc_fn b) as [cell| |] eqn:Hfn; try done.
  destruct (IH (set_results (<[cell := (None, false)]> (results w)) w) Hf)
    as (w' & Hrun & Hch & Hfu & Hkeep & Hall).
  exists w'. split_and!; [exact Hrun|done|done| |].
  - intros cell' Hc. apply Hkeep. simpl. destruct (decide (cell = cell')) as [->|?].
    + apply lookup_insert_eq.
    + by rewrite lookup_insert_ne.
  - intros b' cell' [->|Hin]%elem_of_cons Hfn'.
    + apply Hkeep. simpl. assert (cell' = cell) as -> by congruence. apply lookup_insert_eq.
    + by eapply Hall.
Qed.

Lemma run_getFuture f fu w :
  futures w !! f = Some fu → getFuture f w = (Returned fu, w).
Proof. intros Hf. unfold getFuture, mbind, go_bind, get. by rewrite Hf. Qed.

Local Abbreviation futureSet := (futureSet dropSignalFlag channelLostMsgFlag).
Local Abbreviation Future_Set := (Future_Set dropSignalFlag channelLostMsgFlag).

Lemma set_twice f fu v e w :
  futures w !! f = Some fu → fut_ready fu = true →
  Future_Set f v e w = (Panicked (panicString "already set"), w).
Proof.
  intros Hf Hr. unfold Channel.Future_Set, mbind, go_bind, get.
  destruct (size (futures w)); simpl; unfold mbind, go_bind;
    rewrite (run_getFuture f fu) by done; by rewrite Hr.
Qed.

(** A future nobody chained to. *)
Lemma set_spec f fu ch v e w :
  futures w !! f = Some fu → fut_ready fu = false → fut_chained fu = [] →
  channels w !! fut_channel fu = Some ch → plain ch →
  ∃ w', Future_Set f v e w = (Returned tt, w') ∧
    futures w' = <[f := mkFutureImpl v e true (fut_channel fu) []]> (futures w) ∧
    channels w' = <[fut_channel fu := with_closed true ch]> (channels w) ∧
    (∀ b cell, b ∈ ch_blockedReceives ch → rc_fn b = receiveWait cell →
       results w' !! cell = Some (None, false)).
Proof.
  intros Hf Hr Hchain Hc Hp. unfold Channel.Future_Set, mbind at 1, go_bind at 1, get.
  set (w1 := set_future f (mkFutureImpl v e true (fut_channel fu) []) w).
  set (w2 := set_channel (fut_channel fu) (with_closed true ch) w1).
  destruct (callAll_frame (ch_blockedReceives ch) w2 (plain_receives ch Hp))
    as (w' & Hrun & Hch & Hfu & _ & Hall).
  assert (Hclose : Channel.Close dropSignalFlag channelLostMsgFlag (fut_channel fu) w1 =
                   (Returned tt, w')).
  { unfold Channel.Close, mbind, go_bind. rewrite (run_getChannel _ ch) by done. exact Hrun. }
  exists w'. split_and!; [|by rewrite Hfu|by rewrite Hch|done].
  destruct (size (futures w)); simpl; unfold mbind, go_bind;
    rewrite (run_getFuture f fu) by done; rewrite Hr, Hchain; unfold modify; fold w1;
    by rewrite Hclose.
Qed.
End Plain.

(** ** Claims *)

Definition emptyWorld {V} : world V := mkWorld ∅ ∅ ∅ ∅ ∅ ∅ 0.


Definition exampleChanOps : list (@chanOp Z) :=
  [CReceive; CSend (Some 1%Z); CSendAsync (Some 2%Z); CSend (Some 3%Z); CSend (Some 4%Z);
   CReceiveAsync; CClose; CReceive; CSend (Some 5%Z)].


(** [Receive] terminates whatever values fail to decode: it drops exactly
    the values before the first one that decodes and returns that one; when
    none does it reports a closed channel, or waits as the last receiver of an
    open and empty one. *)
Theorem receive_first_decodable {V} (decodes : option V → bool) c n ch w :
  at_channel c n w ch →
  received decodes c n (mkReceiveCallback (S (next_id w)) (receiveWait (next_id w))) ch
    (Receive decodes c w).
Proof.
  intros (Hc & Hp & Hn). unfold Receive, mbind, go_bind. rewrite !run_fresh_id.
  by apply receiveAgain_received.
Qed.

Lemma receive_first_decodable_witness :
  let w := final (_ ← NewBufferedChannel 2;
                  _ ← SendAsync true true 0 (Some 7%Z); SendAsync true true 0 (Some 8%Z))
             emptyWorld in
  ∃ w', Receive (λ v, bool_decide (v = Some 8%Z)) 0 w =
          (Returned (Some (receiveDone (Some 8%Z) true)), w').
Proof.
  intros w. set (ch := mkChannelImpl 2 [Some 7%Z; Some 8%Z] [] [] false None).
  assert (Hat : at_channel 0 2 w ch).
  { split_and!; [vm_compute; reflexivity| |reflexivity].
    by split; simpl. }
  destruct (receive_first_decodable (λ v, bool_decide (v = Some 8%Z)) 0 2 ch w Hat)
    as (bad & ch' & st & w' & Hrun & _ & _ & Hst).
  exists w'. rewrite Hrun. assert (Hr := f_equal fst Hrun). vm_compute in Hr.
  injection Hr as Hr. by rewrite <- Hr.
Defined.

(** The predicates a selector consults are exact: on a channel without
    pending selectors, [CanReceiveWithoutBlocking] holds exactly when [Receive]
    returns without blocking, and on an open one [CanSendWithoutBlocking] holds
    exactly when [Send] does. *)
Theorem nonblocking_predicates_exact {V} drop lost c n (ch : channelImpl V) v w :
  at_channel c n w ch → (∀ i, i ∈ consumed w → i < next_id w) →
  (CanReceiveWithoutBlocking ch = true ↔
     ∃ u more, result (Receive (λ _, true) c) w = Returned (Some (receiveDone u more))) ∧
  (ch_closed ch = false →
     (CanSendWithoutBlocking ch = true ↔
        result (Send drop lost c v) w = Returned sendDone)).
Proof.
  intros (Hc & Hp & Hn) Hcons. split.
  - unfold result, Receive, receiveAgain, mbind, go_bind. rewrite !run_fresh_id.
    set (w1 := set_next (S (next_id (set_next _ _))) _). set (k := mkReceiveCallback _ _).
    rewrite (run_getChannel c ch) by done. simpl receiveLoop. unfold mbind, go_bind.
    rewrite can_take_CanReceive by done. destruct (can_take ch) eqn:Ht.
    + destruct (receive_take c (Some k) ch w1 Hc Hp Ht) as (u & w' & -> & _). naive_solver.
    + rewrite (receive_none c _ ch) by done. destruct (ch_closed ch); simpl; naive_solver.
  - intros Hcl. rewrite accepts_CanSend. unfold result, Send, mbind, go_bind.
    rewrite !run_fresh_id. set (w1 := set_next (S (next_id (set_next _ _))) _).
    set (b := mkSendCallback _ _ _).
    destruct (send_spec drop lost c v (Some b) ch w1 Hc Hp Hcl) as (w' & -> & Hch & _ & Hco).
    destruct (accepts ch) eqn:Ha; [done|].
    unfold Send_resume, mbind, go_bind, get. rewrite decide_False.
    + rewrite (run_getChannel c (offered ch v (Some b)) w')
        by (rewrite Hch; apply lookup_insert_eq).
      assert (ch_closed (offered ch v (Some b)) = false) as ->
        by (unfold offered; repeat case_match; done). done.
    + rewrite Hco. intros Hin. apply Hcons in Hin. lia.
Qed.

Lemma nonblocking_predicates_exact_witness :
  let w := final (NewBufferedChannel 0) (emptyWorld (V:=Z)) in
  CanReceiveWithoutBlocking (mkChannelImpl (V:=Z) 0 [] [] [] false None) = false ∧
  result (Send true true 0 (Some 1%Z)) w ≠ Returned sendDone.
Proof.
  intros w. split; [reflexivity|]. set (ch := mkChannelImpl (V:=Z) 0 [] [] [] false None).
  assert (Hat : at_channel 0 0 w ch)
    by (split_and!; [vm_compute; reflexivity|by split; simpl|reflexivity]).
  destruct (nonblocking_predicates_exact true true 0 0 ch (Some 1%Z) w Hat) as [_ Hs];
    [intros i Hi; by apply not_elem_of_empty in Hi|].
  intros Hd. by apply (Hs eq_refl) in Hd.
Defined.

(** [ReceiveAsync] does not terminate on an open and empty channel when the
    destination never decodes (a destination that is not a pointer): for every
    number of iterations it is still looping, in the same state. *)
Theorem receiveAsync_diverges {V} (decodes : option V → bool) c n ch w :
  at_channel c n w ch → can_take ch = false → ch_closed ch = false → decodes None = false →
  ∀ fuel, ReceiveAsyncWithMoreFlag decodes fuel c w = (Returned None, w).
Proof.
  intros (Hc & Hp & Hn) Ht Hcl Hd fuel. induction fuel as [|fuel IH]; [done|].
  simpl. unfold mbind, go_bind. rewrite (receive_none c None ch) by done. rewrite Hcl.
  simpl. by rewrite Hd.
Qed.

Lemma receiveAsync_diverges_witness :
  let w := final (NewBufferedChannel 0) (emptyWorld (V:=Z)) in
  ReceiveAsyncWithMoreFlag (λ _, false) 1000 0 w = (Returned None, w).
Proof.
  intros w. set (ch := mkChannelImpl (V:=Z) 0 [] [] [] false None).
  apply (receiveAsync_diverges (λ _, false) 0 0 ch w); try reflexivity.
  split_and!; [vm_compute; reflexivity|by split; simpl|reflexivity].
Defined.

Lemma set_once_facts {V} drop lost f fu (ch : channelImpl V) v e w :
  futures w !! f = Some fu → fut_ready fu = false → fut_chained fu = [] →
  channels w !! fut_channel fu = Some ch → plain ch →
  ch_buffer ch = [] → ch_blockedSends ch = [] →
  ∃ w', Future_Set drop lost f v e w = (Returned tt, w') ∧
    futures w' = <[f := mkFutureImpl v e true (fut_channel fu) []]> (futures w) ∧
    channels w' = <[fut_channel fu := with_closed true ch]> (channels w) ∧
    result (IsReady f) w' = Returned true ∧
    result (Get f) w' = Returned (Some (getDone v e)) ∧
    (∀ k, k ∈ ch_blockedReceives ch →
       result (Get_resume f k) w' = Returned (Some (getDone v e))) ∧
    (∀ v' e', Future_Set drop lost f v' e' w' = (Panicked (panicString "already set"), w')).
Proof.
  intros Hf Hr Hchain Hc Hp Hb Hs.
  destruct (set_spec drop lost f fu ch v e w Hf Hr Hchain Hc Hp) as (w' & Hrun & Hfu & Hch & Hall).
  set (fu' := mkFutureImpl v e true (fut_channel fu) []).
  assert (Hf' : futures w' !! f = Some fu') by (rewrite Hfu; apply lookup_insert_eq).
  assert (Hc' : channels w' !! fut_channel fu' = Some (with_closed true ch))
    by (rewrite Hch; apply lookup_insert_eq).
  assert (Hp' : plain (with_closed true ch)) by (destruct Hp; by split).
  exists w'. split_and!; [done|exact Hfu|exact Hch| | | |].
  - unfold result, IsReady, mbind, go_bind. by rewrite (run_getFuture f fu').
  - unfold result, Get, mbind, go_bind. rewrite (run_getFuture f fu') by done.
    unfold Receive, receiveAgain, mbind, go_bind. rewrite !run_fresh_id.
    rewrite (run_getChannel _ (with_closed true ch)) by exact Hc'.
    simpl receiveLoop. unfold mbind, go_bind.
    rewrite (receive_none _ _ (with_closed true ch)); [|exact Hc'|done|].
    + simpl. unfold mbind, go_bind. by rewrite (run_getFuture f fu').
    + unfold can_take. simpl. by rewrite Hb, Hs.
  - intros k Hk. unfold result, Get_resume, mbind, go_bind.
    rewrite (run_getFuture f fu') by done. unfold Receive_resume.
    pose proof (proj1 (Forall_forall _ _) (plain_receives ch Hp) k Hk) as Hpk.
    unfold plain_receive in Hpk. destruct (rc_fn k) as [cell| |] eqn:Hfn; try done.
    unfold mbind, go_bind, get. rewrite (Hall k cell Hk Hfn). simpl.
    unfold mbind, go_bind. by rewrite (run_getFuture f fu').
  - intros v' e'. by apply (set_twice drop lost f fu').
Qed.

(** A future is set once: after [Set] it is ready with the value and error
    given; every coroutine waiting in [Get], and every later [Get], returns
    them; a second [Set] panics and changes nothing. *)
Theorem future_set_once {V} drop lost f fu (ch : channelImpl V) v e w :
  futures w !! f = Some fu → fut_ready fu = false → fut_chained fu = [] →
  channels w !! fut_channel fu = Some ch → plain ch →
  ch_buffer ch = [] → ch_blockedSends ch = [] →
  ∃ w', Future_Set drop lost f v e w = (Returned tt, w') ∧
    result (IsReady f) w' = Returned true ∧
    result (Get f) w' = Returned (Some (getDone v e)) ∧
    (∀ k, k ∈ ch_blockedReceives ch →
       result (Get_resume f k) w' = Returned (Some (getDone v e))) ∧
    (∀ v' e', Future_Set drop lost f v' e' w' = (Panicked (panicString "already set"), w')).
Proof.
  intros Hf Hr Hchain Hc Hp Hb Hs.
  destruct (set_once_facts drop lost f fu ch v e w Hf Hr Hchain Hc Hp Hb Hs)
    as (w' & ? & _ & _ & ? & ? & ? & ?). by exists w'.
Qed.

Lemma future_set_once_witness :
  let w := final (f ← NewFuture; Get f) (emptyWorld (V:=Z)) in
  ∃ w', Future_Set true true 1 (Some 9%Z) None w = (Returned tt, w') ∧
    result (Get_resume 1 (mkReceiveCallback 3 (receiveWait 2))) w' =
      Returned (Some (getDone (Some 9%Z) None)).
Proof.
  intros w.
  set (ch := mkChannelImpl (V:=Z) 0 [] [] [mkReceiveCallback 3 (receiveWait 2)] false None).
  destruct (future_set_once true true 1 (mkFutureImpl None None false 0 []) ch (Some 9%Z) None w)
    as (w' & Hrun & _ & _ & Hk & _); try (vm_compute; reflexivity).
  - split; simpl; try done. by apply Forall_singleton.
  - exists w'. split; [exact Hrun|]. apply Hk. by left.
Defined.

(** [ReceiveWithTimeout] on a channel that holds only values that fail to
    decode panics with "unexpected empty channel", although [Receive] and
    [ReceiveAsync] drop such values. *)
Theorem receiveWithTimeout_corrupt {V} (decodes : option V → bool) c n v (ch : channelImpl V) w :
  at_channel c n w ch → ch_closed ch = false → contents ch = [v] → decodes v = false →
  decodes None = true → ∀ fuel, 2 ≤ fuel →
  0 < Len ch ∧
  result (ReceiveWithTimeout decodes fuel c awaitHeld) w =
    Panicked (panicString "unexpected empty channel").
Proof.
  intros (Hc & Hp & Hn) Hcl Hq Hv Hnil fuel Hfuel.
  split; [rewrite <- length_contents, Hq; simpl; lia|].
  assert (Ht : can_take ch = true).
  { unfold can_take, contents in *. rewrite (plain_recValue ch Hp) in Hq. rewrite Hcl.
    by destruct (ch_buffer ch), (ch_blockedSends ch). }
  destruct (receive_take c None ch w Hc Hp Ht) as (u & w' & Hrun & Hq' & Hch & _).
  rewrite Hq in Hq'. injection Hq' as <- Hempty.
  assert (Hp' : plain (taken ch)) by by apply plain_taken.
  assert (Ht' : can_take (taken ch) = false).
  { symmetry in Hempty. unfold contents in Hempty. rewrite (plain_recValue _ Hp') in Hempty.
    apply app_eq_nil in Hempty as [_ [Hb Hs]%app_eq_nil].
    unfold can_take. rewrite Hb. by destruct (ch_blockedSends (taken ch)). }
  destruct fuel as [|[|fuel]]; [lia|lia|].
  unfold result, ReceiveWithTimeout. simpl. unfold mbind, go_bind. rewrite Hrun. simpl.
  rewrite Hv. unfold mbind, go_bind.
  rewrite (receive_none c None (taken ch) w'); [|rewrite Hch; apply lookup_insert_eq|done|done].
  rewrite taken_closed, Hcl. simpl. by rewrite Hnil.
Qed.

Lemma receiveWithTimeout_corrupt_witness :
  let w := final (_ ← NewBufferedChannel 1; SendAsync true true 0 (Some 7%Z)) emptyWorld in
  result (ReceiveWithTimeout (λ v, bool_decide (v = None)) 2 0 awaitHeld) w =
    Panicked (panicString "unexpected empty channel").
Proof.
  intros w. set (ch := mkChannelImpl 1 [Some 7%Z] [] [] false None).
  apply (receiveWithTimeout_corrupt (λ v, bool_decide (v = None)) 0 1 (Some 7%Z) ch w);
    try reflexivity.
  split_and!; [vm_compute; reflexivity|by split; simpl|reflexivity].
Defined.

(** A branch function that does nothing. *)
Definition idle {V} (s : selected) : Go (world V) unit := mret tt.

(** A selector waits on a channel, the channel is closed, the selector resumes
    and is asked again. *)
Definition closeWhileSelecting (drop lost : bool) : Go (world Z) (selectState * selectState) :=
  c ← NewBufferedChannel 0;
  i ← NewSelector;
  _ ← AddReceive i c;
  s1 ← Select drop lost idle i;
  _ ← Close drop lost c;
  s2 ← match s1 with
       | selectBlocked rb cleanups => Select_resume idle i rb cleanups
       | s => mret s
       end;
  s3 ← Select drop lost idle i;
  mret (s2, s3).

(** The same, with the channel closed before the first [Select]. *)
Definition closeBeforeSelecting (drop lost : bool) : Go (world Z) (selectState * selectState) :=
  c ← NewBufferedChannel 0;
  i ← NewSelector;
  _ ← AddReceive i c;
  _ ← Close drop lost c;
  s1 ← Select drop lost idle i;
  s2 ← Select drop lost idle i;
  mret (s1, s2).

(** A receive branch is removed after its channel was closed only when the
    channel was closed before [Select] was called: then the branch runs once
    with [more = false] and later calls find nothing.  When the channel is
    closed while [Select] waits, the branch runs with [more = false] and the
    next [Select] runs it again with [more = true], for a message that was
    never sent. *)
Theorem select_closed_channel drop lost :
  (∃ rb cl, result (closeBeforeSelecting drop lost) emptyWorld =
     Returned (selectDone (selReceive 0 0 false), selectBlocked rb cl)) ∧
  result (closeWhileSelecting drop lost) emptyWorld =
    Returned (selectDone (selReceive 0 0 false), selectDone (selReceive 0 0 true)).
Proof. destruct drop, lost; split; vm_compute; eauto. Qed.

(** A branch function that receives, and records what it got under [k]. *)
Definition receiving (k : nat) (s : selected) : Go (world Z) unit :=
  match s with
  | selReceive _ c _ =>
      r ← receiveAsyncImpl c None;
      let '(v, ok, _) := r in
      modify (λ w, set_results (<[k := (v, ok)]> (results w)) w)
  | _ => mret tt
  end.

(** Two selectors wait on one channel and two messages are sent. *)
Definition twoSelectors (drop lost : bool) : Go (world Z) (gmap nat (option Z * bool)) :=
  c ← NewBufferedChannel 0;
  i ← NewSelector; j ← NewSelector;
  _ ← AddReceive i c; _ ← AddReceive j c;
  s1 ← Select drop lost (receiving 101) i;
  s2 ← Select drop lost (receiving 102) j;
  _ ← SendAsync drop lost c (Some 1%Z);
  _ ← SendAsync drop lost c (Some 2%Z);
  _ ← match s1 with
      | selectBlocked rb cl => Select_resume (receiving 101) i rb cl
      | s => mret s
      end;
  _ ← match s2 with
      | selectBlocked rb cl => Select_resume (receiving 102) j rb cl
      | s => mret s
      end;
  w ← get;
  mret (results w).

(** With the flag [SDKFlagWorkflowNewChannelLostMessages] two selectors
    waiting on one channel each receive their message; without it (and with
    [SDKFlagBlockedSelectorSignalReceive]) the first message is lost and the
    second selector's branch finds nothing. *)
Theorem select_lost_messages :
  result (twoSelectors true true) emptyWorld =
    Returned {[ 101 := (Some 1%Z, true); 102 := (Some 2%Z, true) ]} ∧
  result (twoSelectors true false) emptyWorld =
    Returned {[ 101 := (Some 2%Z, true); 102 := (None, false) ]}.
Proof. by split; vm_compute. Qed.
