(* ===== verification/Sync.v ===== *)
(** * Workflow synchronisation: [Await], [Mutex], [Semaphore], [WaitGroup]
      ([src/internal/internal_workflow.go], [src/internal/workflow.go]). *)

From stdpp Require Import base list gmap strings.
From S2P Require Import Prelude Channel ChannelFacts.
Open Scope Z_scope.

(** ** [Await]

    The loop evaluates the condition each time the coroutine gets control.
    One evaluation ends the call, finds the context cancelled, or yields. *)
Inductive awaitStep : Type :=
| awaitReturned
| awaitCanceledError
| awaitYield.

Definition Await (condition contextCanceled : bool) : awaitStep :=
  if condition then awaitReturned
  else if contextCanceled then awaitCanceledError
  else awaitYield.

(** ** Mutex *)

Record mutexImpl : Type := mkMutex { locked : bool }.

Definition NewMutex : mutexImpl := mkMutex false.

Abbreviation Mx := (Go mutexImpl).

Definition Mutex_Lock (contextCanceled : bool) : Mx awaitStep :=
  m ← get;
  match Await (negb (locked m)) contextCanceled with
  | awaitReturned => _ ← modify (λ _, mkMutex true); mret awaitReturned
  | s => mret s
  end.

Definition Mutex_TryLock : Mx bool :=
  m ← get;
  if locked m then mret false else _ ← modify (λ _, mkMutex true); mret true.

Definition Mutex_Unlock : Mx unit :=
  m ← get;
  if locked m then modify (λ _, mkMutex false)
  else panic (panicString "Mutex.Unlock() was called on an unlocked mutex").

Definition Mutex_IsLocked (m : mutexImpl) : bool := locked m.

(** ** Semaphore *)

Record semaphoreImpl : Type := mkSemaphore { sem_size : Z; sem_cur : Z }.

Definition NewSemaphore (n : Z) : semaphoreImpl := mkSemaphore n 0.

Abbreviation Sm := (Go semaphoreImpl).

Definition has_capacity (s : semaphoreImpl) (n : Z) : bool :=
  bool_decide (n ≤ wrap64 (sem_size s - sem_cur s)).

Definition take (n : Z) (s : semaphoreImpl) : semaphoreImpl :=
  mkSemaphore (sem_size s) (wrap64 (sem_cur s + n)).

Definition Semaphore_Acquire (contextCanceled : bool) (n : Z) : Sm awaitStep :=
  s ← get;
  match Await (has_capacity s n) contextCanceled with
  | awaitReturned => _ ← modify (take n); mret awaitReturned
  | st => mret st
  end.

Definition Semaphore_TryAcquire (n : Z) : Sm bool :=
  s ← get;
  if has_capacity s n then _ ← modify (take n); mret true else mret false.

Definition Semaphore_Release (n : Z) : Sm unit :=
  _ ← modify (λ s, mkSemaphore (sem_size s) (wrap64 (sem_cur s - n)));
  s ← get;
  if bool_decide (sem_cur s < 0)
  then panic (panicString "Semaphore.Release() released more than held")
  else mret tt.

(** ** WaitGroup

    The future carries the boolean [false] that [Get] writes back into
    [waiting]. *)

Record waitGroupImpl : Type := mkWaitGroup {
  wg_n : Z;
  wg_waiting : bool;
  wg_future : nat;
}.

Section WaitGroup.
  Variables dropSignalFlag channelLostMsgFlag : bool.
  Local Abbreviation W := (Go (world bool)).

Definition NewWaitGroup : W waitGroupImpl := f ← NewFuture; mret (mkWaitGroup 0 false f).

Definition WaitGroup_Add (delta : Z) (wg : waitGroupImpl) : W waitGroupImpl :=
  let wg' := mkWaitGroup (wrap64 (wg_n wg + delta)) (wg_waiting wg) (wg_future wg) in
  if bool_decide (wg_n wg' < 0) then panic (panicString "negative WaitGroup counter")
  else if bool_decide (0 < wg_n wg') || negb (wg_waiting wg') then mret wg'
  else
    _ ← (if bool_decide (wg_n wg' = 0)
         then Future_Set dropSignalFlag channelLostMsgFlag (wg_future wg') (Some false) None
         else mret tt);
    mret wg'.

Definition WaitGroup_Done (wg : waitGroupImpl) : W waitGroupImpl := WaitGroup_Add (-1) wg.

Inductive waitState : Type :=
| waitDone
| waitBlocked (callback : receiveCallback).

(** The part of [Wait] after [future.Get] returned: [Get] has assigned the
    future's value to [waiting]. *)
Definition Wait_finish (st : option (getState bool)) (wg : waitGroupImpl)
    : W (option (waitState * waitGroupImpl)) :=
  match st with
  | Some (getDone value err) =>
      match err with
      | Some e => panic (panicError e)
      | None =>
          f ← NewFuture;
          mret (Some (waitDone, mkWaitGroup (wg_n wg) (default (wg_waiting wg) value) f))
      end
  | Some (getBlocked cb) => mret (Some (waitBlocked cb, wg))
  | None => mret None
  end.

Definition WaitGroup_Wait (wg : waitGroupImpl) : W (option (waitState * waitGroupImpl)) :=
  if bool_decide (wg_n wg ≤ 0) then mret (Some (waitDone, wg))
  else if wg_waiting wg then
    panic (panicString "WaitGroup is reused before previous Wait has returned")
  else
    st ← Get (wg_future wg);
    Wait_finish st (mkWaitGroup (wg_n wg) true (wg_future wg)).

Definition WaitGroup_Wait_resume (callback : receiveCallback) (wg : waitGroupImpl)
    : W (option (waitState * waitGroupImpl)) :=
  st ← Get_resume (wg_future wg) callback;
  Wait_finish st wg.
End WaitGroup.

(** ** Traces *)

Inductive mutexOp : Type :=
| OpLock (contextCanceled : bool)
| OpTryLock
| OpUnlock.

(** The change in the number of holders. *)
Definition mutexStep (op : mutexOp) (m : mutexImpl) : mutexImpl * Z :=
  match op with
  | OpLock b =>
      match Mutex_Lock b m with
      | (Returned awaitReturned, m') => (m', 1)
      | (_, m') => (m', 0)
      end
  | OpTryLock =>
      match Mutex_TryLock m with
      | (Returned true, m') => (m', 1)
      | (_, m') => (m', 0)
      end
  | OpUnlock =>
      match Mutex_Unlock m with
      | (Returned _, m') => (m', -1)
      | (_, m') => (m', 0)
      end
  end.

Fixpoint mutexRun (ops : list mutexOp) (m : mutexImpl) : mutexImpl * Z :=
  match ops with
  | [] => (m, 0)
  | op :: ops' =>
      let (m1, d1) := mutexStep op m in
      let (m2, d2) := mutexRun ops' m1 in
      (m2, d1 + d2)
  end.

Inductive semOp : Type :=
| OpAcquire (contextCanceled : bool) (n : Z)
| OpTryAcquire (n : Z)
| OpRelease (n : Z).

Definition semWeight (op : semOp) : Z :=
  match op with
  | OpAcquire _ n | OpTryAcquire n | OpRelease n => n
  end.

(** The new state, the weight acquired (negative: released), and whether the
    operation panicked. *)
Definition semStep (op : semOp) (s : semaphoreImpl) : semaphoreImpl * Z * bool :=
  match op with
  | OpAcquire b n =>
      match Semaphore_Acquire b n s with
      | (Returned awaitReturned, s') => (s', n, false)
      | (Returned _, s') => (s', 0, false)
      | (Panicked _, s') => (s', 0, true)
      end
  | OpTryAcquire n =>
      match Semaphore_TryAcquire n s with
      | (Returned true, s') => (s', n, false)
      | (Returned false, s') => (s', 0, false)
      | (Panicked _, s') => (s', 0, true)
      end
  | OpRelease n =>
      match Semaphore_Release n s with
      | (Returned _, s') => (s', - n, false)
      | (Panicked _, s') => (s', - n, true)
      end
  end.

Fixpoint semRun (ops : list semOp) (s : semaphoreImpl) : semaphoreImpl * Z * bool :=
  match ops with
  | [] => (s, 0, false)
  | op :: ops' =>
      let '(s1, d1, p1) := semStep op s in
      if p1 : bool then (s1, d1, true)
      else
        let '(s2, d2, p2) := semRun ops' s1 in
        (s2, d1 + d2, p2)
  end.

(** ** Helper lemmas *)

Lemma mutexStep_held op m :
  let (m', d) := mutexStep op m in
  (if locked m then 1 else 0) + d = if locked m' then 1 else 0.
Proof. by destruct op as [[]| |], m as [[]]. Qed.

Lemma has_capacity_true s n :
  int64_range (sem_size s - sem_cur s) → has_capacity s n = true ↔ n ≤ sem_size s - sem_cur s.
Proof. intros Hr. unfold has_capacity. by rewrite wrap64_id, bool_decide_eq_true. Qed.

Definition sem_ok (size held : Z) (s : semaphoreImpl) : Prop :=
  sem_size s = size ∧ sem_cur s = held ∧ 0 ≤ held ≤ size.

Lemma sem_take size held n s :
  size < 2 ^ 63 → sem_ok size held s → 0 ≤ n → has_capacity s n = true →
  sem_ok size (held + n) (take n s).
Proof.
  intros Hsz (Hs & Hc & Hb) Hn Hcap.
  apply has_capacity_true in Hcap; [|unfold int64_range; lia].
  unfold sem_ok, take; simpl. rewrite wrap64_id by (unfold int64_range; lia). lia.
Qed.

Lemma semStep_ok size held op s :
  0 ≤ size < 2 ^ 63 → 0 ≤ semWeight op < 2 ^ 63 → sem_ok size held s →
  let '(s', d, p) := semStep op s in
  sem_size s' = size ∧ (p = false → sem_ok size (held + d) s') ∧ (p = true → held + d < 0).
Proof.
  intros Hsz Hn Hok. pose proof Hok as (Hs & Hc & Hb).
  assert (Htake : ∀ n, 0 ≤ n → has_capacity s n = true → sem_ok size (held + n) (take n s))
    by (intros; apply sem_take; [lia|done|done|done]).
  destruct op as [b n|n|n]; simpl in *.
  - unfold Semaphore_Acquire, mbind, go_bind, get, Await.
    destruct (has_capacity s n) eqn:Hcap; [|destruct b]; simpl;
      rewrite ?Z.add_0_r; split_and!; auto; try done. intros _. apply Htake; [lia|done].
  - unfold Semaphore_TryAcquire, mbind, go_bind, get.
    destruct (has_capacity s n) eqn:Hcap; simpl; rewrite ?Z.add_0_r; split_and!; auto; try done.
    intros _. apply Htake; [lia|done].
  - unfold Semaphore_Release, mbind, go_bind, get, modify; simpl.
    rewrite wrap64_id by (unfold int64_range; lia).
    case_bool_decide; simpl; split_and!; auto; try done; intros _.
    + lia.
    + unfold sem_ok; simpl. lia.
Qed.

Lemma semRun_ok size ops : ∀ held s,
  0 ≤ size < 2 ^ 63 → Forall (λ op, 0 ≤ semWeight op < 2 ^ 63) ops → sem_ok size held s →
  let '(s', d, p) := semRun ops s in
  sem_size s' = size ∧ (p = false → sem_ok size (held + d) s') ∧ (p = true → held + d < 0).
Proof.
  induction ops as [|op ops IH]; intros held s Hsz Hops Hok; simpl.
  { rewrite Z.add_0_r. split_and!; [by destruct Hok|done|done]. }
  apply Forall_cons in Hops as [Hop Hops].
  pose proof (semStep_ok size held op s Hsz Hop Hok) as Hstep.
  destruct (semStep op s) as [[s1 d1] []]; [done|]. destruct Hstep as (_ & Hok1 & _).
  specialize (IH (held + d1) s1 Hsz Hops (Hok1 eq_refl)).
  destruct (semRun ops s1) as [[s2 d2] p2]. by rewrite Z.add_assoc.
Qed.

(** ** Futures of a wait group *)

Definition unset_future (f : nat) (fu : futureImpl bool) (l : list receiveCallback)
    (w : world bool) : Prop :=
  futures w !! f = Some fu ∧ fut_ready fu = false ∧ fut_chained fu = [] ∧
  channels w !! fut_channel fu = Some (mkChannelImpl 0 [] [] l false None).

Lemma plain_empty (l : list receiveCallback) :
  Forall (λ b, Is_true (plain_receive b)) l →
  plain (mkChannelImpl (V:=bool) 0 [] [] l false None).
Proof. intros Hl. by split; simpl. Qed.

(** [Get] on a future that is not set waits. *)
Lemma get_waits f fu w :
  unset_future f fu [] w →
  ∃ k w', Get f w = (Returned (Some (getBlocked k)), w') ∧ unset_future f fu [k] w' ∧
    plain_receive k = true.
Proof.
  intros (Hf & Hr & Hch & Hc). unfold Get, Receive, receiveAgain, mbind, go_bind.
  rewrite (run_getFuture f fu) by done. rewrite !run_fresh_id.
  rewrite (run_getChannel _ (mkChannelImpl 0 [] [] [] false None)) by exact Hc.
  simpl receiveLoop. unfold mbind, go_bind.
  rewrite (receive_none _ _ (mkChannelImpl 0 [] [] [] false None));
    [|exact Hc|by apply plain_empty|done].
  simpl. eexists _, _. split; [reflexivity|]. split; [|done].
  split_and!; try done. simpl. apply lookup_insert_eq.
Qed.

(** Setting the future lets the waiter finish. *)
Lemma get_resumes drop lost f fu k v w :
  unset_future f fu [k] w → plain_receive k = true →
  ∃ w', Future_Set drop lost f (Some v) None w = (Returned tt, w') ∧
    Get_resume f k w' = (Returned (Some (getDone (Some v) None)), w').
Proof.
  intros (Hf & Hr & Hch & Hc) Hk.
  destruct (set_once_facts drop lost f fu (mkChannelImpl 0 [] [] [k] false None) (Some v) None w)
    as (w' & Hset & _ & _ & _ & _ & Hres & _); try done.
  { apply plain_empty. apply Forall_singleton. by rewrite Hk. }
  exists w'. split; [done|]. specialize (Hres k ltac:(by left)).
  assert (Hst : final (Get_resume f k) w' = w').
  { revert Hres. unfold result, final, Get_resume, mbind, go_bind, getFuture, get.
    unfold mbind, go_bind. destruct (futures w' !! f) as [fu'|]; simpl; [|done].
    unfold Receive_resume. unfold plain_receive in Hk. destruct (rc_fn k); try done.
    unfold mbind, go_bind, get. destruct (results w' !! _) as [[u []]|]; simpl; try done.
    unfold mbind, go_bind, getFuture, get. unfold mbind, go_bind.
    destruct (futures w' !! f) as [fu''|]; simpl; [|done]. by destruct (fut_ready fu''). }
  unfold result, final in *. destruct (Get_resume f k w') as [o w'']; simpl in *. congruence.
Qed.

Lemma new_future_unset (w : world bool) :
  ∃ f fu, fst (NewFuture w) = Returned f ∧ unset_future f fu [] (snd (NewFuture w)).
Proof.
  eexists _, _. split; [reflexivity|]. split_and!; simpl; try done.
  - apply lookup_insert_eq.
  - done.
  - done.
  - simpl. apply lookup_insert_eq.
Qed.

(** ** Claims *)

(** A mutex has at most one holder: over any sequence of [Lock], [TryLock]
    and [Unlock] calls, the successful acquisitions minus the successful
    releases are one when the mutex is locked and zero otherwise; unlocking an
    unlocked mutex panics and changes nothing. *)
Theorem mutex_exclusive ops :
  let (m, held) := mutexRun ops NewMutex in
  held = (if Mutex_IsLocked m then 1 else 0) ∧
  (Mutex_IsLocked m = false →
     Mutex_Unlock m =
       (Panicked (panicString "Mutex.Unlock() was called on an unlocked mutex"), m)).
Proof.
  assert (H : ∀ m0, let (m, held) := mutexRun ops m0 in
    (if locked m0 then 1 else 0) + held = if locked m then 1 else 0).
  { induction ops as [|op ops IH]; intros m0; simpl; [lia|].
    pose proof (mutexStep_held op m0) as Hs. destruct (mutexStep op m0) as [m1 d1].
    specialize (IH m1). destruct (mutexRun ops m1) as [m2 d2]. lia. }
  specialize (H NewMutex). destruct (mutexRun ops NewMutex) as [m held]. split; [exact H|].
  unfold Mutex_IsLocked, Mutex_Unlock, mbind, go_bind, get. by intros ->.
Qed.

(** A semaphore never hands out more than its size: over any sequence of
    acquires and releases of non-negative [int64] weights, as long as no
    release panicked, the counter is exactly the weight held and lies between
    zero and the size, without overflow; a release panics only when more was
    released than acquired. *)
Theorem semaphore_bounded size ops :
  0 ≤ size < 2 ^ 63 → Forall (λ op, 0 ≤ semWeight op < 2 ^ 63) ops →
  let '(s, held, panicked) := semRun ops (NewSemaphore size) in
  (panicked = false → sem_cur s = held ∧ 0 ≤ held ≤ size) ∧
  (panicked = true → held < 0).
Proof.
  intros Hsz Hops.
  pose proof (semRun_ok size ops 0 (NewSemaphore size) Hsz Hops) as H.
  destruct (semRun ops (NewSemaphore size)) as [[s held] p].
  destruct H as (_ & Hok & Hp); [unfold sem_ok; simpl; lia|].
  split; intros Hx; [|by apply Hp].
  by destruct (Hok Hx) as (_ & ? & ?).
Qed.

Lemma semaphore_bounded_witness :
  let '(s, held, panicked) :=
    semRun [OpAcquire false 2; OpTryAcquire 2; OpRelease 1; OpTryAcquire 2] (NewSemaphore 3) in
  panicked = false ∧ sem_cur s = held ∧ held = 3.
Proof.
  pose proof (semaphore_bounded 3 [OpAcquire false 2; OpTryAcquire 2; OpRelease 1; OpTryAcquire 2])
    as H.
  vm_compute semRun in H |- *. destruct H as [H _]; [lia|repeat constructor; simpl; lia|].
  split; [reflexivity|]. split; [apply H; reflexivity|reflexivity].
Defined.

(** A [WaitGroup] releases its waiter exactly when the counter reaches zero:
    a coroutine that waits on a positive counter blocks; an [Add] that leaves
    the counter positive changes nothing else; the [Add] that brings it to zero
    lets the waiter return, with the group ready to be used again; an [Add]
    that makes it negative panics. *)
Theorem waitgroup_release drop lost wg fu w :
  0 < wg_n wg < 2 ^ 63 → wg_waiting wg = false → unset_future (wg_future wg) fu [] w →
  ∃ k w1, let wg1 := mkWaitGroup (wg_n wg) true (wg_future wg) in
    WaitGroup_Wait wg w = (Returned (Some (waitBlocked k, wg1)), w1) ∧
    (∀ d, - 2 ^ 63 ≤ d → 0 < wg_n wg + d < 2 ^ 63 →
       WaitGroup_Add drop lost d wg1 w1 =
         (Returned (mkWaitGroup (wg_n wg + d) true (wg_future wg)), w1)) ∧
    (∃ w2 w3 f', let wg2 := mkWaitGroup 0 true (wg_future wg) in
       WaitGroup_Add drop lost (- wg_n wg) wg1 w1 = (Returned wg2, w2) ∧
       WaitGroup_Wait_resume k wg2 w2 =
         (Returned (Some (waitDone, mkWaitGroup 0 false f')), w3) ∧
       ∃ fu', unset_future f' fu' [] w3).
Proof.
  intros Hn Hwait Hun. destruct (get_waits _ _ _ Hun) as (k & w1 & Hget & Hun1 & Hk).
  exists k, w1. split_and!.
  - unfold WaitGroup_Wait, mbind, go_bind. rewrite bool_decide_false, Hwait by lia. by rewrite Hget.
  - intros d Hd Hpos. unfold WaitGroup_Add; simpl.
    rewrite wrap64_id by (unfold int64_range; lia).
    by rewrite bool_decide_false, bool_decide_true by lia.
  - destruct (get_resumes drop lost _ _ k false w1 Hun1 Hk) as (w2 & Hset & Hres).
    destruct (new_future_unset w2) as (f' & fu' & Hf' & Hun').
    exists w2, (snd (NewFuture w2)), f'. split_and!; [| |by exists fu'].
    + unfold WaitGroup_Add; simpl. rewrite Z.add_opp_diag_r. simpl.
      unfold mbind, go_bind. change (wrap64 0) with 0. simpl. by rewrite Hset.
    + unfold WaitGroup_Wait_resume, Wait_finish, mbind, go_bind. cbn [wg_future wg_n wg_waiting].
      rewrite Hres.
      unfold mbind, go_bind. by rewrite (surjective_pairing (NewFuture w2)), Hf'.
Qed.

Lemma waitgroup_release_witness :
  let w := final NewFuture (emptyWorld (V:=bool)) in
  ∃ k w1, WaitGroup_Wait (mkWaitGroup 2 false 1) w =
            (Returned (Some (waitBlocked k, mkWaitGroup 2 true 1)), w1) ∧
    ∃ w2, WaitGroup_Add true true (-2) (mkWaitGroup 2 true 1) w1 =
            (Returned (mkWaitGroup 0 true 1), w2).
Proof.
  intros w.
  destruct (waitgroup_release true true (mkWaitGroup 2 false 1) (mkFutureImpl None None false 0 []) w)
    as (k & w1 & Hw & _ & w2 & w3 & f' & Ha & _);
    [simpl; lia|reflexivity|split_and!; vm_compute; reflexivity|].
  exists k, w1. split; [exact Hw|]. exists w2. exact Ha.
Defined.
