(* ===== verification/Dispatcher.v ===== *)
(** * The coroutine dispatcher ([src/internal/internal_workflow.go]).

    Workflow code runs in coroutines that hand control back to the dispatcher
    when they block.  [ExecuteUntilAllBlocked] gives every coroutine control in
    turn until none makes progress.  What a coroutine does between two yields
    is workflow code: a parameter of the model. *)

From stdpp Require Import base list gmap strings.
From S2P Require Import Prelude.
Open Scope nat_scope.

Section Dispatcher.
  (** The state of the workflow, shared by its coroutines. *)
  Context {State : Type}.

(** ** Data *)

(** How a coroutine gave control back: it yielded ([keptBlocked] says that it
    made no progress since the last yield), it finished, or it panicked or was
    found deadlocked. *)
Inductive callStatus : Type :=
| callYielded (keptBlocked : bool)
| callFinished
| callPanicked (err : string).

(** One call: the new state, the status and the coroutines it started with
    [NewCoroutine], in order, with their [highPriority] argument. *)
Record callResult : Type := mkCallResult {
  call_state : State;
  call_status : callStatus;
  call_spawned : list (nat * bool);
}.

(** [coroutineState]; [co_id] stands for the coroutine's identity and code. *)
Record coroutineState : Type := mkCoroutine {
  co_id : nat;
  co_keptBlocked : bool;
  co_closed : bool;
  co_panicError : option string;
}.

Record dispatcherImpl : Type := mkDispatcher {
  d_sequence : nat;
  d_coroutines : list coroutineState;
  d_newEagerCoroutines : list coroutineState;
  d_executing : bool;
  d_closed : bool;
}.

  (** Workflow code: what happens when a coroutine is given control, and the
      callback that runs when all coroutines are blocked: it returns true when
      there may be more work, and may start coroutines. *)
  Variable code : nat → State → callResult.
  Variable allBlockedCallback : State → bool * list (nat * bool) * State.

(** ** Operations *)

Definition newCoroutine (id : nat) : coroutineState := mkCoroutine id false false None.

(** [newState], on the part of the dispatcher it changes. *)
Definition newState (id : nat) (highPriority : bool)
    (st : nat * list coroutineState * list coroutineState)
    : nat * list coroutineState * list coroutineState :=
  let '(sequence, coroutines, eager) := st in
  if highPriority then (S sequence, coroutines, eager ++ [newCoroutine id])
  else (S sequence, coroutines ++ [newCoroutine id], eager).

Definition newStates (l : list (nat * bool))
    (st : nat * list coroutineState * list coroutineState)
    : nat * list coroutineState * list coroutineState :=
  foldl (λ st p, newState p.1 p.2 st) st l.

(** [call]: the coroutine runs until it gives control back. *)
Definition afterCall (c : coroutineState) (s : callStatus) : coroutineState :=
  match s with
  | callYielded kept => mkCoroutine (co_id c) kept false None
  | callFinished => mkCoroutine (co_id c) (co_keptBlocked c) true None
  | callPanicked err => mkCoroutine (co_id c) (co_keptBlocked c) true (Some err)
  end.

Inductive passResult : Type :=
| passDone (sequence : nat) (coroutines : list coroutineState) (allBlocked : bool) (s : State)
| passPanic (err : string) (sequence : nat) (coroutines eager : list coroutineState) (s : State)
| passFuel.

(** The inner loop of [ExecuteUntilAllBlocked]: [visited] are the coroutines
    before index [i], [rest] those from it on. *)
Fixpoint runPass (fuel sequence : nat) (visited rest eager : list coroutineState)
    (allBlocked : bool) (s : State) : passResult :=
  match rest with
  | [] => passDone sequence visited allBlocked s
  | c :: rest0 =>
      match fuel with
      | O => passFuel
      | S fuel' =>
          (* if !c.closed { c.call() } *)
          let '(c', sequence1, rest1, eager1, s1) :=
            if co_closed c then (c, sequence, rest0, eager, s)
            else
              let r := code (co_id c) s in
              let '(sequence1, rest1, eager1) :=
                newStates (call_spawned r) (sequence, rest0, eager) in
              (afterCall c (call_status r), sequence1, rest1, eager1, call_state r) in
          if co_closed c' then
            match co_panicError c' with
            | Some err => passPanic err sequence1 (visited ++ rest1) eager1 s1
            | None => runPass fuel' sequence1 visited (eager1 ++ rest1) [] false s1
            end
          else
            let allBlocked1 := allBlocked && co_keptBlocked c' in
            match eager1 with
            | [] => runPass fuel' sequence1 (visited ++ [c']) rest1 [] allBlocked1 s1
            | _ => runPass fuel' sequence1 (visited ++ [c']) (eager1 ++ rest1) [] false s1
            end
      end
  end.

Inductive execResult : Type :=
| execOk (sequence : nat) (coroutines eager : list coroutineState) (s : State)
| execError (err : string) (sequence : nat) (coroutines eager : list coroutineState) (s : State)
| execFuel.

(** The outer loop: [for !allBlocked || d.allBlockedCallback()]. *)
Fixpoint execLoop (fuel sequence : nat) (coroutines eager : list coroutineState)
    (allBlocked : bool) (s : State) : execResult :=
  match fuel with
  | O => execFuel
  | S fuel' =>
      let '(again, spawned, s0) :=
        if allBlocked then allBlockedCallback s else (true, [], s) in
      let '(sequence0, coroutines0, eager0) := newStates spawned (sequence, coroutines, eager) in
      if again : bool then
        match runPass fuel sequence0 [] (eager0 ++ coroutines0) [] true s0 with
        | passDone sequence1 coroutines1 allBlocked1 s1 =>
            execLoop fuel' sequence1 coroutines1 []
              (allBlocked1 && bool_decide (sequence0 = sequence1)) s1
        | passPanic err sequence1 coroutines1 eager1 s1 =>
            execError err sequence1 coroutines1 eager1 s1
        | passFuel => execFuel
        end
      else execOk sequence0 coroutines0 eager0 s0
  end.

(** [None]: out of fuel.  The deferred function clears [executing]. *)
Definition ExecuteUntilAllBlocked (fuel : nat) (d : dispatcherImpl) (s : State)
    : option (outcome (option string) * dispatcherImpl * State) :=
  if d_closed d then Some (Panicked (panicString "dispatcher is closed"), d, s)
  else if d_executing d then
    Some (Panicked (panicString
      "call to ExecuteUntilAllBlocked (possibly from a coroutine) while it is already running"), d, s)
  else
    match execLoop fuel (d_sequence d) (d_coroutines d) (d_newEagerCoroutines d) false s with
    | execOk sequence coroutines eager s' =>
        Some (Returned None, mkDispatcher sequence coroutines eager false false, s')
    | execError err sequence coroutines eager s' =>
        Some (Returned (Some err), mkDispatcher sequence coroutines eager false false, s')
    | execFuel => None
    end.

Definition NewCoroutine (id : nat) (highPriority : bool) (d : dispatcherImpl) : dispatcherImpl :=
  let '(sequence, coroutines, eager) :=
    newState id highPriority (d_sequence d, d_coroutines d, d_newEagerCoroutines d) in
  mkDispatcher sequence coroutines eager (d_executing d) (d_closed d).

Definition IsDone (d : dispatcherImpl) : bool := bool_decide (length (d_coroutines d) = 0).
Definition IsClosed (d : dispatcherImpl) : bool := d_closed d.
Definition IsExecuting (d : dispatcherImpl) : bool := d_executing d.

(** [Close] marks the dispatcher; its coroutines exit in the background. *)
Definition Dispatcher_Close (d : dispatcherImpl) : dispatcherImpl :=
  mkDispatcher (d_sequence d) (d_coroutines d) (d_newEagerCoroutines d) (d_executing d) true.
End Dispatcher.
