(* ===== verification/DispatcherFacts.v ===== *)
(** * The dispatcher stops exactly when nothing can run: theorems about
      [Dispatcher]. *)

From stdpp Require Import base list gmap strings.
From S2P Require Import Prelude Dispatcher.
Open Scope nat_scope.

Section Facts.
  Context {State : Type}.
  Variable code : nat → State → @callResult State.
  Variable allBlockedCallback : State → bool * list (nat * bool) * State.
  Local Abbreviation runPass := (runPass code).
  Local Abbreviation execLoop := (execLoop code allBlockedCallback).
  Local Abbreviation ExecuteUntilAllBlocked := (ExecuteUntilAllBlocked code allBlockedCallback).

(** ** Starting coroutines *)

Lemma newStates_sequence l : ∀ st,
  (newStates l st).1.1 = st.1.1 + length l.
Proof.
  induction l as [|[id []] l IH]; intros [[n cs] eager]; simpl; [lia| |]; rewrite IH; simpl; lia.
Qed.

Lemma newStates_length l : ∀ st,
  length (newStates l st).1.2 + length (newStates l st).2 =
  length st.1.2 + length st.2 + length l.
Proof.
  induction l as [|[id []] l IH]; intros [[n cs] eager]; simpl; [lia| |];
    rewrite IH; simpl; rewrite length_app; simpl; lia.
Qed.

(** ** One pass *)

(** Every coroutine, called once and in order, only finds that it is still
    blocked. *)
Inductive idle_pass : list coroutineState → State → State → Prop :=
| idle_nil s : idle_pass [] s s
| idle_cons c cs s s1 s2 :
    co_closed c = false → code (co_id c) s = mkCallResult s1 (callYielded true) [] →
    idle_pass cs s1 s2 → idle_pass (c :: cs) s s2.

Lemma idle_pass_ids cs cs' s s' :
  idle_pass cs s s' → co_id <$> cs' = co_id <$> cs →
  Forall (λ c, co_closed c = false) cs' → idle_pass cs' s s'.
Proof.
  intros H. revert cs'. induction H as [s|c cs s s1 s2 Hc Hcode _ IH]; intros cs' Hids Hopen.
  - destruct cs'; [constructor|done].
  - destruct cs' as [|c' cs']; [done|]. injection Hids as Hid Hids.
    apply Forall_cons in Hopen as [Ho Hopen]. econstructor; [done|by rewrite Hid|by apply IH].
Qed.

(** The state after one call. *)
Definition called (c : coroutineState) (sequence : nat) (rest eager : list coroutineState)
    (s : State) : coroutineState * nat * list coroutineState * list coroutineState * State :=
  if co_closed c then (c, sequence, rest, eager, s)
  else
    let r := code (co_id c) s in
    let '(sequence1, rest1, eager1) := newStates (call_spawned r) (sequence, rest, eager) in
    (afterCall c (call_status r), sequence1, rest1, eager1, call_state r).

Lemma runPass_step fuel n visited c rest ab s c' n1 rest1 eager1 s1 :
  called c n rest [] s = (c', n1, rest1, eager1, s1) →
  runPass (S fuel) n visited (c :: rest) [] ab s =
  if co_closed c' then
    match co_panicError c' with
    | Some err => passPanic err n1 (visited ++ rest1) eager1 s1
    | None => runPass fuel n1 visited (eager1 ++ rest1) [] false s1
    end
  else runPass fuel n1 (visited ++ [c']) (eager1 ++ rest1) []
         (ab && co_keptBlocked c' && bool_decide (eager1 = [])) s1.
Proof.
  intros Hc. unfold called in Hc. simpl. rewrite Hc.
  destruct (co_closed c'); [done|].
  destruct eager1 as [|e eager1]; simpl.
  - by rewrite andb_true_r.
  - by rewrite andb_false_r.
Qed.

Lemma called_sequence c n rest s c' n1 rest1 eager1 s1 :
  called c n rest [] s = (c', n1, rest1, eager1, s1) → n ≤ n1.
Proof.
  unfold called. destruct (co_closed c); [intros [= <- <- <- <- <-]; lia|].
  pose proof (newStates_sequence (call_spawned (code (co_id c) s)) (n, rest, [])) as Hn.
  destruct (newStates _ _) as [[n2 r2] e2]. simpl in Hn. intros [= <- <- <- <- <-]. lia.
Qed.

Lemma runPass_sequence fuel : ∀ n visited rest ab s n' cs b s',
  runPass fuel n visited rest [] ab s = passDone n' cs b s' → n ≤ n'.
Proof.
  induction fuel as [|fuel IH]; intros n visited [|c rest] ab s n' cs b s' Hrun.
  - injection Hrun as <- <- <- <-. lia.
  - discriminate Hrun.
  - injection Hrun as <- <- <- <-. lia.
  - destruct (called c n rest [] s) as [[[[c' n1] rest1] eager1] s1] eqn:Hc.
    rewrite (runPass_step _ _ _ _ _ _ _ _ _ _ _ _ Hc) in Hrun.
    apply called_sequence in Hc.
    destruct (co_closed c'); [destruct (co_panicError c'); [done|]|]; apply IH in Hrun; lia.
Qed.

(** A call that starts nothing and leaves the coroutine blocked. *)
Lemma called_idle c n rest s c' n1 rest1 eager1 s1 :
  called c n rest [] s = (c', n1, rest1, eager1, s1) → n1 ≤ n →
  co_closed c' = false → co_keptBlocked c' = true →
  co_closed c = false ∧ code (co_id c) s = mkCallResult s1 (callYielded true) [] ∧
  co_id c' = co_id c ∧ rest1 = rest ∧ eager1 = [] ∧ n1 = n.
Proof.
  unfold called. destruct (co_closed c) eqn:Hcl; [intros [= <- <- <- <- <-]; congruence|].
  destruct (code (co_id c) s) as [s2 st sp] eqn:Hcode. simpl.
  pose proof (newStates_sequence sp (n, rest, [])) as Hn.
  destruct sp as [|p sp].
  - simpl. intros [= <- <- <- <- <-] _ Hopen Hk.
    destruct st as [kept| |]; simpl in *; try done. by subst kept.
  - destruct (newStates (p :: sp) (n, rest, [])) as [[n2 r2] e2]. simpl in Hn.
    intros [= <- <- <- <- <-]. lia.
Qed.

Lemma runPass_idle fuel : ∀ n visited rest ab s cs s',
  runPass fuel n visited rest [] ab s = passDone n cs true s' →
  ab = true ∧ ∃ cs', cs = visited ++ cs' ∧ co_id <$> cs' = co_id <$> rest ∧
    Forall (λ c, co_closed c = false) cs' ∧ idle_pass rest s s'.
Proof.
  induction fuel as [|fuel IH]; intros n visited [|c rest] ab s cs s' Hrun.
  - injection Hrun as <- <- <-. split; [done|]. exists []. rewrite app_nil_r.
    split_and!; try done. constructor.
  - discriminate Hrun.
  - injection Hrun as <- <- <-. split; [done|]. exists []. rewrite app_nil_r.
    split_and!; try done. constructor.
  - destruct (called c n rest [] s) as [[[[c' n1] rest1] eager1] s1] eqn:Hc.
    rewrite (runPass_step _ _ _ _ _ _ _ _ _ _ _ _ Hc) in Hrun.
    assert (Hle : n1 ≤ n).
    { destruct (co_closed c'); [destruct (co_panicError c'); [done|]|];
        by apply runPass_sequence in Hrun. }
    assert (n1 = n) as -> by (apply called_sequence in Hc; lia).
    destruct (co_closed c') eqn:Hcl.
    { destruct (co_panicError c'); [done|]. by apply IH in Hrun as [? _]. }
    apply IH in Hrun as (Hab & cs' & -> & Hids & Hopen & Hidle).
    apply andb_true_iff in Hab as [[-> Hk]%andb_true_iff _].
    destruct (called_idle _ _ _ _ _ _ _ _ _ Hc Hle Hcl Hk) as (Hcl0 & Hcode & Hid & -> & -> & _).
    split; [done|]. exists (c' :: cs'). split_and!.
    + by rewrite <- app_assoc.
    + csimpl. by rewrite Hid, Hids.
    + by constructor.
    + by econstructor.
Qed.

(** ** The loop *)

Lemma execLoop_ok fuel : ∀ n cs eager ab s n' cs' eager' s',
  execLoop fuel n cs eager ab s = execOk n' cs' eager' s' →
  (ab = true → eager = [] ∧ ∃ s0, idle_pass cs s0 s ∧ Forall (λ c, co_closed c = false) cs) →
  ∃ n1 cs1 spawned s0 s1,
    idle_pass cs1 s0 s1 ∧ Forall (λ c, co_closed c = false) cs1 ∧
    allBlockedCallback s1 = (false, spawned, s') ∧
    (n', cs', eager') = newStates spawned (n1, cs1, []).
Proof.
  induction fuel as [|fuel IH]; intros n cs eager ab s n' cs' eager' s' Hrun Hab; [done|].
  cbn [Dispatcher.execLoop] in Hrun.
  destruct (if ab then allBlockedCallback s else (true, [], s)) as [[again spawned] s0] eqn:Hcb.
  destruct (newStates spawned (n, cs, eager)) as [[n0 cs0] eager0] eqn:Hns.
  destruct again.
  - destruct (runPass _ _ _ _ _ _ _) as [n1 cs1 ab1 s1|err n1 cs1 e1 s1|] eqn:Hp; try done.
    apply IH in Hrun; [done|]. intros [-> Heq]%andb_true_iff.
    apply bool_decide_eq_true in Heq as <-. split; [done|].
    apply runPass_idle in Hp as (_ & cs2 & -> & Hids & Hopen & Hidle). simpl.
    exists s0. split; [|done]. by eapply idle_pass_ids.
  - injection Hrun as <- <- <- <-. destruct ab; [|done].
    destruct (Hab eq_refl) as (-> & s2 & Hidle & Hopen).
    by exists n, cs, spawned, s2, s.
Qed.

(** ** Fuel *)

Lemma runPass_fuel k fuel : ∀ n visited rest ab s,
  runPass fuel n visited rest [] ab s ≠ passFuel →
  runPass (fuel + k) n visited rest [] ab s = runPass fuel n visited rest [] ab s.
Proof.
  induction fuel as [|fuel IH]; intros n visited [|c rest] ab s Hne.
  - by destruct k.
  - done.
  - done.
  - destruct (called c n rest [] s) as [[[[c' n1] rest1] eager1] s1] eqn:Hc.
    rewrite (runPass_step _ _ _ _ _ _ _ _ _ _ _ _ Hc) in Hne.
    change (S fuel + k) with (S (fuel + k)).
    rewrite !(runPass_step _ _ _ _ _ _ _ _ _ _ _ _ Hc).
    destruct (co_closed c'); [destruct (co_panicError c'); [done|]|]; by apply IH.
Qed.

Lemma execLoop_fuel k fuel : ∀ n cs eager ab s,
  execLoop fuel n cs eager ab s ≠ execFuel →
  execLoop (fuel + k) n cs eager ab s = execLoop fuel n cs eager ab s.
Proof.
  induction fuel as [|fuel IH]; intros n cs eager ab s Hne; [done|].
  cbn [Dispatcher.execLoop Nat.add] in Hne |- *.
  destruct (if ab then allBlockedCallback s else (true, [], s)) as [[again spawned] s0].
  destruct (newStates spawned (n, cs, eager)) as [[n0 cs0] eager0].
  destruct again; [|done].
  destruct (Dispatcher.runPass code (S fuel) n0 [] (eager0 ++ cs0) [] true s0) eqn:Hp;
    change (S (fuel + k)) with (S fuel + k);
    try (rewrite runPass_fuel by (by rewrite Hp); rewrite Hp); try done.
  by apply IH.
Qed.

(** ** Termination

    [work] bounds what workflow code can still do: a call either finds the
    coroutine still blocked or uses up work, one unit more than the number of
    coroutines it starts; and the callback uses up work when it asks for
    another round. *)
Section Termination.
  Variable work : State → nat.
  Hypothesis code_works : ∀ id s,
    let r := code id s in
    (call_status r = callYielded true ∧ call_spawned r = [] ∧ work (call_state r) ≤ work s) ∨
    work (call_state r) + length (call_spawned r) < work s.
  Hypothesis callback_works : ∀ s again spawned s',
    allBlockedCallback s = (again, spawned, s') →
    work s' + length spawned + (if again then 1 else 0) ≤ work s.

(** Size of what a pass has in front of it. *)
Definition load (cs : list coroutineState) (s : State) : nat := length cs + work s.

Lemma called_load c n rest s c' n1 rest1 eager1 s1 :
  called c n rest [] s = (c', n1, rest1, eager1, s1) →
  load (eager1 ++ rest1) s1 < load (c :: rest) s ∧
  (co_closed c' = false →
     S (load (eager1 ++ rest1) s1) < load (c :: rest) s ∨
     (co_keptBlocked c' = true ∧ n1 = n ∧ eager1 = [])).
Proof.
  unfold called, load. rewrite length_app. destruct (co_closed c) eqn:Hcl.
  - intros [= <- <- <- <- <-]. simpl. split; [lia|congruence].
  - pose proof (code_works (co_id c) s) as Hw. simpl in Hw.
    destruct (code (co_id c) s) as [s2 st sp]. cbn [call_status call_spawned call_state] in *.
    pose proof (newStates_length sp (n, rest, [])) as Hlen.
    destruct Hw as [(-> & -> & Hw)|Hw].
    + intros [= <- <- <- <- <-]. simpl. split; [lia|]. intros _. by right.
    + destruct (newStates sp (n, rest, [])) as [[n2 r2] e2]. simpl in *.
      intros [= <- <- <- <- <-]. split; [lia|]. intros _. left. lia.
Qed.

Lemma runPass_terminates fuel : ∀ n visited rest ab s,
  load rest s ≤ fuel →
  match runPass fuel n visited rest [] ab s with
  | passDone n' cs b s' =>
      load cs s' < length visited + load rest s ∨
      (load cs s' ≤ length visited + load rest s ∧ b = ab ∧ n' = n)
  | passPanic _ _ _ _ _ => True
  | passFuel => False
  end.
Proof.
  induction fuel as [|fuel IH]; intros n visited [|c rest] ab s Hload.
  - right. unfold load. simpl. split_and!; [lia|done|done].
  - unfold load in Hload. simpl in Hload. lia.
  - right. unfold load. simpl. split_and!; [lia|done|done].
  - destruct (called c n rest [] s) as [[[[c' n1] rest1] eager1] s1] eqn:Hc.
    rewrite (runPass_step _ _ _ _ _ _ _ _ _ _ _ _ Hc).
    apply called_load in Hc as [Hlt Hidle]. destruct (co_closed c') eqn:Hcl.
    + destruct (co_panicError c'); [done|].
      specialize (IH n1 visited (eager1 ++ rest1) false s1 ltac:(lia)).
      destruct (runPass _ _ _ _ _ _ _); [|done|done]. left. lia.
    + specialize (IH n1 (visited ++ [c']) (eager1 ++ rest1)
        (ab && co_keptBlocked c' && bool_decide (eager1 = [])) s1 ltac:(lia)).
      destruct (runPass _ _ _ _ _ _ _); [|done|done].
      rewrite length_app in IH. simpl in IH.
      destruct (Hidle eq_refl) as [Hs|(Hk & -> & ->)]; [left; lia|].
      rewrite Hk, (bool_decide_true ([] = [])), !andb_true_r in IH by done.
      destruct IH as [IH|(IH & -> & ->)]; [left; lia|right]. split_and!; [lia|done|done].
Qed.

Definition potential (ab : bool) (cs eager : list coroutineState) (s : State) : nat :=
  2 * (length cs + length eager + work s) + (if ab then 0 else 1).

Lemma execLoop_terminates fuel : ∀ n cs eager ab s,
  potential ab cs eager s < fuel → execLoop fuel n cs eager ab s ≠ execFuel.
Proof.
  induction fuel as [|fuel IH]; intros n cs eager ab s Hpot; [lia|].
  cbn [Dispatcher.execLoop]. unfold potential in Hpot.
  destruct (if ab then allBlockedCallback s else (true, [], s)) as [[again spawned] s0] eqn:Hcb.
  pose proof (newStates_length spawned (n, cs, eager)) as Hlen.
  destruct (newStates spawned (n, cs, eager)) as [[n0 cs0] eager0]. simpl in Hlen.
  destruct again; [|done].
  assert (Hwork : work s0 + length spawned + (if ab then 1 else 0) ≤ work s).
  { destruct ab; [by apply callback_works in Hcb|]. injection Hcb as <- <-. simpl. lia. }
  pose proof (runPass_terminates (S fuel) n0 [] (eager0 ++ cs0) true s0) as Hp.
  unfold load in Hp at 1. rewrite length_app in Hp. specialize (Hp ltac:(destruct ab; lia)).
  destruct (Dispatcher.runPass code (S fuel) n0 [] (eager0 ++ cs0) [] true s0)
    as [n1 cs1 ab1 s1|err n1 cs1 e1 s1|]; [|done|done].
  apply IH. unfold potential. unfold load in Hp. rewrite length_app in Hp. simpl in Hp.
  destruct Hp as [Hp|(Hp & -> & ->)].
  - destruct ab, (_ && _); simpl; lia.
  - rewrite bool_decide_true by done. destruct ab; simpl; lia.
Qed.
End Termination.
End Facts.

(** ** Claims *)

(** When [ExecuteUntilAllBlocked] returns without error nothing can run:
    in its last pass every coroutine was called once, in order, found itself
    still blocked and started nothing; then the callback reported no more work.
    What is left are those coroutines, all open, and the ones the callback
    started; the dispatcher is not executing. *)
Theorem dispatcher_quiescent {State} code callback fuel d s d' (s' : State) :
  ExecuteUntilAllBlocked code callback fuel d s = Some (Returned None, d', s') →
  d_executing d' = false ∧
  ∃ n cs spawned s0 s1,
    idle_pass code cs s0 s1 ∧ Forall (λ c, co_closed c = false) cs ∧
    callback s1 = (false, spawned, s') ∧
    (d_sequence d', d_coroutines d', d_newEagerCoroutines d') = newStates spawned (n, cs, []).
Proof.
  unfold ExecuteUntilAllBlocked. destruct (d_closed d); [done|]. destruct (d_executing d); [done|].
  destruct (execLoop _ _ _ _ _ _ _ _) as [n cs e s2|err n cs e s2|] eqn:Hrun; try done.
  intros [= <- <-]. split; [done|]. apply execLoop_ok in Hrun; [|done].
  destruct Hrun as (n1 & cs1 & sp & s0 & s1 & ? & ? & ? & ?). by exists n1, cs1, sp, s0, s1.
Qed.

(** Coroutine 0 starts coroutine 1 and finishes; coroutine 1 finishes when the
    state is positive and else waits. *)
Definition exampleCode (id s : nat) : @callResult nat :=
  match id, s with
  | 0, _ => mkCallResult (pred s) callFinished [(1, false)]
  | _, 0 => mkCallResult 0 (callYielded true) []
  | _, S n => mkCallResult n (callYielded false) []
  end.

Definition noMoreWork (s : nat) : bool * list (nat * bool) * nat := (false, [], s).

Definition exampleDispatcher : dispatcherImpl :=
  NewCoroutine 0 false (mkDispatcher 0 [] [] false false).

Lemma dispatcher_quiescent_witness :
  ∃ d' s', ExecuteUntilAllBlocked exampleCode noMoreWork 10 exampleDispatcher 3 =
             Some (Returned None, d', s') ∧ d_executing d' = false.
Proof.
  eexists _, _. split; [vm_compute; reflexivity|].
  apply (dispatcher_quiescent exampleCode noMoreWork 10 exampleDispatcher 3 _ 0).
  vm_compute. reflexivity.
Defined.

(** C32. [ExecuteUntilAllBlocked] terminates when workflow code does a bounded
    amount of work: given a measure that every call that makes progress, and
    every callback that asks for another round, decreases, a number of steps
    linear in the coroutines and the work is enough, and more steps change
    nothing. *)
Theorem dispatcher_terminates {State} code callback (work : State → nat) d s :
  (∀ id s, let r := code id s in
     (call_status r = callYielded true ∧ call_spawned r = [] ∧ work (call_state r) ≤ work s) ∨
     work (call_state r) + length (call_spawned r) < work s) →
  (∀ s again spawned s', callback s = (again, spawned, s') →
     work s' + length spawned + (if again : bool then 1 else 0) ≤ work s) →
  let enough := 2 * (length (d_coroutines d) + length (d_newEagerCoroutines d) + work s) + 2 in
  ∃ r, ∀ k, ExecuteUntilAllBlocked code callback (enough + k) d s = Some r.
Proof.
  intros Hcode Hcb enough. unfold ExecuteUntilAllBlocked.
  destruct (d_closed d); [by eexists|]. destruct (d_executing d); [by eexists|].
  assert (Hne : execLoop code callback enough (d_sequence d) (d_coroutines d)
                  (d_newEagerCoroutines d) false s ≠ execFuel).
  { apply (execLoop_terminates code callback work); [done|done|].
    unfold potential, enough. lia. }
  destruct (execLoop code callback enough (d_sequence d) (d_coroutines d)
    (d_newEagerCoroutines d) false s) as [n cs e s2|err n cs e s2|] eqn:Hrun; [| |done];
    eexists; intros k; rewrite execLoop_fuel by (by rewrite Hrun); by rewrite Hrun.
Qed.

Lemma dispatcher_terminates_witness :
  ∃ r, ExecuteUntilAllBlocked
         (λ _ s, match s with
                 | 0 => mkCallResult 0 (callYielded true) []
                 | S n => mkCallResult n (callYielded false) []
                 end) noMoreWork 10 exampleDispatcher 3 = Some r.
Proof.
  destruct (dispatcher_terminates
    (λ _ s, match s with
            | 0 => mkCallResult 0 (callYielded true) []
            | S n => mkCallResult n (callYielded false) []
            end) noMoreWork (λ n, n) exampleDispatcher 3) as [r Hr].
  - intros _ [|n]; simpl; [left; by split_and!|right; lia].
  - intros s again spawned s' [= <- <- <-]. simpl. lia.
  - exists r. exact (Hr 0).
Defined.
