(* ===== verification/Flags.v ===== *)
(** * SDK flags ([src/internal/internal_flags.go]).

    A flag guards a change of workflow logic: it may be used in new tasks, and
    must be used in the replay of exactly the tasks that used it. *)

From stdpp Require Import base list gmap strings pretty.
From S2P Require Import Prelude.
Open Scope Z_scope.

(** ** Data *)

(** A [uint32]. *)
Abbreviation sdkFlag := Z (only parsing).

Definition SDKFlagUnset : sdkFlag := 0.
Definition SDKFlagLimitChangeVersionSASize : sdkFlag := 1.
Definition SDKFlagChildWorkflowErrorExecution : sdkFlag := 2.
Definition SDKFlagProtocolMessageCommand : sdkFlag := 3.
Definition SDKPriorityUpdateHandling : sdkFlag := 4.
Definition SDKFlagBlockedSelectorSignalReceive : sdkFlag := 5.
Definition SDKFlagCancelAwaitTimerOnCondition : sdkFlag := 6.
Definition SDKFlagMemoUserDCEncode : sdkFlag := 7.
Definition SDKFlagWorkflowNewChannelLostMessages : sdkFlag := 8.
Definition SDKFlagOrderedChildCancel : sdkFlag := 9.
Definition SDKFlagUnknown : sdkFlag := 2 ^ 32 - 1.

(** The initial value of the variable [sdkFlagsAllowed]. *)
Definition sdkFlagsAllowed : gmap sdkFlag bool :=
  {[ SDKFlagLimitChangeVersionSASize := true;
     SDKFlagChildWorkflowErrorExecution := true;
     SDKFlagProtocolMessageCommand := true;
     SDKPriorityUpdateHandling := true;
     SDKFlagBlockedSelectorSignalReceive := true;
     SDKFlagCancelAwaitTimerOnCondition := false;
     SDKFlagMemoUserDCEncode := true;
     SDKFlagWorkflowNewChannelLostMessages := true;
     SDKFlagOrderedChildCancel := true ]}.

(** The environment, [os.Getenv]: the empty string for an unset variable. *)
Definition flagOverride (getenv : string → string) (flag : sdkFlag) (b : bool) : bool :=
  let val := getenv ("TEMPORAL_SDK_FLAG_" +:+ FormatInt flag) in
  if decide (val = "1") then true
  else if decide (val = "0") then false
  else b.

Definition loadFlagOverridesFromEnv (getenv : string → string) (defaults : gmap sdkFlag bool)
    : gmap sdkFlag bool := map_imap (λ flag b, Some (flagOverride getenv flag b)) defaults.

(** A Go map of booleans read as [m[k]]. *)
Definition lookup_bool (m : gmap sdkFlag bool) (k : sdkFlag) : bool := default false (m !! k).

Record sdkFlags : Type := mkSdkFlags {
  capabilitiesSdkMetadata : bool;
  currentFlags : gmap sdkFlag bool;
  newFlags : gmap sdkFlag bool;
}.

Section Allowed.
  (** The value of [sdkFlagsAllowed] after [init]. *)
  Variable allowed : gmap sdkFlag bool.

Definition isValid (f : sdkFlag) : bool := bool_decide (is_Some (allowed !! f)).

Definition sdkFlagFromUint (value : Z) : sdkFlag :=
  match allowed !! value with Some _ => value | None => SDKFlagUnknown end.

Definition newSDKFlagSet (capabilities : bool) : sdkFlags := mkSdkFlags capabilities ∅ ∅.

Definition tryUse (flag : sdkFlag) (record : bool) (sf : sdkFlags) : bool * sdkFlags :=
  if lookup_bool (currentFlags sf) flag || lookup_bool (newFlags sf) flag then (true, sf)
  else if negb (capabilitiesSdkMetadata sf) then (false, sf)
  else if negb record then (false, sf)
  else if negb (lookup_bool allowed flag) then (false, sf)
  else (true, mkSdkFlags (capabilitiesSdkMetadata sf) (currentFlags sf)
                (<[flag := true]> (newFlags sf))).

(** [set]. *)
Definition setFlags (flags : list sdkFlag) (sf : sdkFlags) : sdkFlags :=
  mkSdkFlags (capabilitiesSdkMetadata sf)
    (foldl (λ m flag, <[flag := true]> m) (currentFlags sf) flags) (newFlags sf).

Definition markSDKFlagsSent (sf : sdkFlags) : sdkFlags :=
  mkSdkFlags (capabilitiesSdkMetadata sf)
    (foldl (λ m flag, <[flag := true]> m) (currentFlags sf) (map_to_list (newFlags sf)).*1) ∅.

Definition gatherNewSDKFlags (sf : sdkFlags) : list sdkFlag := (map_to_list (newFlags sf)).*1.

(** The questions workflow code asks during a task, in order. *)
Fixpoint tryUses (flags : list sdkFlag) (record : bool) (sf : sdkFlags)
    : list bool * sdkFlags :=
  match flags with
  | [] => ([], sf)
  | f :: flags' =>
      let (b, sf1) := tryUse f record sf in
      let (bs, sf2) := tryUses flags' record sf1 in
      (b :: bs, sf2)
  end.
End Allowed.

(** ** Lemmas *)

Lemma foldl_insert_true (l : list sdkFlag) : ∀ (m : gmap sdkFlag bool) f,
  lookup_bool (foldl (λ m flag, <[flag := true]> m) m l) f =
  bool_decide (f ∈ l) || lookup_bool m f.
Proof.
  induction l as [|g l IH]; intros m f; simpl.
  - done.
  - rewrite IH. unfold lookup_bool at 1. destruct (decide (f = g)) as [->|Hne].
    + rewrite lookup_insert_eq, (bool_decide_true (g ∈ g :: l)) by by left.
      by rewrite orb_true_r.
    + rewrite lookup_insert_ne by done. f_equal. apply bool_decide_ext. set_solver.
Qed.

(** Every recorded value is [true]. *)
Definition flags_wf (m : gmap sdkFlag bool) : Prop := ∀ f b, m !! f = Some b → b = true.

Lemma elem_of_gathered sf f :
  flags_wf (newFlags sf) →
  bool_decide (f ∈ gatherNewSDKFlags sf) = lookup_bool (newFlags sf) f.
Proof.
  intros Hwf. unfold gatherNewSDKFlags, lookup_bool. destruct (newFlags sf !! f) as [b|] eqn:Hf.
  - rewrite (Hwf f b Hf). apply bool_decide_true. apply list_elem_of_fmap.
    exists (f, b). split; [done|]. by apply elem_of_map_to_list.
  - apply bool_decide_false. intros ([g b] & -> & Hin)%list_elem_of_fmap.
    apply elem_of_map_to_list in Hin. simpl in Hf. congruence.
Qed.

Section Replay.
  Variable allowed : gmap sdkFlag bool.

Lemma tryUse_wf f record sf :
  flags_wf (newFlags sf) → flags_wf (newFlags (tryUse allowed f record sf).2).
Proof.
  intros Hwf. unfold tryUse. repeat case_match; simpl; try done.
  intros g b. destruct (decide (f = g)) as [->|?].
  - rewrite lookup_insert_eq. congruence.
  - rewrite lookup_insert_ne by done. apply Hwf.
Qed.

(** What a recording run decides: the flags in use or newly allowed. *)
Definition usable (sf : sdkFlags) (f : sdkFlag) : bool :=
  lookup_bool (currentFlags sf) f || lookup_bool (newFlags sf) f ||
  (capabilitiesSdkMetadata sf && lookup_bool allowed f).

(** The three outcomes of a recording [tryUse]. *)
Lemma tryUse_record f sf :
  tryUse allowed f true sf =
  (usable sf f,
   if lookup_bool (currentFlags sf) f || lookup_bool (newFlags sf) f then sf
   else if usable sf f
   then mkSdkFlags (capabilitiesSdkMetadata sf) (currentFlags sf) (<[f := true]> (newFlags sf))
   else sf).
Proof.
  unfold tryUse, usable. destruct (_ || _); [done|].
  by destruct (capabilitiesSdkMetadata sf), (lookup_bool allowed f).
Qed.

Lemma lookup_bool_insert m f g :
  lookup_bool (<[f := true]> m) g = bool_decide (g = f) || lookup_bool m g.
Proof.
  unfold lookup_bool. destruct (decide (g = f)) as [->|?].
  - by rewrite lookup_insert_eq, bool_decide_true.
  - by rewrite lookup_insert_ne, bool_decide_false.
Qed.

Lemma tryUse_usable f sf g : usable (tryUse allowed f true sf).2 g = usable sf g.
Proof.
  rewrite tryUse_record; simpl. destruct (_ || _) eqn:Hin; [done|].
  destruct (usable sf f) eqn:Hf; [|done]. unfold usable at 1; simpl.
  rewrite lookup_bool_insert. case_bool_decide as Hg; [|done].
  subst g. rewrite Hf. by rewrite orb_true_r.
Qed.

Lemma tryUse_in_use f sf g :
  let sf' := (tryUse allowed f true sf).2 in
  lookup_bool (currentFlags sf') g || lookup_bool (newFlags sf') g =
  lookup_bool (currentFlags sf) g || lookup_bool (newFlags sf) g ||
  (bool_decide (g = f) && usable sf g).
Proof.
  rewrite tryUse_record; simpl. case_bool_decide as Hg; [subst g|]; simpl.
  - unfold usable.
    destruct (lookup_bool (currentFlags sf) f || lookup_bool (newFlags sf) f) eqn:Hin; [done|].
    simpl. destruct (_ && _); simpl; [|done].
    rewrite lookup_bool_insert, bool_decide_true by done. by rewrite orb_true_r.
  - rewrite orb_false_r.
    destruct (lookup_bool (currentFlags sf) f || lookup_bool (newFlags sf) f) eqn:Hin; [done|].
    destruct (usable sf f); simpl; [|done]. by rewrite lookup_bool_insert, bool_decide_false.
Qed.

Lemma tryUse_current f record sf :
  currentFlags (tryUse allowed f record sf).2 = currentFlags sf.
Proof. unfold tryUse. by repeat case_match. Qed.

(** A recording run answers each question by [usable], and adds to the flags
    in use exactly those it answered [true] for. *)
Lemma tryUses_record flags : ∀ sf,
  flags_wf (newFlags sf) →
  let '(bs, sf') := tryUses allowed flags true sf in
  bs = usable sf <$> flags ∧ currentFlags sf' = currentFlags sf ∧ flags_wf (newFlags sf') ∧
  ∀ g, lookup_bool (currentFlags sf') g || lookup_bool (newFlags sf') g =
       lookup_bool (currentFlags sf) g || lookup_bool (newFlags sf) g ||
       (bool_decide (g ∈ flags) && usable sf g).
Proof.
  induction flags as [|f flags IH]; intros sf Hwf; simpl.
  { split_and!; try done. intros g. by rewrite orb_false_r. }
  pose proof (tryUse_usable f sf) as Hu. pose proof (tryUse_in_use f sf) as Hin.
  pose proof (tryUse_current f true sf) as Hc. pose proof (tryUse_wf f true sf Hwf) as Hwf1.
  rewrite tryUse_record in *. simpl in *.
  specialize (IH _ Hwf1). destruct (tryUses _ _ _ _) as [bs sf2]. destruct IH as (-> & Hc2 & Hwf2 & IH).
  split_and!; try done.
  - f_equal. apply list_fmap_ext. intros _ g _. apply Hu.
  - congruence.
  - intros g. rewrite IH, Hin, Hu, (bool_decide_ext (g ∈ f :: flags) (g = f ∨ g ∈ flags))
      by apply elem_of_cons.
    rewrite bool_decide_or. by destruct (bool_decide (g = f)), (bool_decide (g ∈ flags)),
      (usable sf g), (lookup_bool (currentFlags sf) g), (lookup_bool (newFlags sf) g).
Qed.

(** A replaying run answers from the flags in use and changes nothing. *)
Lemma tryUses_replay flags sf :
  tryUses allowed flags false sf =
  ((λ g, lookup_bool (currentFlags sf) g || lookup_bool (newFlags sf) g) <$> flags, sf).
Proof.
  induction flags as [|f flags IH]; simpl; [done|].
  assert (tryUse allowed f false sf =
    (lookup_bool (currentFlags sf) f || lookup_bool (newFlags sf) f, sf)) as ->.
  { unfold tryUse. destruct (_ || _); [done|]. by destruct (capabilitiesSdkMetadata sf). }
  by rewrite IH.
Qed.
End Replay.

(** ** Replay agrees with the original execution *)

(** Take a workflow task that asks for the flags [flags], in that order
    and with repetitions, in an original execution whose state at the start of
    the task is [sf] with nothing left to send. The worker sends
    [gatherNewSDKFlags] with the completion and calls [markSDKFlagsSent]. When
    the task is replayed, by a worker whose set of allowed flags and whose
    server capabilities may be different, from the flags in use at its start
    ([currentFlags sf]) and the flags of its completed event ([set]), every
    question gets the answer of the original execution, nothing new is
    recorded, and both workers go on with the same set of flags in use. *)
Theorem flags_replay_agree allowed allowed' capabilities' flags sf :
  newFlags sf = ∅ →
  let '(answers, sent) := tryUses allowed flags true sf in
  let replayer := setFlags (gatherNewSDKFlags sent) (mkSdkFlags capabilities' (currentFlags sf) ∅) in
  tryUses allowed' flags false replayer = (answers, replayer) ∧
  (∀ g, lookup_bool (currentFlags replayer) g = lookup_bool (currentFlags (markSDKFlagsSent sent)) g) ∧
  newFlags replayer = ∅ ∧ newFlags (markSDKFlagsSent sent) = ∅.
Proof.
  intros Hnew. assert (flags_wf (newFlags sf)) as Hwf by (rewrite Hnew; by intros f b Hf%lookup_empty_Some).
  pose proof (tryUses_record allowed flags sf Hwf) as H.
  destruct (tryUses allowed flags true sf) as [answers sent]. destruct H as (-> & Hc & Hwf' & Huse).
  cbn zeta. set (replayer := setFlags _ _).
  assert (Hcur : ∀ g, lookup_bool (currentFlags replayer) g =
    lookup_bool (newFlags sent) g || lookup_bool (currentFlags sf) g).
  { intros g. subst replayer. simpl. by rewrite foldl_insert_true, elem_of_gathered. }
  split_and!; try done.
  - rewrite tryUses_replay. f_equal. apply list_fmap_ext. intros i g Hg. rewrite Hcur.
    rewrite (orb_comm (lookup_bool (newFlags sent) g)), <- Hc, Huse, Hnew.
    rewrite (bool_decide_true (g ∈ flags)) by by eapply list_elem_of_lookup_2.
    unfold usable. rewrite Hnew. unfold lookup_bool at 2 4 6. rewrite lookup_empty. simpl.
    rewrite !orb_false_r. by destruct (lookup_bool (currentFlags sf) g).
  - intros g. rewrite Hcur. simpl. rewrite foldl_insert_true. fold (gatherNewSDKFlags sent).
    by rewrite elem_of_gathered, Hc.
Qed.

Lemma flags_replay_agree_witness :
  let flags := [SDKFlagCancelAwaitTimerOnCondition; SDKFlagMemoUserDCEncode; SDKFlagMemoUserDCEncode] in
  let sf := newSDKFlagSet true in
  tryUses ∅ flags false
    (setFlags (gatherNewSDKFlags (tryUses sdkFlagsAllowed flags true sf).2) (mkSdkFlags false ∅ ∅)) =
  ([false; true; true],
   setFlags (gatherNewSDKFlags (tryUses sdkFlagsAllowed flags true sf).2) (mkSdkFlags false ∅ ∅)).
Proof.
  exact (proj1 (flags_replay_agree sdkFlagsAllowed ∅ false
    [SDKFlagCancelAwaitTimerOnCondition; SDKFlagMemoUserDCEncode; SDKFlagMemoUserDCEncode]
    (newSDKFlagSet true) eq_refl)).
Defined.
