(* ===== verification/History.v ===== *)
(** * The history of a workflow task, page by page.

    [src/internal/internal_task_handlers.go] ([history], [prepareTask],
    [nextTask]), the iterator over the pages the server sends
    ([src/internal/internal_task_pollers.go]) and the decoding of raw pages
    ([src/internal/common/serializer/serializer.go]). *)

From stdpp Require Import base list gmap strings pretty.
From S2P Require Import Prelude Proto Flags.
Open Scope Z_scope.

Notation "x ←? m ; k" := (try_bind m (λ x, k))
  (at level 20, m at level 100, k at level 200, right associativity).

(** ** Pages *)

Inductive EncodingType : Type :=
| ENCODING_TYPE_JSON
| ENCODING_TYPE_PROTO3
| ENCODING_TYPE_OTHER.

Record DataBlob : Type := mkDataBlob {
  Data : string;
  Blob_EncodingType : EncodingType;
}.

(** [GetWorkflowExecutionHistoryResponse]: [None] is a nil field. *)
Record HistoryResponse : Type := mkHistoryResponse {
  RawHistory : option (list (option DataBlob));
  Resp_History : option (list HistoryEvent);
  Resp_NextPageToken : option string;
}.

(** The errors of the history reader: most are texts, one has a type of its
    own. *)
Inductive historyError : Type :=
| plainError (text : string)
| unknownSdkFlagError (message : string).

Record Message : Type := mkMessage {
  Msg_Id : string;
  Msg_ProtocolInstanceId : string;
  Msg_EventId : Z;
  (** The request the [Any] holds. *)
  Msg_Body : option string;
}.

Section Decoding.
  (** The two decoders of a batch, of the protobuf library. *)
  Variable decodeJSON : string → string + list HistoryEvent.
  Variable unmarshal : string → string + list HistoryEvent.

Definition DeserializeBatchEvents (data : option DataBlob) : string + list HistoryEvent :=
  match data with
  | None => inr []
  | Some d =>
      if decide (Data d = "") then inr []
      else match Blob_EncodingType d with
           | ENCODING_TYPE_JSON => decodeJSON (Data d)
           | ENCODING_TYPE_PROTO3 => unmarshal (Data d)
           | ENCODING_TYPE_OTHER =>
               inl "deserialization error: DeserializeBatchEvents invalid encoding"
           end
  end.

(** With the filter [HISTORY_EVENT_FILTER_TYPE_ALL_EVENT] of the only call. *)
Fixpoint DeserializeBlobDataToHistoryEvents (dataBlobs : list (option DataBlob))
    : string + list HistoryEvent :=
  match dataBlobs with
  | [] => inr []
  | batch :: rest =>
      events ← DeserializeBatchEvents batch;
      if decide (events = []) then inl "corrupted history event batch, empty events"
      else others ← DeserializeBlobDataToHistoryEvents rest; mret (events ++ others)
  end.
End Decoding.

(** ** The iterator *)

(** [historyIteratorImpl], with the answers the service will give to the
    calls still to come: an error or a response. *)
Record historyIterator : Type := mkHistoryIterator {
  nextPageToken : option string;
  maxEventID : Z;
  answers : list (string + HistoryResponse);
}.

(** [history]. [task] fields first; [next = []] is the nil slice. *)
Record history : Type := mkHistory {
  taskEvents : list HistoryEvent;
  PreviousStartedEventId : Z;
  iterator : option historyIterator;
  loadedEvents : list HistoryEvent;
  currentIndex : nat;
  nextEventID : Z;
  lastEventID : Z;
  lastHandledEventID : Z;
  next : list HistoryEvent;
  nextMessages : list Message;
  nextFlags : list sdkFlag;
  binaryChecksum : string;
  sdkName : string;
  sdkVersion : string;
}.

Definition set_iterator (it : historyIterator) (h : history) : history :=
  mkHistory (taskEvents h) (PreviousStartedEventId h) (Some it) (loadedEvents h) (currentIndex h)
    (nextEventID h) (lastEventID h) (lastHandledEventID h) (next h) (nextMessages h) (nextFlags h)
    (binaryChecksum h) (sdkName h) (sdkVersion h).

(** The window: the loaded events and the cursors into them. *)
Definition set_window (loaded : list HistoryEvent) (i : nat) (nextId lastHandled : Z) (h : history)
    : history :=
  mkHistory (taskEvents h) (PreviousStartedEventId h) (iterator h) loaded i
    nextId (lastEventID h) lastHandled (next h) (nextMessages h) (nextFlags h)
    (binaryChecksum h) (sdkName h) (sdkVersion h).

Definition set_binaryChecksum (checksum : string) (h : history) : history :=
  mkHistory (taskEvents h) (PreviousStartedEventId h) (iterator h) (loadedEvents h) (currentIndex h)
    (nextEventID h) (lastEventID h) (lastHandledEventID h) (next h) (nextMessages h) (nextFlags h)
    checksum (sdkName h) (sdkVersion h).

Definition set_next (events : list HistoryEvent) (messages : list Message) (flags : list sdkFlag)
    (name version : string) (h : history) : history :=
  mkHistory (taskEvents h) (PreviousStartedEventId h) (iterator h) (loadedEvents h) (currentIndex h)
    (nextEventID h) (lastEventID h) (lastHandledEventID h) events messages flags
    (binaryChecksum h) name version.

Definition incIndex (h : history) : history :=
  set_window (loadedEvents h) (S (currentIndex h)) (nextEventID h) (lastHandledEventID h) h.

Record preparedTask : Type := mkPreparedTask {
  events : list HistoryEvent;
  markers : list HistoryEvent;
  flags : list sdkFlag;
  acceptedMsgs : list Message;
  admittedMsgs : list Message;
  task_binaryChecksum : string;
  task_sdkVersion : string;
  task_sdkName : string;
  buildID : option string;
}.

Definition emptyTask : preparedTask := mkPreparedTask [] [] [] [] [] "" "" "" None.

Record finishedTask : Type := mkFinishedTask {
  isFailed : bool;
  finished_binaryChecksum : string;
  finished_flags : list sdkFlag;
  finished_sdkVersion : string;
  finished_sdkName : string;
}.

Definition noFinishedTask : finishedTask := mkFinishedTask false "" [] "" "".

Definition nilDereference : panicValue :=
  runtimeError "invalid memory address or nil pointer dereference".

(** [newHistory] *)
Definition newHistory (lastHandled : Z) (task : list HistoryEvent) (startedEventId previous : Z)
    (it : option historyIterator) : history :=
  mkHistory task previous it task 0
    (match task with e :: _ => Event_EventId e | [] => 0 end)
    startedEventId lastHandled [] [] [] "" "" "".

Definition GetWorkflowStartedEvent (h : history) : string + HistoryEvent :=
  match taskEvents h with
  | e :: _ =>
      if decide (Event_EventType e = EVENT_TYPE_WORKFLOW_EXECUTION_STARTED) then inr e
      else inl "unable to find WorkflowExecutionStartedEventAttributes in the history"
  | [] => inl "unable to find WorkflowExecutionStartedEventAttributes in the history"
  end.

Definition isCommandEvent (t : EventType) : bool :=
  match t with
  | EVENT_TYPE_WORKFLOW_EXECUTION_COMPLETED
  | EVENT_TYPE_WORKFLOW_EXECUTION_FAILED
  | EVENT_TYPE_WORKFLOW_EXECUTION_CANCELED
  | EVENT_TYPE_WORKFLOW_EXECUTION_CONTINUED_AS_NEW
  | EVENT_TYPE_ACTIVITY_TASK_SCHEDULED
  | EVENT_TYPE_ACTIVITY_TASK_CANCEL_REQUESTED
  | EVENT_TYPE_TIMER_STARTED
  | EVENT_TYPE_TIMER_CANCELED
  | EVENT_TYPE_MARKER_RECORDED
  | EVENT_TYPE_START_CHILD_WORKFLOW_EXECUTION_INITIATED
  | EVENT_TYPE_REQUEST_CANCEL_EXTERNAL_WORKFLOW_EXECUTION_INITIATED
  | EVENT_TYPE_SIGNAL_EXTERNAL_WORKFLOW_EXECUTION_INITIATED
  | EVENT_TYPE_UPSERT_WORKFLOW_SEARCH_ATTRIBUTES
  | EVENT_TYPE_WORKFLOW_PROPERTIES_MODIFIED
  | EVENT_TYPE_WORKFLOW_EXECUTION_UPDATE_ACCEPTED
  | EVENT_TYPE_WORKFLOW_EXECUTION_UPDATE_COMPLETED
  | EVENT_TYPE_WORKFLOW_EXECUTION_UPDATE_REJECTED
  | EVENT_TYPE_NEXUS_OPERATION_SCHEDULED
  | EVENT_TYPE_NEXUS_OPERATION_CANCEL_REQUESTED => true
  | _ => false
  end.

Definition IsReplayEvent (h : history) (event : HistoryEvent) : bool :=
  bool_decide (Event_EventId event ≤ PreviousStartedEventId h)
  || isCommandEvent (Event_EventType event).

Definition isPreloadMarkerEvent (event : HistoryEvent) : bool :=
  bool_decide (Event_EventType event = EVENT_TYPE_MARKER_RECORDED).

Definition inferMessageFromAcceptedEvent (protocolInstanceId acceptedRequestMessageId : string)
    (acceptedRequestSequencingEventId : Z) (acceptedRequest : option string) : Message :=
  mkMessage acceptedRequestMessageId protocolInstanceId acceptedRequestSequencingEventId
    acceptedRequest.

Section History.
  Variable decodeJSON : string → string + list HistoryEvent.
  Variable unmarshal : string → string + list HistoryEvent.
  (** [visitProtoPayloads] with the worker's inbound visitor, on a page. *)
  Variable visitPayloads : list HistoryEvent → string + list HistoryEvent.
  (** [sdkFlagsAllowed]. *)
  Variable allowed : gmap sdkFlag bool.

(** ** Fetching a page *)

(** The function [newGetHistoryPageFunc] returns, on the answer of the
    service: the page, nil or not, and the next token. *)
Definition getHistoryPage (lastEventID : Z) (answer : string + HistoryResponse)
    : outcome (string + (option (list HistoryEvent) * option string)) :=
  match answer with
  | inl err => Returned (inl err)
  | inr resp =>
      let check (h : option (list HistoryEvent)) :=
        match h with
        | None => Panicked nilDereference
        | Some events =>
            match last events with
            | Some e =>
                if bool_decide (0 < lastEventID) && bool_decide (lastEventID < Event_EventId e)
                then Returned (inl ("history contains events past expected last event ID ("
                       +:+ FormatInt lastEventID
                       +:+ ") likely this means the current workflow task is no longer valid"))
                else Returned (inr (Some events, Resp_NextPageToken resp))
            | None => Returned (inr (Some events, Resp_NextPageToken resp))
            end
        end in
      match RawHistory resp with
      | Some blobs =>
          match DeserializeBlobDataToHistoryEvents decodeJSON unmarshal blobs with
          | inl _ => Returned (inr (None, None))
          | inr h => check (Some h)
          end
      | None => check (Resp_History resp)
      end
  end.

(** [historyIteratorImpl.GetNextPage]. A service with no answer left to give
    fails the call. *)
Definition inner_GetNextPage : Go historyIterator (string + option (list HistoryEvent)) := λ it,
  match answers it with
  | [] => (Returned (inl "service unavailable"), it)
  | answer :: rest =>
      let advanced token := mkHistoryIterator token (maxEventID it) rest in
      match getHistoryPage (maxEventID it) answer with
      | Panicked p => (Panicked p, advanced (nextPageToken it))
      | Returned (inl err) => (Returned (inl err), advanced (nextPageToken it))
      | Returned (inr (page, token)) => (Returned (inr page), advanced token)
      end
  end.

(** [retrievingHistoryIterator.GetNextPage]. *)
Definition GetNextPage : Go historyIterator (string + option (list HistoryEvent)) :=
  page ←? inner_GetNextPage;
  match page with
  | None => mret (inr None)
  | Some events =>
      match visitPayloads events with
      | inl err => mret (inl err)
      | inr visited => mret (inr (Some visited))
      end
  end.

Definition HasNextPage (it : historyIterator) : bool := bool_decide (is_Some (nextPageToken it)).

Definition Reset (it : historyIterator) : historyIterator :=
  mkHistoryIterator None (maxEventID it) (answers it).

(** ** The history *)

Definition hasMoreEvents (h : history) : bool :=
  match iterator h with Some it => HasNextPage it | None => false end.

Definition pageError {A} (r : outcome (string + A)) : outcome (historyError + A) :=
  match r with
  | Returned (inl err) => Returned (inl (plainError err))
  | Returned (inr a) => Returned (inr a)
  | Panicked p => Panicked p
  end.

Definition getMoreEvents : Go history (historyError + option (list HistoryEvent)) := λ h,
  match iterator h with
  | None => (Panicked nilDereference, h)
  | Some it => let (r, it') := GetNextPage it in (pageError r, set_iterator it' h)
  end.

Definition loadMoreEvents : Go history (historyError + unit) :=
  historyPage ←? getMoreEvents;
  match historyPage with
  | None => panic nilDereference
  | Some page =>
      modify (λ h,
        let loaded := loadedEvents h ++ page in
        let nextId :=
          match loaded with
          | e :: _ => if decide (nextEventID h = 0) then Event_EventId e else nextEventID h
          | [] => nextEventID h
          end in
        set_window loaded (currentIndex h) nextId (lastHandledEventID h) h);;
      mret (inr tt)
  end.

(** [for index >= len(eh.loadedEvents) && eh.hasMoreEvents() { load }]. The
    loop at the head of [prepareTask] tests [currentIndex == len(loadedEvents)],
    the same test as [currentIndex] never passes the end of [loadedEvents]
    ([history_wf] in [HistoryFacts]). *)
Fixpoint loadUntil (fuel : nat) (index : nat) : Go history (historyError + unit) :=
  match fuel with
  | O => panic (runtimeError "out of fuel")
  | S fuel' =>
      h ← get;
      if bool_decide (length (loadedEvents h) ≤ index)%nat && hasMoreEvents h then
        _ ←? loadMoreEvents; loadUntil fuel' index
      else mret (inr tt)
  end.

(** Each round of [loadUntil] takes one answer of the service, or fails. *)
Definition answers_left (h : history) : nat :=
  match iterator h with Some it => length (answers it) | None => 0%nat end.

(** The flags of a completed event; the first unknown one is an error. *)
Fixpoint langUsedFlags (used : list Z) : historyError + list sdkFlag :=
  match used with
  | [] => inr []
  | flag :: rest =>
      let f := sdkFlagFromUint allowed flag in
      if isValid allowed f then others ← langUsedFlags rest; mret (f :: others)
      else inl (unknownSdkFlagError ("unknown SDK flag: " +:+ FormatInt flag))
  end.

(** What the event after a started workflow task tells of the task. *)
Definition finishedTaskOf (nextEvent : HistoryEvent) : outcome (historyError + finishedTask) :=
  let failed :=
    bool_decide (Event_EventType nextEvent = EVENT_TYPE_WORKFLOW_TASK_TIMED_OUT)
    || bool_decide (Event_EventType nextEvent = EVENT_TYPE_WORKFLOW_TASK_FAILED) in
  match Event_Attributes nextEvent with
  | WorkflowTaskCompletedEventAttributes checksum used name version _ _ _ =>
      if decide (Event_EventType nextEvent = EVENT_TYPE_WORKFLOW_TASK_COMPLETED) then
        Returned (fs ← langUsedFlags used; mret (mkFinishedTask failed checksum fs version name))
      else Returned (inr (mkFinishedTask failed "" [] version name))
  | _ =>
      if decide (Event_EventType nextEvent = EVENT_TYPE_WORKFLOW_TASK_COMPLETED) then
        Panicked nilDereference
      else Returned (inr (mkFinishedTask failed "" [] "" ""))
  end.

Definition isNextWorkflowTaskFailed : Go history (historyError + finishedTask) :=
  h0 ← get;
  let nextIndex := S (currentIndex h0) in
  _ ←? loadUntil (S (answers_left h0)) nextIndex;
  h ← get;
  match loadedEvents h !! nextIndex with
  | Some nextEvent => lift (finishedTaskOf nextEvent)
  | None => mret (inr noFinishedTask)
  end.

Definition verifyAllEventsProcessed (h : history) : historyError + unit :=
  if bool_decide (0 < lastEventID h) && bool_decide (nextEventID h ≤ lastEventID h) then
    inl (plainError ("history_events: premature end of stream, expectedLastEventID="
      +:+ FormatInt (lastEventID h) +:+ " but no more events after eventID="
      +:+ FormatInt (wrap64 (nextEventID h - 1))))
  else inr tt.

(** The character [.]. *)
Definition dot : Ascii.ascii := Ascii.ascii_of_nat 46.

(** [strings.SplitN(version, ".", 2)[1]], when there are two parts. *)
Fixpoint afterDot (version : string) : option string :=
  match version with
  | EmptyString => None
  | String c rest => if bool_decide (c = dot) then Some rest else afterDot rest
  end.

Definition completedBuildID (event : HistoryEvent) : string :=
  match Event_Attributes event with
  | WorkflowTaskCompletedEventAttributes _ _ _ _ deploymentBuildId version workerVersionBuildId =>
      let bid1 :=
        if decide (deploymentBuildId = "") then default "" (afterDot version)
        else deploymentBuildId in
      if decide (bid1 = "") then workerVersionBuildId else bid1
  | _ => ""
  end.

(** The [default] branch of the switch. *)
Definition addEvent (event : HistoryEvent) (t : preparedTask) : preparedTask :=
  let es := events t ++ [event] in
  if decide (Event_EventType event = EVENT_TYPE_WORKFLOW_TASK_COMPLETED) then
    mkPreparedTask es (markers t) (flags t) (acceptedMsgs t) (admittedMsgs t)
      (task_binaryChecksum t) (task_sdkVersion t) (task_sdkName t) (Some (completedBuildID event))
  else if isPreloadMarkerEvent event then
    mkPreparedTask es (markers t ++ [event]) (flags t) (acceptedMsgs t) (admittedMsgs t)
      (task_binaryChecksum t) (task_sdkVersion t) (task_sdkName t) (buildID t)
  else
    match Event_Attributes event with
    | UpdateAcceptedEventAttributes instanceId messageId sequencingId request =>
        mkPreparedTask es (markers t) (flags t)
          (acceptedMsgs t ++ [inferMessageFromAcceptedEvent instanceId messageId sequencingId request])
          (admittedMsgs t)
          (task_binaryChecksum t) (task_sdkVersion t) (task_sdkName t) (buildID t)
    | UpdateAdmittedEventAttributes updateId request =>
        mkPreparedTask es (markers t) (flags t) (acceptedMsgs t)
          (admittedMsgs t ++ [mkMessage (updateId +:+ "/request") updateId (Event_EventId event) request])
          (task_binaryChecksum t) (task_sdkVersion t) (task_sdkName t) (buildID t)
    | _ =>
        mkPreparedTask es (markers t) (flags t) (acceptedMsgs t) (admittedMsgs t)
          (task_binaryChecksum t) (task_sdkVersion t) (task_sdkName t) (buildID t)
    end.

(** The end of a task: its started event and what its completion says. *)
Definition endTask (event : HistoryEvent) (finished : finishedTask) (t : preparedTask) : preparedTask :=
  mkPreparedTask (events t ++ [event]) (markers t) (flags t ++ finished_flags finished)
    (acceptedMsgs t) (admittedMsgs t) (task_binaryChecksum t)
    (if decide (finished_sdkVersion finished = "") then task_sdkVersion t else finished_sdkVersion finished)
    (if decide (finished_sdkName finished = "") then task_sdkName t else finished_sdkName finished)
    (buildID t).

Definition missingEvents (expected received : Z) : historyError :=
  plainError ("missing history events, expectedNextEventID=" +:+ FormatInt expected
    +:+ " but receivedNextEventID=" +:+ FormatInt received).

(** The loop [OrderEvents] of [prepareTask]. *)
Fixpoint orderEvents (fuel : nat) (t : preparedTask) : Go history (historyError + preparedTask) :=
  match fuel with
  | O => panic (runtimeError "out of fuel")
  | S fuel' =>
      h0 ← get;
      _ ←? loadUntil (S (answers_left h0)) (currentIndex h0);
      h ← get;
      if decide (currentIndex h = length (loadedEvents h)) then
        match verifyAllEventsProcessed h with
        | inl err => mret (inl err)
        | inr _ => mret (inr t)
        end
      else
        match loadedEvents h !! currentIndex h with
        | None => panic (runtimeError "index out of range")
        | Some event =>
            let eventID := Event_EventId event in
            if decide (eventID ≠ nextEventID h) then
              mret (inl (missingEvents (nextEventID h) eventID))
            else
              modify (λ h, set_window (loadedEvents h) (currentIndex h) (wrap64 (nextEventID h + 1))
                             (lastHandledEventID h) h);;
              if decide (eventID ≤ lastHandledEventID h) then
                modify incIndex;; orderEvents fuel' t
              else
                modify (λ h, set_window (loadedEvents h) (currentIndex h) (nextEventID h) eventID h);;
                match Event_EventType event with
                | EVENT_TYPE_WORKFLOW_TASK_STARTED =>
                    finished ←? isNextWorkflowTaskFailed;
                    if isFailed finished then modify incIndex;; orderEvents fuel' t
                    else
                      modify (set_binaryChecksum (finished_binaryChecksum finished));;
                      modify incIndex;;
                      mret (inr (endTask event finished t))
                | EVENT_TYPE_WORKFLOW_TASK_SCHEDULED
                | EVENT_TYPE_WORKFLOW_TASK_TIMED_OUT => modify incIndex;; orderEvents fuel' t
                | _ => modify incIndex;; orderEvents fuel' (addEvent event t)
                end
        end
  end.

(** The events an answer adds to [loadedEvents]. *)
Definition answer_events (lastEventID : Z) (answer : string + HistoryResponse) : list HistoryEvent :=
  match getHistoryPage lastEventID answer with
  | Returned (inr (Some page, _)) =>
      match visitPayloads page with inr visited => visited | inl _ => [] end
  | _ => []
  end.

(** Each round of [orderEvents] passes over one event, or is the last. *)
Definition events_left (h : history) : nat :=
  (length (loadedEvents h) - currentIndex h +
   match iterator h with
   | Some it => length (answers it ≫= answer_events (maxEventID it))
   | None => 0
   end)%nat.

Definition prepareTask : Go history (historyError + preparedTask) :=
  h0 ← get;
  if bool_decide (currentIndex h0 = length (loadedEvents h0)) && negb (hasMoreEvents h0) then
    match verifyAllEventsProcessed h0 with
    | inl err => mret (inl err)
    | inr _ => mret (inr emptyTask)
    end
  else
    t ←? orderEvents (S (events_left h0)) emptyTask;
    modify (λ h, set_window (drop (currentIndex h) (loadedEvents h)) 0 (nextEventID h)
                   (lastHandledEventID h) h);;
    mret (inr t).

Definition keepTask (t : preparedTask) : history → history :=
  set_next (events t) (admittedMsgs t) (flags t) (task_sdkName t) (task_sdkVersion t).

Definition nextTask : Go history (historyError + preparedTask) :=
  h0 ← get;
  _ ←? (if decide (next h0 = []) then
          firstTask ←? prepareTask; modify (keepTask firstTask);; mret (inr tt)
        else mret (inr tt));
  h ← get;
  let result ms accepted build :=
    mkPreparedTask (next h) ms (nextFlags h) accepted (nextMessages h) (binaryChecksum h)
      (sdkVersion h) (sdkName h) build in
  if decide (next h = []) then mret (inr (result [] [] None))
  else
    t ←? prepareTask;
    modify (keepTask t);;
    mret (inr (result (markers t) (acceptedMsgs t) (buildID t))).
End History.
