(* ===== verification/HistoryFacts.v ===== *)
(** * The history reader refines a reader of the whole event list.

    [flatHistory] is the history without pages: the events not yet read, in
    one list, and the cursors. Its operations are structural recursions on
    that list, and the paged reader of [History] simulates them whatever the
    paging. *)

From stdpp Require Import base list gmap strings.
From S2P Require Import Prelude Proto Flags History.
Open Scope Z_scope.

(** ** The abstract reader *)

Record flatHistory : Type := mkFlat {
  f_events : list HistoryEvent;
  f_nextEventID : Z;
  f_lastEventID : Z;
  f_lastHandled : Z;
  f_next : list HistoryEvent;
  f_messages : list Message;
  f_flags : list sdkFlag;
  f_checksum : string;
  f_sdkName : string;
  f_sdkVersion : string;
}.

Definition f_move (es : list HistoryEvent) (nextId handled : Z) (f : flatHistory) : flatHistory :=
  mkFlat es nextId (f_lastEventID f) handled (f_next f) (f_messages f) (f_flags f) (f_checksum f)
    (f_sdkName f) (f_sdkVersion f).

Definition f_setChecksum (checksum : string) (f : flatHistory) : flatHistory :=
  mkFlat (f_events f) (f_nextEventID f) (f_lastEventID f) (f_lastHandled f) (f_next f) (f_messages f)
    (f_flags f) checksum (f_sdkName f) (f_sdkVersion f).

Definition f_keepTask (t : preparedTask) (f : flatHistory) : flatHistory :=
  mkFlat (f_events f) (f_nextEventID f) (f_lastEventID f) (f_lastHandled f) (events t) (admittedMsgs t)
    (flags t) (f_checksum f) (task_sdkName t) (task_sdkVersion t).

Definition prematureEnd (last nextId : Z) : historyError :=
  plainError ("history_events: premature end of stream, expectedLastEventID="
    +:+ FormatInt last +:+ " but no more events after eventID=" +:+ FormatInt (nextId - 1)).

Section Flat.
  Variable allowed : gmap sdkFlag bool.

Definition finishedAfter (following : list HistoryEvent) : outcome (historyError + finishedTask) :=
  match following with
  | e :: _ => finishedTaskOf allowed e
  | [] => Returned (inr noFinishedTask)
  end.

Fixpoint flat_orderEvents (es : list HistoryEvent) (t : preparedTask)
    : Go flatHistory (historyError + preparedTask) := λ f,
  match es with
  | [] =>
      if bool_decide (0 < f_lastEventID f) && bool_decide (f_nextEventID f ≤ f_lastEventID f)
      then (Returned (inl (prematureEnd (f_lastEventID f) (f_nextEventID f))), f)
      else (Returned (inr t), f)
  | e :: es' =>
      let id := Event_EventId e in
      if decide (id ≠ f_nextEventID f) then
        (Returned (inl (missingEvents (f_nextEventID f) id)), f)
      else if decide (id ≤ f_lastHandled f) then
        flat_orderEvents es' t (f_move es' (id + 1) (f_lastHandled f) f)
      else
        let skip := f_move es' (id + 1) id f in
        match Event_EventType e with
        | EVENT_TYPE_WORKFLOW_TASK_STARTED =>
            match finishedAfter es' with
            | Panicked p => (Panicked p, f_move (e :: es') (id + 1) id f)
            | Returned (inl err) => (Returned (inl err), f_move (e :: es') (id + 1) id f)
            | Returned (inr finished) =>
                if isFailed finished then flat_orderEvents es' t skip
                else (Returned (inr (endTask e finished t)),
                      f_setChecksum (finished_binaryChecksum finished) skip)
            end
        | EVENT_TYPE_WORKFLOW_TASK_SCHEDULED
        | EVENT_TYPE_WORKFLOW_TASK_TIMED_OUT => flat_orderEvents es' t skip
        | _ => flat_orderEvents es' (addEvent e t) skip
        end
  end.

Definition flat_prepareTask : Go flatHistory (historyError + preparedTask) := λ f,
  flat_orderEvents (f_events f) emptyTask f.

Definition flat_nextTask : Go flatHistory (historyError + preparedTask) :=
  f0 ← get;
  _ ←? (if decide (f_next f0 = []) then
          firstTask ←? flat_prepareTask; modify (f_keepTask firstTask);; mret (inr tt)
        else mret (inr tt));
  f ← get;
  let result ms accepted build :=
    mkPreparedTask (f_next f) ms (f_flags f) accepted (f_messages f) (f_checksum f)
      (f_sdkVersion f) (f_sdkName f) build in
  if decide (f_next f = []) then mret (inr (result [] [] None))
  else
    t ←? flat_prepareTask;
    modify (f_keepTask t);;
    mret (inr (result (markers t) (acceptedMsgs t) (buildID t))).
End Flat.

(** ** The simulation *)

Section Simulation.
  Variable decodeJSON : string → string + list HistoryEvent.
  Variable unmarshal : string → string + list HistoryEvent.
  Variable visitPayloads : list HistoryEvent → string + list HistoryEvent.
  Variable allowed : gmap sdkFlag bool.

  Local Abbreviation getPage := (getHistoryPage decodeJSON unmarshal).
  Local Abbreviation load := (loadMoreEvents decodeJSON unmarshal visitPayloads).
  Local Abbreviation loadU := (loadUntil decodeJSON unmarshal visitPayloads).
  Local Abbreviation order := (orderEvents decodeJSON unmarshal visitPayloads allowed).
  Local Abbreviation prepare := (prepareTask decodeJSON unmarshal visitPayloads allowed).

(** The events of the pages still to come, when the service delivers them. *)
Fixpoint served (token : option string) (maxId : Z) (answers : list (string + HistoryResponse))
    : option (list HistoryEvent) :=
  match token, answers with
  | None, _ => Some []
  | Some _, [] => None
  | Some _, answer :: rest =>
      match getPage maxId answer with
      | Returned (inr (Some page, token')) =>
          match visitPayloads page with
          | inr visited => app visited <$> served token' maxId rest
          | inl _ => None
          end
      | _ => None
      end
  end.

Definition served_by (it : option historyIterator) : option (list HistoryEvent) :=
  match it with
  | None => Some []
  | Some it => served (nextPageToken it) (maxEventID it) (answers it)
  end.

(** Event ids are positive, and the last one has a successor. *)
Definition event_ok (e : HistoryEvent) : Prop := 0 < Event_EventId e < 2 ^ 63 - 1.

Definition unread (h : history) (rest : list HistoryEvent) : list HistoryEvent :=
  drop (currentIndex h) (loadedEvents h) ++ rest.

Record history_wf (h : history) : Prop := {
  wf_index : (currentIndex h ≤ length (loadedEvents h))%nat;
  wf_first : nextEventID h = 0 → loadedEvents h = [];
  wf_next : 0 ≤ nextEventID h < 2 ^ 63;
}.

Definition flatten (h : history) (rest : list HistoryEvent) : flatHistory :=
  mkFlat (unread h rest)
    (match unread h rest with
     | e :: _ => if decide (nextEventID h = 0) then Event_EventId e else nextEventID h
     | [] => nextEventID h
     end)
    (lastEventID h) (lastHandledEventID h) (next h) (nextMessages h) (nextFlags h)
    (binaryChecksum h) (sdkName h) (sdkVersion h).

(** [h] reads the events that [f] has in one list. *)
Definition represents (h : history) (f : flatHistory) : Prop :=
  history_wf h ∧ ∃ rest, served_by (iterator h) = Some rest ∧ f = flatten h rest
    ∧ Forall event_ok (f_events f).

Lemma load_represents h f :
  represents h f → hasMoreEvents h = true →
  ∃ h' page, load h = (Returned (inr tt), h') ∧ represents h' f ∧
    loadedEvents h' = loadedEvents h ++ page ∧ currentIndex h' = currentIndex h ∧
    answers_left h = S (answers_left h').
Proof.
  intros (Hwf & rest & Hrest & -> & Hok) Hmore.
  unfold hasMoreEvents, HasNextPage in Hmore.
  destruct (iterator h) as [[token maxId ans]|] eqn:Hit; [|done]. simpl in *.
  case_bool_decide as Htok; [|done]. destruct Htok as [tok ->]. simpl in Hrest.
  destruct ans as [|answer ans]; [done|]. simpl in Hrest.
  destruct (getPage maxId answer) as [[err|[[page|] token']]|p] eqn:Hpage; simpl in Hrest; try done.
  destruct (visitPayloads page) as [err|visited] eqn:Hvisit; [done|].
  apply fmap_Some in Hrest as (rest' & Hrest' & ->).
  eexists _, visited. split.
  { unfold loadMoreEvents, try_bind, getMoreEvents, mbind, go_bind. rewrite Hit.
    unfold GetNextPage, try_bind, inner_GetNextPage, mbind, go_bind. simpl.
    rewrite Hpage. simpl. rewrite Hvisit. done. }
  destruct Hwf as [Hi Hf Hn]. unfold answers_left. rewrite Hit. simpl. split_and!; try done.
  assert (Hun : ∀ n, (n ≤ length (loadedEvents h))%nat →
    drop n (loadedEvents h ++ visited) = drop n (loadedEvents h) ++ visited).
  { intros n Hle. by rewrite drop_app_le. }
  assert (Hhd : nextEventID h = 0 → unread h (visited ++ rest') = visited ++ rest').
  { intros H0. unfold unread. rewrite (Hf H0). by rewrite drop_nil. }
  split; [split|exists rest'; split_and!]; simpl.
  - rewrite length_app. lia.
  - destruct (loadedEvents h ++ visited) as [|e l] eqn:E; [done|].
    case_decide as H0; [|done]. intros H0'. exfalso.
    rewrite (Hf H0) in E. simpl in E. rewrite (Hhd H0), E in Hok.
    apply Forall_cons in Hok as [Hok _]. unfold event_ok in Hok. lia.
  - destruct (loadedEvents h ++ visited) as [|e l] eqn:E; [done|].
    case_decide as H0; [|done].
    rewrite (Hf H0) in E. simpl in E. rewrite (Hhd H0), E in Hok.
    apply Forall_cons in Hok as [Hok _]. unfold event_ok in Hok. lia.
  - done.
  - unfold flatten, unread in *. simpl. rewrite Hun, <- app_assoc by done. f_equal.
    destruct (decide (nextEventID h = 0)) as [H0|H0].
    + rewrite (Hf H0) in *. rewrite drop_nil in *. simpl in *. destruct visited as [|v visited]; simpl in *.
      * destruct rest'; [done|]. by rewrite decide_True.
      * apply Forall_cons in Hok as [Hok _]. unfold event_ok in Hok. by rewrite decide_False by lia.
    + destruct (drop _ _ ++ visited ++ rest'), (loadedEvents h ++ visited);
        rewrite ?decide_False; done.
  - done.
Qed.

Lemma loadUntil_represents n : ∀ h f i,
  represents h f → (answers_left h < n)%nat →
  ∃ h', loadU n i h = (Returned (inr tt), h') ∧ represents h' f ∧
    currentIndex h' = currentIndex h ∧ (length (loadedEvents h) ≤ length (loadedEvents h'))%nat ∧
    ((i < length (loadedEvents h'))%nat ∨ hasMoreEvents h' = false).
Proof.
  induction n as [|n IH]; intros h f i Hrep Hn; [lia|]. simpl.
  unfold mbind, go_bind. simpl. destruct (_ && _) eqn:Hc.
  - apply andb_true_iff in Hc as [_ Hmore].
    destruct (load_represents h f Hrep Hmore) as (h1 & page & Hrun & Hrep1 & Hl & Hi & Ha).
    unfold try_bind, mbind, go_bind. rewrite Hrun.
    destruct (IH h1 f i Hrep1) as (h2 & Hrun2 & ? & ? & Hlen & ?); [lia|].
    exists h2. rewrite Hl, length_app in Hlen. split_and!; try done; [congruence|lia].
  - exists h. split_and!; try done. apply andb_false_iff in Hc as [Hc|?]; [|by right].
    left. apply bool_decide_eq_false in Hc. lia.
Qed.

(** No page is left when the iterator has no token. *)
Lemma represents_last h f : represents h f → hasMoreEvents h = false →
  f_events f = drop (currentIndex h) (loadedEvents h).
Proof.
  intros (_ & rest & Hrest & -> & _) Hmore. simpl. unfold unread.
  unfold hasMoreEvents, HasNextPage in Hmore. destruct (iterator h) as [[[tok|] maxId [|a ans]]|];
    simpl in *; try (by case_bool_decide as Hb; [|destruct Hb; eauto]); simplify_eq;
    by rewrite app_nil_r.
Qed.

(** Once an index is loaded, or nothing is left to load, the loaded events and
    the event list agree there. *)
Lemma represents_lookup h f i :
  represents h f → (currentIndex h ≤ i)%nat →
  (i < length (loadedEvents h))%nat ∨ hasMoreEvents h = false →
  loadedEvents h !! i = f_events f !! (i - currentIndex h)%nat.
Proof.
  intros Hrep Hle [Hi|Hmore].
  - destruct Hrep as ([Hci _ _] & rest & _ & -> & _). simpl. unfold unread.
    rewrite lookup_app_l by (rewrite length_drop; lia). rewrite lookup_drop. f_equal. lia.
  - rewrite (represents_last h f Hrep Hmore), lookup_drop. f_equal. lia.
Qed.

Lemma represents_nextEventID h f :
  represents h f → (currentIndex h < length (loadedEvents h))%nat ∨ hasMoreEvents h = false →
  f_nextEventID f = nextEventID h.
Proof.
  intros Hrep Hor. pose proof Hrep as ([_ Hf _] & rest & _ & -> & _). simpl.
  destruct (unread h rest) as [|e l] eqn:Hun; [done|]. case_decide as H0; [|done].
  exfalso. specialize (Hf H0). destruct Hor as [?|Hmore].
  - rewrite Hf in *. simpl in *. lia.
  - pose proof (represents_last h _ Hrep Hmore) as Hl. simpl in Hl.
    rewrite Hun, Hf, drop_nil in Hl. done.
Qed.

(** Moving the cursor [k] events forward, with the event id expected there. *)
Lemma represents_move h f k nextId handled :
  represents h f → (currentIndex h + k ≤ length (loadedEvents h))%nat → 0 < nextId < 2 ^ 63 →
  represents (set_window (loadedEvents h) (currentIndex h + k) nextId handled h)
    (f_move (drop k (f_events f)) nextId handled f).
Proof.
  intros ([Hi Hf Hn] & rest & Hrest & -> & Hok) Hk Hid. split; [split|exists rest]; simpl in *.
  - done.
  - lia.
  - lia.
  - assert (unread (set_window (loadedEvents h) (currentIndex h + k) nextId handled h) rest
      = drop k (unread h rest)) as Hun.
    { unfold unread. simpl. rewrite drop_app_le by (rewrite length_drop; lia). by rewrite drop_drop. }
    split_and!; [done| |by apply Forall_drop].
    unfold flatten, f_move. rewrite Hun. simpl. f_equal.
    destruct (drop k _); [done|]. by rewrite decide_False by lia.
Qed.

Lemma represents_shrink h f :
  represents h f →
  represents (set_window (drop (currentIndex h) (loadedEvents h)) 0 (nextEventID h)
                (lastHandledEventID h) h) f.
Proof.
  intros ([Hi Hf Hn] & rest & Hrest & -> & Hok). split; [split|exists rest]; simpl.
  - lia.
  - intros H0. by rewrite (Hf H0), drop_nil.
  - done.
  - split_and!; done.
Qed.

Lemma represents_checksum h f c :
  represents h f → represents (set_binaryChecksum c h) (f_setChecksum c f).
Proof.
  intros ([Hi Hf Hn] & rest & Hrest & -> & Hok). split; [by split|]. by exists rest.
Qed.

Lemma represents_keepTask h f t :
  represents h f → represents (keepTask t h) (f_keepTask t f).
Proof.
  intros ([Hi Hf Hn] & rest & Hrest & -> & Hok). split; [by split|]. by exists rest.
Qed.

(** [m] on the paged history does what [fm] does on the event list. *)
Definition simulates {A} (m : Go history A) (fm : Go flatHistory A) (h : history) (f : flatHistory)
    : Prop :=
  let '(r, h') := m h in
  let '(r', f') := fm f in
  r = r' ∧ represents h' f'.

Lemma isNextWorkflowTaskFailed_represents h f e es :
  represents h f → f_events f = e :: es → (currentIndex h < length (loadedEvents h))%nat →
  ∃ h', isNextWorkflowTaskFailed decodeJSON unmarshal visitPayloads allowed h
        = (finishedAfter allowed es, h') ∧ represents h' f ∧ currentIndex h' = currentIndex h ∧
    (currentIndex h < length (loadedEvents h'))%nat.
Proof.
  intros Hrep Hes Hi. destruct (loadUntil_represents (S (answers_left h)) h f (S (currentIndex h)) Hrep)
    as (h' & Hrun & Hrep' & Hci & Hlen & Hor); [lia|].
  exists h'. unfold isNextWorkflowTaskFailed, try_bind, mbind, go_bind, get. rewrite Hrun.
  rewrite (represents_lookup h' f) by (done || lia).
  rewrite Hes, Hci, (Nat.sub_succ_l _ _ (le_n _)), Nat.sub_diag. simpl.
  split_and!; [by destruct es| done | done | lia].
Qed.

Lemma verify_represents h f t :
  represents h f → f_events f = [] → f_nextEventID f = nextEventID h →
  flat_orderEvents allowed [] t f =
  (match verifyAllEventsProcessed h with
   | inl err => Returned (inl err)
   | inr _ => Returned (inr t)
   end, f).
Proof.
  intros ([_ _ Hn] & rest & _ & -> & _) Hes Hid. unfold verifyAllEventsProcessed, flat_orderEvents.
  rewrite Hid. simpl. destruct (_ && _); [|done]. unfold prematureEnd.
  by rewrite wrap64_id by (unfold int64_range; lia).
Qed.

Lemma pass_represents h f e es handled :
  represents h f → f_events f = e :: es → (currentIndex h < length (loadedEvents h))%nat →
  Event_EventId e = nextEventID h →
  represents (set_window (loadedEvents h) (currentIndex h) (wrap64 (nextEventID h + 1)) handled h)
    (f_move (e :: es) (Event_EventId e + 1) handled f).
Proof.
  intros Hrep Hes Hi <-. assert (event_ok e) as He.
  { destruct Hrep as (_ & rest & _ & -> & Hok). rewrite Hes in Hok. by apply Forall_cons in Hok as [??]. }
  unfold event_ok in He. rewrite wrap64_id by (unfold int64_range; lia).
  pose proof (represents_move h f 0 (Event_EventId e + 1) handled Hrep) as Hm.
  rewrite Nat.add_0_r, Hes in Hm. apply Hm; lia.
Qed.

Lemma incIndex_represents h f e es :
  represents h f → f_events f = e :: es → (currentIndex h < length (loadedEvents h))%nat →
  represents (incIndex h) (f_move es (f_nextEventID f) (f_lastHandled f) f).
Proof.
  intros Hrep Hes Hi. rewrite (represents_nextEventID h f Hrep) by by left.
  pose proof (represents_move h f 1 (nextEventID h) (lastHandledEventID h) Hrep) as Hm.
  rewrite Nat.add_1_r, Hes in Hm.
  assert (f_lastHandled f = lastHandledEventID h) as -> by by destruct Hrep as (_ & ? & _ & -> & _).
  apply Hm; [lia|]. destruct Hrep as ([_ Hf Hn] & _).
  destruct (decide (nextEventID h = 0)) as [H0|]; [|lia]. rewrite (Hf H0) in Hi. simpl in Hi. lia.
Qed.

(** The [WORKFLOW_TASK_STARTED] branch, given what the loop does after a
    failed task. *)
Lemma started_simulates fuel t h f e es :
  represents h f → f_events f = e :: es → (currentIndex h < length (loadedEvents h))%nat →
  let skip := f_move es (f_nextEventID f) (f_lastHandled f) f in
  (∀ h', represents h' skip → simulates (order fuel t) (flat_orderEvents allowed es t) h' skip) →
  simulates
    (finished ←? isNextWorkflowTaskFailed decodeJSON unmarshal visitPayloads allowed;
     if isFailed finished then modify incIndex;; order fuel t
     else modify (set_binaryChecksum (finished_binaryChecksum finished));;
          modify incIndex;; mret (inr (endTask e finished t)))
    (λ f, match finishedAfter allowed es with
          | Panicked p => (Panicked p, f)
          | Returned (inl err) => (Returned (inl err), f)
          | Returned (inr finished) =>
              if isFailed finished then flat_orderEvents allowed es t skip
              else (Returned (inr (endTask e finished t)),
                    f_setChecksum (finished_binaryChecksum finished) skip)
          end) h f.
Proof.
  intros Hrep Hes Hi skip Hloop.
  destruct (isNextWorkflowTaskFailed_represents h f e es Hrep Hes Hi) as (h2 & Hrun & Hrep2 & Hci & Hl).
  unfold simulates, try_bind, mbind, go_bind, modify. rewrite Hrun. rewrite <- Hci in Hl.
  destruct (finishedAfter allowed es) as [[err|finished]|p]; [done| |done].
  destruct (isFailed finished).
  - apply Hloop. by apply (incIndex_represents h2 f e es).
  - split; [done|]. apply (represents_checksum (incIndex h2)).
    by apply (incIndex_represents h2 f e es).
Qed.

Lemma orderEvents_simulates es : ∀ fuel t h f,
  represents h f → f_events f = es → (length es < fuel)%nat →
  simulates (order fuel t) (flat_orderEvents allowed es t) h f.
Proof.
  induction es as [|e es IH]; intros [|fuel] t h f Hrep Hes Hfuel; try (simpl in Hfuel; lia);
    unfold simulates; cbn [orderEvents]; unfold try_bind at 1, mbind, go_bind, get;
    destruct (loadUntil_represents (S (answers_left h)) h f (currentIndex h) Hrep)
      as (h1 & Hrun & Hrep1 & Hci & _ & Hor); try lia; rewrite Hrun; rewrite <- Hci in Hor;
    pose proof (represents_nextEventID h1 f Hrep1 Hor) as Hid;
    pose proof (represents_lookup h1 f (currentIndex h1) Hrep1 (le_n _) Hor) as Hat;
    rewrite Hes, Nat.sub_diag in Hat; simpl in Hat; clear Hrun Hrep Hci.
  - assert (currentIndex h1 = length (loadedEvents h1)) as Hend.
    { apply lookup_ge_None in Hat. destruct Hrep1 as ([? _ _] & _). lia. }
    rewrite decide_True by done. unfold mret, go_ret.
    rewrite (verify_represents h1 f t Hrep1 Hes Hid). by destruct (verifyAllEventsProcessed h1).
  - assert (currentIndex h1 < length (loadedEvents h1))%nat as Hlt by by eapply lookup_lt_Some.
    rewrite decide_False by lia. rewrite Hat. cbn [flat_orderEvents]. rewrite Hid.
    case_decide as Hne; [done|].
    pose proof (pass_represents h1 f e es (lastHandledEventID h1) Hrep1 Hes Hlt Hne) as Hskip.
    pose proof (pass_represents h1 f e es (Event_EventId e) Hrep1 Hes Hlt Hne) as Hpass.
    apply (incIndex_represents _ _ e es) in Hskip; [|done..].
    pose proof (incIndex_represents _ _ e es Hpass eq_refl Hlt) as Hinc.
    assert (f_lastHandled f = lastHandledEventID h1) as -> by by destruct Hrep1 as (_ & ? & _ & -> & _).
    unfold modify. simpl in Hfuel. case_decide as Hh.
    { apply (IH fuel t _ _ Hskip); [done|lia]. }
    destruct (Event_EventType e) eqn:Ety; try (apply (IH fuel _ _ _ Hinc); [done|lia]).
    apply (started_simulates fuel t _ _ _ _ Hpass eq_refl Hlt).
    intros h2 Hrep2. apply (IH fuel t _ _ Hrep2); [done|lia].
Qed.

Lemma served_bounded maxId ans : ∀ token rest,
  served token maxId ans = Some rest →
  (length rest ≤ length (ans ≫= answer_events decodeJSON unmarshal visitPayloads maxId))%nat.
Proof.
  induction ans as [|a ans IH]; intros [tok|] rest; cbn [served]; intros H; simplify_eq; csimpl; try lia.
  rewrite length_app. unfold answer_events at 1. destruct (getPage maxId a) as [[?|[[page|] tok']]|?]; try done.
  destruct (visitPayloads page) as [|visited]; [done|].
  apply fmap_Some in H as (rest' & Hr & ->). specialize (IH _ _ Hr). rewrite length_app. lia.
Qed.

Lemma unread_bounded h f :
  represents h f → (length (f_events f) ≤ events_left decodeJSON unmarshal visitPayloads h)%nat.
Proof.
  intros (_ & rest & Hrest & -> & _). simpl. unfold unread, events_left. rewrite length_app, length_drop.
  destruct (iterator h) as [it|]; simpl in Hrest; [|simplify_eq; simpl; lia].
  apply served_bounded in Hrest. lia.
Qed.

Lemma prepareTask_simulates h f :
  represents h f → simulates prepare (flat_prepareTask allowed) h f.
Proof.
  intros Hrep. unfold prepareTask, simulates, flat_prepareTask. unfold mbind at 1, go_bind at 1, get.
  destruct (_ && _) eqn:Hc.
  - apply andb_true_iff in Hc as [Hi%bool_decide_eq_true Hmore%negb_true_iff].
    pose proof (represents_last h f Hrep Hmore) as Hes. rewrite Hi, drop_all in Hes.
    pose proof (represents_nextEventID h f Hrep (or_intror Hmore)) as Hid.
    rewrite Hes, (verify_represents h f emptyTask Hrep Hes Hid).
    by destruct (verifyAllEventsProcessed h).
  - pose proof (orderEvents_simulates (f_events f) (S (events_left decodeJSON unmarshal visitPayloads h))
      emptyTask h f Hrep eq_refl) as Hsim.
    pose proof (unread_bounded h f Hrep) as Hb. specialize (Hsim ltac:(lia)).
    unfold simulates in Hsim. unfold try_bind, mbind, go_bind, modify, mret, go_ret.
    destruct (order _ _ h) as [[[err|t]|p] h'], (flat_orderEvents _ _ _ _) as [r' f'];
      destruct Hsim as [<- Hrep']; [done| |done].
    split; [done|]. by apply represents_shrink.
Qed.

(** Simulations compose along [try_bind] and the other combinators. *)
Lemma simulates_try_bind {A B} (m : Go history (historyError + A)) fm (k : A → Go history (historyError + B)) fk h f :
  simulates m fm h f →
  (∀ a h' f', represents h' f' → simulates (k a) (fk a) h' f') →
  simulates (try_bind m k) (try_bind fm fk) h f.
Proof.
  unfold simulates, try_bind, mbind, go_bind. intros Hm Hk.
  destruct (m h) as [[[err|a]|p] h'], (fm f) as [r' f']; destruct Hm as [<- Hrep]; [done| |done].
  apply (Hk a h' f' Hrep).
Qed.

Lemma simulates_keepTask {B} t (k : Go history (historyError + B)) fk h f :
  represents h f →
  (∀ h' f', represents h' f' → simulates k fk h' f') →
  simulates (modify (keepTask t);; k) (modify (f_keepTask t);; fk) h f.
Proof. intros Hrep Hk. apply (Hk _ _ (represents_keepTask h f t Hrep)). Qed.

Lemma simulates_ret {A} (a : A) h f : represents h f → simulates (mret a) (mret a) h f.
Proof. done. Qed.

Lemma simulates_get {A} (k : history → Go history A) (fk : flatHistory → Go flatHistory A) h f :
  simulates (k h) (fk f) h f → simulates (x ← get; k x) (x ← get; fk x) h f.
Proof. done. Qed.

Lemma represents_fields h f :
  represents h f →
  f_next f = next h ∧ f_messages f = nextMessages h ∧ f_flags f = nextFlags h ∧
  f_checksum f = binaryChecksum h ∧ f_sdkName f = sdkName h ∧ f_sdkVersion f = sdkVersion h.
Proof. by intros (_ & ? & _ & -> & _). Qed.

Lemma nextTask_simulates h f :
  represents h f →
  simulates (nextTask decodeJSON unmarshal visitPayloads allowed) (flat_nextTask allowed) h f.
Proof.
  intros Hrep. unfold nextTask, flat_nextTask. apply simulates_get.
  destruct (represents_fields h f Hrep) as [-> _]. apply simulates_try_bind.
  - case_decide; [|by apply simulates_ret].
    apply simulates_try_bind; [by apply prepareTask_simulates|]. intros t h1 f1 Hrep1.
    apply simulates_keepTask; [done|]. intros. by apply simulates_ret.
  - intros [] h1 f1 Hrep1. apply simulates_get.
    destruct (represents_fields h1 f1 Hrep1) as (-> & -> & -> & -> & -> & ->).
    case_decide; [by apply simulates_ret|].
    apply simulates_try_bind; [by apply prepareTask_simulates|]. intros t h2 f2 Hrep2.
    apply simulates_keepTask; [done|]. intros. by apply simulates_ret.
Qed.
End Simulation.
