(* ===== verification/HistoryTasks.v ===== *)
(** * What the workflow task handler gets from a history.

    The handler calls [nextTask] until it returns a task without events
    ([ProcessWorkflowTask] in [src/internal/internal_task_handlers.go]). *)

From stdpp Require Import base list gmap strings.
From S2P Require Import Prelude Proto Flags History HistoryFacts.
Open Scope Z_scope.

(** ** The events a history delivers *)

Definition taskFailedNext (following : list HistoryEvent) : bool :=
  match following with
  | e :: _ =>
      bool_decide (Event_EventType e = EVENT_TYPE_WORKFLOW_TASK_TIMED_OUT)
      || bool_decide (Event_EventType e = EVENT_TYPE_WORKFLOW_TASK_FAILED)
  | [] => false
  end.

(** The events of [es] after the event [handled] that the tasks carry: all but
    the scheduling and the timeouts of workflow tasks, and the starts of those
    that failed or timed out. *)
Fixpoint delivered (handled : Z) (es : list HistoryEvent) : list HistoryEvent :=
  match es with
  | [] => []
  | e :: es' =>
      if decide (Event_EventId e ≤ handled) then delivered handled es'
      else match Event_EventType e with
           | EVENT_TYPE_WORKFLOW_TASK_STARTED =>
               if taskFailedNext es' then delivered handled es' else e :: delivered handled es'
           | EVENT_TYPE_WORKFLOW_TASK_SCHEDULED
           | EVENT_TYPE_WORKFLOW_TASK_TIMED_OUT => delivered handled es'
           | _ => e :: delivered handled es'
           end
  end.

(** [es] has the ids [n], [n + 1], ... *)
Fixpoint contiguous (n : Z) (es : list HistoryEvent) : Prop :=
  match es with
  | [] => True
  | e :: es' => Event_EventId e = n ∧ contiguous (n + 1) es'
  end.

Section Tasks.
  Variable allowed : gmap sdkFlag bool.

(** A completed workflow task says what it must, with flags this SDK knows. *)
Definition completion_ok (e : HistoryEvent) : Prop :=
  ∃ finished, finishedTaskOf allowed e = Returned (inr finished).

Lemma finishedTaskOf_failed e finished :
  finishedTaskOf allowed e = Returned (inr finished) → isFailed finished = taskFailedNext [e].
Proof.
  unfold finishedTaskOf, taskFailedNext.
  destruct (Event_Attributes e); case_decide; try (by intros; simplify_eq/=).
  destruct (History.langUsedFlags _ _); cbn; intros; by simplify_eq/=.
Qed.

Lemma finishedAfter_ok es :
  Forall completion_ok es →
  ∃ finished, finishedAfter allowed es = Returned (inr finished) ∧ isFailed finished = taskFailedNext es.
Proof.
  intros [|e es' [finished Hf] _]; simpl; [by exists noFinishedTask|].
  exists finished. split; [done|]. by apply finishedTaskOf_failed in Hf.
Qed.

Lemma events_addEvent e t : events (addEvent e t) = events t ++ [e].
Proof. unfold addEvent. repeat case_match; done. Qed.

(** Raising [handled] to below the next id changes nothing. *)
Lemma delivered_handled n es : ∀ handled handled',
  contiguous n es → handled ≤ handled' < n → delivered handled es = delivered handled' es.
Proof.
  revert n. induction es as [|e es IH]; intros n handled handled' Hc Hh; simpl; [done|].
  destruct Hc as [Hid Hc]. rewrite !decide_False by lia.
  rewrite (IH (n + 1) handled handled') by (done || lia). done.
Qed.

(** What one pass of [prepareTask] leaves: it takes a prefix of the events. *)
Record prepared (t : preparedTask) (f : flatHistory) (t' : preparedTask) (f' : flatHistory) : Prop := {
  p_delivered : events t' ++ delivered (f_lastHandled f') (f_events f') =
                events t ++ delivered (f_lastHandled f) (f_events f);
  p_contiguous : contiguous (f_nextEventID f') (f_events f');
  p_ok : Forall completion_ok (f_events f');
  p_last : f_lastEventID f' = f_lastEventID f;
  p_reach : f_nextEventID f' + Z.of_nat (length (f_events f')) =
            f_nextEventID f + Z.of_nat (length (f_events f));
  p_shorter : f_events f' = [] ∨ (length (f_events f') < length (f_events f))%nat;
  p_end : events t' = [] → f_events f' = [];
}.

Lemma prepared_skip t e es handled f t' f' :
  let skip := f_move es (f_nextEventID f + 1) handled f in
  f_events f = e :: es →
  delivered (f_lastHandled f) (e :: es) = delivered handled es →
  prepared t skip t' f' → prepared t f t' f'.
Proof.
  intros skip Hes Hd []. split; try done.
  - by rewrite Hes, Hd.
  - rewrite p_reach0, Hes. simpl. lia.
  - destruct p_shorter0; [by left|right]. rewrite Hes. simpl in *. lia.
Qed.

Lemma prepared_add t e es handled f t' f' :
  let skip := f_move es (f_nextEventID f + 1) handled f in
  f_events f = e :: es →
  delivered (f_lastHandled f) (e :: es) = e :: delivered handled es →
  prepared (addEvent e t) skip t' f' → prepared t f t' f'.
Proof.
  intros skip Hes Hd []. split; try done.
  - rewrite p_delivered0, events_addEvent, Hes, Hd. simpl. by rewrite <- app_assoc.
  - rewrite p_reach0, Hes. simpl. lia.
  - destruct p_shorter0; [by left|right]. rewrite Hes. simpl in *. lia.
Qed.

Lemma flat_orderEvents_prepared es : ∀ t f,
  f_events f = es → contiguous (f_nextEventID f) es → Forall completion_ok es →
  f_lastEventID f < f_nextEventID f + Z.of_nat (length es) ∨ f_lastEventID f ≤ 0 →
  ∃ t' f', flat_orderEvents allowed es t f = (Returned (inr t'), f') ∧ prepared t f t' f'.
Proof.
  induction es as [|e es IH]; intros t f Hes Hc Hok Hlast; cbn [flat_orderEvents].
  { destruct (_ && _) eqn:Hb.
    - apply andb_true_iff in Hb as [?%bool_decide_eq_true ?%bool_decide_eq_true]. simpl in Hlast. lia.
    - exists t, f. split; [done|]. split; rewrite ?Hes; auto. }
  destruct Hc as [Hid Hc]. apply Forall_cons in Hok as [_ Hok].
  rewrite decide_False by (intros H; by apply H). rewrite Hid in *.
  assert (Hnext : ∀ t1 handled, ∃ t' f', flat_orderEvents allowed es t1
      (f_move es (f_nextEventID f + 1) handled f) = (Returned (inr t'), f') ∧
      prepared t1 (f_move es (f_nextEventID f + 1) handled f) t' f').
  { intros t1 handled. apply IH; [done..|]. simpl in *. lia. }
  assert (Hh : f_lastHandled f < f_nextEventID f →
    delivered (f_lastHandled f) es = delivered (f_nextEventID f) es).
  { intros. apply (delivered_handled (f_nextEventID f + 1)); [done|lia]. }
  case_decide as Hhd.
  { destruct (Hnext t (f_lastHandled f)) as (t' & f' & -> & Hp). exists t', f'. split; [done|].
    apply (prepared_skip t e es (f_lastHandled f)); [done| |done].
    simpl. by rewrite decide_True by lia. }
  assert (Hd : delivered (f_lastHandled f) (e :: es) = match Event_EventType e with
    | EVENT_TYPE_WORKFLOW_TASK_STARTED =>
        if taskFailedNext es then delivered (f_nextEventID f) es
        else e :: delivered (f_nextEventID f) es
    | EVENT_TYPE_WORKFLOW_TASK_SCHEDULED
    | EVENT_TYPE_WORKFLOW_TASK_TIMED_OUT => delivered (f_nextEventID f) es
    | _ => e :: delivered (f_nextEventID f) es
    end).
  { simpl. rewrite decide_False, Hh by lia. done. }
  destruct (Hnext t (f_nextEventID f)) as (ts & fs & Hrun & Hskip).
  destruct (Hnext (addEvent e t) (f_nextEventID f)) as (ta & fa & Hrun' & Hadd).
  destruct (finishedAfter_ok es Hok) as (finished & Hfin & Hfailed).
  destruct (Event_EventType e); rewrite ?Hrun, ?Hrun', ?Hfin;
    try (eexists _, _; split; [reflexivity|]; by eapply prepared_add);
    try (eexists _, _; split; [reflexivity|]; by eapply prepared_skip).
  rewrite Hfailed. destruct (taskFailedNext es).
  { eexists _, _; split; [reflexivity|]; by eapply prepared_skip. }
  eexists _, _. split; [reflexivity|]. split; simpl; try done.
  - rewrite Hes, Hd. by rewrite <- app_assoc.
  - rewrite Hes. simpl. lia.
  - right. rewrite Hes. simpl. lia.
  - intros H. by destruct (events t).
Qed.

(** ** Draining the history *)

(** The results of [n] calls of [nextTask]. *)
Fixpoint nextTasks {S} (m : Go S (historyError + preparedTask)) (n : nat) (s : S)
    : list (outcome (historyError + preparedTask)) :=
  match n with
  | O => []
  | Datatypes.S n' => let (r, s') := m s in r :: nextTasks m n' s'
  end.

(** The remaining events are as the server promises. *)
Record ready (f : flatHistory) : Prop := {
  r_contiguous : contiguous (f_nextEventID f) (f_events f);
  r_ok : Forall completion_ok (f_events f);
  r_last : f_lastEventID f < f_nextEventID f + Z.of_nat (length (f_events f)) ∨ f_lastEventID f ≤ 0;
}.

(** What is still to be delivered: the task read ahead and the rest. *)
Definition pending (f : flatHistory) : list HistoryEvent :=
  f_next f ++ delivered (f_lastHandled f) (f_events f).

Lemma flat_prepareTask_ready f :
  ready f →
  ∃ t f', flat_prepareTask allowed f = (Returned (inr t), f') ∧ ready (f_keepTask t f') ∧
    pending (f_keepTask t f') = delivered (f_lastHandled f) (f_events f) ∧
    (f_events f' = [] ∨ (length (f_events f') < length (f_events f))%nat) ∧
    (events t = [] → f_events f' = []).
Proof.
  intros [Hc Hok Hl].
  destruct (flat_orderEvents_prepared (f_events f) emptyTask f eq_refl Hc Hok Hl) as (t & f' & Hrun & Hp).
  exists t, f'. split; [done|]. destruct Hp. split_and!; try done.
  split; try done. simpl. rewrite p_last0, p_reach0. done.
Qed.

Lemma flat_nextTask_step f :
  ready f → f_next f ≠ [] →
  ∃ t f', flat_nextTask allowed f = (Returned (inr t), f') ∧ events t = f_next f ∧ ready f' ∧
    pending f' = delivered (f_lastHandled f) (f_events f) ∧
    (f_next f' = [] → f_events f' = []) ∧
    (f_next f' ≠ [] → (length (f_events f') < length (f_events f))%nat).
Proof.
  intros Hr Hn. destruct (flat_prepareTask_ready f Hr) as (t & f' & Hrun & Hr' & Hp & Hs & He).
  unfold flat_nextTask, try_bind, mbind, go_bind, get, modify, mret, go_ret.
  rewrite decide_False by done. rewrite decide_False by done. rewrite Hrun.
  eexists _, _. split_and!; [reflexivity|done..|].
  intros Hne. simpl in *. destruct (f_events f) as [|e es].
  - unfold pending in Hp. simpl in Hp. by apply app_eq_nil in Hp as [? _].
  - destruct Hs as [->|?]; simpl in *; lia.
Qed.

(** The last call. *)
Lemma flat_nextTask_end f :
  ready f → f_next f = [] → f_events f = [] →
  ∃ t f', flat_nextTask allowed f = (Returned (inr t), f') ∧ events t = [].
Proof.
  intros Hr Hn Hes. destruct (flat_prepareTask_ready f Hr) as (t & f' & Hrun & _ & Hp & _).
  unfold pending in Hp. rewrite Hes in Hp. simpl in Hp. apply app_eq_nil in Hp as [Ht _].
  unfold flat_nextTask, try_bind, mbind, go_bind, get, modify, mret, go_ret.
  rewrite decide_True by done. rewrite Hrun. simpl. rewrite decide_True by done.
  eexists _, _. split; [reflexivity|done].
Qed.

(** The results [rs] are the tasks [ts] and a task without events. *)
Definition drained (rs : list (outcome (historyError + preparedTask))) (ts : list preparedTask) : Prop :=
  ∃ t_end, rs = ((λ t, Returned (inr t)) <$> ts) ++ [Returned (inr t_end)] ∧ events t_end = [] ∧
    Forall (λ t, events t ≠ []) ts.

Lemma flat_drain n : ∀ f,
  ready f → f_next f ≠ [] → (length (f_events f) < n)%nat →
  ∃ ts, drained (nextTasks (flat_nextTask allowed) (S (length ts)) f) ts ∧
    concat (events <$> ts) = pending f.
Proof.
  induction n as [|n IH]; intros f Hr Hn Hlen; [lia|].
  destruct (flat_nextTask_step f Hr Hn) as (t & f1 & Hrun & Ht & Hr1 & Hp & Hend & Hlt).
  unfold pending in *. destruct (decide (f_next f1 = [])) as [He|He].
  - destruct (flat_nextTask_end f1 Hr1 He (Hend He)) as (t2 & f2 & Hrun2 & Ht2).
    exists [t]. split.
    + exists t2. split_and!; [|done|by repeat constructor; rewrite Ht].
      simpl. rewrite Hrun, Hrun2. done.
    + simpl. rewrite app_nil_r, Ht, <- Hp, He, (Hend He). by rewrite app_nil_r.
  - destruct (IH f1 Hr1 He) as (ts & (t_end & Hrs & Hte & Hall) & Hcat).
    { specialize (Hlt He). lia. }
    exists (t :: ts). split.
    + exists t_end. split_and!; [|done|constructor; [by rewrite Ht|done]].
      cbn [length nextTasks]. rewrite Hrun. cbn [nextTasks length] in Hrs. rewrite Hrs. done.
    + csimpl. rewrite Ht, Hcat, Hp. done.
Qed.

(** From the start, with no task read ahead. *)
Lemma flat_drain_start f :
  ready f → f_next f = [] →
  ∃ ts, drained (nextTasks (flat_nextTask allowed) (S (length ts)) f) ts ∧
    concat (events <$> ts) = delivered (f_lastHandled f) (f_events f).
Proof.
  intros Hr Hn. destruct (flat_prepareTask_ready f Hr) as (t & f1 & Hrun & Hr1 & Hp & _ & He).
  destruct (decide (events t = [])) as [Ht|Ht].
  - exists []. assert (delivered (f_lastHandled f) (f_events f) = []) as Hd.
    { rewrite <- Hp. unfold pending. simpl. by rewrite Ht, (He Ht). }
    split; [|by rewrite Hd]. simpl. unfold flat_nextTask, try_bind, mbind, go_bind, get, modify, mret, go_ret.
    rewrite decide_True by done. rewrite Hrun. simpl. rewrite decide_True by done.
    eexists _. split_and!; [reflexivity|done|constructor].
  - destruct (flat_drain (S (length (f_events f1))) (f_keepTask t f1) Hr1 Ht) as (ts & Hts & Hcat); [simpl; lia|].
    exists ts. split; [|by rewrite Hcat]. cbn [nextTasks] in *.
    replace (flat_nextTask allowed f) with (flat_nextTask allowed (f_keepTask t f1)); [done|].
    unfold flat_nextTask at 2, try_bind, mbind, go_bind, get, modify.
    rewrite (decide_True (P := f_next f = [])) by done. rewrite Hrun.
    unfold flat_nextTask, try_bind, mbind, go_bind, get, modify, mret, go_ret.
    by rewrite decide_False by done.
Qed.

(** ** Nothing is lost without an error *)

(** From [f] to [f'] a contiguous run of events was read. *)
Definition reads (f f' : flatHistory) : Prop :=
  ∃ pre, f_events f = pre ++ f_events f' ∧ contiguous (f_nextEventID f) pre ∧
    f_nextEventID f' = f_nextEventID f + Z.of_nat (length pre) ∧ f_lastEventID f' = f_lastEventID f.

Lemma contiguous_app n l1 l2 :
  contiguous n (l1 ++ l2) ↔ contiguous n l1 ∧ contiguous (n + Z.of_nat (length l1)) l2.
Proof.
  revert n. induction l1 as [|e l1 IH]; intros n; simpl.
  - rewrite Z.add_0_r. tauto.
  - rewrite IH. replace (n + 1 + Z.of_nat (length l1)) with (n + Z.of_nat (S (length l1))) by lia. tauto.
Qed.

#[global] Instance reads_preorder : PreOrder reads.
Proof.
  split.
  - intros f. exists []. simpl. split_and!; [done..|lia|done].
  - intros f1 f2 f3 (p & Hp & Hc & Hn & Hl) (q & Hq & Hc' & Hn' & Hl').
    exists (p ++ q). rewrite Hp, Hq, length_app. split_and!; [by rewrite app_assoc| |lia|congruence].
    apply contiguous_app. by rewrite <- Hn.
Qed.

Lemma reads_one f e es handled :
  f_events f = e :: es → Event_EventId e = f_nextEventID f →
  reads f (f_move es (Event_EventId e + 1) handled f).
Proof. intros Hes Hid. exists [e]. simpl. rewrite Hes, Hid. done. Qed.

(** The stream is over and reached the event the task was started at. *)
Definition complete (f : flatHistory) : Prop :=
  f_events f = [] ∧ (f_lastEventID f < f_nextEventID f ∨ f_lastEventID f ≤ 0).

Lemma flat_orderEvents_reads es : ∀ t f t' f',
  f_events f = es → flat_orderEvents allowed es t f = (Returned (inr t'), f') →
  reads f f' ∧ (events t' = [] → complete f').
Proof.
  induction es as [|e es IH]; intros t f t' f' Hes; cbn [flat_orderEvents].
  { destruct (_ && _) eqn:Hb; intros ?; simplify_eq. split; [done|]. intros _. split; [done|].
    apply andb_false_iff in Hb as [?%bool_decide_eq_false|?%bool_decide_eq_false]; lia. }
  case_decide as Hid; [done|]. assert (Event_EventId e = f_nextEventID f) as Hid' by lia.
  assert (Hgo : ∀ t1 handled,
    flat_orderEvents allowed es t1 (f_move es (Event_EventId e + 1) handled f) = (Returned (inr t'), f') →
    reads f f' ∧ (events t' = [] → complete f')).
  { intros t1 handled H. apply IH in H as [Hr ?]; [|done]. split; [|done].
    etrans; [|exact Hr]. by apply reads_one. }
  case_decide; [by apply Hgo|].
  destruct (Event_EventType e); try apply Hgo.
  destruct (finishedAfter allowed es) as [[?|finished]|?]; [done| |done].
  destruct (isFailed finished); [apply Hgo|]. intros ?; simplify_eq. split.
  - destruct (reads_one f e es (Event_EventId e) Hes Hid') as (pre & ?). by exists pre.
  - simpl. by destruct (events t).
Qed.

Lemma flat_nextTask_reads f t f' :
  flat_nextTask allowed f = (Returned (inr t), f') →
  reads f f' ∧ (events t = [] → complete f').
Proof.
  assert (Hprep : ∀ f t f', flat_prepareTask allowed f = (Returned (inr t), f') →
    reads f (f_keepTask t f') ∧ (events t = [] → complete (f_keepTask t f'))).
  { intros f0 t0 f0' H. by apply flat_orderEvents_reads in H. }
  unfold flat_nextTask, try_bind, mbind, go_bind, get, modify, mret, go_ret.
  intros H. case_decide as Hn.
  - destruct (flat_prepareTask allowed f) as [[[err|t1]|p] f1] eqn:H1; simplify_eq.
    apply Hprep in H1 as [Hr1 Hc1]. case_decide as Ht1; simplify_eq; [by split; [|intros _; apply Hc1]|].
    destruct (flat_prepareTask allowed (f_keepTask t1 f1)) as [[[err|t2]|p] f2] eqn:H2; simplify_eq.
    apply Hprep in H2 as [Hr2 _]. split; [by etrans|]. done.
  - rewrite decide_False in H by done.
    destruct (flat_prepareTask allowed f) as [[[err|t2]|p] f2] eqn:H2; simplify_eq.
    apply Hprep in H2 as [Hr2 _]. by split.
Qed.

Lemma drained_reads ts : ∀ f,
  drained (nextTasks (flat_nextTask allowed) (S (length ts)) f) ts → ∃ f', reads f f' ∧ complete f'.
Proof.
  induction ts as [|t ts IH]; intros f (t_end & Hrs & Hend & Hall); cbn [nextTasks length] in Hrs.
  - destruct (flat_nextTask allowed f) as [r f'] eqn:Hrun. simpl in Hrs. simplify_eq.
    apply flat_nextTask_reads in Hrun as [Hr Hc]. exists f'. auto.
  - destruct (flat_nextTask allowed f) as [r f1] eqn:Hrun. simpl in Hrs. injection Hrs as -> Hrs.
    apply flat_nextTask_reads in Hrun as [Hr _]. apply Forall_cons in Hall as [_ Hall].
    destruct (IH f1) as (f' & Hr' & Hc); [by exists t_end|].
    exists f'. split; [by etrans|done].
Qed.
End Tasks.

(** ** The paged reader *)

Definition firstEventID (es : list HistoryEvent) : Z :=
  match es with e :: _ => Event_EventId e | [] => 0 end.

Definition newFlat (lastHandled : Z) (es : list HistoryEvent) (startedEventId : Z) : flatHistory :=
  mkFlat es (firstEventID es) startedEventId lastHandled [] [] [] "" "" "".

Section Paged.
  Variable decodeJSON : string → string + list HistoryEvent.
  Variable unmarshal : string → string + list HistoryEvent.
  Variable visitPayloads : list HistoryEvent → string + list HistoryEvent.
  Variable allowed : gmap sdkFlag bool.

  Local Abbreviation task := (nextTask decodeJSON unmarshal visitPayloads allowed).
  Local Abbreviation serves := (served_by decodeJSON unmarshal visitPayloads).
  Local Abbreviation rep := (represents decodeJSON unmarshal visitPayloads).

Lemma newHistory_represents handled page rest started previous it :
  serves it = Some rest → Forall event_ok (page ++ rest) →
  rep (newHistory handled page started previous it) (newFlat handled (page ++ rest) started).
Proof.
  intros Hs Hok. assert (nextEventID (newHistory handled page started previous it) = firstEventID page)
    as Hid by done.
  split; [split|exists rest; split_and!]; simpl; try done.
  - lia.
  - destruct page as [|e page]; [done|]. intros H. apply Forall_cons in Hok as [He _].
    unfold event_ok in He. simpl in H. lia.
  - destruct page as [|e page]; [simpl; lia|]. apply Forall_cons in Hok as [He _].
    unfold event_ok in He. lia.
  - unfold newFlat, flatten, unread. simpl. f_equal. destruct page as [|e page]; simpl.
    + by destruct rest.
    + apply Forall_cons in Hok as [He _]. unfold event_ok in He. by rewrite decide_False by lia.
Qed.

Lemma nextTasks_represents n : ∀ h f,
  rep h f → nextTasks task n h = nextTasks (flat_nextTask allowed) n f.
Proof.
  induction n as [|n IH]; intros h f Hrep; [done|]. simpl.
  pose proof (nextTask_simulates decodeJSON unmarshal visitPayloads allowed h f Hrep) as Hsim.
  unfold simulates in Hsim. destruct (task h) as [r h'], (flat_nextTask allowed f) as [r' f'].
  destruct Hsim as [-> Hrep']. f_equal. by apply IH.
Qed.

(** C22. The tasks a worker gets from a history do not depend on how the server
    cuts it into pages. Two poll responses whose first page and later pages
    (raw or not, empty pages included) make up the same list of events, give
    the same sequence of results of [nextTask], errors, flags, markers,
    messages, checksums and build ids included, however often it is called. *)
Theorem history_paging_irrelevant n handled started previous previous' page it rest page' it' rest' :
  serves it = Some rest → serves it' = Some rest' →
  page ++ rest = page' ++ rest' → Forall event_ok (page ++ rest) →
  nextTasks task n (newHistory handled page started previous it) =
  nextTasks task n (newHistory handled page' started previous' it').
Proof.
  intros Hs Hs' Heq Hok. rewrite !(nextTasks_represents n _ (newFlat handled (page ++ rest) started)).
  - done.
  - rewrite Heq in *. by apply newHistory_represents.
  - by apply newHistory_represents.
Qed.

(** C8. For a history as the server promises it (contiguous event ids that
    reach the started event of the task, completed events with flags this SDK
    knows), [nextTask] returns tasks with events until it returns one without,
    never an error. Together the tasks carry every event after the last one
    handled exactly once and in order, except the scheduling and the timeouts
    of workflow tasks and the starts of those that failed or timed out. *)
Theorem history_delivered_once handled page rest started previous it :
  serves it = Some rest → Forall event_ok (page ++ rest) →
  contiguous (firstEventID (page ++ rest)) (page ++ rest) →
  Forall (completion_ok allowed) (page ++ rest) →
  started < firstEventID (page ++ rest) + Z.of_nat (length (page ++ rest)) ∨ started ≤ 0 →
  ∃ ts,
    drained (nextTasks task (S (length ts)) (newHistory handled page started previous it)) ts ∧
    concat (events <$> ts) = delivered handled (page ++ rest).
Proof.
  intros Hs Hok Hc Hcomp Hl.
  destruct (flat_drain_start allowed (newFlat handled (page ++ rest) started)) as (ts & Hd & Hcat);
    [done..|].
  exists ts. split; [|done].
  by rewrite (nextTasks_represents _ _ _ (newHistory_represents handled page rest started previous it Hs Hok)).
Qed.

(** No event is lost silently. If a worker gets tasks from [nextTask] up
    to the one without events and no error, the history the server sent had
    no gap, no duplicate and no reordering, and it reached the started event of
    the workflow task. *)
Theorem history_gap_detected handled page rest started previous it ts :
  serves it = Some rest → Forall event_ok (page ++ rest) →
  drained (nextTasks task (S (length ts)) (newHistory handled page started previous it)) ts →
  contiguous (firstEventID (page ++ rest)) (page ++ rest) ∧
  (started < firstEventID (page ++ rest) + Z.of_nat (length (page ++ rest)) ∨ started ≤ 0).
Proof.
  intros Hs Hok Hd.
  rewrite (nextTasks_represents _ _ _ (newHistory_represents handled page rest started previous it Hs Hok)) in Hd.
  apply drained_reads in Hd as (f' & (pre & Hpre & Hc & Hn & Hl) & Hnil & Hlast).
  simpl in *. rewrite Hnil, app_nil_r in Hpre. rewrite <- Hpre in *. rewrite <- Hn, <- Hl. done.
Qed.

(** A raw page that cannot be decoded is not an error of the iterator:
    [newGetHistoryPageFunc] drops the error, the iterator returns a nil page
    and forgets its token, and [loadMoreEvents] dereferences the nil page. *)
Theorem raw_page_error_dropped h tok maxId resp ans blobs err :
  iterator h = Some (mkHistoryIterator (Some tok) maxId (inr resp :: ans)) →
  RawHistory resp = Some blobs →
  DeserializeBlobDataToHistoryEvents decodeJSON unmarshal blobs = inl err →
  GetNextPage decodeJSON unmarshal visitPayloads (mkHistoryIterator (Some tok) maxId (inr resp :: ans))
    = (Returned (inr None), mkHistoryIterator None maxId ans) ∧
  result (loadMoreEvents decodeJSON unmarshal visitPayloads) h = Panicked nilDereference.
Proof.
  intros Hit Hraw Herr.
  assert (GetNextPage decodeJSON unmarshal visitPayloads
    (mkHistoryIterator (Some tok) maxId (inr resp :: ans))
    = (Returned (inr None), mkHistoryIterator None maxId ans)) as Hpage.
  { unfold GetNextPage, try_bind, inner_GetNextPage, mbind, go_bind. simpl. by rewrite Hraw, Herr. }
  split; [done|]. unfold loadMoreEvents, try_bind, getMoreEvents, mbind, go_bind, result.
  rewrite Hit, Hpage. done.
Qed.
End Paged.

(** ** Witnesses: a history of two workflow tasks, the first one timed out *)

Definition ev (id : Z) (ty : EventType) : HistoryEvent := mkHistoryEvent id ty NoEventAttributes 0 false.

Definition exampleHistory : list HistoryEvent :=
  [ev 1 EVENT_TYPE_WORKFLOW_EXECUTION_STARTED; ev 2 EVENT_TYPE_WORKFLOW_TASK_SCHEDULED;
   ev 3 EVENT_TYPE_WORKFLOW_TASK_STARTED; ev 4 EVENT_TYPE_WORKFLOW_TASK_TIMED_OUT;
   ev 5 EVENT_TYPE_WORKFLOW_TASK_SCHEDULED; ev 6 EVENT_TYPE_WORKFLOW_TASK_STARTED].

Definition decodeFails : string → string + list HistoryEvent := λ _, inl "bad data".

(** The example with its last three events on a second page. *)
Definition exampleIterator : option historyIterator :=
  Some (mkHistoryIterator (Some "token") 6
    [inr (mkHistoryResponse None (Some []) (Some "token2"));
     inr (mkHistoryResponse None (Some (drop 3 exampleHistory)) None)]).

Lemma exampleHistory_ok : Forall event_ok exampleHistory.
Proof. repeat (constructor; [unfold event_ok; simpl; lia|]). constructor. Qed.

Lemma history_paging_irrelevant_witness :
  nextTasks (nextTask decodeFails decodeFails inr sdkFlagsAllowed) 3
    (newHistory 0 exampleHistory 6 0 None) =
  nextTasks (nextTask decodeFails decodeFails inr sdkFlagsAllowed) 3
    (newHistory 0 (take 3 exampleHistory) 6 0 exampleIterator).
Proof.
  apply (history_paging_irrelevant decodeFails decodeFails inr sdkFlagsAllowed 3 0 6 0 0
    exampleHistory None [] (take 3 exampleHistory) exampleIterator (drop 3 exampleHistory)).
  - vm_compute. reflexivity.
  - vm_compute. reflexivity.
  - vm_compute. reflexivity.
  - exact exampleHistory_ok.
Defined.

Lemma history_delivered_once_witness :
  ∃ ts,
    drained (nextTasks (nextTask decodeFails decodeFails inr sdkFlagsAllowed) (S (length ts))
      (newHistory 0 (take 3 exampleHistory) 6 0 exampleIterator)) ts ∧
    concat (events <$> ts) =
      [ev 1 EVENT_TYPE_WORKFLOW_EXECUTION_STARTED; ev 6 EVENT_TYPE_WORKFLOW_TASK_STARTED].
Proof.
  apply (history_delivered_once decodeFails decodeFails inr sdkFlagsAllowed 0
    (take 3 exampleHistory) (drop 3 exampleHistory) 6 0 exampleIterator).
  - vm_compute. reflexivity.
  - exact exampleHistory_ok.
  - simpl. tauto.
  - repeat (constructor; [eexists; vm_compute; reflexivity|]). constructor.
  - left. reflexivity.
Defined.

Lemma history_gap_detected_witness :
  contiguous 1 exampleHistory ∧ (6 < 1 + Z.of_nat (length exampleHistory) ∨ 6 ≤ 0).
Proof.
  apply (history_gap_detected decodeFails decodeFails inr sdkFlagsAllowed 0
    exampleHistory [] 6 0 None
    [mkPreparedTask [ev 1 EVENT_TYPE_WORKFLOW_EXECUTION_STARTED; ev 6 EVENT_TYPE_WORKFLOW_TASK_STARTED]
       [] [] [] [] "" "" "" None]).
  - vm_compute. reflexivity.
  - exact exampleHistory_ok.
  - eexists. split; [vm_compute; reflexivity|]. split; [reflexivity|]. constructor; [discriminate|constructor].
Defined.

Lemma raw_page_error_dropped_witness :
  result (loadMoreEvents decodeFails decodeFails inr)
    (newHistory 0 [] 0 0 (Some (mkHistoryIterator (Some "token") 0
      [inr (mkHistoryResponse (Some [Some (mkDataBlob "x" ENCODING_TYPE_PROTO3)]) None None)])))
  = Panicked nilDereference.
Proof.
  refine (proj2 (raw_page_error_dropped decodeFails decodeFails inr _ "token" 0 _ []
    [Some (mkDataBlob "x" ENCODING_TYPE_PROTO3)] "bad data" _ _ _)); reflexivity.
Defined.
