(* ===== verification/Replay.v ===== *)
(** * Checking a replay against the history.

    [matchReplayWithHistory] and the functions it calls, of
    [src/internal/internal_task_handlers.go]: the commands workflow code
    produced in a replay against the events the original execution left. *)

From stdpp Require Import base list gmap strings.
From S2P Require Import Prelude Proto CommandMachine Flags History.
Open Scope Z_scope.

(** ** Data *)

(** An outgoing protocol message with the test for its event. *)
Record outboxEntry : Type := mkOutboxEntry {
  ob_msgId : string;
  ob_eventPredicate : HistoryEvent → bool;
}.

(** The three errors of [matchReplayWithHistory]. *)
Inductive historyMismatchError : Type :=
| missingReplayCommand (e : HistoryEvent)
| extraReplayCommand (d : Command)
| mismatch (e : HistoryEvent) (d : Command).

Definition TemporalChangeVersion : string := "TemporalChangeVersion".
Definition ReplayNamespace : string := "ReplayNamespace".

Definition IsReplayNamespace (dn : string) : bool := bool_decide (ReplayNamespace = dn).

Definition checkNamespacesInCommandAndEvent (eventNamespace commandNamespace : string) : bool :=
  if bool_decide (commandNamespace = "") || IsReplayNamespace commandNamespace then false
  else bool_decide (eventNamespace ≠ commandNamespace).

(** The part of a string after its last dot. *)
Fixpoint afterLastDot (name : string) : option string :=
  match name with
  | EmptyString => None
  | String c rest =>
      match afterLastDot rest with
      | Some part => Some part
      | None => if bool_decide (c = dot) then Some rest else None
      end
  end.

Definition lastPartOfName (name : string) : string :=
  match afterLastDot name with
  | None | Some EmptyString => name
  | Some part => part
  end.

(** ** What is left out of the comparison *)

Definition isUncheckedMarker (markerName : string) : bool :=
  bool_decide (markerName = versionMarkerName) || bool_decide (markerName = mutableSideEffectMarkerName).

Definition commandMarkerName (d : Command) : string :=
  match Command_Attributes d with
  | Some (Command_RecordMarkerCommandAttributes a) => rm_MarkerName a
  | _ => ""
  end.

Definition eventMarkerName (e : HistoryEvent) : string :=
  match Event_Attributes e with
  | MarkerRecordedEventAttributes name _ _ => name
  | _ => ""
  end.

Definition skipDeterministicCheckForCommand (d : Command) : bool :=
  match Command_CommandType d with
  | COMMAND_TYPE_RECORD_MARKER => isUncheckedMarker (commandMarkerName d)
  | _ => false
  end.

Section Replay.
  Variable allowed : gmap sdkFlag bool.

Definition skipDeterministicCheckForEvent (e : HistoryEvent) (sf : sdkFlags) : bool :=
  match Event_EventType e with
  | EVENT_TYPE_MARKER_RECORDED => isUncheckedMarker (eventMarkerName e)
  | EVENT_TYPE_WORKFLOW_EXECUTION_COMPLETED
  | EVENT_TYPE_WORKFLOW_EXECUTION_CONTINUED_AS_NEW
  | EVENT_TYPE_WORKFLOW_EXECUTION_FAILED
  | EVENT_TYPE_WORKFLOW_EXECUTION_CANCELED
  | EVENT_TYPE_WORKFLOW_EXECUTION_TIMED_OUT
  | EVENT_TYPE_WORKFLOW_EXECUTION_UPDATE_ADMITTED => true
  | EVENT_TYPE_WORKFLOW_EXECUTION_UPDATE_ACCEPTED
  | EVENT_TYPE_WORKFLOW_EXECUTION_UPDATE_REJECTED
  | EVENT_TYPE_WORKFLOW_EXECUTION_UPDATE_COMPLETED =>
      negb (tryUse allowed SDKFlagProtocolMessageCommand false sf).1
  | _ => false
  end.

(** On the events from the index on. *)
Definition skipDeterministicCheckForUpsertChangeVersion (es : list HistoryEvent) : outcome bool :=
  match es with
  | e :: e1 :: _ =>
      if bool_decide (Event_EventType e = EVENT_TYPE_MARKER_RECORDED)
         && bool_decide (eventMarkerName e = versionMarkerName)
         && bool_decide (Event_EventType e1 = EVENT_TYPE_UPSERT_WORKFLOW_SEARCH_ATTRIBUTES)
      then match Event_Attributes e1 with
           | UpsertSearchAttributesEventAttributes fields =>
               Returned (bool_decide (is_Some (fields !! TemporalChangeVersion)))
           | _ => Panicked nilDereference
           end
      else Returned false
  | _ => Returned false
  end.

(** ** One command against one event *)

(** [for _, entry := range obes]: the first entry with the message id. *)
Fixpoint matchOutbox (msgid : string) (e : HistoryEvent) (obes : list outboxEntry) : bool :=
  match obes with
  | [] => false
  | entry :: rest =>
      if decide (ob_msgId entry = msgid) then ob_eventPredicate entry e
      else matchOutbox msgid e rest
  end.

(** The attributes read through getters, which give zero values for absent
    attributes. *)
Definition messageIdOf (d : Command) : string :=
  match Command_Attributes d with
  | Some (Command_ProtocolMessageCommandAttributes id) => id | _ => "" end.
Definition cancelActivityOf (d : Command) : Z :=
  match Command_Attributes d with
  | Some (Command_RequestCancelActivityTaskCommandAttributes a) => rca_ScheduledEventId a | _ => 0 end.
Definition cancelActivityOfEvent (e : HistoryEvent) : Z :=
  match Event_Attributes e with
  | ActivityTaskCancelRequestedEventAttributes id => id | _ => 0 end.
Definition startTimerOf (d : Command) : string :=
  match Command_Attributes d with
  | Some (Command_StartTimerCommandAttributes a) => st_TimerId a | _ => "" end.
Definition timerStartedOf (e : HistoryEvent) : string :=
  match Event_Attributes e with TimerStartedEventAttributes id => id | _ => "" end.
Definition cancelTimerOf (d : Command) : string :=
  match Command_Attributes d with
  | Some (Command_CancelTimerCommandAttributes a) => ct_TimerId a | _ => "" end.
Definition timerCanceledOf (e : HistoryEvent) : string :=
  match Event_Attributes e with TimerCanceledEventAttributes id => id | _ => "" end.
Definition nexusOf (d : Command) : string * string :=
  match Command_Attributes d with
  | Some (Command_ScheduleNexusOperationCommandAttributes a) => (sno_Service a, sno_Operation a)
  | _ => ("", "") end.
Definition nexusOfEvent (e : HistoryEvent) : string * string :=
  match Event_Attributes e with
  | NexusOperationScheduledEventAttributes service operation => (service, operation)
  | _ => ("", "") end.
Definition cancelNexusOf (d : Command) : Z :=
  match Command_Attributes d with
  | Some (Command_RequestCancelNexusOperationCommandAttributes a) => rcn_ScheduledEventId a | _ => 0 end.
Definition cancelNexusOfEvent (e : HistoryEvent) : Z :=
  match Event_Attributes e with
  | NexusOperationCancelRequestedEventAttributes id => id | _ => 0 end.

(** A case that first tests the type of the event. *)
Definition whenEvent (e : HistoryEvent) (t : EventType) (matches : outcome bool) : outcome bool :=
  if decide (Event_EventType e = t) then matches else Returned false.

Definition isCommandMatchEvent (d : Command) (e : HistoryEvent) (obes : list outboxEntry)
    : outcome bool :=
  match Command_CommandType d with
  | COMMAND_TYPE_PROTOCOL_MESSAGE => Returned (matchOutbox (messageIdOf d) e obes)
  | COMMAND_TYPE_SCHEDULE_ACTIVITY_TASK =>
      whenEvent e EVENT_TYPE_ACTIVITY_TASK_SCHEDULED
        (match Event_Attributes e, Command_Attributes d with
         | ActivityTaskScheduledEventAttributes activityId activityType,
           Some (Command_ScheduleActivityTaskCommandAttributes a) =>
             Returned (bool_decide (activityId = sat_ActivityId a)
               && bool_decide (lastPartOfName activityType = lastPartOfName (sat_ActivityType a)))
         | ActivityTaskScheduledEventAttributes activityId _, _ =>
             if decide (activityId = "") then Panicked nilDereference else Returned false
         | _, Some (Command_ScheduleActivityTaskCommandAttributes a) =>
             if decide (sat_ActivityId a = "") then Panicked nilDereference else Returned false
         | _, _ => Panicked nilDereference
         end)
  | COMMAND_TYPE_REQUEST_CANCEL_ACTIVITY_TASK =>
      whenEvent e EVENT_TYPE_ACTIVITY_TASK_CANCEL_REQUESTED
        (Returned (bool_decide (cancelActivityOfEvent e = cancelActivityOf d)))
  | COMMAND_TYPE_START_TIMER =>
      whenEvent e EVENT_TYPE_TIMER_STARTED
        (Returned (bool_decide (timerStartedOf e = startTimerOf d)))
  | COMMAND_TYPE_CANCEL_TIMER =>
      whenEvent e EVENT_TYPE_TIMER_CANCELED
        (Returned (bool_decide (timerCanceledOf e = cancelTimerOf d)))
  | COMMAND_TYPE_COMPLETE_WORKFLOW_EXECUTION =>
      whenEvent e EVENT_TYPE_WORKFLOW_EXECUTION_COMPLETED (Returned true)
  | COMMAND_TYPE_FAIL_WORKFLOW_EXECUTION =>
      whenEvent e EVENT_TYPE_WORKFLOW_EXECUTION_FAILED (Returned true)
  | COMMAND_TYPE_RECORD_MARKER =>
      whenEvent e EVENT_TYPE_MARKER_RECORDED
        (Returned (bool_decide (eventMarkerName e = commandMarkerName d)))
  | COMMAND_TYPE_REQUEST_CANCEL_EXTERNAL_WORKFLOW_EXECUTION =>
      whenEvent e EVENT_TYPE_REQUEST_CANCEL_EXTERNAL_WORKFLOW_EXECUTION_INITIATED
        (let '(commandNamespace, commandId) :=
           match Command_Attributes d with
           | Some (Command_RequestCancelExternalWorkflowExecutionCommandAttributes a) =>
               (rce_Namespace a, rce_WorkflowId a)
           | _ => ("", "")
           end in
         match Event_Attributes e with
         | RequestCancelExternalInitiatedEventAttributes namespace workflowId _ =>
             Returned (negb (checkNamespacesInCommandAndEvent namespace commandNamespace)
               && bool_decide (workflowId = commandId))
         | _ =>
             if checkNamespacesInCommandAndEvent "" commandNamespace then Returned false
             else Panicked nilDereference
         end)
  | COMMAND_TYPE_SIGNAL_EXTERNAL_WORKFLOW_EXECUTION =>
      whenEvent e EVENT_TYPE_SIGNAL_EXTERNAL_WORKFLOW_EXECUTION_INITIATED
        (match Event_Attributes e, Command_Attributes d with
         | SignalExternalInitiatedEventAttributes namespace workflowId signalName _,
           Some (Command_SignalExternalWorkflowExecutionCommandAttributes a) =>
             Returned (negb (checkNamespacesInCommandAndEvent namespace (se_Namespace a))
               && bool_decide (signalName = se_SignalName a)
               && bool_decide (workflowId = se_WorkflowId a))
         | SignalExternalInitiatedEventAttributes _ _ signalName _, _ =>
             if decide (signalName = "") then Panicked nilDereference else Returned false
         | _, Some (Command_SignalExternalWorkflowExecutionCommandAttributes a) =>
             if checkNamespacesInCommandAndEvent "" (se_Namespace a)
                || bool_decide (se_SignalName a ≠ "") then Returned false
             else Panicked nilDereference
         | _, _ => Panicked nilDereference
         end)
  | COMMAND_TYPE_CANCEL_WORKFLOW_EXECUTION =>
      whenEvent e EVENT_TYPE_WORKFLOW_EXECUTION_CANCELED (Returned true)
  | COMMAND_TYPE_CONTINUE_AS_NEW_WORKFLOW_EXECUTION =>
      whenEvent e EVENT_TYPE_WORKFLOW_EXECUTION_CONTINUED_AS_NEW (Returned true)
  | COMMAND_TYPE_START_CHILD_WORKFLOW_EXECUTION =>
      whenEvent e EVENT_TYPE_START_CHILD_WORKFLOW_EXECUTION_INITIATED
        (match Event_Attributes e, Command_Attributes d with
         | StartChildInitiatedEventAttributes _ workflowType,
           Some (Command_StartChildWorkflowExecutionCommandAttributes a) =>
             Returned (bool_decide (lastPartOfName workflowType = lastPartOfName (scw_WorkflowType a)))
         | _, _ => Panicked nilDereference
         end)
  | COMMAND_TYPE_UPSERT_WORKFLOW_SEARCH_ATTRIBUTES =>
      whenEvent e EVENT_TYPE_UPSERT_WORKFLOW_SEARCH_ATTRIBUTES (Returned true)
  | COMMAND_TYPE_MODIFY_WORKFLOW_PROPERTIES =>
      whenEvent e EVENT_TYPE_WORKFLOW_PROPERTIES_MODIFIED (Returned true)
  | COMMAND_TYPE_SCHEDULE_NEXUS_OPERATION =>
      whenEvent e EVENT_TYPE_NEXUS_OPERATION_SCHEDULED
        (Returned (bool_decide (nexusOfEvent e = nexusOf d)))
  | COMMAND_TYPE_REQUEST_CANCEL_NEXUS_OPERATION =>
      whenEvent e EVENT_TYPE_NEXUS_OPERATION_CANCEL_REQUESTED
        (Returned (bool_decide (cancelNexusOfEvent e = cancelNexusOf d)))
  end.

(** ** The loop *)

(** On the events from [hi] on and the commands from [di] on. *)
Fixpoint matchLoop (msgs : list outboxEntry) (sf : sdkFlags) (es : list HistoryEvent)
    : list Command → outcome (option historyMismatchError) :=
  fix matchCommands (ds : list Command) : outcome (option historyMismatchError) :=
    match es with
    | [] =>
        match ds with
        | [] => Returned None
        | d :: ds' =>
            if skipDeterministicCheckForCommand d then matchCommands ds'
            else Returned (Some (extraReplayCommand d))
        end
    | e :: es' =>
        match skipDeterministicCheckForUpsertChangeVersion es with
        | Panicked p => Panicked p
        | Returned true =>
            match es' with
            | _ :: es'' => matchLoop msgs sf es'' ds
            | [] => matchLoop msgs sf es' ds
            end
        | Returned false =>
            if skipDeterministicCheckForEvent e sf then matchLoop msgs sf es' ds
            else
              match ds with
              | [] => Returned (Some (missingReplayCommand e))
              | d :: ds' =>
                  if skipDeterministicCheckForCommand d then matchCommands ds'
                  else
                    match isCommandMatchEvent d e msgs with
                    | Panicked p => Panicked p
                    | Returned false => Returned (Some (mismatch e d))
                    | Returned true => matchLoop msgs sf es' ds'
                    end
              end
        end
    end.

Definition matchReplayWithHistory (replayCommands : list Command) (historyEvents : list HistoryEvent)
    (msgs : list outboxEntry) (sf : sdkFlags) : outcome (option historyMismatchError) :=
  matchLoop msgs sf historyEvents replayCommands.
End Replay.
