(* ===== verification/ReplayFacts.v ===== *)
(** * What a successful replay check guarantees. *)

From stdpp Require Import base list gmap strings.
From S2P Require Import Prelude Proto CommandMachine Flags History Replay.
Open Scope Z_scope.

(** ** The reference: filter both sides, then compare in step *)

Section Reference.
  Variable allowed : gmap sdkFlag bool.
  Variable msgs : list outboxEntry.
  Variable sf : sdkFlags.

Definition isChangeVersionUpsert (es : list HistoryEvent) : bool :=
  match skipDeterministicCheckForUpsertChangeVersion es with Returned b => b | Panicked _ => false end.

(** The events that take part in the comparison. *)
Fixpoint checkedEvents (es : list HistoryEvent) : list HistoryEvent :=
  match es with
  | [] => []
  | e :: es' =>
      if isChangeVersionUpsert es then match es' with _ :: es'' => checkedEvents es'' | [] => [] end
      else if skipDeterministicCheckForEvent allowed e sf then checkedEvents es'
      else e :: checkedEvents es'
  end.

Definition checkedCommands (ds : list Command) : list Command :=
  filter (λ d, negb (skipDeterministicCheckForCommand d)) ds.

(** The first divergence of two sequences in step. *)
Fixpoint firstDivergence (ds : list Command) (es : list HistoryEvent)
    : outcome (option historyMismatchError) :=
  match ds, es with
  | [], [] => Returned None
  | [], e :: _ => Returned (Some (missingReplayCommand e))
  | d :: _, [] => Returned (Some (extraReplayCommand d))
  | d :: ds', e :: es' =>
      match isCommandMatchEvent d e msgs with
      | Panicked p => Panicked p
      | Returned false => Returned (Some (mismatch e d))
      | Returned true => firstDivergence ds' es'
      end
  end.

(** An upsert event carries its search attributes. *)
Definition upsert_ok (e : HistoryEvent) : Prop :=
  Event_EventType e = EVENT_TYPE_UPSERT_WORKFLOW_SEARCH_ATTRIBUTES →
  ∃ fields, Event_Attributes e = UpsertSearchAttributesEventAttributes fields.

Lemma skipUpsert_returns es :
  Forall upsert_ok es →
  skipDeterministicCheckForUpsertChangeVersion es = Returned (isChangeVersionUpsert es).
Proof.
  unfold isChangeVersionUpsert. intros H. destruct es as [|e [|e1 es]]; simpl; try done.
  destruct (_ && _) eqn:Hc; [|done].
  apply andb_true_iff in Hc as [_ Ht%bool_decide_eq_true].
  apply Forall_cons in H as [_ [H1 _]%Forall_cons]. destruct (H1 Ht) as [fields ->]. done.
Qed.

Lemma checkedCommands_cons d ds :
  checkedCommands (d :: ds) =
  if skipDeterministicCheckForCommand d then checkedCommands ds else d :: checkedCommands ds.
Proof.
  unfold checkedCommands. destruct (skipDeterministicCheckForCommand d) eqn:H.
  - by rewrite filter_cons_False by (rewrite H; auto).
  - by rewrite filter_cons_True by (rewrite H; done).
Qed.

(** The loop's step, unfolded. *)
Lemma matchLoop_cons e es ds :
  matchLoop allowed msgs sf (e :: es) ds =
  match skipDeterministicCheckForUpsertChangeVersion (e :: es) with
  | Panicked p => Panicked p
  | Returned true => matchLoop allowed msgs sf (tail es) ds
  | Returned false =>
      if skipDeterministicCheckForEvent allowed e sf then matchLoop allowed msgs sf es ds
      else
        match ds with
        | [] => Returned (Some (missingReplayCommand e))
        | d :: ds' =>
            if skipDeterministicCheckForCommand d then matchLoop allowed msgs sf (e :: es) ds'
            else
              match isCommandMatchEvent d e msgs with
              | Panicked p => Panicked p
              | Returned false => Returned (Some (mismatch e d))
              | Returned true => matchLoop allowed msgs sf es ds'
              end
        end
  end.
Proof. by destruct ds, es. Qed.

Lemma matchLoop_reference n : ∀ es, (length es < n)%nat → Forall upsert_ok es → ∀ ds,
  matchLoop allowed msgs sf es ds = firstDivergence (checkedCommands ds) (checkedEvents es).
Proof.
  induction n as [|n IH]; intros es Hn Hok; [lia|]. destruct es as [|e es].
  { intros ds. induction ds as [|d ds IHds]; [done|]. rewrite checkedCommands_cons. simpl.
    destruct (skipDeterministicCheckForCommand d); [exact IHds|done]. }
  pose proof (skipUpsert_returns (e :: es) Hok) as Hskip.
  apply Forall_cons in Hok as [_ Hok]. simpl in Hn.
  intros ds. induction ds as [|d ds IHds]; rewrite matchLoop_cons, Hskip; cbn [checkedEvents];
    (destruct (isChangeVersionUpsert (e :: es)) eqn:Hu;
      [destruct es as [|e1 es]; [done|]; apply IH; [simpl in *; lia|by apply Forall_cons in Hok as [_ ?]]|]);
    (destruct (skipDeterministicCheckForEvent allowed e sf) eqn:He; [apply IH; [lia|done]|]).
  - done.
  - rewrite checkedCommands_cons. destruct (skipDeterministicCheckForCommand d).
    + rewrite IHds. cbn [checkedEvents]. by rewrite Hu, He.
    + cbn [firstDivergence]. destruct (isCommandMatchEvent d e msgs) as [[]|]; try done.
      apply IH; [lia|done].
Qed.

Lemma firstDivergence_none ds : ∀ es,
  firstDivergence ds es = Returned None ↔
  Forall2 (λ d e, isCommandMatchEvent d e msgs = Returned true) ds es.
Proof.
  induction ds as [|d ds IH]; intros [|e es]; simpl.
  - split; [constructor|done].
  - split; [done|intros H; inversion H].
  - split; [done|intros H; inversion H].
  - rewrite Forall2_cons. destruct (isCommandMatchEvent d e msgs) as [[]|].
    + rewrite IH. tauto.
    + split; [done|intros [? _]; done].
    + split; [done|intros [? _]; done].
Qed.
End Reference.

(** ** What a match pins down *)

(** The event a command leaves in the history. *)
Definition commandEventType (t : CommandType) : option EventType :=
  match t with
  | COMMAND_TYPE_PROTOCOL_MESSAGE => None
  | COMMAND_TYPE_SCHEDULE_ACTIVITY_TASK => Some EVENT_TYPE_ACTIVITY_TASK_SCHEDULED
  | COMMAND_TYPE_REQUEST_CANCEL_ACTIVITY_TASK => Some EVENT_TYPE_ACTIVITY_TASK_CANCEL_REQUESTED
  | COMMAND_TYPE_START_TIMER => Some EVENT_TYPE_TIMER_STARTED
  | COMMAND_TYPE_CANCEL_TIMER => Some EVENT_TYPE_TIMER_CANCELED
  | COMMAND_TYPE_COMPLETE_WORKFLOW_EXECUTION => Some EVENT_TYPE_WORKFLOW_EXECUTION_COMPLETED
  | COMMAND_TYPE_FAIL_WORKFLOW_EXECUTION => Some EVENT_TYPE_WORKFLOW_EXECUTION_FAILED
  | COMMAND_TYPE_RECORD_MARKER => Some EVENT_TYPE_MARKER_RECORDED
  | COMMAND_TYPE_REQUEST_CANCEL_EXTERNAL_WORKFLOW_EXECUTION =>
      Some EVENT_TYPE_REQUEST_CANCEL_EXTERNAL_WORKFLOW_EXECUTION_INITIATED
  | COMMAND_TYPE_SIGNAL_EXTERNAL_WORKFLOW_EXECUTION =>
      Some EVENT_TYPE_SIGNAL_EXTERNAL_WORKFLOW_EXECUTION_INITIATED
  | COMMAND_TYPE_CANCEL_WORKFLOW_EXECUTION => Some EVENT_TYPE_WORKFLOW_EXECUTION_CANCELED
  | COMMAND_TYPE_CONTINUE_AS_NEW_WORKFLOW_EXECUTION =>
      Some EVENT_TYPE_WORKFLOW_EXECUTION_CONTINUED_AS_NEW
  | COMMAND_TYPE_START_CHILD_WORKFLOW_EXECUTION =>
      Some EVENT_TYPE_START_CHILD_WORKFLOW_EXECUTION_INITIATED
  | COMMAND_TYPE_UPSERT_WORKFLOW_SEARCH_ATTRIBUTES => Some EVENT_TYPE_UPSERT_WORKFLOW_SEARCH_ATTRIBUTES
  | COMMAND_TYPE_MODIFY_WORKFLOW_PROPERTIES => Some EVENT_TYPE_WORKFLOW_PROPERTIES_MODIFIED
  | COMMAND_TYPE_SCHEDULE_NEXUS_OPERATION => Some EVENT_TYPE_NEXUS_OPERATION_SCHEDULED
  | COMMAND_TYPE_REQUEST_CANCEL_NEXUS_OPERATION => Some EVENT_TYPE_NEXUS_OPERATION_CANCEL_REQUESTED
  end.

(** The attributes of a command that the check compares: names and ids. *)
Definition commandKey (d : Command) : list string * Z :=
  match Command_CommandType d, Command_Attributes d with
  | COMMAND_TYPE_SCHEDULE_ACTIVITY_TASK, Some (Command_ScheduleActivityTaskCommandAttributes a) =>
      ([sat_ActivityId a; lastPartOfName (sat_ActivityType a)], 0)
  | COMMAND_TYPE_REQUEST_CANCEL_ACTIVITY_TASK, _ => ([], cancelActivityOf d)
  | COMMAND_TYPE_START_TIMER, _ => ([startTimerOf d], 0)
  | COMMAND_TYPE_CANCEL_TIMER, _ => ([cancelTimerOf d], 0)
  | COMMAND_TYPE_RECORD_MARKER, _ => ([commandMarkerName d], 0)
  | COMMAND_TYPE_REQUEST_CANCEL_EXTERNAL_WORKFLOW_EXECUTION,
    Some (Command_RequestCancelExternalWorkflowExecutionCommandAttributes a) => ([rce_WorkflowId a], 0)
  | COMMAND_TYPE_REQUEST_CANCEL_EXTERNAL_WORKFLOW_EXECUTION, _ => ([""], 0)
  | COMMAND_TYPE_SIGNAL_EXTERNAL_WORKFLOW_EXECUTION,
    Some (Command_SignalExternalWorkflowExecutionCommandAttributes a) =>
      ([se_SignalName a; se_WorkflowId a], 0)
  | COMMAND_TYPE_START_CHILD_WORKFLOW_EXECUTION,
    Some (Command_StartChildWorkflowExecutionCommandAttributes a) =>
      ([lastPartOfName (scw_WorkflowType a)], 0)
  | COMMAND_TYPE_SCHEDULE_NEXUS_OPERATION, _ => ([(nexusOf d).1; (nexusOf d).2], 0)
  | COMMAND_TYPE_REQUEST_CANCEL_NEXUS_OPERATION, _ => ([], cancelNexusOf d)
  | _, _ => ([], 0)
  end.

(** The same attributes of the event. *)
Definition eventKey (e : HistoryEvent) : list string * Z :=
  match Event_EventType e, Event_Attributes e with
  | EVENT_TYPE_ACTIVITY_TASK_SCHEDULED, ActivityTaskScheduledEventAttributes activityId activityType =>
      ([activityId; lastPartOfName activityType], 0)
  | EVENT_TYPE_ACTIVITY_TASK_CANCEL_REQUESTED, _ => ([], cancelActivityOfEvent e)
  | EVENT_TYPE_TIMER_STARTED, _ => ([timerStartedOf e], 0)
  | EVENT_TYPE_TIMER_CANCELED, _ => ([timerCanceledOf e], 0)
  | EVENT_TYPE_MARKER_RECORDED, _ => ([eventMarkerName e], 0)
  | EVENT_TYPE_REQUEST_CANCEL_EXTERNAL_WORKFLOW_EXECUTION_INITIATED,
    RequestCancelExternalInitiatedEventAttributes _ workflowId _ => ([workflowId], 0)
  | EVENT_TYPE_SIGNAL_EXTERNAL_WORKFLOW_EXECUTION_INITIATED,
    SignalExternalInitiatedEventAttributes _ workflowId signalName _ => ([signalName; workflowId], 0)
  | EVENT_TYPE_START_CHILD_WORKFLOW_EXECUTION_INITIATED,
    StartChildInitiatedEventAttributes _ workflowType => ([lastPartOfName workflowType], 0)
  | EVENT_TYPE_NEXUS_OPERATION_SCHEDULED, _ => ([(nexusOfEvent e).1; (nexusOfEvent e).2], 0)
  | EVENT_TYPE_NEXUS_OPERATION_CANCEL_REQUESTED, _ => ([], cancelNexusOfEvent e)
  | _, _ => ([], 0)
  end.

Lemma match_key d e msgs :
  isCommandMatchEvent d e msgs = Returned true →
  Command_CommandType d ≠ COMMAND_TYPE_PROTOCOL_MESSAGE →
  commandEventType (Command_CommandType d) = Some (Event_EventType e) ∧ commandKey d = eventKey e.
Proof.
  unfold isCommandMatchEvent, commandKey, eventKey, whenEvent. intros H Hne.
  destruct (Command_CommandType d); try done; case_decide as Ht; try done;
    rewrite Ht; (split; [done|]);
    repeat (case_match; simplify_eq/=; try done);
    repeat match goal with
    | H : Returned _ = Returned true |- _ => injection H as H
    | H : _ && _ = true |- _ => apply andb_true_iff in H as [? ?]
    | H : bool_decide _ = true |- _ => apply bool_decide_eq_true in H
    end; try congruence.
Qed.

Lemma commandEventType_inj t1 t2 e :
  commandEventType t1 = Some e → commandEventType t2 = Some e → t1 = t2.
Proof. destruct t1, t2; simpl; congruence. Qed.

(** Two commands the check cannot tell apart. *)
Definition sameCommand (d1 d2 : Command) : Prop :=
  Command_CommandType d1 ≠ COMMAND_TYPE_PROTOCOL_MESSAGE →
  Command_CommandType d2 ≠ COMMAND_TYPE_PROTOCOL_MESSAGE →
  Command_CommandType d1 = Command_CommandType d2 ∧ commandKey d1 = commandKey d2.

Lemma match_same d1 d2 e msgs1 msgs2 :
  isCommandMatchEvent d1 e msgs1 = Returned true →
  isCommandMatchEvent d2 e msgs2 = Returned true → sameCommand d1 d2.
Proof.
  intros H1 H2 Hp1 Hp2. destruct (match_key _ _ _ H1 Hp1) as [Ht1 Hk1], (match_key _ _ _ H2 Hp2) as [Ht2 Hk2].
  split; [by eapply commandEventType_inj|congruence].
Qed.

(** C17. The interleaved loop of [matchReplayWithHistory] is the comparison in
    step of the two filtered sequences: it terminates and reports exactly their
    first divergence (a missing command, an extra command, or the first pair
    that does not match), and reports none exactly when both have the same
    length and match pair by pair. Version and mutable side effect markers, with
    the search attribute update of a version, and the closing events do not
    take part. *)
Theorem replay_match_exact allowed msgs sf ds es :
  Forall upsert_ok es →
  matchReplayWithHistory allowed ds es msgs sf =
    firstDivergence msgs (checkedCommands ds) (checkedEvents allowed sf es) ∧
  (matchReplayWithHistory allowed ds es msgs sf = Returned None ↔
   Forall2 (λ d e, isCommandMatchEvent d e msgs = Returned true)
     (checkedCommands ds) (checkedEvents allowed sf es)).
Proof.
  intros Hok. unfold matchReplayWithHistory.
  rewrite (matchLoop_reference allowed msgs sf (S (length es)) es (le_n _) Hok ds).
  split; [done|]. apply firstDivergence_none.
Qed.

(** C16. A replay that passes is pinned down by the history: two runs of the
    workflow code whose commands both pass against the same events produced the
    same sequence of checked commands, up to what the check does not compare:
    the same number, and in each position (protocol messages aside) the same
    type of command for the same activity id and type, timer, marker, child
    type, signal, Nexus operation or cancelled event. *)
Theorem replay_detects_divergence allowed msgs1 msgs2 sf ds1 ds2 es :
  Forall upsert_ok es →
  matchReplayWithHistory allowed ds1 es msgs1 sf = Returned None →
  matchReplayWithHistory allowed ds2 es msgs2 sf = Returned None →
  Forall2 sameCommand (checkedCommands ds1) (checkedCommands ds2).
Proof.
  unfold matchReplayWithHistory. intros Hok.
  rewrite !(matchLoop_reference _ _ sf (S (length es)) es (le_n _) Hok), !firstDivergence_none.
  apply Forall2_join. intros d1 d2 e. apply match_same.
Qed.

(** ** Witnesses *)

Definition exampleTimer (id : string) : Command :=
  mkCommand COMMAND_TYPE_START_TIMER
    (Some (Command_StartTimerCommandAttributes (mkStartTimer id 5))) None [].

(** A version marker with its upsert, then a timer. *)
Definition exampleEvents : list HistoryEvent :=
  [mkHistoryEvent 5 EVENT_TYPE_MARKER_RECORDED 
     (MarkerRecordedEventAttributes versionMarkerName (Some ∅) None) 0 false;
   mkHistoryEvent 6 EVENT_TYPE_UPSERT_WORKFLOW_SEARCH_ATTRIBUTES
     (UpsertSearchAttributesEventAttributes {[ TemporalChangeVersion := mkPayload ∅ "" ]}) 0 false;
   mkHistoryEvent 7 EVENT_TYPE_TIMER_STARTED (TimerStartedEventAttributes "7") 0 false].

Lemma exampleEvents_ok : Forall upsert_ok exampleEvents.
Proof. repeat constructor; intros H; try discriminate H. by eexists. Qed.

Lemma replay_match_exact_witness :
  matchReplayWithHistory sdkFlagsAllowed [exampleTimer "8"] exampleEvents [] (newSDKFlagSet true)
  = Returned (Some (mismatch
      (mkHistoryEvent 7 EVENT_TYPE_TIMER_STARTED (TimerStartedEventAttributes "7") 0 false) (exampleTimer "8"))).
Proof.
  exact (proj1 (replay_match_exact sdkFlagsAllowed [] (newSDKFlagSet true) [exampleTimer "8"]
    exampleEvents exampleEvents_ok)).
Defined.

Lemma replay_detects_divergence_witness :
  Forall2 sameCommand [exampleTimer "7"] [exampleTimer "7"].
Proof.
  apply (replay_detects_divergence sdkFlagsAllowed [] [] (newSDKFlagSet true)
    [exampleTimer "7"] [exampleTimer "7"] exampleEvents exampleEvents_ok); vm_compute; reflexivity.
Defined.
