(* ===== verification/Lru.v ===== *)
(** * The LRU cache of workflow executions.

    [src/internal/common/cache/lru.go]: a map from keys to the elements of a
    list in access order, with pinning by reference count, expiration, and a
    bounded size. *)

From stdpp Require Import base list gmap strings.
From S2P Require Import Prelude.
Open Scope Z_scope.

Section Lru.
  (** Cached values; a nil value is [None]. *)
  Context {V : Type}.
  Abbreviation any := (option V).

(** ** Data *)

Record cacheEntry : Type := mkCacheEntry {
  key : string;
  (** [None] is the zero time. *)
  expiration : option Z;
  value : any;
  refCount : Z;
}.

(** An element of [container/list]: its identity and the entry it holds. *)
Abbreviation element := (prod nat cacheEntry).

Record lru : Type := mkLru {
  byAccess : list element;
  byKey : gmap string nat;
  maxSize : Z;
  ttl : Z;
  pin : bool;
  (** Whether there is a [rmFunc], and the values it was called with. *)
  rmFunc : bool;
  removed : list any;
  nextElement : nat;
}.

Definition with_lists (l : list element) (m : gmap string nat) (gone : list any) (c : lru) : lru :=
  mkLru l m (maxSize c) (ttl c) (pin c) (rmFunc c)
    (if rmFunc c then removed c ++ gone else removed c) (nextElement c).

(** ** [container/list] *)

Definition list_Remove (i : nat) (l : list element) : list element :=
  filter (λ el, el.1 ≠ i) l.

Definition list_Value (i : nat) (l : list element) : option cacheEntry :=
  snd <$> (head (filter (λ el, el.1 = i) l)).

Definition list_MoveToFront (i : nat) (l : list element) : list element :=
  filter (λ el, el.1 = i) l ++ list_Remove i l.

(** A write through the entry pointer of an element. *)
Definition list_Write (i : nat) (f : cacheEntry → cacheEntry) (l : list element) : list element :=
  (λ el, if decide (el.1 = i) then (el.1, f el.2) else el) <$> l.

(** ** Operations *)

Definition New (size ttlOption : Z) (pinOption hasRemovedFunc : bool) : lru :=
  mkLru [] ∅ size ttlOption pinOption hasRemovedFunc [] 0.

Definition Exist (k : string) (c : lru) : bool := bool_decide (is_Some (byKey c !! k)).

Definition Size (c : lru) : nat := size (byKey c).

Definition addRef (n : Z) (e : cacheEntry) : cacheEntry :=
  mkCacheEntry (key e) (expiration e) (value e) (wrap64 (refCount e + n)).

(** [cacheEntry.refCount == 0 && !expiration.IsZero() && time.Now().After(expiration)] *)
Definition expired (now : Z) (e : cacheEntry) : bool :=
  bool_decide (refCount e = 0) &&
  match expiration e with Some t => bool_decide (t < now) | None => false end.

Definition nilDereference : panicValue :=
  runtimeError "invalid memory address or nil pointer dereference".

Definition Get (now : Z) (k : string) : Go lru any := λ c,
  match byKey c !! k with
  | None => (Returned None, c)
  | Some i =>
      let l := if pin c then list_Write i (addRef 1) (byAccess c) else byAccess c in
      match list_Value i l with
      | None => (Panicked nilDereference, c)
      | Some e =>
          if expired now e
          then (Returned None, with_lists (list_Remove i l) (delete (key e) (byKey c)) [value e] c)
          else (Returned (value e), with_lists (list_MoveToFront i l) (byKey c) [] c)
      end
  end.

Definition setExpiration (now : Z) (c : lru) (e : cacheEntry) : cacheEntry :=
  if decide (ttl c = 0) then e
  else mkCacheEntry (key e) (Some (now + ttl c)) (value e) (refCount e).

Definition setValue (v : any) (e : cacheEntry) : cacheEntry :=
  mkCacheEntry (key e) (expiration e) v (refCount e).

Definition pinEntry (c : lru) (e : cacheEntry) : cacheEntry :=
  if pin c then addRef 1 e else e.

Definition ErrCacheFull : string := "Cache capacity is fully occupied with pinned elements".

Definition putInternal (now : Z) (k : string) (v : any) (allowUpdate : bool)
    : Go lru (string + any) := λ c,
  match byKey c !! k with
  | Some i =>
      match list_Value i (byAccess c) with
      | None => (Panicked nilDereference, c)
      | Some e =>
          let write e := pinEntry c (setExpiration now c (if allowUpdate then setValue v e else e)) in
          (Returned (inr (value e)),
           with_lists (list_MoveToFront i (list_Write i write (byAccess c))) (byKey c) [] c)
      end
  | None =>
      let entry := setExpiration now c (pinEntry c (mkCacheEntry k None v 0)) in
      let i := nextElement c in
      let l := (i, entry) :: byAccess c in
      let m := <[k := i]> (byKey c) in
      let c1 := mkLru l m (maxSize c) (ttl c) (pin c) (rmFunc c) (removed c) (S i) in
      if decide (maxSize c < Z.of_nat (size m)) then
        match last l with
        | None => (Panicked nilDereference, c1)
        | Some (j, oldest) =>
            if decide (0 < refCount oldest)
            then (Returned (inl ErrCacheFull), with_lists (list_Remove i l) (delete k m) [] c1)
            else (Returned (inr None),
                  with_lists (list_Remove j l) (delete (key oldest) m) [value oldest] c1)
        end
      else (Returned (inr None), c1)
  end.

Definition Put (now : Z) (k : string) (v : any) : Go lru any := λ c,
  if pin c then
    (Panicked (panicString
       "Cannot use Put API in Pin mode. Use Delete and PutIfNotExist if necessary"), c)
  else
    match putInternal now k v true c with
    | (Returned (inl _), c') => (Returned None, c')
    | (Returned (inr existing), c') => (Returned existing, c')
    | (Panicked p, c') => (Panicked p, c')
    end.

Definition PutIfNotExist (now : Z) (k : string) (v : any) : Go lru (string + any) :=
  existing ← putInternal now k v false;
  match existing with
  | inl err => mret (inl err)
  | inr None => mret (inr v)
  | inr (Some x) => mret (inr (Some x))
  end.

Definition DeleteIf (k : string) (predicate : any → bool) : Go lru bool := λ c,
  match byKey c !! k with
  | None => (Returned false, c)
  | Some i =>
      match list_Value i (byAccess c) with
      | None => (Panicked nilDereference, c)
      | Some e =>
          if predicate (value e)
          then (Returned true, with_lists (list_Remove i (byAccess c)) (delete k (byKey c)) [value e] c)
          else (Returned false, c)
      end
  end.

Definition Delete (k : string) : Go lru bool := DeleteIf k (λ _, true).

Definition Release (k : string) : Go lru unit := λ c,
  match byKey c !! k with
  | None => (Panicked nilDereference, c)
  | Some i => (Returned tt, with_lists (list_Write i (addRef (-1)) (byAccess c)) (byKey c) [] c)
  end.

(** One turn of the loop over [byKey], with the values removed so far. *)
Definition clearStep (st : lru * list any) (kv : string * nat) : lru * list any :=
  let (c, gone) := st in
  match list_Value kv.2 (byAccess c) with
  | Some e =>
      (mkLru (list_Remove kv.2 (byAccess c)) (delete kv.1 (byKey c)) (maxSize c) (ttl c) (pin c)
         (rmFunc c) (removed c) (nextElement c), gone ++ [value e])
  | None => (c, gone)
  end.

(** The cache and the values the callback gets, in the order of the map. *)
Definition ClearWithCallback (c : lru) : lru * list any :=
  foldl clearStep (c, []) (map_to_list (byKey c)).

Definition Clear (c : lru) : lru :=
  let (c', gone) := ClearWithCallback c in with_lists (byAccess c') (byKey c') gone c'.
End Lru.
Arguments cacheEntry : clear implicits.
Arguments lru : clear implicits.
