(* ===== verification/LruFacts.v ===== *)
(** * The cache is one list of entries in access order.

    [LruSpec] gives each operation on that list; the map and the linked list of
    [Lru] implement it. Capacity, eviction order and pinning are theorems on
    every reachable cache. *)

From stdpp Require Import base list gmap strings.
From S2P Require Import Prelude Lru.
Open Scope Z_scope.

Section LruFacts.
  Context {V : Type}.
  Local Abbreviation lru := (lru V).
  Local Abbreviation cacheEntry := (cacheEntry V).
  Local Abbreviation element := (prod nat cacheEntry).
  Local Abbreviation any := (option V).
  Implicit Types (c : lru) (l : list element) (e : cacheEntry).

(** ** The invariant *)

Definition pairs l : list (string * nat) := (λ el, (key el.2, el.1)) <$> l.
Definition index l : gmap string nat := list_to_map (pairs l).

Record lists_wf l : Prop := {
  wf_elements : NoDup l.*1;
  wf_keys : NoDup (key <$> l.*2);
}.

Record lru_wf c : Prop := {
  wf_lists : lists_wf (byAccess c);
  wf_index : byKey c = index (byAccess c);
  wf_fresh : ∀ i, i ∈ (byAccess c).*1 → (i < nextElement c)%nat;
}.

Lemma index_keys l : (pairs l).*1 = key <$> l.*2.
Proof. unfold pairs. by rewrite <- !list_fmap_compose. Qed.

Lemma index_elements l : (pairs l).*2 = l.*1.
Proof. unfold pairs. by rewrite <- !list_fmap_compose. Qed.

Lemma lookup_index l k i :
  NoDup (key <$> l.*2) → index l !! k = Some i ↔ ∃ e, (i, e) ∈ l ∧ key e = k.
Proof.
  intros Hnd. unfold index. rewrite <- elem_of_list_to_map.
  - unfold pairs. rewrite list_elem_of_fmap. split.
    + intros ([j e] & [= -> ->] & Hin). eauto.
    + intros (e & Hin & <-). by exists (i, e).
  - by rewrite index_keys.
Qed.

(** Only the pairs of keys and elements matter, in any order. *)
Lemma lists_wf_perm l l' :
  pairs l' ≡ₚ pairs l → lists_wf l → lists_wf l' ∧ index l' = index l ∧ ∀ i, i ∈ l'.*1 ↔ i ∈ l.*1.
Proof.
  intros Hp [He Hk]. rewrite <- index_elements in He. rewrite <- index_keys in Hk. split_and!.
  - split; [rewrite <- index_elements|rewrite <- index_keys]; by rewrite Hp.
  - unfold index. symmetry. by apply list_to_map_proper.
  - intros i. rewrite <- !index_elements. by rewrite Hp.
Qed.

Lemma lists_wf_remove l l' k i :
  pairs l ≡ₚ (k, i) :: pairs l' → lists_wf l →
  lists_wf l' ∧ delete k (index l) = index l' ∧ ∀ j, j ∈ l'.*1 → j ∈ l.*1.
Proof.
  intros Hp [He Hk]. rewrite <- index_elements in He. rewrite <- index_keys in Hk.
  assert (NoDup (k :: (pairs l').*1)) as Hk' by (by rewrite Hp in Hk).
  assert (NoDup (i :: (pairs l').*2)) as He' by (by rewrite Hp in He).
  apply NoDup_cons in Hk' as [Hkn Hk'], He' as [_ He']. split_and!.
  - split; [by rewrite <- index_elements|by rewrite <- index_keys].
  - unfold index. rewrite (list_to_map_proper _ _ Hk Hp). simpl.
    rewrite delete_insert_id; [done|]. by apply not_elem_of_list_to_map_1.
  - intros j. rewrite <- !index_elements, Hp. simpl. by right.
Qed.

Lemma size_index l : NoDup (key <$> l.*2) → size (index l) = length l.
Proof.
  intros Hnd. unfold index. rewrite map_size_list_to_map; [by unfold pairs; rewrite length_fmap|].
  by rewrite index_keys.
Qed.

(** An indexed element splits the list at its only occurrence. *)
Lemma lru_wf_split c k i :
  lru_wf c → byKey c !! k = Some i →
  ∃ pre e post, byAccess c = pre ++ (i, e) :: post ∧ key e = k ∧
    (i ∉ pre.*1) ∧ (i ∉ post.*1) ∧ (k ∉ (key <$> pre.*2)) ∧ (k ∉ (key <$> post.*2)).
Proof.
  intros [[He Hk] Hi _] Hl. rewrite Hi in Hl. apply lookup_index in Hl as (e & Hin & <-); [|done].
  apply list_elem_of_split in Hin as (pre & post & Hl). exists pre, e, post.
  rewrite Hl, !fmap_app, !fmap_cons in *. simpl in *.
  apply NoDup_app in He as (_ & He1 & [He2 _]%NoDup_cons).
  apply NoDup_app in Hk as (_ & Hk1 & [Hk2 _]%NoDup_cons).
  split_and!; try done.
  - intros H. apply (He1 _ H). by left.
  - intros H. apply (Hk1 _ H). by left.
Qed.

(** The linked list operations at a split. *)
Section Split.
  Variables (pre post : list element) (i : nat) (e : cacheEntry).
  Hypothesis Hpre : i ∉ pre.*1.
  Hypothesis Hpost : i ∉ post.*1.

Lemma not_in_elements l el : i ∉ l.*1 → el ∈ l → el.1 ≠ i.
Proof. intros H Hin <-. apply H. by apply list_elem_of_fmap_2. Qed.

Lemma Remove_split : list_Remove i (pre ++ (i, e) :: post) = pre ++ post.
Proof.
  unfold list_Remove. rewrite filter_app, filter_cons_False by (simpl; auto).
  by rewrite !filter_all by eauto using not_in_elements.
Qed.

Lemma here_split : filter (λ el, el.1 = i) (pre ++ (i, e) :: post) = [(i, e)].
Proof.
  rewrite filter_app, filter_cons_True by done.
  rewrite (filter_none _ pre), (filter_none _ post); [done|..]; intros el; by apply not_in_elements.
Qed.

Lemma Value_split : list_Value i (pre ++ (i, e) :: post) = Some e.
Proof. unfold list_Value. by rewrite here_split. Qed.

Lemma MoveToFront_split : list_MoveToFront i (pre ++ (i, e) :: post) = (i, e) :: pre ++ post.
Proof. unfold list_MoveToFront. by rewrite here_split, Remove_split. Qed.

Lemma Write_split f : list_Write i f (pre ++ (i, e) :: post) = pre ++ (i, f e) :: post.
Proof.
  unfold list_Write. rewrite fmap_app, fmap_cons, decide_True by done.
  assert (Hid : ∀ l, i ∉ l.*1 → (λ el, if decide (el.1 = i) then (el.1, f el.2) else el) <$> l = l).
  { intros l Hl. rewrite <- (list_fmap_id l) at 2. apply list_fmap_ext. intros n el Hel.
    rewrite decide_False; [done|]. eapply not_in_elements; [done|by eapply list_elem_of_lookup_2]. }
  by rewrite !Hid.
Qed.
End Split.

(** ** The specification: one list of entries, most recent first *)

Definition entries c : list cacheEntry := (byAccess c).*2.

Definition lookupEntry (k : string) (es : list cacheEntry) : option cacheEntry :=
  head (filter (λ e, key e = k) es).

Definition others (k : string) (es : list cacheEntry) : list cacheEntry :=
  filter (λ e, key e ≠ k) es.

(** The operations of a cache and their results. *)
Inductive lruOp : Type :=
| opGet (now : Z) (k : string)
| opPut (now : Z) (k : string) (v : any)
| opPutIfNotExist (now : Z) (k : string) (v : any)
| opDeleteIf (k : string) (predicate : any → bool)
| opRelease (k : string)
| opClear.

Inductive lruResult : Type :=
| rValue (v : any)
| rPut (r : string + any)
| rDeleted (b : bool)
| rDone
| rPanic (p : panicValue).

Definition toResult {A} (f : A → lruResult) (r : outcome A * lru) : lruResult * lru :=
  match r with
  | (Returned a, c) => (f a, c)
  | (Panicked p, c) => (rPanic p, c)
  end.

Definition runOp (op : lruOp) c : lruResult * lru :=
  match op with
  | opGet now k => toResult rValue (Get now k c)
  | opPut now k v => toResult rValue (Put now k v c)
  | opPutIfNotExist now k v => toResult rPut (PutIfNotExist now k v c)
  | opDeleteIf k predicate => toResult rDeleted (DeleteIf k predicate c)
  | opRelease k => toResult (λ _, rDone) (Release k c)
  | opClear => (rDone, Clear c)
  end.

(** The result, the entries left and the values removed; [c] is read only for
    its options. *)
Definition specPut c now k (v : any) (allowUpdate : bool) (es : list cacheEntry)
    : (string + any) * list cacheEntry * list any :=
  match lookupEntry k es with
  | Some e =>
      (inr (value e),
       pinEntry c (setExpiration now c (if allowUpdate then setValue v e else e)) :: others k es, [])
  | None =>
      let entry := setExpiration now c (pinEntry c (mkCacheEntry k None v 0)) in
      if decide (maxSize c < Z.of_nat (S (length es))) then
        let oldest := default entry (last es) in
        if decide (0 < refCount oldest) then (inl ErrCacheFull, es, [])
        else (inr None, removelast (entry :: es), [value oldest])
      else (inr None, entry :: es, [])
  end.

Definition specOp c (op : lruOp) (es : list cacheEntry) : lruResult * list cacheEntry * list any :=
  match op with
  | opGet now k =>
      match lookupEntry k es with
      | None => (rValue None, es, [])
      | Some e0 =>
          let e := pinEntry c e0 in
          if expired now e then (rValue None, others k es, [value e])
          else (rValue (value e), e :: others k es, [])
      end
  | opPut now k v =>
      if pin c then (rPanic (panicString
        "Cannot use Put API in Pin mode. Use Delete and PutIfNotExist if necessary"), es, [])
      else match specPut c now k v true es with
           | (inl _, es', gone) => (rValue None, es', gone)
           | (inr existing, es', gone) => (rValue existing, es', gone)
           end
  | opPutIfNotExist now k v =>
      match specPut c now k v false es with
      | (inl err, es', gone) => (rPut (inl err), es', gone)
      | (inr None, es', gone) => (rPut (inr v), es', gone)
      | (inr (Some x), es', gone) => (rPut (inr (Some x)), es', gone)
      end
  | opDeleteIf k predicate =>
      match lookupEntry k es with
      | Some e => if predicate (value e) then (rDeleted true, others k es, [value e])
                  else (rDeleted false, es, [])
      | None => (rDeleted false, es, [])
      end
  | opRelease k =>
      match lookupEntry k es with
      | Some _ => (rDone, (λ e, if decide (key e = k) then addRef (-1) e else e) <$> es, [])
      | None => (rPanic nilDereference, es, [])
      end
  | opClear => (rDone, [], value <$> es)
  end.

(** What an operation leaves: the specified entries, the options, and the
    values handed to [rmFunc], whose calls are not ordered. *)
Record implements (es : list cacheEntry) (gone : list any) c c' : Prop := {
  impl_entries : entries c' = es;
  impl_wf : lru_wf c';
  impl_options : maxSize c' = maxSize c ∧ ttl c' = ttl c ∧ pin c' = pin c ∧ rmFunc c' = rmFunc c;
  impl_removed : removed c' ≡ₚ (if rmFunc c then removed c ++ gone else removed c);
}.

(** ** The refinement *)

Lemma lookupEntry_None k es : lookupEntry k es = None ↔ k ∉ (key <$> es).
Proof.
  unfold lookupEntry. split.
  - intros H Hin. apply list_elem_of_fmap in Hin as (e & -> & Hin).
    destruct (filter _ es) as [|x xs] eqn:Hf; [|done].
    assert (e ∈ filter (λ e', key e' = key e) es) as He by by apply list_elem_of_filter.
    rewrite Hf in He. by apply elem_of_nil in He.
  - intros H. rewrite filter_none; [done|]. intros e He <-. apply H. by apply list_elem_of_fmap_2.
Qed.

Lemma lookup_byKey_None c k : lru_wf c → byKey c !! k = None → k ∉ (key <$> entries c).
Proof.
  intros [[_ Hk] Hi _] Hn Hin. apply list_elem_of_fmap in Hin as (e & -> & Hin).
  unfold entries in Hin. apply list_elem_of_fmap in Hin as ([i e'] & -> & Hin). simpl in *.
  assert (byKey c !! key e' = Some i) by (rewrite Hi; apply lookup_index; eauto). congruence.
Qed.

Lemma not_in_keys k (es : list cacheEntry) x : k ∉ (key <$> es) → x ∈ es → key x ≠ k.
Proof. intros H Hin <-. apply H. by apply list_elem_of_fmap_2. Qed.

Section EntrySplit.
  Variables (pre post : list cacheEntry) (k : string) (e : cacheEntry).
  Hypothesis Hkey : key e = k.
  Hypothesis Hpre : k ∉ (key <$> pre).
  Hypothesis Hpost : k ∉ (key <$> post).

Lemma lookupEntry_split : lookupEntry k (pre ++ e :: post) = Some e.
Proof.
  unfold lookupEntry. rewrite filter_app, filter_cons_True by done.
  by rewrite (filter_none _ pre) by (intros x; by apply not_in_keys).
Qed.

Lemma others_split : others k (pre ++ e :: post) = pre ++ post.
Proof.
  unfold others. rewrite filter_app, filter_cons_False by auto.
  by rewrite !filter_all by eauto using not_in_keys.
Qed.
End EntrySplit.

Lemma implements_with_lists c l m gone es :
  lru_wf c → lists_wf l → m = index l → (∀ i, i ∈ l.*1 → i ∈ (byAccess c).*1) → l.*2 = es →
  implements es gone c (with_lists l m gone c).
Proof.
  intros [_ _ Hf] Hl Hm Hi Hes. split; [done|split|..]; simpl; try done. intros i Hin. by apply Hf, Hi.
Qed.

Lemma implements_refl c : lru_wf c → implements (entries c) [] c c.
Proof. intros Hwf. split; try done. rewrite app_nil_r. by destruct (rmFunc c). Qed.

(** An entry found by key, seen from both sides. *)
Record found c k i pre e post : Prop := {
  f_list : byAccess c = pre ++ (i, e) :: post;
  f_key : key e = k;
  f_pre : i ∉ pre.*1;
  f_post : i ∉ post.*1;
  f_lookup : lookupEntry k (entries c) = Some e;
  f_others : others k (entries c) = pre.*2 ++ post.*2;
}.

Lemma find_entry c k :
  lru_wf c →
  match byKey c !! k with
  | Some i => ∃ pre e post, found c k i pre e post
  | None => lookupEntry k (entries c) = None
  end.
Proof.
  intros Hwf. destruct (byKey c !! k) as [i|] eqn:Hl.
  - destruct (lru_wf_split c k i Hwf Hl) as (pre & e & post & Hb & Hk & Hi1 & Hi2 & Hk1 & Hk2).
    exists pre, e, post. split; try done; unfold entries; rewrite Hb, fmap_app, fmap_cons; simpl.
    + by apply lookupEntry_split.
    + by apply others_split.
  - apply lookupEntry_None. by apply lookup_byKey_None.
Qed.

Lemma implements_front c k i pre e post e' :
  lru_wf c → found c k i pre e post → key e' = key e →
  implements (e' :: others k (entries c)) [] c
    (with_lists ((i, e') :: pre ++ post) (byKey c) [] c).
Proof.
  intros Hwf [Hb Hk _ _ _ Ho] Hke. destruct Hwf as [Hl Hi Hf] eqn:Hwf'.
  assert (pairs ((i, e') :: pre ++ post) ≡ₚ pairs (byAccess c)) as Hp.
  { unfold pairs. rewrite Hb. csimpl. rewrite Hke, !fmap_app, fmap_cons. simpl. solve_Permutation. }
  destruct (lists_wf_perm _ _ Hp Hl) as (Hl' & Hidx & Hin).
  apply implements_with_lists; [done|done|congruence|intros j; apply Hin|].
  rewrite Ho. csimpl. by rewrite fmap_app.
Qed.

Lemma implements_remove c k i pre e post :
  lru_wf c → found c k i pre e post →
  implements (others k (entries c)) [value e] c
    (with_lists (pre ++ post) (delete k (byKey c)) [value e] c).
Proof.
  intros Hwf [Hb Hk _ _ _ Ho]. destruct Hwf as [Hl Hi Hf] eqn:Hwf'.
  assert (pairs (byAccess c) ≡ₚ (k, i) :: pairs (pre ++ post)) as Hp.
  { unfold pairs. rewrite Hb, !fmap_app, fmap_cons. simpl. rewrite Hk. solve_Permutation. }
  destruct (lists_wf_remove _ _ _ _ Hp Hl) as (Hl' & Hidx & Hin).
  apply implements_with_lists; [done|done|by rewrite Hi|done|]. by rewrite Ho, fmap_app.
Qed.

Lemma Get_implements c now k :
  lru_wf c →
  let '(r, es, gone) := specOp c (opGet now k) (entries c) in
  (runOp (opGet now k) c).1 = r ∧ implements es gone c (runOp (opGet now k) c).2.
Proof.
  intros Hwf. pose proof (find_entry c k Hwf) as Hf. simpl. unfold Get.
  destruct (byKey c !! k) as [i|].
  2: { rewrite Hf. split; [done|]. by apply implements_refl. }
  destruct Hf as (pre & e & post & Hfd). pose proof Hfd as [Hb Hk Hi1 Hi2 -> Ho].
  assert ((if pin c then list_Write i (addRef 1) (byAccess c) else byAccess c)
    = pre ++ (i, pinEntry c e) :: post) as ->.
  { unfold pinEntry. rewrite Hb. destruct (pin c); [by rewrite Write_split|done]. }
  rewrite Value_split by done.
  assert (key (pinEntry c e) = key e) as Hke by (unfold pinEntry; by destruct (pin c)).
  assert (value (pinEntry c e) = value e) as Hve by (unfold pinEntry; by destruct (pin c)).
  destruct (expired now (pinEntry c e)); simpl; (split; [done|]).
  - rewrite Remove_split by done. rewrite Hke, Hk, Hve. by eapply implements_remove.
  - rewrite MoveToFront_split by done. by eapply implements_front.
Qed.

(** The options do not change with the reference count or the expiration. *)
Lemma key_setExpiration now c e : key (setExpiration now c e) = key e.
Proof. unfold setExpiration. by case_decide. Qed.

Lemma key_pinEntry c e : key (pinEntry c e) = key e.
Proof. unfold pinEntry. by destruct (pin c). Qed.

(** A new entry in front, before any eviction. *)
Definition pushed c entry : lru :=
  mkLru ((nextElement c, entry) :: byAccess c) (<[key entry := nextElement c]> (byKey c))
    (maxSize c) (ttl c) (pin c) (rmFunc c) (removed c) (S (nextElement c)).

Lemma pushed_wf c entry :
  lru_wf c → byKey c !! key entry = None → lru_wf (pushed c entry).
Proof.
  intros Hwf Hn. pose proof (lookup_byKey_None c _ Hwf Hn) as Hk. destruct Hwf as [[He Hke] Hi Hf].
  split; [split|..]; simpl.
  - apply NoDup_cons. split; [|done]. intros H%Hf. lia.
  - by apply NoDup_cons.
  - rewrite Hi. done.
  - intros i [->|H%Hf]%elem_of_cons; lia.
Qed.

(** The eviction of the last entry. *)
Lemma implements_evict c l j oldest :
  lru_wf c → byAccess c = l ++ [(j, oldest)] →
  implements (removelast (entries c)) [value oldest] c
    (with_lists (list_Remove j (byAccess c)) (delete (key oldest) (byKey c)) [value oldest] c).
Proof.
  intros Hwf Hb. pose proof Hwf as [[He Hk] Hi Hf].
  assert (j ∉ l.*1) as Hj.
  { rewrite Hb, fmap_app in He. apply NoDup_app in He as (_ & He & _). intros H. apply (He _ H). by left. }
  assert (list_Remove j (byAccess c) = l) as ->.
  { rewrite Hb, Remove_split; [by rewrite app_nil_r|done|]. simpl. by apply not_elem_of_nil. }
  assert (pairs (byAccess c) ≡ₚ (key oldest, j) :: pairs l) as Hp.
  { unfold pairs. rewrite Hb, fmap_app. simpl. solve_Permutation. }
  destruct (lists_wf_remove _ _ _ _ Hp (wf_lists c Hwf)) as (Hl' & Hidx & Hin).
  apply implements_with_lists; [done|done|by rewrite Hi|done|].
  unfold entries. rewrite Hb, fmap_app. simpl. by rewrite removelast_app_one.
Qed.

Lemma implements_pushed c entry es gone c' :
  implements es gone (pushed c entry) c' → implements es gone c c'.
Proof. intros []. by split. Qed.

Lemma pushed_last c entry :
  ∃ l j oldest, byAccess (pushed c entry) = l ++ [(j, oldest)] ∧
    last ((nextElement c, entry) :: byAccess c) = Some (j, oldest) ∧
    default entry (last (entries c)) = oldest.
Proof.
  destruct (exists_last (l := byAccess (pushed c entry))) as (l & [j oldest] & Hl); [done|].
  exists l, j, oldest. split_and!; [done| |].
  - simpl in Hl. rewrite Hl. apply last_snoc.
  - simpl in Hl. apply (f_equal last) in Hl. rewrite last_snoc, last_cons in Hl.
    unfold entries. rewrite fmap_last. destruct (last (byAccess c)) as [[]|]; by simplify_eq/=.
Qed.

(** The revert of an insertion that found the cache full. *)
Lemma implements_revert c entry :
  lru_wf c → byKey c !! key entry = None →
  implements (entries c) [] c
    (with_lists (list_Remove (nextElement c) ((nextElement c, entry) :: byAccess c))
       (delete (key entry) (<[key entry := nextElement c]> (byKey c))) [] (pushed c entry)).
Proof.
  intros Hwf Hn. apply (implements_pushed c entry).
  assert (nextElement c ∉ (byAccess c).*1) as Hnew by (intros H%(wf_fresh c Hwf); lia).
  change ((nextElement c, entry) :: byAccess c) with ([] ++ (nextElement c, entry) :: byAccess c).
  rewrite Remove_split by (done || by apply not_elem_of_nil).
  rewrite delete_insert_id by done.
  apply implements_with_lists; [by apply pushed_wf|apply (wf_lists c Hwf)|apply (wf_index c Hwf)| |done].
  intros i Hi. simpl. by right.
Qed.

Lemma putInternal_implements c now k v allowUpdate :
  lru_wf c →
  let '(r, es, gone) := specPut c now k v allowUpdate (entries c) in
  ∃ c', putInternal now k v allowUpdate c = (Returned r, c') ∧ implements es gone c c'.
Proof.
  intros Hwf. pose proof (find_entry c k Hwf) as Hf. unfold putInternal, specPut.
  destruct (byKey c !! k) as [i|] eqn:Hk.
  - destruct Hf as (pre & e & post & Hfd). pose proof Hfd as [Hb Hke Hi1 Hi2 -> Ho].
    rewrite Hb, Value_split, Write_split, MoveToFront_split by done.
    eexists. split; [reflexivity|]. eapply implements_front; [done|done|].
    rewrite key_pinEntry, key_setExpiration. by destruct allowUpdate.
  - rewrite Hf. set (entry := setExpiration now c _).
    assert (key entry = k) as Hke by (unfold entry; by rewrite key_setExpiration, key_pinEntry).
    pose proof (pushed_wf c entry Hwf) as Hwf1. rewrite Hke in Hwf1. specialize (Hwf1 Hk).
    assert (size (<[k := nextElement c]> (byKey c)) = S (length (entries c))) as Hsize.
    { rewrite map_size_insert_None by done. f_equal. rewrite (wf_index c Hwf), size_index
        by apply (wf_lists c Hwf). unfold entries. by rewrite length_fmap. }
    rewrite Hsize. rewrite <- Hke. fold (pushed c entry). case_decide as Hfull.
    2: { eexists. split; [reflexivity|]. apply (implements_pushed c entry).
         by apply (implements_refl (pushed c entry)). }
    destruct (pushed_last c entry) as (l & j & oldest & Hl & Hlast & Hdef). rewrite Hlast, Hdef.
    case_decide; eexists; (split; [reflexivity|]).
    + by apply implements_revert; rewrite ?Hke.
    + apply (implements_pushed c entry). by apply (implements_evict (pushed c entry) l j oldest).
Qed.

Lemma DeleteIf_implements c k predicate :
  lru_wf c →
  let '(r, es, gone) := specOp c (opDeleteIf k predicate) (entries c) in
  (runOp (opDeleteIf k predicate) c).1 = r ∧
  implements es gone c (runOp (opDeleteIf k predicate) c).2.
Proof.
  intros Hwf. pose proof (find_entry c k Hwf) as Hf. simpl. unfold DeleteIf.
  destruct (byKey c !! k) as [i|].
  2: { rewrite Hf. split; [done|]. by apply implements_refl. }
  destruct Hf as (pre & e & post & Hfd). pose proof Hfd as [Hb Hk Hi1 Hi2 -> Ho].
  rewrite Hb, Value_split by done. destruct (predicate (value e)); simpl; (split; [done|]).
  - rewrite Remove_split by done. by eapply implements_remove.
  - by apply implements_refl.
Qed.

Lemma Release_implements c k :
  lru_wf c →
  let '(r, es, gone) := specOp c (opRelease k) (entries c) in
  (runOp (opRelease k) c).1 = r ∧ implements es gone c (runOp (opRelease k) c).2.
Proof.
  intros Hwf. pose proof (find_entry c k Hwf) as Hf. simpl. unfold Release.
  destruct (byKey c !! k) as [i|] eqn:Hk.
  2: { rewrite Hf. split; [done|]. by apply implements_refl. }
  destruct (lru_wf_split c k i Hwf Hk) as (pre & e & post & Hb & Hke & Hi1 & Hi2 & Hk1 & Hk2).
  destruct Hf as (pre' & e' & post' & [_ _ _ _ -> _]). clear pre' post'. simpl. split; [done|].
  rewrite Hb, Write_split by done. destruct Hwf as [Hl Hi Hfr] eqn:Hwf'.
  assert (pairs (pre ++ (i, addRef (-1) e) :: post) ≡ₚ pairs (byAccess c)) as Hp.
  { unfold pairs. by rewrite Hb, !fmap_app. }
  destruct (lists_wf_perm _ _ Hp Hl) as (Hl' & Hidx & Hin).
  apply implements_with_lists; [done|done|congruence|intros j; apply Hin|].
  unfold entries. rewrite Hb, !fmap_app. csimpl. rewrite decide_True by done.
  assert (Hid : ∀ es : list cacheEntry, k ∉ (key <$> es) →
    (λ e, if decide (key e = k) then addRef (-1) e else e) <$> es = es).
  { intros es Hes. rewrite <- (list_fmap_id es) at 2. apply list_fmap_ext. intros n y Hy.
    rewrite decide_False; [done|]. eapply not_in_keys; [done|by eapply list_elem_of_lookup_2]. }
  by rewrite !Hid.
Qed.

Lemma clear_fold kvs : ∀ c gone,
  lru_wf c → kvs ≡ₚ pairs (byAccess c) →
  let '(c', gone') := foldl clearStep (c, gone) kvs in
  byAccess c' = [] ∧ byKey c' = ∅ ∧ gone' ≡ₚ gone ++ (value <$> entries c) ∧
  (maxSize c' = maxSize c ∧ ttl c' = ttl c ∧ pin c' = pin c ∧ rmFunc c' = rmFunc c) ∧
  removed c' = removed c.
Proof.
  induction kvs as [|[k i] kvs IH]; intros c gone Hwf Hp.
  - assert (byAccess c = []) as Hb.
    { destruct (byAccess c); [done|]. by apply Permutation_nil_l in Hp. }
    simpl. rewrite (wf_index c Hwf). unfold entries. rewrite Hb. split_and!; try done. by rewrite app_nil_r.
  - assert (byKey c !! k = Some i) as Hk.
    { rewrite (wf_index c Hwf). apply elem_of_list_to_map.
      - rewrite index_keys. apply (wf_lists c Hwf).
      - rewrite <- Hp. by left. }
    destruct (lru_wf_split c k i Hwf Hk) as (pre & e & post & Hb & Hke & Hi1 & Hi2 & _ & _).
    assert (pairs (byAccess c) ≡ₚ (k, i) :: pairs (pre ++ post)) as Hp'.
    { unfold pairs. rewrite Hb, !fmap_app, fmap_cons. simpl. rewrite Hke. solve_Permutation. }
    destruct (lists_wf_remove _ _ _ _ Hp' (wf_lists c Hwf)) as (Hl' & Hidx & Hin).
    simpl. rewrite Hb, Value_split, Remove_split by done.
    set (c1 := mkLru _ _ _ _ _ _ _ _). specialize (IH c1 (gone ++ [value e])).
    destruct (foldl clearStep _ kvs) as [c' gone']. destruct IH as (Ha & Hm & Hg & Ho & Hr).
    + split; simpl; [done|by rewrite (wf_index c Hwf)|]. intros j Hj. by apply (wf_fresh c Hwf), Hin.
    + simpl. rewrite Hp' in Hp. by apply Permutation_cons_inv in Hp.
    + split_and!; try done; [|tauto..]. rewrite Hg. unfold entries. rewrite Hb. simpl.
      rewrite !fmap_app. csimpl. solve_Permutation.
Qed.

Lemma Clear_implements c :
  lru_wf c → implements [] (value <$> entries c) c (Clear c).
Proof.
  intros Hwf. unfold Clear, ClearWithCallback.
  pose proof (clear_fold (map_to_list (byKey c)) c [] Hwf) as H.
  destruct (foldl _ _ _) as [c' gone]. destruct H as (Ha & Hm & Hg & (H1 & H2 & H3 & H4) & Hr).
  { rewrite (wf_index c Hwf). unfold index. apply map_to_list_to_map.
    rewrite index_keys. apply (wf_lists c Hwf). }
  split; unfold with_lists; simpl; rewrite ?Ha, ?Hm.
  - done.
  - split; simpl; [split; constructor|done|]. by intros ? ?%elem_of_nil.
  - done.
  - rewrite H4, Hr. destruct (rmFunc c); [by rewrite Hg|done].
Qed.

Lemma runOp_implements c op :
  lru_wf c →
  let '(r, es, gone) := specOp c op (entries c) in
  (runOp op c).1 = r ∧ implements es gone c (runOp op c).2.
Proof.
  intros Hwf. destruct op as [now k|now k v|now k v|k predicate|k|].
  - by apply Get_implements.
  - simpl. unfold Put. destruct (pin c); [split; [done|by apply implements_refl]|].
    pose proof (putInternal_implements c now k v true Hwf) as H.
    destruct (specPut _ _ _ _ _ _) as [[[err|x] es] gone]; destruct H as (c' & -> & Hi); done.
  - simpl. unfold PutIfNotExist, mbind, go_bind.
    pose proof (putInternal_implements c now k v false Hwf) as H.
    destruct (specPut _ _ _ _ _ _) as [[[err|[x|]] es] gone]; destruct H as (c' & -> & Hi); done.
  - by apply DeleteIf_implements.
  - by apply Release_implements.
  - split; [done|]. by apply Clear_implements.
Qed.

(** ** Every reachable cache *)

Definition runOps (ops : list lruOp) c : lru := foldl (λ c op, (runOp op c).2) c ops.

Lemma New_wf size ttl pin rm : lru_wf (New (V := V) size ttl pin rm).
Proof. split; [split; constructor|done|]. by intros ? ?%elem_of_nil. Qed.

Lemma runOps_wf ops c : lru_wf c → lru_wf (runOps ops c) ∧ maxSize (runOps ops c) = maxSize c.
Proof.
  revert c. induction ops as [|op ops IH]; intros c Hwf; [done|]. simpl.
  pose proof (runOp_implements c op Hwf) as H. destruct (specOp _ _ _) as [[r es] gone].
  destruct H as (_ & [_ Hwf' (Hs & _) _]). destruct (IH _ Hwf') as [Hw Hm]. split; [done|congruence].
Qed.

(** ** Capacity *)

Definition fits c : Prop := Z.of_nat (length (entries c)) ≤ Z.max 0 (maxSize c).

Lemma lookupEntry_Some k es e : lookupEntry k es = Some e → key e = k ∧ e ∈ es.
Proof.
  unfold lookupEntry. intros H. assert (e ∈ filter (λ e, key e = k) es) as Hin.
  { destruct (filter _ es); simplify_eq/=. by left. }
  by apply list_elem_of_filter in Hin.
Qed.

Lemma others_shorter k es e : lookupEntry k es = Some e → (length (others k es) < length es)%nat.
Proof.
  intros [Hk Hin]%lookupEntry_Some. unfold others.
  apply list_elem_of_split in Hin as (pre & post & ->).
  rewrite filter_app, filter_cons_False, !length_app by auto. simpl.
  pose proof (length_filter (λ e, key e ≠ k) pre). pose proof (length_filter (λ e, key e ≠ k) post). lia.
Qed.

Lemma specOp_fits c op r es gone :
  specOp c op (entries c) = (r, es, gone) → fits c →
  Z.of_nat (length es) ≤ Z.max 0 (maxSize c).
Proof.
  unfold fits. intros H Hfit.
  assert (Hput : ∀ now k v b r' es' gone', specPut c now k v b (entries c) = (r', es', gone') →
    Z.of_nat (length es') ≤ Z.max 0 (maxSize c)).
  { intros now k v b r' es' gone'. unfold specPut. destruct (lookupEntry k (entries c)) as [e|] eqn:Hl.
    - intros ?; simplify_eq. apply others_shorter in Hl. simpl. lia.
    - repeat case_decide; intros ?; simplify_eq; rewrite ?length_removelast; simpl; lia. }
  destruct op as [now k|now k v|now k v|k predicate|k|]; simpl in H.
  - destruct (lookupEntry k (entries c)) as [e|] eqn:Hl; [apply others_shorter in Hl|];
      [destruct (expired _ _)|]; simplify_eq/=; lia.
  - destruct (pin c); simplify_eq; [done|].
    destruct (specPut _ _ _ _ _ _) as [[[]] ] eqn:Hp; simplify_eq; by eapply Hput.
  - destruct (specPut _ _ _ _ _ _) as [[[?|[?|]]] ] eqn:Hp; simplify_eq; by eapply Hput.
  - destruct (lookupEntry k (entries c)) as [e|] eqn:Hl; [apply others_shorter in Hl|];
      [destruct (predicate _)|]; simplify_eq/=; lia.
  - destruct (lookupEntry k (entries c)); simplify_eq; rewrite ?length_fmap; lia.
  - simplify_eq. simpl. lia.
Qed.

Lemma runOps_fits ops c : lru_wf c → fits c → fits (runOps ops c).
Proof.
  revert c. induction ops as [|op ops IH]; intros c Hwf Hfit; [done|]. simpl.
  pose proof (runOp_implements c op Hwf) as H. destruct (specOp _ _ _) as [[r es] gone] eqn:Hs.
  destruct H as (_ & [Hes Hwf' (Hm & _) _]). apply IH; [done|]. unfold fits. rewrite Hes, Hm.
  by eapply specOp_fits.
Qed.

(** ** Pinning *)

Definition removes (op : lruOp) : bool :=
  match op with opDeleteIf _ _ | opClear => true | _ => false end.

(** The entry of [e]'s key after an operation; only [Put] on it writes its value. *)
Definition survives (op : lruOp) e (es : list cacheEntry) : Prop :=
  ∃ e', e' ∈ es ∧ key e' = key e ∧ (value e' = value e ∨ ∃ now v, op = opPut now (key e) v).

Lemma elem_of_others k e es : e ∈ es → key e ≠ k → e ∈ others k es.
Proof. intros. by apply list_elem_of_filter. Qed.

Lemma survives_same op e es : e ∈ es → survives op e es.
Proof. exists e. auto. Qed.

(** The entry touched is in front, the rest are kept. *)
Lemma survives_front op c k e e0 e1 :
  lru_wf c → e ∈ entries c → lookupEntry k (entries c) = Some e0 → key e1 = key e0 →
  (value e1 = value e0 ∨ ∃ now v, op = opPut now k v) →
  survives op e (e1 :: others k (entries c)).
Proof.
  intros Hwf Hin Hl Hk Hv. destruct (decide (key e = k)) as [He|He].
  - assert (e = e0) as ->.
    { apply lookupEntry_Some in Hl as [H0 H0']. destruct Hwf as [[_ Hnd] _ _].
      apply (NoDup_fmap_elem_inj key (entries c) e e0); congruence || done. }
    exists e1. rewrite He. split_and!; [by left|congruence|done].
  - apply survives_same. right. by apply elem_of_others.
Qed.

Lemma specPut_survives op c now k v b r es gone e :
  lru_wf c → e ∈ entries c → 0 < refCount e → (b = true → op = opPut now k v) →
  specPut c now k v b (entries c) = (r, es, gone) → survives op e es.
Proof.
  intros Hwf Hin Hpin Hop. unfold specPut. destruct (lookupEntry k (entries c)) as [e0|] eqn:Hl.
  - intros ?; simplify_eq. eapply survives_front; [done|done|done| |].
    + rewrite key_pinEntry, key_setExpiration. by destruct b.
    + destruct b; [right; eauto|left]. unfold pinEntry, setExpiration. by destruct (pin c); case_decide.
  - case_decide as Hfull; [case_decide as Hold|]; intros ?; simplify_eq; apply survives_same; [done| |by right].
    destruct (entries c) as [|x l _] using rev_ind; [by apply elem_of_nil in Hin|].
    rewrite last_snoc in Hold. simpl in Hold.
    rewrite app_comm_cons, removelast_app_one. right.
    apply elem_of_app in Hin as [?|Hx%list_elem_of_singleton]; [done|]. subst x. done.
Qed.

Lemma pinned_not_expired c now e :
  0 < refCount e → int64_range (refCount e) → expired now (pinEntry c e) = false.
Proof.
  intros Hp Hr. unfold expired. rewrite bool_decide_false; [done|].
  unfold pinEntry. destruct (pin c); simpl; [|lia].
  unfold int64_range, wrap64 in *. intros H.
  pose proof (Z.div_mod (refCount e + 1 + 2 ^ 63) (2 ^ 64)) as Hd.
  pose proof (Z.mod_pos_bound (refCount e + 1 + 2 ^ 63) (2 ^ 64)). nia.
Qed.

Lemma runOp_survives c op e :
  lru_wf c → e ∈ entries c → 0 < refCount e → int64_range (refCount e) → removes op = false →
  survives op e (entries (runOp op c).2).
Proof.
  intros Hwf Hin Hpin Hr Hop. pose proof (runOp_implements c op Hwf) as H.
  destruct (specOp _ _ _) as [[r es] gone] eqn:Hs. destruct H as (_ & [-> _ _ _]).
  destruct op as [now k|now k v|now k v|k predicate|k|]; simpl in *; try done.
  - destruct (lookupEntry k (entries c)) as [e0|] eqn:Hl; [|simplify_eq; by apply survives_same].
    destruct (expired now (pinEntry c e0)) eqn:Hx; simplify_eq.
    + apply survives_same, elem_of_others; [done|]. intros Hk.
      apply lookupEntry_Some in Hl as [H0 H0']. destruct Hwf as [[_ Hnd] _ _].
      assert (e = e0) as -> by (apply (NoDup_fmap_elem_inj key (entries c)); congruence || done).
      by rewrite pinned_not_expired in Hx.
    + eapply survives_front; [done..|apply key_pinEntry|left]. unfold pinEntry. by destruct (pin c).
  - destruct (pin c); [simplify_eq; by apply survives_same|].
    destruct (specPut _ _ _ _ _ _) as [[[]] ] eqn:Hp; simplify_eq;
      by refine (specPut_survives _ c now k v _ _ _ _ e Hwf Hin Hpin _ Hp).
  - destruct (specPut _ _ _ _ _ _) as [[[?|[?|]]] ] eqn:Hp; simplify_eq;
      by refine (specPut_survives _ c now k v _ _ _ _ e Hwf Hin Hpin _ Hp).
  - destruct (lookupEntry k (entries c)); simplify_eq; [|by apply survives_same].
    exists (if decide (key e = k) then addRef (-1) e else e). split_and!.
    + apply list_elem_of_fmap. by exists e.
    + by case_decide.
    + left. by case_decide.
Qed.
End LruFacts.


(** The cache never holds more entries than its size, and a pinned entry is
    never evicted or expired: in any reachable cache, no operation but [Delete]
    and [Clear] takes away an entry whose reference count is positive, and only
    [Put] on its key changes its value. *)
Theorem lru_bounded_pinned {V} size ttl pin rm (ops : list (@lruOp V)) :
  let c := runOps ops (New size ttl pin rm) in
  Z.of_nat (Size c) ≤ Z.max 0 size ∧
  ∀ op e, e ∈ entries c → 0 < refCount e → int64_range (refCount e) → removes op = false →
    survives op e (entries (runOp op c).2).
Proof.
  cbn zeta. destruct (runOps_wf ops (New size ttl pin rm) (New_wf _ _ _ _)) as [Hwf Hm]. split.
  - pose proof (runOps_fits ops (New size ttl pin rm) (New_wf _ _ _ _)) as Hfit.
    unfold Size. rewrite (wf_index _ Hwf), size_index by apply (wf_lists _ Hwf).
    unfold fits, entries in Hfit. rewrite !length_fmap, Hm in Hfit. apply Hfit. simpl. lia.
  - intros op e. by apply runOp_survives.
Qed.

Lemma lru_bounded_pinned_witness :
  let c := runOps [opPutIfNotExist 0 "a" (Some 1%nat); opPutIfNotExist 0 "b" (Some 2%nat)] (New 1 0 true true) in
  Z.of_nat (Size c) ≤ Z.max 0 1 ∧ survives (opGet 5 "b") (mkCacheEntry "a" None (Some 1%nat) 1)
    (entries (runOp (opGet 5 "b") c).2).
Proof.
  destruct (lru_bounded_pinned 1 0 true true
    [opPutIfNotExist 0 "a" (Some 1%nat); opPutIfNotExist 0 "b" (Some 2%nat)]) as [Hsize Hpin].
  split; [exact Hsize|]. apply Hpin; [vm_compute; left|reflexivity|split; [discriminate|reflexivity]|reflexivity].
Defined.
