(* ===== verification/Update.v ===== *)
(** * Workflow updates: the protocol instance, its registry and its handler.

    [src/internal/internal_update.go] ([updateProtocol],
    [defaultUpdateHandler]), [src/internal/protocol/registry.go], and the
    sending and queueing of [src/internal/internal_event_handlers.go]. *)

From stdpp Require Import base list gmap strings.
From S2P Require Import Prelude Proto CommandMachine CommandsHelper Flags History Replay.
Open Scope Z_scope.

(** ** Data *)

Inductive updateState : Type :=
| updateStateNew
| updateStateRequestInitiated
| updateStateAccepted
| updateStateCompleted.

#[export] Instance updateState_eq_dec : EqDecision updateState.
Proof. solve_decision. Defined.

(** [updatepb.Request], as far as the code reads it. *)
Record updateRequest : Type := mkUpdateRequest {
  req_updateId : string;
  req_name : string;
  req_args : option Payloads;
  req_header : gmap string Payload;
}.

Record updateProtocol : Type := mkUpdateProtocol {
  protoInstanceID : string;
  clientIdentity : string;
  initialRequest : option updateRequest;
  requestMsgID : string;
  requestSeqID : Z;
  up_state : updateState;
}.

(** The bodies of the messages the protocol sends. *)
Inductive updateBody : Type :=
| Acceptance (acceptedRequestMessageId : string) (acceptedRequestSequencingEventId : Z)
    (acceptedRequest : option updateRequest)
| Rejection (rejectedRequestMessageId : string) (rejectedRequestSequencingEventId : Z)
    (rejectedRequest : option updateRequest) (failure : Failure)
| Response (updateId identity : string) (result : Failure + option Payloads).

Record outMessage : Type := mkOutMessage {
  om_Id : string;
  om_ProtocolInstanceId : string;
  om_Body : updateBody;
}.

(** [outboxEntry], with the whole message. *)
Record outEntry : Type := mkOutEntry {
  oe_msg : outMessage;
  oe_eventPredicate : HistoryEvent → bool;
}.

Definition toOutboxEntry (oe : outEntry) : outboxEntry :=
  mkOutboxEntry (om_Id (oe_msg oe)) (oe_eventPredicate oe).

(** The part of the workflow environment that updates use. [instances] is the
    registry; a coroutine started for an update reaches its instance by id. *)
Record updateEnv : Type := mkUpdateEnv {
  instances : gmap string updateProtocol;
  env_commandsHelper : commandsHelper;
  env_sdkFlags : sdkFlags;
  env_isReplay : bool;
  outbox : list outEntry;
  (** Coroutines started: update name, instance and priority. *)
  spawned : list (string * string * bool);
  bufferedUpdateRequests : gmap string (list (string * bool));
  runningUpdatesHandles : gset string;
}.

Abbreviation U := (Go updateEnv).

Definition set_instance (id : string) (up : updateProtocol) (e : updateEnv) : updateEnv :=
  mkUpdateEnv (<[id := up]> (instances e)) (env_commandsHelper e) (env_sdkFlags e) (env_isReplay e)
    (outbox e) (spawned e) (bufferedUpdateRequests e) (runningUpdatesHandles e).

Definition set_instances (m : gmap string updateProtocol) (e : updateEnv) : updateEnv :=
  mkUpdateEnv m (env_commandsHelper e) (env_sdkFlags e) (env_isReplay e)
    (outbox e) (spawned e) (bufferedUpdateRequests e) (runningUpdatesHandles e).

Definition set_sending (h : commandsHelper) (sf : sdkFlags) (out : list outEntry) (e : updateEnv)
    : updateEnv :=
  mkUpdateEnv (instances e) h sf (env_isReplay e) out (spawned e) (bufferedUpdateRequests e)
    (runningUpdatesHandles e).

Definition set_scheduling (sp : list (string * string * bool))
    (buffered : gmap string (list (string * bool))) (e : updateEnv) : updateEnv :=
  mkUpdateEnv (instances e) (env_commandsHelper e) (env_sdkFlags e) (env_isReplay e) (outbox e) sp
    buffered (runningUpdatesHandles e).

Definition set_running (r : gset string) (e : updateEnv) : updateEnv :=
  mkUpdateEnv (instances e) (env_commandsHelper e) (env_sdkFlags e) (env_isReplay e) (outbox e)
    (spawned e) (bufferedUpdateRequests e) r.

Definition with_state (s : updateState) (up : updateProtocol) : updateProtocol :=
  mkUpdateProtocol (protoInstanceID up) (clientIdentity up) (initialRequest up) (requestMsgID up)
    (requestSeqID up) s.

(** ** The registry *)

Definition newUpdateProtocol (id : string) : updateProtocol :=
  mkUpdateProtocol id "" None "" 0 updateStateNew.

(** [FindOrAdd]; the instance is then reached by its id. *)
Definition FindOrAdd (instID : string) : U unit :=
  e ← get;
  match instances e !! instID with
  | Some _ => mret tt
  | None => modify (set_instance instID (newUpdateProtocol instID))
  end.

Definition HasCompleted (up : updateProtocol) : bool :=
  bool_decide (up_state up = updateStateCompleted).

Definition ClearCompleted (e : updateEnv) : updateEnv :=
  set_instances (filter (λ kv, HasCompleted kv.2 = false) (instances e)) e.

(** A method call on the instance. *)
Definition getInstance (id : string) : U updateProtocol :=
  e ← get;
  match instances e !! id with
  | Some up => mret up
  | None => panic nilDereference
  end.

Section Update.
  Variable allowed : gmap sdkFlag bool.
  (** [msg.Body.UnmarshalTo(&request)]. *)
  Variable unmarshalRequest : option string → string + updateRequest.
  (** [workflowContextWithHeaderPropagated]: the error of a propagator. *)
  Variable propagateHeader : gmap string Payload → option string.
  (** [ErrorToFailure] of the outcome converter. *)
  Variable errorToFailure : string → Failure.

(** ** Sending *)

Definition TryUse (flag : sdkFlag) : U bool := λ e,
  let (b, sf) := tryUse allowed flag (negb (env_isReplay e)) (env_sdkFlags e) in
  (Returned b, set_sending (env_commandsHelper e) sf (outbox e) e).

(** [Send]; the predicate is that of [withExpectedEventPredicate], which also
    asks for a command. *)
Definition Send (msg : outMessage) (expected : option (HistoryEvent → bool)) : U unit :=
  canSendCmd ← TryUse SDKFlagProtocolMessageCommand;
  e ← get;
  let append h := set_sending h (env_sdkFlags e)
    (outbox e ++ [mkOutEntry msg (default (λ _, false) expected)]) in
  match expected with
  | Some _ =>
      if canSendCmd : bool then
        match addProtocolMessage (om_Id msg) (env_commandsHelper e) with
        | (Returned _, h) => modify (append h)
        | (Panicked p, h) =>
            modify (set_sending h (env_sdkFlags e) (outbox e));; panic p
        end
      else modify (append (env_commandsHelper e))
  | None => modify (append (env_commandsHelper e))
  end.

Definition takeOutgoingMessages (e : updateEnv) : list outMessage * updateEnv :=
  (oe_msg <$> outbox e, set_sending (env_commandsHelper e) (env_sdkFlags e) [] e).

(** ** The protocol *)

Definition requireState (action : string) (valid : list updateState) (up : updateProtocol) : U unit :=
  if decide (up_state up ∈ valid) then mret tt
  else panic (illegalState ("[TMPRL1100] invalid action " +:+ action +:+ " in update protocol")).

Definition checkCompletedEvent (up : updateProtocol) (e : HistoryEvent) : bool :=
  match Event_Attributes e with
  | UpdateCompletedEventAttributes updateId => bool_decide (updateId = protoInstanceID up)
  | _ => false
  end.

Definition checkAcceptedEvent (up : updateProtocol) (e : HistoryEvent) : bool :=
  match Event_Attributes e with
  | UpdateAcceptedEventAttributes instanceId messageId seqId _ =>
      bool_decide (instanceId = protoInstanceID up) && bool_decide (messageId = requestMsgID up)
      && bool_decide (seqId = requestSeqID up)
  | _ => false
  end.

Definition Accept (id : string) : U unit :=
  up ← getInstance id;
  _ ← requireState "accept" [updateStateRequestInitiated] up;
  _ ← Send (mkOutMessage (protoInstanceID up +:+ "/accept") (protoInstanceID up)
              (Acceptance (requestMsgID up) (requestSeqID up) (initialRequest up)))
        (Some (checkAcceptedEvent up));
  modify (set_instance id
    (mkUpdateProtocol (protoInstanceID up) (clientIdentity up) None (requestMsgID up)
       (requestSeqID up) updateStateAccepted)).

Definition Reject (id : string) (err : string) : U unit :=
  up ← getInstance id;
  _ ← requireState "reject" [updateStateNew; updateStateRequestInitiated] up;
  _ ← Send (mkOutMessage (protoInstanceID up +:+ "/reject") (protoInstanceID up)
              (Rejection (requestMsgID up) (requestSeqID up) (initialRequest up) (errorToFailure err)))
        None;
  modify (set_instance id (with_state updateStateCompleted up)).

(** The result of the handler: an error, or a value with what [ToPayloads]
    makes of it. *)
Definition Complete (id : string) (result : string + (string + option Payloads)) : U unit :=
  up ← getInstance id;
  _ ← requireState "complete" [updateStateAccepted] up;
  let respond value :=
    _ ← Send (mkOutMessage (protoInstanceID up +:+ "/complete") (protoInstanceID up)
                (Response (protoInstanceID up) (clientIdentity up) value))
          (Some (checkCompletedEvent up));
    modify (set_instance id (with_state updateStateCompleted up)) in
  match result with
  | inl outcomeErr => respond (inl (errorToFailure outcomeErr))
  | inr (inl err) => panic (panicError err)
  | inr (inr payloads) => respond (inr payloads)
  end.

(** ** The handler *)

Definition Spawn (name id : string) (highPriority : bool) : U unit :=
  modify (λ e, set_scheduling (spawned e ++ [(name, id, highPriority)]) (bufferedUpdateRequests e) e).

Definition QueueUpdate (name id : string) (highPriority : bool) : U unit :=
  modify (λ e, set_scheduling (spawned e)
    (<[name := default [] (bufferedUpdateRequests e !! name) ++ [(id, highPriority)]]>
       (bufferedUpdateRequests e)) e).

Definition HandleQueuedUpdates (name : string) : U unit :=
  modify (λ e,
    match bufferedUpdateRequests e !! name with
    | Some requests =>
        set_scheduling (spawned e ++ ((λ r, (name, r.1, r.2)) <$> requests))
          (delete name (bufferedUpdateRequests e)) e
    | None => e
    end).

(** [defaultUpdateHandler], with the number of registered handlers. *)
Definition defaultUpdateHandler (registered : nat) (name id : string) (header : gmap string Payload)
    : U unit :=
  match propagateHeader header with
  | Some err => Reject id err
  | None =>
      priorityUpdateHandling ← TryUse SDKPriorityUpdateHandling;
      if bool_decide (registered = 0%nat) && (priorityUpdateHandling : bool)
      then QueueUpdate name id priorityUpdateHandling
      else Spawn name id priorityUpdateHandling
  end.

Definition HandleMessage (registered : nat) (id : string) (msg : Message) : U (string + unit) :=
  match unmarshalRequest (Msg_Body msg) with
  | inl err => mret (inl err)
  | inr request =>
      up0 ← getInstance id;
      let up1 := mkUpdateProtocol (protoInstanceID up0) (clientIdentity up0) (Some request)
                   (requestMsgID up0) (requestSeqID up0) (up_state up0) in
      modify (set_instance id up1);;
      _ ← requireState "update request" [updateStateNew] up1;
      modify (set_instance id
        (mkUpdateProtocol (protoInstanceID up1) (clientIdentity up1) (Some request)
           (Msg_Id msg) (Msg_EventId msg) (up_state up1)));;
      _ ← defaultUpdateHandler registered (req_name request) id (req_header request);
      up2 ← getInstance id;
      modify (set_instance id (with_state updateStateRequestInitiated up2));;
      mret (inr tt)
  end.

(** A registered handler: what decoding the arguments, the validator and the
    update function give for this update. *)
Record handlerRun : Type := mkHandlerRun {
  decodeError : option string;
  validateError : option string;
  executed : string + (string + option Payloads);
}.

(** [defer func() { delete(eo.runningUpdatesHandles, id) }()] *)
Definition deferRemoval (updateId : string) (m : U unit) : U unit := λ e,
  let (r, e') := m e in (r, set_running (runningUpdatesHandles e' ∖ {[updateId]}) e').

(** [updateRunner], from the lookup of the handler on. The list of known names
    in the error of an unknown update is left out. *)
Definition updateRunner (name id updateId : string) (handler : option handlerRun) : U unit :=
  match handler with
  | None => Reject id ("unknown update " +:+ name)
  | Some h =>
      match decodeError h with
      | Some err => Reject id ("unable to decode the input for update " +:+ name +:+ ": " +:+ err)
      | None =>
          modify (λ e, set_running ({[updateId]} ∪ runningUpdatesHandles e) e);;
          deferRemoval updateId
            (e ← get;
             match (if env_isReplay e then None else validateError h) with
             | Some err => Reject id err
             | None => Accept id;; Complete id (executed h)
             end)
      end
  end.

(** [ProcessMessage] for a message of the update protocol. *)
Definition ProcessMessage (registered : nat) (msg : Message) : U (string + unit) :=
  FindOrAdd (Msg_ProtocolInstanceId msg);;
  HandleMessage registered (Msg_ProtocolInstanceId msg) msg.
End Update.
