(* ===== verification/UpdateFacts.v ===== *)
(** * Every update gets one answer, and a replayed update matches its event. *)

From stdpp Require Import base list gmap strings.
From S2P Require Import Prelude Proto CommandMachine CommandsHelper CommandEventIDs Flags History Replay Update.
Open Scope Z_scope.

Definition messageCommand (msgID : string) : commandID := mkCommandID commandTypeProtocolMessage msgID.

(** The helper has no command for the message. *)
Definition unsent (msgID : string) (e : updateEnv) : Prop :=
  commands (env_commandsHelper e) !! messageCommand msgID = None.

Lemma addProtocolMessage_fresh msgID h :
  commands h !! messageCommand msgID = None →
  ∃ sm h', addProtocolMessage msgID h = (Returned sm, h') ∧
    ∀ id, id ≠ messageCommand msgID → commands h' !! id = commands h !! id.
Proof.
  intros Hc. unfold addProtocolMessage, newNaiveCommandStateMachine, newCommandStateMachineBase.
  cbv zeta. unfold mbind, go_bind. rewrite alloc_spec.
  set (m := mkMachine _ _ _ _ _ _). rewrite (addCommand_spec _ m).
  - eexists _, _. split; [reflexivity|]. intros id Hne. simpl. by rewrite lookup_insert_ne by done.
  - simpl. by rewrite lookup_insert_eq.
  - exact Hc.
Qed.

Lemma app_inj_suffix (s a b : string) : (s +:+ a) = (s +:+ b) → a = b.
Proof. induction s as [|c s IH]; simpl; [done|]. intros [= H]. by apply IH. Qed.

Section UpdateFacts.
  Variable allowed : gmap sdkFlag bool.
  Variable unmarshalRequest : option string → string + updateRequest.
  Variable propagateHeader : gmap string Payload → option string.
  Variable errorToFailure : string → Failure.

  Local Abbreviation process := (ProcessMessage allowed unmarshalRequest propagateHeader errorToFailure).
  Local Abbreviation runner := (updateRunner allowed errorToFailure).

(** Sending changes only the outbox, the flags and the commands. *)
Record sent (e : updateEnv) (entry : outEntry) (e' : updateEnv) : Prop := {
  s_outbox : outbox e' = outbox e ++ [entry];
  s_instances : instances e' = instances e;
  s_replay : env_isReplay e' = env_isReplay e;
  s_running : runningUpdatesHandles e' = runningUpdatesHandles e;
  s_commands : ∀ id, id ≠ messageCommand (om_Id (oe_msg entry)) →
    commands (env_commandsHelper e') !! id = commands (env_commandsHelper e) !! id;
}.

Lemma Send_sent msg expected e :
  (expected = None ∨ unsent (om_Id msg) e) →
  ∃ e', Send allowed msg expected e = (Returned tt, e') ∧
    sent e (mkOutEntry msg (default (λ _, false) expected)) e'.
Proof.
  intros Hu. unfold Send, TryUse, mbind, go_bind, get, modify.
  destruct (tryUse _ _ _ _) as [can sf]. simpl. destruct expected as [p|]; [|by eexists].
  destruct Hu as [Hu|Hu]; [done|]. destruct can; [|by eexists].
  destruct (addProtocolMessage_fresh _ _ Hu) as (sm & h' & -> & Hc). by eexists.
Qed.

(** The message of each callback. *)
Definition acceptMessage (up : updateProtocol) : outMessage :=
  mkOutMessage (protoInstanceID up +:+ "/accept") (protoInstanceID up)
    (Acceptance (requestMsgID up) (requestSeqID up) (initialRequest up)).
Definition rejectMessage (up : updateProtocol) (err : string) : outMessage :=
  mkOutMessage (protoInstanceID up +:+ "/reject") (protoInstanceID up)
    (Rejection (requestMsgID up) (requestSeqID up) (initialRequest up) (errorToFailure err)).
Definition completeMessage (up : updateProtocol) (value : Failure + option Payloads) : outMessage :=
  mkOutMessage (protoInstanceID up +:+ "/complete") (protoInstanceID up)
    (Response (protoInstanceID up) (clientIdentity up) value).

(** The instance [id] moved to [up'], with [msgs] sent. *)
Record answered (e : updateEnv) (id : string) (up' : updateProtocol) (msgs : list outMessage)
    (e' : updateEnv) : Prop := {
  a_outbox : oe_msg <$> outbox e' = (oe_msg <$> outbox e) ++ msgs;
  a_instance : instances e' = <[id := up']> (instances e);
  a_replay : env_isReplay e' = env_isReplay e;
  a_running : runningUpdatesHandles e' = runningUpdatesHandles e;
  a_commands : ∀ cid, (∀ m, m ∈ msgs → cid ≠ messageCommand (om_Id m)) →
    commands (env_commandsHelper e') !! cid = commands (env_commandsHelper e) !! cid;
}.

Lemma sent_answered e id up' entry e' :
  sent e entry e' → answered e id up' [oe_msg entry] (set_instance id up' e').
Proof.
  intros []. split; simpl; try done.
  - by rewrite s_outbox0, fmap_app.
  - by rewrite s_instances0.
  - intros cid Hc. apply s_commands0, Hc. by left.
Qed.

Lemma run_getInstance id up e : instances e !! id = Some up → getInstance id e = (Returned up, e).
Proof. intros H. unfold getInstance, mbind, go_bind, get. by rewrite H. Qed.

Lemma run_requireState action valid up e :
  up_state up ∈ valid → requireState action valid up e = (Returned tt, e).
Proof. intros H. unfold requireState. by rewrite decide_True. Qed.

Lemma Accept_answered id up e :
  instances e !! id = Some up → up_state up = updateStateRequestInitiated →
  unsent (protoInstanceID up +:+ "/accept") e →
  ∃ e', Accept allowed id e = (Returned tt, e') ∧
    answered e id (mkUpdateProtocol (protoInstanceID up) (clientIdentity up) None (requestMsgID up)
      (requestSeqID up) updateStateAccepted) [acceptMessage up] e' ∧
    outbox e' = outbox e ++ [mkOutEntry (acceptMessage up) (checkAcceptedEvent up)].
Proof.
  intros Hi Hs Hu. destruct (Send_sent (acceptMessage up) (Some (checkAcceptedEvent up)) e) as (e1 & Hrun & Hsent);
    [by right|].
  eexists. split; [|split].
  - unfold Accept, mbind, go_bind. rewrite (run_getInstance id up e Hi).
    rewrite run_requireState by (rewrite Hs; by left). unfold acceptMessage in Hrun. rewrite Hrun.
    reflexivity.
  - by apply (sent_answered _ _ _ _ _ Hsent).
  - apply Hsent.
Qed.

Lemma Reject_answered id up err e :
  instances e !! id = Some up → up_state up ∈ [updateStateNew; updateStateRequestInitiated] →
  ∃ e', Reject allowed errorToFailure id err e = (Returned tt, e') ∧
    answered e id (with_state updateStateCompleted up) [rejectMessage up err] e'.
Proof.
  intros Hi Hs. destruct (Send_sent (rejectMessage up err) None e) as (e1 & Hrun & Hsent); [by left|].
  eexists. split.
  - unfold Reject, mbind, go_bind. rewrite (run_getInstance id up e Hi), run_requireState by done.
    unfold rejectMessage in Hrun. rewrite Hrun. reflexivity.
  - by apply (sent_answered _ _ _ _ _ Hsent).
Qed.

(** The value of a completion: the failure, or the encoded result. *)
Definition outcomeValue (result : string + (string + option Payloads)) : option (Failure + option Payloads) :=
  match result with
  | inl err => Some (inl (errorToFailure err))
  | inr (inl _) => None
  | inr (inr payloads) => Some (inr payloads)
  end.

Lemma Complete_answered id up result value e :
  instances e !! id = Some up → up_state up = updateStateAccepted →
  unsent (protoInstanceID up +:+ "/complete") e → outcomeValue result = Some value →
  ∃ e', Complete allowed errorToFailure id result e = (Returned tt, e') ∧
    answered e id (with_state updateStateCompleted up) [completeMessage up value] e'.
Proof.
  intros Hi Hs Hu Hv. destruct (Send_sent (completeMessage up value) (Some (checkCompletedEvent up)) e)
    as (e1 & Hrun & Hsent); [by right|].
  eexists. split; [|by apply (sent_answered _ _ _ _ _ Hsent)].
  unfold Complete, mbind, go_bind. rewrite (run_getInstance id up e Hi), run_requireState by (rewrite Hs; by left).
  unfold completeMessage in Hrun. destruct result as [err|[err|payloads]]; simplify_eq/=; rewrite Hrun; reflexivity.
Qed.

(** What an update is answered with. *)
Definition answers (replay : bool) (name : string) (up : updateProtocol) (handler : option handlerRun)
    : option (list outMessage) :=
  match handler with
  | None => Some [rejectMessage up ("unknown update " +:+ name)]
  | Some h =>
      match decodeError h with
      | Some err =>
          Some [rejectMessage up ("unable to decode the input for update " +:+ name +:+ ": " +:+ err)]
      | None =>
          match (if replay then None else validateError h) with
          | Some err => Some [rejectMessage up err]
          | None =>
              (λ value, [acceptMessage up; completeMessage up value]) <$> outcomeValue (executed h)
          end
      end
  end.

(** The instance ended: it is completed and the registry drops it. *)
Definition ended (id : string) (e : updateEnv) : Prop :=
  (∃ up, instances e !! id = Some up ∧ HasCompleted up = true) ∧
  instances (ClearCompleted e) !! id = None.

Lemma completed_ended id up e :
  instances e !! id = Some up → HasCompleted up = true → ended id e.
Proof.
  intros Hi Hc. split; [by exists up|]. unfold ClearCompleted. simpl.
  apply map_lookup_filter_None. right. intros x Hx. simpl. simplify_eq. by rewrite Hc.
Qed.

Lemma answered_ended e id up msgs e' :
  answered e id (with_state updateStateCompleted up) msgs e' → ended id e'.
Proof.
  intros []. apply (completed_ended id (with_state updateStateCompleted up)); [|done].
  by rewrite a_instance0, lookup_insert_eq.
Qed.

Lemma accept_complete id up result value e :
  instances e !! id = Some up → up_state up = updateStateRequestInitiated →
  unsent (protoInstanceID up +:+ "/accept") e → unsent (protoInstanceID up +:+ "/complete") e →
  outcomeValue result = Some value →
  ∃ e', (Accept allowed id;; Complete allowed errorToFailure id result) e = (Returned tt, e') ∧
    oe_msg <$> outbox e' = (oe_msg <$> outbox e) ++ [acceptMessage up; completeMessage up value] ∧
    ended id e'.
Proof.
  intros Hi Hs Hu1 Hu2 Hv. destruct (Accept_answered id up e Hi Hs Hu1) as (e1 & Hrun1 & Ha & _).
  destruct (Complete_answered id (mkUpdateProtocol (protoInstanceID up) (clientIdentity up) None
    (requestMsgID up) (requestSeqID up) updateStateAccepted) result value e1) as (e2 & Hrun2 & Hb).
  - by rewrite (a_instance _ _ _ _ _ Ha), lookup_insert_eq.
  - done.
  - unfold unsent. rewrite (a_commands _ _ _ _ _ Ha); [done|].
    intros m [->|[]%elem_of_nil]%elem_of_cons [= H]. by apply app_inj_suffix in H.
  - done.
  - exists e2. split_and!.
    + unfold mbind, go_bind. by rewrite Hrun1.
    + rewrite (a_outbox _ _ _ _ _ Hb), (a_outbox _ _ _ _ _ Ha), <- app_assoc. done.
    + by eapply answered_ended.
Qed.


(** An update whose header cannot be propagated is rejected while
    [HandleMessage] is still running, and [HandleMessage] then overwrites the
    state the rejection left: the instance is never completed, [ClearCompleted]
    keeps it for the rest of the workflow, and a later message for the same
    instance panics. *)
Theorem update_header_error_leaks registered msg msg' request request' err e :
  unmarshalRequest (Msg_Body msg) = inr request → propagateHeader (req_header request) = Some err →
  unmarshalRequest (Msg_Body msg') = inr request' →
  Msg_ProtocolInstanceId msg' = Msg_ProtocolInstanceId msg →
  instances e !! Msg_ProtocolInstanceId msg = None →
  let '(r, e1) := process registered msg e in
  let e2 := ClearCompleted e1 in
  r = Returned (inr tt) ∧
  oe_msg <$> outbox e1 = (oe_msg <$> outbox e) ++
    [mkOutMessage (Msg_ProtocolInstanceId msg +:+ "/reject") (Msg_ProtocolInstanceId msg)
       (Rejection (Msg_Id msg) (Msg_EventId msg) (Some request) (errorToFailure err))] ∧
  (∃ up, instances e2 !! Msg_ProtocolInstanceId msg = Some up ∧
     up_state up = updateStateRequestInitiated) ∧
  ∃ p, result (process registered msg') e2 = Panicked (illegalState p).
Proof.
  intros Hreq Herr Hreq' Hid Hnew. set (id := Msg_ProtocolInstanceId msg) in *.
  set (up := mkUpdateProtocol id "" (Some request) (Msg_Id msg) (Msg_EventId msg) updateStateNew).
  set (up2 := with_state updateStateRequestInitiated (with_state updateStateCompleted up)).
  assert (∃ e1, process registered msg e = (Returned (inr tt), e1) ∧ instances e1 !! id = Some up2 ∧
    oe_msg <$> outbox e1 = (oe_msg <$> outbox e) ++ [rejectMessage up err]) as (e1 & -> & Hi1 & Ho1).
  { unfold ProcessMessage, FindOrAdd, HandleMessage, defaultUpdateHandler.
    unfold mbind, go_bind, get, modify. fold id. rewrite Hnew, Hreq.
    rewrite (run_getInstance id (newUpdateProtocol id)) by apply lookup_insert_eq.
    rewrite run_requireState by by left. rewrite Herr.
    match goal with |- context [Reject _ _ _ _ ?st] =>
      destruct (Reject_answered id up err st) as (e1 & Hrun & Ha); [apply lookup_insert_eq|by left|]
    end.
    rewrite Hrun. rewrite (run_getInstance id (with_state updateStateCompleted up))
      by (rewrite (a_instance _ _ _ _ _ Ha); apply lookup_insert_eq).
    eexists. split_and!; [reflexivity|apply lookup_insert_eq|]. apply (a_outbox _ _ _ _ _ Ha). }
  cbn zeta. set (e2 := ClearCompleted e1).
  assert (instances e2 !! id = Some up2) as Hi2.
  { unfold e2, ClearCompleted. simpl. by apply map_lookup_filter_Some. }
  split_and!; [done|done|by exists up2|].
  unfold result, ProcessMessage, FindOrAdd, HandleMessage, mbind, go_bind, get, modify.
  rewrite Hid, Hi2, Hreq'. unfold mret, go_ret. rewrite (run_getInstance id up2 e2 Hi2).
  unfold requireState. rewrite decide_False; [by eexists|].
  simpl. by intros [?|[]%elem_of_nil]%elem_of_cons.
Qed.

(** Replaying an accepted update matches its own event. The message that
    replay infers from an accepted event, delivered to a new instance whose
    handler accepts it, produces an acceptance whose protocol message command
    passes the replay check against that event, and against no accepted event
    of another request. *)
Theorem update_accept_roundtrip registered instanceId messageId seqId body request eventId e :
  unmarshalRequest body = inr request → propagateHeader (req_header request) = None →
  instances e !! instanceId = None → outbox e = [] → unsent (instanceId +:+ "/accept") e →
  let event i m s := mkHistoryEvent eventId EVENT_TYPE_WORKFLOW_EXECUTION_UPDATE_ACCEPTED
                       (UpdateAcceptedEventAttributes i m s body) 0 false in
  let msg := inferMessageFromAcceptedEvent instanceId messageId seqId body in
  let command := mkCommand COMMAND_TYPE_PROTOCOL_MESSAGE
    (Some (Command_ProtocolMessageCommandAttributes (instanceId +:+ "/accept"))) None [] in
  ∃ e1 e2, process registered msg e = (Returned (inr tt), e1) ∧
    Accept allowed instanceId e1 = (Returned tt, e2) ∧
    ∀ i m s, isCommandMatchEvent command (event i m s) (toOutboxEntry <$> outbox e2) =
      Returned (bool_decide (i = instanceId) && bool_decide (m = messageId) && bool_decide (s = seqId)).
Proof.
  intros Hreq Hhdr Hnew Hout Hu. cbn zeta.
  set (up := mkUpdateProtocol instanceId "" (Some request) messageId seqId updateStateNew).
  set (up1 := with_state updateStateRequestInitiated up).
  assert (∃ e1, process registered (inferMessageFromAcceptedEvent instanceId messageId seqId body) e =
    (Returned (inr tt), e1) ∧ instances e1 !! instanceId = Some up1 ∧ outbox e1 = [] ∧
    unsent (instanceId +:+ "/accept") e1) as (e1 & Hproc & Hi1 & Ho1 & Hu1).
  { unfold ProcessMessage, FindOrAdd, HandleMessage, defaultUpdateHandler.
    unfold mbind, go_bind, get, modify, inferMessageFromAcceptedEvent.
    cbn [Msg_ProtocolInstanceId Msg_Body Msg_Id Msg_EventId].
    rewrite Hnew, Hreq. rewrite (run_getInstance instanceId (newUpdateProtocol instanceId)) by apply lookup_insert_eq.
    rewrite run_requireState by by left. rewrite Hhdr. unfold TryUse. destruct (tryUse _ _ _ _) as [b sf].
    destruct (_ && _); unfold QueueUpdate, Spawn, modify;
      rewrite (run_getInstance instanceId up) by apply lookup_insert_eq;
      (eexists; split_and!; [reflexivity|apply lookup_insert_eq|exact Hout|exact Hu]). }
  destruct (Accept_answered instanceId up1 e1 Hi1 eq_refl Hu1) as (e2 & Hacc & _ & Ho2).
  exists e1, e2. split_and!; [done..|]. intros i m s. rewrite Ho2, Ho1. simpl.
  unfold isCommandMatchEvent, messageIdOf. simpl. by rewrite decide_True by done.
Qed.
End UpdateFacts.

(** ** Witnesses *)

Definition exampleRequest : updateRequest := mkUpdateRequest "u" "setValue" None ∅.

(** The bodies that hold the example request; headers without propagator. *)
Definition exampleUnmarshal (body : option string) : string + updateRequest :=
  match body with Some _ => inr exampleRequest | None => inl "empty body" end.

Definition exampleEnv (m : gmap string updateProtocol) : updateEnv :=
  mkUpdateEnv m newCommandsHelper (newSDKFlagSet true) false [] [] ∅ ∅.

Definition exampleFailure (err : string) : Failure := mkFailure err "GoSDK" "" None None NoFailureInfo.

Definition exampleInstance : updateProtocol :=
  mkUpdateProtocol "u" "" (Some exampleRequest) "m" 3 updateStateRequestInitiated.


Definition exampleMessage : Message := mkMessage "m" "u" 3 (Some "body").

Lemma update_header_error_leaks_witness :
  let '(r, e1) := ProcessMessage sdkFlagsAllowed exampleUnmarshal (λ _, Some "bad header") exampleFailure
                    1 exampleMessage (exampleEnv ∅) in
  r = Returned (inr tt) ∧
  ∃ up, instances (ClearCompleted e1) !! "u" = Some up ∧ up_state up = updateStateRequestInitiated.
Proof.
  pose proof (update_header_error_leaks sdkFlagsAllowed exampleUnmarshal (λ _, Some "bad header")
    exampleFailure 1 exampleMessage exampleMessage exampleRequest exampleRequest "bad header"
    (exampleEnv ∅) eq_refl eq_refl eq_refl eq_refl eq_refl) as H.
  destruct (ProcessMessage _ _ _ _ _ _ _) as [r e1]. destruct H as (Hr & _ & Hup & _).
  exact (conj Hr Hup).
Defined.

Lemma update_accept_roundtrip_witness :
  ∃ e1 e2, ProcessMessage sdkFlagsAllowed exampleUnmarshal (λ _, None) exampleFailure 1
      exampleMessage (exampleEnv ∅) = (Returned (inr tt), e1) ∧
    Accept sdkFlagsAllowed "u" e1 = (Returned tt, e2) ∧
    isCommandMatchEvent (mkCommand COMMAND_TYPE_PROTOCOL_MESSAGE
      (Some (Command_ProtocolMessageCommandAttributes "u/accept")) None [])
      (mkHistoryEvent 9 EVENT_TYPE_WORKFLOW_EXECUTION_UPDATE_ACCEPTED
         (UpdateAcceptedEventAttributes "u" "m" 3 (Some "body")) 0 false)
      (toOutboxEntry <$> outbox e2) = Returned true.
Proof.
  destruct (update_accept_roundtrip sdkFlagsAllowed exampleUnmarshal (λ _, None) exampleFailure 1
    "u" "m" 3 (Some "body") exampleRequest 9 (exampleEnv ∅) eq_refl eq_refl (lookup_empty "u") eq_refl (lookup_empty _))
    as (e1 & e2 & H1 & H2 & H3).
  exists e1, e2. split; [exact H1|]. split; [exact H2|]. exact (H3 "u" "m" 3).
Defined.
