(* ===== verification/PollerGroups.v ===== *)
(** * Poller groups ([src/internal/internal_poller_groups.go]).

    The service may split a task queue into weighted groups. A shared store
    holds the latest snapshot of the groups; a manager assigns polls to groups
    so that every group has at least one poll in flight. *)

From stdpp Require Import base list gmap strings.
From Stdlib Require Import SpecFloat.
From S2P Require Import Prelude Floats.
Open Scope Z_scope.

(** ** Data *)

(** One observed lifetime of a group: the version at which its id appeared. *)
Record pollerGroupKey : Type := mkPollerGroupKey {
  pgk_id : string;
  incarnation : Z;
}.

#[export] Instance pollerGroupKey_eq_dec : EqDecision pollerGroupKey.
Proof. solve_decision. Defined.

Record pollerGroupSnapshotEntry : Type := mkSnapshotEntry {
  entry_key : pollerGroupKey;
  weight : float32;
}.

Record pollerGroupSnapshot : Type := mkSnapshot {
  snap_groups : gmap string pollerGroupSnapshotEntry;
  version : Z;
  versionSet : bool;
}.

(** [changedCh] is closed and replaced with every accepted snapshot: the
    channels are numbered, and those below the current one are closed. *)
Record pollerGroupSnapshotStore : Type := mkSnapshotStore {
  current : pollerGroupSnapshot;
  changedCh : nat;
}.

Record pollerGroupState : Type := mkPollerGroupState {
  pgs_key : pollerGroupKey;
  pendingPollCount : Z;
}.

(** The manager with the store it shares. *)
Record pollerGroupManager : Type := mkPollerGroupManager {
  groupStore : pollerGroupSnapshotStore;
  pgm_groups : gmap string pollerGroupState;
}.

(** [TASK_QUEUE_KIND_*]. *)
Inductive TaskQueueKind : Type :=
| TASK_QUEUE_KIND_UNSPECIFIED
| TASK_QUEUE_KIND_NORMAL
| TASK_QUEUE_KIND_STICKY.

#[export] Instance TaskQueueKind_eq_dec : EqDecision TaskQueueKind.
Proof. solve_decision. Defined.

(** A lease, without the pointer to its owner: a lease is released by the
    component that issued it. The zero key is that of an ungrouped poll. *)
Record pollerGroupLease : Type := mkLease {
  lease_group : pollerGroupKey;
  lease_kind : TaskQueueKind;
}.

#[export] Instance pollerGroupLease_eq_dec : EqDecision pollerGroupLease.
Proof. solve_decision. Defined.

Definition noGroup : pollerGroupKey := mkPollerGroupKey "" 0.

(** [taskqueuepb.PollerGroupsInfo]. *)
Record PollerGroupsInfo : Type := mkPollerGroupsInfo {
  info_Version : Z;
  info_PollerGroups : list (string * float32);
}.

(** What the runtime chooses in one call: the order of each [range] over a map
    and the random numbers. *)
Record choices : Type := mkChoices {
  rangeWeights : gmap string pollerGroupSnapshotEntry → list (string * pollerGroupSnapshotEntry);
  rangeGroups : gmap string pollerGroupSnapshotEntry → list (string * pollerGroupSnapshotEntry);
  rand_Intn : nat → nat;
  rand_Float32 : float32;
}.

(** Every entry is visited once, and [rand.Intn(n)] is in [[0, n)]. *)
Class Choices (ch : choices) : Prop := {
  rangeWeights_perm g : rangeWeights ch g ≡ₚ map_to_list g;
  rangeGroups_perm g : rangeGroups ch g ≡ₚ map_to_list g;
  rand_Intn_lt n : (0 < n)%nat → (rand_Intn ch n < n)%nat;
}.

(** ** The weighted choice *)

Definition addWeight (total : float32) (g : string * pollerGroupSnapshotEntry) : float32 :=
  if f32_lt f32_zero (weight g.2) then f32_add total (weight g.2) else total.

Fixpoint pickNth (l : list (string * pollerGroupSnapshotEntry)) (selected : nat) : string :=
  match l with
  | [] => ""
  | g :: l' => match selected with O => g.1 | S selected' => pickNth l' selected' end
  end.

Fixpoint walkWeights (l : list (string * pollerGroupSnapshotEntry)) (point : float32)
    (lastCandidate : string) : string :=
  match l with
  | [] => lastCandidate
  | g :: l' =>
      if f32_le (weight g.2) f32_zero then walkWeights l' point lastCandidate
      else if f32_lt point (weight g.2) then g.1
      else walkWeights l' (f32_sub point (weight g.2)) g.1
  end.

Definition choosePollerGroup (ch : choices) (groups : gmap string pollerGroupSnapshotEntry) : string :=
  if decide (size groups = 0%nat) then ""
  else
    let totalWeight := foldl addWeight f32_zero (rangeWeights ch groups) in
    if f32_le totalWeight f32_zero
    then pickNth (rangeGroups ch groups) (rand_Intn ch (size groups))
    else walkWeights (rangeGroups ch groups) (f32_mul (rand_Float32 ch) totalWeight) "".

(** ** The store *)

Definition newPollerGroupSnapshotStore : pollerGroupSnapshotStore :=
  mkSnapshotStore (mkSnapshot ∅ 0 false) 0.

Definition store_len (s : pollerGroupSnapshotStore) : nat := size (snap_groups (current s)).

Definition snapshot (s : pollerGroupSnapshotStore) : pollerGroupSnapshot := current s.

Definition observe (s : pollerGroupSnapshotStore) : pollerGroupSnapshot * nat :=
  (current s, changedCh s).

(** The body of the loop of [updateGroups] over the advertised groups. *)
Definition addGroup (s : pollerGroupSnapshotStore) (v : Z)
    (groups : gmap string pollerGroupSnapshotEntry) (group : string * float32)
    : gmap string pollerGroupSnapshotEntry :=
  let groupID := group.1 in
  if decide (groupID = "") then groups
  else
    let key := match snap_groups (current s) !! groupID with
               | Some entry => entry_key entry
               | None => mkPollerGroupKey groupID v
               end in
    <[groupID := mkSnapshotEntry key group.2]> groups.

Definition store_updateGroups (info : option PollerGroupsInfo) (s : pollerGroupSnapshotStore)
    : pollerGroupSnapshotStore :=
  match info with
  | None => s
  | Some info =>
      if versionSet (current s) && bool_decide (info_Version info ≤ version (current s)) then s
      else
        mkSnapshotStore
          (mkSnapshot (foldl (addGroup s (info_Version info)) ∅ (info_PollerGroups info))
             (info_Version info) true)
          (S (changedCh s))
  end.

(** ** The manager *)

Abbreviation PM := (Go pollerGroupManager).

Definition newPollerGroupManager (s : pollerGroupSnapshotStore) : pollerGroupManager :=
  mkPollerGroupManager s ∅.

Definition pgm_requiredMin (m : pollerGroupManager) : nat := store_len (groupStore m).

Definition pgm_updateGroups (info : option PollerGroupsInfo) : PM unit :=
  modify (λ m, mkPollerGroupManager (store_updateGroups info (groupStore m)) (pgm_groups m)).

(** The first loop replaces the state of a group whose key changed; the second
    deletes the groups that are gone. *)
Definition syncGroup (old : option pollerGroupState) (entry : pollerGroupSnapshotEntry)
    : pollerGroupState :=
  match old with
  | Some group => if decide (pgs_key group = entry_key entry) then group
                  else mkPollerGroupState (entry_key entry) 0
  | None => mkPollerGroupState (entry_key entry) 0
  end.

Definition pgm_syncGroupsLocked : PM pollerGroupSnapshot :=
  m ← get;
  let snap := snapshot (groupStore m) in
  modify (λ m, mkPollerGroupManager (groupStore m)
    (map_imap (λ groupID entry, Some (syncGroup (pgm_groups m !! groupID) entry)) (snap_groups snap)));;
  mret snap.

(** [candidates[groupID] = groups[groupID]]: the zero entry for an id that is
    not in the snapshot. *)
Definition zeroEntry : pollerGroupSnapshotEntry := mkSnapshotEntry noGroup f32_zero.

Definition pgm_coverageCandidates (groups : gmap string pollerGroupSnapshotEntry)
    (m : pollerGroupManager) : gmap string pollerGroupSnapshotEntry :=
  map_imap (λ groupID group, if decide (pendingPollCount group = 0)
                             then Some (default zeroEntry (groups !! groupID)) else None) (pgm_groups m).

Definition pgm_reserveCandidate (ch : choices) (candidates : gmap string pollerGroupSnapshotEntry)
    : PM (option pollerGroupState) :=
  let groupID := choosePollerGroup ch candidates in
  if decide (groupID = "") then mret None
  else
    m ← get;
    match pgm_groups m !! groupID with
    | None => panic (runtimeError "invalid memory address or nil pointer dereference")
    | Some group =>
        let group' := mkPollerGroupState (pgs_key group) (pendingPollCount group + 1) in
        modify (λ m, mkPollerGroupManager (groupStore m) (<[groupID := group']> (pgm_groups m)));;
        mret (Some group')
    end.

Definition reserveGroup (ch : choices) : PM (option pollerGroupState) :=
  snap ← pgm_syncGroupsLocked;
  m ← get;
  let candidates := pgm_coverageCandidates (snap_groups snap) m in
  pgm_reserveCandidate ch (if decide (size candidates = 0%nat) then snap_groups snap else candidates).

Definition pgm_lease (group : option pollerGroupState) : pollerGroupLease :=
  match group with
  | None => mkLease noGroup TASK_QUEUE_KIND_UNSPECIFIED
  | Some group => mkLease (pgs_key group) TASK_QUEUE_KIND_UNSPECIFIED
  end.

Definition reserve (ch : choices) : PM pollerGroupLease :=
  group ← reserveGroup ch;
  mret (pgm_lease group).

Definition tryReserveRequired (ch : choices) : PM (option pollerGroupLease) :=
  snap ← pgm_syncGroupsLocked;
  m ← get;
  group ← pgm_reserveCandidate ch (pgm_coverageCandidates (snap_groups snap) m);
  match group with
  | None => mret None
  | Some _ => mret (Some (pgm_lease group))
  end.

Definition groupIDOrEmpty (l : pollerGroupLease) : string := pgk_id (lease_group l).

Definition pgm_releaseReservation (lease : pollerGroupLease) : PM unit :=
  if decide (pgk_id (lease_group lease) = "") then mret tt
  else
    m ← get;
    match pgm_groups m !! pgk_id (lease_group lease) with
    | Some group =>
        if bool_decide (pgs_key group = lease_group lease) && bool_decide (0 < pendingPollCount group)
        then modify (λ m, mkPollerGroupManager (groupStore m)
               (<[pgk_id (lease_group lease) :=
                    mkPollerGroupState (pgs_key group) (pendingPollCount group - 1)]> (pgm_groups m)))
        else mret tt
    | None => mret tt
    end.
