(* ===== verification/PollerGroupsFacts.v ===== *)
(** * Poller groups: leases are counted and every group is covered. *)

From stdpp Require Import base list gmap strings.
From Stdlib Require Import SpecFloat.
From S2P Require Import Prelude Floats PollerGroups.
Open Scope Z_scope.

(** ** The weighted choice *)

Lemma f32_positive_not_le w : f32_lt f32_zero w = true → f32_le w f32_zero = false.
Proof. by destruct w as [[]|[]| |[] ? ?]. Qed.

Lemma addWeight_none l total :
  (∀ g, g ∈ l → f32_lt f32_zero (weight g.2) = false) → foldl addWeight total l = total.
Proof.
  revert total. induction l as [|g l IH]; intros total H; [done|]. simpl.
  unfold addWeight at 2. rewrite (H g) by by left. apply IH. intros g' ?. apply H. by right.
Qed.

(** A positive total comes from a positive weight. *)
Lemma total_positive l :
  f32_le (foldl addWeight f32_zero l) f32_zero = false →
  ∃ g, g ∈ l ∧ f32_lt f32_zero (weight g.2) = true.
Proof.
  intros H. destruct (decide (Exists (λ g, Is_true (f32_lt f32_zero (weight g.2))) l)) as [He|Hn].
  - apply Exists_exists in He as (g & Hg & Hp). exists g. split; [done|]. by apply Is_true_true.
  - rewrite addWeight_none in H; [done|]. intros g Hg. apply not_true_is_false. intros Ht.
    apply Hn, Exists_exists. exists g. split; [done|]. by apply Is_true_true.
Qed.

Lemma pickNth_elem l n : (n < length l)%nat → ∃ e, (pickNth l n, e) ∈ l.
Proof.
  revert n. induction l as [|[i e] l IH]; intros n Hn; simpl in *; [lia|].
  destruct n as [|n]; [exists e; by left|]. destruct (IH n ltac:(lia)) as [e' He]. exists e'. by right.
Qed.

Lemma walkWeights_elem l p last :
  walkWeights l p last = last ∨
  ∃ e, (walkWeights l p last, e) ∈ l ∧ f32_le (weight e) f32_zero = false.
Proof.
  revert p last. induction l as [|[i e] l IH]; intros p last; simpl; [by left|].
  destruct (f32_le (weight e) f32_zero) eqn:Hle.
  - destruct (IH p last) as [?|(e' & ? & ?)]; [by left|right; exists e'; split; [by right|done]].
  - destruct (f32_lt p (weight e)); [right; exists e; split; [by left|done]|].
    destruct (IH (f32_sub p (weight e)) i) as [->|(e' & ? & ?)].
    + right. exists e. split; [by left|done].
    + right. exists e'. split; [by right|done].
Qed.

(** Once a weight is not below zero the walk ends at a group. *)
Lemma walkWeights_found l p last :
  (∃ g, g ∈ l ∧ f32_le (weight g.2) f32_zero = false) →
  ∃ e, (walkWeights l p last, e) ∈ l ∧ f32_le (weight e) f32_zero = false.
Proof.
  revert p last. induction l as [|[i e] l IH]; intros p last (g & Hg & Hw); [by apply not_elem_of_nil in Hg|].
  simpl. destruct (f32_le (weight e) f32_zero) eqn:Hle.
  - destruct (IH p last) as (e' & ? & ?); [|exists e'; split; [by right|done]].
    apply elem_of_cons in Hg as [->|Hg]; [simpl in Hw; congruence|eauto].
  - destruct (f32_lt p (weight e)); [exists e; split; [by left|done]|].
    destruct (walkWeights_elem l (f32_sub p (weight e)) i) as [->|(e' & ? & ?)].
    + exists e. split; [by left|done].
    + exists e'. split; [by right|done].
Qed.

Section Choice.
Context (ch : choices) {Hch : Choices ch}.

Lemma elem_of_rangeGroups g i e : (i, e) ∈ rangeGroups ch g ↔ g !! i = Some e.
Proof. by rewrite rangeGroups_perm, elem_of_map_to_list. Qed.

Lemma elem_of_rangeWeights g i e : (i, e) ∈ rangeWeights ch g ↔ g !! i = Some e.
Proof. by rewrite rangeWeights_perm, elem_of_map_to_list. Qed.

Lemma choosePollerGroup_empty : choosePollerGroup ch ∅ = "".
Proof. done. Qed.

(** A group is chosen whenever there is one. *)
Lemma choosePollerGroup_elem groups :
  groups ≠ ∅ → ∃ e, groups !! choosePollerGroup ch groups = Some e.
Proof.
  intros Hne. unfold choosePollerGroup. rewrite decide_False by (by rewrite map_size_empty_iff).
  destruct (f32_le _ _) eqn:Hle.
  - destruct (pickNth_elem (rangeGroups ch groups) (rand_Intn ch (size groups))) as [e He].
    + rewrite rangeGroups_perm, length_map_to_list. apply rand_Intn_lt.
      assert (size groups ≠ 0%nat) by (by rewrite map_size_empty_iff). lia.
    + exists e. by apply elem_of_rangeGroups.
  - apply total_positive in Hle as ([i e] & Hg & Hp).
    destruct (walkWeights_found (rangeGroups ch groups)
                (f32_mul (rand_Float32 ch) (foldl addWeight f32_zero (rangeWeights ch groups))) "")
      as (e' & He & _).
    + exists (i, e). split; [|by apply f32_positive_not_le].
      by apply elem_of_rangeGroups, elem_of_rangeWeights.
    + exists e'. by apply elem_of_rangeGroups.
Qed.

(** A group of weight zero or less is chosen only when no weight is positive. *)
Lemma choosePollerGroup_positive groups i e :
  groups !! i = Some e →
  f32_le (foldl addWeight f32_zero (rangeWeights ch groups)) f32_zero = false →
  ∃ e', groups !! choosePollerGroup ch groups = Some e' ∧ f32_le (weight e') f32_zero = false.
Proof.
  intros Hi Hle. unfold choosePollerGroup.
  assert (groups ≠ ∅) as Hne by (intros ->; by rewrite lookup_empty in Hi).
  rewrite decide_False, Hle by (by rewrite map_size_empty_iff).
  apply total_positive in Hle as ([j ej] & Hg & Hp).
  destruct (walkWeights_found (rangeGroups ch groups)
              (f32_mul (rand_Float32 ch) (foldl addWeight f32_zero (rangeWeights ch groups))) "")
    as (e' & He & Hw).
  - exists (j, ej). split; [|by apply f32_positive_not_le].
    by apply elem_of_rangeGroups, elem_of_rangeWeights.
  - exists e'. by rewrite <- elem_of_rangeGroups.
Qed.
End Choice.

(** ** The store: keys are never reused *)

(** The key of a group of the current snapshot. *)
Definition live (s : pollerGroupSnapshotStore) (k : pollerGroupKey) : Prop :=
  ∃ e, snap_groups (current s) !! pgk_id k = Some e ∧ entry_key e = k.

(** The key was current in this or an earlier snapshot. *)
Definition seen (s : pollerGroupSnapshotStore) (k : pollerGroupKey) : Prop :=
  pgk_id k ≠ "" ∧ versionSet (current s) = true ∧ incarnation k ≤ version (current s).

Definition store_wf (s : pollerGroupSnapshotStore) : Prop :=
  ∀ i e, snap_groups (current s) !! i = Some e → pgk_id (entry_key e) = i ∧ seen s (entry_key e).

Lemma new_store_wf : store_wf newPollerGroupSnapshotStore.
Proof. intros i e Hi. simpl in Hi. by rewrite lookup_empty in Hi. Qed.

Lemma addGroups_lookup s v l : store_wf s → ∀ groups i e,
  foldl (addGroup s v) groups l !! i = Some e →
  groups !! i = Some e ∨
  pgk_id (entry_key e) = i ∧ (live s (entry_key e) ∨ entry_key e = mkPollerGroupKey i v ∧ i ≠ "").
Proof.
  intros Hwf. induction l as [|[j w] l IH]; intros groups i e He; [by left|]. simpl in He.
  destruct (IH _ _ _ He) as [H|H]; [|by right]. unfold addGroup in H. simpl in H.
  destruct (decide (j = "")) as [->|Hj]; [by left|].
  destruct (decide (i = j)) as [->|Hij]; [|rewrite lookup_insert_ne in H by done; by left].
  rewrite lookup_insert_eq in H. simplify_eq. right. simpl.
  destruct (snap_groups (current s) !! j) as [e0|] eqn:Hs; [|by auto].
  destruct (Hwf _ _ Hs) as [Hid _]. split; [done|]. left. exists e0. by rewrite Hid.
Qed.

(** The groups of an accepted snapshot: those that stay keep their key, the
    others are new lifetimes. *)
Lemma store_update_live info s k :
  store_wf s → live (store_updateGroups info s) k → live s k ∨ (¬ seen s k).
Proof.
  intros Hwf Hl. destruct info as [info|]; [|by left]. unfold store_updateGroups in Hl.
  destruct (_ && _) eqn:Hv; [by left|]. destruct Hl as (e & He & Hk). simpl in He.
  apply addGroups_lookup in He as [He|(Hi & [Hl|[Hke _]])]; [|..|done].
  - by rewrite lookup_empty in He.
  - rewrite Hk in Hl. by left.
  - right. intros (_ & Hs & Hle). rewrite <- Hk, Hke in Hle. simpl in Hle.
    rewrite Hs in Hv. simpl in Hv. apply bool_decide_eq_false in Hv. lia.
Qed.

Lemma store_update_seen info s k : seen s k → seen (store_updateGroups info s) k.
Proof.
  intros (Hi & Hs & Hle). destruct info as [info|]; [|done]. unfold store_updateGroups.
  destruct (_ && _) eqn:Hv; [done|]. rewrite Hs in Hv. simpl in Hv. apply bool_decide_eq_false in Hv.
  split; [done|]. simpl. split; [done|]. lia.
Qed.

Lemma store_update_wf info s : store_wf s → store_wf (store_updateGroups info s).
Proof.
  intros Hwf. destruct info as [info|]; [|done]. unfold store_updateGroups.
  destruct (_ && _) eqn:Hv; [done|]. intros i e He. simpl in He.
  apply addGroups_lookup in He as [He|(Hi & [(e0 & Hs & Hk)|[Hke ?]])]; [|..|done].
  - by rewrite lookup_empty in He.
  - destruct (Hwf _ _ Hs) as [_ Hseen]. rewrite Hk in Hseen. split; [done|].
    destruct Hseen as (? & Hset & Hle). rewrite Hset in Hv. simpl in Hv.
    apply bool_decide_eq_false in Hv. split; [done|]. simpl. split; [done|]. lia.
  - rewrite Hke. split; [done|]. split; [done|]. simpl. split; [done|]. lia.
Qed.

(** ** Tracking leases of group lifetimes

    The manager and the balancer both keep a state per group of the snapshot
    they saw last, and issue leases that carry the key of the group. [val] is
    what the state of a group counts, [expect k] what the leases for the key
    [k] that are out amount to; [ks] are the keys of those leases. *)

Section Tracking.
Context {G V : Type} (key : G → pollerGroupKey) (val : G → V) (zero : V).

Record tracks (s : pollerGroupSnapshotStore) (groups : gmap string G) (ks : list pollerGroupKey)
    (expect : pollerGroupKey → V) : Prop := {
  tr_store : store_wf s;
  tr_group i g : groups !! i = Some g →
    pgk_id (key g) = i ∧ seen s (key g) ∧ val g = expect (key g);
  (** A lease is ungrouped, or of a lifetime which is tracked if it is current. *)
  tr_lease k : k ∈ ks → k = noGroup ∨ seen s k ∧ (live s k → key <$> groups !! pgk_id k = Some k);
  tr_unheld k : k ∉ ks → expect k = zero;
}.

Lemma tracks_new s : store_wf s → tracks s ∅ [] (λ _, zero).
Proof.
  intros Hs. split; [done|..].
  - intros i g H. by rewrite lookup_empty in H.
  - intros k Hk. by apply not_elem_of_nil in Hk.
  - done.
Qed.

(** Reconciling keeps the state of a lifetime that goes on and starts the
    others afresh. *)
Lemma tracks_sync (f : option G → pollerGroupSnapshotEntry → G) s groups ks expect :
  (∀ old e, key (f old e) = entry_key e) →
  (∀ old e, old = Some (f old e) ∨ (key <$> old ≠ Some (entry_key e) ∧ val (f old e) = zero)) →
  tracks s groups ks expect →
  tracks s (map_imap (λ i e, Some (f (groups !! i) e)) (snap_groups (current s))) ks expect.
Proof.
  intros Hkey Hf Htr.
  assert (∀ i g, map_imap (λ i e, Some (f (groups !! i) e)) (snap_groups (current s)) !! i = Some g →
            ∃ e, snap_groups (current s) !! i = Some e ∧ g = f (groups !! i) e) as Hlook.
  { intros i g. rewrite map_lookup_imap. destruct (snap_groups _ !! i) as [e|]; [|done].
    simpl. intros [= <-]. by exists e. }
  split; [apply Htr| | |apply Htr].
  - intros i g (e & He & ->)%Hlook. destruct (tr_store _ _ _ _ Htr _ _ He) as [Hid Hseen].
    rewrite Hkey. split; [done|]. split; [done|]. destruct (Hf (groups !! i) e) as [Hold|[Hne ->]].
    + destruct (tr_group _ _ _ _ Htr _ _ Hold) as (_ & _ & ->). by rewrite Hkey.
    + symmetry. apply (tr_unheld _ _ _ _ Htr). intros Hin.
      destruct (tr_lease _ _ _ _ Htr _ Hin) as [Hno|[_ Hlive]].
      * rewrite Hno in Hseen. by destruct Hseen.
      * destruct Hne. rewrite <- Hid. apply Hlive. exists e. by rewrite Hid.
  - intros k Hk. destruct (tr_lease _ _ _ _ Htr _ Hk) as [?|[? _]]; [by left|right]. split; [done|].
    intros (e & He & Hek). rewrite map_lookup_imap, He. simpl. by rewrite Hkey, Hek.
Qed.

Lemma tracks_update info s groups ks expect :
  tracks s groups ks expect → tracks (store_updateGroups info s) groups ks expect.
Proof.
  intros Htr. split; [by apply store_update_wf, Htr| | |apply Htr].
  - intros i g Hg. destruct (tr_group _ _ _ _ Htr _ _ Hg) as (? & ? & ?).
    split_and!; [done|by apply store_update_seen|done].
  - intros k Hk. destruct (tr_lease _ _ _ _ Htr _ Hk) as [?|[Hseen Hl]]; [by left|right].
    split; [by apply store_update_seen|]. intros Hlive.
    apply store_update_live in Hlive as [?|?]; [by apply Hl|done|apply Htr].
Qed.

(** A lease of the group [i] is issued or returned. *)
Lemma tracks_change s groups ks expect i g g' ks' expect' :
  tracks s groups ks expect → groups !! i = Some g → key g' = key g → val g' = expect' (key g) →
  (∀ k, k ≠ key g → expect' k = expect k) →
  (∀ k, k ∈ ks' → k ∈ ks ∨ k = key g) → (∀ k, k ∉ ks' → expect' k = zero) →
  tracks s (<[i := g']> groups) ks' expect'.
Proof.
  intros Htr Hi Hk Hv Hoth Hks Hun. destruct (tr_group _ _ _ _ Htr _ _ Hi) as (Hid & Hseen & _).
  assert (∀ k, key <$> groups !! pgk_id k = Some k → key <$> <[i := g']> groups !! pgk_id k = Some k) as Hkeep.
  { intros k Hg. destruct (decide (i = pgk_id k)) as [->|]; [|by rewrite lookup_insert_ne].
    rewrite lookup_insert_eq. simpl. rewrite Hi in Hg. simpl in Hg. congruence. }
  split; [apply Htr| | |done].
  - intros j gj Hj. destruct (decide (i = j)) as [->|Hij].
    + rewrite lookup_insert_eq in Hj. injection Hj as <-. by rewrite Hk.
    + rewrite lookup_insert_ne in Hj by done. destruct (tr_group _ _ _ _ Htr _ _ Hj) as (Hidj & ? & ->).
      split_and!; [done..|]. rewrite Hoth; [done|]. intros Heq. apply Hij. rewrite <- Hid, <- Hidj. by rewrite Heq.
  - intros k Hkin. destruct (Hks _ Hkin) as [Hin| ->].
    + destruct (tr_lease _ _ _ _ Htr _ Hin) as [?|[??]]; [by left|right]. split; [done|]. auto.
    + right. split; [done|]. intros _. apply Hkeep. by rewrite Hid, Hi.
Qed.

(** A lease of a lifetime that is not tracked is issued or returned. *)
Lemma tracks_leases s groups ks expect ks' expect' :
  tracks s groups ks expect →
  (∀ i g, groups !! i = Some g → expect' (key g) = expect (key g)) →
  (∀ k, k ∈ ks' → k ∈ ks ∨ k = noGroup) → (∀ k, k ∉ ks' → expect' k = zero) →
  tracks s groups ks' expect'.
Proof.
  intros Htr Hexp Hks Hun. split; [apply Htr| | |done].
  - intros i g Hg. rewrite (Hexp _ _ Hg). by apply (tr_group _ _ _ _ Htr).
  - intros k Hk. destruct (Hks _ Hk) as [?| ->]; [by apply (tr_lease _ _ _ _ Htr)|by left].
Qed.

Lemma tracks_not_noGroup s groups ks expect i g :
  tracks s groups ks expect → groups !! i = Some g → i ≠ "".
Proof. intros Htr Hg. destruct (tr_group _ _ _ _ Htr _ _ Hg) as (<- & (? & _) & _). done. Qed.
End Tracking.

(** ** The manager: pending polls are the leases held *)

Definition held (ls : list pollerGroupLease) (k : pollerGroupKey) : Z :=
  Z.of_nat (length (filter (λ l, lease_group l = k) ls)).

Lemma held_cons l ls k : held (l :: ls) k = (if decide (lease_group l = k) then 1 else 0) + held ls k.
Proof. unfold held. rewrite filter_cons. case_decide; [rewrite length_cons|]; lia. Qed.

Lemma held_delete ls n l k :
  ls !! n = Some l → held (delete n ls) k = held ls k - (if decide (lease_group l = k) then 1 else 0).
Proof.
  intros Hn. rewrite <- (take_drop_middle _ _ _ Hn) at 2. rewrite delete_take_drop. unfold held.
  rewrite !filter_app, !length_app, filter_cons. case_decide; [rewrite length_cons|]; lia.
Qed.

Lemma held_nonneg ls k : 0 ≤ held ls k.
Proof. unfold held. lia. Qed.

Lemma held_none ls k : k ∉ lease_group <$> ls → held ls k = 0.
Proof.
  intros Hk. unfold held. rewrite filter_none; [done|]. intros l Hl Heq. apply Hk. subst k.
  by apply list_elem_of_fmap_2.
Qed.

Definition manager_inv (m : pollerGroupManager) (ls : list pollerGroupLease) : Prop :=
  tracks pgs_key pendingPollCount 0 (groupStore m) (pgm_groups m) (lease_group <$> ls) (held ls).

Lemma manager_inv_new s : store_wf s → manager_inv (newPollerGroupManager s) [].
Proof. exact (tracks_new pgs_key pendingPollCount 0 s). Qed.

Definition pgm_synced (m : pollerGroupManager) : pollerGroupManager :=
  mkPollerGroupManager (groupStore m)
    (map_imap (λ groupID entry, Some (syncGroup (pgm_groups m !! groupID) entry))
       (snap_groups (current (groupStore m)))).

Lemma pgm_syncGroupsLocked_run m :
  pgm_syncGroupsLocked m = (Returned (current (groupStore m)), pgm_synced m).
Proof. done. Qed.

Lemma pgm_synced_lookup m i :
  pgm_groups (pgm_synced m) !! i =
  (λ e, syncGroup (pgm_groups m !! i) e) <$> snap_groups (current (groupStore m)) !! i.
Proof.
  unfold pgm_synced. simpl. rewrite map_lookup_imap. by destruct (snap_groups _ !! i).
Qed.

Lemma syncGroup_key old e : pgs_key (syncGroup old e) = entry_key e.
Proof. destruct old as [g|]; [|done]. simpl. by case_decide. Qed.

Lemma manager_inv_sync m ls : manager_inv m ls → manager_inv (pgm_synced m) ls.
Proof.
  apply (tracks_sync pgs_key pendingPollCount 0 syncGroup); [apply syncGroup_key|].
  intros [g|] e; simpl; [case_decide; [by left|]|]; right; split; (done || congruence).
Qed.

Lemma reserveCandidate_run ch `{!Choices ch} m ls candidates :
  manager_inv m ls →
  (∀ i e, candidates !! i = Some e → is_Some (pgm_groups m !! i)) →
  candidates = ∅ ∧ pgm_reserveCandidate ch candidates m = (Returned None, m) ∨
  ∃ i g g' m', is_Some (candidates !! i) ∧ pgm_groups m !! i = Some g ∧ pgs_key g' = pgs_key g ∧
    pgm_reserveCandidate ch candidates m = (Returned (Some g'), m') ∧
    manager_inv m' (pgm_lease (Some g') :: ls).
Proof.
  intros Hinv Hsub. destruct (decide (candidates = ∅)) as [->|Hne]; [by left|right].
  destruct (choosePollerGroup_elem ch candidates Hne) as [e He].
  destruct (Hsub _ _ He) as [g Hg]. pose proof (tracks_not_noGroup _ _ _ _ _ _ _ _ _ Hinv Hg) as Hi.
  destruct (tr_group _ _ _ _ _ _ _ Hinv _ _ Hg) as (Hid & _ & Hn).
  exists (choosePollerGroup ch candidates), g, (mkPollerGroupState (pgs_key g) (pendingPollCount g + 1)).
  eexists. split; [by eexists|]. split; [done|]. split; [done|]. split.
  - unfold pgm_reserveCandidate. rewrite decide_False by done. unfold mbind, go_bind, get. simpl.
    by rewrite Hg.
  - eapply tracks_change; [apply Hinv|done|done|..]; simpl.
    + rewrite held_cons, decide_True by done. lia.
    + intros k Hk. rewrite held_cons, decide_False by (simpl; congruence). lia.
    + intros k [->|?]%elem_of_cons; auto.
    + intros k Hk. by apply (held_none (_ :: ls)).
Qed.

Lemma elem_of_delete_list {A} (l : list A) n x : x ∈ delete n l → x ∈ l.
Proof.
  rewrite delete_take_drop. intros [H|H]%elem_of_app; [by eapply subseteq_take|by eapply subseteq_drop].
Qed.

Lemma fmap_delete_list {A B} (f : A → B) (l : list A) n x :
  x ∈ f <$> delete n l → x ∈ f <$> l.
Proof. rewrite !list_elem_of_fmap. intros (y & -> & Hy). eauto using elem_of_delete_list. Qed.

Lemma release_run m ls n l :
  manager_inv m ls → ls !! n = Some l →
  ∃ m', pgm_releaseReservation l m = (Returned tt, m') ∧ manager_inv m' (delete n ls).
Proof.
  intros Hinv Hn.
  assert (∀ k, k ≠ lease_group l → held (delete n ls) k = held ls k) as Hother.
  { intros k Hk. rewrite (held_delete _ _ _ _ Hn), decide_False by congruence. lia. }
  assert ((∀ i g, pgm_groups m !! i = Some g → pgs_key g ≠ lease_group l) → manager_inv m (delete n ls)) as Hskip.
  { intros Hne. eapply tracks_leases; [apply Hinv|..].
    - intros i g Hg. by eapply Hother, Hne.
    - intros k Hk. left. by eapply fmap_delete_list.
    - apply held_none. }
  assert (∀ i g, pgm_groups m !! i = Some g → pgs_key g = lease_group l → i = pgk_id (lease_group l)) as Hat.
  { intros i g Hg <-. by destruct (tr_group _ _ _ _ _ _ _ Hinv _ _ Hg) as (-> & _). }
  unfold pgm_releaseReservation. case_decide as Hid.
  { exists m. split; [done|]. apply Hskip. intros i g Hg Hk. pose proof (Hat _ _ Hg Hk) as ->.
    by apply (tracks_not_noGroup _ _ _ _ _ _ _ _ _ Hinv Hg). }
  unfold mbind, go_bind, get. simpl. destruct (pgm_groups m !! pgk_id (lease_group l)) as [g|] eqn:Hg.
  2: { exists m. split; [done|]. apply Hskip. intros i g Hi Hk. pose proof (Hat _ _ Hi Hk) as ->. congruence. }
  destruct (tr_group _ _ _ _ _ _ _ Hinv _ _ Hg) as (_ & _ & Hpend).
  destruct (bool_decide (pgs_key g = lease_group l)) eqn:Hk; simpl.
  - apply bool_decide_eq_true in Hk. pose proof (held_delete _ _ _ (pgs_key g) Hn) as Hd.
    rewrite decide_True in Hd by done. pose proof (held_nonneg (delete n ls) (pgs_key g)).
    rewrite bool_decide_eq_true_2 by lia. eexists. split; [done|].
    eapply tracks_change; [apply Hinv|done|done|simpl; lia|..].
    + intros k Hne. apply Hother. congruence.
    + intros k Hin. left. by eapply fmap_delete_list.
    + apply held_none.
  - apply bool_decide_eq_false in Hk. exists m. split; [done|]. apply Hskip. intros i g' Hi Hk'.
    pose proof (Hat _ _ Hi Hk') as ->. congruence.
Qed.

(** ** Runs *)

(** The operations on a manager, with the leases that are out. *)
Inductive managerOp : Type :=
| opUpdateGroups (info : option PollerGroupsInfo)
| opReserve (ch : choices)
| opTryReserveRequired (ch : choices)
| opRelease (n : nat).

Definition managerOp_ok (op : managerOp) : Prop :=
  match op with
  | opReserve ch | opTryReserveRequired ch => Choices ch
  | _ => True
  end.

Definition onManager {A} (f : PM A) (use : A → list pollerGroupLease → list pollerGroupLease)
    : Go (pollerGroupManager * list pollerGroupLease) unit := λ st,
  match f st.1 with
  | (Returned a, m) => (Returned tt, (m, use a st.2))
  | (Panicked p, m) => (Panicked p, (m, st.2))
  end.

Definition managerStep (op : managerOp) : Go (pollerGroupManager * list pollerGroupLease) unit :=
  match op with
  | opUpdateGroups info => onManager (pgm_updateGroups info) (λ _ ls, ls)
  | opReserve ch => onManager (reserve ch) cons
  | opTryReserveRequired ch => onManager (tryReserveRequired ch) (λ l ls, option_list l ++ ls)
  | opRelease n =>
      st ← get;
      match st.2 !! n with
      | Some l => onManager (pgm_releaseReservation l) (λ _ ls, delete n ls)
      | None => mret tt
      end
  end.

Fixpoint managerRun (ops : list managerOp) : Go (pollerGroupManager * list pollerGroupLease) unit :=
  match ops with
  | [] => mret tt
  | op :: ops' => managerStep op;; managerRun ops'
  end.

Lemma coverageCandidates_lookup m i e :
  pgm_coverageCandidates (snap_groups (current (groupStore m))) m !! i = Some e →
  ∃ g, pgm_groups m !! i = Some g ∧ pendingPollCount g = 0.
Proof.
  unfold pgm_coverageCandidates. rewrite map_lookup_imap. intros H.
  destruct (pgm_groups m !! i) as [g|]; [|done]. simpl in H. case_decide; [|done]. by exists g.
Qed.

Lemma coverageCandidates_empty m :
  pgm_coverageCandidates (snap_groups (current (groupStore m))) m = ∅ ↔
  (∀ i g, pgm_groups m !! i = Some g → pendingPollCount g ≠ 0).
Proof.
  split.
  - intros H i g Hg Hz. assert (pgm_coverageCandidates (snap_groups (current (groupStore m))) m !! i = None)
      as Hn by (by rewrite H).
    unfold pgm_coverageCandidates in Hn. rewrite map_lookup_imap, Hg in Hn. simpl in Hn.
    by rewrite decide_True in Hn.
  - intros H. apply map_empty. intros i. unfold pgm_coverageCandidates. rewrite map_lookup_imap.
    destruct (pgm_groups m !! i) as [g|] eqn:Hg; [|done]. simpl. by rewrite decide_False by eauto.
Qed.

(** What [tryReserveRequired] does after reconciling: nothing when every group
    is covered, else it takes an uncovered one. *)
Lemma tryReserveRequired_run ch `{!Choices ch} m ls :
  manager_inv m ls →
  let m1 := pgm_synced m in
  (∀ i g, pgm_groups m1 !! i = Some g → pendingPollCount g ≠ 0) ∧
    tryReserveRequired ch m = (Returned None, m1) ∨
  ∃ i g l m', pgm_groups m1 !! i = Some g ∧ pendingPollCount g = 0 ∧ lease_group l = pgs_key g ∧
    tryReserveRequired ch m = (Returned (Some l), m') ∧ manager_inv m' (l :: ls).
Proof.
  intros Hinv m1. pose proof (manager_inv_sync _ _ Hinv) as Hinv1. fold m1 in Hinv1.
  unfold tryReserveRequired. rewrite (bind_returned _ _ _ _ _ (pgm_syncGroupsLocked_run m)). fold m1.
  rewrite (bind_returned get _ m1 m1 m1) by done.
  change (current (groupStore m)) with (current (groupStore m1)).
  destruct (reserveCandidate_run ch m1 ls _ Hinv1 (λ i e H,
      let '(ex_intro _ g (conj Hg _)) := coverageCandidates_lookup m1 i e H in mk_is_Some _ _ Hg))
    as [[He Hr]|(i & g & g' & m' & [e Hc] & Hg & Hk & Hr & Hinv')].
  - left. rewrite (bind_returned _ _ _ _ _ Hr). by rewrite <- coverageCandidates_empty.
  - right. apply coverageCandidates_lookup in Hc as (g0 & Hg0 & Hz). simplify_eq.
    exists i, g0, (pgm_lease (Some g')), m'. rewrite (bind_returned _ _ _ _ _ Hr). done.
Qed.

Lemma reserve_run ch `{!Choices ch} m ls :
  manager_inv m ls →
  ∃ l m', reserve ch m = (Returned l, m') ∧ manager_inv m' (l :: ls) ∧
    (snap_groups (current (groupStore m)) ≠ ∅ →
     live (groupStore m) (lease_group l) ∧
     (0 < held ls (lease_group l) → ∀ k, live (groupStore m) k → 0 < held ls k)).
Proof.
  intros Hinv. pose proof (manager_inv_sync _ _ Hinv) as Hinv1. set (m1 := pgm_synced m) in *.
  assert (∀ i g, pgm_groups m1 !! i = Some g → live (groupStore m) (pgs_key g)) as Hlive.
  { intros i g Hg. unfold m1 in Hg. rewrite pgm_synced_lookup in Hg.
    destruct (snap_groups _ !! i) as [e|] eqn:He; [|done]. simplify_eq/=. rewrite syncGroup_key.
    exists e. by destruct (tr_store _ _ _ _ _ _ _ Hinv _ _ He) as [-> _]. }
  set (cov := pgm_coverageCandidates (snap_groups (current (groupStore m1))) m1).
  set (cands := if decide (size cov = 0%nat) then snap_groups (current (groupStore m1)) else cov).
  assert (reserveGroup ch m = pgm_reserveCandidate ch cands m1) as Hrun.
  { unfold reserveGroup. by rewrite (bind_returned _ _ _ _ _ (pgm_syncGroupsLocked_run m)). }
  assert (∀ i e, cands !! i = Some e → is_Some (pgm_groups m1 !! i)) as Hsub.
  { intros i e. unfold cands. case_decide; intros He.
    - unfold m1. rewrite pgm_synced_lookup. simpl in He. rewrite He. by eexists.
    - apply coverageCandidates_lookup in He as (g & ? & _). by exists g. }
  destruct (reserveCandidate_run ch m1 ls cands Hinv1 Hsub) as [[He Hr]|(i & g & g' & m' & [e Hc] & Hg & Hk & Hr & Hinv')];
    unfold reserve; rewrite Hr in Hrun; rewrite (bind_returned _ _ _ _ _ Hrun);
    eexists _, _; (split; [done|]).
  - split; [eapply tracks_leases; [apply Hinv1|..]|].
    + intros j g Hg. rewrite held_cons, decide_False; [lia|]. simpl.
      destruct (tr_group _ _ _ _ _ _ _ Hinv1 _ _ Hg) as (_ & (Hid & _) & _). intros Hk. by rewrite <- Hk in Hid.
    + intros k [->|?]%elem_of_cons; auto.
    + intros k Hk. by apply (held_none (_ :: ls)).
    + intros Hne. unfold cands in He. case_decide as Hz; [done|]. by rewrite He in Hz.
  - split; [done|]. simpl. rewrite Hk. intros _. split; [by eapply Hlive|]. intros Hpos k (ek & Hek & Hkk).
    unfold cands in Hc. case_decide as Hz.
    + apply map_size_empty_iff in Hz. unfold cov in Hz. rewrite coverageCandidates_empty in Hz.
      assert (pgm_groups m1 !! pgk_id k = Some (syncGroup (pgm_groups m !! pgk_id k) ek)) as Hgk
        by (unfold m1; rewrite pgm_synced_lookup; by rewrite Hek).
      specialize (Hz _ _ Hgk). destruct (tr_group _ _ _ _ _ _ _ Hinv1 _ _ Hgk) as (_ & _ & Hp).
      rewrite syncGroup_key, Hkk in Hp. pose proof (held_nonneg ls k). lia.
    + apply coverageCandidates_lookup in Hc as (g0 & Hg0 & Hp0). simplify_eq.
      destruct (tr_group _ _ _ _ _ _ _ Hinv1 _ _ Hg0) as (_ & _ & Hp). lia.
Qed.

Lemma managerStep_inv op m ls :
  managerOp_ok op → manager_inv m ls →
  ∃ m' ls', managerStep op (m, ls) = (Returned tt, (m', ls')) ∧ manager_inv m' ls'.
Proof.
  intros Hok Hinv. destruct op as [info|ch|ch|n]; simpl in Hok.
  - eexists _, _. split; [done|]. by apply (tracks_update _ _ _ info).
  - destruct (reserve_run ch m ls Hinv) as (l & m' & Hr & Hinv' & _).
    exists m', (l :: ls). split; [|done]. unfold managerStep, onManager. simpl. by rewrite Hr.
  - destruct (tryReserveRequired_run ch m ls Hinv) as [[_ Hr]|(i & g & l & m' & _ & _ & _ & Hr & Hinv')].
    + exists (pgm_synced m), ls. split; [|by apply manager_inv_sync].
      unfold managerStep, onManager. simpl. by rewrite Hr.
    + exists m', (l :: ls). split; [|done]. unfold managerStep, onManager. simpl. by rewrite Hr.
  - unfold managerStep. rewrite (bind_returned get _ (m, ls) (m, ls) (m, ls)) by done. simpl.
    destruct (ls !! n) as [l|] eqn:Hn; [|by exists m, ls].
    destruct (release_run m ls n l Hinv Hn) as (m' & Hr & Hinv').
    exists m', (delete n ls). split; [|done]. unfold onManager. simpl. by rewrite Hr.
Qed.

Lemma managerRun_inv ops m ls :
  Forall managerOp_ok ops → manager_inv m ls →
  ∃ m' ls', managerRun ops (m, ls) = (Returned tt, (m', ls')) ∧ manager_inv m' ls'.
Proof.
  intros Hok. revert m ls. induction Hok as [|op ops Hop _ IH]; intros m ls Hinv; [by exists m, ls|].
  destruct (managerStep_inv op m ls Hop Hinv) as (m1 & ls1 & Hs & Hinv1).
  destruct (IH m1 ls1 Hinv1) as (m2 & ls2 & Hr & Hinv2).
  exists m2, ls2. split; [|done]. simpl. by rewrite (bind_returned _ _ _ _ _ Hs).
Qed.

Lemma tryReserveRequired_covered ch `{!Choices ch} m ls :
  manager_inv m ls →
  ∃ r m', tryReserveRequired ch m = (Returned r, m') ∧
    match r with
    | None => ∀ k, live (groupStore m) k → 0 < held ls k
    | Some l => live (groupStore m) (lease_group l) ∧ held ls (lease_group l) = 0
    end.
Proof.
  intros Hinv. pose proof (manager_inv_sync _ _ Hinv) as Hinv1.
  destruct (tryReserveRequired_run ch m ls Hinv) as [[Hall Hr]|(i & g & l & m' & Hg & Hz & Hk & Hr & _)];
    eexists _, _; (split; [done|]).
  - intros k (e & He & Hke).
    assert (pgm_groups (pgm_synced m) !! pgk_id k = Some (syncGroup (pgm_groups m !! pgk_id k) e)) as Hg
      by (rewrite pgm_synced_lookup; by rewrite He).
    specialize (Hall _ _ Hg). destruct (tr_group _ _ _ _ _ _ _ Hinv1 _ _ Hg) as (_ & _ & Hp).
    rewrite syncGroup_key, Hke in Hp. pose proof (held_nonneg ls k). lia.
  - destruct (tr_group _ _ _ _ _ _ _ Hinv1 _ _ Hg) as (_ & _ & Hp). rewrite Hk. split; [|lia].
    rewrite pgm_synced_lookup in Hg. destruct (snap_groups _ !! i) as [e|] eqn:He; [|done]. simplify_eq/=.
    rewrite syncGroup_key. exists e. by destruct (tr_store _ _ _ _ _ _ _ Hinv _ _ He) as [-> _].
Qed.

(** C34. Whatever snapshots arrive and whatever polls are reserved and
    released, a manager never fails and counts, for every group lifetime it
    tracks, exactly the leases that are out for it: a lease of a group that was
    removed and came back counts for the old lifetime only.
    [tryReserveRequired] reserves a group without a poll, and reserves nothing
    exactly when every group of the latest snapshot has one; [reserve] picks a
    group that has a poll already only when all have one. *)
Theorem poller_groups_covered (ops : list managerOp) (ch : choices) :
  Forall managerOp_ok ops → Choices ch →
  ∃ m ls, managerRun ops (newPollerGroupManager newPollerGroupSnapshotStore, []) = (Returned tt, (m, ls)) ∧
    (∀ i g, pgm_groups m !! i = Some g → pendingPollCount g = held ls (pgs_key g)) ∧
    (∃ r m', tryReserveRequired ch m = (Returned r, m') ∧
       match r with
       | None => ∀ k, live (groupStore m) k → 0 < held ls k
       | Some l => live (groupStore m) (lease_group l) ∧ held ls (lease_group l) = 0
       end) ∧
    (∃ l m', reserve ch m = (Returned l, m') ∧
       (snap_groups (current (groupStore m)) ≠ ∅ →
        live (groupStore m) (lease_group l) ∧
        (0 < held ls (lease_group l) → ∀ k, live (groupStore m) k → 0 < held ls k))).
Proof.
  intros Hops Hch.
  destruct (managerRun_inv ops _ [] Hops (manager_inv_new _ new_store_wf)) as (m & ls & Hr & Hinv).
  exists m, ls. split; [done|]. split; [|split].
  - intros i g Hg. by destruct (tr_group _ _ _ _ _ _ _ Hinv _ _ Hg) as (_ & _ & ?).
  - by apply tryReserveRequired_covered.
  - destruct (reserve_run ch m ls Hinv) as (l & m' & ? & _ & ?). by exists l, m'.
Qed.

(** The order of the map's own enumeration and the smallest random numbers. *)
Definition firstChoices : choices := mkChoices map_to_list map_to_list (λ _, 0%nat) f32_zero.

#[export] Instance firstChoices_ok : Choices firstChoices.
Proof. by split. Qed.

(** Two groups, one of them removed while its poll is out, and back again. *)
Lemma poller_groups_covered_witness :
  ∃ m ls, managerRun
    [opUpdateGroups (Some (mkPollerGroupsInfo 1 [("a", S754_finite false 8388608 (-23))]));
     opReserve firstChoices;
     opUpdateGroups (Some (mkPollerGroupsInfo 2 [("b", f32_zero)]));
     opTryReserveRequired firstChoices;
     opUpdateGroups (Some (mkPollerGroupsInfo 3 [("a", f32_zero); ("b", f32_zero)]));
     opRelease 1]
    (newPollerGroupManager newPollerGroupSnapshotStore, []) = (Returned tt, (m, ls)) ∧
  ∀ i g, pgm_groups m !! i = Some g → pendingPollCount g = held ls (pgs_key g).
Proof.
  destruct (poller_groups_covered
    [opUpdateGroups (Some (mkPollerGroupsInfo 1 [("a", S754_finite false 8388608 (-23))]));
     opReserve firstChoices;
     opUpdateGroups (Some (mkPollerGroupsInfo 2 [("b", f32_zero)]));
     opTryReserveRequired firstChoices;
     opUpdateGroups (Some (mkPollerGroupsInfo 3 [("a", f32_zero); ("b", f32_zero)]));
     opRelease 1] firstChoices) as (m & ls & Hr & Hc & _).
  - repeat (apply Forall_cons_2; [first [exact firstChoices_ok | exact I]|]). apply Forall_nil_2.
  - exact firstChoices_ok.
  - exists m, ls. split; [exact Hr|exact Hc].
Defined.
