(* ===== verification/Balancer.v ===== *)
(** * The balancer of workflow polls
      ([src/internal/internal_workflow_autoscaling_balancer.go]).

    Normal and sticky polls of a workflow worker share its task slots. The
    balancer decides which kind of poll may start next, and on which poller
    group. A method that holds the mutex is one atomic step; the two methods
    that wait are given by one pass of their loop, which either returns or
    blocks on the channels it has read. *)

From stdpp Require Import base list gmap strings.
From S2P Require Import Prelude Floats PollerGroups.
Open Scope Z_scope.

(** ** Data *)

Definition minMeaningfulStickyBacklog : Z := 2.
Definition invalidAdmissionKindMessage : string :=
  "workflow poll admission requires a normal or sticky queue kind".

Record workflowKindCounts : Type := mkKindCounts {
  normal : Z;
  sticky : Z;
}.

#[export] Instance workflowKindCounts_eq_dec : EqDecision workflowKindCounts.
Proof. solve_decision. Defined.

Record workflowGroupState : Type := mkWorkflowGroupState {
  wgs_key : pollerGroupKey;
  wgs_reservations : workflowKindCounts;
  stickyBacklog : Z;
}.

(** [wakeCh] is numbered like [changedCh] of the store. *)
Record workflowAutoscalingBalancer : Type := mkBalancer {
  maxSlots : Z;
  reservations : workflowKindCounts;
  active : workflowKindCounts;
  stickyTarget : Z;
  wakeCh : nat;
  wab_groupStore : option pollerGroupSnapshotStore;
  ungroupedStickyBacklog : Z;
  wab_groups : gmap string workflowGroupState;
}.

Record workflowGroupCandidates : Type := mkGroupCandidates {
  wgc_groups : gmap string pollerGroupSnapshotEntry;
  coverageRequired : bool;
}.

Abbreviation BM := (Go workflowAutoscalingBalancer).

Definition newWorkflowAutoscalingBalancer (slots target : Z)
    (store : option pollerGroupSnapshotStore) : workflowAutoscalingBalancer :=
  mkBalancer slots (mkKindCounts 0 0) (mkKindCounts 0 0) target 0 store 0 ∅.

(** Field updates. *)
Definition set_reservations (r : workflowKindCounts) (a : workflowAutoscalingBalancer) :=
  mkBalancer (maxSlots a) r (active a) (stickyTarget a) (wakeCh a) (wab_groupStore a)
    (ungroupedStickyBacklog a) (wab_groups a).
Definition set_active (r : workflowKindCounts) (a : workflowAutoscalingBalancer) :=
  mkBalancer (maxSlots a) (reservations a) r (stickyTarget a) (wakeCh a) (wab_groupStore a)
    (ungroupedStickyBacklog a) (wab_groups a).
Definition set_groups (backlog : Z) (g : gmap string workflowGroupState)
    (a : workflowAutoscalingBalancer) :=
  mkBalancer (maxSlots a) (reservations a) (active a) (stickyTarget a) (wakeCh a)
    (wab_groupStore a) backlog g.
Definition set_store (s : option pollerGroupSnapshotStore) (a : workflowAutoscalingBalancer) :=
  mkBalancer (maxSlots a) (reservations a) (active a) (stickyTarget a) (wakeCh a) s
    (ungroupedStickyBacklog a) (wab_groups a).

(** ** Counts *)

Definition forKind (r : workflowKindCounts) (kind : TaskQueueKind) : Z :=
  if decide (kind = TASK_QUEUE_KIND_STICKY) then sticky r else normal r.

Definition change {S} (kind : TaskQueueKind) (n : Z) (r : workflowKindCounts) : Go S workflowKindCounts :=
  if decide (kind = TASK_QUEUE_KIND_STICKY) then mret (mkKindCounts (normal r) (sticky r + n))
  else if decide (kind ≠ TASK_QUEUE_KIND_NORMAL) then panic (panicString invalidAdmissionKindMessage)
  else mret (mkKindCounts (normal r + n) (sticky r)).

Definition total (r : workflowKindCounts) : Z := normal r + sticky r.

Definition hasFiniteCapacity (a : workflowAutoscalingBalancer) : bool := bool_decide (0 < maxSlots a).

Definition validAdmissionKind (kind : TaskQueueKind) : bool :=
  bool_decide (kind = TASK_QUEUE_KIND_NORMAL) || bool_decide (kind = TASK_QUEUE_KIND_STICKY).

Definition otherQueueKind (kind : TaskQueueKind) : TaskQueueKind :=
  if decide (kind = TASK_QUEUE_KIND_STICKY) then TASK_QUEUE_KIND_NORMAL else TASK_QUEUE_KIND_STICKY.

Definition wakeWaiters : BM unit :=
  modify (λ a, mkBalancer (maxSlots a) (reservations a) (active a) (stickyTarget a) (S (wakeCh a))
                 (wab_groupStore a) (ungroupedStickyBacklog a) (wab_groups a)).

(** ** Reconciliation with the store *)

Definition wab_syncGroup (old : option workflowGroupState) (entry : pollerGroupSnapshotEntry)
    : workflowGroupState :=
  match old with
  | Some group => if decide (wgs_key group = entry_key entry) then group
                  else mkWorkflowGroupState (entry_key entry) (mkKindCounts 0 0) 0
  | None => mkWorkflowGroupState (entry_key entry) (mkKindCounts 0 0) 0
  end.

(** [syncGroupsLocked] of a balancer whose store is [s]. *)
Definition wab_synced (s : pollerGroupSnapshotStore) (a : workflowAutoscalingBalancer) :=
  set_groups (if decide (snap_groups (current s) = ∅) then ungroupedStickyBacklog a else 0)
    (map_imap (λ groupID entry, Some (wab_syncGroup (wab_groups a !! groupID) entry))
       (snap_groups (current s))) a.

Definition wab_syncGroupsLocked : BM (pollerGroupSnapshot * nat) :=
  a ← get;
  match wab_groupStore a with
  | None => panic (runtimeError "invalid memory address or nil pointer dereference")
  | Some s => modify (wab_synced s);; mret (observe s)
  end.

(** The first lines of both waiting loops: the snapshot, empty without a store,
    and the channel to watch, nil without one. *)
Definition readGroups : BM (gmap string pollerGroupSnapshotEntry * option nat) :=
  a ← get;
  match wab_groupStore a with
  | None => mret (∅, None)
  | Some _ =>
      r ← wab_syncGroupsLocked;
      mret (snap_groups r.1, Some r.2)
  end.

(** ** Which groups a kind of poll may target *)

Definition wab_coverageCandidates (kind : TaskQueueKind)
    (groups : gmap string pollerGroupSnapshotEntry) (a : workflowAutoscalingBalancer)
    : gmap string pollerGroupSnapshotEntry :=
  map_imap (λ groupID group, if decide (forKind (wgs_reservations group) kind = 0)
                             then Some (default zeroEntry (groups !! groupID)) else None) (wab_groups a).

Definition stickyCandidates (groups : gmap string pollerGroupSnapshotEntry)
    (a : workflowAutoscalingBalancer) : gmap string pollerGroupSnapshotEntry :=
  map_imap (λ groupID group,
    if bool_decide (minMeaningfulStickyBacklog ≤ stickyBacklog group)
       && bool_decide (sticky (wgs_reservations group) < stickyBacklog group)
    then Some (default zeroEntry (groups !! groupID)) else None) (wab_groups a).

Definition stickyCanGrow (a : workflowAutoscalingBalancer) : bool :=
  bool_decide (sticky (reservations a) < stickyTarget a).

(** [None] when the kind has to wait. *)
Definition eligibleGroups (kind : TaskQueueKind) (groups : gmap string pollerGroupSnapshotEntry)
    (a : workflowAutoscalingBalancer) : option workflowGroupCandidates :=
  if decide (groups = ∅) then Some (mkGroupCandidates ∅ false)
  else
    let other := otherQueueKind kind in
    let missing := wab_coverageCandidates kind groups a in
    let otherMissing := wab_coverageCandidates other groups a in
    if decide (missing ≠ ∅) then
      if bool_decide (otherMissing ≠ ∅)
         && bool_decide (forKind (reservations a) other < forKind (reservations a) kind)
      then None
      else Some (mkGroupCandidates missing true)
    else if decide (otherMissing ≠ ∅) then None
    else
      let stickies := stickyCandidates groups a in
      if decide (kind = TASK_QUEUE_KIND_STICKY) then
        if bool_decide (stickies = ∅) || negb (stickyCanGrow a) then None
        else Some (mkGroupCandidates stickies false)
      else if bool_decide (stickies ≠ ∅) && stickyCanGrow a then None
      else Some (mkGroupCandidates groups false).

Definition needsMoreStickyPolls (a : workflowAutoscalingBalancer) : bool :=
  bool_decide (minMeaningfulStickyBacklog ≤ ungroupedStickyBacklog a)
  && bool_decide (sticky (reservations a) < ungroupedStickyBacklog a)
  && bool_decide (sticky (reservations a) < stickyTarget a).

Definition hasFreeSlot (a : workflowAutoscalingBalancer) : bool :=
  negb (hasFiniteCapacity a) || bool_decide (total (active a) < maxSlots a).

Definition canPollKind (kind : TaskQueueKind) (a : workflowAutoscalingBalancer) : bool :=
  match kind with
  | TASK_QUEUE_KIND_NORMAL =>
      if decide (normal (active a) = 0) then true
      else if bool_decide (sticky (active a) = 0)
              && (negb (hasFiniteCapacity a) || bool_decide (maxSlots a ≤ normal (active a) + 1)) then false
      else if needsMoreStickyPolls a then false
      else hasFreeSlot a
  | TASK_QUEUE_KIND_STICKY =>
      if decide (sticky (active a) = 0) then true
      else if bool_decide (normal (active a) = 0)
              && (negb (hasFiniteCapacity a) || bool_decide (maxSlots a ≤ sticky (active a) + 1)) then false
      else if bool_decide (stickyTarget a ≤ sticky (reservations a)) then false
      else if needsMoreStickyPolls a then true
      else hasFreeSlot a
  | TASK_QUEUE_KIND_UNSPECIFIED => false
  end.

Definition canTakeTurn (kind : TaskQueueKind) (groups : gmap string pollerGroupSnapshotEntry)
    (a : workflowAutoscalingBalancer) : bool :=
  match eligibleGroups kind groups a with
  | None => false
  | Some candidates => if coverageRequired candidates then true else canPollKind kind a
  end.

(** ** Waiting for a turn and acquiring a lease *)

(** [inr None]: the loop returns; [inr (Some _)]: it blocks until one of the
    two channels is closed. *)
Definition waitForPollTurn_pass (kind : TaskQueueKind) : BM (string + option (nat * option nat)) :=
  if negb (validAdmissionKind kind) then mret (inl invalidAdmissionKindMessage)
  else
    r ← readGroups;
    a ← get;
    if canTakeTurn kind r.1 a then mret (inr None)
    else mret (inr (Some (wakeCh a, r.2))).

Definition wab_reserveCandidate (ch : choices) (kind : TaskQueueKind)
    (candidates : gmap string pollerGroupSnapshotEntry) : BM pollerGroupLease :=
  let groupID := choosePollerGroup ch candidates in
  a ← get;
  match wab_groups a !! groupID with
  | None => panic (runtimeError "invalid memory address or nil pointer dereference")
  | Some group =>
      r ← change kind 1 (wgs_reservations group);
      modify (λ a, set_groups (ungroupedStickyBacklog a)
        (<[groupID := mkWorkflowGroupState (wgs_key group) r (stickyBacklog group)]> (wab_groups a)) a);;
      rs ← change kind 1 (reservations a);
      modify (set_reservations rs);;
      wakeWaiters;;
      mret (mkLease (wgs_key group) kind)
  end.

Definition tryAcquireLocked (ch : choices) (kind : TaskQueueKind)
    (groups : gmap string pollerGroupSnapshotEntry) : BM (option pollerGroupLease) :=
  a ← get;
  match eligibleGroups kind groups a with
  | None => mret None
  | Some candidates =>
      if decide (groups = ∅) then
        rs ← change kind 1 (reservations a);
        modify (set_reservations rs);;
        wakeWaiters;;
        mret (Some (mkLease noGroup kind))
      else
        l ← wab_reserveCandidate ch kind (wgc_groups candidates);
        mret (Some l)
  end.

Definition acquire_pass (ch : choices) (kind : TaskQueueKind)
    : BM (string + (pollerGroupLease + nat * option nat)) :=
  if negb (validAdmissionKind kind) then mret (inl invalidAdmissionKindMessage)
  else
    r ← readGroups;
    l ← tryAcquireLocked ch kind r.1;
    match l with
    | Some l => mret (inr (inl l))
    | None => a ← get; mret (inr (inr (wakeCh a, r.2)))
    end.

(** ** The other operations *)

Definition wab_requiredMin (a : workflowAutoscalingBalancer) : nat :=
  match wab_groupStore a with None => 0 | Some s => store_len s end.

Definition hasCoverageGap (kind : TaskQueueKind) : BM bool :=
  a ← get;
  match wab_groupStore a with
  | None => mret false
  | Some _ =>
      r ← wab_syncGroupsLocked;
      a ← get;
      mret (bool_decide (wab_coverageCandidates kind (snap_groups r.1) a ≠ ∅))
  end.

Definition setStickyBacklogLocked (backlog : Z) : BM unit :=
  a ← get;
  if decide (backlog = ungroupedStickyBacklog a) then mret tt
  else modify (λ a, set_groups backlog (wab_groups a) a);; wakeWaiters.

Definition setStickyBacklog (backlog : Z) : BM unit := setStickyBacklogLocked (Z.max backlog 0).

Definition setStickyGroupBacklog (groupID : string) (backlog : Z) : BM unit :=
  let backlog := Z.max backlog 0 in
  a ← get;
  match wab_groupStore a with
  | None => mret tt
  | Some _ =>
      r ← wab_syncGroupsLocked;
      if decide (snap_groups r.1 = ∅) then
        if decide (groupID = "") then setStickyBacklogLocked backlog else mret tt
      else
        a ← get;
        match wab_groups a !! groupID with
        | Some group =>
            if decide (stickyBacklog group = backlog) then mret tt
            else
              modify (λ a, set_groups (ungroupedStickyBacklog a)
                (<[groupID := mkWorkflowGroupState (wgs_key group) (wgs_reservations group) backlog]>
                   (wab_groups a)) a);;
              wakeWaiters
        | None => mret tt
        end
  end.

Definition wab_start (kind : TaskQueueKind) : BM unit :=
  a ← get;
  r ← change kind 1 (active a);
  modify (set_active r);;
  wakeWaiters.

Definition releaseReservationLocked (lease : pollerGroupLease) : BM unit :=
  let kind := lease_kind lease in
  a ← get;
  (match (if decide (pgk_id (lease_group lease) = "") then None
          else wab_groups a !! pgk_id (lease_group lease)) with
   | Some group =>
       if bool_decide (wgs_key group = lease_group lease)
          && bool_decide (0 < forKind (wgs_reservations group) kind) then
         r ← change kind (-1) (wgs_reservations group);
         modify (λ a, set_groups (ungroupedStickyBacklog a)
           (<[pgk_id (lease_group lease) :=
                mkWorkflowGroupState (wgs_key group) r (stickyBacklog group)]> (wab_groups a)) a)
       else mret tt
   | None => mret tt
   end);;
  a ← get;
  if decide (0 < forKind (reservations a) kind) then
    rs ← change kind (-1) (reservations a);
    modify (set_reservations rs)
  else mret tt.

Definition releaseActivePoll (lease : pollerGroupLease) : BM unit :=
  a ← get;
  r ← change (lease_kind lease) (-1) (active a);
  modify (set_active r);;
  releaseReservationLocked lease;;
  wakeWaiters.

Definition wab_releaseReservation (lease : pollerGroupLease) : BM unit :=
  releaseReservationLocked lease;;
  wakeWaiters.

Definition wab_signal : BM unit := wakeWaiters.

Definition setStickyTarget (target : Z) : BM unit :=
  a ← get;
  if decide (target = stickyTarget a) then mret tt
  else
    modify (λ a, mkBalancer (maxSlots a) (reservations a) (active a) target (wakeCh a)
                   (wab_groupStore a) (ungroupedStickyBacklog a) (wab_groups a));;
    wakeWaiters.

(** A snapshot published in the shared store by any poller. *)
Definition publishGroups (info : option PollerGroupsInfo) : BM unit :=
  modify (λ a, set_store (store_updateGroups info <$> wab_groupStore a) a).
