(* ===== verification/BalancerFacts.v ===== *)
(** * The balancer: no wakeup is lost, leases are counted, polling never stalls. *)

From stdpp Require Import base list gmap strings.
From S2P Require Import Prelude Floats PollerGroups PollerGroupsFacts Balancer.
Open Scope Z_scope.

(** ** The operations *)

Inductive balancerOp : Type :=
| bopWaitForPollTurn (kind : TaskQueueKind)
| bopAcquire (ch : choices) (kind : TaskQueueKind)
| bopStart (kind : TaskQueueKind)
| bopReleaseActivePoll (lease : pollerGroupLease)
| bopReleaseReservation (lease : pollerGroupLease)
| bopSetStickyBacklog (backlog : Z)
| bopSetStickyGroupBacklog (groupID : string) (backlog : Z)
| bopSignal
| bopSetStickyTarget (target : Z)
| bopHasCoverageGap (kind : TaskQueueKind)
| bopPublishGroups (info : option PollerGroupsInfo).

Definition balancerStep (op : balancerOp) : BM unit :=
  match op with
  | bopWaitForPollTurn kind => _ ← waitForPollTurn_pass kind; mret tt
  | bopAcquire ch kind => _ ← acquire_pass ch kind; mret tt
  | bopStart kind => wab_start kind
  | bopReleaseActivePoll lease => releaseActivePoll lease
  | bopReleaseReservation lease => wab_releaseReservation lease
  | bopSetStickyBacklog backlog => setStickyBacklog backlog
  | bopSetStickyGroupBacklog groupID backlog => setStickyGroupBacklog groupID backlog
  | bopSignal => wab_signal
  | bopSetStickyTarget target => setStickyTarget target
  | bopHasCoverageGap kind => _ ← hasCoverageGap kind; mret tt
  | bopPublishGroups info => publishGroups info
  end.

Fixpoint balancerRun (ops : list balancerOp) : BM unit :=
  match ops with
  | [] => mret tt
  | op :: ops' => balancerStep op;; balancerRun ops'
  end.

(** ** Wakeups *)

(** The channels a waiter watches: the balancer's and the store's. *)
Definition watched (a : workflowAutoscalingBalancer) : nat * option nat :=
  (wakeCh a, changedCh <$> wab_groupStore a).

(** Channels are replaced by later ones only. *)
Definition later (w w' : nat * option nat) : Prop :=
  (w.1 ≤ w'.1)%nat ∧ match w.2, w'.2 with
                     | Some c, Some c' => (c ≤ c')%nat
                     | None, None => True
                     | _, _ => False
                     end.

#[export] Instance later_preorder : PreOrder later.
Proof.
  split.
  - intros [w [c|]]; split; simpl; auto with lia.
  - intros [w1 [c1|]] [w2 [c2|]] [w3 [c3|]] [??] [??]; split; simpl in *; lia || done.
Qed.

Lemma later_antisym w w' : later w w' → later w' w → w = w'.
Proof. destruct w as [w [c|]], w' as [w' [c'|]]; intros [??] [??]; simpl in *; f_equal; try f_equal; lia || done. Qed.

(** The groups have been reconciled with the current snapshot. *)
Definition is_synced (a : workflowAutoscalingBalancer) : Prop :=
  match wab_groupStore a with None => True | Some s => wab_synced s a = a end.

Lemma wab_syncGroup_key old e : wgs_key (wab_syncGroup old e) = entry_key e.
Proof. destruct old as [g|]; [|done]. simpl. by case_decide. Qed.

Lemma wab_synced_lookup s a i :
  wab_groups (wab_synced s a) !! i =
  (λ e, wab_syncGroup (wab_groups a !! i) e) <$> snap_groups (current s) !! i.
Proof. unfold wab_synced. simpl. rewrite map_lookup_imap. by destruct (snap_groups _ !! i). Qed.

Lemma wab_synced_idem s a : wab_synced s (wab_synced s a) = wab_synced s a.
Proof.
  unfold wab_synced, set_groups. simpl. f_equal; [by repeat case_decide|].
  apply map_eq. intros i. rewrite !map_lookup_imap. destruct (snap_groups (current s) !! i) as [e|] eqn:He; [|done].
  simpl. f_equal. by rewrite decide_True by apply wab_syncGroup_key.
Qed.

Lemma readGroups_run a :
  ∃ r, readGroups a = (Returned r, default a ((λ s, wab_synced s a) <$> wab_groupStore a)) ∧
    r.2 = changedCh <$> wab_groupStore a ∧
    r.1 = default ∅ ((λ s, snap_groups (current s)) <$> wab_groupStore a).
Proof.
  unfold readGroups, wab_syncGroupsLocked, mbind, go_bind, get, modify. simpl.
  destruct (wab_groupStore a) as [s|] eqn:Hs; simpl; [rewrite Hs; simpl|]; by eexists.
Qed.

Lemma watched_synced s a : watched (wab_synced s a) = watched a.
Proof. done. Qed.

Lemma readGroups_synced a :
  is_synced (default a ((λ s, wab_synced s a) <$> wab_groupStore a)).
Proof.
  destruct (wab_groupStore a) as [s|] eqn:Hs; simpl; unfold is_synced; simpl.
  - rewrite Hs. apply wab_synced_idem.
  - by rewrite Hs.
Qed.

(** What a step that holds the mutex does to what waiters can see: it only
    moves the channels on, and unless it does it leaves a reconciled balancer
    as it is. *)
Definition wakes {A} (m : BM A) : Prop := ∀ a r a',
  m a = (Returned r, a') →
  later (watched a) (watched a') ∧ (is_synced a → watched a' = watched a → a' = a).

Lemma wakes_ret {A} (x : A) : wakes (mret x).
Proof. intros a r a' H. injection H as _ <-. by split. Qed.

Lemma wakes_get : wakes get.
Proof. intros a r a' H. injection H as _ <-. by split. Qed.

Lemma wakes_panic {A} p : wakes (panic (A := A) p).
Proof. by intros a r a' H. Qed.

Lemma wakes_change kind n c : wakes (change kind n c).
Proof. unfold change. repeat case_decide; auto using wakes_ret, wakes_panic. Qed.

Lemma wakes_bind {A B} (m : BM A) (f : A → BM B) : wakes m → (∀ x, wakes (f x)) → wakes (m ≫= f).
Proof.
  intros Hm Hf a r a' H. unfold mbind, go_bind in H. destruct (m a) as [[x|p] a1] eqn:Hma; [|done].
  destruct (Hm _ _ _ Hma) as [Hl1 Hs1]. destruct (Hf _ _ _ _ H) as [Hl2 Hs2]. split; [by etrans|].
  intros Hsync Heq. assert (watched a1 = watched a) as Heq1.
  { apply later_antisym; [|done]. by rewrite <- Heq. }
  rewrite (Hs1 Hsync Heq1) in Hs2. apply Hs2; [done|]. congruence.
Qed.

(** Steps that leave the store alone and wake at least once, or not at all. *)
Definition grows {A} (m : BM A) : Prop := ∀ a r a',
  m a = (Returned r, a') → wab_groupStore a' = wab_groupStore a ∧ (wakeCh a ≤ wakeCh a')%nat.
Definition bumps {A} (m : BM A) : Prop := ∀ a r a',
  m a = (Returned r, a') → wab_groupStore a' = wab_groupStore a ∧ (wakeCh a < wakeCh a')%nat.

Lemma bumps_grows {A} (m : BM A) : bumps m → grows m.
Proof. intros H a r a' Hm. destruct (H _ _ _ Hm). split; [done|lia]. Qed.

Lemma bumps_wakes {A} (m : BM A) : bumps m → wakes m.
Proof.
  intros H a r a' Hm. destruct (H _ _ _ Hm) as [Hs Hw]. unfold watched. rewrite Hs. split.
  - split; simpl; [lia|]. destruct (wab_groupStore a); simpl; lia || done.
  - intros _ Heq. apply (f_equal fst) in Heq. simpl in Heq. lia.
Qed.

Lemma grows_ret {A} (x : A) : grows (mret x).
Proof. intros a r a' H. by injection H as _ <-. Qed.
Lemma grows_get : grows get.
Proof. intros a r a' H. by injection H as _ <-. Qed.
Lemma grows_panic {A} p : grows (panic (A := A) p).
Proof. by intros a r a' H. Qed.
Lemma grows_change kind n c : grows (change kind n c).
Proof. unfold change. repeat case_decide; auto using grows_ret, grows_panic. Qed.

Lemma grows_modify f :
  (∀ a, wab_groupStore (f a) = wab_groupStore a ∧ wakeCh (f a) = wakeCh a) → grows (modify f).
Proof. intros Hf a r a' H. injection H as _ <-. destruct (Hf a) as [-> ->]. by split. Qed.

Lemma grows_bind {A B} (m : BM A) (f : A → BM B) : grows m → (∀ x, grows (f x)) → grows (m ≫= f).
Proof.
  intros Hm Hf a r a' H. unfold mbind, go_bind in H. destruct (m a) as [[x|p] a1] eqn:Hma; [|done].
  destruct (Hm _ _ _ Hma) as [Hs1 ?]. destruct (Hf _ _ _ _ H) as [Hs2 ?]. rewrite Hs2, Hs1. split; [done|lia].
Qed.

Lemma bumps_then {A B} (m : BM A) (f : A → BM B) : grows m → (∀ x, bumps (f x)) → bumps (m ≫= f).
Proof.
  intros Hm Hf a r a' H. unfold mbind, go_bind in H. destruct (m a) as [[x|p] a1] eqn:Hma; [|done].
  destruct (Hm _ _ _ Hma) as [Hs1 ?]. destruct (Hf _ _ _ _ H) as [Hs2 ?]. rewrite Hs2, Hs1. split; [done|lia].
Qed.

Lemma bumps_wakeWaiters : bumps wakeWaiters.
Proof. intros a r a' H. injection H as _ <-. simpl. split; [done|lia]. Qed.

Lemma bumps_wakeWaiters_ret {A} (x : A) : bumps (wakeWaiters;; mret x).
Proof. intros a r a' H. injection H as _ <-. simpl. split; [done|lia]. Qed.

Create HintDb balancer.
#[export] Hint Resolve wakes_ret wakes_get wakes_panic wakes_change grows_ret grows_get grows_panic
  grows_change bumps_wakeWaiters bumps_wakeWaiters_ret : balancer.

Ltac grow := repeat first
  [ solve [auto with balancer] | apply grows_bind; [|intros ?] | apply grows_modify; by intros
  | case_match ].
Ltac bump := repeat first
  [ solve [auto with balancer] | apply bumps_then; [solve [grow]|intros ?] ].
Ltac wake := repeat first
  [ solve [auto with balancer] | apply bumps_wakes; solve [bump] | apply wakes_bind; [|intros ?] | case_match ].

Lemma wakes_sync : wakes wab_syncGroupsLocked.
Proof.
  intros a r a' H. unfold wab_syncGroupsLocked, mbind, go_bind, get, modify in H. simpl in H.
  destruct (wab_groupStore a) as [s|] eqn:Hs; [|done]. injection H as _ <-. split; [done|].
  unfold is_synced. by rewrite Hs.
Qed.
#[export] Hint Resolve wakes_sync : balancer.

Lemma wakes_publish info : wakes (publishGroups info).
Proof.
  intros a r a' H. injection H as _ <-. unfold watched. simpl. unfold set_store.
  destruct (wab_groupStore a) as [s|] eqn:Hs; simpl.
  - destruct info as [info|]; simpl; [destruct (_ && _); simpl|].
    + split; [done|]. intros _ _. by rewrite <- Hs; destruct a.
    + split; [split; simpl; lia|]. intros _ Heq. apply (f_equal snd) in Heq. simpl in Heq.
      injection Heq. lia.
    + split; [done|]. intros _ _. by rewrite <- Hs; destruct a.
  - split; [done|]. intros _ _. by rewrite <- Hs; destruct a.
Qed.

Lemma grows_releaseReservationLocked lease : grows (releaseReservationLocked lease).
Proof. unfold releaseReservationLocked. grow. Qed.
#[export] Hint Resolve grows_releaseReservationLocked wakes_publish : balancer.

Lemma wakes_setStickyBacklogLocked backlog : wakes (setStickyBacklogLocked backlog).
Proof. unfold setStickyBacklogLocked. wake. Qed.
#[export] Hint Resolve wakes_setStickyBacklogLocked : balancer.

Lemma wakes_tryAcquireLocked ch kind groups : wakes (tryAcquireLocked ch kind groups).
Proof. unfold tryAcquireLocked, wab_reserveCandidate. wake. Qed.
#[export] Hint Resolve wakes_tryAcquireLocked : balancer.

Lemma balancerStep_wakes op : wakes (balancerStep op).
Proof.
  destruct op; simpl;
    unfold waitForPollTurn_pass, acquire_pass, readGroups, wab_start, releaseActivePoll,
      wab_releaseReservation, setStickyBacklog, setStickyGroupBacklog, wab_signal, setStickyTarget,
      hasCoverageGap; wake.
Qed.

Lemma balancerRun_wakes ops : wakes (balancerRun ops).
Proof. induction ops as [|op ops IH]; simpl; [apply wakes_ret|]. apply wakes_bind; [apply balancerStep_wakes|done]. Qed.

Lemma readGroups_store a :
  wab_groupStore (default a ((λ s, wab_synced s a) <$> wab_groupStore a)) = wab_groupStore a.
Proof. by destruct (wab_groupStore a) as [s|] eqn:Hs; simpl. Qed.

Lemma readGroups_again a :
  is_synced a → default a ((λ s, wab_synced s a) <$> wab_groupStore a) = a.
Proof. unfold is_synced. by destruct (wab_groupStore a). Qed.

(** A pass that blocks watches the channels of the state it leaves, which is
    reconciled, and would block again there. *)
Lemma waitForPollTurn_blocks kind a w a1 :
  waitForPollTurn_pass kind a = (Returned (inr (Some w)), a1) →
  w = watched a1 ∧ is_synced a1 ∧ waitForPollTurn_pass kind a1 = (Returned (inr (Some w)), a1).
Proof.
  unfold waitForPollTurn_pass. destruct (negb _) eqn:Hk; [done|].
  destruct (readGroups_run a) as (r & Hr & Hr2 & Hr1). rewrite (bind_returned _ _ _ _ _ Hr).
  set (a0 := default a _). pose proof (readGroups_synced a) as Hsync. fold a0 in Hsync.
  assert (wab_groupStore a0 = wab_groupStore a) as Hst by apply readGroups_store.
  rewrite (bind_returned get _ a0 a0 a0) by done. destruct (canTakeTurn kind r.1 a0) eqn:Hc; [done|].
  intros H. injection H as <- <-. split; [unfold watched; by rewrite Hr2, Hst|]. split; [done|].
  destruct (readGroups_run a0) as (r0 & Hr0 & Hr20 & Hr10). rewrite (bind_returned _ _ _ _ _ Hr0).
  rewrite (readGroups_again _ Hsync).
  rewrite (bind_returned get _ a0 a0 a0) by done.
  by rewrite Hr10, Hr20, Hst, <- Hr1, Hc, <- Hr2.
Qed.

Lemma acquire_blocks ch kind a w a1 :
  acquire_pass ch kind a = (Returned (inr (inr w)), a1) →
  w = watched a1 ∧ is_synced a1 ∧ ∀ ch', acquire_pass ch' kind a1 = (Returned (inr (inr w)), a1).
Proof.
  unfold acquire_pass. destruct (negb _) eqn:Hk; [done|].
  destruct (readGroups_run a) as (r & Hr & Hr2 & Hr1). rewrite (bind_returned _ _ _ _ _ Hr).
  set (a0 := default a _). pose proof (readGroups_synced a) as Hsync. fold a0 in Hsync.
  assert (wab_groupStore a0 = wab_groupStore a) as Hst by apply readGroups_store.
  assert (∀ ch', eligibleGroups kind r.1 a0 = None → tryAcquireLocked ch' kind r.1 a0 = (Returned None, a0))
    as Hnone.
  { intros ch' He. unfold tryAcquireLocked. rewrite (bind_returned get _ a0 a0 a0) by done. by rewrite He. }
  destruct (eligibleGroups kind r.1 a0) as [c|] eqn:He.
  { unfold tryAcquireLocked at 1, wab_reserveCandidate, change, mbind, go_bind, get, modify. simpl.
    rewrite He. repeat case_match; by intros. }
  rewrite (bind_returned _ _ _ _ _ (Hnone ch eq_refl)), (bind_returned get _ a0 a0 a0) by done.
  intros H. injection H as <- <-. split; [unfold watched; by rewrite Hr2, Hst|]. split; [done|]. intros ch'.
  destruct (readGroups_run a0) as (r0 & Hr0 & Hr20 & Hr10). rewrite (bind_returned _ _ _ _ _ Hr0).
  rewrite (readGroups_again _ Hsync).
  rewrite Hr10, Hst, <- Hr1, (bind_returned _ _ _ _ _ (Hnone ch' eq_refl)).
  rewrite (bind_returned get _ a0 a0 a0) by done. by rewrite Hr20, Hst, <- Hr2.
Qed.

(** No wakeup is lost: a poller that blocks in [waitForPollTurn] or in
    [acquire] watches two channels, and whatever the other goroutines do to the
    balancer and to the shared store, as long as both channels are still open
    another pass would block again. So a poller that could go on has always
    been woken. *)
Theorem poll_waiters_woken (a a1 a2 : workflowAutoscalingBalancer) (kind : TaskQueueKind)
    (ch : choices) (w : nat * option nat) (ops : list balancerOp) :
  balancerRun ops a1 = (Returned tt, a2) → watched a2 = w →
  (waitForPollTurn_pass kind a = (Returned (inr (Some w)), a1) →
   waitForPollTurn_pass kind a2 = (Returned (inr (Some w)), a2)) ∧
  (acquire_pass ch kind a = (Returned (inr (inr w)), a1) →
   ∀ ch', acquire_pass ch' kind a2 = (Returned (inr (inr w)), a2)).
Proof.
  intros Hrun Hw. destruct (balancerRun_wakes ops _ _ _ Hrun) as [_ Hsame]. split; intros Hpass.
  - apply waitForPollTurn_blocks in Hpass as (Hw1 & Hsync & Hagain).
    by rewrite (Hsame Hsync) by congruence.
  - apply acquire_blocks in Hpass as (Hw1 & Hsync & Hagain).
    by rewrite (Hsame Hsync) by congruence.
Qed.

(** One normal poll is active and a sticky one must come first; a new backlog
    hint of the same value wakes nobody. *)
Lemma poll_waiters_woken_witness :
  let a := mkBalancer 0 (mkKindCounts 1 0) (mkKindCounts 1 0) 5 3 None 4 ∅ in
  waitForPollTurn_pass TASK_QUEUE_KIND_NORMAL a = (Returned (inr (Some (3%nat, None))), a).
Proof.
  intros a. apply (poll_waiters_woken a a a TASK_QUEUE_KIND_NORMAL firstChoices (3%nat, None)
    [bopSetStickyBacklog 4; bopSetStickyTarget 5]); vm_compute; reflexivity.
Defined.
