(* ===== verification/BalancerPolls.v ===== *)
(** * The balancer: the life of polls.

    Polls are acquired, started when they get a slot, and released. The
    counters of the balancer are those of the polls that are out, and while
    there is room for a poll the balancer lets one kind go on. *)

From stdpp Require Import base list gmap strings.
From S2P Require Import Prelude Floats PollerGroups PollerGroupsFacts Balancer.
Open Scope Z_scope.

(** ** Polls and what they amount to *)

Record poll : Type := mkPoll {
  poll_lease : pollerGroupLease;
  poll_started : bool;
}.

Definition poll_kind (p : poll) : TaskQueueKind := lease_kind (poll_lease p).
Definition poll_key (p : poll) : pollerGroupKey := lease_group (poll_lease p).

Definition tally (P : poll → bool) (ps : list poll) : Z :=
  Z.of_nat (length (filter (λ p, Is_true (P p)) ps)).

Definition isKind (kind : TaskQueueKind) (p : poll) : bool := bool_decide (poll_kind p = kind).
Definition hasKey (k : pollerGroupKey) (p : poll) : bool := bool_decide (poll_key p = k).

Definition countsOf (P : poll → bool) (ps : list poll) : workflowKindCounts :=
  mkKindCounts (tally (λ p, P p && isKind TASK_QUEUE_KIND_NORMAL p) ps)
    (tally (λ p, P p && isKind TASK_QUEUE_KIND_STICKY p) ps).

Definition addKind (kind : TaskQueueKind) (n : Z) (r : workflowKindCounts) : workflowKindCounts :=
  if decide (kind = TASK_QUEUE_KIND_STICKY) then mkKindCounts (normal r) (sticky r + n)
  else mkKindCounts (normal r + n) (sticky r).

Lemma change_run {S} kind n r (s : S) :
  validAdmissionKind kind = true → change kind n r s = (Returned (addKind kind n r), s).
Proof. by destruct kind. Qed.

Lemma tally_nonneg P ps : 0 ≤ tally P ps.
Proof. unfold tally. lia. Qed.

Lemma tally_cons P p ps : tally P (p :: ps) = (if P p then 1 else 0) + tally P ps.
Proof.
  unfold tally. rewrite filter_cons. case_decide as H; destruct (P p); simpl in *; (done || lia).
Qed.

Lemma tally_app P ps qs : tally P (ps ++ qs) = tally P ps + tally P qs.
Proof. unfold tally. rewrite filter_app, length_app. lia. Qed.

Lemma tally_delete P ps n p : ps !! n = Some p → tally P (delete n ps) = tally P ps - (if P p then 1 else 0).
Proof.
  intros Hn. rewrite <- (take_drop_middle _ _ _ Hn) at 2.
  rewrite delete_take_drop, !tally_app, tally_cons. lia.
Qed.

Lemma tally_insert P ps n p q :
  ps !! n = Some p → tally P (<[n := q]> ps) = tally P ps - (if P p then 1 else 0) + (if P q then 1 else 0).
Proof.
  intros Hn. rewrite insert_take_drop by (by eapply lookup_lt_Some).
  replace (tally P ps) with (tally P (take n ps ++ p :: drop (S n) ps)) by (by rewrite take_drop_middle).
  rewrite !tally_app, !tally_cons. lia.
Qed.

Lemma tally_zero P ps : (∀ p, p ∈ ps → P p = false) → tally P ps = 0.
Proof.
  intros H. induction ps as [|p ps IH]; [done|]. rewrite tally_cons, (H p), IH by (by left || intros; apply H; by right).
  done.
Qed.

Lemma tally_pos P ps p : p ∈ ps → P p = true → 0 < tally P ps.
Proof.
  intros [n Hn]%list_elem_of_lookup Hp. pose proof (tally_delete P _ _ _ Hn) as Hd. rewrite Hp in Hd.
  pose proof (tally_nonneg P (delete n ps)). lia.
Qed.

Lemma tally_mono P Q ps : (∀ p, P p = true → Q p = true) → tally P ps ≤ tally Q ps.
Proof.
  intros H. induction ps as [|p ps IH]; [done|]. rewrite !tally_cons. specialize (H p).
  destruct (P p), (Q p); naive_solver lia.
Qed.

Lemma countsOf_cons P p ps :
  validAdmissionKind (poll_kind p) = true →
  countsOf P (p :: ps) = if P p then addKind (poll_kind p) 1 (countsOf P ps) else countsOf P ps.
Proof.
  intros Hk. unfold countsOf, addKind, isKind. rewrite !tally_cons.
  destruct (poll_kind p), (P p); simpl in *; (done || f_equal; lia).
Qed.

Lemma countsOf_delete P ps n p :
  ps !! n = Some p → validAdmissionKind (poll_kind p) = true →
  countsOf P (delete n ps) = if P p then addKind (poll_kind p) (-1) (countsOf P ps) else countsOf P ps.
Proof.
  intros Hn Hk. unfold countsOf, addKind. rewrite !(tally_delete _ _ _ _ Hn). unfold isKind.
  destruct (poll_kind p), (P p); simpl in *; (done || f_equal; lia).
Qed.

(** Starting a poll changes what counts started polls only. *)
Lemma countsOf_start P ps n l :
  ps !! n = Some (mkPoll l false) → validAdmissionKind (lease_kind l) = true →
  countsOf P (<[n := mkPoll l true]> ps) =
    match P (mkPoll l false), P (mkPoll l true) with
    | false, true => addKind (lease_kind l) 1 (countsOf P ps)
    | true, false => addKind (lease_kind l) (-1) (countsOf P ps)
    | _, _ => countsOf P ps
    end.
Proof.
  intros Hn Hk. unfold countsOf, addKind. rewrite !(tally_insert _ _ _ _ _ Hn). unfold isKind, poll_kind. simpl.
  destruct (lease_kind l), (P (mkPoll l false)), (P (mkPoll l true)); simpl in *; (done || f_equal; lia).
Qed.

Lemma countsOf_unheld ps k : k ∉ poll_key <$> ps → countsOf (hasKey k) ps = mkKindCounts 0 0.
Proof.
  intros Hk. assert (∀ p, p ∈ ps → hasKey k p = false) as H.
  { intros p Hp. apply bool_decide_eq_false. intros <-. apply Hk. by apply list_elem_of_fmap_2. }
  unfold countsOf. f_equal; apply tally_zero; intros p Hp; by rewrite (H p Hp).
Qed.

Lemma forKind_nonneg P ps kind : 0 ≤ forKind (countsOf P ps) kind.
Proof. unfold forKind. case_decide; simpl; apply tally_nonneg. Qed.

(** A poll that counts makes the counter of its kind positive. *)
Lemma forKind_pos P ps p :
  p ∈ ps → P p = true → validAdmissionKind (poll_kind p) = true → 0 < forKind (countsOf P ps) (poll_kind p).
Proof.
  intros Hp HP Hk. unfold forKind. destruct (poll_kind p) eqn:E; simpl in *; [done|..];
    (eapply tally_pos; [done|]); rewrite HP; unfold isKind; by rewrite E.
Qed.

(** ** The invariant *)

Record balancer_inv (a : workflowAutoscalingBalancer) (ps : list poll) : Prop := {
  bi_reservations : reservations a = countsOf (λ _, true) ps;
  bi_active : active a = countsOf poll_started ps;
  bi_kinds p : p ∈ ps → validAdmissionKind (poll_kind p) = true;
  bi_groups : match wab_groupStore a with
              | None => wab_groups a = ∅
              | Some s => tracks wgs_key wgs_reservations (mkKindCounts 0 0) s (wab_groups a)
                            (poll_key <$> ps) (λ k, countsOf (hasKey k) ps)
              end;
}.

Lemma balancer_inv_new slots target store :
  match store with None => True | Some s => store_wf s end →
  balancer_inv (newWorkflowAutoscalingBalancer slots target store) [].
Proof.
  intros Hs. split; [done..| |].
  - intros p Hp. by apply not_elem_of_nil in Hp.
  - simpl. destruct store as [s|]; [|done].
    exact (tracks_new wgs_key wgs_reservations (mkKindCounts 0 0) s Hs).
Qed.

(** The counters and groups are what matters. *)
Lemma balancer_inv_same a a' ps :
  balancer_inv a ps → reservations a' = reservations a → active a' = active a →
  wab_groupStore a' = wab_groupStore a → wab_groups a' = wab_groups a → balancer_inv a' ps.
Proof. intros [Hr Ha Hk Hg] Hr' Ha' Hs' Hg'. split; try congruence; [done|]. by rewrite Hs', Hg'. Qed.

Lemma balancer_inv_sync s a ps :
  wab_groupStore a = Some s → balancer_inv a ps → balancer_inv (wab_synced s a) ps.
Proof.
  intros Hs [Hr Ha Hk Hg]. split; [done..|]. simpl. rewrite Hs in *.
  apply (tracks_sync wgs_key wgs_reservations (mkKindCounts 0 0) wab_syncGroup); [| |done].
  - intros [g|] e; [|done]. simpl. by case_decide.
  - intros [g|] e; simpl; [case_decide; [by left|]|]; right; split; (done || congruence).
Qed.

Lemma balancer_inv_backlog a ps i g backlog n :
  balancer_inv a ps → wab_groups a !! i = Some g →
  balancer_inv (set_groups n (<[i := mkWorkflowGroupState (wgs_key g) (wgs_reservations g) backlog]>
                                (wab_groups a)) a) ps.
Proof.
  intros [Hr Ha Hk Hg] Hi. split; [done..|]. simpl. destruct (wab_groupStore a) as [s|].
  - eapply tracks_change; [done|done|done|..].
    + simpl. by destruct (tr_group _ _ _ _ _ _ _ Hg _ _ Hi) as (_ & _ & ->).
    + done.
    + auto.
    + apply countsOf_unheld.
  - by rewrite Hg, lookup_empty in Hi.
Qed.

Lemma balancer_inv_publish info a ps :
  balancer_inv a ps → balancer_inv (set_store (store_updateGroups info <$> wab_groupStore a) a) ps.
Proof.
  intros [Hr Ha Hk Hg]. split; [done..|]. simpl. destruct (wab_groupStore a) as [s|]; simpl; [|done].
  by apply tracks_update.
Qed.

Lemma balancer_inv_start a ps n l :
  balancer_inv a ps → ps !! n = Some (mkPoll l false) →
  balancer_inv (set_active (addKind (lease_kind l) 1 (active a)) a) (<[n := mkPoll l true]> ps).
Proof.
  intros [Hr Ha Hk Hg] Hn.
  assert (validAdmissionKind (lease_kind l) = true) as Hl by (by eapply (Hk (mkPoll l false)), list_elem_of_lookup_2).
  assert (poll_key <$> <[n := mkPoll l true]> ps = poll_key <$> ps) as Hkeys.
  { rewrite list_fmap_insert. apply list_insert_id. by rewrite list_lookup_fmap, Hn. }
  split; simpl.
  - by rewrite Hr, (countsOf_start _ _ _ _ Hn).
  - by rewrite Ha, (countsOf_start _ _ _ _ Hn).
  - intros p Hp. apply list_elem_of_lookup in Hp as [j Hj]. destruct (decide (n = j)) as [->|Hne].
    + rewrite list_lookup_insert_eq in Hj by (by eapply lookup_lt_Some). by injection Hj as <-.
    + rewrite list_lookup_insert_ne in Hj by done. eapply Hk, list_elem_of_lookup_2, Hj.
  - destruct (wab_groupStore a) as [s|]; [|done]. rewrite Hkeys. eapply tracks_leases; [done|..].
    + intros i g _. rewrite (countsOf_start _ _ _ _ Hn) by done. unfold hasKey, poll_key. simpl. by case_bool_decide.
    + auto.
    + intros k Hnot. apply countsOf_unheld. by rewrite Hkeys.
Qed.

(** A poll of the tracked group [i], or an ungrouped one, is added. *)
Lemma balancer_inv_acquire_group a ps i g kind :
  balancer_inv a ps → wab_groups a !! i = Some g → validAdmissionKind kind = true →
  balancer_inv
    (set_reservations (addKind kind 1 (reservations a))
       (set_groups (ungroupedStickyBacklog a)
          (<[i := mkWorkflowGroupState (wgs_key g) (addKind kind 1 (wgs_reservations g)) (stickyBacklog g)]>
             (wab_groups a)) a))
    (mkPoll (mkLease (wgs_key g) kind) false :: ps).
Proof.
  intros [Hr Ha Hk Hg] Hi Hkind. split; simpl.
  - by rewrite Hr, countsOf_cons.
  - by rewrite Ha, countsOf_cons.
  - intros p [->|?]%elem_of_cons; [done|by apply Hk].
  - destruct (wab_groupStore a) as [s|]; [|by rewrite Hg, lookup_empty in Hi].
    destruct (tr_group _ _ _ _ _ _ _ Hg _ _ Hi) as (_ & _ & Hv).
    eapply tracks_change; [done|done|done|..]; simpl.
    + rewrite countsOf_cons by done. unfold hasKey at 1. simpl. by rewrite bool_decide_eq_true_2, Hv.
    + intros k Hne. rewrite countsOf_cons by done. unfold hasKey at 1. simpl.
      by rewrite bool_decide_eq_false_2.
    + intros k [->|?]%elem_of_cons; auto.
    + intros k Hnot. by apply countsOf_unheld.
Qed.

Lemma balancer_inv_acquire_ungrouped a ps kind :
  balancer_inv a ps → validAdmissionKind kind = true →
  balancer_inv (set_reservations (addKind kind 1 (reservations a)) a)
    (mkPoll (mkLease noGroup kind) false :: ps).
Proof.
  intros [Hr Ha Hk Hg] Hkind. split; simpl.
  - by rewrite Hr, countsOf_cons.
  - by rewrite Ha, countsOf_cons.
  - intros p [->|?]%elem_of_cons; [done|by apply Hk].
  - destruct (wab_groupStore a) as [s|]; [|done]. eapply tracks_leases; [done|..].
    + intros i g Hi. rewrite countsOf_cons by done. unfold hasKey at 1, poll_key. simpl.
      rewrite bool_decide_eq_false_2; [done|]. intros Heq.
      destruct (tr_group _ _ _ _ _ _ _ Hg _ _ Hi) as (_ & (Hid & _) & _). by rewrite <- Heq in Hid.
    + intros k [->|?]%elem_of_cons; auto.
    + intros k Hnot. by apply countsOf_unheld.
Qed.

(** What releasing a lease does to the groups. *)
Definition releasedGroups (lease : pollerGroupLease) (groups : gmap string workflowGroupState)
    : gmap string workflowGroupState :=
  match (if decide (pgk_id (lease_group lease) = "") then None
         else groups !! pgk_id (lease_group lease)) with
  | Some g =>
      if bool_decide (wgs_key g = lease_group lease)
         && bool_decide (0 < forKind (wgs_reservations g) (lease_kind lease))
      then <[pgk_id (lease_group lease) :=
               mkWorkflowGroupState (wgs_key g) (addKind (lease_kind lease) (-1) (wgs_reservations g))
                 (stickyBacklog g)]> groups
      else groups
  | None => groups
  end.

Lemma releaseReservationLocked_run lease a :
  validAdmissionKind (lease_kind lease) = true → 0 < forKind (reservations a) (lease_kind lease) →
  releaseReservationLocked lease a =
    (Returned tt, set_reservations (addKind (lease_kind lease) (-1) (reservations a))
       (set_groups (ungroupedStickyBacklog a) (releasedGroups lease (wab_groups a)) a)).
Proof.
  intros Hk Hpos. assert (a = set_groups (ungroupedStickyBacklog a) (wab_groups a) a) as Ha by (by destruct a).
  unfold releaseReservationLocked, releasedGroups, mbind, go_bind, get, modify. simpl.
  destruct (if decide (pgk_id (lease_group lease) = "") then None
            else wab_groups a !! pgk_id (lease_group lease)) as [g|]; [destruct (_ && _)|];
    rewrite ?change_run by done; simpl; rewrite decide_True by done;
    rewrite change_run by done; simpl; by rewrite <- ?Ha.
Qed.

Lemma tracks_released s groups ps n p :
  tracks wgs_key wgs_reservations (mkKindCounts 0 0) s groups (poll_key <$> ps)
    (λ k, countsOf (hasKey k) ps) →
  ps !! n = Some p → validAdmissionKind (poll_kind p) = true →
  tracks wgs_key wgs_reservations (mkKindCounts 0 0) s (releasedGroups (poll_lease p) groups)
    (poll_key <$> delete n ps) (λ k, countsOf (hasKey k) (delete n ps)).
Proof.
  intros Htr Hn Hkind. pose proof (list_elem_of_lookup_2 _ _ _ Hn) as Hin.
  assert (∀ k, k ≠ poll_key p → countsOf (hasKey k) (delete n ps) = countsOf (hasKey k) ps) as Hother.
  { intros k Hne. rewrite (countsOf_delete _ _ _ _ Hn Hkind). unfold hasKey.
    by rewrite bool_decide_eq_false_2 by congruence. }
  destruct (decide (wgs_key <$> groups !! pgk_id (poll_key p) = Some (poll_key p))) as [Hk|Hk].
  - destruct (groups !! pgk_id (poll_key p)) as [g|] eqn:Hg; [|done]. injection Hk as Hk.
    destruct (tr_group _ _ _ _ _ _ _ Htr _ _ Hg) as (_ & _ & Hv).
    assert (0 < forKind (wgs_reservations g) (poll_kind p)) as Hpos.
    { rewrite Hv, Hk. apply forKind_pos; [done|by apply bool_decide_eq_true|done]. }
    unfold releasedGroups. fold (poll_key p) (poll_kind p).
    rewrite decide_False by (by eapply tracks_not_noGroup).
    rewrite Hg, !bool_decide_eq_true_2 by done. simpl. eapply tracks_change; [done|done|done|..]; simpl.
    + rewrite Hv, Hk, (countsOf_delete _ _ _ _ Hn Hkind). unfold hasKey at 2. by rewrite bool_decide_eq_true_2.
    + rewrite Hk. apply Hother.
    + intros k Hin'. left. by eapply fmap_delete_list.
    + apply countsOf_unheld.
  - assert (releasedGroups (poll_lease p) groups = groups) as ->.
    { unfold releasedGroups. fold (poll_key p). case_decide; [done|].
      destruct (groups !! pgk_id (poll_key p)) as [g|]; [|done]. simpl in Hk.
      by rewrite bool_decide_eq_false_2 by congruence. }
    eapply tracks_leases; [done|..].
    + intros i g Hg. apply Hother. intros Heq. apply Hk. rewrite <- Heq.
      destruct (tr_group _ _ _ _ _ _ _ Htr _ _ Hg) as (-> & _). by rewrite Hg.
    + intros k Hin'. left. by eapply fmap_delete_list.
    + apply countsOf_unheld.
Qed.

Lemma balancer_inv_release a ps n p act :
  balancer_inv a ps → ps !! n = Some p → act = countsOf poll_started (delete n ps) →
  ∃ a', releaseReservationLocked (poll_lease p) (set_active act a) = (Returned tt, a') ∧
    balancer_inv a' (delete n ps).
Proof.
  intros [Hr Ha Hk Hg] Hn ->. pose proof (list_elem_of_lookup_2 _ _ _ Hn) as Hin.
  pose proof (Hk _ Hin) as Hkind. eexists. split.
  - apply releaseReservationLocked_run; [done|]. simpl. rewrite Hr. by apply (forKind_pos (λ _, true)).
  - split; simpl; [|done|intros q Hq; apply Hk; by eapply elem_of_delete_list|].
    + by rewrite Hr, (countsOf_delete _ _ _ _ Hn Hkind).
    + destruct (wab_groupStore a) as [s|]; [by apply tracks_released|].
      unfold releasedGroups. rewrite Hg. case_match eqn:Hc; [|done]. by case_decide.
Qed.

(** ** Runs *)

(** The life of polls, and everything else that may happen. *)
Inductive pollOp : Type :=
| popWaitForPollTurn (kind : TaskQueueKind)
| popAcquire (ch : choices) (kind : TaskQueueKind)
| popStart (n : nat)
| popRelease (n : nat)
| popSetStickyBacklog (backlog : Z)
| popSetStickyGroupBacklog (groupID : string) (backlog : Z)
| popSignal
| popSetStickyTarget (target : Z)
| popHasCoverageGap (kind : TaskQueueKind)
| popPublishGroups (info : option PollerGroupsInfo).

Definition pollOp_ok (op : pollOp) : Prop :=
  match op with popAcquire ch _ => Choices ch | _ => True end.

Definition onBalancer {A} (f : BM A) (use : A → list poll → list poll)
    : Go (workflowAutoscalingBalancer * list poll) unit := λ st,
  match f st.1 with
  | (Returned x, a) => (Returned tt, (a, use x st.2))
  | (Panicked p, a) => (Panicked p, (a, st.2))
  end.

(** Polls are started once, and released by the call that fits their state. *)
Definition pollStep (op : pollOp) : Go (workflowAutoscalingBalancer * list poll) unit :=
  let plain {A} (f : BM A) := onBalancer f (λ _ ps, ps) in
  match op with
  | popWaitForPollTurn kind => plain (waitForPollTurn_pass kind)
  | popAcquire ch kind =>
      onBalancer (acquire_pass ch kind) (λ r ps,
        match r with inr (inl l) => mkPoll l false :: ps | _ => ps end)
  | popStart n =>
      st ← get;
      match st.2 !! n with
      | Some (mkPoll l false) => onBalancer (wab_start (lease_kind l)) (λ _ ps, <[n := mkPoll l true]> ps)
      | _ => mret tt
      end
  | popRelease n =>
      st ← get;
      match st.2 !! n with
      | Some (mkPoll l true) => onBalancer (releaseActivePoll l) (λ _ ps, delete n ps)
      | Some (mkPoll l false) => onBalancer (wab_releaseReservation l) (λ _ ps, delete n ps)
      | None => mret tt
      end
  | popSetStickyBacklog backlog => plain (setStickyBacklog backlog)
  | popSetStickyGroupBacklog groupID backlog => plain (setStickyGroupBacklog groupID backlog)
  | popSignal => plain wab_signal
  | popSetStickyTarget target => plain (setStickyTarget target)
  | popHasCoverageGap kind => plain (hasCoverageGap kind)
  | popPublishGroups info => plain (publishGroups info)
  end.

Fixpoint pollRun (ops : list pollOp) : Go (workflowAutoscalingBalancer * list poll) unit :=
  match ops with
  | [] => mret tt
  | op :: ops' => pollStep op;; pollRun ops'
  end.

Definition keepsPolls {A} (m : BM A) : Prop := ∀ a ps,
  balancer_inv a ps → ∃ x a', m a = (Returned x, a') ∧ balancer_inv a' ps.

Lemma keeps_ret {A} (x : A) : keepsPolls (mret x).
Proof. intros a ps H. by exists x, a. Qed.

Lemma keeps_bind {A B} (m : BM A) (f : A → BM B) :
  keepsPolls m → (∀ x, keepsPolls (f x)) → keepsPolls (m ≫= f).
Proof.
  intros Hm Hf a ps H. destruct (Hm _ _ H) as (x & a1 & H1 & Hi1). destruct (Hf x _ _ Hi1) as (y & a2 & H2 & Hi2).
  exists y, a2. by rewrite (bind_returned _ _ _ _ _ H1).
Qed.

Lemma keeps_get {A} (f : workflowAutoscalingBalancer → BM A) :
  (∀ a, ∀ ps, balancer_inv a ps → ∃ x a', f a a = (Returned x, a') ∧ balancer_inv a' ps) → keepsPolls (get ≫= f).
Proof. intros Hf a ps H. rewrite (bind_returned get _ a a a) by done. by apply Hf. Qed.

Lemma keeps_modify f :
  (∀ a, reservations (f a) = reservations a ∧ active (f a) = active a ∧
        wab_groupStore (f a) = wab_groupStore a ∧ wab_groups (f a) = wab_groups a) → keepsPolls (modify f).
Proof.
  intros Hf a ps H. destruct (Hf a) as (? & ? & ? & ?). exists tt, (f a). split; [done|].
  by eapply balancer_inv_same.
Qed.

Lemma keeps_wakeWaiters : keepsPolls wakeWaiters.
Proof. by apply keeps_modify. Qed.

(** The groups read are those the balancer then tracks. *)
Lemma readGroups_frame a r a' :
  readGroups a = (Returned r, a') →
  active a' = active a ∧ maxSlots a' = maxSlots a ∧ (r.1 ≠ ∅ → ungroupedStickyBacklog a' = 0).
Proof.
  unfold readGroups, wab_syncGroupsLocked, mbind, go_bind, get, modify. simpl.
  destruct (wab_groupStore a) as [s|] eqn:Hs; simpl; [rewrite Hs|]; intros [= <- <-]; simpl; [|done].
  split; [done|]. split; [done|]. intros Hne. by rewrite decide_False.
Qed.

Lemma readGroups_inv a ps :
  balancer_inv a ps →
  ∃ r a', readGroups a = (Returned r, a') ∧ balancer_inv a' ps ∧ dom r.1 = dom (wab_groups a').
Proof.
  intros H. unfold readGroups, wab_syncGroupsLocked, mbind, go_bind, get, modify. simpl.
  destruct (wab_groupStore a) as [s|] eqn:Hs; simpl.
  - rewrite Hs. eexists _, _. split; [done|]. split; [by apply balancer_inv_sync|]. simpl.
    apply set_eq. intros i. rewrite !elem_of_dom, map_lookup_imap.
    destruct (snap_groups (current s) !! i); simpl; by rewrite ?is_Some_alt.
  - eexists _, _. split; [done|]. split; [done|]. simpl. pose proof (bi_groups _ _ H) as Hg. rewrite Hs in Hg.
    by rewrite Hg, !dom_empty_L.
Qed.

Lemma keeps_syncGroups a ps s :
  balancer_inv a ps → wab_groupStore a = Some s →
  ∃ a', wab_syncGroupsLocked a = (Returned (observe s), a') ∧ balancer_inv a' ps.
Proof.
  intros H Hs. exists (wab_synced s a). split; [|by apply balancer_inv_sync].
  unfold wab_syncGroupsLocked. rewrite (bind_returned get _ a a a) by done. by rewrite Hs.
Qed.

Lemma keeps_setStickyBacklogLocked backlog : keepsPolls (setStickyBacklogLocked backlog).
Proof.
  apply keeps_get. intros a ps H. case_decide; [by exists tt, a|].
  eapply keeps_bind; [by apply keeps_modify|intros _; apply keeps_wakeWaiters|done].
Qed.

Lemma keeps_setStickyTarget target : keepsPolls (setStickyTarget target).
Proof.
  apply keeps_get. intros a ps H. case_decide; [by exists tt, a|].
  eapply keeps_bind; [by apply keeps_modify|intros _; apply keeps_wakeWaiters|done].
Qed.

Lemma keeps_setStickyGroupBacklog groupID backlog : keepsPolls (setStickyGroupBacklog groupID backlog).
Proof.
  apply keeps_get. intros a ps H. destruct (wab_groupStore a) as [s|] eqn:Hs; [|by exists tt, a].
  destruct (keeps_syncGroups a ps s H Hs) as (a1 & Hrun & H1). rewrite (bind_returned _ _ _ _ _ Hrun).
  case_decide; [case_decide; [by apply keeps_setStickyBacklogLocked|by exists tt, a1]|].
  rewrite (bind_returned get _ a1 a1 a1) by done.
  destruct (wab_groups a1 !! groupID) as [g|] eqn:Hg; [|by exists tt, a1]. case_decide; [by exists tt, a1|].
  rewrite (bind_returned (modify _) _ a1 tt _ eq_refl). apply keeps_wakeWaiters.
  by apply balancer_inv_backlog.
Qed.

Lemma keeps_hasCoverageGap kind : keepsPolls (hasCoverageGap kind).
Proof.
  apply keeps_get. intros a ps H. destruct (wab_groupStore a) as [s|] eqn:Hs; [|by exists false, a].
  destruct (keeps_syncGroups a ps s H Hs) as (a1 & Hrun & H1). rewrite (bind_returned _ _ _ _ _ Hrun).
  by eexists _, a1.
Qed.

Lemma keeps_waitForPollTurn kind : keepsPolls (waitForPollTurn_pass kind).
Proof.
  intros a ps H. unfold waitForPollTurn_pass. destruct (negb _); [by eexists _, a|].
  destruct (readGroups_inv a ps H) as (r & a1 & Hr & H1 & _). rewrite (bind_returned _ _ _ _ _ Hr).
  rewrite (bind_returned get _ a1 a1 a1) by done. destruct (canTakeTurn _ _ _); by eexists _, a1.
Qed.

Lemma candidates_tracked {B} (f : string → workflowGroupState → option B) (a : workflowAutoscalingBalancer) i e :
  map_imap f (wab_groups a) !! i = Some e → is_Some (wab_groups a !! i).
Proof. rewrite map_lookup_imap. destruct (wab_groups a !! i); by eauto. Qed.

(** The groups a kind may target are groups the balancer tracks. *)
Lemma eligibleGroups_tracked kind groups a c :
  eligibleGroups kind groups a = Some c → groups ≠ ∅ → dom groups = dom (wab_groups a) →
  wgc_groups c ≠ ∅ ∧ ∀ i e, wgc_groups c !! i = Some e → is_Some (wab_groups a !! i).
Proof.
  intros He Hne Hdom. unfold eligibleGroups in He. rewrite decide_False in He by done.
  repeat case_match; simplify_eq/=; (split; [|intros i e; try apply candidates_tracked]).
  - done.
  - destruct (bool_decide (stickyCandidates groups a = ∅)) eqn:Hb; [done|]. by apply bool_decide_eq_false in Hb.
  - done.
  - intros Hi. apply elem_of_dom. rewrite <- Hdom. by eapply elem_of_dom_2.
Qed.

Lemma tryAcquireLocked_inv ch `{!Choices ch} kind groups a ps :
  balancer_inv a ps → validAdmissionKind kind = true → dom groups = dom (wab_groups a) →
  ∃ l a', tryAcquireLocked ch kind groups a = (Returned l, a') ∧
    balancer_inv a' (match l with Some l => mkPoll l false :: ps | None => ps end).
Proof.
  intros H Hk Hdom. unfold tryAcquireLocked. rewrite (bind_returned get _ a a a) by done.
  destruct (eligibleGroups kind groups a) as [c|] eqn:He; [|by eexists _, a]. case_decide as Hemp.
  - rewrite (bind_returned _ _ _ _ _ (change_run _ _ _ a Hk)). eexists _, _. split; [done|].
    eapply balancer_inv_same; [by apply balancer_inv_acquire_ungrouped|done..].
  - destruct (eligibleGroups_tracked _ _ _ _ He Hemp Hdom) as [Hc Hsub].
    destruct (choosePollerGroup_elem ch _ Hc) as [e Hch]. destruct (Hsub _ _ Hch) as [g Hg].
    unfold wab_reserveCandidate, mbind, go_bind, get. simpl. rewrite Hg.
    rewrite change_run by done. simpl. rewrite change_run by done. simpl. eexists _, _. split; [done|].
    eapply balancer_inv_same; [by apply (balancer_inv_acquire_group _ _ _ _ _ H Hg Hk)|done..].
Qed.

Lemma acquire_inv ch `{!Choices ch} kind a ps :
  balancer_inv a ps →
  ∃ r a', acquire_pass ch kind a = (Returned r, a') ∧
    balancer_inv a' (match r with inr (inl l) => mkPoll l false :: ps | _ => ps end).
Proof.
  intros H. unfold acquire_pass. destruct (validAdmissionKind kind) eqn:Hk; simpl; [|by eexists _, a].
  destruct (readGroups_inv a ps H) as (r & a1 & Hr & H1 & Hdom). rewrite (bind_returned _ _ _ _ _ Hr).
  destruct (tryAcquireLocked_inv ch kind r.1 a1 ps H1 Hk Hdom) as (l & a2 & Ht & H2).
  rewrite (bind_returned _ _ _ _ _ Ht). destruct l; by eexists _, a2.
Qed.

Lemma onBalancer_keeps {A} (m : BM A) a ps :
  keepsPolls m → balancer_inv a ps →
  ∃ a', onBalancer m (λ _ ps, ps) (a, ps) = (Returned tt, (a', ps)) ∧ balancer_inv a' ps.
Proof. intros Hm H. destruct (Hm _ _ H) as (x & a' & Hr & Hi). exists a'. unfold onBalancer. simpl. by rewrite Hr. Qed.

Lemma keeps_publishGroups info : keepsPolls (publishGroups info).
Proof. intros a ps H. exists tt. eexists. split; [done|]. by apply balancer_inv_publish. Qed.

Create HintDb polls.
#[export] Hint Resolve keeps_waitForPollTurn keeps_setStickyBacklogLocked keeps_setStickyGroupBacklog
  keeps_wakeWaiters keeps_setStickyTarget keeps_hasCoverageGap keeps_publishGroups : polls.

Lemma release_step n p a ps :
  balancer_inv a ps → ps !! n = Some p →
  ∃ a', onBalancer (if poll_started p then releaseActivePoll (poll_lease p)
                    else wab_releaseReservation (poll_lease p)) (λ _ ps, delete n ps) (a, ps)
        = (Returned tt, (a', delete n ps)) ∧ balancer_inv a' (delete n ps).
Proof.
  intros H Hn. pose proof (bi_kinds _ _ H _ (list_elem_of_lookup_2 _ _ _ Hn)) as Hk.
  pose proof (countsOf_delete poll_started _ _ _ Hn Hk) as Hd. rewrite <- (bi_active _ _ H) in Hd.
  destruct (balancer_inv_release a ps n p _ H Hn eq_refl) as (a' & Hr & H'). rewrite Hd in Hr.
  assert (∃ a2, wakeWaiters a' = (Returned tt, a2) ∧ balancer_inv a2 (delete n ps)) as (a2 & Hw & H2).
  { eexists. split; [done|]. by eapply balancer_inv_same. }
  exists a2. split; [|done]. unfold onBalancer. simpl. destruct (poll_started p).
  - unfold releaseActivePoll. rewrite (bind_returned get _ a a a) by done.
    rewrite (bind_returned _ _ _ _ _ (change_run _ _ _ a Hk)), (bind_returned (modify _) _ a tt _ eq_refl).
    by rewrite (bind_returned _ _ _ _ _ Hr), Hw.
  - assert (set_active (active a) a = a) as Ha by (by destruct a). rewrite Ha in Hr.
    unfold wab_releaseReservation. by rewrite (bind_returned _ _ _ _ _ Hr), Hw.
Qed.

Lemma pollStep_inv op a ps :
  pollOp_ok op → balancer_inv a ps →
  ∃ a' ps', pollStep op (a, ps) = (Returned tt, (a', ps')) ∧ balancer_inv a' ps'.
Proof.
  intros Hok H.
  assert (∀ A (m : BM A), keepsPolls m →
    ∃ a' ps', onBalancer m (λ _ ps, ps) (a, ps) = (Returned tt, (a', ps')) ∧ balancer_inv a' ps') as Hplain.
  { intros A m Hm. destruct (onBalancer_keeps m a ps Hm H) as (a' & ? & ?). by exists a', ps. }
  destruct op as [| ch kind|n|n| | | | | |]; simpl in Hok |- *; try (apply Hplain; unfold setStickyBacklog, wab_signal; by auto with polls).
  - destruct (acquire_inv ch kind a ps H) as (r & a' & Hr & H'). eexists a', _. split; [|done].
    unfold onBalancer. simpl. by rewrite Hr.
  - rewrite (bind_returned get _ (a, ps) (a, ps) (a, ps)) by done. simpl.
    destruct (ps !! n) as [[l []]|] eqn:Hn; [by exists a, ps| |by exists a, ps].
    pose proof (bi_kinds _ _ H _ (list_elem_of_lookup_2 _ _ _ Hn)) as Hk. eexists _, _. split.
    + unfold onBalancer, wab_start. simpl. rewrite (bind_returned get _ a a a) by done.
      by rewrite (bind_returned _ _ _ _ _ (change_run _ _ _ a Hk)).
    + eapply balancer_inv_same; [by apply balancer_inv_start|done..].
  - rewrite (bind_returned get _ (a, ps) (a, ps) (a, ps)) by done. simpl.
    destruct (ps !! n) as [p|] eqn:Hn; [|by exists a, ps].
    destruct (release_step n p a ps H Hn) as (a' & Hr & H'). exists a', (delete n ps). split; [|done].
    by destruct p as [l []].
Qed.

Lemma pollRun_inv ops a ps :
  Forall pollOp_ok ops → balancer_inv a ps →
  ∃ a' ps', pollRun ops (a, ps) = (Returned tt, (a', ps')) ∧ balancer_inv a' ps'.
Proof.
  intros Hok. revert a ps. induction Hok as [|op ops Hop _ IH]; intros a ps H; [by exists a, ps|].
  destruct (pollStep_inv op a ps Hop H) as (a1 & ps1 & Hs & H1).
  destruct (IH a1 ps1 H1) as (a2 & ps2 & Hr & H2).
  exists a2, ps2. split; [|done]. simpl. by rewrite (bind_returned _ _ _ _ _ Hs).
Qed.

(** ** Progress *)

Lemma wab_coverage_none kind groups a i g :
  wab_coverageCandidates kind groups a = ∅ → wab_groups a !! i = Some g → forKind (wgs_reservations g) kind ≠ 0.
Proof.
  intros He Hg Hz. assert (wab_coverageCandidates kind groups a !! i = None) as Hn by (by rewrite He).
  unfold wab_coverageCandidates in Hn. rewrite map_lookup_imap, Hg in Hn. simpl in Hn. by rewrite decide_True in Hn.
Qed.

(** A covered group has a poll of the kind, which counts for the balancer. *)
Lemma covered_active kind a ps i g :
  balancer_inv a ps → wab_groups a !! i = Some g → forKind (wgs_reservations g) kind ≠ 0 →
  0 < forKind (reservations a) kind.
Proof.
  intros H Hg Hne. pose proof (bi_groups _ _ H) as Htr. destruct (wab_groupStore a) as [s|].
  2: { by rewrite Htr, lookup_empty in Hg. }
  destruct (tr_group _ _ _ _ _ _ _ Htr _ _ Hg) as (_ & _ & Hv). rewrite Hv in Hne.
  rewrite (bi_reservations _ _ H). pose proof (forKind_nonneg (hasKey (wgs_key g)) ps kind) as Hnn.
  unfold forKind in *. case_decide; simpl in *.
  - eapply Z.lt_le_trans; [|apply (tally_mono (λ p, hasKey (wgs_key g) p && isKind TASK_QUEUE_KIND_STICKY p))].
    + lia.
    + intros p [_ ?]%andb_true_iff. done.
  - eapply Z.lt_le_trans; [|apply (tally_mono (λ p, hasKey (wgs_key g) p && isKind TASK_QUEUE_KIND_NORMAL p))].
    + lia.
    + intros p [_ ?]%andb_true_iff. done.
Qed.

(** Without groups the kinds take turns by the polls that are active. *)
Lemma canPollKind_some a :
  hasFreeSlot a = true → canPollKind TASK_QUEUE_KIND_NORMAL a = false →
  canPollKind TASK_QUEUE_KIND_STICKY a = true ∨
  0 < normal (active a) ∧ sticky (active a) = 0 ∨ normal (active a) < 0.
Proof.
  intros Hfree. unfold canPollKind. rewrite Hfree. case_decide as Hn; [done|]. intros Hnormal.
  destruct (decide (sticky (active a) = 0)) as [Hs|Hs]; [by left|].
  rewrite (bool_decide_eq_false_2 (sticky (active a) = 0)) in Hnormal by done. simpl in Hnormal.
  destruct (needsMoreStickyPolls a) eqn:Hneeds; [|done]. left.
  rewrite (bool_decide_eq_false_2 (normal (active a) = 0)) by done. simpl.
  unfold needsMoreStickyPolls in Hneeds. apply andb_true_iff in Hneeds as [_ Hlt].
  apply bool_decide_eq_true in Hlt. by rewrite bool_decide_eq_false_2 by lia.
Qed.

Lemma canTakeTurn_some a ps groups :
  balancer_inv a ps → dom groups = dom (wab_groups a) → (groups ≠ ∅ → ungroupedStickyBacklog a = 0) →
  hasFreeSlot a = true → active a = reservations a →
  canTakeTurn TASK_QUEUE_KIND_NORMAL groups a = true ∨ canTakeTurn TASK_QUEUE_KIND_STICKY groups a = true.
Proof.
  intros H Hdom Hback Hfree Hact. unfold canTakeTurn, eligibleGroups. case_decide as Hg; simpl.
  { destruct (canPollKind TASK_QUEUE_KIND_NORMAL a) eqn:Hn; [by left|right].
    destruct (canPollKind_some a Hfree Hn) as [?|[[_ Hs]|Hneg]]; [done| |].
    - unfold canPollKind. by rewrite decide_True.
    - assert (0 ≤ normal (active a)) by (rewrite Hact, (bi_reservations _ _ H); apply tally_nonneg). lia. }
  change (otherQueueKind TASK_QUEUE_KIND_NORMAL) with TASK_QUEUE_KIND_STICKY.
  change (otherQueueKind TASK_QUEUE_KIND_STICKY) with TASK_QUEUE_KIND_NORMAL.
  set (mn := wab_coverageCandidates TASK_QUEUE_KIND_NORMAL groups a).
  set (ms := wab_coverageCandidates TASK_QUEUE_KIND_STICKY groups a).
  set (rn := forKind (reservations a) TASK_QUEUE_KIND_NORMAL).
  set (rs := forKind (reservations a) TASK_QUEUE_KIND_STICKY).
  destruct (decide (mn ≠ ∅)) as [Hmn|Hmn], (decide (ms ≠ ∅)) as [Hms|Hms].
  - destruct (decide (rs < rn)).
    + right. by rewrite (bool_decide_eq_false_2 (rn < rs)), andb_false_r by lia.
    + left. by rewrite (bool_decide_eq_false_2 (rs < rn)), andb_false_r by lia.
  - left. by rewrite (bool_decide_eq_false_2 (ms ≠ ∅)).
  - right. by rewrite (bool_decide_eq_false_2 (mn ≠ ∅)).
  - apply dec_stable in Hmn, Hms. destruct (map_choose groups Hg) as (i & e & Hi).
    assert (is_Some (wab_groups a !! i)) as [g Hgi]
      by (apply elem_of_dom; rewrite <- Hdom; by eapply elem_of_dom_2).
    assert (0 < normal (reservations a)) as Hpn
      by exact (covered_active _ _ _ _ _ H Hgi (wab_coverage_none _ _ _ _ _ Hmn Hgi)).
    assert (0 < sticky (reservations a)) as Hps
      by exact (covered_active _ _ _ _ _ H Hgi (wab_coverage_none _ _ _ _ _ Hms Hgi)).
    assert (needsMoreStickyPolls a = false) as Hneeds.
    { unfold needsMoreStickyPolls. rewrite Hback by done. done. }
    unfold canPollKind. rewrite Hneeds, Hact, !(decide_False (P := _ = 0)) by lia.
    rewrite !(bool_decide_eq_false_2 (_ = 0)) by lia. simpl. unfold stickyCanGrow.
    destruct (decide (stickyCandidates groups a = ∅)) as [Hst|Hst].
    + left. by rewrite (bool_decide_eq_false_2 (stickyCandidates groups a ≠ ∅)) by auto.
    + rewrite (bool_decide_eq_true_2 (stickyCandidates groups a ≠ ∅)) by done.
      rewrite (bool_decide_eq_false_2 (stickyCandidates groups a = ∅)) by done. simpl.
      destruct (decide (sticky (reservations a) < stickyTarget a)).
      * right. rewrite bool_decide_eq_true_2 by done. simpl. by rewrite bool_decide_eq_false_2 by lia.
      * left. by rewrite bool_decide_eq_false_2 by lia.
Qed.

Lemma countsOf_all_started ps :
  (∀ p, p ∈ ps → poll_started p = true) → countsOf poll_started ps = countsOf (λ _, true) ps.
Proof.
  intros H. unfold countsOf, tally. f_equal; f_equal; f_equal; apply filter_bool_ext; intros p Hp; by rewrite (H p Hp).
Qed.

(** The store a balancer is created with: none, or the empty one. *)
Definition initialStore (grouped : bool) : option pollerGroupSnapshotStore :=
  if grouped then Some newPollerGroupSnapshotStore else None.

Lemma balancer_inv_initial slots target grouped :
  balancer_inv (newWorkflowAutoscalingBalancer slots target (initialStore grouped)) [].
Proof. apply balancer_inv_new. destruct grouped; [apply new_store_wf|done]. Qed.

(** Whatever the pollers, the scaler and the service do, no operation of
    the balancer panics, and its counters are exactly those of the polls that
    are out: [reservations] counts all of them and [active] those that have
    started, for both kinds, and each group counts the polls of its current
    lifetime. *)
Theorem polls_counted (slots target : Z) (grouped : bool) (ops : list pollOp) :
  Forall pollOp_ok ops →
  ∃ a ps, pollRun ops (newWorkflowAutoscalingBalancer slots target (initialStore grouped), [])
          = (Returned tt, (a, ps)) ∧
    reservations a = countsOf (λ _, true) ps ∧ active a = countsOf poll_started ps ∧
    ∀ i g, wab_groups a !! i = Some g → wgs_reservations g = countsOf (hasKey (wgs_key g)) ps.
Proof.
  intros Hok. destruct (pollRun_inv ops _ [] Hok (balancer_inv_initial slots target grouped))
    as (a & ps & Hr & H).
  exists a, ps. split; [done|]. split; [apply H|]. split; [apply H|]. intros i g Hg.
  pose proof (bi_groups _ _ H) as Htr. destruct (wab_groupStore a) as [s|].
  - by destruct (tr_group _ _ _ _ _ _ _ Htr _ _ Hg) as (_ & _ & ?).
  - by rewrite Htr, lookup_empty in Hg.
Qed.

(** A group with a normal poll out is removed and comes back. *)
Lemma polls_counted_witness :
  ∃ a ps, pollRun
    [popPublishGroups (Some (mkPollerGroupsInfo 7 [("a", f32_zero)]));
     popAcquire firstChoices TASK_QUEUE_KIND_NORMAL; popStart 0;
     popPublishGroups (Some (mkPollerGroupsInfo 8 []));
     popPublishGroups (Some (mkPollerGroupsInfo 9 [("a", f32_zero)]));
     popAcquire firstChoices TASK_QUEUE_KIND_STICKY; popRelease 1]
    (newWorkflowAutoscalingBalancer 10 5 (initialStore true), []) = (Returned tt, (a, ps)) ∧
    reservations a = countsOf (λ _, true) ps.
Proof.
  destruct (polls_counted 10 5 true
    [popPublishGroups (Some (mkPollerGroupsInfo 7 [("a", f32_zero)]));
     popAcquire firstChoices TASK_QUEUE_KIND_NORMAL; popStart 0;
     popPublishGroups (Some (mkPollerGroupsInfo 8 []));
     popPublishGroups (Some (mkPollerGroupsInfo 9 [("a", f32_zero)]));
     popAcquire firstChoices TASK_QUEUE_KIND_STICKY; popRelease 1]) as (a & ps & Hr & Hres & _).
  - repeat (apply Forall_cons_2; [first [exact firstChoices_ok | exact I]|]). apply Forall_nil_2.
  - exists a, ps. split; [exact Hr|exact Hres].
Defined.

(** C33. Polling does not stall: in every state that the operations can reach,
    if a slot is free (or slots are unlimited) and every poll that is out has
    its slot, then [waitForPollTurn] lets a normal or a sticky poll go on. *)
Theorem polling_never_stalls (slots target : Z) (grouped : bool) (ops : list pollOp)
    (a : workflowAutoscalingBalancer) (ps : list poll) :
  Forall pollOp_ok ops →
  pollRun ops (newWorkflowAutoscalingBalancer slots target (initialStore grouped), [])
    = (Returned tt, (a, ps)) →
  (hasFiniteCapacity a = true → total (active a) < maxSlots a) →
  (∀ p, p ∈ ps → poll_started p = true) →
  ∃ kind a', waitForPollTurn_pass kind a = (Returned (inr None), a').
Proof.
  intros Hok Hr Hcap Hst.
  destruct (pollRun_inv ops _ [] Hok (balancer_inv_initial slots target grouped)) as (a0 & ps0 & Hr0 & H).
  rewrite Hr in Hr0. injection Hr0 as <- <-.
  assert (hasFreeSlot a = true) as Hfree.
  { unfold hasFreeSlot. destruct (hasFiniteCapacity a); simpl; [|done]. by apply bool_decide_eq_true, Hcap. }
  destruct (readGroups_inv a ps H) as (r & a1 & Hrd & H1 & Hdom).
  destruct (readGroups_frame _ _ _ Hrd) as (Hact & Hmax & Hback).
  assert (∀ kind, validAdmissionKind kind = true → canTakeTurn kind r.1 a1 = true →
    waitForPollTurn_pass kind a = (Returned (inr None), a1)) as Hgo.
  { intros kind Hk Hc. unfold waitForPollTurn_pass. rewrite Hk. cbn [negb].
    rewrite (bind_returned _ _ _ _ _ Hrd), (bind_returned get _ a1 a1 a1) by done. by rewrite Hc. }
  destruct (canTakeTurn_some a1 ps r.1 H1 Hdom Hback) as [Hc|Hc].
  - unfold hasFreeSlot, hasFiniteCapacity in *. by rewrite Hact, Hmax.
  - rewrite (bi_active _ _ H1), (bi_reservations _ _ H1). by apply countsOf_all_started.
  - by exists TASK_QUEUE_KIND_NORMAL, a1; apply Hgo.
  - by exists TASK_QUEUE_KIND_STICKY, a1; apply Hgo.
Qed.

(** Two groups, covered by both kinds of polls, with room for more. *)
Lemma polling_never_stalls_witness :
  ∃ a ps kind a', pollRun
    [popPublishGroups (Some (mkPollerGroupsInfo 1 [("a", f32_zero)]));
     popAcquire firstChoices TASK_QUEUE_KIND_NORMAL; popStart 0;
     popAcquire firstChoices TASK_QUEUE_KIND_STICKY; popStart 0;
     popSetStickyGroupBacklog "a" 9]
    (newWorkflowAutoscalingBalancer 10 5 (initialStore true), []) = (Returned tt, (a, ps)) ∧
    waitForPollTurn_pass kind a = (Returned (inr None), a').
Proof.
  eexists _, _.
  match goal with |- ∃ kind a', pollRun ?ops _ = (_, (?a, ?ps)) ∧ _ =>
    assert (pollRun ops (newWorkflowAutoscalingBalancer 10 5 (initialStore true), []) = (Returned tt, (a, ps)))
      as Hr by (vm_compute; reflexivity);
    destruct (polling_never_stalls 10 5 true ops a ps) as (kind & a' & Hk)
  end.
  - repeat (apply Forall_cons_2; [first [exact firstChoices_ok | exact I]|]). apply Forall_nil_2.
  - exact Hr.
  - vm_compute. reflexivity.
  - apply Forall_forall. vm_compute. repeat constructor.
  - exists kind, a'. split; [exact Hr|exact Hk].
Defined.
