(* ===== verification/Autoscaler.v ===== *)
(** * Poller autoscaling ([pollerAutoscaler] and [autoscalingTaskPollerRunner]
      of [src/internal/internal_worker_base.go]).

    The autoscaler moves a target number of polls with the hints of the
    service; a runner admits polls up to the target, and beyond it when a
    poller group would have no poll. Atomic variables make each method one
    step: the compare-and-swap loop of [updateTarget] ends with the update
    applied to the value it replaces. *)

From stdpp Require Import base list gmap strings.
From Stdlib Require Import SpecFloat.
From S2P Require Import Prelude Floats PollerGroups PollerGroupsFacts Balancer.
Open Scope Z_scope.

(** ** The autoscaler *)

Record pollerAutoscaler : Type := mkPollerAutoscaler {
  minPollerCount : Z;
  maxPollerCount : Z;
  target : Z;
  everSawScalingDecision : bool;
  serverSupportsAutoscaling : bool;
  ingestedThisPeriod : Z;
  ingestedLastPeriod : Z;
  scaleUpAllowed : bool;
  (** Calls of [targetChangedCallback]. *)
  targetChanges : list Z;
}.

Definition newPollerAutoscaler (initial max min : Z) (supported : bool) : pollerAutoscaler :=
  mkPollerAutoscaler min max initial false supported 0 0 false [].

Definition effectivePollerTarget (current configuredMin configuredMax requiredMin : Z) : Z :=
  let effectiveMin := Z.max configuredMin requiredMin in
  let effectiveMax := Z.max configuredMax effectiveMin in
  if decide (current < effectiveMin) then effectiveMin
  else if decide (effectiveMax < current) then effectiveMax
  else current.

Definition updateTarget (f : Z → Z) (prh : pollerAutoscaler) : pollerAutoscaler :=
  let newTarget := effectivePollerTarget (f (target prh)) (minPollerCount prh) (maxPollerCount prh) 0 in
  mkPollerAutoscaler (minPollerCount prh) (maxPollerCount prh) newTarget (everSawScalingDecision prh)
    (serverSupportsAutoscaling prh) (ingestedThisPeriod prh) (ingestedLastPeriod prh) (scaleUpAllowed prh)
    (targetChanges prh ++ [newTarget]).

(** What a poll brought: nothing, or a task, with or without a decision. *)
Record polled : Type := mkPolled {
  isEmpty : bool;
  scaleDecision : option Z;
}.

Definition set_ingested (this last : Z) (allowed : bool) (prh : pollerAutoscaler) : pollerAutoscaler :=
  mkPollerAutoscaler (minPollerCount prh) (maxPollerCount prh) (target prh) (everSawScalingDecision prh)
    (serverSupportsAutoscaling prh) this last allowed (targetChanges prh).

Definition sawScalingDecision (prh : pollerAutoscaler) : pollerAutoscaler :=
  mkPollerAutoscaler (minPollerCount prh) (maxPollerCount prh) (target prh) true
    (serverSupportsAutoscaling prh) (ingestedThisPeriod prh) (ingestedLastPeriod prh) (scaleUpAllowed prh)
    (targetChanges prh).

Definition handleTask (task : polled) (prh : pollerAutoscaler) : pollerAutoscaler :=
  let prh := if isEmpty task then prh
             else set_ingested (wrap64 (ingestedThisPeriod prh + 1)) (ingestedLastPeriod prh)
                    (scaleUpAllowed prh) prh in
  match scaleDecision task with
  | Some ds =>
      let prh := sawScalingDecision prh in
      if decide (0 < ds) then
        if scaleUpAllowed prh then updateTarget (λ t, wrap64 (t + ds)) prh else prh
      else if decide (ds < 0) then updateTarget (λ t, wrap64 (t + ds)) prh
      else prh
  | None =>
      if isEmpty task && (everSawScalingDecision prh || serverSupportsAutoscaling prh)
      then updateTarget (λ t, wrap64 (t - 1)) prh else prh
  end.

Definition handleError (resourceExhausted : bool) (prh : pollerAutoscaler) : pollerAutoscaler :=
  if everSawScalingDecision prh || serverSupportsAutoscaling prh then
    if resourceExhausted then updateTarget (λ t, Z.quot t 2) prh
    else updateTarget (λ t, wrap64 (t - 1)) prh
  else prh.

Definition newPeriod (prh : pollerAutoscaler) : pollerAutoscaler :=
  set_ingested 0 (ingestedThisPeriod prh)
    (f64_le (f64_mul (float64_of_int64 (ingestedLastPeriod prh)) f64_1_1)
       (float64_of_int64 (ingestedThisPeriod prh))) prh.

(** ** The runner

    [wakeToken] is the one-place buffer of [wakeCh]. *)
Record autoscalingTaskPollerRunner : Type := mkRunner {
  autoscaler : pollerAutoscaler;
  pollerGroups : option pollerGroupManager;
  workflowBalancer : option workflowAutoscalingBalancer;
  pollKind : TaskQueueKind;
  wakeToken : bool;
  runner_active : Z;
}.

Abbreviation RM := (Go autoscalingTaskPollerRunner).

Definition set_runner (groups : option pollerGroupManager) (balancer : option workflowAutoscalingBalancer)
    (token : bool) (n : Z) (r : autoscalingTaskPollerRunner) : autoscalingTaskPollerRunner :=
  mkRunner (autoscaler r) groups balancer (pollKind r) token n.

Definition effectiveTarget (r : autoscalingTaskPollerRunner) : Z :=
  let requiredMin :=
    match workflowBalancer r, pollerGroups r with
    | Some a, _ => Z.of_nat (wab_requiredMin a)
    | None, Some m => Z.of_nat (pgm_requiredMin m)
    | None, None => 0
    end in
  effectivePollerTarget (target (autoscaler r)) (minPollerCount (autoscaler r))
    (maxPollerCount (autoscaler r)) requiredMin.

(** Calls on the shared objects of the runner. *)
Definition callManager {A} (m : pollerGroupManager) (f : PM A) : RM A := λ r,
  let (x, m') := f m in
  (x, set_runner (Some m') (workflowBalancer r) (wakeToken r) (runner_active r) r).

Definition callBalancer {A} (a : workflowAutoscalingBalancer) (f : BM A) : RM A := λ r,
  let (x, a') := f a in
  (x, set_runner (pollerGroups r) (Some a') (wakeToken r) (runner_active r) r).

(** One pass of the loop of [acquire] up to the point where a poll is admitted:
    [Some lease] when it is, with the group assigned by the manager. A poll
    under a balancer then calls the balancer's [acquire] for its lease. *)
Definition acquire_admit (ch : choices) : RM (option pollerGroupLease) :=
  r ← get;
  lease ← (if decide (runner_active r < effectiveTarget r) then
             match workflowBalancer r, pollerGroups r with
             | None, Some m => l ← callManager m (reserve ch); mret (Some l)
             | _, _ => mret (Some (mkLease noGroup TASK_QUEUE_KIND_UNSPECIFIED))
             end
           else
             match workflowBalancer r, pollerGroups r with
             | Some a, _ =>
                 gap ← callBalancer a (hasCoverageGap (pollKind r));
                 mret (if gap : bool then Some (mkLease noGroup TASK_QUEUE_KIND_UNSPECIFIED) else None)
             | None, Some m => callManager m (tryReserveRequired ch)
             | None, None => mret None
             end);
  match lease with
  | Some _ => modify (λ r, set_runner (pollerGroups r) (workflowBalancer r) (wakeToken r)
                             (runner_active r + 1) r)
  | None => mret tt
  end;;
  mret lease.

Definition wakeCapacityWaiter : RM unit :=
  modify (λ r, set_runner (pollerGroups r) (workflowBalancer r) true (runner_active r) r).

Definition runner_release : RM unit :=
  modify (λ r, set_runner (pollerGroups r) (workflowBalancer r) (wakeToken r) (runner_active r - 1) r);;
  wakeCapacityWaiter.

Definition runner_signal : RM unit :=
  wakeCapacityWaiter;;
  r ← get;
  match workflowBalancer r with
  | Some a => callBalancer a wab_signal
  | None => mret tt
  end.

(** [autoscalingPollAdmission.start], [release] and [finish]. *)
Definition admission_start : RM unit :=
  r ← get;
  match workflowBalancer r with
  | None => mret tt
  | Some a => callBalancer a (wab_start (pollKind r))
  end.

Definition lease_release (lease : pollerGroupLease) : RM unit :=
  r ← get;
  match workflowBalancer r, pollerGroups r with
  | Some a, _ => callBalancer a (wab_releaseReservation lease)
  | None, Some m => callManager m (pgm_releaseReservation lease)
  | None, None => mret tt
  end.

Definition admission_release (lease : pollerGroupLease) : RM unit :=
  lease_release lease;;
  runner_release.

Definition admission_finish (lease : pollerGroupLease) : RM unit :=
  r ← get;
  match workflowBalancer r with
  | Some a => callBalancer a (releaseActivePoll lease)
  | None => lease_release lease
  end;;
  runner_release.

(** ** The target stays in its bounds *)

Lemma effectivePollerTarget_bounds current lo hi req :
  Z.max lo req ≤ effectivePollerTarget current lo hi req ≤ Z.max hi (Z.max lo req).
Proof. unfold effectivePollerTarget. repeat case_decide; lia. Qed.

Lemma effectivePollerTarget_id current lo hi req :
  Z.max lo req ≤ current ≤ Z.max hi (Z.max lo req) → effectivePollerTarget current lo hi req = current.
Proof. intros. unfold effectivePollerTarget. repeat case_decide; lia. Qed.

Inductive scalingEvent : Type :=
| scaleTask (task : polled)
| scaleError (resourceExhausted : bool)
| scalePeriod.

Definition scalingStep (prh : pollerAutoscaler) (e : scalingEvent) : pollerAutoscaler :=
  match e with
  | scaleTask task => handleTask task prh
  | scaleError exhausted => handleError exhausted prh
  | scalePeriod => newPeriod prh
  end.

(** The target lies in the configured bounds. *)
Definition in_bounds (prh : pollerAutoscaler) : Prop :=
  Z.max (minPollerCount prh) 0 ≤ target prh ≤ Z.max (maxPollerCount prh) (Z.max (minPollerCount prh) 0).

(** What one event can do: keep the target, or announce a new one in bounds. *)
Record scaled (prh prh' : pollerAutoscaler) : Prop := {
  sc_min : minPollerCount prh' = minPollerCount prh;
  sc_max : maxPollerCount prh' = maxPollerCount prh;
  sc_supports : serverSupportsAutoscaling prh' = serverSupportsAutoscaling prh;
  sc_target :
    target prh' = target prh ∧ targetChanges prh' = targetChanges prh ∨
    in_bounds prh' ∧ targetChanges prh' = targetChanges prh ++ [target prh'] ∧
    (everSawScalingDecision prh' = true ∨ serverSupportsAutoscaling prh' = true);
}.

Lemma scaled_same prh prh' :
  minPollerCount prh' = minPollerCount prh → maxPollerCount prh' = maxPollerCount prh →
  serverSupportsAutoscaling prh' = serverSupportsAutoscaling prh → target prh' = target prh →
  targetChanges prh' = targetChanges prh → scaled prh prh'.
Proof. intros. split; auto. Qed.

Lemma scaled_updateTarget f prh prh0 :
  scaled prh prh0 → target prh0 = target prh → targetChanges prh0 = targetChanges prh →
  everSawScalingDecision prh0 || serverSupportsAutoscaling prh0 = true → scaled prh (updateTarget f prh0).
Proof.
  intros [Hmin Hmax Hs _] Ht Hc Hok. split; [done..|]. right. split; [apply effectivePollerTarget_bounds|].
  simpl. rewrite Hc. split; [done|]. by apply orb_true_iff.
Qed.

Lemma scalingStep_scaled prh e : scaled prh (scalingStep prh e).
Proof.
  destruct e as [[empty dec]|exhausted|]; simpl.
  - unfold handleTask. simpl. destruct dec as [ds|].
    + case_decide; [destruct empty; simpl; destruct (scaleUpAllowed prh)|case_decide; destruct empty];
        first [by apply scaled_same | by apply scaled_updateTarget; [apply scaled_same|..]].
    + destruct empty; simpl; [|by apply scaled_same].
      destruct (everSawScalingDecision prh || serverSupportsAutoscaling prh) eqn:He; [|by apply scaled_same].
      by apply scaled_updateTarget; [apply scaled_same|..].
  - unfold handleError. destruct (everSawScalingDecision prh || serverSupportsAutoscaling prh) eqn:He;
      [|by apply scaled_same]. destruct exhausted; by apply scaled_updateTarget; [apply scaled_same|..].
  - by apply scaled_same.
Qed.

Definition scalingRun (prh : pollerAutoscaler) (es : list scalingEvent) : pollerAutoscaler :=
  foldl scalingStep prh es.

(** Decisions of the service seen so far. *)
Definition carriesDecision (e : scalingEvent) : bool :=
  match e with scaleTask (mkPolled _ (Some _)) => true | _ => false end.

Lemma scalingStep_undecided prh e :
  carriesDecision e = false → everSawScalingDecision prh = false → serverSupportsAutoscaling prh = false →
  everSawScalingDecision (scalingStep prh e) = false ∧ target (scalingStep prh e) = target prh.
Proof.
  intros Hc He Hs. destruct e as [[[] [ds|]]|exhausted|]; simpl in *; try done.
  - unfold handleTask. simpl. by rewrite He, Hs.
  - unfold handleError. by rewrite He, Hs.
Qed.

Lemma scalingRun_inv es prh0 prh :
  minPollerCount prh = minPollerCount prh0 → maxPollerCount prh = maxPollerCount prh0 →
  target prh = target prh0 ∨ in_bounds prh →
  let prh' := scalingRun prh es in
  minPollerCount prh' = minPollerCount prh0 ∧ maxPollerCount prh' = maxPollerCount prh0 ∧
  (target prh' = target prh0 ∨ in_bounds prh').
Proof.
  revert prh. induction es as [|e es IH]; intros prh Hmin Hmax Ht; [done|]. simpl.
  destruct (scalingStep_scaled prh e) as [Hmin1 Hmax1 _ Ht1]. apply IH; [congruence..|].
  destruct Ht1 as [[Heq _]|[? _]]; [|by right]. unfold in_bounds in *. rewrite Heq, Hmin1, Hmax1. done.
Qed.

(** Whatever the service answers, the target of an autoscaler stays
    between the configured minimum and maximum (the initial value apart, until
    the first change); without support or a decision of the service it never
    moves, so errors and empty polls alone cannot scale a worker down. The
    target a runner uses is moreover at least the number of poller groups, and
    a runner that makes a poll wait has at least as many polls out and covers
    every group. *)
Theorem autoscaling_bounded (initial lo hi : Z) (supported : bool) (es : list scalingEvent)
    (r : autoscalingTaskPollerRunner) (m : pollerGroupManager) (ls : list pollerGroupLease) (ch : choices)
    (r' : autoscalingTaskPollerRunner) :
  let prh := scalingRun (newPollerAutoscaler initial hi lo supported) es in
  autoscaler r = prh → workflowBalancer r = None → pollerGroups r = Some m →
  manager_inv m ls → Choices ch →
  (target prh = initial ∨ Z.max lo 0 ≤ target prh ≤ Z.max hi (Z.max lo 0)) ∧
  (supported = false → forallb (λ e, negb (carriesDecision e)) es = true → target prh = initial) ∧
  Z.max lo (Z.of_nat (pgm_requiredMin m)) ≤ effectiveTarget r
    ≤ Z.max hi (Z.max lo (Z.of_nat (pgm_requiredMin m))) ∧
  (acquire_admit ch r = (Returned None, r') →
   effectiveTarget r ≤ runner_active r ∧ ∀ k, live (groupStore m) k → 0 < held ls k).
Proof.
  intros prh Hr Hnb Hg Hinv Hch.
  destruct (scalingRun_inv es (newPollerAutoscaler initial hi lo supported) _ eq_refl eq_refl (or_introl eq_refl))
    as (Hmin & Hmax & Ht). fold prh in Hmin, Hmax, Ht. split; [|split; [|split]].
  - unfold in_bounds in Ht. rewrite Hmin, Hmax in Ht. done.
  - intros Hs Hes. assert (∀ q, everSawScalingDecision q = false → serverSupportsAutoscaling q = false →
      target (scalingRun q es) = target q) as Hrun.
    { clear -Hes. induction es as [|e es IH]; intros q He Hs; [done|]. simpl in *.
      apply andb_true_iff in Hes as [Hc Hes]. apply negb_true_iff in Hc.
      destruct (scalingStep_undecided q e Hc He Hs) as [He' Ht'].
      rewrite <- Ht'. apply IH; [done|done|]. by rewrite (sc_supports _ _ (scalingStep_scaled q e)). }
    by apply Hrun.
  - unfold effectiveTarget. rewrite Hnb, Hg, Hr, Hmin, Hmax. apply effectivePollerTarget_bounds.
  - unfold acquire_admit. rewrite (bind_returned get _ r r r), Hnb, Hg by done. case_decide as Hlt.
    + destruct (reserve_run ch m ls Hinv) as (l & m1 & Hrun & _). unfold callManager, mbind, go_bind.
      by rewrite Hrun.
    + intros Hwait. split; [lia|]. unfold callManager, mbind, go_bind in Hwait.
      destruct (tryReserveRequired_covered ch m ls Hinv) as ([l|] & m1 & Hrun & Hall); rewrite Hrun in Hwait; [done|].
      by apply Hall.
Qed.

(** One group with its poll out, and a target of one. *)
Lemma autoscaling_bounded_witness :
  let m := final (pgm_updateGroups (Some (mkPollerGroupsInfo 1 [("a", f32_zero)])))
             (newPollerGroupManager newPollerGroupSnapshotStore) in
  let m1 := final (reserve firstChoices) m in
  let ls := [mkLease (mkPollerGroupKey "a" 1) TASK_QUEUE_KIND_UNSPECIFIED] in
  let prh := scalingRun (newPollerAutoscaler 5 100 1 true) [scaleError true; scaleError true] in
  live (groupStore m1) (mkPollerGroupKey "a" 1) ∧ 0 < held ls (mkPollerGroupKey "a" 1).
Proof.
  intros m m1 ls prh.
  assert (manager_inv m1 ls) as Hinv.
  { assert (reserve firstChoices m =
      (Returned (mkLease (mkPollerGroupKey "a" 1) TASK_QUEUE_KIND_UNSPECIFIED), m1)) as Hrun
      by (vm_compute; reflexivity).
    destruct (reserve_run firstChoices m []) as (l & m2 & Hr & Hi & _).
    - exact (tracks_update _ _ _ _ _ _ _ _ (manager_inv_new _ new_store_wf)).
    - rewrite Hrun in Hr. injection Hr as <- <-. exact Hi. }
  assert (live (groupStore m1) (mkPollerGroupKey "a" 1)) as Hlive
    by (eexists; vm_compute; split; reflexivity).
  split; [exact Hlive|]. revert Hlive. generalize (mkPollerGroupKey "a" 1).
  apply (autoscaling_bounded 5 1 100 true [scaleError true; scaleError true]
    (mkRunner prh (Some m1) None TASK_QUEUE_KIND_NORMAL false 1) m1 ls firstChoices
    (mkRunner prh (Some m1) None TASK_QUEUE_KIND_NORMAL false 1)); try reflexivity; try exact Hinv.
  exact firstChoices_ok.
Defined.
