(* ===== verification/Completion.v ===== *)
(** * Sending the completion of a workflow task.

    [src/internal/internal_workflow_task_pagination.go] and
    [respondWorkflowTaskCompleted] of [src/internal/internal_task_pollers.go]: a
    completion that is too large for one request is split into pages, which are
    sent in any order and put together by the service. *)

From stdpp Require Import base list sorting gmap strings.
From S2P Require Import Prelude Proto.
Open Scope Z_scope.

(** ** Requests *)

(** [workflowservice.RespondWorkflowTaskCompletedRequest]; [req_rest] stands for
    the fields that are not looked at: messages, flags, metadata. *)
Record completedRequest (Rest : Type) : Type := mkCompletedRequest {
  req_TaskToken : string;
  req_Identity : string;
  req_Namespace : string;
  req_ResourceId : string;
  req_IntermediatePage : bool;
  req_PageNumber : Z;
  req_Commands : list Command;
  req_rest : Rest;
}.
Arguments mkCompletedRequest {Rest}.
Arguments req_TaskToken {Rest}.
Arguments req_Identity {Rest}.
Arguments req_Namespace {Rest}.
Arguments req_ResourceId {Rest}.
Arguments req_IntermediatePage {Rest}.
Arguments req_PageNumber {Rest}.
Arguments req_Commands {Rest}.
Arguments req_rest {Rest}.

Definition maxWorkflowTaskCompletionPageBytes : Z := 4 * 1024 * 1024 - 512 * 1024.
Definition workflowTaskCompletionPageResendInitialBackoff : Z := 100 * 1000000.
Definition workflowTaskCompletionPageResendMaxBackoff : Z := 5 * 1000000000.

Section Pagination.
  Context {Rest : Type}.
  (** The fields of a page that the splitter leaves unset. *)
  Variable noRest : Rest.
  (** [proto.Size]. *)
  Variable requestSize : completedRequest Rest → Z.
  Variable commandSize : Command → Z.

Definition newIntermediatePage (request : completedRequest Rest) (commands : list Command)
    (pageNumber : nat) : completedRequest Rest :=
  mkCompletedRequest (req_TaskToken request) (req_Identity request) (req_Namespace request)
    (req_ResourceId request) true (wrap32 (Z.of_nat pageNumber)) commands noRest.

(** The loop that distributes the commands: the pages so far, the page that is
    being filled and its size. *)
Fixpoint packCommands (request : completedRequest Rest) (maxPageBytes : Z) (commands : list Command)
    (pages : list (completedRequest Rest)) (current : list Command) (currentLen : Z)
    : list (completedRequest Rest) :=
  match commands with
  | [] =>
      if decide (0 < length current)%nat
      then pages ++ [newIntermediatePage request current (length pages)] else pages
  | command :: commands' =>
      let commandLen := commandSize command in
      if bool_decide (0 < length current)%nat && bool_decide (maxPageBytes < currentLen + commandLen)
      then packCommands request maxPageBytes commands'
             (pages ++ [newIntermediatePage request current (length pages)]) [command] commandLen
      else packCommands request maxPageBytes commands' pages (current ++ [command])
             (currentLen + commandLen)
  end.

(** The intermediate pages and the final page. *)
Definition paginateWorkflowTaskCompletion (request : completedRequest Rest) (maxPageBytes : Z)
    : list (completedRequest Rest) * completedRequest Rest :=
  if decide (requestSize request ≤ maxPageBytes) then ([], request)
  else if decide (length (req_Commands request) = 0%nat) then ([], request)
  else if existsb (λ c, bool_decide (maxPageBytes < commandSize c)) (req_Commands request)
  then ([], request)
  else
    let pages := packCommands request maxPageBytes (req_Commands request) [] [] 0 in
    (pages, mkCompletedRequest (req_TaskToken request) (req_Identity request) (req_Namespace request)
              (req_ResourceId request) false (wrap32 (Z.of_nat (length pages))) [] (req_rest request)).

(** ** Sending *)

(** The outcome of one attempt to send all pages: the errors the intermediate
    pages met, in the order in which they occurred, and the answer to the final
    page. [errgroup.Wait] returns the first error. *)
Record attempt : Type := mkAttempt {
  pageErrors : list string;
  finalAnswer : string + string;
}.

Definition sendWorkflowTaskCompletionPages (at_ : attempt) : string + string :=
  match pageErrors at_ with
  | err :: _ => inl err
  | [] => finalAnswer at_
  end.

(** [retry.IsWorkflowTaskCompletionBufferLost]. *)
Variable isBufferLost : string → bool.

(** The loop over the attempts; [stopped i] tells whether the worker is stopped
    while it waits after the attempt [i]. The waits are returned too. *)
Fixpoint sendPaginatedLoop (attempts : list attempt) (stopped : nat → bool) (i : nat) (backoff : Z)
    : option (string + string) * list Z :=
  match attempts with
  | [] => (None, [])
  | at_ :: attempts' =>
      match sendWorkflowTaskCompletionPages at_ with
      | inr response => (Some (inr response), [])
      | inl err =>
          if negb (isBufferLost err) then (Some (inl err), [])
          else if stopped i then (Some (inl err), [])
          else
            let next := if decide (workflowTaskCompletionPageResendMaxBackoff < backoff * 2)
                        then workflowTaskCompletionPageResendMaxBackoff else backoff * 2 in
            let (r, waits) := sendPaginatedLoop attempts' stopped (S i) next in
            (r, backoff :: waits)
      end
  end.

Definition sendPaginatedWorkflowTaskCompletion (attempts : list attempt) (stopped : nat → bool)
    : option (string + string) * list Z :=
  sendPaginatedLoop attempts stopped 0 workflowTaskCompletionPageResendInitialBackoff.

(** ** Packing *)

Definition bodySize (commands : list Command) : Z := foldr (λ c n, commandSize c + n) 0 commands.

Lemma bodySize_app cs ds : bodySize (cs ++ ds) = bodySize cs + bodySize ds.
Proof. induction cs as [|c cs IH]; simpl; [done|]. rewrite IH. lia. Qed.

(** The commands of the pages that packing makes. *)
Fixpoint packs (maxPageBytes : Z) (commands current : list Command) : list (list Command) :=
  match commands with
  | [] => if decide (0 < length current)%nat then [current] else []
  | c :: cs =>
      if bool_decide (0 < length current)%nat && bool_decide (maxPageBytes < bodySize current + commandSize c)
      then current :: packs maxPageBytes cs [c]
      else packs maxPageBytes cs (current ++ [c])
  end.

Lemma packCommands_packs request mx cs : ∀ pages cur,
  packCommands request mx cs pages cur (bodySize cur) =
  pages ++ imap (λ i p, newIntermediatePage request p (length pages + i)) (packs mx cs cur).
Proof.
  induction cs as [|c cs IH]; intros pages cur; simpl.
  - case_decide; simpl; [by rewrite Nat.add_0_r|by rewrite app_nil_r].
  - destruct (_ && _).
    + replace (commandSize c) with (bodySize [c]) by (simpl; lia). rewrite IH, <- app_assoc. f_equal. simpl.
      rewrite Nat.add_0_r. f_equal. apply imap_ext. intros i p _. rewrite length_app. simpl.
      f_equal. lia.
    + replace (bodySize cur + commandSize c) with (bodySize (cur ++ [c])) by (rewrite bodySize_app; simpl; lia).
      apply IH.
Qed.

Lemma packs_concat mx cs : ∀ cur, concat (packs mx cs cur) = cur ++ cs.
Proof.
  induction cs as [|c cs IH]; intros cur; simpl.
  - case_decide as H; simpl; [done|]. destruct cur; [done|]. simpl in H. lia.
  - destruct (_ && _); simpl; rewrite IH; [done|]. by rewrite <- app_assoc.
Qed.

(** Every page is used and, if no command is too large by itself, fits. *)
Lemma packs_fit mx cs : ∀ cur,
  Forall (λ c, commandSize c ≤ mx) cs → (cur ≠ [] → bodySize cur ≤ mx) →
  Forall (λ p, p ≠ [] ∧ bodySize p ≤ mx) (packs mx cs cur).
Proof.
  induction cs as [|c cs IH]; intros cur Hcs Hcur; simpl.
  - case_decide as H; [|done]. apply Forall_singleton. destruct cur; [simpl in H; lia|]. auto.
  - apply Forall_cons in Hcs as [Hc Hcs]. destruct (_ && _) eqn:Hb.
    + apply andb_true_iff in Hb as [Hb _]. apply bool_decide_eq_true in Hb. constructor.
      * destruct cur; [simpl in Hb; lia|]. auto.
      * apply IH; [done|]. simpl. intros _. lia.
    + apply IH; [done|]. intros _. rewrite bodySize_app. simpl.
      apply andb_false_iff in Hb as [Hb|Hb]; apply bool_decide_eq_false in Hb.
      * destruct cur; simpl in *; lia.
      * lia.
Qed.

Lemma split_concat {A} (parts : list (list A)) (l : list A) c r :
  concat parts = l ++ c :: r →
  ∃ ps1 x y ps2, parts = ps1 ++ (x ++ c :: y) :: ps2 ∧ l = concat ps1 ++ x ∧ r = y ++ concat ps2.
Proof.
  revert l. induction parts as [|p ps IH]; intros l H; simpl in H; [by destruct l|].
  apply app_eq_app in H as [k [[-> H]|[-> H]]].
  - destruct k as [|c' k]; simplify_eq/=.
    + destruct (IH [] (eq_sym H)) as (ps1 & x & y & ps2 & -> & Hl & ->).
      symmetry in Hl. apply app_nil in Hl as [Hl ->].
      exists ((l ++ []) :: ps1), [], y, ps2. by rewrite app_nil_r; simpl; rewrite Hl, !app_nil_r.
    + exists [], l, k, ps. by split_and!.
  - destruct (IH k H) as (ps1 & x & y & ps2 & -> & -> & ->).
    exists (p :: ps1), x, y, ps2. split_and!; [done| |done]. simpl. by rewrite app_assoc.
Qed.

(** Packing uses as few pages as any division of the commands into consecutive
    pages that fit. *)
Lemma packs_minimal mx cs : ∀ cur pre parts,
  (∀ c, 0 ≤ commandSize c) → cur ≠ [] → Forall (λ p, bodySize p ≤ mx) parts →
  concat parts = pre ++ cur ++ cs → (length (packs mx cs cur) ≤ length parts)%nat.
Proof.
  induction cs as [|c cs IH]; intros cur pre parts Hpos Hne Hfit Hcat; simpl.
  - rewrite decide_True by (destruct cur; [done|simpl; lia]). destruct parts; [|simpl; lia].
    simpl in Hcat. destruct cur; [done|]. destruct pre; done.
  - destruct (_ && _) eqn:Hb.
    + apply andb_true_iff in Hb as [_ Hb]. apply bool_decide_eq_true in Hb.
      rewrite app_assoc in Hcat. apply split_concat in Hcat as (ps1 & x & y & ps2 & -> & Hl & ->).
      apply Forall_app in Hfit as [_ Hfit]. rewrite length_app. destruct ps1 as [|p1 ps1].
      * exfalso. apply Forall_cons in Hfit as [Hfit _]. simpl in Hl. subst x.
        rewrite !bodySize_app in Hfit. simpl in Hfit.
        assert (∀ l, 0 ≤ bodySize l) as Hbody by (intros l; induction l; simpl; [lia|specialize (Hpos a); lia]).
        pose proof (Hbody pre). pose proof (Hbody y). lia.
      * simpl. apply le_n_S. etrans; [apply (IH [c] x ((x ++ c :: y) :: ps2)); [done|done|done|]|simpl; lia].
        simpl. by rewrite <- app_assoc.
    + apply (IH (cur ++ [c]) pre); [done|by destruct cur|done|]. by rewrite <- !app_assoc.
Qed.
End Pagination.

(** ** What the service makes of the pages

    It keeps the commands of the intermediate pages by page number, and takes
    as many as the number of the final page says. *)
Definition pageBuffer {Rest} (pages : list (completedRequest Rest)) : gmap Z (list Command) :=
  list_to_map ((λ p, (req_PageNumber p, req_Commands p)) <$> pages).

Definition recombine {Rest} (pages : list (completedRequest Rest)) (final : completedRequest Rest)
    : list Command :=
  concat ((λ i, default [] (pageBuffer pages !! i)) <$> seqZ 0 (req_PageNumber final))
  ++ req_Commands final.

Lemma wrap32_nat n : Z.of_nat n < 2 ^ 31 → wrap32 (Z.of_nat n) = Z.of_nat n.
Proof. intros Hn. unfold wrap32. rewrite Z.mod_small; lia. Qed.

Section Recombination.
Context {Rest : Type} (noRest : Rest) (request : completedRequest Rest) (pss : list (list Command)).
Context (Hlen : Z.of_nat (length pss) < 2 ^ 31).

Let pages := imap (λ i p, newIntermediatePage noRest request p i) pss.

Lemma pages_numbers : (req_PageNumber <$> pages) = Z.of_nat <$> seq 0 (length pss).
Proof.
  unfold pages. apply list_eq. intros i. rewrite !list_lookup_fmap, list_lookup_imap.
  destruct (pss !! i) as [p|] eqn:Hi.
  - pose proof (lookup_lt_Some _ _ _ Hi). rewrite lookup_seq_lt by done. simpl. by rewrite wrap32_nat by lia.
  - apply lookup_ge_None in Hi. by rewrite lookup_seq_ge.
Qed.

Lemma pageBuffer_lookup sent i :
  sent ≡ₚ pages → (i < length pss)%nat → pageBuffer sent !! Z.of_nat i = pss !! i.
Proof.
  intros Hperm Hi. unfold pageBuffer.
  assert (NoDup (((λ p, (req_PageNumber p, req_Commands p)) <$> sent).*1)) as Hnd.
  { rewrite <- list_fmap_compose. change (_ ∘ _) with (@req_PageNumber Rest). rewrite Hperm, pages_numbers.
    apply NoDup_fmap_2; [apply _|apply NoDup_seq]. }
  destruct (pss !! i) as [p|] eqn:Hp; [|apply lookup_ge_None in Hp; lia].
  apply elem_of_list_to_map; [done|]. apply list_elem_of_fmap.
  exists (newIntermediatePage noRest request p i). simpl. rewrite wrap32_nat by lia. split; [done|].
  rewrite Hperm. apply list_elem_of_lookup. exists i. unfold pages. by rewrite list_lookup_imap, Hp.
Qed.

Lemma recombine_pages sent (final : completedRequest Rest) :
  sent ≡ₚ pages → req_PageNumber final = Z.of_nat (length pss) → req_Commands final = [] →
  recombine sent final = concat pss.
Proof.
  intros Hperm Hn Hc. unfold recombine. rewrite Hn, Hc, app_nil_r. f_equal.
  unfold seqZ. rewrite Nat2Z.id, <- list_fmap_compose. apply list_eq. intros i. rewrite list_lookup_fmap.
  destruct (decide (i < length pss)%nat) as [Hi|Hi].
  - rewrite lookup_seq_lt by done. simpl. rewrite Z.add_0_r, (pageBuffer_lookup sent i Hperm Hi).
    destruct (lookup_lt_is_Some_2 _ _ Hi) as [p ->]. done.
  - rewrite lookup_seq_ge by lia. simpl. symmetry. apply lookup_ge_None. lia.
Qed.
End Recombination.

Lemma packs_length commandSize mx cs cur :
  cur ≠ [] → (length (packs commandSize mx cs cur) ≤ S (length cs))%nat.
Proof.
  revert cur. induction cs as [|c cs IH]; intros cur Hne; simpl; [case_decide; simpl; lia|].
  destruct (_ && _); simpl.
  - specialize (IH [c] ltac:(done)). lia.
  - etrans; [apply IH; by destruct cur|lia].
Qed.

(** The pages and the final page carry what the request does. *)
Record carries {Rest} (commandSize : Command → Z) (mx : Z) (request : completedRequest Rest)
    (pages sent : list (completedRequest Rest)) (final : completedRequest Rest) : Prop := {
  carries_commands : recombine sent final = req_Commands request;
  carries_rest : req_rest final = req_rest request ∧ req_TaskToken final = req_TaskToken request;
  carries_whole : pages = [] → final = request;
  carries_fit : Forall (λ p, req_Commands p ≠ [] ∧ bodySize commandSize (req_Commands p) ≤ mx ∧
                             req_TaskToken p = req_TaskToken request) pages;
  carries_minimal parts : Forall (λ p, bodySize commandSize p ≤ mx) parts →
    concat parts = req_Commands request → (length pages ≤ length parts)%nat;
}.

Lemma carries_unsplit {Rest} commandSize mx (request : completedRequest Rest) :
  carries commandSize mx request [] [] request.
Proof.
  split; [|done..|intros; simpl; lia]. unfold recombine, pageBuffer. simpl.
  rewrite (proj2 (concat_nil_Forall _)); [done|]. apply Forall_fmap, Forall_true. intros i.
  simpl. by rewrite lookup_empty.
Qed.

Lemma carries_split {Rest} (noRest : Rest) commandSize mx (request final : completedRequest Rest) sent c cs :
  (∀ c, 0 ≤ commandSize c) → req_Commands request = c :: cs → Z.of_nat (length (c :: cs)) < 2 ^ 31 →
  Forall (λ c, commandSize c ≤ mx) (c :: cs) →
  req_rest final = req_rest request → req_TaskToken final = req_TaskToken request → req_Commands final = [] →
  let pss := packs commandSize mx cs [c] in
  let pages := imap (λ i p, newIntermediatePage noRest request p i) pss in
  req_PageNumber final = wrap32 (Z.of_nat (length pages)) → sent ≡ₚ pages →
  carries commandSize mx request pages sent final.
Proof.
  intros Hpos Hcs Hlen Hfit Hrest Htok Hfc pss pages Hn Hsent.
  assert (length pages = length pss) as Hpl by apply length_imap.
  assert (Z.of_nat (length pss) < 2 ^ 31) as Hl.
  { pose proof (packs_length commandSize mx cs [c] ltac:(done)). fold pss in H. simpl in Hlen. lia. }
  apply Forall_cons in Hfit as [Hc Hfit]. split; [|done|..].
  - rewrite Hcs, (recombine_pages noRest request pss Hl sent final Hsent); [|by rewrite Hn, Hpl, wrap32_nat|done].
    apply packs_concat.
  - intros Hnil. apply (f_equal length) in Hnil. simpl in Hnil. rewrite Hpl in Hnil.
    apply length_zero_iff_nil in Hnil. pose proof (packs_concat commandSize mx cs [c]) as Hcat.
    fold pss in Hcat. by rewrite Hnil in Hcat.
  - apply Forall_lookup. intros i p. unfold pages. rewrite list_lookup_imap, fmap_Some. intros (ps & Hps & ->).
    assert (Forall (λ p, p ≠ [] ∧ bodySize commandSize p ≤ mx) pss) as Hall.
    { apply packs_fit; [done|]. simpl. intros _. lia. }
    by destruct (Forall_lookup_1 _ _ _ _ Hall Hps).
  - intros parts Hparts Hcat. rewrite Hpl. apply (packs_minimal commandSize mx cs [c] []); [done..|].
    by rewrite Hcat, Hcs.
Qed.



(** ** Resending *)

Lemma sendPaginatedLoop_waits isBufferLost attempts stopped : ∀ i backoff,
  workflowTaskCompletionPageResendInitialBackoff ≤ backoff ≤ workflowTaskCompletionPageResendMaxBackoff →
  Forall (λ w, workflowTaskCompletionPageResendInitialBackoff ≤ w
               ≤ workflowTaskCompletionPageResendMaxBackoff)
    (sendPaginatedLoop isBufferLost attempts stopped i backoff).2.
Proof.
  unfold workflowTaskCompletionPageResendInitialBackoff, workflowTaskCompletionPageResendMaxBackoff.
  induction attempts as [|a attempts IH]; intros i backoff Hb; simpl; [done|].
  destruct (sendWorkflowTaskCompletionPages a) as [err|r]; [|done].
  destruct (negb _); [done|]. destruct (stopped i); [done|].
  case_decide as Hd; (destruct (sendPaginatedLoop isBufferLost attempts stopped (S i) _) as [r waits] eqn:Hr);
    simpl; (constructor; [done|]); (apply (f_equal snd) in Hr; simpl in Hr; rewrite <- Hr; apply IH);
    unfold workflowTaskCompletionPageResendMaxBackoff in *; lia.
Qed.

(** While the worker is not stopped, the pages are sent again exactly as long
    as the service has lost its buffer. *)
Lemma sendPaginated_resends isBufferLost lost a attempts :
  Forall (λ b, ∃ err, sendWorkflowTaskCompletionPages b = inl err ∧ isBufferLost err = true) lost →
  (∀ err, sendWorkflowTaskCompletionPages a = inl err → isBufferLost err = false) →
  let r := sendPaginatedWorkflowTaskCompletion isBufferLost (lost ++ a :: attempts) (λ _, false) in
  r.1 = Some (sendWorkflowTaskCompletionPages a) ∧ length r.2 = length lost.
Proof.
  intros Hlost Ha. unfold sendPaginatedWorkflowTaskCompletion.
  generalize workflowTaskCompletionPageResendInitialBackoff as backoff, 0%nat as i.
  induction Hlost as [|b lost (err & Hb & Hbl) _ IH]; intros backoff i; simpl.
  - destruct (sendWorkflowTaskCompletionPages a) as [err|r] eqn:E; [|done]. by rewrite Ha.
  - rewrite Hb, Hbl. simpl.
    set (next := if decide _ then _ else _). specialize (IH next (S i)).
    destruct (sendPaginatedLoop _ _ _ (S i) next) as [r waits]. simpl in *. destruct IH as [-> ->]. done.
Qed.
