(* ===== verification/Context.v ===== *)
(** * Workflow contexts ([src/internal/context.go]).

    A context is a chain of values over cancellable contexts.  A cancellable
    context keeps its live children in a [childList], a map by identity
    threaded with a doubly linked list in creation order; cancelling it closes
    its [Done] channel and cancels the children.  The contexts, the list nodes
    and the channels of a workflow live in one store, and [Done] channels are
    the channels of [Channel.v], so closing one runs the callbacks blocked on
    it. *)

From stdpp Require Import base list gmap strings.
From S2P Require Import Prelude Channel Flags.
Open Scope nat_scope.

(** ** Data *)

(** [ErrCanceled], by its message. *)
Definition ErrCanceled : string := "canceled".

Record childNode : Type := mkChildNode {
  cn_child : nat;
  cn_prev : option nat;
  cn_next : option nat;
}.

(** A [canceler] is a [cancelCtx], by its address; so is a [childNode].  A nil
    map reads as the empty one. *)
Record childList : Type := mkChildList {
  cl_nodes : gmap nat nat;
  cl_first : option nat;
  cl_last : option nat;
}.

Definition emptyChildList : childList := mkChildList ∅ None None.

Section Contexts.
  (** The keys and values of contexts; the flags of [Select] and the value of
      [sdkFlagsAllowed]; the order in which Go ranges over a map. *)
  Context {V K : Type} `{EqDecision K}.
  Variable dropSignalFlag channelLostMsgFlag : bool.
  Variable allowed : gmap sdkFlag bool.
  Variable rangeKeys : gmap nat nat → list nat.

(** The implementations of [Context]: [emptyCtx], a [*cancelCtx] and a
    [*valueCtx]. *)
Inductive Ctx : Type :=
| emptyCtx
| cancelCtxAt (c : nat)
| valueCtx (parent : Ctx) (key : K) (val : option V).

Record cancelCtx : Type := mkCancelCtx {
  cc_Context : Ctx;
  cc_done : nat;
  cc_children : childList;
  cc_err : option string;
}.

Record ctxWorld : Type := mkCtxWorld {
  cw_world : world V;
  cw_cancelCtxs : gmap nat cancelCtx;
  cw_childNodes : gmap nat childNode;
  cw_sdkFlags : sdkFlags;
  cw_isReplay : bool;
}.

Abbreviation C := (Go ctxWorld).

Definition set_world (w : world V) (s : ctxWorld) : ctxWorld :=
  mkCtxWorld w (cw_cancelCtxs s) (cw_childNodes s) (cw_sdkFlags s) (cw_isReplay s).
Definition set_cancelCtxs (m : gmap nat cancelCtx) (s : ctxWorld) : ctxWorld :=
  mkCtxWorld (cw_world s) m (cw_childNodes s) (cw_sdkFlags s) (cw_isReplay s).
Definition set_childNodes (m : gmap nat childNode) (s : ctxWorld) : ctxWorld :=
  mkCtxWorld (cw_world s) (cw_cancelCtxs s) m (cw_sdkFlags s) (cw_isReplay s).
Definition set_sdkFlags (f : sdkFlags) (s : ctxWorld) : ctxWorld :=
  mkCtxWorld (cw_world s) (cw_cancelCtxs s) (cw_childNodes s) f (cw_isReplay s).

(** An operation on channels. *)
Definition onWorld {A} (m : Go (world V) A) : C A := λ s,
  let (r, w) := m (cw_world s) in (r, set_world w s).

Definition nilCtx {A} : C A :=
  panic (runtimeError "invalid memory address or nil pointer dereference").

Definition getCancelCtx (c : nat) : C cancelCtx :=
  s ← get;
  match cw_cancelCtxs s !! c with
  | Some cc => mret cc
  | None => nilCtx
  end.
Definition putCancelCtx (c : nat) (cc : cancelCtx) : C unit :=
  modify (λ s, set_cancelCtxs (<[c := cc]> (cw_cancelCtxs s)) s).

Definition getChildNode (n : nat) : C childNode :=
  s ← get;
  match cw_childNodes s !! n with
  | Some node => mret node
  | None => nilCtx
  end.
Definition putChildNode (n : nat) (node : childNode) : C unit :=
  modify (λ s, set_childNodes (<[n := node]> (cw_childNodes s)) s).

Definition with_children (l : childList) (cc : cancelCtx) : cancelCtx :=
  mkCancelCtx (cc_Context cc) (cc_done cc) l (cc_err cc).
Definition with_err (e : option string) (cc : cancelCtx) : cancelCtx :=
  mkCancelCtx (cc_Context cc) (cc_done cc) (cc_children cc) e.

(** ** Reading a context *)

(** The channel of [Done], nil for [emptyCtx]. *)
Fixpoint Done (ctx : Ctx) : C (option nat) :=
  match ctx with
  | emptyCtx => mret None
  | cancelCtxAt c => cc ← getCancelCtx c; mret (Some (cc_done cc))
  | valueCtx parent _ _ => Done parent
  end.

Fixpoint Err (ctx : Ctx) : C (option string) :=
  match ctx with
  | emptyCtx => mret None
  | cancelCtxAt c => cc ← getCancelCtx c; mret (cc_err cc)
  | valueCtx parent _ _ => Err parent
  end.

(** [Value] follows the embedded contexts to the root.  A context is older
    than those it is embedded in, so the allocation counter bounds the chain. *)
Fixpoint valueFrom (key : K) (fuel : nat) : Ctx → C (option V) :=
  fix up ctx :=
    match ctx with
    | emptyCtx => mret None
    | valueCtx parent k v => if decide (k = key) then mret v else up parent
    | cancelCtxAt c =>
        match fuel with
        | O => nilCtx
        | S fuel' => cc ← getCancelCtx c; valueFrom key fuel' (cc_Context cc)
        end
    end.

Definition Value (ctx : Ctx) (key : K) : C (option V) :=
  s ← get; valueFrom key (next_id (cw_world s)) ctx.

Definition WithValue (parent : Ctx) (key : K) (val : option V) : Ctx := valueCtx parent key val.

(** The nearest cancellable context, without passing through another. *)
Fixpoint parentCancelCtx (parent : Ctx) : option nat :=
  match parent with
  | emptyCtx => None
  | cancelCtxAt c => Some c
  | valueCtx parent' _ _ => parentCancelCtx parent'
  end.

(** ** The list of children *)

(** [l.last.next = node] and [l.first = node]. *)
Definition add (l : childList) (child : nat) : C childList :=
  match cl_nodes l !! child with
  | Some _ => mret l
  | None =>
      node ← onWorld fresh_id;
      _ ← putChildNode node (mkChildNode child (cl_last l) None);
      _ ← match cl_last l with
          | None => mret tt
          | Some last =>
              lastNode ← getChildNode last;
              putChildNode last (mkChildNode (cn_child lastNode) (cn_prev lastNode) (Some node))
          end;
      mret (mkChildList (<[child := node]> (cl_nodes l))
              (match cl_last l with None => Some node | Some _ => cl_first l end) (Some node))
  end.

Definition remove (l : childList) (child : nat) : C childList :=
  match cl_nodes l !! child with
  | None => mret l
  | Some n =>
      node ← getChildNode n;
      _ ← match cn_prev node with
          | None => mret tt
          | Some p =>
              prev ← getChildNode p;
              putChildNode p (mkChildNode (cn_child prev) (cn_prev prev) (cn_next node))
          end;
      _ ← match cn_next node with
          | None => mret tt
          | Some x =>
              next ← getChildNode x;
              putChildNode x (mkChildNode (cn_child next) (cn_prev node) (cn_next next))
          end;
      _ ← putChildNode n (mkChildNode (cn_child node) None None);
      mret (mkChildList (delete child (cl_nodes l))
              (match cn_prev node with None => cn_next node | Some _ => cl_first l end)
              (match cn_next node with None => cn_prev node | Some _ => cl_last l end))
  end.

Definition removeChild (parent : Ctx) (child : nat) : C unit :=
  match parentCancelCtx parent with
  | None => mret tt
  | Some p =>
      pc ← getCancelCtx p;
      l ← remove (cc_children pc) child;
      pc' ← getCancelCtx p;
      putCancelCtx p (with_children l pc')
  end.

(** ** Cancellation *)

(** [GetWorkflowEnvironment(c).TryUse]: every context of a workflow has the
    environment among its values. *)
Definition TryUse (flag : sdkFlag) : C bool :=
  s ← get;
  let (b, flags) := tryUse allowed flag (negb (cw_isReplay s)) (cw_sdkFlags s) in
  _ ← modify (set_sdkFlags flags);
  mret b.

(** [for node := children.first; node != nil; node = node.next].  The list has
    one node for each key of the map. *)
Fixpoint walkNodes (visit : nat → C unit) (fuel : nat) (node : option nat) : C unit :=
  match node, fuel with
  | None, _ => mret tt
  | Some _, O => nilCtx
  | Some n, S fuel' =>
      nd ← getChildNode n;
      _ ← visit (cn_child nd);
      nd' ← getChildNode n;
      walkNodes visit fuel' (cn_next nd')
  end.

(** [for child := range children.nodes] *)
Fixpoint visitAll (visit : nat → C unit) (l : list nat) : C unit :=
  match l with
  | [] => mret tt
  | d :: l' => _ ← visit d; visitAll visit l'
  end.

(** Children are newer than their parent, so the allocation counter bounds the
    depth of the recursion. *)
Fixpoint cancel (fuel : nat) (c : nat) (removeFromParent : bool) (err : option string) : C unit :=
  match fuel, err with
  | O, _ => nilCtx
  | S _, None => panic (panicString "context: internal error: missing cancel error")
  | S fuel', Some _ =>
      cc ← getCancelCtx c;
      if decide (cc_err cc ≠ None) then mret tt
      else
        _ ← putCancelCtx c (with_err err cc);
        _ ← onWorld (Close dropSignalFlag channelLostMsgFlag (cc_done cc));
        cc' ← getCancelCtx c;
        let children := cc_children cc' in
        _ ← putCancelCtx c (with_children emptyChildList cc');
        ordered ← (if decide (1 < size (cl_nodes children))
                   then TryUse SDKFlagOrderedChildCancel else mret false);
        let visit child := cancel fuel' child false err in
        _ ← (if ordered : bool
             then walkNodes visit (size (cl_nodes children)) (cl_first children)
             else visitAll visit (rangeKeys (cl_nodes children)));
        if removeFromParent then removeChild (cc_Context cc) c else mret tt
  end.

(** The function returned with a cancellable context. *)
Definition CancelFunc (c : nat) : C unit :=
  s ← get; cancel (S (next_id (cw_world s))) c true (Some ErrCanceled).

(** ** Creating a context *)

Definition newCancelCtx (parent : Ctx) : C nat :=
  done ← onWorld (NewBufferedChannel 0);
  c ← onWorld fresh_id;
  _ ← putCancelCtx c (mkCancelCtx parent done emptyChildList None);
  mret c.

(** The new child has no children of its own, so cancelling it is one call. *)
Definition propagateCancel (parent : Ctx) (child : nat) : C unit :=
  done ← Done parent;
  match done with
  | None => mret tt
  | Some _ =>
      match parentCancelCtx parent with
      | Some p =>
          parentErr ← Err (cancelCtxAt p);
          match parentErr with
          | Some e => cancel 1 child false (Some e)
          | None =>
              pc ← getCancelCtx p;
              l ← add (cc_children pc) child;
              pc' ← getCancelCtx p;
              putCancelCtx p (with_children l pc')
          end
      | None => panic (panicString "cancelCtx not found")
      end
  end.

Definition WithCancel (parent : Ctx) : C nat :=
  c ← newCancelCtx parent;
  _ ← propagateCancel parent c;
  mret c.

Definition NewDisconnectedContext (parent : Ctx) : C nat := newCancelCtx parent.
End Contexts.
