(* ===== verification/ContextChildren.v ===== *)
(** * The children of a context are an ordered set.

    [childList] implements a duplicate-free list in creation order: a node for
    every child, doubly linked, with the map giving a child's node.  [add]
    appends and [remove] deletes; both leave the nodes of other lists alone. *)

From stdpp Require Import base list gmap strings.
From S2P Require Import Prelude Channel Flags Context.
Open Scope nat_scope.

(** ** Doubly linked segments *)

(** The address of the first node of a segment followed by [nx], and of the
    last node of one preceded by [p]. *)
Definition firstNode (L : list (nat * nat)) (nx : option nat) : option nat :=
  match L with [] => nx | (n, _) :: _ => Some n end.
Fixpoint lastNode (p : option nat) (L : list (nat * nat)) : option nat :=
  match L with [] => p | (n, _) :: L' => lastNode (Some n) L' end.

(** The nodes [L], pairs of an address and a child, are linked in this order
    between [p] and [nx]. *)
Fixpoint dseg (h : gmap nat childNode) (p : option nat) (L : list (nat * nat))
    (nx : option nat) : Prop :=
  match L with
  | [] => True
  | (n, d) :: L' =>
      h !! n = Some (mkChildNode d p (firstNode L' nx)) ∧ dseg h (Some n) L' nx
  end.

Definition setNext (h : gmap nat childNode) (p v : option nat) : gmap nat childNode :=
  match p with
  | None => h
  | Some n => alter (λ nd, mkChildNode (cn_child nd) (cn_prev nd) v) n h
  end.
Definition setPrev (h : gmap nat childNode) (x v : option nat) : gmap nat childNode :=
  match x with
  | None => h
  | Some n => alter (λ nd, mkChildNode (cn_child nd) v (cn_next nd)) n h
  end.

(** The list [l] holds the children [L.*2], in this order. *)
Record childList_rep (h : gmap nat childNode) (l : childList) (L : list (nat * nat)) : Prop := {
  rep_nodes : cl_nodes l = list_to_map (prod_swap <$> L);
  rep_first : cl_first l = firstNode L None;
  rep_last : cl_last l = lastNode None L;
  rep_linked : dseg h None L None;
  rep_distinct : NoDup L.*2;
}.

Lemma firstNode_app L1 L2 nx : firstNode (L1 ++ L2) nx = firstNode L1 (firstNode L2 nx).
Proof. by destruct L1 as [|[??]]. Qed.

Lemma lastNode_app L1 : ∀ p L2, lastNode p (L1 ++ L2) = lastNode (lastNode p L1) L2.
Proof. induction L1 as [|[??] L1 IH]; intros; [done|apply IH]. Qed.

Lemma firstNode_in L n : firstNode L None = Some n → n ∈ L.*1.
Proof. destruct L as [|[??]]; intros [=->]. left. Qed.

Lemma lastNode_in L : ∀ n p, lastNode p L = Some n → p = Some n ∨ n ∈ L.*1.
Proof.
  induction L as [|[m d] L IH]; intros n p Hn; [by left|right].
  destruct (IH _ _ Hn) as [[=->]|?]; set_solver.
Qed.

Lemma lastNode_Some L : ∀ n, lastNode (Some n) L ≠ None.
Proof. induction L as [|[m d] L IH]; intros n; [done|apply IH]. Qed.

Lemma dseg_app h L1 : ∀ p L2 nx,
  dseg h p (L1 ++ L2) nx ↔ dseg h p L1 (firstNode L2 nx) ∧ dseg h (lastNode p L1) L2 nx.
Proof.
  induction L1 as [|[n d] L1 IH]; intros p L2 nx; simpl; [tauto|].
  rewrite IH, firstNode_app. tauto.
Qed.

Lemma dseg_frame h h' L : ∀ p nx,
  (∀ n, n ∈ L.*1 → h' !! n = h !! n) → dseg h p L nx → dseg h' p L nx.
Proof.
  induction L as [|[n d] L IH]; intros p nx Heq; [done|]. intros [Hn HL]. split.
  - by rewrite Heq by (simpl; left).
  - apply IH; [|done]. intros m Hm. apply Heq. by right.
Qed.

Lemma dseg_child h L : ∀ p nx n d,
  dseg h p L nx → (n, d) ∈ L → cn_child <$> h !! n = Some d.
Proof.
  induction L as [|[m e] L IH]; intros p nx n d; [by rewrite elem_of_nil|].
  intros [Hm HL] [[= -> ->]|Hin]%elem_of_cons; [by rewrite Hm|by eapply IH].
Qed.

(** Nodes are identified by their child, so distinct children have distinct
    nodes. *)
Lemma dseg_NoDup h L p nx : dseg h p L nx → NoDup L.*2 → NoDup L.*1.
Proof.
  revert p. induction L as [|[n d] L IH]; intros p; [constructor|].
  intros [Hn HL] [Hd HND]%NoDup_cons. apply NoDup_cons. split; [|by eapply IH].
  intros ([m e] & Hm & Hin)%list_elem_of_fmap. simpl in Hm. subst m.
  pose proof (dseg_child _ _ _ _ _ _ HL Hin) as Hc. rewrite Hn in Hc. injection Hc as ->.
  apply Hd. apply list_elem_of_fmap. by exists (n, e).
Qed.

Lemma setNext_other h p v m : p ≠ Some m → setNext h p v !! m = h !! m.
Proof.
  intros Hp. destruct p as [n|]; [|done]. simpl. apply lookup_alter_ne. congruence.
Qed.

Lemma setPrev_other h p v m : p ≠ Some m → setPrev h p v !! m = h !! m.
Proof.
  intros Hp. destruct p as [n|]; [|done]. simpl. apply lookup_alter_ne. congruence.
Qed.

Lemma dseg_setNext h L nx v :
  NoDup L.*1 → dseg h None L nx → dseg (setNext h (lastNode None L) v) None L v.
Proof.
  destruct L as [|[n d] L _] using rev_ind; [done|]. intros HND.
  rewrite lastNode_app, !dseg_app. simpl. intros [HL [Hn _]].
  rewrite fmap_app in HND. apply NoDup_app in HND as (_ & Hdisj & _). split_and!; [| |done].
  - apply dseg_frame with h; [|done]. intros m Hm. apply (setNext_other h (Some n)).
    intros [= ->]. apply (Hdisj m Hm). left.
  - by rewrite lookup_alter_eq, Hn.
Qed.

Lemma dseg_setPrev h L p nx v :
  NoDup L.*1 → dseg h p L nx → dseg (setPrev h (firstNode L None) v) v L nx.
Proof.
  destruct L as [|[n d] L]; [done|]. intros [Hn HND]%NoDup_cons [Hh HL]. split; simpl.
  - by rewrite lookup_alter_eq, Hh.
  - apply dseg_frame with h; [|done]. intros m Hm. apply (setPrev_other h (Some n)).
    intros [= ->]. done.
Qed.

Lemma rep_empty h : childList_rep h emptyChildList [].
Proof. by split; [..|constructor]. Qed.

Lemma rep_frame h h' l L :
  (∀ n, n ∈ L.*1 → h' !! n = h !! n) → childList_rep h l L → childList_rep h' l L.
Proof. intros Heq []. split; try done. by apply dseg_frame with h. Qed.

Lemma rep_lookup h l L d n :
  childList_rep h l L → cl_nodes l !! d = Some n ↔ (n, d) ∈ L.
Proof.
  intros [-> _ _ _ HND].
  assert (Hfst : (prod_swap <$> L).*1 = L.*2) by (rewrite <- list_fmap_compose; by apply list_fmap_ext).
  rewrite <- elem_of_list_to_map by by rewrite Hfst.
  rewrite list_elem_of_fmap. split.
  - intros ([??] & [= -> ->] & ?). done.
  - intros ?. by exists (n, d).
Qed.

Lemma rep_absent h l L d : childList_rep h l L → d ∉ L.*2 → cl_nodes l !! d = None.
Proof.
  intros Hrep Hd. destruct (cl_nodes l !! d) as [n|] eqn:Hn; [|done].
  apply (rep_lookup _ _ _ _ _ Hrep) in Hn. destruct Hd. apply list_elem_of_fmap. by exists (n, d).
Qed.

Lemma rep_size h l L : childList_rep h l L → size (cl_nodes l) = length L.
Proof.
  intros [-> _ _ _ HND]. rewrite map_size_list_to_map; [by rewrite length_fmap|].
  rewrite <- list_fmap_compose. erewrite list_fmap_ext; [exact HND|]. done.
Qed.

(** The children of the map are those of the list. *)
Lemma rep_keys h l L : childList_rep h l L → (map_to_list (cl_nodes l)).*1 ≡ₚ L.*2.
Proof.
  intros [-> _ _ _ HND].
  assert (Hfst : (prod_swap <$> L).*1 = L.*2) by (rewrite <- list_fmap_compose; by apply list_fmap_ext).
  rewrite map_to_list_to_map by by rewrite Hfst. by rewrite Hfst.
Qed.

(** ** [add] appends and [remove] deletes *)

Section Operations.
  Context {V K : Type}.
  Implicit Types (s : ctxWorld (V:=V) (K:=K)).

Lemma run_getChildNode s n nd :
  cw_childNodes s !! n = Some nd → getChildNode n s = (Returned nd, s).
Proof. intros Hn. unfold getChildNode, mbind, go_bind, get. by rewrite Hn. Qed.

Lemma run_getCancelCtx s c cc :
  cw_cancelCtxs s !! c = Some cc → getCancelCtx c s = (Returned cc, s).
Proof. intros Hc. unfold getCancelCtx, mbind, go_bind, get. by rewrite Hc. Qed.

(** The store after one more allocation. *)
Definition bumped s : ctxWorld := set_world (set_next (S (next_id (cw_world s))) (cw_world s)) s.

(** Assigning the [next] of a node that may be nil. *)
Lemma run_setNext s p v :
  (∀ n, p = Some n → is_Some (cw_childNodes s !! n)) →
  (match p with
   | None => mret tt
   | Some n => nd ← getChildNode n; putChildNode n (mkChildNode (cn_child nd) (cn_prev nd) v)
   end) s = (Returned tt, set_childNodes (setNext (cw_childNodes s) p v) s).
Proof.
  intros Hp. destruct p as [n|]; [|by destruct s]. destruct (Hp n eq_refl) as [nd Hnd].
  rewrite (bind_returned _ _ _ _ _ (run_getChildNode _ _ _ Hnd)).
  unfold putChildNode, modify. do 2 f_equal. simpl. apply map_eq. intros m.
  destruct (decide (m = n)) as [->|]; [by rewrite lookup_insert_eq, lookup_alter_eq, Hnd|].
  by rewrite lookup_insert_ne, lookup_alter_ne by done.
Qed.

Lemma run_setPrev s x v :
  (∀ n, x = Some n → is_Some (cw_childNodes s !! n)) →
  (match x with
   | None => mret tt
   | Some n => nd ← getChildNode n; putChildNode n (mkChildNode (cn_child nd) v (cn_next nd))
   end) s = (Returned tt, set_childNodes (setPrev (cw_childNodes s) x v) s).
Proof.
  intros Hp. destruct x as [n|]; [|by destruct s]. destruct (Hp n eq_refl) as [nd Hnd].
  rewrite (bind_returned _ _ _ _ _ (run_getChildNode _ _ _ Hnd)).
  unfold putChildNode, modify. do 2 f_equal. simpl. apply map_eq. intros m.
  destruct (decide (m = n)) as [->|]; [by rewrite lookup_insert_eq, lookup_alter_eq, Hnd|].
  by rewrite lookup_insert_ne, lookup_alter_ne by done.
Qed.

Lemma dseg_nodes h L p nx n : dseg h p L nx → n ∈ L.*1 → is_Some (h !! n).
Proof.
  intros HL ([m d] & -> & Hin)%list_elem_of_fmap.
  pose proof (dseg_child _ _ _ _ _ _ HL Hin) as Hc. simpl.
  destruct (h !! m); [by eexists|done].
Qed.

Lemma last_node_live h L m : dseg h None L None → lastNode None L = Some m → is_Some (h !! m).
Proof. intros HL Hm. apply lastNode_in in Hm as [|Hm]; [done|]. by eapply dseg_nodes. Qed.

Lemma add_spec s l L d :
  let node := next_id (cw_world s) in
  childList_rep (cw_childNodes s) l L → d ∉ L.*2 → cw_childNodes s !! node = None →
  ∃ l' h', add l d s = (Returned l', set_childNodes h' (bumped s)) ∧
    childList_rep h' l' (L ++ [(node, d)]) ∧
    (∀ n, n ∉ L.*1 → n ≠ node → h' !! n = cw_childNodes s !! n).
Proof.
  intros node Hrep Hd Hfresh. unfold add. rewrite (rep_absent _ _ _ _ Hrep Hd).
  destruct Hrep as [Hnodes Hfirst Hlast Hlinked HND].
  assert (Hnot : node ∉ L.*1)
    by (intros Hin; destruct (dseg_nodes _ _ _ _ _ Hlinked Hin) as [? Hs]; congruence).
  set (h1 := <[node := mkChildNode d (cl_last l) None]> (cw_childNodes s)).
  rewrite (bind_returned _ _ _ node (bumped s)) by done.
  rewrite (bind_returned (putChildNode _ _) _ _ tt (set_childNodes h1 (bumped s))) by done.
  assert (HL1 : dseg h1 None L None).
  { apply dseg_frame with (cw_childNodes s); [|done]. intros m Hm. unfold h1.
    apply lookup_insert_ne. by intros ->. }
  rewrite (bind_returned _ _ _ _ _ (run_setNext (set_childNodes h1 (bumped s)) (cl_last l)
    (Some node) (λ m Hm, last_node_live _ _ m HL1 (eq_trans (eq_sym Hlast) Hm)))).
  eexists _, (setNext h1 (cl_last l) (Some node)). split; [reflexivity|].
  assert (Hlastne : ∀ m, m ∉ L.*1 → cl_last l ≠ Some m).
  { intros m Hm Heq. rewrite Hlast in Heq. by apply lastNode_in in Heq as [|]. }
  split; [split|]; simpl.
  - rewrite Hnodes, fmap_app, list_to_map_app. simpl.
    rewrite <- insert_union_r, (right_id_L ∅ (∪)); [done|].
    rewrite <- Hnodes. by apply (rep_absent (cw_childNodes s) l L).
  - rewrite Hlast, firstNode_app. simpl. destruct L as [|[m e] L']; [done|]. simpl.
    destruct (lastNode (Some m) L') eqn:E; [by rewrite Hfirst|]. by apply lastNode_Some in E.
  - by rewrite lastNode_app.
  - apply dseg_app. simpl. split; [|split; [|done]].
    + rewrite Hlast. apply dseg_setNext with None; [|done]. by eapply dseg_NoDup.
    + rewrite setNext_other by by apply Hlastne. unfold h1. by rewrite lookup_insert_eq, Hlast.
  - rewrite fmap_app. apply NoDup_app. split_and!; [done| |apply NoDup_singleton]. set_solver.
  - intros m Hm Hne. rewrite setNext_other by by apply Hlastne. unfold h1.
    by rewrite lookup_insert_ne.
Qed.

Lemma remove_absent s l L d :
  childList_rep (cw_childNodes s) l L → d ∉ L.*2 → remove l d s = (Returned l, s).
Proof. intros Hrep Hd. unfold remove. by rewrite (rep_absent _ _ _ _ Hrep Hd). Qed.

(** The links of the neighbours of a removed node. *)
Lemma dseg_unlink h L1 n d L2 :
  dseg h None (L1 ++ (n, d) :: L2) None → NoDup (L1 ++ (n, d) :: L2).*1 →
  dseg (<[n := mkChildNode d None None]>
         (setPrev (setNext h (lastNode None L1) (firstNode L2 None))
           (firstNode L2 None) (lastNode None L1)))
    None (L1 ++ L2) None.
Proof.
  rewrite dseg_app, fmap_app. simpl. intros [HL1 [Hn HL2]] HND.
  apply NoDup_app in HND as (HND1 & Hdisj & [Hn2 HND2]%NoDup_cons).
  assert (Hn1 : n ∉ L1.*1) by (intros Hin; apply (Hdisj n Hin); left).
  apply dseg_app. split.
  - apply dseg_frame with (setNext h (lastNode None L1) (firstNode L2 None)).
    + intros m Hm. rewrite lookup_insert_ne by by intros ->. apply setPrev_other.
      intros Heq%firstNode_in. apply (Hdisj m Hm). by right.
    + by apply dseg_setNext with (Some n).
  - apply dseg_frame with (setPrev (setNext h (lastNode None L1) (firstNode L2 None))
      (firstNode L2 None) (lastNode None L1)).
    + intros m Hm. apply lookup_insert_ne. by intros ->.
    + apply dseg_setPrev with (Some n); [done|]. apply dseg_frame with h; [|done].
      intros m Hm. apply setNext_other. intros Heq.
      apply lastNode_in in Heq as [|Hin]; [done|]. apply (Hdisj m Hin). by right.
Qed.

(** The nodes after a removal, and the list. *)
Definition unlinked (h : gmap nat childNode) (L1 : list (nat * nat)) (n d : nat)
    (L2 : list (nat * nat)) : gmap nat childNode :=
  <[n := mkChildNode d None None]>
    (setPrev (setNext h (lastNode None L1) (firstNode L2 None))
      (firstNode L2 None) (lastNode None L1)).

Definition unlinkedList (l : childList) (d : nat) (p x : option nat) : childList :=
  mkChildList (delete d (cl_nodes l))
    (match p with None => x | Some _ => cl_first l end)
    (match x with None => p | Some _ => cl_last l end).

Lemma rep_unlinked h l L1 n d L2 :
  childList_rep h l (L1 ++ (n, d) :: L2) →
  childList_rep (unlinked h L1 n d L2)
    (unlinkedList l d (lastNode None L1) (firstNode L2 None)) (L1 ++ L2).
Proof.
  intros [Hnodes Hfirst Hlast Hlinked HND]. split; simpl.
  - rewrite Hnodes, !fmap_app. simpl.
    rewrite fmap_app in HND. apply NoDup_app in HND as (_ & Hdis & [Hd2 _]%NoDup_cons).
    rewrite !list_to_map_app. simpl. rewrite delete_union, delete_insert_eq.
    rewrite !delete_id; [done|..]; apply not_elem_of_list_to_map; rewrite <- list_fmap_compose.
    + done.
    + intros Hin. apply (Hdis d Hin). left.
  - rewrite firstNode_app. destruct L1 as [|[m e] L1']; [done|]. simpl in *.
    destruct (lastNode (Some m) L1') eqn:Hl; [done|]. by apply lastNode_Some in Hl.
  - rewrite lastNode_app. destruct L2 as [|[m e] L2']; [done|]. simpl in *.
    by rewrite Hlast, lastNode_app.
  - apply dseg_unlink; [done|]. by eapply dseg_NoDup.
  - rewrite fmap_app in *. simpl in *. apply NoDup_app in HND as (? & Hdis & [??]%NoDup_cons).
    apply NoDup_app. split_and!; [done| |done]. intros e He1 He2. apply (Hdis e He1). by right.
Qed.

Lemma unlinked_other h L1 n d L2 m :
  m ∉ (L1 ++ (n, d) :: L2).*1 → unlinked h L1 n d L2 !! m = h !! m.
Proof.
  rewrite fmap_app. simpl. intros Hm. unfold unlinked.
  rewrite lookup_insert_ne by set_solver. rewrite setPrev_other, setNext_other; [done|..].
  - intros Heq. apply lastNode_in in Heq as [|]; [done|set_solver].
  - intros Heq%firstNode_in. set_solver.
Qed.

Lemma remove_spec s l L1 n d L2 :
  childList_rep (cw_childNodes s) l (L1 ++ (n, d) :: L2) →
  remove l d s =
  (Returned (unlinkedList l d (lastNode None L1) (firstNode L2 None)),
   set_childNodes (unlinked (cw_childNodes s) L1 n d L2) s).
Proof.
  intros Hrep. pose proof (proj2 (rep_lookup _ _ _ d n Hrep) (elem_of_middle _ _ _)) as Hd.
  destruct Hrep as [_ _ _ Hlinked HND].
  pose proof (dseg_NoDup _ _ _ _ Hlinked HND) as HND1.
  pose proof (proj1 (dseg_app _ _ _ _ _) Hlinked) as [HL1 [Hn HL2]].
  rewrite fmap_app in HND1. apply NoDup_app in HND1 as (_ & Hdisj & _).
  unfold remove. rewrite Hd.
  rewrite (bind_returned _ _ _ _ _ (run_getChildNode _ _ _ Hn)).
  cbn [cn_prev cn_next cn_child]. set (p := lastNode None L1). set (x := firstNode L2 None).
  set (h1 := setNext (cw_childNodes s) p x).
  assert (Hp : ∀ m, p = Some m → m ∈ L1.*1)
    by (intros m Hm; by apply lastNode_in in Hm as [|]).
  rewrite (bind_returned _ _ _ tt (set_childNodes h1 s)).
  2:{ apply run_setNext. intros m Hm. eapply dseg_nodes; [exact HL1|by apply Hp]. }
  rewrite (bind_returned _ _ _ tt (set_childNodes (setPrev h1 x p) s)); [done|].
  apply (run_setPrev (set_childNodes h1 s)). intros m Hm%firstNode_in. simpl. unfold h1.
  rewrite setNext_other.
  - eapply dseg_nodes; [exact HL2|done].
  - intros Heq. apply (Hdisj m); [by apply Hp|by right].
Qed.
End Operations.
