(* ===== verification/ContextCancel.v ===== *)
(** * What one cancellation does.

    [cancel] visits the live contexts below one, each once: it closes their
    [Done] channels in the order of the visit, records the error and forgets
    the children.  With [SDKFlagOrderedChildCancel] the order is that of
    creation, without it that of Go's maps. *)

From stdpp Require Import base list gmap strings sorting.
From S2P Require Import Prelude Channel Flags Context ContextChildren.
Open Scope nat_scope.

(** ** Closing channels *)

Section Closing.
  Context {V : Type}.
  Variables dropSignalFlag channelLostMsgFlag : bool.
  Implicit Types (w : world V).
  Local Abbreviation callReceive := (callReceive dropSignalFlag channelLostMsgFlag).
  Local Abbreviation callAll := (callAll dropSignalFlag channelLostMsgFlag).
  Local Abbreviation Close := (Close dropSignalFlag channelLostMsgFlag).

(** The channel a blocked selector stores its value in exists. *)
Definition callback_ok w (cb : receiveCallback) : Prop :=
  match rc_fn cb with
  | receiveSelect _ c _ _ => is_Some (channels w !! c)
  | _ => True
  end.

Definition chans_ok w : Prop := ∀ c ch,
  channels w !! c = Some ch → Forall (callback_ok w) (ch_blockedReceives ch).

(** A callback changes neither which channels are closed nor who waits. *)
Definition quiet w w' : Prop :=
  next_id w' = next_id w ∧
  ∀ c, (λ ch, (ch_closed ch, ch_blockedReceives ch)) <$> channels w' !! c =
       (λ ch, (ch_closed ch, ch_blockedReceives ch)) <$> channels w !! c.

Lemma quiet_refl w : quiet w w.
Proof. done. Qed.

Lemma quiet_trans w1 w2 w3 : quiet w1 w2 → quiet w2 w3 → quiet w1 w3.
Proof. intros [H1 H2] [H3 H4]. split; [congruence|]. intros c. by rewrite H4. Qed.

Lemma quiet_is_Some w w' c : quiet w w' → is_Some (channels w' !! c) ↔ is_Some (channels w !! c).
Proof.
  intros [_ Hq]. specialize (Hq c). destruct (channels w' !! c), (channels w !! c); simpl in Hq; done.
Qed.

Lemma quiet_callback_ok w w' cb : quiet w w' → callback_ok w cb → callback_ok w' cb.
Proof.
  intros Hq. unfold callback_ok. destruct (rc_fn cb); try done. by apply (quiet_is_Some w w').
Qed.

Lemma quiet_chans_ok w w' : quiet w w' → chans_ok w → chans_ok w'.
Proof.
  intros Hq Hok c ch Hc. pose proof (proj2 Hq c) as Heq. rewrite Hc in Heq. simpl in Heq.
  destruct (channels w !! c) as [ch0|] eqn:Hc0; [|done]. injection Heq as _ Hb. rewrite Hb.
  eapply Forall_impl; [by apply (Hok c)|]. intros cb. by apply quiet_callback_ok.
Qed.

Lemma callReceive_quiet w cb v more :
  callback_ok w cb → ∃ b w', callReceive (rc_fn cb) v more w = (Returned b, w') ∧ quiet w w'.
Proof.
  unfold callback_ok. destruct (rc_fn cb) as [cell|rb c i hd|rb i f]; intros Hcb.
  - by eexists _, _.
  - unfold Channel.callReceive, isReadyBranch, setReadyBranch, getChannel, putChannel,
      mbind, go_bind, get, modify, mret, go_ret.
    case_bool_decide; [by eexists _, _|]. destruct Hcb as [ch Hch].
    destruct (dropSignalFlag && _); [|by eexists _, _]. rewrite Hch. eexists _, _.
    split; [reflexivity|]. split; [done|]. intros d. simpl.
    destruct (decide (d = c)) as [->|]; [by rewrite lookup_insert_eq, Hch|].
    by rewrite lookup_insert_ne.
  - unfold Channel.callReceive, isReadyBranch, setReadyBranch, mbind, go_bind, get, modify, mret, go_ret.
    case_bool_decide; by eexists _, _.
Qed.

Lemma callAll_quiet l : ∀ w,
  Forall (callback_ok w) l → ∃ w', callAll l w = (Returned tt, w') ∧ quiet w w'.
Proof.
  induction l as [|cb l IH]; intros w Hl; [by exists w|].
  apply Forall_cons in Hl as [Hcb Hl]. simpl.
  destruct (callReceive_quiet w cb None false Hcb) as (b & w1 & H1 & Hq1).
  rewrite (bind_returned _ _ _ _ _ H1). destruct (IH w1) as (w2 & H2 & Hq2).
  { eapply Forall_impl; [exact Hl|]. intros ?. by apply quiet_callback_ok. }
  exists w2. split; [done|]. by eapply quiet_trans.
Qed.

(** The channels [cs] are closed, and nothing else. *)
Definition closes (cs : list nat) w w' : Prop :=
  next_id w' = next_id w ∧ chans_ok w' ∧
  ∀ d, ch_closed <$> channels w' !! d =
       (λ ch, bool_decide (d ∈ cs) || ch_closed ch) <$> channels w !! d.

Lemma Close_closes w c :
  chans_ok w → is_Some (channels w !! c) → ∃ w', Close c w = (Returned tt, w') ∧ closes [c] w w'.
Proof.
  intros Hok [ch Hch]. unfold Channel.Close.
  rewrite (bind_returned _ _ _ ch w)
    by (unfold getChannel, mbind, go_bind, get; by rewrite Hch).
  set (w1 := set_channel c (with_closed true ch) w).
  rewrite (bind_returned (putChannel _ _) _ _ tt w1) by done.
  assert (Hcb : ∀ cb, callback_ok w cb → callback_ok w1 cb).
  { intros cb. unfold callback_ok. destruct (rc_fn cb) as [|rb d i hd|]; try done. simpl.
    destruct (decide (d = c)) as [->|]; [rewrite lookup_insert_eq; by eexists|].
    by rewrite lookup_insert_ne. }
  destruct (callAll_quiet (ch_blockedReceives ch) w1) as (w2 & H2 & Hq).
  { eapply Forall_impl; [by apply (Hok c)|done]. }
  exists w2. split; [done|]. split_and!.
  - by rewrite (proj1 Hq).
  - eapply quiet_chans_ok; [done|]. intros d ch' Hd. simpl in Hd.
    destruct (decide (d = c)) as [->|Hne].
    + rewrite lookup_insert_eq in Hd. injection Hd as <-. simpl.
      eapply Forall_impl; [by apply (Hok c)|done].
    + rewrite lookup_insert_ne in Hd by done. eapply Forall_impl; [by apply (Hok d)|done].
  - intros d. pose proof (f_equal (fmap fst) (proj2 Hq d)) as Heq.
    rewrite <- !option_fmap_compose in Heq.
    etrans; [exact Heq|]. simpl. destruct (decide (d = c)) as [->|Hne].
    + rewrite lookup_insert_eq, Hch. simpl. by rewrite bool_decide_true by left.
    + rewrite lookup_insert_ne by done. rewrite bool_decide_false by set_solver. done.
Qed.

Definition closeAll (cs : list nat) : Go (world V) unit :=
  foldr (λ c rest, _ ← Close c; rest) (mret tt) cs.

Lemma closeAll_cons c cs w w' :
  closeAll (c :: cs) w = (Returned tt, w') ↔
  ∃ w1, Close c w = (Returned tt, w1) ∧ closeAll cs w1 = (Returned tt, w').
Proof.
  simpl. unfold mbind, go_bind. destruct (Close c w) as [[[]|p] w1]; split.
  - intros H. by exists w1.
  - by intros (? & [= <-] & ?).
  - done.
  - by intros (? & [=] & ?).
Qed.

Lemma closeAll_app cs1 cs2 : ∀ w w',
  closeAll (cs1 ++ cs2) w = (Returned tt, w') ↔
  ∃ w1, closeAll cs1 w = (Returned tt, w1) ∧ closeAll cs2 w1 = (Returned tt, w').
Proof.
  induction cs1 as [|c cs1 IH]; intros w w'.
  - simpl. unfold mret, go_ret. naive_solver.
  - simpl. setoid_rewrite closeAll_cons. setoid_rewrite IH. naive_solver.
Qed.

Lemma closeAll_closes cs : ∀ w,
  chans_ok w → Forall (λ c, is_Some (channels w !! c)) cs →
  ∃ w', closeAll cs w = (Returned tt, w') ∧ closes cs w w'.
Proof.
  induction cs as [|c cs IH]; intros w Hok Hcs.
  - by exists w.
  - apply Forall_cons in Hcs as [Hc Hcs].
    destruct (Close_closes w c Hok Hc) as (w1 & H1 & Hn1 & Hok1 & Hd1).
    destruct (IH w1 Hok1) as (w2 & H2 & Hn2 & Hok2 & Hd2).
    { eapply Forall_impl; [exact Hcs|]. intros d [ch Hd]. specialize (Hd1 d). rewrite Hd in Hd1.
      destruct (channels w1 !! d); [by eexists|done]. }
    exists w2. split; [apply closeAll_cons; by exists w1|]. split_and!; [congruence|done|].
    intros d. rewrite Hd2. specialize (Hd1 d).
    destruct (channels w1 !! d) as [ch1|], (channels w !! d) as [ch|]; simpl in *; try done.
    injection Hd1 as ->. f_equal. rewrite orb_assoc. f_equal.
    destruct (decide (d = c)) as [->|].
    + rewrite (bool_decide_true (c ∈ c :: cs)) by left. rewrite (bool_decide_true (c ∈ [c])) by left.
      by rewrite orb_true_r.
    + rewrite (bool_decide_false (d ∈ [c])) by set_solver. rewrite orb_false_r.
      apply bool_decide_ext. set_solver.
Qed.
End Closing.

(** ** Walking the children *)

Section Cancel.
  Context {V K : Type}.
  Variables dropSignalFlag channelLostMsgFlag : bool.
  Variable allowed : gmap sdkFlag bool.
  Variable rangeKeys : gmap nat nat → list nat.
  Implicit Types (s : ctxWorld (V:=V) (K:=K)) (m : gmap nat (cancelCtx (V:=V) (K:=K))).
  Local Abbreviation cancel := (cancel dropSignalFlag channelLostMsgFlag allowed rangeKeys).
  Local Abbreviation closeAll := (closeAll dropSignalFlag channelLostMsgFlag).
  Local Abbreviation Go' := (Go (ctxWorld (V:=V) (K:=K))).

(** Computations that leave the list nodes alone. *)
Definition keepsNodes {A} (x : Go' A) : Prop :=
  ∀ s, cw_childNodes (x s).2 = cw_childNodes s.

Lemma keepsNodes_bind {A B} (x : Go' A) (f : A → Go' B) :
  keepsNodes x → (∀ a, keepsNodes (f a)) → keepsNodes (x ≫= f).
Proof.
  intros Hx Hf s. unfold mbind, go_bind. specialize (Hx s).
  destruct (x s) as [[a|p] s1]; simpl in *; [|done]. by rewrite Hf.
Qed.

Lemma keepsNodes_getCancelCtx c : keepsNodes (getCancelCtx c).
Proof. intros s. unfold getCancelCtx, mbind, go_bind, get. simpl. by case_match. Qed.

Lemma keepsNodes_putCancelCtx c cc : keepsNodes (putCancelCtx c cc).
Proof. done. Qed.

Lemma keepsNodes_getChildNode n : keepsNodes (getChildNode n).
Proof. intros s. unfold getChildNode, mbind, go_bind, get. simpl. by case_match. Qed.

Lemma keepsNodes_onWorld {A} (x : Go (world V) A) : keepsNodes (onWorld x).
Proof. intros s. unfold onWorld. by destruct (x (cw_world s)). Qed.

Lemma keepsNodes_TryUse f : keepsNodes (TryUse allowed f).
Proof. intros s. unfold TryUse, mbind, go_bind, get. by destruct (tryUse _ _ _ _). Qed.

Lemma keepsNodes_walkNodes visit n : ∀ node,
  (∀ d, keepsNodes (visit d)) → keepsNodes (walkNodes visit n node).
Proof.
  induction n as [|n IH]; intros [k|] Hv; try done. simpl.
  apply keepsNodes_bind; [apply keepsNodes_getChildNode|intros nd].
  apply keepsNodes_bind; [apply Hv|intros _].
  apply keepsNodes_bind; [apply keepsNodes_getChildNode|intros nd']. by apply IH.
Qed.

Lemma keepsNodes_visitAll visit l : (∀ d, keepsNodes (visit d)) → keepsNodes (visitAll visit l).
Proof.
  intros Hv. induction l as [|d l IH]; [done|]. by apply keepsNodes_bind.
Qed.

Lemma keepsNodes_cancel fuel : ∀ c err, keepsNodes (cancel fuel c false err).
Proof.
  induction fuel as [|fuel IH]; intros c [err|]; try done. simpl.
  apply keepsNodes_bind; [apply keepsNodes_getCancelCtx|intros cc]. case_decide; [done|].
  apply keepsNodes_bind; [apply keepsNodes_putCancelCtx|intros _].
  apply keepsNodes_bind; [apply keepsNodes_onWorld|intros _].
  apply keepsNodes_bind; [apply keepsNodes_getCancelCtx|intros cc'].
  apply keepsNodes_bind; [apply keepsNodes_putCancelCtx|intros _].
  apply keepsNodes_bind; [case_decide; [apply keepsNodes_TryUse|done]|intros ordered].
  apply keepsNodes_bind; [|done]. destruct ordered.
  - by apply keepsNodes_walkNodes.
  - by apply keepsNodes_visitAll.
Qed.

(** Following the [next] pointers visits the children in order. *)
Lemma walkNodes_visitAll visit L : ∀ p n s,
  (∀ d, keepsNodes (visit d)) → dseg (cw_childNodes s) p L None → length L ≤ n →
  walkNodes visit n (firstNode L None) s = visitAll visit L.*2 s.
Proof.
  induction L as [|[k d] L IH]; intros p n s Hv; [by destruct n|].
  intros [Hk HL] Hn. destruct n as [|n]; simpl in Hn; [lia|]. simpl.
  rewrite (bind_returned _ _ _ _ _ (run_getChildNode _ _ _ Hk)). simpl.
  specialize (Hv d s) as Hvs. destruct (visit d s) as [[[]|q] s1] eqn:Hd; simpl in Hvs.
  - rewrite !(bind_returned _ _ _ _ _ Hd). rewrite <- Hvs in Hk, HL.
    rewrite (bind_returned _ _ _ _ _ (run_getChildNode _ _ _ Hk)). simpl.
    apply (IH (Some k)); [done|done|lia].
  - by rewrite !(bind_panicked _ _ _ _ _ Hd).
Qed.

(** ** The visit *)

(** The order of a visit that goes from a context to the contexts [ord] gives
    for it. *)
Fixpoint traverse (ord : nat → list nat) (fuel : nat) (c : nat) : list nat :=
  match fuel with
  | O => []
  | S fuel' => c :: mjoin (traverse ord fuel' <$> ord c)
  end.

(** The fuel reaches the leaves. *)
Fixpoint fits (ord : nat → list nat) (fuel : nat) (c : nat) : Prop :=
  match fuel with
  | O => False
  | S fuel' => ∀ d, d ∈ ord c → fits ord fuel' d
  end.

(** Whether ordered cancellation is in use, which asking does not change. *)
Definition orderedFlag (replay : bool) (sf : sdkFlags) : bool :=
  (tryUse allowed SDKFlagOrderedChildCancel (negb replay) sf).1.

Lemma orderedFlag_stable replay sf :
  orderedFlag replay (tryUse allowed SDKFlagOrderedChildCancel (negb replay) sf).2 =
  orderedFlag replay sf.
Proof.
  unfold orderedFlag, tryUse.
  destruct (lookup_bool (currentFlags sf) SDKFlagOrderedChildCancel ||
    lookup_bool (newFlags sf) SDKFlagOrderedChildCancel) eqn:H1; simpl; [by rewrite H1|].
  destruct (negb (capabilitiesSdkMetadata sf)) eqn:H2; simpl; [by rewrite H1, H2|].
  destruct (negb (negb replay)) eqn:H3; simpl; [by rewrite H1, H2|].
  destruct (negb (lookup_bool allowed _)) eqn:H4; simpl; [by rewrite H1, H2|].
  unfold lookup_bool at 2. by rewrite lookup_insert_eq, orb_true_r.
Qed.

(** The context [d] is live and its children are visited in the order [ord]. *)
Definition intact (u : bool) (ord : nat → list nat) (h : gmap nat childNode) m (d : nat) : Prop :=
  ∃ cc L, m !! d = Some cc ∧ cc_err cc = None ∧ childList_rep h (cc_children cc) L ∧
    ord d = (if u then L.*2 else rangeKeys (cl_nodes (cc_children cc))).

Definition cancelled (e : string) (cc : cancelCtx (V:=V) (K:=K)) : cancelCtx :=
  mkCancelCtx (cc_Context cc) (cc_done cc) emptyChildList (Some e).
Definition mark (e : string) (T : list nat) m : gmap nat cancelCtx :=
  foldl (λ m d, alter (cancelled e) d m) m T.
Definition doneOf m (d : nat) : nat := from_option cc_done O (m !! d).

Lemma mark_other e T : ∀ m d, d ∉ T → mark e T m !! d = m !! d.
Proof.
  induction T as [|c T IH]; intros m d Hd; [done|]. simpl.
  rewrite IH by set_solver. apply lookup_alter_ne. set_solver.
Qed.

Lemma mark_in e T : ∀ m d, NoDup T → d ∈ T → mark e T m !! d = cancelled e <$> m !! d.
Proof.
  induction T as [|c T IH]; intros m d HND Hd; [by apply elem_of_nil in Hd|].
  apply NoDup_cons in HND as [Hc HND]. simpl. apply elem_of_cons in Hd as [->|Hd].
  - rewrite mark_other by done. apply lookup_alter_eq.
  - rewrite IH by done. rewrite lookup_alter_ne; [done|]. by intros ->.
Qed.

Lemma mark_app e T1 T2 m : mark e (T1 ++ T2) m = mark e T2 (mark e T1 m).
Proof. apply foldl_app. Qed.

Lemma doneOf_other m m' (T : list nat) :
  (∀ d, d ∈ T → m' !! d = m !! d) → doneOf m' <$> T = doneOf m <$> T.
Proof.
  intros Heq. apply list_fmap_ext. intros i d Hi. unfold doneOf.
  by rewrite Heq by by eapply list_elem_of_lookup_2.
Qed.

Lemma intact_other u ord h m m' d : m' !! d = m !! d → intact u ord h m d → intact u ord h m' d.
Proof. intros Heq. unfold intact. by rewrite Heq. Qed.

(** The store after a visit that closed channels up to [w] and left the flags
    [sf]. *)
Definition visited (e : string) (T : list nat) (w : world V) (sf : sdkFlags) s : ctxWorld :=
  mkCtxWorld w (mark e T (cw_cancelCtxs s)) (cw_childNodes s) sf (cw_isReplay s).

(** What cancelling [c] does when the contexts to visit are live. *)
Definition cancels (ord : nat → list nat) (fuel : nat) (e : string) : Prop := ∀ c s w',
  let T := traverse ord fuel c in
  let u := orderedFlag (cw_isReplay s) (cw_sdkFlags s) in
  fits ord fuel c → NoDup T →
  (∀ d, d ∈ T → intact u ord (cw_childNodes s) (cw_cancelCtxs s) d) →
  closeAll (doneOf (cw_cancelCtxs s) <$> T) (cw_world s) = (Returned tt, w') →
  ∃ sf, orderedFlag (cw_isReplay s) sf = u ∧
    cancel fuel c false (Some e) s = (Returned tt, visited e T w' sf s).

Lemma visitAll_cancels ord fuel e l :
  cancels ord fuel e → ∀ s w',
  let T := mjoin (traverse ord fuel <$> l) in
  let u := orderedFlag (cw_isReplay s) (cw_sdkFlags s) in
  (∀ d, d ∈ l → fits ord fuel d) → NoDup T →
  (∀ d, d ∈ T → intact u ord (cw_childNodes s) (cw_cancelCtxs s) d) →
  closeAll (doneOf (cw_cancelCtxs s) <$> T) (cw_world s) = (Returned tt, w') →
  ∃ sf, orderedFlag (cw_isReplay s) sf = u ∧
    visitAll (λ child, cancel fuel child false (Some e)) l s = (Returned tt, visited e T w' sf s).
Proof.
  intros Hcancels. induction l as [|d l IH]; intros s w' T u Hfits HND Hint Hclose.
  - exists (cw_sdkFlags s). split; [done|]. cbv in Hclose. injection Hclose as <-. by destruct s.
  - set (T1 := traverse ord fuel d). set (T2 := mjoin (traverse ord fuel <$> l)).
    change T with (T1 ++ T2) in *. apply NoDup_app in HND as (HND1 & Hdisj & HND2).
    rewrite fmap_app in Hclose. apply closeAll_app in Hclose as (w1 & Hc1 & Hc2).
    destruct (Hcancels d s w1) as (sf1 & Hu1 & Hrun1).
    + apply Hfits. left.
    + done.
    + intros x Hx. apply Hint, elem_of_app. by left.
    + done.
    + assert (Hkeep : ∀ x, x ∈ T2 → mark e T1 (cw_cancelCtxs s) !! x = cw_cancelCtxs s !! x)
        by (intros x Hx; apply mark_other; intros Hx1; by apply (Hdisj x)).
      destruct (IH (visited e T1 w1 sf1 s) w') as (sf2 & Hu2 & Hrun2); simpl.
      * intros x Hx. apply Hfits. by right.
      * done.
      * intros x Hx. rewrite Hu1. eapply intact_other; [by apply Hkeep|].
        apply Hint, elem_of_app. by right.
      * by rewrite (doneOf_other (cw_cancelCtxs s)).
      * exists sf2. simpl in Hu2. rewrite Hu1 in Hu2. split; [done|].
        simpl visitAll. rewrite (bind_returned _ _ _ _ _ Hrun1). etrans; [exact Hrun2|].
        unfold visited. simpl. by rewrite mark_app.
Qed.

Hypothesis rangeKeys_perm : ∀ nodes, rangeKeys nodes ≡ₚ (map_to_list nodes).*1.

(** Both loops over the children are the visit of [ord]. *)
Lemma children_loop ord fuel e u s l L :
  childList_rep (cw_childNodes s) l L →
  (if u : bool then L.*2 else rangeKeys (cl_nodes l)) = ord →
  u = orderedFlag (cw_isReplay s) (cw_sdkFlags s) →
  let visit child := cancel fuel child false (Some e) in
  ∃ sf, orderedFlag (cw_isReplay s) sf = u ∧
  (ordered ← (if decide (1 < size (cl_nodes l))
              then TryUse allowed SDKFlagOrderedChildCancel else mret false);
   if ordered : bool then walkNodes visit (size (cl_nodes l)) (cl_first l)
   else visitAll visit (rangeKeys (cl_nodes l))) s = visitAll visit ord (set_sdkFlags sf s).
Proof.
  intros Hrep <- Hu visit.
  assert (Hwalk : ∀ sf, walkNodes visit (size (cl_nodes l)) (cl_first l) (set_sdkFlags sf s) =
    visitAll visit L.*2 (set_sdkFlags sf s)).
  { intros sf. rewrite (rep_first _ _ _ Hrep). apply (walkNodes_visitAll visit L None).
    - intros d. apply keepsNodes_cancel.
    - apply (rep_linked _ _ _ Hrep).
    - by rewrite (rep_size _ _ _ Hrep). }
  case_decide as Hsize.
  - exists (tryUse allowed SDKFlagOrderedChildCancel (negb (cw_isReplay s)) (cw_sdkFlags s)).2.
    split; [by rewrite orderedFlag_stable|].
    rewrite (bind_returned _ _ _ u (set_sdkFlags
      (tryUse allowed SDKFlagOrderedChildCancel (negb (cw_isReplay s)) (cw_sdkFlags s)).2 s)).
    2:{ unfold TryUse, mbind, go_bind, get, modify, mret, go_ret. rewrite Hu. unfold orderedFlag.
        by destruct (tryUse _ _ _ _). }
    destruct u; [apply Hwalk|done].
  - exists (cw_sdkFlags s). split; [done|].
    replace (set_sdkFlags (cw_sdkFlags s) s) with s by by destruct s.
    replace (if u then L.*2 else rangeKeys (cl_nodes l)) with (rangeKeys (cl_nodes l)).
    { done. }
    destruct u; [|done]. rewrite (rep_size _ _ _ Hrep) in Hsize.
    pose proof (rangeKeys_perm (cl_nodes l)) as Hp. rewrite (rep_keys _ _ _ Hrep) in Hp.
    destruct L as [|[n d] [|]]; simpl in *; [| |lia].
    + by apply Permutation_nil_r in Hp.
    + by apply Permutation_singleton_r in Hp.
Qed.

Lemma cancel_run ord e fuel : cancels ord fuel e.
Proof.
  induction fuel as [|fuel IH]; intros c s w' T u Hfits HND Hint Hclose; [done|].
  set (T' := mjoin (traverse ord fuel <$> ord c)). change T with (c :: T') in *.
  apply NoDup_cons in HND as [Hc HND].
  destruct (Hint c ltac:(left)) as (cc & L & Hcc & Herr & Hrep & Hord).
  apply closeAll_cons in Hclose as (w1 & Hw1 & Hclose).
  assert (Hdone : doneOf (cw_cancelCtxs s) c = cc_done cc) by (unfold doneOf; by rewrite Hcc).
  rewrite Hdone in Hw1. simpl. rewrite (bind_returned _ _ _ _ _ (run_getCancelCtx _ _ _ Hcc)).
  rewrite decide_False by (rewrite Herr; tauto).
  set (m1 := <[c := with_err (Some e) cc]> (cw_cancelCtxs s)).
  rewrite (bind_returned _ _ _ tt (set_cancelCtxs m1 s)) by done.
  rewrite (bind_returned _ _ _ tt (set_world w1 (set_cancelCtxs m1 s))).
  2:{ unfold onWorld. simpl. by rewrite Hw1. }
  rewrite (bind_returned _ _ _ (with_err (Some e) cc) (set_world w1 (set_cancelCtxs m1 s))).
  2:{ apply run_getCancelCtx. apply lookup_insert_eq. }
  set (m2 := alter (cancelled e) c (cw_cancelCtxs s)).
  set (s2 := set_world w1 (set_cancelCtxs m2 s)).
  rewrite (bind_returned _ _ _ tt s2).
  2:{ unfold putCancelCtx, modify, s2, set_cancelCtxs, set_world. simpl. do 2 f_equal.
      unfold m1, m2. rewrite insert_insert_eq. apply map_eq. intros d.
      destruct (decide (d = c)) as [->|]; [by rewrite lookup_insert_eq, lookup_alter_eq, Hcc|].
      by rewrite lookup_insert_ne, lookup_alter_ne by done. }
  assert (Hkeep : ∀ x, x ∈ T' → m2 !! x = cw_cancelCtxs s !! x).
  { intros x Hx. apply lookup_alter_ne. by intros ->. }
  destruct (children_loop (ord c) fuel e u s2 (cc_children cc) L) as (sf1 & Hsf1 & Hloop);
    [done|done|done|].
  destruct (visitAll_cancels ord fuel e (ord c) IH (set_sdkFlags sf1 s2) w')
    as (sf2 & Hsf2 & Hrun); simpl.
  - done.
  - done.
  - intros x Hx. simpl in Hsf1. rewrite Hsf1. eapply intact_other; [by apply Hkeep|].
    apply Hint. by right.
  - by rewrite (doneOf_other (cw_cancelCtxs s)).
  - exists sf2. simpl in Hsf1, Hsf2. split; [by rewrite Hsf2|].
    rewrite bind_assoc. by rewrite (bind_returned _ _ _ tt _ (eq_trans Hloop Hrun)).
Qed.
End Cancel.
