(* ===== verification/ContextFacts.v ===== *)
(** * Cancellation reaches exactly the contexts below.

    The specification of contexts is a forest: every context has at most one
    connected parent, and cancelling one cancels everything under it.  The
    store of [Context.v] implements it in every reachable state, whatever else
    the workflow does with its channels in between. *)

From stdpp Require Import base list gmap strings sorting.
From S2P Require Import Prelude Channel Flags Context ContextChildren ContextCancel.
Open Scope nat_scope.

(** ** The specification *)

(** A context: the context whose cancellation it follows, and whether it is
    cancelled. *)
Record actx : Type := mkActx {
  a_parent : option nat;
  a_cancelled : bool;
}.

#[export] Instance actx_eq_dec : EqDecision actx.
Proof. solve_decision. Defined.

Abbreviation forest := (gmap nat actx).
Implicit Types (a : forest).

(** [d] follows the cancellation of [c]. *)
Inductive under a (c : nat) : nat → Prop :=
| under_refl : under a c c
| under_step d p : a_parent <$> a !! d = Some (Some p) → under a c p → under a c d.

(** The same, computed: a parent is older than its child. *)
Fixpoint isUnder a (fuel : nat) (c d : nat) : bool :=
  bool_decide (c = d) ||
  match fuel, a !! d with
  | S fuel', Some (mkActx (Some p) _) => isUnder a fuel' c p
  | _, _ => false
  end.

Definition spec_cancelled a (c : option nat) : bool :=
  from_option a_cancelled false (c ≫= λ c', a !! c').

(** A connected child is born cancelled when its parent is. *)
Definition spec_WithCancel a (parent : option nat) (c : nat) : forest :=
  <[c := mkActx parent (spec_cancelled a parent)]> a.

Definition spec_NewDisconnected a (c : nat) : forest := <[c := mkActx None false]> a.

Definition spec_cancel a (c : nat) : forest :=
  map_imap (λ d n, Some (mkActx (a_parent n) (a_cancelled n || isUnder a d c d))) a.

(** The live children of a context in creation order, and the live contexts
    under one, parents before children. *)
Definition kids a (bound : nat) (c : nat) : list nat :=
  filter (λ d, a !! d = Some (mkActx (Some c) false)) (seq 0 bound).

Definition older a : Prop := ∀ d p, a_parent <$> a !! d = Some (Some p) → p < d.

Lemma isUnder_under a c : older a → ∀ fuel d, d ≤ fuel → isUnder a fuel c d = true ↔ under a c d.
Proof.
  intros Hold. induction fuel as [|fuel IH]; intros d Hd; simpl.
  - rewrite orb_false_r, bool_decide_eq_true. split; [intros ->; constructor|].
    intros H. destruct H as [|d p Hp _]; [done|]. specialize (Hold _ _ Hp). lia.
  - rewrite orb_true_iff, bool_decide_eq_true. split.
    + intros [->|Hu]; [constructor|]. destruct (a !! d) as [[[p|] b]|] eqn:Ha; try done.
      assert (Hp : a_parent <$> a !! d = Some (Some p)) by by rewrite Ha.
      apply under_step with p; [done|]. apply IH; [|done]. specialize (Hold _ _ Hp). lia.
    + intros H. destruct H as [|d p Hp Hu]; [by left|right].
      specialize (Hold _ _ Hp). destruct (a !! d) as [[q b]|]; [|done]. injection Hp as ->.
      apply IH; [lia|done].
Qed.

Lemma under_le a c d : older a → under a c d → c ≤ d.
Proof. intros Hold. induction 1 as [|d p Hp _ IH]; [done|]. specialize (Hold _ _ Hp). lia. Qed.

Lemma under_trans a c d e : under a c d → under a d e → under a c e.
Proof. intros H. induction 1; [done|]. by eapply under_step. Qed.

(** The contexts a context follows form a chain. *)
Lemma under_chain a c1 c2 d : under a c1 d → under a c2 d → under a c1 c2 ∨ under a c2 c1.
Proof.
  induction 1 as [|d p Hp Hu IH]; [by right|]. intros H2.
  inversion H2 as [|? q Hq Hu2]; subst.
  - left. by eapply under_step.
  - rewrite Hp in Hq. injection Hq as ->. by apply IH.
Qed.

(** Different children of one context have nothing under both. *)
Lemma siblings_disjoint a c d1 d2 x :
  older a → a_parent <$> a !! d1 = Some (Some c) → a_parent <$> a !! d2 = Some (Some c) →
  under a d1 x → under a d2 x → d1 = d2.
Proof.
  intros Hold Hd1 Hd2 H1 H2.
  assert (Hlt : ∀ e1 e2, a_parent <$> a !! e1 = Some (Some c) →
    a_parent <$> a !! e2 = Some (Some c) → under a e1 e2 → e1 = e2).
  { intros e1 e2 He1 He2 Hu. inversion Hu as [|? p Hp Hu']; [done|subst]. rewrite He2 in Hp.
    injection Hp as <-. apply under_le in Hu'; [|done]. specialize (Hold _ _ He1). lia. }
  destruct (under_chain a d1 d2 x H1 H2) as [Hu|Hu]; [by apply Hlt|symmetry; by apply Hlt].
Qed.

(** ** The visit covers what is live below *)

Section Visit.
  Variable a : forest.
  Variable ord : nat → list nat.
  Hypothesis a_older : older a.
  Hypothesis ord_kids : ∀ c d, d ∈ ord c → a !! d = Some (mkActx (Some c) false).
  Hypothesis ord_NoDup : ∀ c, NoDup (ord c).

Lemma ord_parent c d : d ∈ ord c → a_parent <$> a !! d = Some (Some c).
Proof. intros Hd. by rewrite (ord_kids c d Hd). Qed.

Lemma traverse_under fuel : ∀ c x,
  x ∈ traverse ord fuel c → under a c x ∧ (x = c ∨ spec_cancelled a (Some x) = false).
Proof.
  induction fuel as [|fuel IH]; intros c x; simpl; [by intros ?%elem_of_nil|].
  intros [->|Hx]%elem_of_cons; [split; [constructor|by left]|].
  apply list_elem_of_join in Hx as (T & Hx & (d & -> & Hd)%list_elem_of_fmap).
  destruct (IH d x Hx) as [Hu Hl]. split.
  - eapply under_trans; [|exact Hu]. eapply under_step; [by apply ord_parent|constructor].
  - right. destruct Hl as [->|?]; [|done]. unfold spec_cancelled. simpl. by rewrite (ord_kids c d).
Qed.

Lemma traverse_NoDup fuel : ∀ c, NoDup (traverse ord fuel c).
Proof.
  induction fuel as [|fuel IH]; intros c; simpl; [constructor|]. apply NoDup_cons. split.
  - intros (T & Hx & (d & -> & Hd)%list_elem_of_fmap)%list_elem_of_join.
    apply traverse_under in Hx as [Hu _]. apply under_le in Hu; [|done].
    specialize (a_older _ _ (ord_parent c d Hd)). lia.
  - generalize (ord_NoDup c). generalize (ord_parent c). induction (ord c) as [|d l IHl];
      intros Hp HND; [constructor|]. apply NoDup_cons in HND as [Hd HND]. simpl.
    apply NoDup_app. split_and!; [apply IH| |apply IHl; [|done]; intros; apply Hp; by right].
    intros x Hx (T & HxT & (d' & -> & Hd')%list_elem_of_fmap)%list_elem_of_join.
    apply traverse_under in Hx as [Hx _]. apply traverse_under in HxT as [Hx' _].
    destruct Hd. rewrite (siblings_disjoint a c d d' x); try done; apply Hp; set_solver.
Qed.

Lemma traverse_closed fuel : ∀ c x y,
  fits ord fuel c → x ∈ traverse ord fuel c → y ∈ ord x → y ∈ traverse ord fuel c.
Proof.
  induction fuel as [|fuel IH]; intros c x y Hf; simpl; [done|]. simpl in Hf.
  intros [->|Hx]%elem_of_cons Hy; right; apply list_elem_of_join.
  - exists (traverse ord fuel y). split; [|apply list_elem_of_fmap; by exists y].
    specialize (Hf y Hy). destruct fuel; [done|left].
  - apply list_elem_of_join in Hx as (T & Hx & (d & -> & Hd)%list_elem_of_fmap).
    exists (traverse ord fuel d). split; [|apply list_elem_of_fmap; by exists d].
    apply IH with x; by try apply Hf.
Qed.

Lemma fits_bound N : (∀ d, is_Some (a !! d) → d < N) → ∀ fuel c, c < N → N < c + fuel →
  fits ord fuel c.
Proof.
  intros HN. induction fuel as [|fuel IH]; intros c Hc Hf; [lia|]. simpl. intros d Hd.
  specialize (a_older _ _ (ord_parent c d Hd)). apply IH; [|lia].
  apply HN. rewrite (ord_kids c d Hd). by eexists.
Qed.
End Visit.

(** ** Sorted lists of children *)

Lemma seq_sorted n : ∀ k, StronglySorted lt (seq k n).
Proof.
  induction n as [|n IH]; intros k; simpl; constructor; [done|].
  apply Forall_forall. intros x Hx%elem_of_seq. lia.
Qed.

Lemma filter_sorted (P : nat → Prop) `{∀ x, Decision (P x)} l :
  StronglySorted lt l → StronglySorted lt (filter P l).
Proof.
  induction 1 as [|x l Hl IH Hx]; [constructor|]. rewrite filter_cons. case_decide; [|done].
  constructor; [done|]. apply Forall_forall. intros y [_ Hy]%list_elem_of_filter.
  by eapply Forall_forall in Hx.
Qed.

Lemma sorted_lt_le l : StronglySorted lt l → StronglySorted le l.
Proof.
  induction 1 as [|x l Hl IH Hx]; constructor; [done|].
  eapply Forall_impl; [exact Hx|]. simpl. lia.
Qed.

Lemma sorted_lt_NoDup l : StronglySorted lt l → NoDup l.
Proof.
  induction 1 as [|x l Hl IH Hx]; constructor; [|done].
  intros Hin. eapply Forall_forall in Hx; [|exact Hin]. lia.
Qed.

(** A sorted list is determined by its elements. *)
Lemma sorted_lt_unique l1 l2 :
  StronglySorted lt l1 → StronglySorted lt l2 → (∀ e, e ∈ l1 ↔ e ∈ l2) → l1 = l2.
Proof.
  intros H1 H2 Heq. apply (StronglySorted_unique le); [by apply sorted_lt_le..|].
  apply NoDup_Permutation; [by apply sorted_lt_NoDup..|done].
Qed.

Lemma sorted_snoc l x : StronglySorted lt l → (∀ y, y ∈ l → y < x) → StronglySorted lt (l ++ [x]).
Proof.
  induction 1 as [|y l Hl IH Hy]; intros Hx; simpl; [by repeat constructor|]. constructor.
  - apply IH. intros z Hz. apply Hx. by right.
  - apply Forall_app. split; [done|]. apply Forall_singleton. apply Hx. left.
Qed.

Lemma sorted_delete l1 x l2 :
  StronglySorted lt (l1 ++ x :: l2) → StronglySorted lt (l1 ++ l2).
Proof.
  intros H. replace (l1 ++ l2) with (filter (λ y, y ≠ x) (l1 ++ x :: l2)); [by apply filter_sorted|].
  apply sorted_lt_NoDup, NoDup_app in H as (_ & Hd & [Hx _]%NoDup_cons).
  rewrite filter_app, filter_cons_False by tauto. f_equal; apply filter_all; intros y Hy.
  - intros ->. apply (Hd x Hy). left.
  - by intros ->.
Qed.

Lemma elem_of_kids a N c d :
  (∀ e, is_Some (a !! e) → e < N) → d ∈ kids a N c ↔ a !! d = Some (mkActx (Some c) false).
Proof.
  intros HN. unfold kids. rewrite list_elem_of_filter, elem_of_seq. split; [tauto|].
  intros Hd. split; [done|]. specialize (HN d). rewrite Hd in HN. split; [lia|].
  apply HN. by eexists.
Qed.

Lemma kids_sorted a N c : StronglySorted lt (kids a N c).
Proof. apply filter_sorted, seq_sorted. Qed.
