(* ===== verification/ContextReachable.v ===== *)
(** * Contexts implement their specification.

    The invariant relates the store to a [forest]; every operation keeps it,
    so in every reachable state the cancelled contexts are those the
    specification cancels, their [Done] channels are closed, and nothing
    panics. *)

From stdpp Require Import base list gmap strings sorting.
From S2P Require Import Prelude Channel Flags Context ContextChildren ContextCancel ContextFacts.
Open Scope nat_scope.

Section Contexts.
  Context {V K : Type}.
  Variables dropSignalFlag channelLostMsgFlag : bool.
  Variable allowed : gmap sdkFlag bool.
  Variable rangeKeys : gmap nat nat → list nat.
  Hypothesis rangeKeys_perm : ∀ nodes, rangeKeys nodes ≡ₚ (map_to_list nodes).*1.
  Implicit Types (s : ctxWorld (V:=V) (K:=K)) (cc : cancelCtx (V:=V) (K:=K)) (a : forest).
  Local Abbreviation cancel := (cancel dropSignalFlag channelLostMsgFlag allowed rangeKeys).
  Local Abbreviation CancelFunc := (CancelFunc dropSignalFlag channelLostMsgFlag allowed rangeKeys).
  Local Abbreviation WithCancel := (WithCancel dropSignalFlag channelLostMsgFlag allowed rangeKeys).
  Local Abbreviation closeAll := (closeAll dropSignalFlag channelLostMsgFlag).

(** ** The invariant *)

(** The context [d] implements [n]. *)
Record ctx_inv a s (d : nat) cc (n : actx) : Prop := {
  c_id : d < next_id (cw_world s);
  c_done : cc_done cc < next_id (cw_world s);
  c_err : cc_err cc = if a_cancelled n then Some ErrCanceled else None;
  c_closed : ch_closed <$> channels (cw_world s) !! cc_done cc = Some (a_cancelled n);
  c_up : ∀ p, parentCancelCtx (cc_Context cc) = Some p → p < d ∧ is_Some (a !! p);
  c_parent : ∀ p, a_parent n = Some p → parentCancelCtx (cc_Context cc) = Some p;
  c_follows : ∀ p, a_parent n = Some p → spec_cancelled a (Some p) = true → a_cancelled n = true;
}.

(** [e] is in the list of [d]: it is a live child, or the context [X] whose
    removal is still to come. *)
Definition kid (X : option nat) a (d e : nat) : Prop :=
  ∃ n, a !! e = Some n ∧ a_parent n = Some d ∧ (a_cancelled n = false ∨ X = Some e).

Record inv (X : option nat) a s : Prop := {
  i_dom : ∀ d, is_Some (a !! d) ↔ is_Some (cw_cancelCtxs s !! d);
  i_chans : chans_ok (cw_world s);
  i_nodes : ∀ n, is_Some (cw_childNodes s !! n) → n < next_id (cw_world s);
  i_dones : ∀ d1 d2 cc1 cc2, cw_cancelCtxs s !! d1 = Some cc1 → cw_cancelCtxs s !! d2 = Some cc2 →
    cc_done cc1 = cc_done cc2 → d1 = d2;
  i_ctx : ∀ d cc n, cw_cancelCtxs s !! d = Some cc → a !! d = Some n → ctx_inv a s d cc n;
  i_kids : ∀ d cc, cw_cancelCtxs s !! d = Some cc →
    ∃ L, childList_rep (cw_childNodes s) (cc_children cc) L ∧ StronglySorted lt L.*2 ∧
      ∀ e, e ∈ L.*2 ↔ kid X a d e;
}.

Lemma inv_lookup X a s d n : inv X a s → a !! d = Some n →
  ∃ cc, cw_cancelCtxs s !! d = Some cc ∧ ctx_inv a s d cc n.
Proof.
  intros Hinv Hd. destruct (proj1 (i_dom _ _ _ Hinv d)) as [cc Hcc]; [by eexists|].
  exists cc. split; [done|]. by apply (i_ctx _ _ _ Hinv).
Qed.

Lemma inv_older X a s : inv X a s → older a.
Proof.
  intros Hinv d p Hp. destruct (a !! d) as [n|] eqn:Hd; [|done].
  destruct (inv_lookup _ _ _ _ _ Hinv Hd) as (cc & _ & Hcc). injection Hp as Hp.
  by apply (c_up _ _ _ _ _ Hcc), (c_parent _ _ _ _ _ Hcc).
Qed.

Lemma inv_bound X a s d : inv X a s → is_Some (a !! d) → d < next_id (cw_world s).
Proof.
  intros Hinv [n Hd]. destruct (inv_lookup _ _ _ _ _ Hinv Hd) as (cc & _ & Hcc).
  by apply (c_id _ _ _ _ _ Hcc).
Qed.

(** Everything under a cancelled context is cancelled. *)
Lemma inv_under X a s c d : inv X a s → under a c d →
  spec_cancelled a (Some c) = true → spec_cancelled a (Some d) = true.
Proof.
  intros Hinv Hu Hc. induction Hu as [|d p Hp _ IH]; [done|]. unfold spec_cancelled. simpl.
  destruct (a !! d) as [n|] eqn:Hd; [|done]. injection Hp as Hp.
  destruct (inv_lookup _ _ _ _ _ Hinv Hd) as (cc & _ & Hcc). simpl.
  by apply (c_follows _ _ _ _ _ Hcc p).
Qed.

(** A node belongs to one list. *)
Lemma inv_disjoint X a s d1 d2 cc1 cc2 L1 L2 k :
  inv X a s → cw_cancelCtxs s !! d1 = Some cc1 → cw_cancelCtxs s !! d2 = Some cc2 →
  childList_rep (cw_childNodes s) (cc_children cc1) L1 → (∀ e, e ∈ L1.*2 ↔ kid X a d1 e) →
  childList_rep (cw_childNodes s) (cc_children cc2) L2 → (∀ e, e ∈ L2.*2 ↔ kid X a d2 e) →
  k ∈ L1.*1 → k ∈ L2.*1 → d1 = d2.
Proof.
  intros Hinv H1 H2 HL1 Hk1 HL2 Hk2
    ([k1 e1] & -> & Hin1)%list_elem_of_fmap ([k2 e2] & Hk & Hin2)%list_elem_of_fmap.
  simpl in Hk. subst k2.
  pose proof (dseg_child _ _ _ _ _ _ (rep_linked _ _ _ HL1) Hin1) as He1.
  pose proof (dseg_child _ _ _ _ _ _ (rep_linked _ _ _ HL2) Hin2) as He2.
  rewrite He1 in He2. injection He2 as <-.
  destruct (proj1 (Hk1 e1)) as (n1 & Hn1 & Hp1 & _); [apply list_elem_of_fmap; by eexists (_, _)|].
  destruct (proj1 (Hk2 e1)) as (n2 & Hn2 & Hp2 & _); [apply list_elem_of_fmap; by eexists (_, _)|].
  congruence.
Qed.

Lemma kid_live a d e : kid None a d e ↔ a !! e = Some (mkActx (Some d) false).
Proof.
  unfold kid. split; [|intros He; by exists (mkActx (Some d) false); split_and!; try left].
  intros ([p b] & He & Hp & [Hb|]); [|done]. simpl in *. by subst.
Qed.

(** Asking the flag and ranging over the map: the order in which the children
    of a context are visited. *)
Definition visitOrder a s (c : nat) : list nat :=
  if orderedFlag allowed (cw_isReplay s) (cw_sdkFlags s) then kids a (next_id (cw_world s)) c
  else from_option (λ cc, rangeKeys (cl_nodes (cc_children cc))) [] (cw_cancelCtxs s !! c).

Lemma inv_kids a s d cc :
  inv None a s → cw_cancelCtxs s !! d = Some cc →
  ∃ L, childList_rep (cw_childNodes s) (cc_children cc) L ∧ L.*2 = kids a (next_id (cw_world s)) d.
Proof.
  intros Hinv Hd. destruct (i_kids _ _ _ Hinv d cc Hd) as (L & HL & Hsort & Hin).
  exists L. split; [done|]. apply sorted_lt_unique; [done|apply kids_sorted|].
  intros e. rewrite Hin, kid_live, elem_of_kids; [done|]. intros x. by apply inv_bound with None.
Qed.

Lemma visitOrder_kids a s c :
  inv None a s → is_Some (a !! c) → visitOrder a s c ≡ₚ kids a (next_id (cw_world s)) c.
Proof.
  intros Hinv [n Hc]. unfold visitOrder. destruct (orderedFlag _ _ _); [done|].
  destruct (inv_lookup _ _ _ _ _ Hinv Hc) as (cc & Hcc & _). rewrite Hcc. simpl.
  destruct (inv_kids _ _ _ _ Hinv Hcc) as (L & HL & <-).
  by rewrite rangeKeys_perm, (rep_keys _ _ _ HL).
Qed.

Lemma elem_of_visitOrder a s c d :
  inv None a s → d ∈ visitOrder a s c → a !! d = Some (mkActx (Some c) false).
Proof.
  intros Hinv Hd. assert (Hin : d ∈ kids a (next_id (cw_world s)) c).
  { destruct (a !! c) as [n|] eqn:Hc; [by rewrite <- (visitOrder_kids a s c)|].
    unfold visitOrder in Hd. destruct (orderedFlag _ _ _); [done|].
    destruct (cw_cancelCtxs s !! c) as [cc|] eqn:Hcc; [|by apply elem_of_nil in Hd].
    destruct (proj2 (i_dom _ _ _ Hinv c)) as [? ?]; [by eexists|congruence]. }
  apply elem_of_kids in Hin; [done|]. intros e. by apply inv_bound with None.
Qed.

Lemma visitOrder_NoDup a s c : inv None a s → NoDup (visitOrder a s c).
Proof.
  intros Hinv. destruct (a !! c) as [n|] eqn:Hc.
  - rewrite (visitOrder_kids a s c Hinv (mk_is_Some _ _ Hc)). apply sorted_lt_NoDup, kids_sorted.
  - unfold visitOrder. destruct (orderedFlag _ _ _); [apply sorted_lt_NoDup, kids_sorted|].
    destruct (cw_cancelCtxs s !! c) as [cc|] eqn:Hcc; [|constructor].
    destruct (proj2 (i_dom _ _ _ Hinv c)) as [? ?]; [by eexists|congruence].
Qed.

Lemma inv_intact a s d :
  inv None a s → is_Some (a !! d) → spec_cancelled a (Some d) = false →
  intact rangeKeys (orderedFlag allowed (cw_isReplay s) (cw_sdkFlags s)) (visitOrder a s)
    (cw_childNodes s) (cw_cancelCtxs s) d.
Proof.
  intros Hinv [n Hd] Hl. destruct (inv_lookup _ _ _ _ _ Hinv Hd) as (cc & Hcc & Hc).
  destruct (inv_kids _ _ _ _ Hinv Hcc) as (L & HL & Hkids). exists cc, L. split_and!; try done.
  - rewrite (c_err _ _ _ _ _ Hc). unfold spec_cancelled in Hl. simpl in Hl. rewrite Hd in Hl.
    simpl in Hl. by rewrite Hl.
  - unfold visitOrder. rewrite Hkids, Hcc. done.
Qed.

(** The contexts a cancellation of [c] visits. *)
Definition visit a s (c : nat) : list nat :=
  traverse (visitOrder a s) (S (next_id (cw_world s))) c.
#[local] Arguments visit : simpl never.
#[local] Arguments mark : simpl never.

Lemma under_is_Some a c d : is_Some (a !! c) → under a c d → is_Some (a !! d).
Proof.
  intros Hc Hu. destruct Hu as [|d p Hp _]; [done|]. by destruct (a !! d).
Qed.

Lemma visit_fits a s c : inv None a s → is_Some (a !! c) →
  fits (visitOrder a s) (S (next_id (cw_world s))) c.
Proof.
  intros Hinv Hc. apply fits_bound with (a := a) (N := next_id (cw_world s)).
  - by apply inv_older with None s.
  - intros ??. by apply elem_of_visitOrder.
  - intros d. by apply inv_bound with None.
  - by apply inv_bound with None a.
  - lia.
Qed.

Lemma elem_of_visit a s c d :
  inv None a s → is_Some (a !! c) → spec_cancelled a (Some c) = false →
  d ∈ visit a s c ↔ under a c d ∧ spec_cancelled a (Some d) = false.
Proof.
  intros Hinv Hc Hl. pose proof (inv_older _ _ _ Hinv) as Hold. split.
  - intros Hd. destruct (traverse_under a (visitOrder a s)
      (λ x y, elem_of_visitOrder a s x y Hinv) _ _ _ Hd) as [Hu [->|?]]; by split.
  - intros [Hu Hd]. induction Hu as [|d p Hp Hu IH]; [by left|].
    apply traverse_closed with p; [by apply visit_fits| |].
    + apply IH. destruct (spec_cancelled a (Some p)) eqn:Hcp; [|done].
      rewrite (inv_under _ _ _ p d Hinv) in Hd; [done| |done].
      eapply under_step; [exact Hp|constructor].
    + assert (Hsp : is_Some (a !! p)) by by eapply under_is_Some.
      rewrite (visitOrder_kids a s p) by done. apply elem_of_kids.
      { intros e. by apply inv_bound with None. }
      unfold spec_cancelled in Hd. simpl in Hd.
      destruct (a !! d) as [[q b]|]; [|done]. injection Hp as ->. simpl in Hd. by subst.
Qed.

Lemma visit_NoDup a s c : inv None a s → NoDup (visit a s c).
Proof.
  intros Hinv. apply traverse_NoDup with a.
  - by apply inv_older with None s.
  - intros ??. by apply elem_of_visitOrder.
  - intros ?. by apply visitOrder_NoDup.
Qed.

(** Cancelling a live context runs to the end. *)
Lemma cancel_live a s c e :
  inv None a s → is_Some (a !! c) → spec_cancelled a (Some c) = false →
  let cs := doneOf (cw_cancelCtxs s) <$> visit a s c in
  ∃ w' sf, closeAll cs (cw_world s) = (Returned tt, w') ∧ closes cs (cw_world s) w' ∧
    cancel (S (next_id (cw_world s))) c false (Some e) s =
    (Returned tt, visited e (visit a s c) w' sf s).
Proof.
  intros Hinv Hc Hl cs.
  destruct (closeAll_closes dropSignalFlag channelLostMsgFlag cs (cw_world s)) as (w' & Hw' & Hcl).
  - by apply (i_chans _ _ _ Hinv).
  - apply Forall_forall. intros x (d & -> & Hd)%list_elem_of_fmap.
    apply elem_of_visit in Hd as [Hu _]; [|done..].
    destruct (under_is_Some _ _ _ Hc Hu) as [n Hn].
    destruct (inv_lookup _ _ _ _ _ Hinv Hn) as (cc & Hcc & Hd). unfold doneOf. rewrite Hcc. simpl.
    pose proof (c_closed _ _ _ _ _ Hd) as Hch. by destruct (channels _ !! cc_done cc).
  - destruct (cancel_run dropSignalFlag channelLostMsgFlag allowed rangeKeys rangeKeys_perm
      (visitOrder a s) e (S (next_id (cw_world s))) c s w') as (sf & _ & Hrun).
    + by apply visit_fits.
    + by apply visit_NoDup.
    + intros d Hd. apply elem_of_visit in Hd as [Hu Hd]; [|done..].
      apply inv_intact; [done| |done]. by eapply under_is_Some.
    + done.
    + by exists w', sf.
Qed.

(** ** Cancellation keeps the invariant *)

Lemma lookup_spec_cancel a c d :
  spec_cancel a c !! d =
  (λ n, mkActx (a_parent n) (a_cancelled n || isUnder a d c d)) <$> a !! d.
Proof. unfold spec_cancel. rewrite map_lookup_imap. by destruct (a !! d). Qed.

Lemma spec_cancelled_after a c d :
  spec_cancelled (spec_cancel a c) (Some d) =
  spec_cancelled a (Some d) || (bool_decide (is_Some (a !! d)) && isUnder a d c d).
Proof.
  unfold spec_cancelled. simpl. rewrite lookup_spec_cancel. destruct (a !! d) as [n|]; [|done].
  by rewrite bool_decide_true by by eexists.
Qed.

Lemma lookup_mark e T (m : gmap nat (cancelCtx (V:=V) (K:=K))) d :
  NoDup T → mark e T m !! d = (if decide (d ∈ T) then cancelled e else id) <$> m !! d.
Proof.
  intros HND. case_decide; [by apply mark_in|]. rewrite mark_other by done.
  by rewrite option_fmap_id.
Qed.

Lemma isUnder_spec X a s c d : inv X a s → isUnder a d c d = true ↔ under a c d.
Proof. intros Hinv. apply isUnder_under; [by apply inv_older with X s|done]. Qed.

Lemma parent_of a e n d :
  a !! e = Some n → a_parent n = Some d → a_parent <$> a !! e = Some (Some d).
Proof. intros -> Hp. simpl. by rewrite Hp. Qed.

(** The list of a context after the visit of those under [c]. *)
Lemma visited_kid a s c d e :
  inv None a s → is_Some (a !! c) → spec_cancelled a (Some c) = false →
  if decide (d ∈ visit a s c) then ¬ kid (Some c) (spec_cancel a c) d e
  else kid (Some c) (spec_cancel a c) d e ↔ kid None a d e.
Proof.
  intros Hinv Hc Hl. case_decide as Hd; rewrite (elem_of_visit a s) in Hd by done.
  - destruct Hd as [Hu Hdl]. intros (n' & He & Hp & Hx). rewrite lookup_spec_cancel in He.
    destruct (a !! e) as [n|] eqn:Ha; [|done]. injection He as <-. simpl in Hp, Hx.
    assert (Hue : under a c e) by (eapply under_step; [by eapply parent_of|done]).
    destruct Hx as [Hx|[= <-]].
    + apply orb_false_iff in Hx as [_ Hx]. apply (isUnder_spec None a s) in Hue; [|done]. congruence.
    + apply (under_le a c d) in Hu; [|by apply inv_older with None s].
      pose proof (inv_older _ _ _ Hinv c d (parent_of _ _ _ _ Ha Hp)). lia.
  - rewrite kid_live. split.
    + intros (n' & He & Hp & Hx). rewrite lookup_spec_cancel in He.
      destruct (a !! e) as [[q b]|] eqn:Ha; [|done]. injection He as <-. simpl in Hp, Hx. subst q.
      destruct Hx as [Hx|[= <-]]; [by apply orb_false_iff in Hx as [-> _]|].
      unfold spec_cancelled in Hl. simpl in Hl. rewrite Ha in Hl. simpl in Hl. by subst.
    + intros Ha. unfold kid. rewrite lookup_spec_cancel, Ha. simpl. eexists. split_and!; [done..|].
      simpl. destruct (isUnder a e c e) eqn:Hu; [right|by left].
      apply (isUnder_spec None a s) in Hu; [|done].
      inversion Hu as [|? p Hp Hup]; [done|subst]. exfalso. apply Hd. rewrite Ha in Hp.
      injection Hp as ->. split; [done|]. destruct (spec_cancelled a (Some p)) eqn:Hcp; [|done].
      pose proof (inv_under _ _ _ p e Hinv) as Hall. unfold spec_cancelled in Hall at 2.
      simpl in Hall. rewrite Ha in Hall. simpl in Hall. symmetry. apply Hall; [|done].
      eapply under_step; [by rewrite Ha|constructor].
Qed.

Lemma done_visited a s c d cc :
  inv None a s → is_Some (a !! c) → spec_cancelled a (Some c) = false →
  cw_cancelCtxs s !! d = Some cc →
  cc_done cc ∈ doneOf (cw_cancelCtxs s) <$> visit a s c ↔ d ∈ visit a s c.
Proof.
  intros Hinv Hc Hl Hcc. rewrite list_elem_of_fmap. split.
  - intros (x & Hx & Hin). unfold doneOf in Hx.
    destruct (cw_cancelCtxs s !! x) as [ccx|] eqn:Hccx.
    + by rewrite (i_dones _ _ _ Hinv d x cc ccx Hcc Hccx Hx).
    + apply elem_of_visit in Hin as [Hu _]; [|done..]. apply under_is_Some in Hu; [|done].
      apply (i_dom _ _ _ Hinv) in Hu as [? ?]. congruence.
  - intros Hd. exists d. split; [|done]. unfold doneOf. by rewrite Hcc.
Qed.

Lemma ctx_inv_visited a s c w' sf d cc n :
  inv None a s → is_Some (a !! c) → spec_cancelled a (Some c) = false →
  closes (doneOf (cw_cancelCtxs s) <$> visit a s c) (cw_world s) w' →
  cw_cancelCtxs s !! d = Some cc → a !! d = Some n →
  ctx_inv (spec_cancel a c) (visited ErrCanceled (visit a s c) w' sf s) d
    ((if decide (d ∈ visit a s c) then cancelled ErrCanceled else id) cc)
    (mkActx (a_parent n) (a_cancelled n || isUnder a d c d)).
Proof.
  intros Hinv Hc Hl (Hnext & _ & Hclosed) Hcc Hn.
  assert (Hcan : spec_cancelled a (Some d) = a_cancelled n)
    by (unfold spec_cancelled; simpl; by rewrite Hn).
  assert (Hvis : a_cancelled n || isUnder a d c d = a_cancelled n || bool_decide (d ∈ visit a s c)).
  { destruct (a_cancelled n) eqn:Hb; [done|]. simpl. apply eq_iff_eq_true.
    rewrite bool_decide_eq_true, (elem_of_visit a s), (isUnder_spec None a s) by done. naive_solver. }
  assert (Hsame : ∀ {A} (f : cancelCtx → A), (∀ x, f (cancelled ErrCanceled x) = f x) →
    f ((if decide (d ∈ visit a s c) then cancelled ErrCanceled else id) cc) = f cc)
    by (intros A f Hf; case_decide; by rewrite ?Hf).
  destruct (i_ctx _ _ _ Hinv d cc n Hcc Hn) as [Hid Hdone Herr Hch Hup Hpar Hfol].
  split; simpl; rewrite ?Hnext; rewrite ?(Hsame _ cc_done), ?(Hsame _ cc_Context) by done; try done.
  - rewrite Hvis. case_decide as Hd.
    + rewrite bool_decide_true, orb_true_r by done. done.
    + rewrite bool_decide_false, orb_false_r by done. done.
  - rewrite Hclosed, Hvis, (bool_decide_ext _ _ (done_visited a s c d cc Hinv Hc Hl Hcc)).
    destruct (channels (cw_world s) !! cc_done cc) as [ch|]; [|done].
    injection Hch as Hch. simpl. by rewrite Hch, orb_comm.
  - intros p Hp. destruct (Hup p Hp) as [? ?]. split; [done|].
    by rewrite lookup_spec_cancel, fmap_is_Some.
  - intros p Hp. rewrite spec_cancelled_after.
    intros [Hcp|[_ Hu]%andb_true_iff]%orb_true_iff; [by rewrite (Hfol p Hp Hcp)|].
    apply (isUnder_spec None a s) in Hu; [|done]. apply orb_true_iff. right.
    apply (isUnder_spec None a s); [done|]. eapply under_step; [|done]. rewrite Hn. simpl. by rewrite Hp.
Qed.

Lemma inv_visited a s c w' sf :
  inv None a s → is_Some (a !! c) → spec_cancelled a (Some c) = false →
  closes (doneOf (cw_cancelCtxs s) <$> visit a s c) (cw_world s) w' →
  inv (Some c) (spec_cancel a c) (visited ErrCanceled (visit a s c) w' sf s).
Proof.
  intros Hinv Hc Hl (Hnext & Hok & Hclosed).
  pose proof (visit_NoDup a s c Hinv) as HND. split; simpl.
  - intros d. rewrite lookup_spec_cancel, lookup_mark, !fmap_is_Some by done.
    apply (i_dom _ _ _ Hinv).
  - done.
  - rewrite Hnext. apply (i_nodes _ _ _ Hinv).
  - intros d1 d2 cc1 cc2. rewrite !lookup_mark by done.
    intros (x1 & Hx1 & ->)%fmap_Some (x2 & Hx2 & ->)%fmap_Some Heq.
    apply (i_dones _ _ _ Hinv d1 d2 x1 x2); [done..|]. by repeat case_decide.
  - intros d cc' n'. rewrite lookup_mark, lookup_spec_cancel by done.
    intros (cc & Hcc & ->)%fmap_Some (n & Hn & ->)%fmap_Some.
    by apply ctx_inv_visited.
  - intros d cc'. rewrite lookup_mark by done. intros (cc & Hcc & ->)%fmap_Some.
    destruct (i_kids _ _ _ Hinv d cc Hcc) as (L & HL & Hsort & Hin).
    case_decide as Hd.
    + exists []. split_and!; [apply rep_empty|constructor|]. intros e.
      pose proof (visited_kid a s c d e Hinv Hc Hl) as Hk. rewrite decide_True in Hk by done.
      split; [by intros ?%elem_of_nil|done].
    + exists L. split_and!; [done..|]. intros e.
      pose proof (visited_kid a s c d e Hinv Hc Hl) as Hk. rewrite decide_False in Hk by done.
      by rewrite Hk.
Qed.

(** ** Leaving the parent's list *)

Lemma kid_drop a c d e :
  spec_cancelled a (Some c) = true → kid None a d e ↔ kid (Some c) a d e ∧ e ≠ c.
Proof.
  intros Hc. split.
  - intros (n & Hn & Hp & [Hb|]); [|done]. split; [exists n; split_and!; [done..|by left]|].
    intros ->. unfold spec_cancelled in Hc. simpl in Hc. rewrite Hn in Hc. simpl in Hc. congruence.
  - intros [(n & Hn & Hp & [Hb|[= ->]]) Hne]; [|done]. exists n. split_and!; [done..|by left].
Qed.

(** Only the lists change. *)
Lemma inv_relist X Y a s s' :
  inv X a s → cw_world s' = cw_world s →
  (∀ d, (λ cc, (cc_Context cc, cc_done cc, cc_err cc)) <$> cw_cancelCtxs s' !! d =
        (λ cc, (cc_Context cc, cc_done cc, cc_err cc)) <$> cw_cancelCtxs s !! d) →
  (∀ n, is_Some (cw_childNodes s' !! n) → is_Some (cw_childNodes s !! n)) →
  (∀ d cc, cw_cancelCtxs s' !! d = Some cc →
    ∃ L, childList_rep (cw_childNodes s') (cc_children cc) L ∧ StronglySorted lt L.*2 ∧
      ∀ e, e ∈ L.*2 ↔ kid Y a d e) →
  inv Y a s'.
Proof.
  intros Hinv Hw Hm Hn Hkids.
  assert (Hold : ∀ d cc', cw_cancelCtxs s' !! d = Some cc' → ∃ cc, cw_cancelCtxs s !! d = Some cc ∧
    cc_Context cc' = cc_Context cc ∧ cc_done cc' = cc_done cc ∧ cc_err cc' = cc_err cc).
  { intros d cc' Hd. specialize (Hm d). rewrite Hd in Hm. simpl in Hm. symmetry in Hm.
    apply fmap_Some in Hm as (cc & Hcc & Heq). injection Heq as ???. by exists cc. }
  split; rewrite ?Hw.
  - intros d. rewrite (i_dom _ _ _ Hinv d). specialize (Hm d).
    by destruct (cw_cancelCtxs s' !! d), (cw_cancelCtxs s !! d).
  - apply (i_chans _ _ _ Hinv).
  - intros n Hn'. by apply (i_nodes _ _ _ Hinv), Hn.
  - intros d1 d2 cc1 cc2 (x1 & Hx1 & _ & -> & _)%Hold (x2 & Hx2 & _ & -> & _)%Hold Heq.
    by apply (i_dones _ _ _ Hinv d1 d2 x1 x2).
  - intros d cc' n (cc & Hcc & H1 & H2 & H3)%Hold Hd.
    destruct (i_ctx _ _ _ Hinv d cc n Hcc Hd). split; by rewrite ?H1, ?H2, ?H3, ?Hw.
  - done.
Qed.

Lemma run_removeChild s p pc ctx c l' h' :
  parentCancelCtx ctx = Some p → cw_cancelCtxs s !! p = Some pc →
  remove (cc_children pc) c s = (Returned l', set_childNodes h' s) →
  removeChild ctx c s =
  (Returned tt, set_cancelCtxs (<[p := with_children l' pc]> (cw_cancelCtxs s)) (set_childNodes h' s)).
Proof.
  intros Hp Hpc Hrem. unfold removeChild. rewrite Hp.
  rewrite (bind_returned _ _ _ _ _ (run_getCancelCtx _ _ _ Hpc)), (bind_returned _ _ _ _ _ Hrem).
  rewrite (bind_returned _ _ _ pc (set_childNodes h' s)); [done|]. by apply run_getCancelCtx.
Qed.

(** A context in no list needs no removal. *)
Lemma inv_unlisted a s c :
  inv (Some c) a s → spec_cancelled a (Some c) = true → (∀ d, ¬ kid (Some c) a d c) → inv None a s.
Proof.
  intros Hinv Hc Hno. apply (inv_relist (Some c) None a s); try done. intros d ccd Hd.
  destruct (i_kids _ _ _ Hinv d ccd Hd) as (L & HL & Hs & Hin). exists L. split_and!; [done..|].
  intros e. rewrite Hin, (kid_drop a c) by done. split; [|tauto]. intros Hk. split; [done|].
  intros ->. by apply (Hno d).
Qed.

Lemma inv_removed a s c p pc L1 k L2 :
  inv (Some c) a s → spec_cancelled a (Some c) = true → cw_cancelCtxs s !! p = Some pc →
  childList_rep (cw_childNodes s) (cc_children pc) (L1 ++ (k, c) :: L2) →
  StronglySorted lt (L1 ++ (k, c) :: L2).*2 →
  (∀ e, e ∈ (L1 ++ (k, c) :: L2).*2 ↔ kid (Some c) a p e) →
  let l' := unlinkedList (cc_children pc) c (lastNode None L1) (firstNode L2 None) in
  let h' := unlinked (cw_childNodes s) L1 k c L2 in
  inv None a (set_cancelCtxs (<[p := with_children l' pc]> (cw_cancelCtxs s)) (set_childNodes h' s)).
Proof.
  intros Hinv Hc Hpc HL Hs Hin l' h'.
  assert (Hin' : ∀ e, e ∈ (L1 ++ L2).*2 ↔ kid None a p e).
  { intros e. rewrite (kid_drop a c) by done. rewrite <- Hin.
    pose proof (sorted_lt_NoDup _ Hs) as HND. rewrite !fmap_app in HND |- *. simpl in *.
    apply NoDup_app in HND as (_ & Hd & [Hc2 _]%NoDup_cons).
    assert (c ∉ L1.*2) by (intros ?; apply (Hd c); [done|left]). set_solver. }
  apply (inv_relist (Some c) None a s); simpl; try done.
  - intros d. destruct (decide (d = p)) as [->|]; [by rewrite lookup_insert_eq, Hpc|].
    by rewrite lookup_insert_ne.
  - intros n Hn. destruct (decide (n ∈ (L1 ++ (k, c) :: L2).*1)) as [HnL|HnL].
    + by eapply dseg_nodes; [apply (rep_linked _ _ _ HL)|].
    + unfold h' in Hn. by rewrite unlinked_other in Hn.
  - intros d ccd. destruct (decide (d = p)) as [->|Hdp].
    + rewrite lookup_insert_eq. intros [= <-]. exists (L1 ++ L2). split_and!.
      * by apply rep_unlinked.
      * rewrite fmap_app in *. by eapply sorted_delete.
      * done.
    + rewrite lookup_insert_ne by done. intros Hd.
      destruct (i_kids _ _ _ Hinv d ccd Hd) as (L & HL' & Hs' & Hin2).
      exists L. split_and!; [|done|].
      * apply rep_frame with (cw_childNodes s); [|done]. intros n Hn. apply unlinked_other.
        intros Hn'. apply Hdp. by eapply (inv_disjoint (Some c) a s d p).
      * intros e. rewrite Hin2, (kid_drop a c) by done. split; [|tauto]. intros Hk. split; [done|].
        intros ->. apply Hdp. 
        assert (Hk2 : kid (Some c) a p c) by (apply Hin; rewrite fmap_app; set_solver).
        destruct Hk as (? & ? & ? & _), Hk2 as (? & ? & ? & _). congruence.
Qed.

Lemma removeChild_keeps a s c cc :
  inv (Some c) a s → cw_cancelCtxs s !! c = Some cc → spec_cancelled a (Some c) = true →
  ∃ s', removeChild (cc_Context cc) c s = (Returned tt, s') ∧ inv None a s' ∧
    cw_world s' = cw_world s.
Proof.
  intros Hinv Hcc Hc. destruct (proj2 (i_dom _ _ _ Hinv c)) as [n Hn]; [by eexists|].
  destruct (i_ctx _ _ _ Hinv c cc n Hcc Hn) as [_ _ _ _ Hup Hpar _].
  assert (Hnone : ∀ d, kid (Some c) a d c → parentCancelCtx (cc_Context cc) = Some d).
  { intros d (n' & Hn' & Hp & _). rewrite Hn in Hn'. injection Hn' as <-. by apply Hpar. }
  destruct (parentCancelCtx (cc_Context cc)) as [p|] eqn:Hp.
  2:{ exists s. unfold removeChild. rewrite Hp. split_and!; [done| |done].
      apply (inv_unlisted a s c); [done..|]. by intros d ?%Hnone. }
  destruct (Hup p eq_refl) as [Hpc Hsp]. apply (i_dom _ _ _ Hinv) in Hsp as [pc Hpcc].
  destruct (i_kids _ _ _ Hinv p pc Hpcc) as (L & HL & Hs & Hin).
  destruct (decide (c ∈ L.*2)) as [HcL|HcL].
  - apply list_elem_of_fmap in HcL as ([k c'] & Hc' & (L1 & L2 & ->)%list_elem_of_split).
    simpl in Hc'. subst c'. pose proof (remove_spec s _ _ _ _ _ HL) as Hrem.
    eexists. split; [by eapply run_removeChild|]. split; [|done]. by apply inv_removed.
  - exists s. split_and!; [| |done].
    + rewrite (run_removeChild s p pc _ c (cc_children pc) (cw_childNodes s)); [|done..|].
      * replace (with_children _ pc) with pc by by destruct pc. rewrite insert_id by done.
        by destruct s.
      * rewrite (remove_absent s _ _ _ HL HcL). by destruct s.
    + apply (inv_unlisted a s c); [done..|]. intros d Hk. apply HcL, Hin.
      pose proof (Hnone d Hk) as [= ->]. done.
Qed.

(** ** The cancel function *)

Lemma cancel_true fuel c e s cc :
  cw_cancelCtxs s !! c = Some cc → cc_err cc = None →
  cancel (S fuel) c true (Some e) s =
  (_ ← cancel (S fuel) c false (Some e); removeChild (cc_Context cc) c) s.
Proof.
  intros Hcc Herr. simpl. rewrite <- bind_assoc.
  rewrite !(bind_returned _ _ _ _ _ (run_getCancelCtx _ _ _ Hcc)).
  rewrite !decide_False by (rewrite Herr; tauto).
  unfold mbind, go_bind. cbn [putCancelCtx modify].
  repeat match goal with |- context [match ?x with (_, _) => _ end] =>
    lazymatch x with
    | context [match _ with (_, _) => _ end] => fail
    | _ => destruct x as [[]?]; try done
    end
  end.
Qed.

Lemma spec_cancel_again X a s c :
  inv X a s → spec_cancelled a (Some c) = true → spec_cancel a c = a.
Proof.
  intros Hinv Hc. apply map_eq. intros d. rewrite lookup_spec_cancel.
  destruct (a !! d) as [[p b]|] eqn:Hd; [|done]. simpl. do 2 f_equal.
  destruct (isUnder a d c d) eqn:Hu; [|by rewrite orb_false_r].
  apply (isUnder_spec X a s) in Hu; [|done].
  pose proof (inv_under _ _ _ _ _ Hinv Hu Hc) as Hcd. unfold spec_cancelled in Hcd. simpl in Hcd.
  rewrite Hd in Hcd. simpl in Hcd. by subst.
Qed.

Lemma CancelFunc_run a s c :
  inv None a s → is_Some (a !! c) →
  let cs := doneOf (cw_cancelCtxs s) <$>
    (if spec_cancelled a (Some c) then [] else visit a s c) in
  ∃ s', CancelFunc c s = (Returned tt, s') ∧ inv None (spec_cancel a c) s' ∧
    closeAll cs (cw_world s) = (Returned tt, cw_world s').
Proof.
  intros Hinv Hc cs. destruct Hc as [n Hn].
  destruct (inv_lookup _ _ _ _ _ Hinv Hn) as (cc & Hcc & Hctx).
  assert (Hcan : spec_cancelled a (Some c) = a_cancelled n)
    by (unfold spec_cancelled; simpl; by rewrite Hn).
  pose proof (c_err _ _ _ _ _ Hctx) as Herr.
  unfold Context.CancelFunc. rewrite (bind_returned get _ s s s) by done.
  destruct (a_cancelled n) eqn:Hb.
  - exists s. unfold cs. rewrite Hcan, (spec_cancel_again None a s) by done. split_and!; [|done..].
    simpl. rewrite (bind_returned _ _ _ _ _ (run_getCancelCtx _ _ _ Hcc)), Herr.
    by rewrite decide_True.
  - unfold cs. rewrite Hcan.
    destruct (cancel_live a s c ErrCanceled) as (w' & sf & Hclose & Hcl & Hrun); [done..|by rewrite Hn|done|].
    rewrite (cancel_true _ _ _ _ _ Hcc Herr), (bind_returned _ _ _ _ _ Hrun).
    assert (Hvis : c ∈ visit a s c) by by left.
    destruct (removeChild_keeps (spec_cancel a c) (visited ErrCanceled (visit a s c) w' sf s) c
      (cancelled ErrCanceled cc)) as (s' & Hrem & Hinv' & Hw).
    + apply inv_visited; [done|by eexists|done..].
    + simpl. rewrite lookup_mark by by apply visit_NoDup. by rewrite Hcc, decide_True.
    + rewrite spec_cancelled_after, bool_decide_true by (by eexists).
      apply orb_true_iff. right. simpl. by apply (isUnder_spec None a s), under_refl.
    + exists s'. split_and!; [done..|]. by rewrite Hw.
Qed.

(** ** Creating contexts *)

Lemma ctx_inv_mono a s a' s' d cc n :
  ctx_inv a s d cc n → next_id (cw_world s) ≤ next_id (cw_world s') →
  ch_closed <$> channels (cw_world s') !! cc_done cc =
    ch_closed <$> channels (cw_world s) !! cc_done cc →
  (∀ p, is_Some (a !! p) →
    is_Some (a' !! p) ∧ spec_cancelled a' (Some p) = spec_cancelled a (Some p)) →
  ctx_inv a' s' d cc n.
Proof.
  intros [Hid Hdone Herr Hch Hup Hpar Hfol] Hle Hcl Hmono. split; try done; try lia.
  - by rewrite Hcl.
  - intros p Hp. destruct (Hup p Hp) as [? Hsp]. split; [done|]. by apply Hmono.
  - intros p Hp. destruct (Hup p (Hpar p Hp)) as [_ Hsp].
    rewrite (proj2 (Hmono p Hsp)). by apply Hfol.
Qed.

(** The store after [newCancelCtx]. *)
Definition created (parent : Ctx) s : ctxWorld :=
  let N := next_id (cw_world s) in
  mkCtxWorld
    (set_next (S (S N)) (set_channel N (mkChannelImpl 0 [] [] [] false None) (cw_world s)))
    (<[S N := mkCancelCtx parent N emptyChildList None]> (cw_cancelCtxs s))
    (cw_childNodes s) (cw_sdkFlags s) (cw_isReplay s).

Lemma newCancelCtx_run parent s :
  newCancelCtx parent s = (Returned (S (next_id (cw_world s))), created parent s).
Proof. done. Qed.

(** The contexts a context refers to exist. *)
Definition valid a (ctx : Ctx (V:=V) (K:=K)) : Prop :=
  ∀ p, parentCancelCtx ctx = Some p → is_Some (a !! p).

Lemma inv_fresh X a s d : inv X a s → next_id (cw_world s) ≤ d → a !! d = None.
Proof.
  intros Hinv Hd. destruct (a !! d) as [n|] eqn:Ha; [|done].
  pose proof (inv_bound _ _ _ d Hinv (mk_is_Some _ _ Ha)). lia.
Qed.

Lemma spec_cancelled_new a c n p :
  a !! c = None → is_Some (a !! p) → spec_cancelled (<[c := n]> a) (Some p) = spec_cancelled a (Some p).
Proof.
  intros Hc [np Hp]. unfold spec_cancelled. simpl. rewrite lookup_insert_ne; [done|]. congruence.
Qed.

Lemma inv_created a s parent :
  inv None a s → valid a parent →
  inv None (spec_NewDisconnected a (S (next_id (cw_world s)))) (created parent s).
Proof.
  intros Hinv Hval. set (N := next_id (cw_world s)).
  pose proof (inv_fresh _ _ _ (S N) Hinv ltac:(lia)) as HN.
  assert (HNm : cw_cancelCtxs s !! S N = None).
  { destruct (cw_cancelCtxs s !! S N) eqn:H; [|done].
    destruct (proj2 (i_dom _ _ _ Hinv (S N))) as [? ?]; [by eexists|congruence]. }
  unfold spec_NewDisconnected. split; simpl; fold N.
  - intros d. rewrite !lookup_insert_is_Some', (i_dom _ _ _ Hinv d). done.
  - intros c ch. simpl. destruct (decide (c = N)) as [->|Hne].
    + rewrite lookup_insert_eq. intros [= <-]. constructor.
    + rewrite lookup_insert_ne by done. intros Hc.
      eapply Forall_impl; [by apply (i_chans _ _ _ Hinv c)|]. intros cb.
      unfold callback_ok. destruct (rc_fn cb); try done. simpl. rewrite lookup_insert_is_Some'. by right.
  - intros n Hn. apply (i_nodes _ _ _ Hinv) in Hn. fold N in Hn. lia.
  - intros d1 d2 cc1 cc2 H1 H2 Heq.
    assert (Hdone : ∀ d cc, cw_cancelCtxs s !! d = Some cc → cc_done cc ≠ N).
    { intros d cc Hd He. destruct (proj2 (i_dom _ _ _ Hinv d)) as [n Hn]; [by eexists|].
      pose proof (c_done _ _ _ _ _ (i_ctx _ _ _ Hinv d cc n Hd Hn)). unfold N in He. lia. }
    apply lookup_insert_Some in H1 as [[<- <-]|[? H1]];
      apply lookup_insert_Some in H2 as [[<- <-]|[? H2]]; try done.
    + by apply Hdone in H2.
    + by apply Hdone in H1.
    + by apply (i_dones _ _ _ Hinv d1 d2 cc1 cc2).
  - intros d cc n. destruct (decide (d = S N)) as [->|Hd].
    + rewrite !lookup_insert_eq. intros [= <-] [= <-]. split; simpl; try done; fold N; try lia.
      * by rewrite lookup_insert_eq.
      * intros p Hp. specialize (Hval p Hp). split.
        -- apply (inv_bound None a s) in Hval; [|done]. fold N in Hval. lia.
        -- rewrite lookup_insert_is_Some'. by right.
    + rewrite !lookup_insert_ne by done. intros H1 H2.
      pose proof (i_ctx _ _ _ Hinv d cc n H1 H2) as Hctx.
      apply ctx_inv_mono with a s; [done|simpl; fold N; lia| |].
      * simpl. rewrite lookup_insert_ne; [done|]. pose proof (c_done _ _ _ _ _ Hctx). lia.
      * intros p Hp. split; [rewrite lookup_insert_is_Some'; by right|].
        by apply spec_cancelled_new.
  - intros d cc H1. apply lookup_insert_Some in H1 as [[<- <-]|[? H1]].
    + exists []. split_and!; [apply rep_empty|constructor|]. intros e. rewrite kid_live.
      split; [by intros ?%elem_of_nil|]. intros [[? [=]]|[? He]]%lookup_insert_Some.
      destruct (inv_lookup _ _ _ _ _ Hinv He) as (cc & _ & Hctx).
      pose proof (c_up _ _ _ _ _ Hctx _ (c_parent _ _ _ _ _ Hctx _ eq_refl)) as [_ [? ?]]. congruence.
    + destruct (i_kids _ _ _ Hinv d cc H1) as (L & HL & Hs & Hin). exists L. split_and!; [done..|].
      intros e. rewrite Hin, !kid_live. rewrite lookup_insert_Some. split; [|naive_solver].
      intros He. right. split; [|done]. congruence.
Qed.

(** Giving a parent to a context that has none changes nothing for the
    others. *)
Lemma spec_cancelled_reparent a c b p x :
  a !! c = Some (mkActx None b) →
  spec_cancelled (<[c := mkActx (Some p) b]> a) (Some x) = spec_cancelled a (Some x).
Proof.
  intros Hc. unfold spec_cancelled. simpl.
  destruct (decide (x = c)) as [->|]; [by rewrite lookup_insert_eq, Hc|]. by rewrite lookup_insert_ne.
Qed.

Lemma ctx_inv_reparent a s s' c b p d cc n :
  inv None a s → a !! c = Some (mkActx None b) → (spec_cancelled a (Some p) = true → b = true) →
  (∀ ccc, cw_cancelCtxs s !! c = Some ccc → parentCancelCtx (cc_Context ccc) = Some p) →
  next_id (cw_world s) ≤ next_id (cw_world s') → channels (cw_world s') = channels (cw_world s) →
  cw_cancelCtxs s !! d = Some cc → <[c := mkActx (Some p) b]> a !! d = Some n →
  ctx_inv (<[c := mkActx (Some p) b]> a) s' d cc n.
Proof.
  intros Hinv Hc Hb Hpar Hle Hch Hcc Hn.
  assert (Hmono : ∀ x, is_Some (a !! x) → is_Some (<[c := mkActx (Some p) b]> a !! x) ∧
    spec_cancelled (<[c := mkActx (Some p) b]> a) (Some x) = spec_cancelled a (Some x)).
  { intros x Hx. split; [rewrite lookup_insert_is_Some'; by right|].
    by apply spec_cancelled_reparent. }
  destruct (decide (d = c)) as [->|Hne].
  - rewrite lookup_insert_eq in Hn. injection Hn as <-.
    pose proof (ctx_inv_mono a s _ s' c cc _ (i_ctx _ _ _ Hinv c cc _ Hcc Hc) Hle ltac:(by rewrite Hch) Hmono)
      as [????? _ _]. split; try done; simpl.
    + intros ? [= <-]. by apply Hpar.
    + intros ? [= <-]. by rewrite spec_cancelled_reparent.
  - rewrite lookup_insert_ne in Hn by done. apply ctx_inv_mono with a s; try done.
    + by apply (i_ctx _ _ _ Hinv).
    + by rewrite Hch.
Qed.

(** A cancelled context is in no list, whatever its parent. *)
Lemma inv_reparent a s c p :
  inv None a s → a !! c = Some (mkActx None true) →
  (∀ ccc, cw_cancelCtxs s !! c = Some ccc → parentCancelCtx (cc_Context ccc) = Some p) →
  inv None (<[c := mkActx (Some p) true]> a) s.
Proof.
  intros Hinv Hc Hpar. split.
  - intros d. rewrite <- (i_dom _ _ _ Hinv d), lookup_insert_is_Some'. split; [|by right].
    intros [->|]; [by eexists|done].
  - apply (i_chans _ _ _ Hinv).
  - apply (i_nodes _ _ _ Hinv).
  - apply (i_dones _ _ _ Hinv).
  - intros d cc n Hcc Hn. by apply (ctx_inv_reparent a s s c true p).
  - intros d cc Hd. destruct (i_kids _ _ _ Hinv d cc Hd) as (L & HL & Hs & Hin).
    exists L. split_and!; [done..|]. intros e. rewrite Hin, !kid_live, lookup_insert_Some.
    split; [|naive_solver]. intros He. right. split; [|done]. congruence.
Qed.

(** The newest context joins the list of its live parent. *)
Lemma inv_attach a s c p pc :
  inv None a s → a !! c = Some (mkActx None false) → (∀ e, is_Some (a !! e) → e ≤ c) → p ≠ c →
  (∀ ccc, cw_cancelCtxs s !! c = Some ccc → parentCancelCtx (cc_Context ccc) = Some p) →
  cw_cancelCtxs s !! p = Some pc → spec_cancelled a (Some p) = false →
  ∃ l' h', add (cc_children pc) c s = (Returned l', set_childNodes h' (bumped s)) ∧
    inv None (<[c := mkActx (Some p) false]> a)
      (set_cancelCtxs (<[p := with_children l' pc]> (cw_cancelCtxs s)) (set_childNodes h' (bumped s))).
Proof.
  intros Hinv Hc Hmax Hpc Hpar Hp Hl.
  destruct (i_kids _ _ _ Hinv p pc Hp) as (L & HL & Hs & Hin).
  assert (HcL : c ∉ L.*2) by (rewrite Hin, kid_live, Hc; congruence).
  destruct (add_spec s (cc_children pc) L c) as (l' & h' & Hadd & HL' & Hframe); [done..| |].
  { destruct (cw_childNodes s !! next_id (cw_world s)) eqn:H; [|done].
    pose proof (i_nodes _ _ _ Hinv _ (mk_is_Some _ _ H)). lia. }
  exists l', h'. split; [done|].
  assert (Hold : ∀ d cc, <[p := with_children l' pc]> (cw_cancelCtxs s) !! d = Some cc →
    ∃ cc0, cw_cancelCtxs s !! d = Some cc0 ∧ cc_Context cc = cc_Context cc0 ∧
      cc_done cc = cc_done cc0 ∧ cc_err cc = cc_err cc0).
  { intros d cc [[<- <-]|[? ?]]%lookup_insert_Some; by eexists. }
  split; simpl.
  - intros d. rewrite !lookup_insert_is_Some', <- (i_dom _ _ _ Hinv d). split.
    + intros [<-|?]; right; [by eexists|done].
    + intros [<-|?]; right; [|done]. apply (i_dom _ _ _ Hinv). by eexists.
  - apply (i_chans _ _ _ Hinv).
  - intros n Hn. destruct (decide (n = next_id (cw_world s))) as [->|]; [lia|].
    apply Nat.lt_lt_succ_r, (i_nodes _ _ _ Hinv).
    destruct (decide (n ∈ L.*1)); [eapply dseg_nodes; [apply (rep_linked _ _ _ HL)|done]|].
    by rewrite <- Hframe.
  - intros d1 d2 cc1 cc2 (x1 & Hx1 & _ & -> & _)%Hold (x2 & Hx2 & _ & -> & _)%Hold.
    by apply (i_dones _ _ _ Hinv).
  - intros d cc n (cc0 & Hcc0 & H1 & H2 & H3)%Hold Hn.
    destruct (ctx_inv_reparent a s (bumped s) c false p d cc0 n) as [????]; simpl; try done; [by rewrite Hl|lia|].
    split; rewrite ?H1, ?H2, ?H3; done.
  - intros d cc [[<- <-]|[Hne Hd]]%lookup_insert_Some.
    + exists (L ++ [(next_id (cw_world s), c)]). split_and!; [done|..].
      * rewrite fmap_app. apply sorted_snoc; [done|]. intros y Hy.
        assert (y ≠ c) by by intros ->. apply Hin, kid_live in Hy.
        specialize (Hmax y (mk_is_Some _ _ Hy)). simpl. lia.
      * intros e. rewrite fmap_app, elem_of_app, Hin, !kid_live, lookup_insert_Some. simpl.
        rewrite list_elem_of_singleton. destruct (decide (e = c)) as [->|]; [|naive_solver]. naive_solver.
    + destruct (i_kids _ _ _ Hinv d cc Hd) as (L2 & HL2 & Hs2 & Hin2). exists L2. split_and!; [|done|].
      * apply rep_frame with (cw_childNodes s); [|done]. intros n Hn. apply Hframe.
        -- intros Hn'. apply Hne. symmetry. by eapply (inv_disjoint None a s d p).
        -- intros ->. pose proof (dseg_nodes _ _ _ _ _ (rep_linked _ _ _ HL2) Hn) as Hlt.
           apply (i_nodes _ _ _ Hinv) in Hlt. lia.
      * intros e. rewrite Hin2, !kid_live, lookup_insert_Some. split; [|naive_solver].
        intros He. right. split; [|done]. congruence.
Qed.

(** Cancelling the newest context. *)
Lemma spec_cancel_leaf a s c :
  inv None a s → a !! c = Some (mkActx None false) → (∀ e, is_Some (a !! e) → e ≤ c) →
  spec_cancel a c = <[c := mkActx None true]> a.
Proof.
  intros Hinv Hc Hmax. apply map_eq. intros d. rewrite lookup_spec_cancel.
  destruct (decide (d = c)) as [->|Hne].
  - rewrite lookup_insert_eq, Hc. simpl. do 2 f_equal.
    apply (isUnder_spec None a s); [done|constructor].
  - rewrite lookup_insert_ne by done. destruct (a !! d) as [[q b]|] eqn:Hd; [|done]. simpl.
    do 2 f_equal. destruct (isUnder a d c d) eqn:Hu; [|by rewrite orb_false_r].
    apply (isUnder_spec None a s) in Hu; [|done].
    apply under_le in Hu; [|by apply inv_older with None s].
    specialize (Hmax d (mk_is_Some _ _ Hd)). lia.
Qed.

(** A child of a cancelled context is cancelled at once. *)
Lemma inv_born_cancelled a s c p :
  inv None a s → a !! c = Some (mkActx None false) → (∀ e, is_Some (a !! e) → e ≤ c) →
  (∀ ccc, cw_cancelCtxs s !! c = Some ccc → parentCancelCtx (cc_Context ccc) = Some p) →
  ∃ s', cancel 1 c false (Some ErrCanceled) s = (Returned tt, s') ∧
    inv None (<[c := mkActx (Some p) true]> a) s'.
Proof.
  intros Hinv Hc Hmax Hpar.
  assert (Hl : spec_cancelled a (Some c) = false) by (unfold spec_cancelled; simpl; by rewrite Hc).
  assert (Hno : visitOrder a s c = []).
  { apply elem_of_nil_inv. intros d Hd. apply elem_of_visitOrder in Hd; [|done].
    pose proof (inv_older _ _ _ Hinv d c ltac:(by rewrite Hd)).
    specialize (Hmax d (mk_is_Some _ _ Hd)). lia. }
  assert (Hvisit : visit a s c = [c]) by (unfold visit; simpl; by rewrite Hno).
  destruct (cancel_live a s c ErrCanceled Hinv (mk_is_Some _ _ Hc) Hl) as (w' & _ & Hclose & Hcl & _).
  destruct (cancel_run dropSignalFlag channelLostMsgFlag allowed rangeKeys rangeKeys_perm
    (visitOrder a s) ErrCanceled 1 c s w') as (sf & _ & Hrun); simpl; rewrite ?Hno.
  - by intros ? ?%elem_of_nil.
  - apply NoDup_singleton.
  - simpl. intros d ->%list_elem_of_singleton. apply inv_intact; [done|by eexists|done].
  - by rewrite Hvisit in Hclose.
  - eexists. split; [exact Hrun|]. simpl. rewrite Hno. simpl.
    pose proof (inv_visited a s c w' sf Hinv (mk_is_Some _ _ Hc) Hl Hcl) as Hinv'.
    rewrite Hvisit in Hinv'. apply inv_unlisted in Hinv'.
    + rewrite (spec_cancel_leaf a s c) in Hinv' by done. apply (inv_reparent _ _ c p) in Hinv'.
      * by rewrite insert_insert_eq in Hinv'.
      * by rewrite lookup_insert_eq.
      * intros ccc Hccc. unfold visited in Hccc. cbn [cw_cancelCtxs] in Hccc.
        rewrite mark_in in Hccc by (apply NoDup_singleton || by left).
        apply fmap_Some in Hccc as (cc & Hcc & ->). exact (Hpar cc Hcc).
    + rewrite spec_cancelled_after, (bool_decide_true _ (mk_is_Some _ _ Hc)).
      apply orb_true_iff. right. simpl. apply (isUnder_spec None a s); [done|constructor].
    + intros d (n & Hn & Hp & _). rewrite lookup_spec_cancel, Hc in Hn. simpl in Hn. by injection Hn as <-.
Qed.

Lemma run_Done ctx s :
  (∀ p, parentCancelCtx ctx = Some p → is_Some (cw_cancelCtxs s !! p)) →
  Done ctx s = (Returned (doneOf (cw_cancelCtxs s) <$> parentCancelCtx ctx), s).
Proof.
  induction ctx as [|c|ctx IH k v]; intros Hv; [done| |by apply IH]. simpl.
  destruct (Hv c eq_refl) as [cc Hcc]. rewrite (bind_returned _ _ _ _ _ (run_getCancelCtx _ _ _ Hcc)).
  unfold doneOf. by rewrite Hcc.
Qed.

Lemma run_Err ctx s :
  (∀ p, parentCancelCtx ctx = Some p → is_Some (cw_cancelCtxs s !! p)) →
  Err ctx s = (Returned (p ← parentCancelCtx ctx; cc ← cw_cancelCtxs s !! p; cc_err cc), s).
Proof.
  induction ctx as [|c|ctx IH k v]; intros Hv; [done| |by apply IH]. simpl.
  destruct (Hv c eq_refl) as [cc Hcc]. rewrite (bind_returned _ _ _ _ _ (run_getCancelCtx _ _ _ Hcc)).
  by rewrite Hcc.
Qed.

Lemma WithCancel_run a s parent :
  inv None a s → valid a parent →
  let c := S (next_id (cw_world s)) in
  ∃ s', WithCancel parent s = (Returned c, s') ∧
    inv None (spec_WithCancel a (parentCancelCtx parent) c) s'.
Proof.
  intros Hinv Hval c. set (s0 := created parent s). set (a0 := spec_NewDisconnected a c).
  pose proof (inv_created a s parent Hinv Hval) as Hinv0. fold c a0 s0 in Hinv0.
  pose proof (inv_fresh _ _ _ c Hinv ltac:(unfold c; lia)) as Hc.
  assert (Hc0 : a0 !! c = Some (mkActx None false)) by apply lookup_insert_eq.
  assert (Hmax : ∀ e, is_Some (a0 !! e) → e ≤ c).
  { intros e He%(inv_bound None a0 s0); [|done]. simpl in He. unfold c. lia. }
  assert (Hpar : ∀ p ccc, parentCancelCtx parent = Some p → cw_cancelCtxs s0 !! c = Some ccc →
    parentCancelCtx (cc_Context ccc) = Some p).
  { intros p ccc Hp. simpl. rewrite lookup_insert_eq. by intros [= <-]. }
  unfold Context.WithCancel. rewrite (bind_returned _ _ _ _ _ (newCancelCtx_run parent s)).
  fold c s0. unfold propagateCancel.
  assert (Hval0 : ∀ p, parentCancelCtx parent = Some p → is_Some (cw_cancelCtxs s0 !! p)).
  { intros p Hp. apply (i_dom _ _ _ Hinv0). apply lookup_insert_is_Some'. right. by apply Hval. }
  rewrite <- bind_assoc, (bind_returned _ _ _ _ _ (run_Done parent s0 Hval0)).
  destruct (parentCancelCtx parent) as [p|] eqn:Hp; simpl; [|by exists s0].
  destruct (Hval p Hp) as [np Hnp]. assert (Hpc : p ≠ c) by congruence.
  assert (Hcan : spec_cancelled a0 (Some p) = a_cancelled np).
  { unfold a0, spec_NewDisconnected. rewrite (spec_cancelled_new a c _ p Hc (mk_is_Some _ _ Hnp)).
    unfold spec_cancelled. simpl. by rewrite Hnp. }
  destruct (inv_lookup None a0 s0 p np Hinv0) as (pc & Hpcc & Hctx);
    [by unfold a0, spec_NewDisconnected; rewrite lookup_insert_ne|].
  rewrite <- !bind_assoc, (bind_returned _ _ _ _ _ (run_getCancelCtx _ _ _ Hpcc)).
  rewrite (bind_returned (mret _) _ _ (cc_err pc) s0), (c_err _ _ _ _ _ Hctx) by done.
  unfold spec_WithCancel, spec_cancelled. simpl. rewrite Hnp. simpl.
  assert (Hset : ∀ x, <[c := x]> a = <[c := x]> a0)
    by (intros x; unfold a0, spec_NewDisconnected; by rewrite insert_insert_eq).
  rewrite Hset.
  destruct (a_cancelled np).
  - destruct (inv_born_cancelled a0 s0 c p) as (s' & Hrun & Hinv'); [done..|intros ccc; by apply Hpar|].
    exists s'. split; [|done]. by rewrite (bind_returned _ _ _ _ _ Hrun).
  - destruct (inv_attach a0 s0 c p pc) as (l' & h' & Hadd & Hinv'); 
      [done|done|done|done|intros ccc; by apply Hpar|done|done|].
    eexists. split; [|exact Hinv'].
    rewrite <- bind_assoc, (bind_returned _ _ _ _ _ (run_getCancelCtx _ _ _ Hpcc)).
    rewrite <- bind_assoc, (bind_returned _ _ _ _ _ Hadd).
    rewrite <- bind_assoc, (bind_returned _ _ _ pc (set_childNodes h' (bumped s0))); [done|].
    by apply run_getCancelCtx.
Qed.

(** ** Reachable states *)

(** What the rest of the workflow may do between two operations on contexts:
    anything but close or reopen a [Done] channel. *)
Definition otherCode s (w' : world V) : Prop :=
  chans_ok w' ∧ next_id (cw_world s) ≤ next_id w' ∧
  ∀ d cc, cw_cancelCtxs s !! d = Some cc →
    ch_closed <$> channels w' !! cc_done cc = ch_closed <$> channels (cw_world s) !! cc_done cc.

Inductive reach : forest → ctxWorld (V:=V) (K:=K) → Prop :=
| reach_init s :
    cw_cancelCtxs s = ∅ → cw_childNodes s = ∅ → chans_ok (cw_world s) → reach ∅ s
| reach_WithCancel a s parent c s' :
    reach a s → valid a parent → WithCancel parent s = (Returned c, s') →
    reach (spec_WithCancel a (parentCancelCtx parent) c) s'
| reach_NewDisconnected a s parent c s' :
    reach a s → valid a parent → NewDisconnectedContext parent s = (Returned c, s') →
    reach (spec_NewDisconnected a c) s'
| reach_cancel a s c s' :
    reach a s → is_Some (a !! c) → CancelFunc c s = (Returned tt, s') → reach (spec_cancel a c) s'
| reach_other a s w' sf replay :
    reach a s → otherCode s w' →
    reach a (mkCtxWorld w' (cw_cancelCtxs s) (cw_childNodes s) sf replay).

Lemma inv_other a s w' sf replay :
  inv None a s → otherCode s w' →
  inv None a (mkCtxWorld w' (cw_cancelCtxs s) (cw_childNodes s) sf replay).
Proof.
  intros Hinv (Hok & Hle & Hcl). destruct Hinv as [Hdom _ Hnodes Hdones Hctx Hkids].
  split; simpl; try done.
  - intros n Hn. apply Hnodes in Hn. lia.
  - intros d cc n Hcc Hn. apply ctx_inv_mono with a s; [by apply Hctx|done|by apply (Hcl d)|done].
Qed.

Lemma reach_inv a s : reach a s → inv None a s.
Proof.
  induction 1 as [s Hm Hh Hok|a s parent c s' _ Hinv Hv Hrun|a s parent c s' _ Hinv Hv Hrun
    |a s c s' _ Hinv Hc Hrun|a s w' sf replay _ Hinv Ho].
  - split; rewrite ?Hm, ?Hh;
      [intros d; split; by intros [? ?]|done|by intros ? [? ?]|by intros ?????|by intros ????|by intros ???].
  - destruct (WithCancel_run a s parent Hinv Hv) as (s1 & Hrun1 & Hinv1).
    rewrite Hrun in Hrun1. by injection Hrun1 as -> ->.
  - unfold NewDisconnectedContext in Hrun. rewrite newCancelCtx_run in Hrun.
    injection Hrun as <- <-. by apply inv_created.
  - destruct (CancelFunc_run a s c Hinv Hc) as (s1 & Hrun1 & Hinv1 & _).
    rewrite Hrun in Hrun1. by injection Hrun1 as ->.
  - by apply inv_other.
Qed.

(** A lookup of a value reaches the root. *)
Lemma valueFrom_returns `{EqDecision K} a s key :
  inv None a s → ∀ fuel ctx,
  (∀ p, parentCancelCtx ctx = Some p → p < fuel ∧ is_Some (a !! p)) →
  ∃ v, valueFrom key fuel ctx s = (Returned v, s).
Proof.
  intros Hinv. induction fuel as [|fuel IH].
  - induction ctx as [|c|ctx IHc k v]; intros Hp; simpl.
    + by eexists.
    + destruct (Hp c eq_refl). lia.
    + case_decide; [by eexists|]. by apply IHc.
  - induction ctx as [|c|ctx IHc k v]; intros Hp; simpl.
    + by eexists.
    + destruct (Hp c eq_refl) as [Hlt [n Hn]].
      destruct (inv_lookup _ _ _ _ _ Hinv Hn) as (cc & Hcc & Hctx).
      rewrite (bind_returned _ _ _ _ _ (run_getCancelCtx _ _ _ Hcc)). apply IH.
      intros p Hpp. destruct (c_up _ _ _ _ _ Hctx p Hpp). split; [lia|done].
    + case_decide; [by eexists|]. by apply IHc.
Qed.

Lemma traverse_ext ord1 ord2 fuel : ∀ c,
  (∀ d, ord1 d = ord2 d) → traverse ord1 fuel c = traverse ord2 fuel c.
Proof.
  induction fuel as [|fuel IH]; intros c Heq; [done|]. simpl. rewrite Heq. do 2 f_equal.
  apply list_fmap_ext. intros. by apply IH.
Qed.

(** Runs of context operations, computed. *)
Inductive ctxOp : Type :=
| opWithCancel (parent : Ctx (V:=V) (K:=K))
| opNewDisconnected (parent : Ctx (V:=V) (K:=K))
| opCancel (c : nat).

Definition isValid a (ctx : Ctx (V:=V) (K:=K)) : bool :=
  match parentCancelCtx ctx with
  | None => true
  | Some p => bool_decide (is_Some (a !! p))
  end.

Definition ctxStep (op : ctxOp) a s : option (forest * ctxWorld (V:=V) (K:=K)) :=
  match op with
  | opWithCancel parent =>
      match isValid a parent, WithCancel parent s with
      | true, (Returned c, s') => Some (spec_WithCancel a (parentCancelCtx parent) c, s')
      | _, _ => None
      end
  | opNewDisconnected parent =>
      match isValid a parent, NewDisconnectedContext parent s with
      | true, (Returned c, s') => Some (spec_NewDisconnected a c, s')
      | _, _ => None
      end
  | opCancel c =>
      match bool_decide (is_Some (a !! c)), CancelFunc c s with
      | true, (Returned _, s') => Some (spec_cancel a c, s')
      | _, _ => None
      end
  end.

Fixpoint ctxRun (ops : list ctxOp) a s : option (forest * ctxWorld (V:=V) (K:=K)) :=
  match ops with
  | [] => Some (a, s)
  | op :: ops' => '(a', s') ← ctxStep op a s; ctxRun ops' a' s'
  end.

Lemma isValid_valid a ctx : isValid a ctx = true → valid a ctx.
Proof. unfold isValid, valid. intros H p Hp. rewrite Hp in H. by apply bool_decide_eq_true in H. Qed.

Lemma ctxRun_reach ops : ∀ a s a' s', reach a s → ctxRun ops a s = Some (a', s') → reach a' s'.
Proof.
  induction ops as [|op ops IH]; intros a s a' s' Hr; simpl; [by intros [= <- <-]|].
  destruct (ctxStep op a s) as [[a1 s1]|] eqn:Hstep; [|done]. simpl. apply IH.
  destruct op as [parent|parent|c]; simpl in Hstep.
  - destruct (isValid a parent) eqn:Hv; [|done]. apply isValid_valid in Hv.
    destruct (WithCancel parent s) as [[c|] s2] eqn:Hrun; [|done]. injection Hstep as <- <-.
    by apply reach_WithCancel with s.
  - destruct (isValid a parent) eqn:Hv; [|done]. apply isValid_valid in Hv. injection Hstep as <- <-.
    by eapply reach_NewDisconnected.
  - case_bool_decide as Hc; [|done].
    destruct (CancelFunc c s) as [[[]|] s2] eqn:Hrun; [|done]. injection Hstep as <- <-.
    by apply reach_cancel with s.
Qed.

(** C30. Contexts follow the forest: in every state the program can reach, the
    error of a context is [ErrCanceled] exactly when it or a context it is
    connected to above was cancelled, its [Done] channel is closed exactly
    then, and creating a context, cancelling one and looking up a value all
    succeed. *)
Theorem contexts_follow_cancellation `{EqDecision K} a s : reach a s →
  (∀ ctx, valid a ctx → Err ctx s =
    (Returned (if spec_cancelled a (parentCancelCtx ctx) then Some ErrCanceled else None), s)) ∧
  (∀ c, is_Some (a !! c) → ∃ done ch, Done (cancelCtxAt c) s = (Returned (Some done), s) ∧
    channels (cw_world s) !! done = Some ch ∧ ch_closed ch = spec_cancelled a (Some c)) ∧
  (∀ parent, valid a parent → ∃ c s', a !! c = None ∧ WithCancel parent s = (Returned c, s')) ∧
  (∀ c, is_Some (a !! c) → ∃ s', CancelFunc c s = (Returned tt, s')) ∧
  (∀ ctx key, valid a ctx → ∃ v, Value ctx key s = (Returned v, s)).
Proof.
  intros Hinv%reach_inv.
  assert (Hknown : ∀ ctx, valid a ctx → ∀ p, parentCancelCtx ctx = Some p →
    is_Some (cw_cancelCtxs s !! p)) by (intros ctx Hv p Hp; by apply (i_dom _ _ _ Hinv), Hv).
  split_and!.
  - intros ctx Hv. rewrite run_Err by by apply Hknown. f_equal. f_equal.
    destruct (parentCancelCtx ctx) as [p|] eqn:Hp; [|done]. destruct (Hv p Hp) as [n Hn].
    destruct (inv_lookup _ _ _ _ _ Hinv Hn) as (cc & Hcc & Hctx). unfold spec_cancelled. simpl.
    rewrite Hcc, Hn. simpl. apply (c_err _ _ _ _ _ Hctx).
  - intros c [n Hn]. destruct (inv_lookup _ _ _ _ _ Hinv Hn) as (cc & Hcc & Hctx).
    pose proof (c_closed _ _ _ _ _ Hctx) as Hch. apply fmap_Some in Hch as (ch & Hch & Hb).
    exists (cc_done cc), ch. split_and!; [|done|].
    + simpl. by rewrite (bind_returned _ _ _ _ _ (run_getCancelCtx _ _ _ Hcc)).
    + unfold spec_cancelled. simpl. by rewrite Hn.
  - intros parent Hv. destruct (WithCancel_run a s parent Hinv Hv) as (s' & Hrun & _).
    eexists _, s'. split; [|done]. apply (inv_fresh None a s); [done|lia].
  - intros c Hc. destruct (CancelFunc_run a s c Hinv Hc) as (s' & Hrun & _). by exists s'.
  - intros ctx key Hv. unfold Value. rewrite (bind_returned get _ s s s) by done.
    apply valueFrom_returns with a; [done|]. intros p Hp. specialize (Hv p Hp).
    split; [by apply (inv_bound None a)|done].
Qed.

(** With [SDKFlagOrderedChildCancel], cancelling a live context closes
    the [Done] channels of the live contexts under it one by one, parents
    before children and children in the order of their creation; the order in
    which Go ranges over the map of children plays no part. *)
Theorem ordered_cancellation a s c :
  reach a s → is_Some (a !! c) → spec_cancelled a (Some c) = false →
  orderedFlag allowed (cw_isReplay s) (cw_sdkFlags s) = true →
  let N := next_id (cw_world s) in
  ∃ s', CancelFunc c s = (Returned tt, s') ∧
    closeAll (doneOf (cw_cancelCtxs s) <$> traverse (kids a N) (S N) c) (cw_world s) =
    (Returned tt, cw_world s').
Proof.
  intros Hinv%reach_inv Hc Hl Hflag N.
  destruct (CancelFunc_run a s c Hinv Hc) as (s' & Hrun & _ & Hclose). rewrite Hl in Hclose.
  exists s'. split; [done|]. rewrite <- Hclose. do 2 f_equal. apply traverse_ext.
  intros d. unfold visitOrder. by rewrite Hflag.
Qed.
End Contexts.

(** ** Witnesses: a root context with two children, one of them with a child of
    its own, and a disconnected context *)

Definition exampleRange (m : gmap nat nat) : list nat := (map_to_list m).*1.

Lemma exampleRange_perm m : exampleRange m ≡ₚ (map_to_list m).*1.
Proof. reflexivity. Qed.

Definition exampleWorld : ctxWorld (V:=unit) (K:=nat) :=
  mkCtxWorld (mkWorld ∅ ∅ ∅ ∅ ∅ ∅ 0) ∅ ∅ (newSDKFlagSet true) false.

Lemma example_reach : reach true true sdkFlagsAllowed exampleRange ∅ exampleWorld.
Proof. apply reach_init; [done..|]. by intros c ch ?. Qed.

(** The contexts 1, 3 under 1 and a value, 6 under 3, 9 under 1, and 12. *)
Definition exampleOps : list (ctxOp (V:=unit) (K:=nat)) :=
  [opWithCancel emptyCtx;
   opWithCancel (WithValue (cancelCtxAt 1) 7 (Some tt));
   opWithCancel (cancelCtxAt 3);
   opWithCancel (cancelCtxAt 1);
   opNewDisconnected (cancelCtxAt 3)].

Definition exampleRun (ops : list ctxOp) : option (forest * ctxWorld) :=
  ctxRun true true sdkFlagsAllowed exampleRange ops ∅ exampleWorld.
Definition succeeds (ops : list ctxOp) : bool :=
  match exampleRun ops with Some _ => true | None => false end.
Definition exampleAfter (ops : list ctxOp) : forest * ctxWorld :=
  default (∅, exampleWorld) (exampleRun ops).

Lemma example_after ops :
  succeeds ops = true →
  reach true true sdkFlagsAllowed exampleRange (exampleAfter ops).1 (exampleAfter ops).2.
Proof.
  unfold succeeds, exampleAfter. intros Hrun. destruct (exampleRun ops) as [[a s]|] eqn:Heq; [|done].
  eapply ctxRun_reach; [exact example_reach|exact Heq].
Qed.

Definition cancelledAt (c : nat) (r : forest * ctxWorld (V:=unit) (K:=nat)) : option (option string) :=
  match Err (cancelCtxAt c) r.2 with (Returned e, _) => Some e | _ => None end.

Lemma contexts_follow_cancellation_witness :
  let r := exampleAfter (exampleOps ++ [opCancel 3]) in
  cancelledAt 6 r = Some (Some ErrCanceled) ∧ cancelledAt 9 r = Some None ∧
  cancelledAt 12 r = Some None ∧ ∃ s', CancelFunc true true sdkFlagsAllowed exampleRange 9 r.2 = (Returned tt, s').
Proof.
  assert (Hok : succeeds (exampleOps ++ [opCancel 3]) = true) by (vm_compute; reflexivity).
  pose proof (contexts_follow_cancellation true true sdkFlagsAllowed exampleRange exampleRange_perm
    _ _ (example_after (exampleOps ++ [opCancel 3]) Hok)) as (HErr & _ & _ & Hcancel & _).
  assert (H9 : is_Some ((exampleAfter (exampleOps ++ [opCancel 3])).1 !! 9))
    by (vm_compute; eexists; reflexivity).
  cbv zeta. split; [|split; [|split]].
  - unfold cancelledAt. rewrite HErr; [vm_compute; reflexivity|].
    intros p [= <-]. vm_compute. eexists. reflexivity.
  - unfold cancelledAt. rewrite HErr; [vm_compute; reflexivity|].
    intros p [= <-]. vm_compute. eexists. reflexivity.
  - unfold cancelledAt. rewrite HErr; [vm_compute; reflexivity|].
    intros p [= <-]. vm_compute. eexists. reflexivity.
  - exact (Hcancel 9 H9).
Defined.

Lemma ordered_cancellation_witness :
  let a := (exampleAfter exampleOps).1 in
  let s := (exampleAfter exampleOps).2 in
  traverse (kids a (next_id (cw_world s))) (S (next_id (cw_world s))) 1 = [1; 3; 6; 9] ∧
  ∃ s', CancelFunc true true sdkFlagsAllowed exampleRange 1 s = (Returned tt, s').
Proof.
  assert (Hok : succeeds exampleOps = true) by (vm_compute; reflexivity).
  cbv zeta. split; [vm_compute; reflexivity|].
  destruct (ordered_cancellation true true sdkFlagsAllowed exampleRange exampleRange_perm
    _ _ 1 (example_after exampleOps Hok)) as (s' & Hs' & _).
  - vm_compute. eexists. reflexivity.
  - vm_compute. reflexivity.
  - vm_compute. reflexivity.
  - exists s'. exact Hs'.
Defined.
