(* ===== verification/Errors.v ===== *)
(** * Errors ([src/internal/error.go]).

    The error types of the SDK, their text, and what makes an error
    retryable.  A Go error is a chain (or, for errors that join several, a
    tree) of values; the errors of other packages are [otherError] and
    [joinedError], known by their dynamic type, with a star for a pointer,
    and their text. *)

From stdpp Require Import base list gmap strings.
From S2P Require Import Prelude Proto Floats.
Open Scope Z_scope.

(** ** Data *)

(** [converter.EncodedValues]: the type that holds payloads, and
    [ErrorDetailsValues], which holds values still to be encoded. *)
Inductive errorDetails : Type :=
| EncodedValues (values : option Payloads)
| ErrorDetailsValues (values : list goValue).

(** [nexus.HandlerErrorRetryBehavior] and [nexus.Failure] of the Nexus SDK. *)
Inductive HandlerErrorRetryBehavior : Type :=
| HandlerErrorRetryBehaviorUnspecified
| HandlerErrorRetryBehaviorRetryable
| HandlerErrorRetryBehaviorNonRetryable.

Record nexusFailure : Type := mkNexusFailure {
  nf_Message : string;
  nf_StackTrace : string;
  nf_Metadata : gmap string string;
  nf_Details : string;
}.

(** [RetryPolicy] of [client.go]; durations are in nanoseconds. *)
Record RetryPolicy : Type := mkRetryPolicy {
  InitialInterval : Z;
  BackoffCoefficient : float64;
  MaximumInterval : Z;
  MaximumAttempts : Z;
  NonRetryableErrorTypes : list string;
}.

(** [VersioningIntent] of [worker_version_sets.go]. *)
Inductive VersioningIntent : Type :=
| VersioningIntentUnspecified
| VersioningIntentCompatible
| VersioningIntentDefault
| VersioningIntentInheritBuildID
| VersioningIntentUseAssignmentRules.

(** What a [ContinueAsNewError] asks for. *)
Record continueAsNew : Type := mkContinueAsNew {
  can_WorkflowType : string;
  can_Input : option Payloads;
  can_Header : gmap string Payload;
  can_TaskQueueName : string;
  can_WorkflowRunTimeout : Z;
  can_WorkflowTaskTimeout : Z;
  can_BackoffStartInterval : Z;
  can_VersioningIntent : VersioningIntent;
  can_InitialVersioningBehavior : Z;
  can_RetryPolicy : option RetryPolicy;
  can_eventGroupMarkers : list EventGroupMarker;
}.

(** The first field of the types that embed [temporalError] is
    [originalFailure]; the [value] of a panic is its text. *)
#[warnings="-register-all"]
Inductive goError : Type :=
| ApplicationError (originalFailure : option Failure) (msg errType : string)
    (nonRetryable : bool) (cause : option goError) (details : errorDetails)
    (nextRetryDelay : Z) (category : Z)
| TimeoutError (originalFailure : option Failure) (msg : string) (timeoutType : Z)
    (lastHeartbeatDetails : errorDetails) (cause : option goError)
| CanceledError (originalFailure : option Failure) (msg : string) (cause : option goError)
    (details : errorDetails)
| TerminatedError (originalFailure : option Failure)
| PanicError (originalFailure : option Failure) (value stackTrace : string)
| workflowPanicError (value : panicValue) (stackTrace : string)
| ContinueAsNewError (c : continueAsNew)
| UnknownExternalWorkflowExecutionError
| ServerError (originalFailure : option Failure) (msg : string) (nonRetryable : bool)
    (cause : option goError)
| ActivityError (originalFailure : option Failure) (scheduledEventID startedEventID : Z)
    (identity : string) (activityType : option string) (activityID : string) (retryState : Z)
    (cause : option goError)
| ChildWorkflowExecutionError (originalFailure : option Failure)
    (namespace workflowID runID workflowType : string) (initiatedEventID startedEventID : Z)
    (retryState : Z) (cause : option goError)
| NexusOperationError (failure : option Failure) (Message : string) (ScheduledEventID : Z)
    (Endpoint Service Operation OperationToken : string) (Cause : option goError)
| ChildWorkflowExecutionAlreadyStartedError
| NamespaceNotFoundError
| InvalidVersioningOverrideError
| WorkflowExecutionError (workflowID runID workflowType : string) (cause : option goError)
| ActivityNotRegisteredError (activityType : string) (supportedTypes : list string)
| HandlerError (type Message StackTrace : string) (Cause : option goError)
    (RetryBehavior : HandlerErrorRetryBehavior) (OriginalFailure : option nexusFailure)
| otherError (typeName text : string) (cause : option goError)
| joinedError (typeName text : string) (errs : list goError).

(** ** Constructors *)

(** A single [*EncodedValues] is used as it is; anything else is kept to be
    encoded later. *)
Definition makeDetails (details : list goValue) : errorDetails :=
  match details with
  | [goEncodedValues values] => EncodedValues values
  | _ => ErrorDetailsValues details
  end.

Record ApplicationErrorOptions : Type := mkApplicationErrorOptions {
  aeo_NonRetryable : bool;
  aeo_Cause : option goError;
  aeo_Details : list goValue;
  aeo_NextRetryDelay : Z;
  aeo_Category : Z;
}.

Definition ApplicationErrorCategoryBenign : Z := 1.
Definition payloadValidationErrorType : string := "PayloadValidationError".

Definition NewApplicationErrorWithOptions (msg errType : string)
    (options : ApplicationErrorOptions) : goError :=
  ApplicationError None msg errType (aeo_NonRetryable options) (aeo_Cause options)
    (makeDetails (aeo_Details options)) (aeo_NextRetryDelay options) (aeo_Category options).

Definition NewApplicationError (msg errType : string) (nonRetryable : bool)
    (cause : option goError) (details : list goValue) : goError :=
  NewApplicationErrorWithOptions msg errType
    (mkApplicationErrorOptions nonRetryable cause details 0 0).

Definition NewPayloadValidationError (details : option goValue) : goError :=
  NewApplicationError "Payload validation failed" payloadValidationErrorType true None
    (option_list details).

Definition NewTimeoutError (msg : string) (timeoutType : Z) (cause : option goError)
    (lastHeartbeatDetails : list goValue) : goError :=
  TimeoutError None msg timeoutType (makeDetails lastHeartbeatDetails) cause.

Definition NewHeartbeatTimeoutError (details : list goValue) : goError :=
  NewTimeoutError "heartbeat timeout" TIMEOUT_TYPE_HEARTBEAT None details.

Definition NewCanceledErrorWithOptions (message : string) (details : list goValue)
    (cause : option goError) : goError :=
  CanceledError None (if decide (message = "") then "canceled" else message) cause
    (makeDetails details).

Definition NewCanceledError (details : list goValue) : goError :=
  NewCanceledErrorWithOptions "" details None.

Definition NewServerError (msg : string) (nonRetryable : bool) (cause : option goError)
    : goError := ServerError None msg nonRetryable cause.

Definition NewActivityError (scheduledEventID startedEventID : Z) (identity : string)
    (activityType : option string) (activityID : string) (retryState : Z)
    (cause : option goError) : goError :=
  ActivityError None scheduledEventID startedEventID identity activityType activityID retryState
    cause.

Definition NewChildWorkflowExecutionError (namespace workflowID runID workflowType : string)
    (initiatedEventID startedEventID : Z) (retryState : Z) (cause : option goError) : goError :=
  ChildWorkflowExecutionError None namespace workflowID runID workflowType initiatedEventID
    startedEventID retryState cause.

Definition NewWorkflowExecutionError (workflowID runID workflowType : string)
    (cause : option goError) : goError := WorkflowExecutionError workflowID runID workflowType cause.

Definition newPanicError (value stackTrace : string) : goError := PanicError None value stackTrace.
Definition newTerminatedError : goError := TerminatedError None.

(** ** Inspection *)

Definition Unwrap (err : goError) : option goError :=
  match err with
  | ApplicationError _ _ _ _ c _ _ _ | TimeoutError _ _ _ _ c | CanceledError _ _ c _
  | ServerError _ _ _ c | ActivityError _ _ _ _ _ _ _ c
  | ChildWorkflowExecutionError _ _ _ _ _ _ _ _ c | NexusOperationError _ _ _ _ _ _ _ c
  | WorkflowExecutionError _ _ _ c | HandlerError _ _ _ c _ _ | otherError _ _ c => c
  | _ => None
  end.

(** The method [failure] of a [failureHolder]. *)
Definition failure (err : goError) : option Failure :=
  match err with
  | ApplicationError f _ _ _ _ _ _ _ | TimeoutError f _ _ _ _ | CanceledError f _ _ _
  | TerminatedError f | PanicError f _ _ | ServerError f _ _ _ | ActivityError f _ _ _ _ _ _ _
  | ChildWorkflowExecutionError f _ _ _ _ _ _ _ _ | NexusOperationError f _ _ _ _ _ _ _ => f
  | _ => None
  end.

Definition setFailure (f : option Failure) (err : goError) : goError :=
  match err with
  | ApplicationError _ a b c d e g h => ApplicationError f a b c d e g h
  | TimeoutError _ a b c d => TimeoutError f a b c d
  | CanceledError _ a b c => CanceledError f a b c
  | TerminatedError _ => TerminatedError f
  | PanicError _ a b => PanicError f a b
  | ServerError _ a b c => ServerError f a b c
  | ActivityError _ a b c d e g h => ActivityError f a b c d e g h
  | ChildWorkflowExecutionError _ a b c d e g h i => ChildWorkflowExecutionError f a b c d e g h i
  | NexusOperationError _ a b c d e g h => NexusOperationError f a b c d e g h
  | _ => err
  end.

(** The method [message] of a [messenger]. *)
Definition message (err : goError) : option string :=
  match err with
  | ApplicationError _ msg _ _ _ _ _ _ | TimeoutError _ msg _ _ _ | CanceledError _ msg _ _
  | ServerError _ msg _ _ => Some msg
  | PanicError _ value _ => Some value
  | TerminatedError _ => Some "terminated"
  | ContinueAsNewError _ => Some "continue as new"
  | ActivityError _ _ _ _ _ _ _ _ => Some "activity error"
  | ChildWorkflowExecutionError _ _ _ _ _ _ _ _ _ => Some "child workflow execution error"
  | _ => None
  end.

Definition HasDetails (err : goError) : bool :=
  match err with
  | ApplicationError _ _ _ _ _ d _ _ | CanceledError _ _ _ d =>
      match d with
      | EncodedValues values => bool_decide (values ≠ None)
      | ErrorDetailsValues values => bool_decide (values ≠ [])
      end
  | _ => false
  end.

(** The name of the type that pointers, written with stars, lead to. *)
Fixpoint elemName (typeName : string) : string :=
  match typeName with
  | String c rest => if bool_decide (c = Ascii.ascii_of_nat 42) then elemName rest else typeName
  | EmptyString => ""
  end.

(** The name of the type, by reflection; the type of [errors.New] has none. *)
Definition getErrType (err : goError) : string :=
  match err with
  | ApplicationError _ _ _ _ _ _ _ _ => "ApplicationError"
  | TimeoutError _ _ _ _ _ => "TimeoutError"
  | CanceledError _ _ _ _ => "CanceledError"
  | TerminatedError _ => "TerminatedError"
  | PanicError _ _ _ => "PanicError"
  | workflowPanicError _ _ => "workflowPanicError"
  | ContinueAsNewError _ => "ContinueAsNewError"
  | UnknownExternalWorkflowExecutionError => "UnknownExternalWorkflowExecutionError"
  | ServerError _ _ _ _ => "ServerError"
  | ActivityError _ _ _ _ _ _ _ _ => "ActivityError"
  | ChildWorkflowExecutionError _ _ _ _ _ _ _ _ _ => "ChildWorkflowExecutionError"
  | NexusOperationError _ _ _ _ _ _ _ _ => "NexusOperationError"
  | ChildWorkflowExecutionAlreadyStartedError => "ChildWorkflowExecutionAlreadyStartedError"
  | NamespaceNotFoundError => "NamespaceNotFoundError"
  | InvalidVersioningOverrideError => "InvalidVersioningOverrideError"
  | WorkflowExecutionError _ _ _ _ => "WorkflowExecutionError"
  | ActivityNotRegisteredError _ _ => "ActivityNotRegisteredError"
  | HandlerError _ _ _ _ _ _ => "HandlerError"
  | otherError name _ _ | joinedError name _ _ =>
      if decide (elemName name = "errorString") then "" else elemName name
  end.

(** [errors.As]: the first error of the chain, depth first, that satisfies
    [p]. *)
Fixpoint errorsAs (p : goError → bool) (err : goError) : option goError :=
  if p err then Some err
  else
    match err with
    | ApplicationError _ _ _ _ (Some c) _ _ _ | TimeoutError _ _ _ _ (Some c)
    | CanceledError _ _ (Some c) _ | ServerError _ _ _ (Some c)
    | ActivityError _ _ _ _ _ _ _ (Some c)
    | ChildWorkflowExecutionError _ _ _ _ _ _ _ _ (Some c)
    | NexusOperationError _ _ _ _ _ _ _ (Some c) | WorkflowExecutionError _ _ _ (Some c)
    | HandlerError _ _ _ (Some c) _ _ | otherError _ _ (Some c) => errorsAs p c
    | joinedError _ _ errs =>
        (fix first (l : list goError) : option goError :=
           match l with
           | [] => None
           | e :: l' => match errorsAs p e with Some e' => Some e' | None => first l' end
           end) errs
    | _ => None
    end.

(** The types that the model does not spell out, by name. *)
Definition hasType (name : string) (err : goError) : bool :=
  match err with
  | otherError typeName _ _ | joinedError typeName _ _ => bool_decide (typeName = name)
  | _ => false
  end.

Definition isTerminatedError (err : goError) : bool :=
  match err with TerminatedError _ => true | _ => false end.
Definition isCanceledError (err : goError) : bool :=
  match err with CanceledError _ _ _ _ => true | _ => false end.
Definition isWorkflowPanicError (err : goError) : bool :=
  match err with workflowPanicError _ _ => true | _ => false end.
Definition isTimeoutError (err : goError) : bool :=
  match err with TimeoutError _ _ _ _ _ => true | _ => false end.
Definition isApplicationError (err : goError) : bool :=
  match err with ApplicationError _ _ _ _ _ _ _ _ => true | _ => false end.

Definition IsCanceledError (err : goError) : bool :=
  bool_decide (is_Some (errorsAs isCanceledError err)).

Definition IsRetryable (err : option goError) (nonRetryableTypes : list string) : bool :=
  match err with
  | None => false
  | Some err =>
      if bool_decide (is_Some (errorsAs isTerminatedError err)) ||
         bool_decide (is_Some (errorsAs isCanceledError err)) ||
         bool_decide (is_Some (errorsAs isWorkflowPanicError err)) then false
      else
        match errorsAs isTimeoutError err with
        | Some (TimeoutError _ _ timeoutType _ _) =>
            bool_decide (timeoutType = TIMEOUT_TYPE_START_TO_CLOSE) ||
            bool_decide (timeoutType = TIMEOUT_TYPE_HEARTBEAT)
        | _ =>
            match errorsAs isApplicationError err with
            | Some (ApplicationError _ _ errType nonRetryable _ _ _ _) =>
                if nonRetryable then false else bool_decide (errType ∉ nonRetryableTypes)
            | _ => bool_decide (getErrType err ∉ nonRetryableTypes)
            end
        end
  end.

Definition isBenignApplicationError (err : goError) : bool :=
  match err with
  | ApplicationError _ _ _ _ _ _ _ category => bool_decide (category = ApplicationErrorCategoryBenign)
  | _ => false
  end.

Definition isBenignProtoApplicationFailure (failure : option Failure) : bool :=
  match failure with
  | Some (mkFailure _ _ _ _ _ (ApplicationFailureInfo _ _ _ _ category)) =>
      bool_decide (category = ApplicationErrorCategoryBenign)
  | _ => false
  end.

(** ** Text *)

Section Text.
  (** The generated [TimeoutType.String], [strconv.Quote] and the [Error]
      method of [nexus.HandlerError], which reads its type, its message and
      the text of its cause. *)
  Variable TimeoutType_String : Z → string.
  Variable Quote : string → string.
  Variable HandlerError_Error : string → string → option string → string.

(** [if e.cause != nil { msg = fmt.Sprintf("%s: %v", msg, e.cause) }] *)
Definition withCause (msg : string) (cause : option string) : string :=
  match cause with
  | None => msg
  | Some c => (msg +:+ ": " +:+ c)%string
  end.

Fixpoint joinWith (sep : string) (l : list string) : string :=
  match l with
  | [] => ""
  | [s] => s
  | s :: l' => (s +:+ sep +:+ joinWith sep l')%string
  end.

Fixpoint Error (err : goError) : string :=
  let causeText c := match c with Some e => Some (Error e) | None => None end in
  match err with
  | ApplicationError _ msg errType nonRetryable cause _ _ _ =>
      withCause
        (if decide (errType ≠ "")
         then (msg +:+ " (type: " +:+ errType +:+ ", retryable: " +:+
               FormatBool (negb nonRetryable) +:+ ")")%string
         else msg) (causeText cause)
  | TimeoutError _ msg timeoutType _ cause =>
      withCause (msg +:+ " (type: " +:+ TimeoutType_String timeoutType +:+ ")")%string
        (causeText cause)
  | CanceledError _ msg _ _ => msg
  | TerminatedError _ => "terminated"
  | PanicError _ value _ => value
  | workflowPanicError value _ => panicText value
  | ContinueAsNewError _ => "continue as new"
  | UnknownExternalWorkflowExecutionError => "unknown external workflow execution"
  | ServerError _ msg _ cause => withCause msg (causeText cause)
  | ActivityError _ scheduled started identity activityType _ _ cause =>
      withCause
        ("activity error (type: " +:+ default "" activityType +:+ ", scheduledEventID: " +:+
         FormatInt scheduled +:+ ", startedEventID: " +:+ FormatInt started +:+ ", identity: " +:+
         identity +:+ ")")%string (causeText cause)
  | ChildWorkflowExecutionError _ _ workflowID runID workflowType initiated started _ cause =>
      withCause
        ("child workflow execution error (type: " +:+ workflowType +:+ ", workflowID: " +:+
         workflowID +:+ ", runID: " +:+ runID +:+ ", initiatedEventID: " +:+ FormatInt initiated +:+
         ", startedEventID: " +:+ FormatInt started +:+ ")")%string (causeText cause)
  | NexusOperationError _ msg scheduled endpoint service operation token cause =>
      withCause
        (msg +:+ " (endpoint: " +:+ Quote endpoint +:+ ", service: " +:+ Quote service +:+
         ", operation: " +:+ Quote operation +:+ ", operation token: " +:+ Quote token +:+
         ", scheduledEventID: " +:+ FormatInt scheduled +:+ ")")%string (causeText cause)
  | ChildWorkflowExecutionAlreadyStartedError => "child workflow execution already started"
  | NamespaceNotFoundError => "namespace not found"
  | InvalidVersioningOverrideError => "invalid versioning override"
  | WorkflowExecutionError workflowID runID workflowType cause =>
      withCause
        ("workflow execution error (type: " +:+ workflowType +:+ ", workflowID: " +:+
         workflowID +:+ ", runID: " +:+ runID +:+ ")")%string (causeText cause)
  | ActivityNotRegisteredError activityType supportedTypes =>
      ("unable to find activityType=" +:+ activityType +:+ ". Supported types: [" +:+
       joinWith ", " supportedTypes +:+ "]")%string
  | HandlerError type msg _ cause _ _ => HandlerError_Error type msg (causeText cause)
  | otherError _ text _ | joinedError _ text _ => text
  end.
End Text.
