(* ===== verification/FailureConverter.v ===== *)
(** * Failure conversion ([src/internal/failure_converter.go] and
      [src/converter/failure_converter.go]).

    Errors cross process boundaries as [Failure] messages.  The default
    converter remembers the message an error came from and sends it on
    unchanged; errors made locally are translated, with their causes.  It may
    hide the text of a failure in an encoded payload. *)

From stdpp Require Import base list gmap strings.
From S2P Require Import Prelude Proto Errors.
Open Scope Z_scope.

Definition NEXUS_HANDLER_ERROR_RETRY_BEHAVIOR_UNSPECIFIED : Z := 0.
Definition NEXUS_HANDLER_ERROR_RETRY_BEHAVIOR_RETRYABLE : Z := 1.
Definition NEXUS_HANDLER_ERROR_RETRY_BEHAVIOR_NON_RETRYABLE : Z := 2.

(** The full name of the message type [Failure]. *)
Definition failureTypeString : string := "temporal.api.failure.v1.Failure".

Record DefaultFailureConverter : Type := mkDefaultFailureConverter {
  dfc_dataConverter : DataConverter;
  dfc_encodeCommonAttributes : bool;
}.

Section Converter.
  (** [protojson.Marshal] and [protojson.Unmarshal] on failures, and
      [json.Marshal] on a Nexus failure. *)
  Variable marshalFailure : Failure → string + string.
  Variable unmarshalFailure : string → string + Failure.
  Variable marshalNexusFailure : nexusFailure → string + string.
  (** What the text of an error depends on. *)
  Variable TimeoutType_String : Z → string.
  Variable Quote : string → string.
  Variable HandlerError_Error : string → string → option string → string.
  Variable dfc : DefaultFailureConverter.
  Local Abbreviation dc := (dfc_dataConverter dfc).
  Local Abbreviation Error := (Error TimeoutType_String Quote HandlerError_Error).

(** ** Nexus failures ([src/internal/nexus_operations.go]) *)

(** The message and the stack trace travel outside the details. *)
Definition temporalFailureToNexusFailure (f : Failure) : string + nexusFailure :=
  let 'mkFailure message source stackTrace encoded cause info := f in
  match marshalFailure (mkFailure "" source "" encoded cause info) with
  | inl err => inl err
  | inr b => inr (mkNexusFailure message stackTrace {[ "type" := failureTypeString ]} b)
  end.

Definition nexusFailureMetadataToPayloads (nf : nexusFailure) : string + option Payloads :=
  if bool_decide (nf_Metadata nf = ∅) && bool_decide (nf_Details nf = "") then inr None
  else
    match marshalNexusFailure
            (mkNexusFailure "" (nf_StackTrace nf) (nf_Metadata nf) (nf_Details nf)) with
    | inl err => inl err
    | inr data => inr (Some [mkPayload {[ "encoding" := "json/plain" ]} data])
    end.

Definition nexusFailureToTemporalFailure (nf : nexusFailure) (retryable : bool)
    : string + Failure :=
  let write f :=
    let 'mkFailure _ source _ encoded cause info := f in
    mkFailure (nf_Message nf) source (nf_StackTrace nf) encoded cause info in
  if decide (nf_Metadata nf !! "type" = Some failureTypeString) then
    match unmarshalFailure (nf_Details nf) with
    | inl err => inl err
    | inr f => inr (write f)
    end
  else
    match nexusFailureMetadataToPayloads nf with
    | inl err => inl err
    | inr payloads =>
        inr (write (mkFailure "" "" "" None None
          (ApplicationFailureInfo "NexusFailure" (negb retryable) payloads None 0)))
    end.

(** ** Encoding of the common attributes *)

Definition EncodeCommonFailureAttributes (f : Failure) : string + Failure :=
  let 'mkFailure message source stackTrace _ cause info := f in
  match ToPayload dc (goEncodedFailure message stackTrace) with
  | inl err => inl err
  | inr p => inr (mkFailure "Encoded failure" source "" (Some p) cause info)
  end.

Definition DecodeCommonFailureAttributes (f : Failure) : Failure :=
  let 'mkFailure message source stackTrace encoded cause info := f in
  match encoded with
  | Some p =>
      match FromPayload dc p kindEncodedFailure with
      | inr (goEncodedFailure m st) => mkFailure m source st encoded cause info
      | _ => f
      end
  | None => f
  end.

(** ** Errors to failures *)

Definition convertErrDetailsToPayloads (details : errorDetails) : outcome (option Payloads) :=
  match details with
  | ErrorDetailsValues values =>
      match ToPayloads dc values with
      | inl err => Panicked (panicError err)
      | inr data => mret data
      end
  | EncodedValues values => mret values
  end.

(** The [FailureInfo] and the stack trace of an error. *)
Definition failureInfoOf (err : goError) : outcome (FailureInfo * string) :=
  match err with
  | ApplicationError _ _ errType nonRetryable _ details nextRetryDelay category =>
      payloads ← convertErrDetailsToPayloads details;
      mret (ApplicationFailureInfo errType nonRetryable payloads
              (if decide (nextRetryDelay ≠ 0) then Some nextRetryDelay else None) category, "")
  | CanceledError _ _ _ details =>
      payloads ← convertErrDetailsToPayloads details;
      mret (CanceledFailureInfo payloads, "")
  | PanicError _ _ stackTrace =>
      mret (ApplicationFailureInfo (getErrType err) false None None 0, stackTrace)
  | workflowPanicError _ stackTrace =>
      mret (ApplicationFailureInfo (getErrType (newPanicError "" "")) true None None 0, stackTrace)
  | TimeoutError _ _ timeoutType details _ =>
      payloads ← convertErrDetailsToPayloads details;
      mret (TimeoutFailureInfo timeoutType payloads, "")
  | TerminatedError _ => mret (TerminatedFailureInfo, "")
  | ServerError _ _ nonRetryable _ => mret (ServerFailureInfo nonRetryable, "")
  | ActivityError _ scheduled started worker activityType activityID retryState _ =>
      mret (ActivityFailureInfo scheduled started worker activityType activityID retryState, "")
  | ChildWorkflowExecutionError _ namespace workflowID runID workflowType initiated started
      retryState _ =>
      mret (ChildWorkflowExecutionFailureInfo namespace
              (Some (mkWorkflowExecution workflowID runID)) (Some workflowType) initiated started
              retryState, "")
  | NexusOperationError _ _ scheduled endpoint service operation token _ =>
      mret (NexusOperationFailureInfo scheduled endpoint service operation token token, "")
  | HandlerError type _ stackTrace _ retryBehavior _ =>
      mret (NexusHandlerFailureInfo type
              (match retryBehavior with
               | HandlerErrorRetryBehaviorRetryable => NEXUS_HANDLER_ERROR_RETRY_BEHAVIOR_RETRYABLE
               | HandlerErrorRetryBehaviorNonRetryable =>
                   NEXUS_HANDLER_ERROR_RETRY_BEHAVIOR_NON_RETRYABLE
               | HandlerErrorRetryBehaviorUnspecified =>
                   NEXUS_HANDLER_ERROR_RETRY_BEHAVIOR_UNSPECIFIED
               end), stackTrace)
  | _ => mret (ApplicationFailureInfo (getErrType err) false None None 0, "")
  end.

Definition failureMessage (err : goError) : string :=
  match err with
  | HandlerError _ msg _ _ _ _ => if decide (msg ≠ "") then msg else Error err
  | _ => default (Error err) (message err)
  end.

(** The failure a [nexus.HandlerError] was made from. *)
Definition handlerOriginal (err : goError) : option Failure :=
  match err with
  | HandlerError _ _ _ _ _ (Some nf) =>
      match nexusFailureToTemporalFailure nf true with
      | inr f => Some f
      | inl _ => None
      end
  | _ => None
  end.

(** The failure of an error whose cause has been converted. *)
Definition makeFailure (err : goError) (info : FailureInfo) (stackTrace : string)
    (cause : option Failure) : outcome Failure :=
  let f := mkFailure (failureMessage err) "GoSDK" stackTrace None cause info in
  if dfc_encodeCommonAttributes dfc then
    match EncodeCommonFailureAttributes f with
    | inl e => Panicked (panicError e)
    | inr f' => mret f'
    end
  else mret f.

Fixpoint ErrorToFailure_ (err : goError) : outcome Failure :=
  match failure err, handlerOriginal err with
  | Some f, _ => mret f
  | None, Some f => mret f
  | None, None =>
      '(info, stackTrace) ← failureInfoOf err;
      cause ←
        match err with
        | ApplicationError _ _ _ _ (Some c) _ _ _ | TimeoutError _ _ _ _ (Some c)
        | CanceledError _ _ (Some c) _ | ServerError _ _ _ (Some c)
        | ActivityError _ _ _ _ _ _ _ (Some c)
        | ChildWorkflowExecutionError _ _ _ _ _ _ _ _ (Some c)
        | NexusOperationError _ _ _ _ _ _ _ (Some c) | WorkflowExecutionError _ _ _ (Some c)
        | HandlerError _ _ _ (Some c) _ _ | otherError _ _ (Some c) =>
            f ← ErrorToFailure_ c; mret (Some f)
        | _ => mret None
        end;
      makeFailure err info stackTrace cause
  end.

Definition ErrorToFailure (err : option goError) : outcome (option Failure) :=
  match err with
  | None => mret None
  | Some e => f ← ErrorToFailure_ e; mret (Some f)
  end.

(** ** Failures to errors *)

Definition HasPrefix (prefix s : string) : bool := String.prefix prefix s.

(** The error of a decoded failure.  [convert] is the conversion of the cause;
    [decoded] is the message as it is when the Nexus branch reads it: decoding
    writes to the message in place, and the cause has been converted by then. *)
Definition errorOf (original decoded : Failure) (convert : option goError) : goError :=
  let 'mkFailure message _ stackTrace _ _ info := decoded in
  setFailure (Some original)
    match info with
    | ApplicationFailureInfo type nonRetryable details nextRetryDelay category =>
        if decide (type = getErrType (newPanicError "" "")) then newPanicError message stackTrace
        else
          NewApplicationErrorWithOptions message type
            (mkApplicationErrorOptions nonRetryable convert [goEncodedValues details]
               (default 0 nextRetryDelay) category)
    | CanceledFailureInfo details =>
        NewCanceledErrorWithOptions message [goEncodedValues details] convert
    | TimeoutFailureInfo timeoutType details =>
        NewTimeoutError message timeoutType convert [goEncodedValues details]
    | TerminatedFailureInfo => newTerminatedError
    | ServerFailureInfo nonRetryable => NewServerError message nonRetryable convert
    | ResetWorkflowFailureInfo details =>
        NewApplicationError message "" true convert [goEncodedValues details]
    | ActivityFailureInfo scheduled started worker activityType activityID retryState =>
        NewActivityError scheduled started worker activityType activityID retryState convert
    | ChildWorkflowExecutionFailureInfo namespace execution workflowType initiated started
        retryState =>
        NewChildWorkflowExecutionError namespace
          (from_option we_WorkflowId "" execution) (from_option we_RunId "" execution)
          (default "" workflowType) initiated started retryState convert
    | NexusOperationFailureInfo scheduled endpoint service operation operationId operationToken =>
        NexusOperationError (Some original) message scheduled endpoint service operation
          (if decide (operationToken = "") then operationId else operationToken) convert
    | NexusHandlerFailureInfo type retryBehavior =>
        HandlerError type
          (if HasPrefix ("handler error (" +:+ type +:+ ")")%string message then "" else message)
          stackTrace convert
          (if decide (retryBehavior = NEXUS_HANDLER_ERROR_RETRY_BEHAVIOR_RETRYABLE)
           then HandlerErrorRetryBehaviorRetryable
           else if decide (retryBehavior = NEXUS_HANDLER_ERROR_RETRY_BEHAVIOR_NON_RETRYABLE)
           then HandlerErrorRetryBehaviorNonRetryable
           else HandlerErrorRetryBehaviorUnspecified)
          (match temporalFailureToNexusFailure decoded with
           | inr nf => Some nf
           | inl _ => None
           end)
    | NoFailureInfo => NewApplicationError message "" false convert []
    end.

(** Whether the conversion of a failure converts its cause. *)
Definition convertsCause (info : FailureInfo) : bool :=
  match info with
  | ApplicationFailureInfo type _ _ _ _ => bool_decide (type ≠ getErrType (newPanicError "" ""))
  | TerminatedFailureInfo => false
  | _ => true
  end.

Definition withCauseFailure (f : Failure) (cause : option Failure) : Failure :=
  let 'mkFailure message source stackTrace encoded _ info := f in
  mkFailure message source stackTrace encoded cause info.

(** A Nexus handler failure that cannot be marshalled is left without its
    text. *)
Definition leftAs (f : Failure) : Failure :=
  let 'mkFailure _ source _ encoded cause info := f in
  match info with
  | NexusHandlerFailureInfo _ _ =>
      match temporalFailureToNexusFailure f with
      | inl _ => mkFailure "" source "" encoded cause info
      | inr _ => f
      end
  | _ => f
  end.

(** The error, and the failure as the conversion leaves it. *)
Fixpoint FailureToError_ (f : Failure) : goError * Failure :=
  let 'mkFailure _ _ _ _ cause info := f in
  let converted :=
    match cause with
    | Some c => if convertsCause info then Some (FailureToError_ c) else None
    | None => None
    end in
  let decoded :=
    withCauseFailure (DecodeCommonFailureAttributes f)
      (match converted with Some (_, c') => Some c' | None => cause end) in
  (errorOf f decoded (match converted with Some (e, _) => Some e | None => None end),
   leftAs decoded).

Definition FailureToError (f : option Failure) : option goError :=
  match f with
  | None => None
  | Some f' => Some (FailureToError_ f').1
  end.
End Converter.
