(* ===== verification/FailureConverterFacts.v ===== *)
(** * Failures and errors survive conversion.

    A failure that was received is sent on unchanged; an error made locally is
    received with the same kind, text, details and causes; and a converter that
    encodes the text of failures sends none of it in clear, except for Nexus
    handler errors. *)

From stdpp Require Import base list gmap strings.
From S2P Require Import Prelude Proto Errors FailureConverter.
Open Scope Z_scope.

(** ** Induction along the chain of causes *)

Lemma error_chain_ind (P : goError → Prop) :
  (∀ e, (∀ c, Unwrap e = Some c → P c) → P e) → ∀ e, P e.
Proof.
  intros H. fix IH 1. intros e. apply H.
  destruct e; simpl; intros e1 Hc; try discriminate Hc;
    match type of Hc with ?o = _ => destruct o as [x|]; [injection Hc as <-; apply IH|discriminate Hc] end.
Qed.

Definition Cause (f : Failure) : option Failure := let 'mkFailure _ _ _ _ c _ := f in c.
Definition Info (f : Failure) : FailureInfo := let 'mkFailure _ _ _ _ _ i := f in i.
Definition Message (f : Failure) : string := let 'mkFailure m _ _ _ _ _ := f in m.
Definition StackTrace (f : Failure) : string := let 'mkFailure _ _ st _ _ _ := f in st.

Lemma failure_chain_ind (P : Failure → Prop) :
  (∀ f, (∀ c, Cause f = Some c → P c) → P f) → ∀ f, P f.
Proof.
  intros H. fix IH 1. intros f. apply H. destruct f as [m s st ea c i]. simpl. intros c' Hc.
  destruct c as [x|]; [injection Hc as <-; apply IH|discriminate Hc].
Qed.

Section Converter.
  Variable marshalFailure : Failure → string + string.
  Variable unmarshalFailure : string → string + Failure.
  Variable marshalNexusFailure : nexusFailure → string + string.
  Variable TimeoutType_String : Z → string.
  Variable Quote : string → string.
  Variable HandlerError_Error : string → string → option string → string.
  Variable dfc : DefaultFailureConverter.
  Local Abbreviation dc := (dfc_dataConverter dfc).
  Local Abbreviation toFailure := (ErrorToFailure_ unmarshalFailure marshalNexusFailure
    TimeoutType_String Quote HandlerError_Error dfc).
  Local Abbreviation toError f := (FailureToError_ marshalFailure dfc f).1.
  Local Abbreviation handlerOriginal := (handlerOriginal unmarshalFailure marshalNexusFailure).
  Local Abbreviation makeFailure := (makeFailure TimeoutType_String Quote HandlerError_Error dfc).
  Local Abbreviation failureMessage := (failureMessage TimeoutType_String Quote HandlerError_Error).

(** ** The conversions, one level at a time *)

Lemma toFailure_unfold e :
  toFailure e =
  match failure e, handlerOriginal e with
  | Some f, _ => mret f
  | None, Some f => mret f
  | None, None =>
      '(info, stackTrace) ← failureInfoOf dfc e;
      cause ← match Unwrap e with
              | Some c => f ← toFailure c; mret (Some f)
              | None => mret None
              end;
      makeFailure e info stackTrace cause
  end.
Proof.
  destruct e as [? ? ? ? [|] ? ? ?|? ? ? ? [|]|? ? [|] ?|?|? ? ?|? ?|   | |? ? ? [|]
    |? ? ? ? ? ? ? [|]|? ? ? ? ? ? ? ? [|]|? ? ? ? ? ? ? [|]| | | |? ? ? [|]|? ?
    |? ? ? [|] ? ?|? ? [|]|? ? ?]; reflexivity.
Qed.

(** What a failure shows once its common attributes are decoded. *)
Definition decodedMessage (f : Failure) : string := Message (DecodeCommonFailureAttributes dfc f).
Definition decodedStackTrace (f : Failure) : string :=
  StackTrace (DecodeCommonFailureAttributes dfc f).

Definition isHandlerInfo (info : FailureInfo) : bool :=
  match info with NexusHandlerFailureInfo _ _ => true | _ => false end.

(** Except in the Nexus handler branch, the error depends on the decoded text,
    the info and the converted cause only. *)
Lemma toError_decoded f :
  isHandlerInfo (Info f) = false →
  toError f = errorOf marshalFailure f
    (mkFailure (decodedMessage f) "" (decodedStackTrace f) None None (Info f))
    (if convertsCause (Info f) then (λ c, toError c) <$> Cause f else None).
Proof.
  destruct f as [m s st ea c i]. simpl. intros Hi. unfold decodedMessage, decodedStackTrace. simpl.
  assert (Hdec : ∃ ea', DecodeCommonFailureAttributes dfc (mkFailure m s st ea c i) =
    mkFailure (Message (DecodeCommonFailureAttributes dfc (mkFailure m s st ea c i))) s
      (StackTrace (DecodeCommonFailureAttributes dfc (mkFailure m s st ea c i))) ea' c i).
  { simpl. repeat case_match; simpl; by eexists. }
  destruct Hdec as [ea' Hdec]. simpl in Hdec.
  destruct c as [c|]; simpl in *.
  - destruct (FailureToError_ marshalFailure dfc c) as [e' c'] eqn:He.
    rewrite Hdec. simpl. destruct i; simpl in *; try done; by case_bool_decide || done.
  - rewrite Hdec. simpl. destruct i; simpl in *; try done; by repeat case_match.
Qed.

Lemma makeFailure_decoded e info st c f :
  converts dc → makeFailure e info st c = Returned f →
  Info f = info ∧ Cause f = c ∧ decodedMessage f = failureMessage e ∧ decodedStackTrace f = st.
Proof.
  intros Hdc. unfold FailureConverter.makeFailure, decodedMessage, decodedStackTrace.
  destruct (dfc_encodeCommonAttributes dfc); simpl; [|by intros [= <-]].
  destruct (ToPayload dc _) as [err|p] eqn:Hp; [done|]. intros [= <-]. simpl.
  apply (payload_roundtrip _ Hdc) in Hp. simpl in Hp. by rewrite Hp.
Qed.

(** ** Errors made locally *)

Definition isHandlerError (e : goError) : bool :=
  match e with HandlerError _ _ _ _ _ _ => true | _ => false end.

(** The error claims the type of panics without being one. *)
Definition claimsPanic (e : goError) : bool :=
  match e with
  | ApplicationError _ _ type _ _ _ _ _ => bool_decide (type = "PanicError")
  | otherError name _ _ | joinedError name _ _ => bool_decide (elemName name = "PanicError")
  | _ => false
  end.

(** The error was not received, is not a Nexus handler error and can be
    encoded; so are its causes. *)
Inductive local : goError → Prop :=
| local_intro e :
    failure e = None → isHandlerError e = false → claimsPanic e = false →
    (∃ info st, failureInfoOf dfc e = Returned (info, st) ∧
      ∀ c, ∃ f, makeFailure e info st c = Returned f) →
    (∀ c, Unwrap e = Some c → local c) →
    local e.

Definition encodedAs (d d' : errorDetails) : Prop :=
  ∃ p, convertErrDetailsToPayloads dfc d = Returned p ∧ d' = EncodedValues p.

(** [e'] is [e] as the other side sees it, causes aside: the same kind of
    error with the same fields and encoded details; an error of another type
    is an application error with the name of its type. *)
Definition agrees (e e' : goError) : Prop :=
  match e, e' with
  | ApplicationError _ m t nr _ d delay cat, ApplicationError _ m' t' nr' _ d' delay' cat' =>
      m' = m ∧ t' = t ∧ nr' = nr ∧ delay' = delay ∧ cat' = cat ∧ encodedAs d d'
  | TimeoutError _ m t d _, TimeoutError _ m' t' d' _ => m' = m ∧ t' = t ∧ encodedAs d d'
  | CanceledError _ m _ d, CanceledError _ m' _ d' =>
      m' = (if decide (m = "") then "canceled" else m) ∧ encodedAs d d'
  | TerminatedError _, TerminatedError _ => True
  | PanicError _ v st, PanicError _ v' st' => v' = v ∧ st' = st
  | workflowPanicError v st, PanicError _ v' st' => v' = panicText v ∧ st' = st
  | ServerError _ m nr _, ServerError _ m' nr' _ => m' = m ∧ nr' = nr
  | ActivityError _ sc st w ty i r _, ActivityError _ sc' st' w' ty' i' r' _ =>
      sc' = sc ∧ st' = st ∧ w' = w ∧ ty' = ty ∧ i' = i ∧ r' = r
  | ChildWorkflowExecutionError _ n w r ty i st rs _,
    ChildWorkflowExecutionError _ n' w' r' ty' i' st' rs' _ =>
      n' = n ∧ w' = w ∧ r' = r ∧ ty' = ty ∧ i' = i ∧ st' = st ∧ rs' = rs
  | NexusOperationError _ _ sc ep sv op tok _, NexusOperationError _ m' sc' ep' sv' op' tok' _ =>
      m' = failureMessage e ∧ sc' = sc ∧ ep' = ep ∧ sv' = sv ∧ op' = op ∧ tok' = tok
  | (ContinueAsNewError _ | UnknownExternalWorkflowExecutionError | NamespaceNotFoundError
    | ChildWorkflowExecutionAlreadyStartedError | InvalidVersioningOverrideError
    | WorkflowExecutionError _ _ _ _ | ActivityNotRegisteredError _ _ | otherError _ _ _
    | joinedError _ _ _), ApplicationError _ m' t' nr' _ d' delay' cat' =>
      m' = failureMessage e ∧ t' = getErrType e ∧ nr' = false ∧ d' = EncodedValues None ∧
      delay' = 0 ∧ cat' = 0
  | _, _ => False
  end.

(** The same for the whole chain of causes. *)
Inductive received : goError → goError → Prop :=
| received_intro e e' :
    agrees e e' →
    (Unwrap e = None ↔ Unwrap e' = None) →
    (∀ c c', Unwrap e = Some c → Unwrap e' = Some c' → received c c') →
    received e e'.

(** One level: the error of the failure made from [e]. *)
Lemma agrees_errorOf e info st c f conv :
  converts dc → failure e = None → isHandlerError e = false → claimsPanic e = false →
  failureInfoOf dfc e = Returned (info, st) → makeFailure e info st c = Returned f →
  let e' := errorOf marshalFailure f
    (mkFailure (decodedMessage f) "" (decodedStackTrace f) None None (Info f)) conv in
  isHandlerInfo (Info f) = false ∧ agrees e e' ∧
  (Unwrap e ≠ None → convertsCause (Info f) = true ∧ Unwrap e' = conv) ∧
  (Unwrap e = None → conv = None → Unwrap e' = None).
Proof.
  intros Hdc Hf Hh Hp Hinfo Hmake.
  destruct (makeFailure_decoded _ _ _ _ _ Hdc Hmake) as (HI & _ & HM & HS).
  rewrite HI, HM, HS. clear Hmake HI HM HS.
  destruct e; simpl in *; try done;
    try (destruct (convertErrDetailsToPayloads dfc _) as [p|] eqn:Hd; [|done]);
    injection Hinfo as <- <-; simpl; unfold encodedAs; simpl.
  all: try (apply bool_decide_eq_false in Hp).
  all: repeat first [rewrite (decide_False (P := _ = "PanicError")) by (done || (case_decide; congruence))
    | rewrite (bool_decide_true (_ ≠ "PanicError")) by (done || (case_decide; congruence))].
  all: simpl; split_and!; try done.
  all: intros; try done.
  all: try by eexists.
  all: repeat case_decide; simpl; try done.
Qed.

Lemma handlerOriginal_none e : isHandlerError e = false → handlerOriginal e = None.
Proof. by destruct e. Qed.

Lemma roundtrip_received e : converts dc → local e →
  ∃ f, toFailure e = Returned f ∧ isHandlerInfo (Info f) = false ∧ received e (toError f).
Proof.
  intros Hdc. induction e as [e IH] using error_chain_ind. intros He.
  destruct He as [e Hf Hh Hp (info & st & Hinfo & Hmake) Hcause].
  assert (Hc : ∃ c, match Unwrap e with
      | Some c => f ← toFailure c; mret (Some f)
      | None => mret None
      end = Returned c ∧
    match Unwrap e, c with
    | None, None => True
    | Some x, Some f => received x (toError f)
    | _, _ => False
    end).
  { destruct (Unwrap e) as [x|] eqn:Hx; [|by exists None].
    destruct (IH x eq_refl (Hcause x eq_refl)) as (f & Hf' & _ & Hr). exists (Some f). by rewrite Hf'. }
  destruct Hc as (c & Hc & Hrel). destruct (Hmake c) as [f Hf'].
  exists f. rewrite toFailure_unfold, Hf, (handlerOriginal_none _ Hh), Hinfo. cbn [mbind outcome_bind].
  rewrite Hc. cbn [mbind outcome_bind]. split; [done|].
  destruct (makeFailure_decoded _ _ _ _ _ Hdc Hf') as (_ & HC & _ & _).
  destruct (agrees_errorOf e info st c f (if convertsCause (Info f) then (λ c, toError c) <$> Cause f else None)
    Hdc Hf Hh Hp Hinfo Hf') as (HI & Hagree & Hsome & Hnone).
  split; [done|]. rewrite (toError_decoded f HI). constructor; [done|..].
  - destruct (Unwrap e) as [x|] eqn:Hx; destruct c as [fc|]; try done.
    + destruct Hsome as [Hcc ->]; [done|]. by rewrite Hcc, HC.
    + split; [|done]. intros _. apply Hnone; [done|]. rewrite HC. by destruct (convertsCause _).
  - intros x x' Hx Hx'. rewrite Hx in Hrel, Hsome. destruct Hsome as [Hcc He']; [done|].
    rewrite He', Hcc, HC in Hx'. destruct c as [fc|]; [|done]. by injection Hx' as <-.
Qed.

(** ** The theorems *)


(** ** Retrying *)

(** Errors of the SDK's own types, which keep their type when received. *)
Definition sdkError (e : goError) : bool :=
  match e with
  | ApplicationError _ _ _ _ _ _ _ _ | TimeoutError _ _ _ _ _ | CanceledError _ _ _ _
  | TerminatedError _ | PanicError _ _ _ | ServerError _ _ _ _ | ActivityError _ _ _ _ _ _ _ _
  | ChildWorkflowExecutionError _ _ _ _ _ _ _ _ _ | NexusOperationError _ _ _ _ _ _ _ _ => true
  | _ => false
  end.

Inductive sdkChain : goError → Prop :=
| sdkChain_intro e : sdkError e = true → (∀ c, Unwrap e = Some c → sdkChain c) → sdkChain e.

Lemma errorsAs_sdk p e :
  sdkError e = true →
  errorsAs p e = if p e then Some e else (x ← Unwrap e; errorsAs p x).
Proof.
  destruct e as [? ? ? ? [|] ? ? ?|? ? ? ? [|]|? ? [|] ?|?|? ? ?|? ?|   | |? ? ? [|]
    |? ? ? ? ? ? ? [|]|? ? ? ? ? ? ? ? [|]|? ? ? ? ? ? ? [|]| | | |? ? ? [|]|? ?
    |? ? ? [|] ? ?|? ? [|]|? ? ?]; intros Hs; try discriminate Hs; reflexivity.
Qed.

Lemma received_sdk e e' : agrees e e' → sdkError e = true → sdkError e' = true.
Proof. by destruct e, e'. Qed.

(** A test of the type of an error finds corresponding errors on both sides. *)
Lemma errorsAs_received p e e' :
  (∀ x x', agrees x x' → sdkError x = true → p x' = p x) →
  received e e' → sdkChain e →
  match errorsAs p e, errorsAs p e' with
  | Some x, Some x' => agrees x x'
  | None, None => True
  | _, _ => False
  end.
Proof.
  intros Hp. revert e'. induction e as [e IH] using error_chain_ind. intros e' Hr Hs.
  destruct Hr as [e e' Hagree Hnone Hcause], Hs as [e Hsdk Hchain].
  rewrite !errorsAs_sdk, (Hp _ _ Hagree) by eauto using received_sdk.
  destruct (p e); [done|].
  destruct (Unwrap e) as [c|] eqn:Hc, (Unwrap e') as [c'|] eqn:Hc'; simpl.
  - apply (IH c eq_refl); [by apply Hcause|by apply Hchain].
  - by destruct Hnone as [_ ?%(λ H, H eq_refl)].
  - by destruct Hnone as [?%(λ H, H eq_refl) _].
  - done.
Qed.

Lemma errorsAs_holds p e x : sdkChain e → errorsAs p e = Some x → p x = true.
Proof.
  intros He. induction He as [e Hsdk Hchain IH]. rewrite errorsAs_sdk by done.
  destruct (p e) eqn:Hp; [by intros [= <-]|].
  destruct (Unwrap e) as [c|] eqn:Hc; simpl; [|done]. by apply IH.
Qed.

(** Whether an error may be retried is decided the same way on both
    sides: for a chain of errors of the SDK's types, [IsRetryable] gives the
    same answer for the error and for the error received in its place. *)
Theorem retryable_survives e e' types :
  received e e' → sdkChain e → IsRetryable (Some e') types = IsRetryable (Some e) types.
Proof using Type.
  intros Hr Hs.
  assert (Has : ∀ p, (∀ x x', agrees x x' → sdkError x = true → p x' = p x) →
    bool_decide (is_Some (errorsAs p e')) = bool_decide (is_Some (errorsAs p e))).
  { intros p Hp. pose proof (errorsAs_received p e e' Hp Hr Hs) as Hf. apply bool_decide_ext.
    destruct (errorsAs p e), (errorsAs p e'); try done; split; intros _; by eexists. }
  assert (Hkind : ∀ p, p ∈ [isTerminatedError; isCanceledError; isWorkflowPanicError; isTimeoutError;
    isApplicationError] → ∀ x x', agrees x x' → sdkError x = true → p x' = p x).
  { intros p Hp x x' Ha Hx. rewrite !elem_of_cons, elem_of_nil in Hp.
    destruct Hp as [->|[->|[->|[->|[->|[]]]]]]; by destruct x, x'. }
  unfold IsRetryable. rewrite !Has by (apply Hkind; set_solver).
  destruct (_ || _); [done|].
  pose proof (errorsAs_received isTimeoutError e e' (Hkind isTimeoutError ltac:(set_solver)) Hr Hs) as Ht.
  pose proof (errorsAs_received isApplicationError e e' (Hkind isApplicationError ltac:(set_solver)) Hr Hs) as Ha.
  assert (Htype : getErrType e' = getErrType e).
  { destruct Hr as [e e' Hagree _ _], Hs as [e Hsdk _]. by destruct e, e'. }
  rewrite Htype.
  assert (Happ : match errorsAs isApplicationError e' with
    | Some (ApplicationError _ _ errType nonRetryable _ _ _ _) =>
        if nonRetryable then false else bool_decide (errType ∉ types)
    | _ => bool_decide (getErrType e ∉ types)
    end = match errorsAs isApplicationError e with
    | Some (ApplicationError _ _ errType nonRetryable _ _ _ _) =>
        if nonRetryable then false else bool_decide (errType ∉ types)
    | _ => bool_decide (getErrType e ∉ types)
    end).
  { destruct (errorsAs isApplicationError e) as [y|] eqn:Hy; [|by destruct (errorsAs isApplicationError e')].
    apply errorsAs_holds in Hy; [|done]. destruct (errorsAs isApplicationError e') as [y'|]; [|done].
    destruct y; try discriminate Hy. destruct y'; try contradiction Ha.
    by destruct Ha as (_ & -> & -> & _). }
  destruct (errorsAs isTimeoutError e) as [x|] eqn:Hx;
    [|by destruct (errorsAs isTimeoutError e'); [|exact Happ]].
  apply errorsAs_holds in Hx; [|done]. destruct (errorsAs isTimeoutError e') as [x'|]; [|done].
  destruct x; try discriminate Hx. destruct x'; try contradiction Ht.
  by destruct Ht as (_ & -> & _).
Qed.

(** The text of a failure and of its causes is replaced. *)
Inductive hidden : Failure → Prop :=
| hidden_intro f :
    Message f = "Encoded failure" → StackTrace f = "" → (∀ c, Cause f = Some c → hidden c) → hidden f.

(** A converter that encodes common attributes sends no text in clear:
    in the failure of an error made locally, and in the failures of all its
    causes, the message and the stack trace are replaced. *)
Theorem encoding_hides_text e f :
  dfc_encodeCommonAttributes dfc = true → local e → toFailure e = Returned f → hidden f.
Proof.
  intros Henc. revert f. induction e as [e IH] using error_chain_ind. intros f He.
  destruct He as [e Hf Hh Hp (info & st & Hinfo & _) Hcause].
  rewrite toFailure_unfold, Hf, (handlerOriginal_none _ Hh), Hinfo. cbn [mbind outcome_bind].
  intros Hrun.
  assert (Hsub : ∃ c, makeFailure e info st c = Returned f ∧ (∀ fc, c = Some fc → hidden fc)).
  { destruct (Unwrap e) as [x|] eqn:Hx.
    - destruct (toFailure x) as [fx|] eqn:Hfx; [|done]. simpl in Hrun. exists (Some fx).
      split; [done|]. intros fc [= <-]. by apply (IH x eq_refl); [apply Hcause|].
    - simpl in Hrun. by exists None. }
  destruct Hsub as (c & Hmake & Hc). unfold FailureConverter.makeFailure in Hmake.
  rewrite Henc in Hmake. simpl in Hmake. destruct (ToPayload dc _) as [|p]; [done|].
  injection Hmake as <-. constructor; [done|done|exact Hc].
Qed.

(** The failure as the conversion of a Nexus handler failure reads it. *)
Definition decodedInPlace (f : Failure) : Failure :=
  withCauseFailure (DecodeCommonFailureAttributes dfc f)
    (match Cause f with Some c => Some (FailureToError_ marshalFailure dfc c).2 | None => None end).

(** A Nexus handler failure is the exception: the failure is decoded in
    place before it is kept as the original failure of the error, and the
    original failure is sent without being encoded again. A message that was
    received encoded is sent on in clear, whatever the converter's settings. *)
Theorem handler_error_reveals_text x s y c i p m st nf :
  (∀ g b, marshalFailure g = inr b → unmarshalFailure b = inr g) →
  let f := mkFailure x s y (Some p) c i in
  isHandlerInfo i = true → FromPayload dc p kindEncodedFailure = inr (goEncodedFailure m st) →
  temporalFailureToNexusFailure marshalFailure (decodedInPlace f) = inr nf →
  ∃ g, toFailure (toError f) = Returned g ∧ Message g = m ∧ StackTrace g = st.
Proof.
  intros Hjson f Hi Hp Hnf. destruct i; try done. unfold decodedInPlace in Hnf. simpl in Hnf.
  rewrite Hp in Hnf. simpl in Hnf.
  destruct (marshalFailure _) as [|b] eqn:Hb; [done|]. injection Hnf as <-.
  exists (mkFailure m s st (Some p)
    (match c with Some c' => Some (FailureToError_ marshalFailure dfc c').2 | None => None end)
    (NexusHandlerFailureInfo type retryBehavior)). split; [|done].
  rewrite toFailure_unfold. simpl. rewrite Hp. destruct c as [c|]; simpl in *.
  - destruct (FailureToError_ marshalFailure dfc c) as [ec c'] eqn:Hc. simpl in *. rewrite Hb.
    unfold FailureConverter.handlerOriginal, nexusFailureToTemporalFailure. simpl.
    by rewrite (Hjson _ _ Hb).
  - rewrite Hb. unfold FailureConverter.handlerOriginal, nexusFailureToTemporalFailure. simpl.
    by rewrite (Hjson _ _ Hb).
Qed.
End Converter.

(** ** Witnesses: a converter that keeps strings as they are and the text of a
    failure in the metadata of a payload *)

Definition exampleConverter : DataConverter :=
  mkDataConverter
    (λ v, match v with
          | goString s => inr (mkPayload ∅ s)
          | goEncodedFailure m st => inr (mkPayload {[ "message" := m ]} st)
          | _ => inl "unsupported"
          end)
    (λ vs, match vs with
           | [] => inr None
           | [goString s] => inr (Some [mkPayload ∅ s])
           | _ => inl "unsupported"
           end)
    (λ p k, match k with
            | kindString => inr (goString (Payload_Data p))
            | kindEncodedFailure =>
                inr (goEncodedFailure (default "" (Payload_Metadata p !! "message")) (Payload_Data p))
            | _ => inl "unsupported"
            end)
    (λ ps ks, match ps, ks with
              | None, [] => inr []
              | Some [p], [kindString] => inr [goString (Payload_Data p)]
              | _, _ => inl "unsupported"
              end).

Lemma exampleConverter_converts : converts exampleConverter.
Proof.
  split.
  - intros v p Hv. destruct v; simpl in *; try discriminate Hv; by injection Hv as <-.
  - intros vs ps Hvs. destruct vs as [|v [|]]; simpl in *; [by injection Hvs as <-| |by destruct v].
    destruct v; try discriminate Hvs. by injection Hvs as <-.
Qed.

Definition exampleDfc : DefaultFailureConverter := mkDefaultFailureConverter exampleConverter true.

(** Failures in the form of the example, as JSON would be: only the payload
    varies. *)
Definition exampleMarshal (f : Failure) : string + string :=
  match f with
  | mkFailure m src st (Some p) None (NexusHandlerFailureInfo t rb) =>
      if decide (m = "" ∧ src = "GoSDK" ∧ st = "" ∧ Payload_Metadata p = {[ "message" := "secret" ]} ∧
                 t = "INTERNAL" ∧ rb = 1)
      then inr (Payload_Data p) else inl "unsupported"
  | _ => inl "unsupported"
  end.
Definition exampleUnmarshal (b : string) : string + Failure :=
  inr (mkFailure "" "GoSDK" "" (Some (mkPayload {[ "message" := "secret" ]} b)) None
         (NexusHandlerFailureInfo "INTERNAL" 1)).

Definition exampleError : goError :=
  NewActivityError 5 6 "worker" (Some "Charge") "5" 0
    (Some (NewApplicationError "declined" "CardError" true
             (Some (otherError "*errorString" "no funds" None)) [goString "card"])).

Definition noText (_ : Z) : string := "".
Definition noError (_ _ : string) (_ : option string) : string := "".

Lemma exampleError_local : local noText id noError exampleDfc exampleError.
Proof.
  repeat (apply local_intro; [done..| |]);
    try (eexists _, _; split; [reflexivity|intros c; eexists; reflexivity]);
    intros c Hc; simpl in Hc; try discriminate Hc; injection Hc as <-;
  repeat (apply local_intro; [done..| |]);
    try (eexists _, _; split; [reflexivity|intros c; eexists; reflexivity]);
    intros c Hc; simpl in Hc; try discriminate Hc; injection Hc as <-;
  repeat (apply local_intro; [done..| |]);
    try (eexists _, _; split; [reflexivity|intros c; eexists; reflexivity]);
    intros c Hc; simpl in Hc; discriminate Hc.
Qed.


(** A chain of the SDK's errors, and what is received for it. *)
Definition exampleChain (details : errorDetails) : goError :=
  ActivityError None 5 6 "worker" (Some "Charge") "5" 0
    (Some (ApplicationError None "declined" "CardError" false
             (Some (CanceledError None "canceled" None details)) details 0 0)).

Lemma retryable_survives_witness :
  IsRetryable (Some (exampleChain (EncodedValues None))) ["CardError"]
  = IsRetryable (Some (exampleChain (ErrorDetailsValues []))) ["CardError"].
Proof.
  apply (retryable_survives noText id noError exampleDfc).
  - repeat first [apply received_intro; [repeat split; by eexists|done|]
      | intros c c' [= <-] [= <-]]; done.
  - repeat first [apply sdkChain_intro; [done|] | intros c [= <-]]; done.
Defined.

Lemma encoding_hides_text_witness :
  ∃ f, ErrorToFailure_ exampleUnmarshal (λ _, inl "") noText id noError exampleDfc exampleError
       = Returned f ∧ hidden f.
Proof.
  eexists. split; [reflexivity|].
  apply (encoding_hides_text exampleUnmarshal (λ _, inl "") noText id noError exampleDfc exampleError);
    [reflexivity|exact exampleError_local|reflexivity].
Defined.

Lemma handler_error_reveals_text_witness :
  let f := mkFailure "Encoded failure" "GoSDK" "" (Some (mkPayload {[ "message" := "secret" ]} "trace"))
             None (NexusHandlerFailureInfo "INTERNAL" 1) in
  ∃ g, ErrorToFailure_ exampleUnmarshal (λ _, inl "") noText id noError exampleDfc
         (FailureToError_ exampleMarshal exampleDfc f).1 = Returned g ∧
    Message g = "secret" ∧ StackTrace g = "trace".
Proof.
  eapply (handler_error_reveals_text exampleMarshal exampleUnmarshal (λ _, inl "") noText id noError
    exampleDfc).
  - intros g b. unfold exampleMarshal. destruct g as [m src st [p|] [|] []]; try discriminate.
    case_decide as H; [|discriminate]. destruct H as (-> & -> & -> & Hm & -> & ->).
    intros [= <-]. destruct p as [md d]. simpl in Hm. by subst.
  - reflexivity.
  - reflexivity.
  - reflexivity.
Defined.
