(* ===== verification/Retry.v ===== *)
(** * Retry policies.

    The backoff of local activities ([getRetryBackoffWithNowTime] of
    [src/internal/internal_task_handlers.go], the defaults of
    [src/internal/workflow.go]) and the retries of service calls
    ([src/internal/common/backoff/retrypolicy.go] and [retry.go],
    [src/internal/internal_retry.go]). Durations are nanoseconds in an
    [int64]; times are integers. *)

From stdpp Require Import base list gmap strings.
From Stdlib Require Import SpecFloat.
From S2P Require Import Prelude Proto Floats Errors.
Open Scope Z_scope.

Definition Second : Z := 1000000000.
Definition Millisecond : Z := 1000000.

(** ** Local activities *)

Definition applyRetryPolicyDefaultsForLocalActivity (policy : option RetryPolicy) : RetryPolicy :=
  let p := default (mkRetryPolicy 0 f64_zero 0 0 []) policy in
  let coefficient :=
    if f64_eq (BackoffCoefficient p) f64_zero then float64_of_int64 2 else BackoffCoefficient p in
  let initial := if decide (InitialInterval p = 0) then 1 * Second else InitialInterval p in
  let maximum := if decide (MaximumInterval p = 0) then wrap64 (initial * 100) else MaximumInterval p in
  mkRetryPolicy initial coefficient maximum (MaximumAttempts p) (NonRetryableErrorTypes p).

(** [durationpb.New] and [AsDuration] are inverse on durations; a message
    keeps the nanoseconds here. *)
Definition ConvertToPBRetryPolicy (policy : option RetryPolicy) : option PBRetryPolicy :=
  (λ p, mkPBRetryPolicy (InitialInterval p) (BackoffCoefficient p) (MaximumInterval p)
          (MaximumAttempts p) (NonRetryableErrorTypes p)) <$> policy.

Definition convertFromPBRetryPolicy (policy : option PBRetryPolicy) : option RetryPolicy :=
  (λ p, mkRetryPolicy (pb_InitialInterval p) (pb_BackoffCoefficient p) (pb_MaximumInterval p)
          (pb_MaximumAttempts p) (pb_NonRetryableErrorTypes p)) <$> policy.

Definition noRetryBackoff : Z := -1.

Section Backoff.
  (** [int64(x)] of a float out of range. *)
  Variable implementation : float64 → Z.
  Abbreviation int64 := (int64_of_float64 implementation).

(** The interval when the error does not carry one. *)
Definition exponentialInterval (p : RetryPolicy) (attempt : Z) : Z :=
  let computed := int64 (f64_mul (float64_of_int64 (InitialInterval p))
                           (math_Pow (BackoffCoefficient p) (wrap32 (attempt - 1)))) in
  let positive :=
    if bool_decide (computed ≤ 0) && bool_decide (0 < MaximumInterval p)
    then MaximumInterval p else computed in
  if bool_decide (0 < MaximumInterval p) && bool_decide (MaximumInterval p < positive)
  then MaximumInterval p else positive.

(** [expireTime] is [None] when it is the zero time. *)
Definition getRetryBackoffWithNowTime (p : RetryPolicy) (attempt : Z) (err : option goError)
    (now : Z) (expireTime : option Z) : Z :=
  if negb (IsRetryable err (NonRetryableErrorTypes p)) then noRetryBackoff
  else if bool_decide (0 < MaximumAttempts p) && bool_decide (MaximumAttempts p ≤ attempt)
  then noRetryBackoff
  else
    let fromError :=
      match err with Some (ApplicationError _ _ _ _ _ _ nextRetryDelay _) => nextRetryDelay | _ => 0 end in
    let backoffInterval :=
      if decide (fromError = 0) then exponentialInterval p attempt else fromError in
    if decide (backoffInterval ≤ 0) then noRetryBackoff
    else
      match expireTime with
      | Some expire =>
          if decide (expire < now + backoffInterval) then noRetryBackoff else backoffInterval
      | None => backoffInterval
      end.

(** ** Service calls *)

Record ExponentialRetryPolicy : Type := mkExponentialRetryPolicy {
  initialInterval : Z;
  backoffCoefficient : float64;
  maximumInterval : Z;
  expirationInterval : Z;
  maximumAttempts : Z;
}.

(** Attempts and intervals that are not limited. *)
Definition UnlimitedMaximumAttempts : Z := 0.
Definition UnlimitedInterval : Z := 0.
(** [DefaultJitter], 0.2, and the constant [1 - DefaultJitter]. *)
Definition DefaultJitter : float64 := S754_finite false 7205759403792794 (-55).
Definition undelayed : float64 := S754_finite false 7205759403792794 (-53).

Definition NewExponentialRetryPolicy (initial : Z) : ExponentialRetryPolicy :=
  mkExponentialRetryPolicy initial (float64_of_int64 2) (10 * Second) (60 * Second)
    UnlimitedMaximumAttempts.

(** [done] *)
Definition noDelay : Z := -1.

(** [rand] is what [rand.Intn] returns for its argument. *)
Definition ComputeNextDelay (rand : Z → Z) (p : ExponentialRetryPolicy) (elapsedTime attempt : Z) : Z :=
  if bool_decide (maximumAttempts p ≠ UnlimitedMaximumAttempts) &&
     bool_decide (maximumAttempts p ≤ attempt) then noDelay
  else if bool_decide (expirationInterval p ≠ UnlimitedInterval) &&
          bool_decide (expirationInterval p < elapsedTime) then noDelay
  else
    let interval := f64_mul (float64_of_int64 (initialInterval p))
                      (math_Pow (backoffCoefficient p) (wrap64 (attempt - 1))) in
    if f64_le interval f64_zero then noDelay
    else
      let capped :=
        if decide (maximumInterval p ≠ UnlimitedInterval)
        then math_Min interval (float64_of_int64 (maximumInterval p)) else interval in
      let nextInterval :=
        if decide (expirationInterval p ≠ UnlimitedInterval)
        then math_Min (math_Max f64_zero
                         (float64_of_int64 (wrap64 (expirationInterval p - elapsedTime)))) capped
        else capped in
      if decide (int64 nextInterval < initialInterval p) then noDelay
      else
        let jitterPortion := Z.max (int64 (f64_mul DefaultJitter nextInterval)) 1 in
        int64 (f64_add (f64_mul nextInterval undelayed) (float64_of_int64 (rand jitterPortion))).

(** [retrierImpl], for the clock given to each call. *)
Record retrierImpl : Type := mkRetrier {
  policy : ExponentialRetryPolicy;
  currentAttempt : Z;
  startTime : Z;
}.

Definition NewRetrier (p : ExponentialRetryPolicy) (now : Z) : retrierImpl := mkRetrier p 1 now.

Definition Retrier_Reset (now : Z) (r : retrierImpl) : retrierImpl := mkRetrier (policy r) 1 now.

Definition GetElapsedTime (now : Z) (r : retrierImpl) : Z := wrap64 (now - startTime r).

Definition NextBackOff (rand : Z → Z) (now : Z) (r : retrierImpl) : Z * retrierImpl :=
  (ComputeNextDelay rand (policy r) (GetElapsedTime now r) (currentAttempt r),
   mkRetrier (policy r) (wrap64 (currentAttempt r + 1)) (startTime r)).

(** [createDynamicServiceRetryPolicy], with the time left until the deadline
    of the context when it has one in the future. *)
Definition createDynamicServiceRetryPolicy (untilDeadline : option Z) : ExponentialRetryPolicy :=
  let timeout := default (60 * Second) untilDeadline in
  let initial := 200 * Millisecond in
  mkExponentialRetryPolicy initial (float64_of_int64 2) (Z.max (timeout `quot` 10) initial) timeout
    UnlimitedMaximumAttempts.

(** *** [Retry] *)

(** What one round of the loop meets: the error of the operation, the clock
    and the random numbers, and whether the context ends during the wait. *)
Record round : Type := mkRound {
  opErr : option goError;
  roundTime : Z;
  roundRand : Z → Z;
  contextDone : bool;
}.

Section RetryLoop.
  (** [errors.Is(err, context.DeadlineExceeded)] or a deadline error of the
      service. *)
  Variable isDeadlineExceeded : goError → bool.
  Variable isRetryable : goError → bool.

(** The result, [None] while more rounds are needed, and the number of calls
    of the operation. *)
Fixpoint retryLoop (rounds : list round) (lastErr : option goError) (r : retrierImpl)
    : option (option goError) * nat :=
  match rounds with
  | [] => (None, O)
  | rd :: rounds' =>
      match opErr rd with
      | None => (Some None, 1%nat)
      | Some err =>
          let lastErr' :=
            match lastErr with
            | Some _ => if isDeadlineExceeded err then lastErr else Some err
            | None => Some err
            end in
          let (next, r') := NextBackOff (roundRand rd) (roundTime rd) r in
          if decide (next = noDelay) then (Some lastErr', 1%nat)
          else if negb (isRetryable err) then (Some lastErr', 1%nat)
          else if contextDone rd then (Some lastErr', 1%nat)
          else let (res, n) := retryLoop rounds' lastErr' r' in (res, S n)
      end
  end.

Definition Retry (start : Z) (p : ExponentialRetryPolicy) (rounds : list round)
    : option (option goError) * nat :=
  retryLoop rounds None (NewRetrier p start).
End RetryLoop.

(** *** Throttling of a client *)

Record ConcurrentRetrier : Type := mkConcurrentRetrier {
  retrier : retrierImpl;
  secondaryRetrier : option retrierImpl;
  failureCount : Z;
  includeSecondaryRetrier : bool;
}.

Definition NewConcurrentRetrier (p : ExponentialRetryPolicy) (now : Z) : ConcurrentRetrier :=
  mkConcurrentRetrier (NewRetrier p now) None 0 false.

(** The delay; the wait that follows it is left out. *)
Definition throttleInternal (rand : Z → Z) (now : Z) (c : ConcurrentRetrier) : Z * ConcurrentRetrier :=
  if decide (0 < failureCount c) then
    let (next, r) := NextBackOff rand now (retrier c) in
    if includeSecondaryRetrier c then
      match secondaryRetrier c with
      | Some s =>
          let (secNext, s') := NextBackOff rand now s in
          (if decide (next < secNext) then secNext else next,
           mkConcurrentRetrier r (Some s') (failureCount c) false)
      | None => (next, mkConcurrentRetrier r None (failureCount c) false)
      end
    else (next, mkConcurrentRetrier r (secondaryRetrier c) (failureCount c) false)
  else (noDelay, c).

Definition Succeeded (now : Z) (c : ConcurrentRetrier) : ConcurrentRetrier :=
  mkConcurrentRetrier (Retrier_Reset now (retrier c)) (Retrier_Reset now <$> secondaryRetrier c) 0 false.

Definition Failed (includeSecondary : bool) (c : ConcurrentRetrier) : ConcurrentRetrier :=
  mkConcurrentRetrier (retrier c) (secondaryRetrier c) (wrap64 (failureCount c + 1)) includeSecondary.

Definition SetSecondaryRetryPolicy (p : option ExponentialRetryPolicy) (now : Z) (c : ConcurrentRetrier)
    : ConcurrentRetrier :=
  mkConcurrentRetrier (retrier c) ((λ p, NewRetrier p now) <$> p) (failureCount c)
    (includeSecondaryRetrier c).
End Backoff.

(** ** When a local activity is retried *)

(** The delay that the error asks for. *)
Definition requestedDelay (err : option goError) : Z :=
  match err with Some (ApplicationError _ _ _ _ _ _ nextRetryDelay _) => nextRetryDelay | _ => 0 end.

Section Facts.
  Variable implementation : float64 → Z.

(** With a maximal interval the computed interval is positive and below it,
    also when the power overflows or is not a number. *)
Lemma exponentialInterval_bounds p attempt :
  0 < MaximumInterval p → 0 < exponentialInterval implementation p attempt ≤ MaximumInterval p.
Proof.
  intros Hmax. unfold exponentialInterval. cbv zeta. generalize (int64_of_float64 implementation
    (f64_mul (float64_of_int64 (InitialInterval p))
       (math_Pow (BackoffCoefficient p) (wrap32 (attempt - 1))))). intros computed.
  rewrite (bool_decide_true (0 < MaximumInterval p)) by done.
  rewrite andb_true_r, andb_true_l. repeat case_bool_decide; lia.
Qed.

Lemma applyDefaults_maximum policy :
  0 ≤ InitialInterval (default (mkRetryPolicy 0 f64_zero 0 0 []) policy) < 2 ^ 63 / 100 →
  0 ≤ MaximumInterval (default (mkRetryPolicy 0 f64_zero 0 0 []) policy) →
  0 < MaximumInterval (applyRetryPolicyDefaultsForLocalActivity policy).
Proof.
  intros Hi Hm. unfold applyRetryPolicyDefaultsForLocalActivity. cbv zeta.
  generalize dependent (default (mkRetryPolicy 0 f64_zero 0 0 []) policy). intros p Hi Hm.
  cbn [MaximumInterval]. case_decide; [|lia]. case_decide.
  - reflexivity.
  - assert (InitialInterval p * 100 < 2 ^ 63) by (pose proof (Z.mul_div_le (2 ^ 63) 100); lia).
    rewrite wrap64_id; unfold int64_range; lia.
Qed.


(** ** The retries of a service call end *)

Section Loop.
  Variable isDeadlineExceeded isRetryable : goError → bool.

(** The error that [Retry] remembers after these errors. *)
Definition remembered (errs : list goError) : option goError :=
  foldl (λ lastErr err, match lastErr with
                        | Some _ => if isDeadlineExceeded err then lastErr else Some err
                        | None => Some err
                        end) None errs.

(** Every round failed with an error that may be retried. *)
Definition keepsGoing (rd : round) : Prop :=
  ∃ err, opErr rd = Some err ∧ isRetryable err = true ∧ contextDone rd = false.

Lemma retryLoop_spec rounds : ∀ errs r m,
  maximumAttempts (policy r) = m → 0 < currentAttempt r ≤ m → m < 2 ^ 63 →
  m - currentAttempt r < Z.of_nat (length rounds) →
  ∃ n, (retryLoop implementation isDeadlineExceeded isRetryable rounds (remembered errs) r).2 = S n ∧
    Z.of_nat n ≤ m - currentAttempt r ∧ Forall keepsGoing (take n rounds) ∧
    ∃ rd, rounds !! n = Some rd ∧
      (retryLoop implementation isDeadlineExceeded isRetryable rounds (remembered errs) r).1 =
      Some (match opErr rd with
            | None => None
            | Some _ => remembered (errs ++ omap opErr (take (S n) rounds))
            end).
Proof.
  induction rounds as [|rd rounds IH]; intros errs r m Hm Hc Hlt Hlen; simpl in Hlen; [lia|].
  cbn [retryLoop]. destruct (opErr rd) as [err|] eqn:Herr.
  2:{ exists O. split_and!; [done|lia|constructor|]. exists rd. by rewrite Herr. }
  assert (Hrem : (match remembered errs with
            | Some _ => if isDeadlineExceeded err then remembered errs else Some err
            | None => Some err end) = remembered (errs ++ [err])).
  { unfold remembered. by rewrite foldl_app. }
  rewrite Hrem. unfold NextBackOff at 1. destruct (NextBackOff _ _ _ r) as [next r'] eqn:Hn.
  injection Hn as <- <-.
  assert (Hstop : ∃ n, 1%nat = S n ∧ Z.of_nat n ≤ m - currentAttempt r ∧
    Forall keepsGoing (take n (rd :: rounds)) ∧ ∃ rd0, (rd :: rounds) !! n = Some rd0 ∧
      Some (remembered (errs ++ [err])) = Some (match opErr rd0 with None => None
        | Some _ => remembered (errs ++ omap opErr (take (S n) (rd :: rounds))) end)).
  { exists O. split_and!; [done|lia|constructor|]. exists rd. split; [done|]. simpl. by rewrite Herr. }
  destruct (decide (currentAttempt r = m)) as [Heq|Hne].
  - rewrite decide_True; [done|]. unfold ComputeNextDelay.
    rewrite bool_decide_true by (unfold UnlimitedMaximumAttempts; lia).
    by rewrite bool_decide_true by lia.
  - case_decide; [done|]. destruct (isRetryable err) eqn:Hret; simpl; [|done].
    destruct (contextDone rd) eqn:Hctx; [done|].
    set (r' := mkRetrier _ _ _).
    assert (currentAttempt r' = currentAttempt r + 1) as Hnext.
    { simpl. apply wrap64_id. unfold int64_range. lia. }
    destruct (IH (errs ++ [err]) r' m) as (n & H2 & Hle & Hall & rd0 & Hrd0 & H1);
      [done|lia|done|lia|].
    destruct (retryLoop _ _ _ rounds _ r') as [res n'] eqn:Hloop. simpl in *. subst n'.
    exists (S n). split_and!; [done|lia| |].
    + constructor; [by exists err|done].
    + exists rd0. split; [done|]. rewrite H1. simpl. rewrite Herr. by rewrite <- app_assoc.
Qed.

(** [Retry] ends.  With a limit [m] on the attempts, whatever the operation,
    the clock, the jitter and the context do, [Retry] returns after at most [m]
    calls of the operation.  It goes on only after errors that may be retried,
    returns nil exactly when its last call succeeded, and otherwise the last
    error that is not an exceeded deadline (the first error when all are). *)
Theorem retry_terminates start p rounds m :
  maximumAttempts p = m → 0 < m < 2 ^ 63 → m ≤ Z.of_nat (length rounds) →
  let '(res, calls) := Retry implementation isDeadlineExceeded isRetryable start p rounds in
  ∃ n rd, calls = S n ∧ Z.of_nat calls ≤ m ∧ Forall keepsGoing (take n rounds) ∧
    rounds !! n = Some rd ∧
    res = Some (match opErr rd with
                | None => None
                | Some _ => remembered (omap opErr (take (S n) rounds))
                end).
Proof.
  intros Hm Hpos Hlen.
  destruct (retryLoop_spec rounds [] (NewRetrier p start) m) as (n & H2 & Hle & Hall & rd & Hrd & H1);
    [done|simpl; lia|lia|simpl; lia|].
  unfold Retry. change None with (remembered []).
  destruct (retryLoop _ _ _ _ _ _) as [res calls]. simpl in *. subst calls.
  exists n, rd. split_and!; [done|lia|done|done|done].
Qed.
End Loop.
End Facts.

(** The third attempt of an activity with the default policy. *)
Definition exampleError : option goError := Some (otherError "*errorString" "refused" None).


(** Three calls: two errors, then a success. *)
Definition exampleRounds : list round :=
  [mkRound exampleError 0 (λ n, 0) false; mkRound exampleError 1 (λ n, n - 1) false;
   mkRound None 2 (λ n, 0) false; mkRound None 3 (λ n, 0) false].

Lemma retry_terminates_witness :
  let p := mkExponentialRetryPolicy Second (float64_of_int64 2) 0 0 4 in
  ∃ calls, Retry (λ _, 0) (λ _, false) (λ _, true) 0 p exampleRounds = (Some None, calls) ∧
    (calls ≤ 4)%nat.
Proof.
  intros p. pose proof (retry_terminates (λ _, 0) (λ _, false) (λ _, true) 0 p exampleRounds 4) as H.
  specialize (H eq_refl ltac:(split; reflexivity) ltac:(vm_compute; congruence)).
  assert (Hres : (Retry (λ _, 0) (λ _, false) (λ _, true) 0 p exampleRounds).1 = Some None)
    by (vm_compute; reflexivity).
  destruct (Retry _ _ _ 0 p exampleRounds) as [res calls]. simpl in Hres. subst res.
  destruct H as (n & rd & -> & Hle & _). exists (S n). split; [reflexivity|lia].
Defined.
