(* ===== verification/Environment.v ===== *)
(** * The workflow environment
      ([src/internal/internal_event_handlers.go], [workflowEnvironmentImpl]).

    The operations workflow code runs on: each either answers from what history
    recorded or adds commands through [commandsHelper], attaching the callback
    to be run when the outcome arrives.  [EventHandlers.v] feeds history events
    to the same state.

    A callback is a Go closure, represented by an identifier; the runs of
    callbacks are logged in [deliveries] with their arguments.  The closures
    the SDK passes complete a future: they do not call the environment. *)

From stdpp Require Import base list gmap strings pretty.
From S2P Require Import Prelude Floats Proto CommandMachine CommandsHelper Flags Replay Errors.
Open Scope Z_scope.

(** ** Data *)

(** [LocalActivityResultWrapper]. *)
Record localActivityOutcome : Type := mkLocalActivityOutcome {
  lar_Err : option goError;
  lar_Result : option Payloads;
  lar_Attempt : Z;
  lar_Backoff : Z;
}.

(** The arguments of a callback, by its Go type. *)
Inductive callbackArgs : Type :=
| resultArgs (result : option Payloads) (err : option goError)
| startedArgs (execution : WorkflowExecution) (err : option goError)
| tokenArgs (token : string) (err : option goError)
| payloadArgs (result : option Payload) (err : option goError)
| localActivityArgs (lar : localActivityOutcome).

Record delivery : Type := mkDelivery {
  delivered_callback : nat;
  delivered_args : callbackArgs;
}.

Record ExecuteLocalActivityParams : Type := mkExecuteLocalActivityParams {
  elap_ActivityType : string;
  elap_ScheduleToCloseTimeout : Z;
  elap_RetryPolicy : option RetryPolicy;
  elap_Summary : string;
  elap_FailureConverter : nat;
  elap_Attempt : Z;
  elap_ScheduledTime : Z;
  elap_Header : gmap string Payload;
  elap_EventGroupMarkers : list EventGroupMarker;
}.

(** [localActivityTask], without what the worker that runs it owns. *)
Record localActivityTask : Type := mkLocalActivityTask {
  lat_activityID : string;
  lat_params : ExecuteLocalActivityParams;
  lat_callback : nat;
  lat_canceled : bool;
  lat_attempt : Z;
  lat_attemptsThisWFT : Z;
  lat_pastFirstWFT : bool;
  lat_expireTime : Z;
  lat_scheduledTime : Z;
}.

(** A ChaCha8 stream: the run and the name its seed derives from, and the
    bytes read so far. *)
Record randomStream : Type := mkRandomStream {
  seed_runID : string;
  seed_name : string;
  bytes_read : nat;
}.

Record SessionInfo : Type := mkSessionInfo {
  SessionID : string;
  HostName : string;
}.

(** The fields of [WorkflowInfo] that the environment reads or writes. *)
Record WorkflowInfo : Type := mkWorkflowInfo {
  TaskQueueName : string;
  currentRunID : string;
  SearchAttributes : option IndexedFields;
  Memo : option (gmap string Payload);
  currentHistoryLength : Z;
  currentHistorySize : Z;
  continueAsNewSuggested : bool;
  continueAsNewSuggestedReasons : list Z;
  targetWorkerDeploymentVersionChanged : bool;
}.

(** [workflowEnvironmentImpl].  [started] says whether [workflowDefinition] is
    set, [cancelHandler] and [signalHandler] whether those closures are;
    [clock] is what [time.Now] returns; [completed] is what the completion
    handler was last called with.  [nextCallback] numbers the closures that
    workflow code creates. *)
Record workflowEnvironmentImpl : Type := mkEnvironment {
  workflowInfo : WorkflowInfo;
  helper : commandsHelper;
  sideEffectResult : gmap Z (option Payloads);
  changeVersions : gmap string Z;
  pendingLaTasks : gmap string localActivityTask;
  unstartedLaTasks : gset string;
  completedLaAttemptsThisWFT : Z;
  mutableSideEffect : gmap string (gmap Z (option Payloads));
  mutableSideEffectsRecorded : gset string;
  mutableSideEffectCallCounter : gmap string Z;
  localActivityCounterID : Z;
  sideEffectCounterID : Z;
  randoms : gmap string randomStream;
  openSessions : gmap string SessionInfo;
  currentReplayTime : Z;
  currentLocalTime : Z;
  clock : Z;
  isReplay : bool;
  flags : sdkFlags;
  started : bool;
  cancelHandler : bool;
  signalHandler : bool;
  completed : option (option Payloads * option goError);
  nextCallback : nat;
  deliveries : list delivery;
}.

Abbreviation Env := (Go workflowEnvironmentImpl).

(** ** Field updates *)

Definition set_currentRunID (v : string) (i : WorkflowInfo) : WorkflowInfo :=
  mkWorkflowInfo (TaskQueueName i) v (SearchAttributes i) (Memo i) (currentHistoryLength i)
    (currentHistorySize i) (continueAsNewSuggested i) (continueAsNewSuggestedReasons i)
    (targetWorkerDeploymentVersionChanged i).
Definition set_SearchAttributes (v : option IndexedFields) (i : WorkflowInfo) : WorkflowInfo :=
  mkWorkflowInfo (TaskQueueName i) (currentRunID i) v (Memo i) (currentHistoryLength i)
    (currentHistorySize i) (continueAsNewSuggested i) (continueAsNewSuggestedReasons i)
    (targetWorkerDeploymentVersionChanged i).
Definition set_Memo (v : option (gmap string Payload)) (i : WorkflowInfo) : WorkflowInfo :=
  mkWorkflowInfo (TaskQueueName i) (currentRunID i) (SearchAttributes i) v
    (currentHistoryLength i) (currentHistorySize i) (continueAsNewSuggested i)
    (continueAsNewSuggestedReasons i) (targetWorkerDeploymentVersionChanged i).
Definition set_currentHistoryLength (v : Z) (i : WorkflowInfo) : WorkflowInfo :=
  mkWorkflowInfo (TaskQueueName i) (currentRunID i) (SearchAttributes i) (Memo i) v
    (currentHistorySize i) (continueAsNewSuggested i) (continueAsNewSuggestedReasons i)
    (targetWorkerDeploymentVersionChanged i).
Definition set_currentHistorySize (v : Z) (i : WorkflowInfo) : WorkflowInfo :=
  mkWorkflowInfo (TaskQueueName i) (currentRunID i) (SearchAttributes i) (Memo i)
    (currentHistoryLength i) v (continueAsNewSuggested i) (continueAsNewSuggestedReasons i)
    (targetWorkerDeploymentVersionChanged i).
Definition set_continueAsNewSuggested (v : bool) (i : WorkflowInfo) : WorkflowInfo :=
  mkWorkflowInfo (TaskQueueName i) (currentRunID i) (SearchAttributes i) (Memo i)
    (currentHistoryLength i) (currentHistorySize i) v (continueAsNewSuggestedReasons i)
    (targetWorkerDeploymentVersionChanged i).
Definition set_continueAsNewSuggestedReasons (v : list Z) (i : WorkflowInfo) : WorkflowInfo :=
  mkWorkflowInfo (TaskQueueName i) (currentRunID i) (SearchAttributes i) (Memo i)
    (currentHistoryLength i) (currentHistorySize i) (continueAsNewSuggested i) v
    (targetWorkerDeploymentVersionChanged i).
Definition set_targetWorkerDeploymentVersionChanged (v : bool) (i : WorkflowInfo) : WorkflowInfo :=
  mkWorkflowInfo (TaskQueueName i) (currentRunID i) (SearchAttributes i) (Memo i)
    (currentHistoryLength i) (currentHistorySize i) (continueAsNewSuggested i)
    (continueAsNewSuggestedReasons i) v.
Definition set_workflowInfo (v : WorkflowInfo) (e : workflowEnvironmentImpl) : workflowEnvironmentImpl :=
  mkEnvironment v (helper e) (sideEffectResult e) (changeVersions e) (pendingLaTasks e)
    (unstartedLaTasks e) (completedLaAttemptsThisWFT e) (mutableSideEffect e)
    (mutableSideEffectsRecorded e) (mutableSideEffectCallCounter e) (localActivityCounterID e)
    (sideEffectCounterID e) (randoms e) (openSessions e) (currentReplayTime e)
    (currentLocalTime e) (clock e) (isReplay e) (flags e) (started e) (cancelHandler e)
    (signalHandler e) (completed e) (nextCallback e) (deliveries e).
Definition set_helper (v : commandsHelper) (e : workflowEnvironmentImpl) : workflowEnvironmentImpl :=
  mkEnvironment (workflowInfo e) v (sideEffectResult e) (changeVersions e) (pendingLaTasks e)
    (unstartedLaTasks e) (completedLaAttemptsThisWFT e) (mutableSideEffect e)
    (mutableSideEffectsRecorded e) (mutableSideEffectCallCounter e) (localActivityCounterID e)
    (sideEffectCounterID e) (randoms e) (openSessions e) (currentReplayTime e)
    (currentLocalTime e) (clock e) (isReplay e) (flags e) (started e) (cancelHandler e)
    (signalHandler e) (completed e) (nextCallback e) (deliveries e).
Definition set_sideEffectResult (v : gmap Z (option Payloads)) (e : workflowEnvironmentImpl) : workflowEnvironmentImpl :=
  mkEnvironment (workflowInfo e) (helper e) v (changeVersions e) (pendingLaTasks e)
    (unstartedLaTasks e) (completedLaAttemptsThisWFT e) (mutableSideEffect e)
    (mutableSideEffectsRecorded e) (mutableSideEffectCallCounter e) (localActivityCounterID e)
    (sideEffectCounterID e) (randoms e) (openSessions e) (currentReplayTime e)
    (currentLocalTime e) (clock e) (isReplay e) (flags e) (started e) (cancelHandler e)
    (signalHandler e) (completed e) (nextCallback e) (deliveries e).
Definition set_changeVersions (v : gmap string Z) (e : workflowEnvironmentImpl) : workflowEnvironmentImpl :=
  mkEnvironment (workflowInfo e) (helper e) (sideEffectResult e) v (pendingLaTasks e)
    (unstartedLaTasks e) (completedLaAttemptsThisWFT e) (mutableSideEffect e)
    (mutableSideEffectsRecorded e) (mutableSideEffectCallCounter e) (localActivityCounterID e)
    (sideEffectCounterID e) (randoms e) (openSessions e) (currentReplayTime e)
    (currentLocalTime e) (clock e) (isReplay e) (flags e) (started e) (cancelHandler e)
    (signalHandler e) (completed e) (nextCallback e) (deliveries e).
Definition set_pendingLaTasks (v : gmap string localActivityTask) (e : workflowEnvironmentImpl) : workflowEnvironmentImpl :=
  mkEnvironment (workflowInfo e) (helper e) (sideEffectResult e) (changeVersions e) v
    (unstartedLaTasks e) (completedLaAttemptsThisWFT e) (mutableSideEffect e)
    (mutableSideEffectsRecorded e) (mutableSideEffectCallCounter e) (localActivityCounterID e)
    (sideEffectCounterID e) (randoms e) (openSessions e) (currentReplayTime e)
    (currentLocalTime e) (clock e) (isReplay e) (flags e) (started e) (cancelHandler e)
    (signalHandler e) (completed e) (nextCallback e) (deliveries e).
Definition set_unstartedLaTasks (v : gset string) (e : workflowEnvironmentImpl) : workflowEnvironmentImpl :=
  mkEnvironment (workflowInfo e) (helper e) (sideEffectResult e) (changeVersions e)
    (pendingLaTasks e) v (completedLaAttemptsThisWFT e) (mutableSideEffect e)
    (mutableSideEffectsRecorded e) (mutableSideEffectCallCounter e) (localActivityCounterID e)
    (sideEffectCounterID e) (randoms e) (openSessions e) (currentReplayTime e)
    (currentLocalTime e) (clock e) (isReplay e) (flags e) (started e) (cancelHandler e)
    (signalHandler e) (completed e) (nextCallback e) (deliveries e).
Definition set_completedLaAttemptsThisWFT (v : Z) (e : workflowEnvironmentImpl) : workflowEnvironmentImpl :=
  mkEnvironment (workflowInfo e) (helper e) (sideEffectResult e) (changeVersions e)
    (pendingLaTasks e) (unstartedLaTasks e) v (mutableSideEffect e) (mutableSideEffectsRecorded e)
    (mutableSideEffectCallCounter e) (localActivityCounterID e) (sideEffectCounterID e)
    (randoms e) (openSessions e) (currentReplayTime e) (currentLocalTime e) (clock e) (isReplay e)
    (flags e) (started e) (cancelHandler e) (signalHandler e) (completed e) (nextCallback e)
    (deliveries e).
Definition set_mutableSideEffect (v : gmap string (gmap Z (option Payloads))) (e : workflowEnvironmentImpl) : workflowEnvironmentImpl :=
  mkEnvironment (workflowInfo e) (helper e) (sideEffectResult e) (changeVersions e)
    (pendingLaTasks e) (unstartedLaTasks e) (completedLaAttemptsThisWFT e) v
    (mutableSideEffectsRecorded e) (mutableSideEffectCallCounter e) (localActivityCounterID e)
    (sideEffectCounterID e) (randoms e) (openSessions e) (currentReplayTime e)
    (currentLocalTime e) (clock e) (isReplay e) (flags e) (started e) (cancelHandler e)
    (signalHandler e) (completed e) (nextCallback e) (deliveries e).
Definition set_mutableSideEffectsRecorded (v : gset string) (e : workflowEnvironmentImpl) : workflowEnvironmentImpl :=
  mkEnvironment (workflowInfo e) (helper e) (sideEffectResult e) (changeVersions e)
    (pendingLaTasks e) (unstartedLaTasks e) (completedLaAttemptsThisWFT e) (mutableSideEffect e) v
    (mutableSideEffectCallCounter e) (localActivityCounterID e) (sideEffectCounterID e)
    (randoms e) (openSessions e) (currentReplayTime e) (currentLocalTime e) (clock e) (isReplay e)
    (flags e) (started e) (cancelHandler e) (signalHandler e) (completed e) (nextCallback e)
    (deliveries e).
Definition set_mutableSideEffectCallCounter (v : gmap string Z) (e : workflowEnvironmentImpl) : workflowEnvironmentImpl :=
  mkEnvironment (workflowInfo e) (helper e) (sideEffectResult e) (changeVersions e)
    (pendingLaTasks e) (unstartedLaTasks e) (completedLaAttemptsThisWFT e) (mutableSideEffect e)
    (mutableSideEffectsRecorded e) v (localActivityCounterID e) (sideEffectCounterID e)
    (randoms e) (openSessions e) (currentReplayTime e) (currentLocalTime e) (clock e) (isReplay e)
    (flags e) (started e) (cancelHandler e) (signalHandler e) (completed e) (nextCallback e)
    (deliveries e).
Definition set_localActivityCounterID (v : Z) (e : workflowEnvironmentImpl) : workflowEnvironmentImpl :=
  mkEnvironment (workflowInfo e) (helper e) (sideEffectResult e) (changeVersions e)
    (pendingLaTasks e) (unstartedLaTasks e) (completedLaAttemptsThisWFT e) (mutableSideEffect e)
    (mutableSideEffectsRecorded e) (mutableSideEffectCallCounter e) v (sideEffectCounterID e)
    (randoms e) (openSessions e) (currentReplayTime e) (currentLocalTime e) (clock e) (isReplay e)
    (flags e) (started e) (cancelHandler e) (signalHandler e) (completed e) (nextCallback e)
    (deliveries e).
Definition set_sideEffectCounterID (v : Z) (e : workflowEnvironmentImpl) : workflowEnvironmentImpl :=
  mkEnvironment (workflowInfo e) (helper e) (sideEffectResult e) (changeVersions e)
    (pendingLaTasks e) (unstartedLaTasks e) (completedLaAttemptsThisWFT e) (mutableSideEffect e)
    (mutableSideEffectsRecorded e) (mutableSideEffectCallCounter e) (localActivityCounterID e) v
    (randoms e) (openSessions e) (currentReplayTime e) (currentLocalTime e) (clock e) (isReplay e)
    (flags e) (started e) (cancelHandler e) (signalHandler e) (completed e) (nextCallback e)
    (deliveries e).
Definition set_randoms (v : gmap string randomStream) (e : workflowEnvironmentImpl) : workflowEnvironmentImpl :=
  mkEnvironment (workflowInfo e) (helper e) (sideEffectResult e) (changeVersions e)
    (pendingLaTasks e) (unstartedLaTasks e) (completedLaAttemptsThisWFT e) (mutableSideEffect e)
    (mutableSideEffectsRecorded e) (mutableSideEffectCallCounter e) (localActivityCounterID e)
    (sideEffectCounterID e) v (openSessions e) (currentReplayTime e) (currentLocalTime e)
    (clock e) (isReplay e) (flags e) (started e) (cancelHandler e) (signalHandler e) (completed e)
    (nextCallback e) (deliveries e).
Definition set_openSessions (v : gmap string SessionInfo) (e : workflowEnvironmentImpl) : workflowEnvironmentImpl :=
  mkEnvironment (workflowInfo e) (helper e) (sideEffectResult e) (changeVersions e)
    (pendingLaTasks e) (unstartedLaTasks e) (completedLaAttemptsThisWFT e) (mutableSideEffect e)
    (mutableSideEffectsRecorded e) (mutableSideEffectCallCounter e) (localActivityCounterID e)
    (sideEffectCounterID e) (randoms e) v (currentReplayTime e) (currentLocalTime e) (clock e)
    (isReplay e) (flags e) (started e) (cancelHandler e) (signalHandler e) (completed e)
    (nextCallback e) (deliveries e).
Definition set_currentReplayTime (v : Z) (e : workflowEnvironmentImpl) : workflowEnvironmentImpl :=
  mkEnvironment (workflowInfo e) (helper e) (sideEffectResult e) (changeVersions e)
    (pendingLaTasks e) (unstartedLaTasks e) (completedLaAttemptsThisWFT e) (mutableSideEffect e)
    (mutableSideEffectsRecorded e) (mutableSideEffectCallCounter e) (localActivityCounterID e)
    (sideEffectCounterID e) (randoms e) (openSessions e) v (currentLocalTime e) (clock e)
    (isReplay e) (flags e) (started e) (cancelHandler e) (signalHandler e) (completed e)
    (nextCallback e) (deliveries e).
Definition set_currentLocalTime (v : Z) (e : workflowEnvironmentImpl) : workflowEnvironmentImpl :=
  mkEnvironment (workflowInfo e) (helper e) (sideEffectResult e) (changeVersions e)
    (pendingLaTasks e) (unstartedLaTasks e) (completedLaAttemptsThisWFT e) (mutableSideEffect e)
    (mutableSideEffectsRecorded e) (mutableSideEffectCallCounter e) (localActivityCounterID e)
    (sideEffectCounterID e) (randoms e) (openSessions e) (currentReplayTime e) v (clock e)
    (isReplay e) (flags e) (started e) (cancelHandler e) (signalHandler e) (completed e)
    (nextCallback e) (deliveries e).
Definition set_clock (v : Z) (e : workflowEnvironmentImpl) : workflowEnvironmentImpl :=
  mkEnvironment (workflowInfo e) (helper e) (sideEffectResult e) (changeVersions e)
    (pendingLaTasks e) (unstartedLaTasks e) (completedLaAttemptsThisWFT e) (mutableSideEffect e)
    (mutableSideEffectsRecorded e) (mutableSideEffectCallCounter e) (localActivityCounterID e)
    (sideEffectCounterID e) (randoms e) (openSessions e) (currentReplayTime e)
    (currentLocalTime e) v (isReplay e) (flags e) (started e) (cancelHandler e) (signalHandler e)
    (completed e) (nextCallback e) (deliveries e).
Definition set_isReplay (v : bool) (e : workflowEnvironmentImpl) : workflowEnvironmentImpl :=
  mkEnvironment (workflowInfo e) (helper e) (sideEffectResult e) (changeVersions e)
    (pendingLaTasks e) (unstartedLaTasks e) (completedLaAttemptsThisWFT e) (mutableSideEffect e)
    (mutableSideEffectsRecorded e) (mutableSideEffectCallCounter e) (localActivityCounterID e)
    (sideEffectCounterID e) (randoms e) (openSessions e) (currentReplayTime e)
    (currentLocalTime e) (clock e) v (flags e) (started e) (cancelHandler e) (signalHandler e)
    (completed e) (nextCallback e) (deliveries e).
Definition set_flags (v : sdkFlags) (e : workflowEnvironmentImpl) : workflowEnvironmentImpl :=
  mkEnvironment (workflowInfo e) (helper e) (sideEffectResult e) (changeVersions e)
    (pendingLaTasks e) (unstartedLaTasks e) (completedLaAttemptsThisWFT e) (mutableSideEffect e)
    (mutableSideEffectsRecorded e) (mutableSideEffectCallCounter e) (localActivityCounterID e)
    (sideEffectCounterID e) (randoms e) (openSessions e) (currentReplayTime e)
    (currentLocalTime e) (clock e) (isReplay e) v (started e) (cancelHandler e) (signalHandler e)
    (completed e) (nextCallback e) (deliveries e).
Definition set_started (v : bool) (e : workflowEnvironmentImpl) : workflowEnvironmentImpl :=
  mkEnvironment (workflowInfo e) (helper e) (sideEffectResult e) (changeVersions e)
    (pendingLaTasks e) (unstartedLaTasks e) (completedLaAttemptsThisWFT e) (mutableSideEffect e)
    (mutableSideEffectsRecorded e) (mutableSideEffectCallCounter e) (localActivityCounterID e)
    (sideEffectCounterID e) (randoms e) (openSessions e) (currentReplayTime e)
    (currentLocalTime e) (clock e) (isReplay e) (flags e) v (cancelHandler e) (signalHandler e)
    (completed e) (nextCallback e) (deliveries e).
Definition set_cancelHandler (v : bool) (e : workflowEnvironmentImpl) : workflowEnvironmentImpl :=
  mkEnvironment (workflowInfo e) (helper e) (sideEffectResult e) (changeVersions e)
    (pendingLaTasks e) (unstartedLaTasks e) (completedLaAttemptsThisWFT e) (mutableSideEffect e)
    (mutableSideEffectsRecorded e) (mutableSideEffectCallCounter e) (localActivityCounterID e)
    (sideEffectCounterID e) (randoms e) (openSessions e) (currentReplayTime e)
    (currentLocalTime e) (clock e) (isReplay e) (flags e) (started e) v (signalHandler e)
    (completed e) (nextCallback e) (deliveries e).
Definition set_signalHandler (v : bool) (e : workflowEnvironmentImpl) : workflowEnvironmentImpl :=
  mkEnvironment (workflowInfo e) (helper e) (sideEffectResult e) (changeVersions e)
    (pendingLaTasks e) (unstartedLaTasks e) (completedLaAttemptsThisWFT e) (mutableSideEffect e)
    (mutableSideEffectsRecorded e) (mutableSideEffectCallCounter e) (localActivityCounterID e)
    (sideEffectCounterID e) (randoms e) (openSessions e) (currentReplayTime e)
    (currentLocalTime e) (clock e) (isReplay e) (flags e) (started e) (cancelHandler e) v
    (completed e) (nextCallback e) (deliveries e).
Definition set_completed (v : option (option Payloads * option goError)) (e : workflowEnvironmentImpl) : workflowEnvironmentImpl :=
  mkEnvironment (workflowInfo e) (helper e) (sideEffectResult e) (changeVersions e)
    (pendingLaTasks e) (unstartedLaTasks e) (completedLaAttemptsThisWFT e) (mutableSideEffect e)
    (mutableSideEffectsRecorded e) (mutableSideEffectCallCounter e) (localActivityCounterID e)
    (sideEffectCounterID e) (randoms e) (openSessions e) (currentReplayTime e)
    (currentLocalTime e) (clock e) (isReplay e) (flags e) (started e) (cancelHandler e)
    (signalHandler e) v (nextCallback e) (deliveries e).
Definition set_nextCallback (v : nat) (e : workflowEnvironmentImpl) : workflowEnvironmentImpl :=
  mkEnvironment (workflowInfo e) (helper e) (sideEffectResult e) (changeVersions e)
    (pendingLaTasks e) (unstartedLaTasks e) (completedLaAttemptsThisWFT e) (mutableSideEffect e)
    (mutableSideEffectsRecorded e) (mutableSideEffectCallCounter e) (localActivityCounterID e)
    (sideEffectCounterID e) (randoms e) (openSessions e) (currentReplayTime e)
    (currentLocalTime e) (clock e) (isReplay e) (flags e) (started e) (cancelHandler e)
    (signalHandler e) (completed e) v (deliveries e).
Definition set_deliveries (v : list delivery) (e : workflowEnvironmentImpl) : workflowEnvironmentImpl :=
  mkEnvironment (workflowInfo e) (helper e) (sideEffectResult e) (changeVersions e)
    (pendingLaTasks e) (unstartedLaTasks e) (completedLaAttemptsThisWFT e) (mutableSideEffect e)
    (mutableSideEffectsRecorded e) (mutableSideEffectCallCounter e) (localActivityCounterID e)
    (sideEffectCounterID e) (randoms e) (openSessions e) (currentReplayTime e)
    (currentLocalTime e) (clock e) (isReplay e) (flags e) (started e) (cancelHandler e)
    (signalHandler e) (completed e) (nextCallback e) v.

(** [time.Time{}], in nanoseconds since the Unix epoch. *)
Definition zeroTime : Z := -62135596800000000000.

Definition newEnvironment (taskQueue runID : string) (capabilities : bool) (now : Z)
    : workflowEnvironmentImpl :=
  mkEnvironment (mkWorkflowInfo taskQueue runID None None 0 0 false [] false)
    newCommandsHelper ∅ ∅ ∅ ∅ 0 ∅ ∅ ∅ 0 0 ∅ ∅ zeroTime zeroTime now false
    (newSDKFlagSet capabilities) false false false None 0 [].

(** ** Plumbing *)

(** A call on [wc.commandsHelper]. *)
Definition onHelper {A} (m : M A) : Env A := λ e,
  let '(o, h) := m (helper e) in (o, set_helper h e).

Definition invoke (callback : nat) (args : callbackArgs) : Env unit :=
  modify (λ e, set_deliveries (deliveries e ++ [mkDelivery callback args]) e).

(** A closure that workflow code creates. *)
Definition newClosure : Env nat :=
  e ← get;
  _ ← modify (set_nextCallback (S (nextCallback e)));
  mret (nextCallback e).

Definition interfaceConversion {A} : Env A := panic (runtimeError "interface conversion").
Definition nilDereference {A} : Env A :=
  panic (runtimeError "invalid memory address or nil pointer dereference").

(** [errors.New] and [fmt.Errorf]. *)
Definition newError (text : string) : goError := otherError "*errorString" text None.

(** [%q], for text without characters to escape. *)
Definition quoted (s : string) : string :=
  (String (Ascii.ascii_of_nat 34) s +:+ String (Ascii.ascii_of_nat 34) "")%string.

Definition ErrCanceled : goError := NewCanceledError [].

(** [if s.handled { panic }; s.handled = true; s.callback(result, err)] for
    each kind of scheduled command. *)
Definition handle (d : ref) (result : option Payloads) (err : option goError) : Env unit :=
  data ← onHelper (getData d);
  match data with
  | Some (scheduledTimer cb handled) =>
      if handled : bool then panic (panicString "timer already handled")
      else
        _ ← onHelper (setData d (Some (scheduledTimer cb true)));
        invoke cb (resultArgs result err)
  | Some (scheduledActivity cb w handled ty fc) =>
      if handled : bool then panic (panicString "activity already handled")
      else
        _ ← onHelper (setData d (Some (scheduledActivity cb w true ty fc)));
        invoke cb (resultArgs result err)
  | Some (scheduledChildWorkflow cb scb w handled fc) =>
      if handled : bool then panic (panicString "child workflow already handled")
      else
        _ ← onHelper (setData d (Some (scheduledChildWorkflow cb scb w true fc)));
        invoke cb (resultArgs result err)
  | Some (scheduledCancellation cb handled) =>
      if handled : bool then panic (panicString "cancellation already handled")
      else
        _ ← onHelper (setData d (Some (scheduledCancellation cb true)));
        invoke cb (resultArgs result err)
  | Some (scheduledSignal cb handled) =>
      if handled : bool then panic (panicString "signal already handled")
      else
        _ ← onHelper (setData d (Some (scheduledSignal cb true)));
        invoke cb (resultArgs result err)
  | _ => interfaceConversion
  end.

(** The Nexus callbacks: run and cleared, when still set. *)
Definition runStarted (d : ref) (token : string) (err : option goError) : Env unit :=
  data ← onHelper (getData d);
  match data with
  | Some (scheduledNexusOperation (Some cb) ccb ty ep sv op fc) =>
      _ ← invoke cb (tokenArgs token err);
      onHelper (setData d (Some (scheduledNexusOperation None ccb ty ep sv op fc)))
  | Some (scheduledNexusOperation None _ _ _ _ _ _) => mret tt
  | _ => interfaceConversion
  end.

Definition runCompleted (d : ref) (result : option Payload) (err : option goError) : Env unit :=
  data ← onHelper (getData d);
  match data with
  | Some (scheduledNexusOperation scb (Some cb) ty ep sv op fc) =>
      _ ← invoke cb (payloadArgs result err);
      onHelper (setData d (Some (scheduledNexusOperation scb None ty ep sv op fc)))
  | Some (scheduledNexusOperation _ None _ _ _ _ _) => mret tt
  | _ => interfaceConversion
  end.

Definition getNextLocalActivityID : Env string :=
  _ ← modify (λ e, set_localActivityCounterID (localActivityCounterID e + 1) e);
  e ← get;
  mret (FormatInt (localActivityCounterID e)).

Definition getNextSideEffectID : Env Z :=
  _ ← modify (λ e, set_sideEffectCounterID (sideEffectCounterID e + 1) e);
  e ← get;
  mret (sideEffectCounterID e).

Definition GenerateSequence : Env Z := onHelper getNextID.
Definition GenerateSequenceID : Env string := i ← GenerateSequence; mret (FormatInt i).

Definition Complete (result : option Payloads) (err : option goError) : Env unit :=
  modify (set_completed (Some (result, err))).

Definition RegisterCancelHandler : Env unit := modify (set_cancelHandler true).
Definition RegisterSignalHandler : Env unit := modify (set_signalHandler true).

Definition AddSession (s : SessionInfo) : Env unit :=
  modify (λ e, set_openSessions (<[SessionID s := s]> (openSessions e)) e).
Definition RemoveSession (id : string) : Env unit :=
  modify (λ e, set_openSessions (delete id (openSessions e)) e).

Definition SetCurrentReplayTime (replayTime : Z) : Env unit :=
  e ← get;
  if decide (replayTime < currentReplayTime e) then mret tt
  else modify (λ e, set_currentLocalTime (clock e) (set_currentReplayTime replayTime e)).

(** ** Random streams ([src/internal/workflow_random.go]) *)

Definition getRandomStream (name : string) : Env randomStream :=
  e ← get;
  match randoms e !! name with
  | Some r => mret r
  | None =>
      let r := mkRandomStream (currentRunID (workflowInfo e)) name 0 in
      _ ← modify (λ e, set_randoms (<[name := r]> (randoms e)) e);
      mret r
  end.

(** Seeds every stream again, in place. *)
Definition reseedRandoms (newRunID : string) : Env unit :=
  modify (λ e, set_randoms ((λ r, mkRandomStream newRunID (seed_name r) 0) <$> randoms e) e).

(** ** Merging visibility data *)

(** Assigning to a field of a nil message dereferences nil; a nil [upsert]
    message is read through its fields too. *)
Definition mergeSearchAttributes (current upsert : option IndexedFields)
    : outcome (option IndexedFields) :=
  let empty (o : option IndexedFields) := bool_decide (default ∅ o = ∅) in
  if empty current && empty upsert then Returned None
  else
    match upsert with
    | Some fields => Returned (Some (fields ∪ default ∅ current))
    | None => Panicked (runtimeError "invalid memory address or nil pointer dereference")
    end.

(** A memo field without data is deleted. *)
Definition mergeMemo (current upsert : option (gmap string Payload))
    : outcome (option (gmap string Payload)) :=
  let empty (o : option (gmap string Payload)) := bool_decide (default ∅ o = ∅) in
  if empty current && empty upsert then Returned None
  else
    match upsert with
    | Some fields =>
        let set := filter (λ kv, Payload_Data kv.2 ≠ "") fields in
        Returned (Some (set ∪ (default ∅ current ∖ fields)))
    | None => Panicked (runtimeError "invalid memory address or nil pointer dereference")
    end.

Definition updateWorkflowInfoWithSearchAttributes (attributes : option IndexedFields) : Env unit :=
  e ← get;
  merged ← lift (mergeSearchAttributes (SearchAttributes (workflowInfo e)) attributes);
  modify (λ e, set_workflowInfo (set_SearchAttributes merged (workflowInfo e)) e).

Definition updateWorkflowInfoWithMemo (memo : option (gmap string Payload)) : Env unit :=
  e ← get;
  merged ← lift (mergeMemo (Memo (workflowInfo e)) memo);
  modify (λ e, set_workflowInfo (set_Memo merged (workflowInfo e)) e).

(** [determineInheritBuildIdFlagForCommand] of [worker_version_sets.go]. *)
Definition determineInheritBuildIdFlagForCommand (intent : VersioningIntent)
    (workerTq targetTq : string) : bool :=
  match intent with
  | VersioningIntentDefault | VersioningIntentUseAssignmentRules => false
  | VersioningIntentUnspecified => negb (bool_decide (targetTq ≠ "") && bool_decide (workerTq ≠ targetTq))
  | _ => true
  end.

(** ** Serialization of search attributes and memos *)

(** A value of an untyped search attribute map. *)
Inductive searchValue : Type :=
| searchPayload (p : Payload)
| searchAny (v : goValue).

(** A typed search attribute: name, value type and value. *)
Record typedSearchAttribute : Type := mkTypedSearchAttribute {
  tsa_Name : string;
  tsa_ValueType : string;
  tsa_Value : goValue;
}.

Definition MetadataEncoding : string := "encoding".
Definition MetadataEncodingNil : string := "binary/null".

Definition changeVersionSearchAttrSizeLimit : Z := 2048.
Definition DefaultVersion : Z := -1.

Definition NexusOperationCancellationTypeTryCancel : Z := 2.
Definition NexusOperationCancellationTypeWaitRequested : Z := 3.

Definition localActivityMarkerDataName : string := "data".
Definition localActivityResultName : string := "result".

(** The fields of the parameter structs that the environment reads; [None] is
    a nil converter. *)
Record ExecuteActivityParams : Type := mkExecuteActivityParams {
  eap_ScheduleID : Z;
  eap_ActivityID : string;
  eap_ActivityType : string;
  eap_TaskQueueName : string;
  eap_Input : option Payloads;
  eap_Timeouts : activityTimeouts;
  eap_WaitForCancellation : bool;
  eap_RetryPolicy : option opaqueMessage;
  eap_DisableEagerExecution : bool;
  eap_VersioningIntent : VersioningIntent;
  eap_Summary : string;
  eap_Priority : option opaqueMessage;
  eap_FailureConverter : option nat;
  eap_Header : gmap string Payload;
  eap_EventGroupMarkers : list EventGroupMarker;
}.

Record ExecuteWorkflowParams : Type := mkExecuteWorkflowParams {
  ewp_Namespace : string;
  ewp_WorkflowID : string;
  ewp_WorkflowType : string;
  ewp_TaskQueueName : string;
  ewp_Input : option Payloads;
  ewp_WorkflowExecutionTimeout : Z;
  ewp_WorkflowRunTimeout : Z;
  ewp_WorkflowTaskTimeout : Z;
  ewp_WaitForCancellation : bool;
  ewp_WorkflowIDReusePolicy : Z;
  ewp_ParentClosePolicy : Z;
  ewp_RetryPolicy : option opaqueMessage;
  ewp_Priority : option opaqueMessage;
  ewp_Header : gmap string Payload;
  ewp_Memo : option (gmap string goValue);
  ewp_SearchAttributes : option (gmap string searchValue);
  ewp_TypedSearchAttributes : list typedSearchAttribute;
  ewp_VersioningOverride : option opaqueMessage;
  ewp_VersioningIntent : VersioningIntent;
  ewp_CronSchedule : string;
  ewp_StaticSummary : string;
  ewp_StaticDetails : string;
  ewp_FailureConverter : option nat;
  ewp_EventGroupMarkers : list EventGroupMarker;
}.

Record ExecuteNexusOperationParams : Type := mkExecuteNexusOperationParams {
  enp_Endpoint : string;
  enp_Service : string;
  enp_Operation : string;
  enp_Input : option Payload;
  enp_ScheduleToCloseTimeout : Z;
  enp_ScheduleToStartTimeout : Z;
  enp_StartToCloseTimeout : Z;
  enp_CancellationType : Z;
  enp_Summary : string;
  enp_NexusHeader : gmap string string;
  enp_FailureConverter : option nat;
  enp_EventGroupMarkers : list EventGroupMarker;
}.

(** [PreferredVersion] of the user's [PreferredVersionProvider]. *)
Record PreferredVersion : Type := mkPreferredVersion {
  pv_Version : Z;
  pv_ClampToSupportedRange : bool;
}.

Section Environment.
  (** The value of [sdkFlagsAllowed]. *)
  Variable allowed : gmap sdkFlag bool.
  (** The data converter of the workflow, and [converter.GetDefaultDataConverter]. *)
  Variables dc defaultDC : DataConverter.
  (** The identifier of the environment's failure converter. *)
  Variable envFailureConverter : nat.
  (** The provider the worker is configured with, nil or a function that may
      return nil. *)
  Variable preferredVersionProvider :
    option (WorkflowInfo → string → Z → Z → option PreferredVersion).
  (** The order in which [range] visits the map of versions. *)
  Variable rangeVersions : gmap string Z → list (string * Z).

Definition TryUse (flag : sdkFlag) : Env bool := λ e,
  let '(b, sf) := tryUse allowed flag (negb (isReplay e)) (flags e) in
  (Returned b, set_flags sf e).

(** The loop over the map stops at the first error. *)
Fixpoint serializeSearchValues (l : list (string * searchValue)) : string + IndexedFields :=
  match l with
  | [] => inr ∅
  | (k, v) :: l' =>
      p ← match v with
          | searchPayload p => inr p
          | searchAny v =>
              match ToPayload defaultDC v with
              | inr p => inr p
              | inl err => inl ("encode search attribute [" +:+ k +:+ "] error: " +:+ err)%string
              end
          end;
      fields ← serializeSearchValues l';
      inr (<[k := p]> fields)
  end.

Definition serializeUntypedSearchAttributes (input : option (gmap string searchValue))
    : string + option IndexedFields :=
  match input with
  | None => inr None
  | Some input => fields ← serializeSearchValues (map_to_list input); inr (Some fields)
  end.

(** The server does not remove a search attribute that sets a type. *)
Definition withValueType (ty : string) (p : Payload) : Payload :=
  if decide (Payload_Data p = "") then p
  else mkPayload (<["type" := ty]> (Payload_Metadata p)) (Payload_Data p).

Fixpoint serializeTypedSearchAttributes (l : list typedSearchAttribute) : string + IndexedFields :=
  match l with
  | [] => inr ∅
  | a :: l' =>
      match ToPayload defaultDC (tsa_Value a) with
      | inl err =>
          inl ("encode search attribute [" +:+ tsa_Name a +:+ "] error: " +:+ err)%string
      | inr p =>
          fields ← serializeTypedSearchAttributes l';
          inr (<[tsa_Name a := withValueType (tsa_ValueType a) p]> fields)
      end
  end.

Definition sanitizeSearchAttributesForStart (attributes : option IndexedFields)
    : option IndexedFields :=
  filter (λ kv, Payload_Metadata kv.2 !! MetadataEncoding ≠ Some MetadataEncodingNil) <$> attributes.

Definition SerializeSearchAttributes (untyped : option (gmap string searchValue))
    (typed : list typedSearchAttribute) : string + option IndexedFields :=
  match untyped, typed with
  | Some _, _ :: _ => inl "cannot specify both SearchAttributes and TypedSearchAttributes"
  | Some _, [] =>
      a ← serializeUntypedSearchAttributes untyped; inr (sanitizeSearchAttributesForStart a)
  | None, _ :: _ =>
      a ← serializeTypedSearchAttributes typed; inr (sanitizeSearchAttributesForStart (Some a))
  | None, [] => inr (sanitizeSearchAttributesForStart None)
  end.

Definition validateAndSerializeSearchAttributes (attributes : gmap string searchValue)
    : string + option IndexedFields :=
  if decide (attributes = ∅) then inl "search attributes is empty"
  else serializeUntypedSearchAttributes (Some attributes).

(** The user's converter first, then the default one. *)
Definition encodeMemoValue (value : goValue) (useUserDC : bool) : string + Payload :=
  if useUserDC then
    match ToPayload dc value with
    | inr p => inr p
    | inl dcErr => match ToPayload defaultDC value with inr p => inr p | inl _ => inl dcErr end
    end
  else ToPayload defaultDC value.

Fixpoint encodeMemoFields (useUserDC : bool) (l : list (string * goValue))
    : string + gmap string Payload :=
  match l with
  | [] => inr ∅
  | (k, v) :: l' =>
      match encodeMemoValue v useUserDC with
      | inl err => inl ("encode workflow memo error: " +:+ err)%string
      | inr p => fields ← encodeMemoFields useUserDC l'; inr (<[k := p]> fields)
      end
  end.

Definition GetWorkflowMemo (input : option (gmap string goValue)) (useUserDC : bool)
    : string + option (gmap string Payload) :=
  match input with
  | None => inr None
  | Some input => fields ← encodeMemoFields useUserDC (map_to_list input); inr (Some fields)
  end.

Definition validateAndSerializeMemo (memoMap : gmap string goValue) (useUserDC : bool)
    : string + option (gmap string Payload) :=
  if decide (memoMap = ∅) then inl "memo is empty" else GetWorkflowMemo (Some memoMap) useUserDC.

(** ** Upserts *)

(** The identifier of a version upsert is its first version. *)
Definition UpsertSearchAttributes (attributes : gmap string searchValue)
    (eventGroupMarkers : list EventGroupMarker) : Env (option goError) :=
  match validateAndSerializeSearchAttributes attributes with
  | inl err => mret (Some (newError err))
  | inr attr =>
      upsertID ← match attributes !! TemporalChangeVersion with
                 | Some (searchAny (goStrings (v :: _))) => mret v
                 | Some (searchAny (goStrings [])) => panic (runtimeError "index out of range")
                 | Some _ => interfaceConversion
                 | None => GenerateSequenceID
                 end;
      _ ← onHelper (upsertSearchAttributes upsertID attr eventGroupMarkers);
      _ ← updateWorkflowInfoWithSearchAttributes attr;
      mret None
  end.

Definition UpsertTypedSearchAttributes (attributes : list typedSearchAttribute)
    (eventGroupMarkers : list EventGroupMarker) : Env (option goError) :=
  match serializeTypedSearchAttributes attributes with
  | inl err => mret (Some (newError err))
  | inr raw =>
      if decide (is_Some (raw !! TemporalChangeVersion)) then
        mret (Some (newError
          "TemporalChangeVersion is a reserved key that cannot be set, please use other key"))
      else UpsertSearchAttributes (searchPayload <$> raw) eventGroupMarkers
  end.

Definition UpsertMemo (memoMap : gmap string goValue) (eventGroupMarkers : list EventGroupMarker)
    : Env (option goError) :=
  useUserDC ← TryUse SDKFlagMemoUserDCEncode;
  match validateAndSerializeMemo memoMap useUserDC with
  | inl err => mret (Some (newError err))
  | inr memo =>
      changeID ← GenerateSequenceID;
      _ ← onHelper (modifyProperties changeID memo eventGroupMarkers);
      _ ← updateWorkflowInfoWithMemo memo;
      mret None
  end.

(** ** Activities and timers *)

Definition ExecuteActivity (parameters : ExecuteActivityParams) (callback : nat) : Env string :=
  scheduleID ← (if decide (eap_ScheduleID parameters = 0) then GenerateSequence
                else mret (eap_ScheduleID parameters));
  let activityID :=
    if decide (eap_ActivityID parameters = "") then FormatInt scheduleID
    else eap_ActivityID parameters in
  e ← get;
  let scheduleTaskAttr := mkScheduleActivityTask activityID (eap_ActivityType parameters)
    (eap_TaskQueueName parameters) (eap_Input parameters)
    (negb (eap_DisableEagerExecution parameters)) (eap_Timeouts parameters)
    (determineInheritBuildIdFlagForCommand (eap_VersioningIntent parameters)
       (TaskQueueName (workflowInfo e)) (eap_TaskQueueName parameters))
    (eap_Header parameters) (eap_RetryPolicy parameters) (eap_Priority parameters) in
  match BuildUserMetadata (eap_Summary parameters) "" dc with
  | inl err => _ ← invoke callback (resultArgs None (Some (newError err))); mret ""
  | inr startMetadata =>
      let fc := default envFailureConverter (eap_FailureConverter parameters) in
      command ← onHelper (scheduleActivityTask scheduleID scheduleTaskAttr startMetadata
                            (eap_EventGroupMarkers parameters));
      _ ← onHelper (setData command (Some (scheduledActivity callback
             (eap_WaitForCancellation parameters) false (eap_ActivityType parameters) fc)));
      mret activityID
  end.

Definition RequestCancelActivity (activityID : string) : Env unit :=
  command ← onHelper (requestCancelActivityTask activityID);
  data ← onHelper (getData command);
  match data with
  | Some (scheduledActivity _ waitForCancelRequest handled _ _) =>
      if handled : bool then mret tt
      else
        m ← onHelper (deref command);
        if machine_isDone m || negb waitForCancelRequest then handle command None (Some ErrCanceled)
        else mret tt
  | _ => interfaceConversion
  end.

(** [None] is a nil [TimerID]. *)
Definition NewTimer (d : Z) (summary : string) (eventGroupMarkers : list EventGroupMarker)
    (callback : nat) : Env (option string) :=
  if decide (d < 0) then
    _ ← invoke callback (resultArgs None (Some (newError "negative duration provided")));
    mret None
  else if decide (d = 0) then
    _ ← invoke callback (resultArgs None None); mret None
  else
    timerID ← GenerateSequenceID;
    command ← onHelper (startTimer (mkStartTimer timerID d) summary dc eventGroupMarkers);
    _ ← onHelper (setData command (Some (scheduledTimer callback false)));
    mret (Some timerID).

Definition RequestCancelTimer (timerID : string) : Env unit :=
  command ← onHelper (cancelTimer timerID);
  data ← onHelper (getData command);
  match data with
  | Some (scheduledTimer _ handled) =>
      if handled : bool then mret tt else handle command None (Some ErrCanceled)
  | _ => interfaceConversion
  end.

(** ** Child and external workflows *)

Definition RequestCancelChildWorkflow (namespace workflowID : string) : Env unit :=
  _ ← onHelper (requestCancelExternalWorkflowExecution namespace workflowID "" "" true []);
  mret tt.

Definition RequestCancelExternalWorkflow (namespace workflowID runID : string)
    (eventGroupMarkers : list EventGroupMarker) (callback : nat) : Env unit :=
  cancellationID ← GenerateSequenceID;
  command ← onHelper (requestCancelExternalWorkflowExecution namespace workflowID runID
                        cancellationID false eventGroupMarkers);
  onHelper (setData command (Some (scheduledCancellation callback false))).

Definition SignalExternalWorkflow (namespace workflowID runID signalName : string)
    (input : option Payloads) (header : gmap string Payload) (childWorkflowOnly : bool)
    (eventGroupMarkers : list EventGroupMarker) (callback : nat) : Env unit :=
  signalID ← GenerateSequenceID;
  command ← onHelper (signalExternalWorkflowExecution namespace workflowID runID signalName input
                        header signalID childWorkflowOnly eventGroupMarkers);
  onHelper (setData command (Some (scheduledSignal callback false))).

(** A child that cannot be started: the start is reported only when the flag
    is in use. *)
Definition reportNotStarted (callback startedHandler : nat) (err : goError) : Env unit :=
  report ← TryUse SDKFlagChildWorkflowErrorExecution;
  _ ← (if report : bool
       then invoke startedHandler (startedArgs (mkWorkflowExecution "" "")
                                     (Some ChildWorkflowExecutionAlreadyStartedError))
       else mret tt);
  invoke callback (resultArgs None (Some err)).

Definition childAttributes (params : ExecuteWorkflowParams) (workflowID taskQueue : string)
    (memo : option (gmap string Payload)) (searchAttr : option IndexedFields)
    : StartChildWorkflowExecutionCommandAttributes :=
  mkStartChildWorkflow (ewp_Namespace params) workflowID (ewp_WorkflowType params)
    (ewp_Input params) (ewp_TaskQueueName params) (ewp_WorkflowExecutionTimeout params)
    (ewp_WorkflowRunTimeout params) (ewp_WorkflowTaskTimeout params)
    (ewp_WorkflowIDReusePolicy params) (ewp_ParentClosePolicy params) (ewp_RetryPolicy params)
    (ewp_Priority params) (ewp_Header params) memo searchAttr (ewp_VersioningOverride params)
    (ewp_CronSchedule params)
    (determineInheritBuildIdFlagForCommand (ewp_VersioningIntent params) taskQueue
       (ewp_TaskQueueName params)).

Definition ExecuteChildWorkflow (params : ExecuteWorkflowParams) (callback startedHandler : nat)
    : Env unit :=
  e ← get;
  workflowID ←
    (if decide (ewp_WorkflowID params = "")
     then i ← GenerateSequenceID; mret (currentRunID (workflowInfo e) +:+ "_" +:+ i)%string
     else mret (ewp_WorkflowID params));
  useUserDC ← TryUse SDKFlagMemoUserDCEncode;
  match GetWorkflowMemo (ewp_Memo params) useUserDC with
  | inl err => reportNotStarted callback startedHandler (newError err)
  | inr memo =>
      match SerializeSearchAttributes (ewp_SearchAttributes params)
              (ewp_TypedSearchAttributes params) with
      | inl err => reportNotStarted callback startedHandler (newError err)
      | inr searchAttr =>
          let attributes := childAttributes params workflowID (TaskQueueName (workflowInfo e))
                              memo searchAttr in
          match BuildUserMetadata (ewp_StaticSummary params) (ewp_StaticDetails params) dc with
          | inl err => invoke callback (resultArgs None (Some (newError err)))
          | inr startMetadata =>
              r ← onHelper (startChildWorkflowExecution attributes startMetadata
                              (ewp_EventGroupMarkers params));
              match r with
              | inl _ =>
                  reportNotStarted callback startedHandler ChildWorkflowExecutionAlreadyStartedError
              | inr command =>
                  let fc := default envFailureConverter (ewp_FailureConverter params) in
                  onHelper (setData command (Some (scheduledChildWorkflow callback startedHandler
                    (ewp_WaitForCancellation params) false fc)))
              end
          end
      end
  end.

(** ** Nexus operations *)

Definition ExecuteNexusOperation (params : ExecuteNexusOperationParams)
    (callback startedHandler : nat) : Env Z :=
  seq ← GenerateSequence;
  let scheduleTaskAttr := mkScheduleNexusOperation (enp_Endpoint params) (enp_Service params)
    (enp_Operation params) (enp_Input params) (enp_ScheduleToCloseTimeout params)
    (enp_ScheduleToStartTimeout params) (enp_StartToCloseTimeout params)
    (enp_NexusHeader params) in
  match BuildUserMetadata (enp_Summary params) "" dc with
  | inl err => _ ← invoke callback (payloadArgs None (Some (newError err))); mret 0
  | inr startMetadata =>
      command ← onHelper (scheduleNexusOperation seq scheduleTaskAttr startMetadata
                            (enp_EventGroupMarkers params));
      let fc := default envFailureConverter (enp_FailureConverter params) in
      _ ← onHelper (setData command (Some (scheduledNexusOperation (Some startedHandler)
             (Some callback) (enp_CancellationType params) (enp_Endpoint params)
             (enp_Service params) (enp_Operation params) fc)));
      mret seq
  end.

Definition RequestCancelNexusOperation (seq : Z) : Env unit :=
  command ← onHelper (requestCancelNexusOperation seq);
  data ← onHelper (getData command);
  match data with
  | Some (scheduledNexusOperation _ _ _ _ _ _ _) =>
      s ← onHelper (getState command);
      if bool_decide (s = commandStateCreated) || bool_decide (s = commandStateCommandSent) then
        _ ← runStarted command "" (Some ErrCanceled);
        runCompleted command None (Some ErrCanceled)
      else mret tt
  | _ => interfaceConversion
  end.

Definition AbandonNexusOperation (seq : Z) : Env unit :=
  command ← onHelper (getNexusOperationCommand seq);
  data ← onHelper (getData command);
  match data with
  | Some (scheduledNexusOperation _ _ ty ep sv op fc) =>
      onHelper (setData command (Some (scheduledNexusOperation None None ty ep sv op fc)))
  | _ => interfaceConversion
  end.

(** ** Local activities *)

Definition newLocalActivityTask (params : ExecuteLocalActivityParams) (callback : nat)
    (activityID : string) (now : Z) : localActivityTask :=
  mkLocalActivityTask activityID params callback false (elap_Attempt params) 0 false
    (if decide (0 < elap_ScheduleToCloseTimeout params)
     then elap_ScheduledTime params + elap_ScheduleToCloseTimeout params else zeroTime)
    now.

Definition ExecuteLocalActivity (params : ExecuteLocalActivityParams) (callback : nat)
    : Env string :=
  activityID ← getNextLocalActivityID;
  _ ← modify (λ e,
        set_unstartedLaTasks ({[activityID]} ∪ unstartedLaTasks e)
          (set_pendingLaTasks (<[activityID := newLocalActivityTask params callback activityID
                                   (clock e)]> (pendingLaTasks e)) e));
  mret activityID.

Definition lat_cancel (t : localActivityTask) : localActivityTask :=
  mkLocalActivityTask (lat_activityID t) (lat_params t) (lat_callback t) true (lat_attempt t)
    (lat_attemptsThisWFT t) (lat_pastFirstWFT t) (lat_expireTime t) (lat_scheduledTime t).

Definition RequestCancelLocalActivity (activityID : string) : Env unit :=
  modify (λ e, set_pendingLaTasks (alter lat_cancel activityID (pendingLaTasks e)) e).

Definition lat_reset (t : localActivityTask) : localActivityTask :=
  mkLocalActivityTask (lat_activityID t) (lat_params t) (lat_callback t) (lat_canceled t)
    (lat_attempt t) 0 true (lat_expireTime t) (lat_scheduledTime t).

Definition ResetLAWFTAttemptCounts : Env unit :=
  modify (λ e, set_pendingLaTasks (lat_reset <$> pendingLaTasks e)
                 (set_completedLaAttemptsThisWFT 0 e)).

Definition GatherLAAttemptsThisWFT (e : workflowEnvironmentImpl) : Z :=
  (map_fold (λ _ t n, if lat_pastFirstWFT t then n + lat_attemptsThisWFT t else n) 0
     (pendingLaTasks e) + completedLaAttemptsThisWFT e) `mod` 2 ^ 32.

(** ** Versions *)

Definition validateVersion (changeID : string) (version minSupported maxSupported : Z) : Env unit :=
  if decide (version < minSupported) then
    panic (illegalState ("[TMPRL1100] Workflow code removed support of version " +:+
      FormatInt version +:+ ". for " +:+ quoted changeID +:+ " changeID. The oldest supported version is " +:+
      FormatInt minSupported)%string)
  else if decide (maxSupported < version) then
    panic (illegalState ("[TMPRL1100] Workflow code is too old to support version " +:+
      FormatInt version +:+ " for " +:+ quoted changeID +:+ " changeID. The maximum supported version is " +:+
      FormatInt maxSupported)%string)
  else mret tt.

Definition resolvePreferredVersion (info : WorkflowInfo) (changeID : string)
    (minSupported maxSupported : Z) : outcome Z :=
  match preferredVersionProvider with
  | None => Returned maxSupported
  | Some provider =>
      match provider info changeID minSupported maxSupported with
      | None => Returned maxSupported
      | Some preference =>
          let v := pv_Version preference in
          if decide (minSupported ≤ v ≤ maxSupported) then Returned v
          else if pv_ClampToSupportedRange preference then
            Returned (if decide (v < minSupported) then minSupported else maxSupported)
          else
            Panicked (illegalState ("[TMPRL1100] Preferred version " +:+ FormatInt v +:+ " for " +:+
              quoted changeID +:+ " change ID is not supported. Supported versions are between " +:+
              FormatInt minSupported +:+ " and " +:+ FormatInt maxSupported +:+ ".")%string)
      end
  end.

Definition getChangeVersion (changeID : string) (version : Z) : string :=
  (changeID +:+ "-" +:+ FormatInt version)%string.

Definition getChangeVersions (changeID : string) (version : Z) (existing : gmap string Z)
    : list string :=
  getChangeVersion changeID version ::
  ((λ kv, getChangeVersion kv.1 kv.2) <$> rangeVersions existing).

Definition createSearchAttributesForChangeVersion (changeID : string) (version : Z)
    (existing : gmap string Z) : gmap string searchValue :=
  {[ TemporalChangeVersion := searchAny (goStrings (getChangeVersions changeID version existing)) ]}.

(** The marker and the search attribute of a version used for the first time;
    nothing is recorded when the search attribute cannot be serialized. *)
Definition recordVersion (changeID : string) (version : Z)
    (eventGroupMarkers : list EventGroupMarker) : Env unit :=
  e ← get;
  let changeVersionSA :=
    createSearchAttributesForChangeVersion changeID version (changeVersions e) in
  match validateAndSerializeSearchAttributes changeVersionSA with
  | inl _ => mret tt
  | inr attr =>
      limited ← TryUse SDKFlagLimitChangeVersionSASize;
      let data := default "" (Payload_Data <$> (default ∅ attr !! TemporalChangeVersion)) in
      let updateSearchAttribute :=
        negb (limited && bool_decide (changeVersionSearchAttrSizeLimit ≤ Z.of_nat (String.length data))) in
      _ ← onHelper (recordVersionMarker changeID version dc updateSearchAttribute
                      eventGroupMarkers);
      if updateSearchAttribute then
        _ ← UpsertSearchAttributes changeVersionSA eventGroupMarkers; mret tt
      else mret tt
  end.

Definition GetVersion (changeID : string) (minSupported maxSupported : Z)
    (eventGroupMarkers : list EventGroupMarker) : Env Z :=
  e ← get;
  match changeVersions e !! changeID with
  | Some version =>
      _ ← validateVersion changeID version minSupported maxSupported;
      mret version
  | None =>
      version ←
        (if isReplay e then mret DefaultVersion
         else
           version ← lift (resolvePreferredVersion (workflowInfo e) changeID minSupported
                             maxSupported);
           _ ← recordVersion changeID version eventGroupMarkers;
           mret version);
      _ ← validateVersion changeID version minSupported maxSupported;
      _ ← modify (λ e, set_changeVersions (<[changeID := version]> (changeVersions e)) e);
      mret version
  end.

(** ** Side effects *)

(** [f] is the user's function. *)
Definition SideEffect (f : Env (option Payloads * option goError)) (callback : nat)
    (summary : string) (eventGroupMarkers : list EventGroupMarker) : Env unit :=
  sideEffectID ← getNextSideEffectID;
  e ← get;
  r ← (if isReplay e then
         match sideEffectResult e !! sideEffectID with
         | None =>
             panic (illegalState ("[TMPRL1100] No cached result found for side effectID=" +:+
                                  FormatInt sideEffectID)%string)
         | Some result =>
             _ ← modify (λ e, set_sideEffectResult (delete sideEffectID (sideEffectResult e)) e);
             mret (result, None)
         end
       else f);
  match r with
  | (result, Some err) => invoke callback (resultArgs result (Some err))
  | (result, None) =>
      match BuildUserMetadata summary "" dc with
      | inl err =>
          panic (panicString ("failed to build user metadata for side effect: " +:+ err)%string)
      | inr userMetadata =>
          _ ← onHelper (recordSideEffectMarker sideEffectID result dc userMetadata
                          eventGroupMarkers);
          invoke callback (resultArgs result None)
      end
  end.

(** The loop of [lookupMutableSideEffect]: the most recent call at or before
    the current one, [-1] when there is none. *)
Definition mostRecent (callCountPayloads : gmap Z (option Payloads)) (currentCallCount : Z)
    : Z * option Payloads :=
  foldl (λ acc kv, if decide (kv.1 ≤ currentCallCount ∧ acc.1 < kv.1) then kv else acc)
    (-1, None) (map_to_list callCountPayloads).

(** Entries of earlier calls are garbage collected. *)
Definition lookupMutableSideEffect (id : string) : Env (option Payloads) :=
  e ← get;
  let callCountPayloads := default ∅ (mutableSideEffect e !! id) in
  if decide (callCountPayloads = ∅) then mret None
  else
    let currentCallCount := default 0 (mutableSideEffectCallCounter e !! id) in
    let '(payloadIndex, payloads) := mostRecent callCountPayloads currentCallCount in
    let kept := filter (λ kv, ¬ (kv.1 ≤ currentCallCount ∧ kv.1 ≠ payloadIndex))
                  callCountPayloads in
    _ ← modify (λ e, set_mutableSideEffect (<[id := kept]> (mutableSideEffect e)) e);
    mret payloads.

Definition mustEncode {A} (r : string + A) : Env A :=
  match r with
  | inl err => panic (panicError err)
  | inr a => mret a
  end.

Definition encodeValue (value : goValue) : Env (option Payloads) :=
  mustEncode (ToPayloads dc [value]).

(** [isEqualMutableSideEffectValue] with [decodeValue]. *)
Definition isEqualValue (newValue : goValue) (encodedOldValue : option Payloads)
    (equals : goValue → goValue → bool) : Env bool :=
  match newValue with
  | goNil =>
      newEncodedValue ← mustEncode (ToPayloads dc [goNil]);
      mret (bool_decide (newEncodedValue = encodedOldValue))
  | _ =>
      old ← mustEncode (FromPayloads dc encodedOldValue [kindOf newValue]);
      match old with
      | oldValue :: _ => mret (equals newValue oldValue)
      | [] => nilDereference
      end
  end.

Definition recordMutableSideEffect (id : string) (callCountHint : Z) (data : option Payloads)
    (summary : string) (eventGroupMarkers : list EventGroupMarker) : Env (option Payloads) :=
  details ← mustEncode (ToPayloads dc [goString id; goPayloads data]);
  match BuildUserMetadata summary "" dc with
  | inl err =>
      panic (panicString ("failed to build user metadata for mutable side effect: " +:+ err)%string)
  | inr userMetadata =>
      _ ← onHelper (recordMutableSideEffectMarker id callCountHint details dc userMetadata
                      eventGroupMarkers);
      _ ← modify (λ e, set_mutableSideEffect
            (<[id := <[callCountHint := data]> (default ∅ (mutableSideEffect e !! id))]>
               (mutableSideEffect e)) e);
      mret data
  end.

(** [f] is the user's function; the result is the encoded value. *)
Definition MutableSideEffect (id : string) (f : Env goValue) (equals : goValue → goValue → bool)
    (summary : string) (eventGroupMarkers : list EventGroupMarker) : Env (option Payloads) :=
  _ ← modify (λ e, set_mutableSideEffectCallCounter
        (<[id := default 0 (mutableSideEffectCallCounter e !! id) + 1]>
           (mutableSideEffectCallCounter e)) e);
  e ← get;
  let callCount := default 0 (mutableSideEffectCallCounter e !! id) in
  found ← lookupMutableSideEffect id;
  match found with
  | Some result =>
      if isReplay e then
        nextID ← GenerateSequence;
        e ← get;
        if decide ((id +:+ "_" +:+ FormatInt nextID)%string ∈ mutableSideEffectsRecorded e)
        then recordMutableSideEffect id callCount (Some result) summary eventGroupMarkers
        else mret (Some result)
      else
        newValue ← f;
        same ← isEqualValue newValue (Some result) equals;
        if same : bool then mret (Some result)
        else
          data ← encodeValue newValue;
          recordMutableSideEffect id callCount data summary eventGroupMarkers
  | None =>
      if isReplay e then
        panic (illegalState ("[TMPRL1100] Non deterministic workflow code change detected. MutableSideEffect API call doesn't have a correspondent event in the workflow history. MutableSideEffect ID: " +:+ id)%string)
      else
        newValue ← f;
        data ← encodeValue newValue;
        recordMutableSideEffect id callCount data summary eventGroupMarkers
  end.
End Environment.
