(* ===== verification/EventHandlers.v ===== *)
(** * Processing history events
      ([src/internal/internal_event_handlers.go],
      [workflowExecutionEventHandlerImpl]).

    [ProcessEvent] drives the environment with one history event: it advances
    the command machines, delivers outcomes to the callbacks attached to them,
    and resumes the workflow code.  The workflow code is a parameter. *)

From stdpp Require Import base list gmap strings.
From S2P Require Import Prelude Proto CommandMachine CommandsHelper Flags Errors Environment.
Open Scope Z_scope.

(** [WorkflowDefinition], with the handlers it registers on the environment. *)
Record WorkflowDefinition : Type := mkWorkflowDefinition {
  wd_Execute : gmap string Payload → option Payloads → Env unit;
  wd_OnWorkflowTaskStarted : Env unit;
  wd_cancelHandler : Env unit;
  wd_signalHandler : string → option Payloads → gmap string Payload → Env (option goError);
}.

(** [localActivityResult] of [internal_task_pollers.go]. *)
Record localActivityResult : Type := mkLocalActivityResult {
  lres_task : localActivityTask;
  lres_result : option Payloads;
  lres_err : option goError;
  lres_backoff : Z;
}.

Definition ErrUnknownHistoryEvent : goError := newError "unknown history event".
Definition ErrMissingMarkerDetails : goError := newError "marker details are nil".
Definition ErrUnknownMarkerName : goError := newError "unknown marker name".
Definition ErrMissingMarkerDataKey : goError := newError "marker key is missing in details".

(** [fmt.Errorf] of the key with [ErrMissingMarkerDataKey]. *)
Definition missingKey (key : string) : goError :=
  otherError "*wrapError" ("key " +:+ quoted key +:+ ": marker key is missing in details")%string
    (Some ErrMissingMarkerDataKey).

Section Handlers.
  Variable allowed : gmap sdkFlag bool.
  Variables dc : DataConverter.
  (** The methods of a failure converter, by its identifier; they convert nil
      to nil. *)
  Variable FailureToError : nat → option Failure → option goError.
  Variable ErrorToFailure : nat → option goError → option Failure.
  (** The registered definition of the workflow type, or why there is none. *)
  Variable registered : goError + WorkflowDefinition.
  Variable HistoryEventToString : HistoryEvent → string.
  Variable EventType_String : EventType → string.
  (** The text of [getStackTraceRaw]. *)
  Variable stackTrace : string.

(** A call through [weh.workflowDefinition], nil until the start event. *)
Definition callDefinition {A} (f : WorkflowDefinition → Env A) : Env A :=
  e ← get;
  if started e then
    match registered with
    | inr wd => f wd
    | inl _ => nilDereference
    end
  else nilDereference.

Definition OnWorkflowTaskStarted : Env unit := callDefinition wd_OnWorkflowTaskStarted.

Definition handleWorkflowExecutionStarted (header : gmap string Payload)
    (input : option Payloads) : Env (option goError) :=
  match registered with
  | inl err => mret (Some err)
  | inr wd =>
      _ ← modify (set_started true);
      _ ← TryUse allowed SDKFlagProtocolMessageCommand;
      _ ← wd_Execute wd header input;
      mret None
  end.

Definition handleWorkflowTaskStarted (event : HistoryEvent) : Env unit :=
  _ ← SetCurrentReplayTime (Event_EventTime event);
  let '(suggested, reasons, changed, size) :=
    match Event_Attributes event with
    | WorkflowTaskStartedEventAttributes s r c z => (s, r, c, z)
    | _ => (false, [], false, 0)
    end in
  _ ← modify (λ e, set_workflowInfo
        (set_currentHistorySize size (set_targetWorkerDeploymentVersionChanged changed
          (set_continueAsNewSuggestedReasons reasons (set_continueAsNewSuggested suggested
            (set_currentHistoryLength (Event_EventId event) (workflowInfo e)))))) e);
  _ ← onHelper (setCurrentWorkflowTaskStartedEventID (Event_EventId event));
  OnWorkflowTaskStarted.

(** The workflow was reset here: it goes on as another run. *)
Definition handleWorkflowTaskFailed (event : HistoryEvent) : Env unit :=
  match Event_Attributes event with
  | WorkflowTaskFailedEventAttributes WORKFLOW_TASK_FAILED_CAUSE_RESET_WORKFLOW newRunId =>
      _ ← modify (λ e, set_workflowInfo (set_currentRunID newRunId (workflowInfo e)) e);
      reseedRandoms newRunId
  | _ => mret tt
  end.

(** ** Activities and timers *)

(** The part the handlers of closed activities share: resolve the command
    and, unless its outcome was already delivered, go on with it. *)
Definition withClosedActivity (event : HistoryEvent)
    (k : ref → string → string → nat → Env unit) : Env unit :=
  ids ← onHelper (getActivityAndScheduledEventIDs HistoryEventToString EventType_String event);
  let '(activityID, scheduledEventID) := ids in
  command ← onHelper (handleActivityTaskClosed activityID scheduledEventID);
  data ← onHelper (getData command);
  match data with
  | Some (scheduledActivity _ _ handled activityType fc) =>
      if handled : bool then mret tt else k command activityID activityType fc
  | _ => interfaceConversion
  end.

Definition handleActivityTaskCompleted (event : HistoryEvent) : Env unit :=
  withClosedActivity event (λ command _ _ _,
    match Event_Attributes event with
    | ActivityTaskCompletedEventAttributes _ result => handle command result None
    | _ => nilDereference
    end).

Definition handleActivityTaskFailed (event : HistoryEvent) : Env unit :=
  withClosedActivity event (λ command activityID activityType fc,
    let '(scheduled, startedID, identity', retryState, failure) :=
      match Event_Attributes event with
      | ActivityTaskFailedEventAttributes s st i r f => (s, st, i, r, f)
      | _ => (0, 0, "", 0, None)
      end in
    handle command None (Some (NewActivityError scheduled startedID identity' (Some activityType)
      activityID retryState (FailureToError fc failure)))).

Definition handleActivityTaskTimedOut (event : HistoryEvent) : Env unit :=
  withClosedActivity event (λ command activityID activityType fc,
    let '(scheduled, startedID, retryState, failure) :=
      match Event_Attributes event with
      | ActivityTaskTimedOutEventAttributes s st r f => (s, st, r, f)
      | _ => (0, 0, 0, None)
      end in
    handle command None (Some (NewActivityError scheduled startedID "" (Some activityType)
      activityID retryState (FailureToError fc failure)))).

Definition handleActivityTaskCanceled (event : HistoryEvent) : Env unit :=
  ids ← onHelper (getActivityAndScheduledEventIDs HistoryEventToString EventType_String event);
  let '(activityID, scheduledEventID) := ids in
  command ← onHelper (CommandsHelper.handleActivityTaskCanceled activityID scheduledEventID);
  data ← onHelper (getData command);
  match data with
  | Some (scheduledActivity _ waitForCancelRequest handled activityType _) =>
      if handled : bool then mret tt
      else
        m ← onHelper (deref command);
        if machine_isDone m || negb waitForCancelRequest then
          let '(scheduled, startedID, identity', details) :=
            match Event_Attributes event with
            | ActivityTaskCanceledEventAttributes s st i d => (s, st, i, d)
            | _ => (0, 0, "", None)
            end in
          handle command None (Some (NewActivityError scheduled startedID identity'
            (Some activityType) activityID RETRY_STATE_NON_RETRYABLE_FAILURE
            (Some (NewCanceledError [goEncodedValues details]))))
        else mret tt
  | _ => interfaceConversion
  end.

Definition handleTimerFired (event : HistoryEvent) : Env unit :=
  let timerID :=
    match Event_Attributes event with TimerFiredEventAttributes i => i | _ => "" end in
  command ← onHelper (handleTimerClosed timerID);
  data ← onHelper (getData command);
  match data with
  | Some (scheduledTimer _ handled) =>
      if handled : bool then mret tt else handle command None None
  | _ => interfaceConversion
  end.

(** ** Local activities *)

(** Records the marker, forgets the task, delivers its outcome and resumes the
    workflow; a marker of a task that is not pending is ignored. *)
Definition handleLocalActivityMarker (details : gmap string (option Payloads))
    (failure : option Failure) : Env (option goError) :=
  match details !! localActivityMarkerDataName with
  | None => mret (Some (missingKey localActivityMarkerDataName))
  | Some markerData =>
      match FromPayloads dc markerData [kindLocalActivityMarkerData] with
      | inl err => mret (Some (newError err))
      | inr decoded =>
          let lamd :=
            match decoded with
            | goLocalActivityMarkerData d :: _ => d
            | _ => mkLocalActivityMarkerData "" "" zeroTime 0 0
            end in
          e ← get;
          match pendingLaTasks e !! lamd_ActivityID lamd with
          | None => mret None
          | Some la =>
              if decide (lamd_ActivityType lamd ≠ "" ∧
                         lamd_ActivityType lamd ≠ elap_ActivityType (lat_params la)) then
                panic (illegalState ("[TMPRL1100] code executed local activity " +:+
                  elap_ActivityType (lat_params la) +:+ ", but history event found " +:+
                  lamd_ActivityType lamd)%string)
              else
                match BuildUserMetadata (elap_Summary (lat_params la)) "" dc with
                | inl err => mret (Some (newError err))
                | inr startMetadata =>
                    _ ← onHelper (recordLocalActivityMarker (lamd_ActivityID lamd) details failure
                           startMetadata (elap_EventGroupMarkers (lat_params la)));
                    _ ← modify (λ e,
                          if lat_pastFirstWFT la
                          then set_completedLaAttemptsThisWFT
                                 ((completedLaAttemptsThisWFT e + lat_attemptsThisWFT la)
                                    `mod` 2 ^ 32) e
                          else e);
                    _ ← modify (λ e,
                          set_unstartedLaTasks (unstartedLaTasks e ∖ {[lamd_ActivityID lamd]})
                            (set_pendingLaTasks
                               (delete (lamd_ActivityID lamd) (pendingLaTasks e)) e));
                    let lar :=
                      match failure with
                      | Some f =>
                          mkLocalActivityOutcome
                            (FailureToError (elap_FailureConverter (lat_params la)) (Some f)) None
                            (lamd_Attempt lamd) (lamd_Backoff lamd)
                      | None =>
                          mkLocalActivityOutcome None
                            (default None (details !! localActivityResultName)) 0 0
                      end in
                    _ ← invoke (lat_callback la) (localActivityArgs lar);
                    _ ← SetCurrentReplayTime (lamd_ReplayTime lamd);
                    _ ← OnWorkflowTaskStarted;
                    mret None
                end
          end
      end
  end.

(** ** Markers *)

(** A decoded value, or the zero value the variable keeps when decoding
    fails. *)
Definition decodeInt64 (p : option Payloads) : Z :=
  match FromPayloads dc p [kindInt64] with inr (goInt64 z :: _) => z | _ => 0 end.
Definition decodeInt (p : option Payloads) : Z :=
  match FromPayloads dc p [kindInt] with inr (goInt z :: _) => z | _ => 0 end.
Definition decodeString (p : option Payloads) : string :=
  match FromPayloads dc p [kindString] with inr (goString s :: _) => s | _ => "" end.
Definition decodeBool (p : option Payloads) (init : bool) : bool :=
  match FromPayloads dc p [kindBool] with inr (goBool b :: _) => b | _ => init end.

Definition handleSideEffectMarker (details : gmap string (option Payloads))
    : Env (option goError) :=
  match details !! sideEffectMarkerIDName with
  | None => mret (Some (missingKey sideEffectMarkerIDName))
  | Some sideEffectIDPayload =>
      match details !! sideEffectMarkerDataName with
      | None => mret (Some (missingKey sideEffectMarkerDataName))
      | Some sideEffectData =>
          _ ← modify (λ e, set_sideEffectResult
                (<[decodeInt64 sideEffectIDPayload := sideEffectData]> (sideEffectResult e)) e);
          mret None
      end
  end.

Definition handleVersionMarkerRecorded (eventID : Z) (details : gmap string (option Payloads))
    : Env (option goError) :=
  match details !! versionMarkerChangeIDName with
  | None => mret (Some (missingKey versionMarkerChangeIDName))
  | Some changeIDPayload =>
      match details !! versionMarkerDataName with
      | None => mret (Some (missingKey versionMarkerDataName))
      | Some versionPayload =>
          let searchAttrUpdated :=
            match details !! versionSearchAttributeUpdatedName with
            | Some p => decodeBool p true
            | None => true
            end in
          let changeID := decodeString changeIDPayload in
          _ ← modify (λ e, set_changeVersions
                (<[changeID := decodeInt versionPayload]> (changeVersions e)) e);
          _ ← onHelper (handleVersionMarker eventID changeID searchAttrUpdated);
          mret None
      end
  end.

(** The data of the marker wraps the identifier and the value. *)
Definition handleMutableSideEffectMarker (details : gmap string (option Payloads))
    : Env (option goError) :=
  match default None (details !! sideEffectMarkerIDName) with
  | None => mret (Some (missingKey sideEffectMarkerIDName))
  | Some idPayload =>
      match default None (details !! sideEffectMarkerDataName) with
      | None => mret (Some (missingKey sideEffectMarkerDataName))
      | Some dataPayload =>
          match FromPayloads dc (Some idPayload) [kindString],
                FromPayloads dc (Some dataPayload) [kindString; kindPayloads] with
          | inr (goString sideEffectIDWithCounter :: _),
            inr (goString sideEffectDataID :: goPayloads sideEffectDataContents :: _) =>
              e ← get;
              match (match details !! mutableSideEffectCallCounterName with
                     | Some p =>
                         match FromPayloads dc p [kindInt] with
                         | inr (goInt z :: _) => inr z
                         | inr _ => inr 0
                         | inl err => inl err
                         end
                     | None =>
                         inr (default 0 (mutableSideEffectCallCounter e !! sideEffectDataID))
                     end) with
              | inl err => mret (Some (newError err))
              | inr counterHint =>
                  _ ← modify (λ e,
                    set_mutableSideEffectsRecorded
                      ({[sideEffectIDWithCounter]} ∪ mutableSideEffectsRecorded e)
                      (set_mutableSideEffect
                         (<[sideEffectDataID :=
                              <[counterHint := Some (default [] sideEffectDataContents)]>
                                (default ∅ (mutableSideEffect e !! sideEffectDataID))]>
                            (mutableSideEffect e)) e));
                  mret None
              end
          | inl err, _ | _, inl err => mret (Some (newError err))
          | _, _ => mret None
          end
      end
  end.

(** The error of a marker that cannot be processed. *)
Definition markerError (markerName : string) (eventID : Z) (err : goError) : goError :=
  otherError "*wrapError" ("marker name " +:+ quoted markerName +:+ " for eventId " +:+
                          FormatInt eventID)%string (Some err).

Definition handleMarkerRecorded (eventID : Z) (markerName : string)
    (details : option (gmap string (option Payloads))) (failure : option Failure)
    : Env (option goError) :=
  err ← match details with
        | None => mret (Some ErrMissingMarkerDetails)
        | Some details =>
            if decide (markerName = sideEffectMarkerName) then handleSideEffectMarker details
            else if decide (markerName = versionMarkerName)
            then handleVersionMarkerRecorded eventID details
            else if decide (markerName = localActivityMarkerName)
            then handleLocalActivityMarker details failure
            else if decide (markerName = mutableSideEffectMarkerName)
            then handleMutableSideEffectMarker details
            else mret (Some ErrUnknownMarkerName)
        end;
  mret (markerError markerName eventID <$> err).

(** ** Child workflows *)

(** The part the handlers of child events share. *)
Definition withChild (command : ref) (k : nat → nat → Env unit) : Env unit :=
  data ← onHelper (getData command);
  match data with
  | Some (scheduledChildWorkflow _ startedCallback _ handled fc) =>
      if handled : bool then mret tt else k startedCallback fc
  | _ => interfaceConversion
  end.

(** [handleFailedToStart] runs both callbacks. *)
Definition handleFailedToStart (command : ref) (startedCallback : nat) (err : goError) : Env unit :=
  _ ← handle command None (Some err);
  invoke startedCallback (startedArgs (mkWorkflowExecution "" "") (Some err)).

Definition handleStartChildWorkflowExecutionFailed (event : HistoryEvent) : Env unit :=
  let '(namespace, workflowID, workflowType, initiated, cause) :=
    match Event_Attributes event with
    | StartChildFailedEventAttributes n w t i c => (n, w, t, i, c)
    | _ => ("", "", "", 0,
            START_CHILD_WORKFLOW_EXECUTION_FAILED_CAUSE_OTHER "Unspecified")
    end in
  command ← onHelper (CommandsHelper.handleStartChildWorkflowExecutionFailed workflowID);
  withChild command (λ startedCallback _,
    let causeErr :=
      match cause with
      | START_CHILD_WORKFLOW_EXECUTION_FAILED_CAUSE_WORKFLOW_ALREADY_EXISTS =>
          ChildWorkflowExecutionAlreadyStartedError
      | START_CHILD_WORKFLOW_EXECUTION_FAILED_CAUSE_NAMESPACE_NOT_FOUND => NamespaceNotFoundError
      | START_CHILD_WORKFLOW_EXECUTION_FAILED_CAUSE_INVALID_VERSIONING_OVERRIDE =>
          InvalidVersioningOverrideError
      | START_CHILD_WORKFLOW_EXECUTION_FAILED_CAUSE_OTHER c =>
          newError ("unable to start child workflow for unknown cause: " +:+ c)%string
      end in
    handleFailedToStart command startedCallback
      (NewChildWorkflowExecutionError namespace workflowID "" workflowType initiated 0
         RETRY_STATE_NON_RETRYABLE_FAILURE (Some causeErr))).

(** The attributes of a child event other than the start: namespace,
    execution, type, initiated and started events; and its outcome. *)
Definition childExecution (a : EventAttributes) : WorkflowExecution :=
  match a with
  | ChildWorkflowStartedEventAttributes x | ChildWorkflowCompletedEventAttributes x _
  | ChildWorkflowFailedEventAttributes _ x _ _ _ _ _
  | ChildWorkflowCanceledEventAttributes _ x _ _ _ _
  | ChildWorkflowTimedOutEventAttributes _ x _ _ _ _
  | ChildWorkflowTerminatedEventAttributes _ x _ _ _ => x
  | _ => mkWorkflowExecution "" ""
  end.

Definition handleChildWorkflowExecutionStarted (event : HistoryEvent) : Env unit :=
  let execution := childExecution (Event_Attributes event) in
  command ← onHelper (CommandsHelper.handleChildWorkflowExecutionStarted (we_WorkflowId execution));
  withChild command (λ startedCallback _, invoke startedCallback (startedArgs execution None)).

Definition handleChildWorkflowExecutionCompleted (event : HistoryEvent) : Env unit :=
  let execution := childExecution (Event_Attributes event) in
  command ← onHelper (handleChildWorkflowExecutionClosed (we_WorkflowId execution));
  withChild command (λ _ _,
    match Event_Attributes event with
    | ChildWorkflowCompletedEventAttributes _ result => handle command result None
    | _ => nilDereference
    end).

Definition handleChildWorkflowExecutionFailed (event : HistoryEvent) : Env unit :=
  let execution := childExecution (Event_Attributes event) in
  command ← onHelper (handleChildWorkflowExecutionClosed (we_WorkflowId execution));
  withChild command (λ _ fc,
    match Event_Attributes event with
    | ChildWorkflowFailedEventAttributes n x t i s retryState failure =>
        handle command None (Some (NewChildWorkflowExecutionError n (we_WorkflowId x) (we_RunId x)
          t i s retryState (FailureToError fc failure)))
    | _ => nilDereference
    end).

Definition handleChildWorkflowExecutionCanceled (event : HistoryEvent) : Env unit :=
  let execution := childExecution (Event_Attributes event) in
  command ← onHelper (CommandsHelper.handleChildWorkflowExecutionCanceled
                        (we_WorkflowId execution));
  withChild command (λ _ _,
    match Event_Attributes event with
    | ChildWorkflowCanceledEventAttributes n x t i s details =>
        handle command None (Some (NewChildWorkflowExecutionError n (we_WorkflowId x) (we_RunId x)
          t i s RETRY_STATE_NON_RETRYABLE_FAILURE
          (Some (NewCanceledError [goEncodedValues details]))))
    | _ => nilDereference
    end).

Definition handleChildWorkflowExecutionTimedOut (event : HistoryEvent) : Env unit :=
  let execution := childExecution (Event_Attributes event) in
  command ← onHelper (handleChildWorkflowExecutionClosed (we_WorkflowId execution));
  withChild command (λ _ _,
    match Event_Attributes event with
    | ChildWorkflowTimedOutEventAttributes n x t i s retryState =>
        handle command None (Some (NewChildWorkflowExecutionError n (we_WorkflowId x) (we_RunId x)
          t i s retryState
          (Some (NewTimeoutError "Child workflow timeout" TIMEOUT_TYPE_START_TO_CLOSE None []))))
    | _ => nilDereference
    end).

Definition handleChildWorkflowExecutionTerminated (event : HistoryEvent) : Env unit :=
  let execution := childExecution (Event_Attributes event) in
  command ← onHelper (handleChildWorkflowExecutionClosed (we_WorkflowId execution));
  withChild command (λ _ _,
    match Event_Attributes event with
    | ChildWorkflowTerminatedEventAttributes n x t i s =>
        handle command None (Some (NewChildWorkflowExecutionError n (we_WorkflowId x) (we_RunId x)
          t i s RETRY_STATE_NON_RETRYABLE_FAILURE (Some newTerminatedError)))
    | _ => nilDereference
    end).

(** ** Nexus operations *)

(** [command.getData().( *scheduledNexusOperation)]: its cancellation type and
    failure converter. *)
Definition getNexusData (command : ref) : Env (Z * nat) :=
  data ← onHelper (getData command);
  match data with
  | Some (scheduledNexusOperation _ _ cancellationType _ _ _ fc) => mret (cancellationType, fc)
  | _ => interfaceConversion
  end.

Definition handleNexusOperationStarted (event : HistoryEvent) : Env unit :=
  match Event_Attributes event with
  | NexusOperationStartedEventAttributes scheduledEventId operationToken operationId =>
      command ← onHelper (CommandsHelper.handleNexusOperationStarted scheduledEventId);
      _ ← getNexusData command;
      runStarted command (if decide (operationToken = "") then operationId else operationToken) None
  | _ => nilDereference
  end.

(** What a resolution says of an operation: its result, its failure and the
    event that scheduled it. *)
Definition nexusResolution (event : HistoryEvent)
    : option (option Payload * option Failure * Z) :=
  let attributes := Event_Attributes event in
  match Event_EventType event with
  | EVENT_TYPE_NEXUS_OPERATION_COMPLETED =>
      Some (match attributes with
            | NexusOperationCompletedEventAttributes i r => (r, None, i) | _ => (None, None, 0) end)
  | EVENT_TYPE_NEXUS_OPERATION_FAILED =>
      Some (match attributes with
            | NexusOperationFailedEventAttributes i f => (None, f, i) | _ => (None, None, 0) end)
  | EVENT_TYPE_NEXUS_OPERATION_CANCELED =>
      Some (match attributes with
            | NexusOperationCanceledEventAttributes i f => (None, f, i) | _ => (None, None, 0) end)
  | EVENT_TYPE_NEXUS_OPERATION_TIMED_OUT =>
      Some (match attributes with
            | NexusOperationTimedOutEventAttributes i f => (None, f, i) | _ => (None, None, 0) end)
  | _ => None
  end.

Definition handleNexusOperationCompleted (event : HistoryEvent) : Env unit :=
  match nexusResolution event with
  | None =>
      panic (panicError ("invalid event type, not a Nexus Operation resolution: " +:+
               EventType_String (Event_EventType event))%string)
  | Some (result, failure, scheduledEventId) =>
      command ← onHelper (CommandsHelper.handleNexusOperationCompleted scheduledEventId);
      data ← getNexusData command;
      let err := match failure with Some _ => FailureToError data.2 failure | None => None end in
      _ ← runStarted command "" err;
      runCompleted command result err
  end.

Definition handleNexusOperationCancelRequested (event : HistoryEvent) : Env unit :=
  let scheduledEventId :=
    match Event_Attributes event with
    | NexusOperationCancelRequestedEventAttributes i => i | _ => 0 end in
  command ← onHelper (CommandsHelper.handleNexusOperationCancelRequested scheduledEventId);
  data ← getNexusData command;
  if decide (data.1 = NexusOperationCancellationTypeTryCancel) then
    _ ← runStarted command "" (Some ErrCanceled);
    runCompleted command None (Some ErrCanceled)
  else mret tt.

(** The outcome of a cancel request. *)
Definition nexusCancelResolution (event : HistoryEvent) : option (Z * option Failure) :=
  let attributes := Event_Attributes event in
  match Event_EventType event with
  | EVENT_TYPE_NEXUS_OPERATION_CANCEL_REQUEST_COMPLETED =>
      Some (match attributes with
            | NexusOperationCancelRequestCompletedEventAttributes i => (i, None)
            | _ => (0, None) end)
  | EVENT_TYPE_NEXUS_OPERATION_CANCEL_REQUEST_FAILED =>
      Some (match attributes with
            | NexusOperationCancelRequestFailedEventAttributes i f => (i, f)
            | _ => (0, None) end)
  | _ => None
  end.

(** Events written without the scheduled event are ignored. *)
Definition handleNexusOperationCancelRequestDelivered (event : HistoryEvent) : Env unit :=
  match nexusCancelResolution event with
  | None =>
      panic (panicError
        ("invalid event type, not a Nexus Operation cancel request resolution: " +:+
         EventType_String (Event_EventType event))%string)
  | Some (scheduledEventID, failure) =>
      if decide (scheduledEventID = 0) then mret tt
      else
        command ← onHelper (CommandsHelper.handleNexusOperationCancelRequestDelivered
                              scheduledEventID);
        data ← getNexusData command;
        let err :=
          match failure with Some _ => FailureToError data.2 failure | None => Some ErrCanceled end in
        if decide (data.1 = NexusOperationCancellationTypeWaitRequested) then
          _ ← runStarted command "" err;
          runCompleted command None err
        else mret tt
  end.

(** ** External workflows *)

Definition withCancellation (command : ref) (err : option goError) : Env unit :=
  data ← onHelper (getData command);
  match data with
  | Some (scheduledCancellation _ handled) =>
      if handled : bool then mret tt else handle command None err
  | _ => interfaceConversion
  end.

Definition externalFailure (what : string) (cause : ExternalWorkflowFailedCause) : goError :=
  match cause with
  | FAILED_CAUSE_EXTERNAL_WORKFLOW_EXECUTION_NOT_FOUND => UnknownExternalWorkflowExecutionError
  | FAILED_CAUSE_NAMESPACE_NOT_FOUND => NamespaceNotFoundError
  | FAILED_CAUSE_OTHER c =>
      newError ("unable to " +:+ what +:+ " external workflow for unknown cause: " +:+ c)%string
  end.

Definition handleExternalWorkflowExecutionCancelRequested (event : HistoryEvent) : Env unit :=
  let '(initiated, workflowID) :=
    match Event_Attributes event with
    | ExternalCancelRequestedEventAttributes i w => (i, w) | _ => (0, "") end in
  r ← onHelper (CommandsHelper.handleExternalWorkflowExecutionCancelRequested initiated workflowID);
  if r.1 : bool then withCancellation r.2 None else mret tt.

Definition handleRequestCancelExternalWorkflowExecutionFailed (event : HistoryEvent) : Env unit :=
  let '(initiated, workflowID, cause) :=
    match Event_Attributes event with
    | RequestCancelExternalFailedEventAttributes i w c => (i, w, c)
    | _ => (0, "", FAILED_CAUSE_OTHER "Unspecified") end in
  r ← onHelper (CommandsHelper.handleRequestCancelExternalWorkflowExecutionFailed initiated
                  workflowID);
  if r.1 : bool then withCancellation r.2 (Some (externalFailure "cancel" cause)) else mret tt.

Definition withSignal (command : ref) (err : option goError) : Env unit :=
  data ← onHelper (getData command);
  match data with
  | Some (scheduledSignal _ handled) =>
      if handled : bool then mret tt else handle command None err
  | _ => interfaceConversion
  end.

Definition handleSignalExternalWorkflowExecutionCompleted (event : HistoryEvent) : Env unit :=
  let initiated :=
    match Event_Attributes event with ExternalSignaledEventAttributes i => i | _ => 0 end in
  command ← onHelper (CommandsHelper.handleSignalExternalWorkflowExecutionCompleted initiated);
  withSignal command None.

Definition handleSignalExternalWorkflowExecutionFailed (event : HistoryEvent) : Env unit :=
  let '(initiated, cause) :=
    match Event_Attributes event with
    | SignalExternalFailedEventAttributes i c => (i, c)
    | _ => (0, FAILED_CAUSE_OTHER "Unspecified") end in
  command ← onHelper (CommandsHelper.handleSignalExternalWorkflowExecutionFailed initiated);
  withSignal command (Some (externalFailure "signal" cause)).

(** ** The event loop *)

(** A handler that reports no error. *)
Definition noError (m : Env unit) : Env (option goError) := _ ← m; mret None.

(** The [switch] of [ProcessEvent]. *)
Definition handleEvent (event : HistoryEvent) : Env (option goError) :=
  let attributes := Event_Attributes event in
  match Event_EventType event with
  | EVENT_TYPE_WORKFLOW_EXECUTION_STARTED =>
      match attributes with
      | WorkflowExecutionStartedEventAttributes header input _ =>
          handleWorkflowExecutionStarted header input
      | _ => nilDereference
      end
  | EVENT_TYPE_WORKFLOW_TASK_STARTED => noError (handleWorkflowTaskStarted event)
  | EVENT_TYPE_WORKFLOW_TASK_FAILED => noError (handleWorkflowTaskFailed event)
  | EVENT_TYPE_ACTIVITY_TASK_SCHEDULED =>
      noError (onHelper (handleActivityTaskScheduled
        (match attributes with ActivityTaskScheduledEventAttributes i _ => i | _ => "" end)
        (Event_EventId event)))
  | EVENT_TYPE_ACTIVITY_TASK_COMPLETED => noError (handleActivityTaskCompleted event)
  | EVENT_TYPE_ACTIVITY_TASK_FAILED => noError (handleActivityTaskFailed event)
  | EVENT_TYPE_ACTIVITY_TASK_TIMED_OUT => noError (handleActivityTaskTimedOut event)
  | EVENT_TYPE_ACTIVITY_TASK_CANCEL_REQUESTED =>
      noError (onHelper (handleActivityTaskCancelRequested
        (match attributes with ActivityTaskCancelRequestedEventAttributes i => i | _ => 0 end)))
  | EVENT_TYPE_ACTIVITY_TASK_CANCELED => noError (handleActivityTaskCanceled event)
  | EVENT_TYPE_TIMER_STARTED =>
      noError (onHelper (handleTimerStarted
        (match attributes with TimerStartedEventAttributes i => i | _ => "" end)))
  | EVENT_TYPE_TIMER_FIRED => noError (handleTimerFired event)
  | EVENT_TYPE_TIMER_CANCELED =>
      noError (onHelper (handleTimerCanceled
        (match attributes with TimerCanceledEventAttributes i => i | _ => "" end)))
  | EVENT_TYPE_WORKFLOW_EXECUTION_CANCEL_REQUESTED =>
      e ← get;
      noError (if cancelHandler e then callDefinition wd_cancelHandler else nilDereference)
  | EVENT_TYPE_REQUEST_CANCEL_EXTERNAL_WORKFLOW_EXECUTION_INITIATED =>
      match attributes with
      | RequestCancelExternalInitiatedEventAttributes _ workflowID control =>
          noError (onHelper (handleRequestCancelExternalWorkflowExecutionInitiated
            (Event_EventId event) workflowID control))
      | _ => nilDereference
      end
  | EVENT_TYPE_REQUEST_CANCEL_EXTERNAL_WORKFLOW_EXECUTION_FAILED =>
      noError (handleRequestCancelExternalWorkflowExecutionFailed event)
  | EVENT_TYPE_EXTERNAL_WORKFLOW_EXECUTION_CANCEL_REQUESTED =>
      noError (handleExternalWorkflowExecutionCancelRequested event)
  | EVENT_TYPE_WORKFLOW_EXECUTION_SIGNALED =>
      match attributes with
      | WorkflowExecutionSignaledEventAttributes name input header =>
          e ← get;
          if signalHandler e then callDefinition (λ wd, wd_signalHandler wd name input header)
          else nilDereference
      | _ => nilDereference
      end
  | EVENT_TYPE_SIGNAL_EXTERNAL_WORKFLOW_EXECUTION_INITIATED =>
      match attributes with
      | SignalExternalInitiatedEventAttributes _ _ _ control =>
          noError (onHelper (handleSignalExternalWorkflowExecutionInitiated
            (Event_EventId event) control))
      | _ => nilDereference
      end
  | EVENT_TYPE_SIGNAL_EXTERNAL_WORKFLOW_EXECUTION_FAILED =>
      noError (handleSignalExternalWorkflowExecutionFailed event)
  | EVENT_TYPE_EXTERNAL_WORKFLOW_EXECUTION_SIGNALED =>
      noError (handleSignalExternalWorkflowExecutionCompleted event)
  | EVENT_TYPE_MARKER_RECORDED =>
      match attributes with
      | MarkerRecordedEventAttributes name details failure =>
          handleMarkerRecorded (Event_EventId event) name details failure
      | _ => handleMarkerRecorded (Event_EventId event) "" None None
      end
  | EVENT_TYPE_START_CHILD_WORKFLOW_EXECUTION_INITIATED =>
      noError (onHelper (handleStartChildWorkflowExecutionInitiated
        (match attributes with StartChildInitiatedEventAttributes w _ => w | _ => "" end)))
  | EVENT_TYPE_START_CHILD_WORKFLOW_EXECUTION_FAILED =>
      noError (handleStartChildWorkflowExecutionFailed event)
  | EVENT_TYPE_CHILD_WORKFLOW_EXECUTION_STARTED =>
      noError (handleChildWorkflowExecutionStarted event)
  | EVENT_TYPE_CHILD_WORKFLOW_EXECUTION_COMPLETED =>
      noError (handleChildWorkflowExecutionCompleted event)
  | EVENT_TYPE_CHILD_WORKFLOW_EXECUTION_FAILED =>
      noError (handleChildWorkflowExecutionFailed event)
  | EVENT_TYPE_CHILD_WORKFLOW_EXECUTION_CANCELED =>
      noError (handleChildWorkflowExecutionCanceled event)
  | EVENT_TYPE_CHILD_WORKFLOW_EXECUTION_TIMED_OUT =>
      noError (handleChildWorkflowExecutionTimedOut event)
  | EVENT_TYPE_CHILD_WORKFLOW_EXECUTION_TERMINATED =>
      noError (handleChildWorkflowExecutionTerminated event)
  | EVENT_TYPE_UPSERT_WORKFLOW_SEARCH_ATTRIBUTES =>
      match attributes with
      | UpsertSearchAttributesEventAttributes a =>
          noError (updateWorkflowInfoWithSearchAttributes (Some a))
      | _ => nilDereference
      end
  | EVENT_TYPE_WORKFLOW_PROPERTIES_MODIFIED =>
      match attributes with
      | WorkflowPropertiesModifiedEventAttributes memo => noError (updateWorkflowInfoWithMemo memo)
      | _ => nilDereference
      end
  | EVENT_TYPE_NEXUS_OPERATION_SCHEDULED =>
      noError (onHelper (handleNexusOperationScheduled HistoryEventToString event))
  | EVENT_TYPE_NEXUS_OPERATION_STARTED => noError (handleNexusOperationStarted event)
  | EVENT_TYPE_NEXUS_OPERATION_COMPLETED | EVENT_TYPE_NEXUS_OPERATION_FAILED
  | EVENT_TYPE_NEXUS_OPERATION_CANCELED | EVENT_TYPE_NEXUS_OPERATION_TIMED_OUT =>
      noError (handleNexusOperationCompleted event)
  | EVENT_TYPE_NEXUS_OPERATION_CANCEL_REQUESTED =>
      noError (handleNexusOperationCancelRequested event)
  | EVENT_TYPE_NEXUS_OPERATION_CANCEL_REQUEST_COMPLETED
  | EVENT_TYPE_NEXUS_OPERATION_CANCEL_REQUEST_FAILED =>
      noError (handleNexusOperationCancelRequestDelivered event)
  | EVENT_TYPE_OTHER _ =>
      if Event_WorkerMayIgnore event then mret None else mret (Some ErrUnknownHistoryEvent)
  | _ => mret None
  end.

(** The body of [ProcessEvent] between [defer] and [return]. *)
Definition processEvent (event : HistoryEvent) (replay isLast : bool) : Env (option goError) :=
  _ ← modify (set_isReplay replay);
  err ← handleEvent event;
  match err with
  | Some err => mret (Some err)
  | None =>
      _ ← (if isLast && bool_decide (Event_EventType event ≠ EVENT_TYPE_WORKFLOW_TASK_STARTED)
           then OnWorkflowTaskStarted else mret tt);
      mret None
  end.

(** [defer func() { if p := recover(); p != nil { ... } }()]: a panic
    completes the workflow with the panic as its error. *)
Definition recovered (m : Env (option goError)) : Env (option goError) := λ e,
  match m e with
  | (Returned err, e') => (Returned err, e')
  | (Panicked p, e') =>
      (_ ← Complete None (Some (workflowPanicError p stackTrace)); mret None) e'
  end.

Definition ProcessEvent (event : option HistoryEvent) (replay isLast : bool)
    : Env (option goError) :=
  match event with
  | None => mret (Some (newError "nil event provided"))
  | Some event => recovered (processEvent event replay isLast)
  end.

(** The result of a local activity is processed as the marker event it will
    be recorded as. *)
Definition ProcessLocalActivityResult (lar : localActivityResult) : Env (option goError) :=
  e ← get;
  let task := lres_task lar in
  let lamd := mkLocalActivityMarkerData (lat_activityID task)
    (elap_ActivityType (lat_params task))
    (currentReplayTime e + (clock e - currentLocalTime e)) (lat_attempt task)
    (match lres_err lar with Some _ => lres_backoff lar | None => 0 end) in
  let details : gmap string (option Payloads) :=
    match lres_err lar, lres_result lar with
    | None, Some result => {[localActivityResultName := Some result]}
    | _, _ => ∅
    end in
  match ToPayloads dc [goLocalActivityMarkerData lamd] with
  | inl err => mret (Some (newError err))
  | inr markerData =>
      let failure := ErrorToFailure (elap_FailureConverter (lat_params task)) (lres_err lar) in
      let markerEvent := mkHistoryEvent 0 EVENT_TYPE_MARKER_RECORDED
        (MarkerRecordedEventAttributes localActivityMarkerName
           (Some (<[localActivityMarkerDataName := markerData]> details)) failure) 0 false in
      ProcessEvent (Some markerEvent) false false
  end.
End Handlers.
