(* ===== verification/EnvironmentFacts.v ===== *)
(** * Callbacks of the environment: a program logic.

    [base] says that the command index is well formed and that the data of
    every indexed command has the type its handlers assert; [callbacks_ok]
    that every callback has one owner, the command or local activity it waits
    for, until it runs, and runs once.  The triples [eh] of this file carry
    both through the operations of the environment and the event handlers. *)

From stdpp Require Import base list gmap strings.
From S2P Require Import Prelude Proto CommandMachine CommandsHelper CommandInvariant CommandSend CommandReachable CommandEventIDs CommandData Flags Errors Environment.
Open Scope Z_scope.

(** ** The invariant *)

Definition typedData (t : commandType) (o : option machineData) : bool :=
  match t, o with
  | commandTypeTimer, Some (scheduledTimer _ _)
  | commandTypeActivity, Some (scheduledActivity _ _ _ _ _)
  | commandTypeNexusOperation, Some (scheduledNexusOperation _ _ _ _ _ _ _)
  | commandTypeChildWorkflow, Some (scheduledChildWorkflow _ _ _ _ _)
  | commandTypeCancellation, Some (scheduledCancellation _ _)
  | commandTypeSignal, Some (scheduledSignal _ _) => true
  | _, _ => negb (dataType t)
  end.

Definition dataOK (h : commandsHelper) : Prop :=
  ∀ id e, commands h !! id = Some e →
    typedData (commandID_commandType id) (dataAt h (elem_value e)) = true.

Record base (e : workflowEnvironmentImpl) : Prop := {
  base_wf : helper_wf (helper e);
  base_data : dataOK (helper e);
}.

(** The callback that data still holds: the result callback, or the started
    callback of a Nexus operation. *)
Definition holds (o : option machineData) (result : bool) (cb : nat) : Prop :=
  match o, result with
  | Some (scheduledTimer c false), true | Some (scheduledActivity c _ false _ _), true
  | Some (scheduledChildWorkflow c _ _ false _), true
  | Some (scheduledCancellation c false), true | Some (scheduledSignal c false), true => c = cb
  | Some (scheduledNexusOperation _ c _ _ _ _ _), true
  | Some (scheduledNexusOperation c _ _ _ _ _ _), false => c = Some cb
  | _, _ => False
  end.

Inductive owner : Type :=
| ownMachine (d : ref) (result : bool)
| ownTask (activityID : string).

Definition owns (e : workflowEnvironmentImpl) (o : owner) (cb : nat) : Prop :=
  match o with
  | ownMachine d r => holds (dataAt (helper e) d) r cb
  | ownTask i => lat_callback <$> pendingLaTasks e !! i = Some cb
  end.

(** The runs of callbacks other than the start notification of a child, which
    every start event of the child runs. *)
Definition resultCallbacks (log : list delivery) : list nat :=
  omap (λ d, match delivered_args d with
             | startedArgs _ _ => None
             | _ => Some (delivered_callback d)
             end) log.

Record callbacks_ok (e : workflowEnvironmentImpl) : Prop := {
  ok_bound : ∀ o cb, owns e o cb → (cb < nextCallback e)%nat;
  ok_unique : ∀ o1 o2 cb, owns e o1 cb → owns e o2 cb → o1 = o2;
  ok_waiting : ∀ o cb, owns e o cb → cb ∉ resultCallbacks (deliveries e);
  ok_once : NoDup (resultCallbacks (deliveries e));
  ok_log : ∀ cb, cb ∈ resultCallbacks (deliveries e) → (cb < nextCallback e)%nat;
}.

(** A closure that was created and neither attached nor run. *)
Definition free (cb : nat) (e : workflowEnvironmentImpl) : Prop :=
  (cb < nextCallback e)%nat ∧ (∀ o, ¬ owns e o cb) ∧ cb ∉ resultCallbacks (deliveries e).

(** What callbacks depend on. *)
Record same (e e' : workflowEnvironmentImpl) : Prop := {
  same_data : ∀ d, dataAt (helper e') d = dataAt (helper e) d;
  same_tasks : lat_callback <$> pendingLaTasks e' = lat_callback <$> pendingLaTasks e;
  same_next : nextCallback e' = nextCallback e;
  same_log : deliveries e' = deliveries e;
}.

#[export] Instance same_refl : Reflexive same.
Proof. by split. Qed.
#[export] Instance same_trans : Transitive same.
Proof. intros e1 e2 e3 [] []. split; congruence. Qed.

Class Footprint (P : workflowEnvironmentImpl → Prop) : Prop :=
  footprint : ∀ e e', same e e' → P e → P e'.

Lemma same_owns e e' o cb : same e e' → owns e' o cb ↔ owns e o cb.
Proof.
  intros [Hd Ht _ _]. destruct o as [d r|i]; simpl; [by rewrite Hd|].
  rewrite <- !lookup_fmap. by rewrite Ht.
Qed.

#[export] Instance callbacks_ok_footprint : Footprint callbacks_ok.
Proof.
  intros e e' Hs [H1 H2 H3 H4 H5]. pose proof (same_next _ _ Hs) as Hn.
  pose proof (same_log _ _ Hs) as Hl.
  split.
  - intros o cb Ho. rewrite Hn. apply (same_owns _ _ _ _ Hs) in Ho. eauto.
  - intros o1 o2 cb Ho1 Ho2. apply (same_owns _ _ _ _ Hs) in Ho1, Ho2. eauto.
  - intros o cb Ho. rewrite Hl. apply (same_owns _ _ _ _ Hs) in Ho. eauto.
  - by rewrite Hl.
  - intros cb. rewrite Hl, Hn. eauto.
Qed.

#[export] Instance free_footprint cb : Footprint (free cb).
Proof.
  intros e e' Hs (H1 & H2 & H3). unfold free. rewrite (same_next _ _ Hs), (same_log _ _ Hs).
  split_and!; [done| |done]. intros o Ho. apply (same_owns _ _ _ _ Hs) in Ho. by eapply H2.
Qed.

(** The data at [d] has the type of commands of type [t]. *)
Definition typedAt (t : commandType) (d : ref) (e : workflowEnvironmentImpl) : Prop :=
  typedData t (dataAt (helper e) d) = true.

#[export] Instance typedAt_footprint t d : Footprint (typedAt t d).
Proof. intros e e' Hs. unfold typedAt. by rewrite (same_data _ _ Hs). Qed.

(** The data at [d]. *)
Definition dataIs (d : ref) (D : machineData) (e : workflowEnvironmentImpl) : Prop :=
  dataAt (helper e) d = Some D.

#[export] Instance dataIs_footprint d D : Footprint (dataIs d D).
Proof. intros e e' Hs. unfold dataIs. by rewrite (same_data _ _ Hs). Qed.

#[export] Instance True_footprint : Footprint (λ _, True).
Proof. by intros e e' _ _. Qed.
#[export] Instance pure_footprint (P : Prop) : Footprint (λ _, P).
Proof. by intros e e' _ ?. Qed.
#[export] Instance and_footprint P Q : Footprint P → Footprint Q → Footprint (λ e, P e ∧ Q e).
Proof. intros HP HQ e e' Hs []. split; [by eapply HP|by eapply HQ]. Qed.

(** ** Triples *)

Definition eh {A} (P : workflowEnvironmentImpl → Prop) (m : Env A)
    (Q : A → workflowEnvironmentImpl → Prop) : Prop :=
  ∀ e, base e → callbacks_ok e → P e →
    wp m (λ a e', base e' ∧ callbacks_ok e' ∧ Q a e')
         (λ p e', base e' ∧ callbacks_ok e' ∧ no_conversion p) e.

(** A computation that leaves callbacks alone. *)
Definition gentle {A} (m : Env A) : Prop :=
  ∀ e, base e → wp m (λ _ e', base e' ∧ same e e') (λ p e', base e' ∧ same e e' ∧ no_conversion p) e.

Lemma eh_ret {A} P (a : A) (Q : A → workflowEnvironmentImpl → Prop) :
  (∀ e, P e → Q a e) → eh P (mret a) Q.
Proof. intros HQ e Hb Hc HP. rewrite wp_ret. auto. Qed.

Lemma eh_panic {A} P p (Q : A → workflowEnvironmentImpl → Prop) : no_conversion p → eh P (panic p) Q.
Proof. intros Hp e Hb Hc HP. rewrite wp_panic. auto. Qed.

Lemma eh_bind {A B} P (m : Env A) (f : A → Env B) Q R :
  eh P m Q → (∀ a, eh (Q a) (f a) R) → eh P (m ≫= f) R.
Proof.
  intros Hm Hf e Hb Hc HP. rewrite wp_bind. eapply wp_mono; [by apply Hm| |done].
  intros a e1 (Hb1 & Hc1 & HQ). by apply Hf.
Qed.

Lemma eh_conseq {A} (P P' : workflowEnvironmentImpl → Prop) (m : Env A)
    (Q Q' : A → workflowEnvironmentImpl → Prop) :
  eh P m Q → (∀ e, P' e → P e) → (∀ a e, Q a e → Q' a e) → eh P' m Q'.
Proof. intros Hm HP HQ e Hb Hc HP'. eapply wp_mono; [by apply Hm; auto| |done]. naive_solver. Qed.

Lemma eh_get {B} P (f : workflowEnvironmentImpl → Env B) R :
  (∀ e0, eh P (f e0) R) → eh P (get ≫= f) R.
Proof. intros Hf e Hb Hc HP. rewrite wp_bind, wp_get. by apply Hf. Qed.

Lemma eh_gentle {A} P (m : Env A) : Footprint P → gentle m → eh P m (λ _, P).
Proof.
  intros HF Hm e Hb Hc HP. eapply wp_mono; [by apply Hm| |].
  - intros a e' [? Hs]. split_and!; [done|by eapply callbacks_ok_footprint|by eapply HF].
  - intros p e' (? & Hs & ?). split_and!; [done|by eapply callbacks_ok_footprint|done].
Qed.

Lemma eh_then {A B} P (m : Env A) (f : A → Env B) R :
  Footprint P → gentle m → (∀ a, eh P (f a) R) → eh P (m ≫= f) R.
Proof. intros HF Hm Hf. eapply eh_bind; [by apply eh_gentle|exact Hf]. Qed.

Lemma gentle_ret {A} (a : A) : gentle (mret a).
Proof. intros e Hb. rewrite wp_ret. split; [done|reflexivity]. Qed.

Lemma gentle_panic {A} p : no_conversion p → gentle (A:=A) (panic p).
Proof. intros Hp e Hb. rewrite wp_panic. split_and!; [done|reflexivity|done]. Qed.

Lemma gentle_bind {A B} (m : Env A) (f : A → Env B) :
  gentle m → (∀ a, gentle (f a)) → gentle (m ≫= f).
Proof.
  intros Hm Hf e Hb. rewrite wp_bind. eapply wp_mono; [by apply Hm| |done].
  intros a e1 [Hb1 Hs1]. eapply wp_mono; [by apply (Hf a e1)| |].
  - intros b e2 [? ?]. split; [done|by etrans].
  - intros p e2 (? & ? & ?). split_and!; [done|by etrans|done].
Qed.

Lemma gentle_get : gentle get.
Proof. intros e Hb. rewrite wp_get. split; [done|reflexivity]. Qed.

(** Changes of the fields that nothing here depends on. *)
Lemma gentle_modify f :
  (∀ e, helper (f e) = helper e ∧ lat_callback <$> pendingLaTasks (f e) = lat_callback <$> pendingLaTasks e ∧
        nextCallback (f e) = nextCallback e ∧ deliveries (f e) = deliveries e) →
  gentle (modify f).
Proof.
  intros Hf e [Hwf Hd]. rewrite wp_modify. destruct (Hf e) as (Hh & Ht & Hn & Hl).
  split; split; rewrite ?Hh; done.
Qed.

Lemma gentle_lift {A} (o : outcome A) : (∀ p, o = Panicked p → no_conversion p) → gentle (lift o).
Proof.
  intros Ho e Hb. unfold wp, lift. destruct o; [split; [done|reflexivity]|].
  split_and!; [done|reflexivity|auto].
Qed.

(** ** Calls on the helper *)

Lemma wp_onHelper {A} (m : M A) (Q : A → workflowEnvironmentImpl → Prop) E e :
  wp (onHelper m) Q E e ↔ wp m (λ a h, Q a (set_helper h e)) (λ p h, E p (set_helper h e)) (helper e).
Proof. unfold wp, onHelper. by destruct (m (helper e)) as [[a|p] h]. Qed.

Lemma quiet_dataOK h h' :
  helper_wf h → extends h h' → quiet_rel h h' → dataOK h → dataOK h'.
Proof.
  intros Hwf He Hq Hd id e' He'. destruct (carriesData id) eqn:Hid.
  - destruct (Hq id e' He' Hid) as (e & Hidx & Heq).
    rewrite (extends_dataAt h h'), <- Heq by done. by apply Hd.
  - unfold carriesData in Hid. by destruct (commandID_commandType id).
Qed.

Lemma helper_step e h' :
  base e → helper_wf h' → extends (helper e) h' → quiet_rel (helper e) h' →
  base (set_helper h' e) ∧ same e (set_helper h' e).
Proof.
  intros [Hwf Hd] Hwf' He Hq. split; split; simpl; try done.
  - exact (quiet_dataOK _ _ Hwf He Hq Hd).
  - intros d. by apply extends_dataAt.
Qed.

Lemma gentle_onHelper {A} (m : M A) : calmOp m → gentle (onHelper m).
Proof.
  intros [Hm Hq] e Hb. rewrite wp_onHelper. specialize (Hm _ (base_wf e Hb) I).
  specialize (Hq _ (base_wf e Hb)). unfold wp, final in *.
  destruct (m (helper e)) as [[a|p] h']; simpl in *; destruct Hm as (? & ? & ?);
    destruct (helper_step e h') as [? ?]; auto.
Qed.

(** The command an event handler or a cancellation looks up. *)
Lemma eh_resolves P t (m : M ref) :
  Footprint P → calmOp m → resolves t m →
  eh P (onHelper m) (λ d e, P e ∧ typedAt t d e).
Proof.
  intros HF Hc Hr e Hb Hcb HP. rewrite wp_onHelper. destruct Hc as [Hm Hq].
  specialize (Hm _ (base_wf e Hb) I). specialize (Hq _ (base_wf e Hb)).
  specialize (Hr (helper e)). unfold wp, final, result in *.
  destruct (m (helper e)) as [[d|p] h']; simpl in *; destruct Hm as (? & ? & ?);
    destruct (helper_step e h') as [? Hs]; auto.
  - split_and!; [done|by eapply callbacks_ok_footprint|by eapply HF|].
    destruct (Hr d eq_refl) as (id & el & Hid & <- & <-).
    unfold typedAt. rewrite (same_data _ _ Hs). by apply (base_data e Hb).
  - split_and!; [done|by eapply callbacks_ok_footprint|done].
Qed.

(** ** Writing data and running callbacks *)

(** [e'] is [e] with data [D] at [d] and with [log] delivered. *)
Record wrote (e e' : workflowEnvironmentImpl) (d : ref) (D : option machineData)
    (log : list delivery) : Prop := {
  wrote_data : ∀ d', dataAt (helper e') d' = if decide (d' = d) then D else dataAt (helper e) d';
  wrote_tasks : pendingLaTasks e' = pendingLaTasks e;
  wrote_next : nextCallback e' = nextCallback e;
  wrote_log : deliveries e' = deliveries e ++ log;
}.

Lemma resultCallbacks_app l1 l2 :
  resultCallbacks (l1 ++ l2) = resultCallbacks l1 ++ resultCallbacks l2.
Proof. apply omap_app. Qed.

Lemma callbacks_ran e e' d D0 D1 w cb log :
  callbacks_ok e → dataAt (helper e) d = Some D0 → holds (Some D0) w cb →
  (∀ w' cb', holds D1 w' cb' → w' ≠ w ∧ holds (Some D0) w' cb') →
  resultCallbacks log = [cb] → wrote e e' d D1 log → callbacks_ok e'.
Proof.
  intros [H1 H2 H3 H4 H5] Hd Hcb HD Hlog [Wd Wt Wn Wl].
  assert (Hown : owns e (ownMachine d w) cb) by (simpl; by rewrite Hd).
  assert (Hold : ∀ o cb', owns e' o cb' → owns e o cb' ∧ o ≠ ownMachine d w).
  { intros [d' w'|i] cb'; simpl; [|by rewrite Wt].
    rewrite Wd. destruct (decide (d' = d)) as [->|Hne].
    - intros [? ?]%HD. rewrite Hd. split; congruence.
    - split; congruence. }
  split; rewrite ?Wn, ?Wl, ?resultCallbacks_app, ?Hlog.
  - intros o cb' [? _]%Hold. eauto.
  - intros o1 o2 cb' [? _]%Hold [? _]%Hold. eauto.
  - intros o cb' [Ho Hne]%Hold. rewrite elem_of_app, list_elem_of_singleton.
    intros [?| ->]; [by eapply H3|]. by apply Hne, (H2 _ _ cb).
  - apply NoDup_app. split_and!; [done| |apply NoDup_singleton].
    intros x Hx ->%list_elem_of_singleton. by eapply H3.
  - intros x. rewrite elem_of_app, list_elem_of_singleton. intros [?| ->]; eauto.
Qed.

Lemma callbacks_attach e e' d D :
  callbacks_ok e → dataAt (helper e) d = None →
  (∀ w cb, holds (Some D) w cb → free cb e) →
  (∀ cb, holds (Some D) true cb → ¬ holds (Some D) false cb) →
  wrote e e' d (Some D) [] → callbacks_ok e'.
Proof.
  intros [H1 H2 H3 H4 H5] Hd Hfree Hdist [Wd Wt Wn Wl]. rewrite app_nil_r in Wl.
  assert (Hown : ∀ o cb, owns e' o cb →
    owns e o cb ∨ ∃ w, o = ownMachine d w ∧ holds (Some D) w cb ∧ free cb e).
  { intros [d' w'|i] cb; simpl; [|rewrite Wt; by left].
    rewrite Wd. destruct (decide (d' = d)) as [->|Hne]; [|by left]. right. eauto. }
  split; rewrite ?Wn, ?Wl; [| | |done|done].
  - intros o cb [?|(w & _ & _ & ? & _)]%Hown; eauto.
  - intros o1 o2 cb [Ho1|(w1 & -> & Hw1 & Hf1)]%Hown [Ho2|(w2 & -> & Hw2 & Hf2)]%Hown.
    + eauto.
    + destruct Hf2 as (_ & Hf2 & _). by destruct (Hf2 o1).
    + destruct Hf1 as (_ & Hf1 & _). by destruct (Hf1 o2).
    + destruct w1, w2; try done; [destruct (Hdist cb Hw1 Hw2)|destruct (Hdist cb Hw2 Hw1)].
  - intros o cb [?|(w & _ & _ & _ & _ & ?)]%Hown; eauto.
Qed.

Lemma callbacks_direct e e' cb log :
  callbacks_ok e → free cb e → resultCallbacks log = [cb] →
  helper e' = helper e → pendingLaTasks e' = pendingLaTasks e → nextCallback e' = nextCallback e →
  deliveries e' = deliveries e ++ log → callbacks_ok e'.
Proof.
  intros [H1 H2 H3 H4 H5] (Hb & Hno & Hlog) Hr Eh Et En El.
  assert (Hown : ∀ o c, owns e' o c ↔ owns e o c).
  { intros [] c; simpl; by rewrite ?Eh, ?Et. }
  split; rewrite ?En, ?El, ?resultCallbacks_app, ?Hr.
  - intros o c Ho%Hown. eauto.
  - intros o1 o2 c Ho1%Hown Ho2%Hown. eauto.
  - intros o c Ho%Hown. rewrite elem_of_app, list_elem_of_singleton.
    intros [?| ->]; [by eapply H3|by eapply Hno].
  - apply NoDup_app. split_and!; [done| |apply NoDup_singleton].
    by intros x Hx ->%list_elem_of_singleton.
  - intros x. rewrite elem_of_app, list_elem_of_singleton. intros [?| ->]; eauto.
Qed.

(** *** [setData] *)

Lemma dataAt_set_machine h d m D d' :
  dataAt (set_machine d (m_set_data D m) h) d' = if decide (d' = d) then D else dataAt h d'.
Proof.
  unfold dataAt, set_machine; simpl. case_decide as Hd.
  - subst. by rewrite lookup_insert_eq.
  - by rewrite lookup_insert_ne.
Qed.

Lemma run_setData d m D h :
  machines h !! d = Some m → setData d D h = (Returned tt, set_machine d (m_set_data D m) h).
Proof. intros Hm. by apply run_update. Qed.

Lemma wf_setData h d m D :
  helper_wf h → machines h !! d = Some m → helper_wf (set_machine d (m_set_data D m) h).
Proof.
  intros Hwf Hm. eapply (wf_set_machine h d m); [done|done|done| |done|].
  - exact (wf_kind h Hwf d m Hm).
  - intros c Hc. by eapply (wf_cancelation h Hwf d m).
Qed.

Lemma dataOK_setData h d m D :
  dataOK h → (∀ id el, commands h !! id = Some el → elem_value el = d →
    typedData (commandID_commandType id) D = true) →
  dataOK (set_machine d (m_set_data D m) h).
Proof.
  intros Hd HD id el Hid. simpl in Hid. rewrite dataAt_set_machine.
  case_decide as Heq; [by eapply HD|by apply Hd].
Qed.

(** Data of the same type may replace the data of a command. *)
Definition alike (D0 D1 : machineData) : Prop :=
  ∀ t, typedData t (Some D0) = typedData t (Some D1).

Lemma replaceData e d D0 D1 log :
  base e → dataAt (helper e) d = Some D0 → alike D0 D1 →
  ∃ h', setData d (Some D1) (helper e) = (Returned tt, h') ∧
    (∀ e', helper e' = h' → base e') ∧
    (∀ e', helper e' = h' → pendingLaTasks e' = pendingLaTasks e →
       nextCallback e' = nextCallback e → deliveries e' = deliveries e ++ log →
       wrote e e' d (Some D1) log).
Proof.
  intros [Hwf Hd] HD0 Halike. unfold dataAt in HD0.
  destruct (machines (helper e) !! d) as [m|] eqn:Hm; [|done]. simpl in HD0.
  exists (set_machine d (m_set_data (Some D1) m) (helper e)).
  split_and!; [by apply run_setData| |].
  - intros e' He'. split; rewrite He'; [by apply wf_setData|]. apply dataOK_setData; [done|].
    intros id el Hid <-. rewrite <- Halike, <- HD0. specialize (Hd id el Hid).
    unfold dataAt in Hd. by rewrite Hm in Hd.
  - intros e' He' Ht Hn Hl. split; [|done..]. intros d'. rewrite He'. apply dataAt_set_machine.
Qed.

Lemma run_onHelper {A} (m : M A) e o h : m (helper e) = (o, h) → onHelper m e = (o, set_helper h e).
Proof. intros Hm. unfold onHelper. by rewrite Hm. Qed.

Lemma run_getData d e : base e → ∀ D, dataAt (helper e) d = Some D →
  onHelper (getData d) e = (Returned (Some D), e).
Proof.
  intros _ D HD. unfold dataAt in HD. destruct (machines (helper e) !! d) as [m|] eqn:Hm; [|done].
  simpl in HD. unfold onHelper, getData, mbind, go_bind. rewrite (run_deref d m), <- HD by done.
  simpl. by destruct e.
Qed.

(** *** [handle] *)

(** The data of a command whose outcome is still to be delivered to [cb]. *)
Definition awaits (D : machineData) (cb : nat) : Prop :=
  match D with
  | scheduledTimer c false | scheduledActivity c _ false _ _
  | scheduledChildWorkflow c _ _ false _ | scheduledCancellation c false
  | scheduledSignal c false => c = cb
  | _ => False
  end.

(** The same data with the outcome delivered. *)
Definition delivered (D : machineData) : machineData :=
  match D with
  | scheduledTimer c _ => scheduledTimer c true
  | scheduledActivity c w _ ty fc => scheduledActivity c w true ty fc
  | scheduledChildWorkflow c s w _ fc => scheduledChildWorkflow c s w true fc
  | scheduledCancellation c _ => scheduledCancellation c true
  | scheduledSignal c _ => scheduledSignal c true
  | D => D
  end.

Lemma handle_spec d D cb r err e :
  base e → dataAt (helper e) d = Some D → awaits D cb →
  ∃ e', handle d r err e = (Returned tt, e') ∧ base e' ∧
    wrote e e' d (Some (delivered D)) [mkDelivery cb (resultArgs r err)].
Proof.
  intros Hb HD Haw.
  destruct (replaceData e d D (delivered D) [mkDelivery cb (resultArgs r err)] Hb HD)
    as (h' & Hset & Hbase & Hwrote); [by intros []; destruct D|].
  exists (set_deliveries (deliveries e ++ [mkDelivery cb (resultArgs r err)]) (set_helper h' e)).
  split_and!; [|by apply Hbase|by apply Hwrote].
  unfold handle. rewrite (bind_returned _ _ _ _ _ (run_getData d e Hb D HD)).
  destruct D as [? []|? ? [] ? ?|?|? ? ? [] ?|? []|? []]; try done; simpl in Haw; subst;
    by rewrite (bind_returned _ _ _ _ _ (run_onHelper _ _ _ _ Hset)).
Qed.

Lemma eh_handle P d r err :
  (∀ e, P e → ∃ D cb, dataIs d D e ∧ awaits D cb) → eh P (handle d r err) (λ _ _, True).
Proof.
  intros HP e Hb Hc HPe. destruct (HP e HPe) as (D & cb & HD & Haw).
  destruct (handle_spec d D cb r err e Hb HD Haw) as (e' & He' & Hb' & Hw).
  unfold wp. rewrite He'. split_and!; [done| |done].
  eapply (callbacks_ran e e' d D (Some (delivered D)) true cb); [done|done| | | |exact Hw]; [..|done].
  - by destruct D as [? []|? ? [] ? ?|?|? ? ? [] ?|? []|? []].
  - intros w' cb'. by destruct D as [? []|? ? [] ? ?|?|? ? ? [] ?|? []|? []], w'.
Qed.

(** *** Nexus callbacks *)

Lemma eh_runStarted d tok err :
  eh (typedAt commandTypeNexusOperation d) (runStarted d tok err)
    (λ _, typedAt commandTypeNexusOperation d).
Proof.
  intros e Hb Hc Ht. unfold typedAt in *. destruct (dataAt (helper e) d) as [D|] eqn:HD; [|done].
  destruct D as [| |scb ccb ty ep sv op fc| | |]; try done. unfold wp, runStarted.
  rewrite (bind_returned _ _ _ _ _ (run_getData d e Hb _ HD)).
  destruct scb as [cb|]; [|simpl; by rewrite HD].
  destruct (replaceData e d _ (scheduledNexusOperation None ccb ty ep sv op fc)
    [mkDelivery cb (tokenArgs tok err)] Hb HD) as (h' & Hset & Hbase & Hwrote); [done|].
  rewrite (bind_returned (invoke _ _) _ e tt (set_deliveries (deliveries e ++ _) e)) by done.
  rewrite (run_onHelper (setData _ _) (set_deliveries _ e) _ h' Hset).
  set (e' := set_helper _ _). pose proof (Hwrote e' eq_refl eq_refl eq_refl eq_refl) as Hw.
  split_and!; [by apply Hbase| |].
  - eapply (callbacks_ran e e' d _ _ false cb); [done|exact HD|done| | |exact Hw]; [|done].
    by intros [] cb'.
  - rewrite (wrote_data _ _ _ _ _ Hw). by rewrite decide_True.
Qed.

Lemma eh_runCompleted d r err :
  eh (typedAt commandTypeNexusOperation d) (runCompleted d r err) (λ _ _, True).
Proof.
  intros e Hb Hc Ht. unfold typedAt in *. destruct (dataAt (helper e) d) as [D|] eqn:HD; [|done].
  destruct D as [| |scb ccb ty ep sv op fc| | |]; try done. unfold wp, runCompleted.
  rewrite (bind_returned _ _ _ _ _ (run_getData d e Hb _ HD)).
  destruct ccb as [cb|]; [|done].
  destruct (replaceData e d _ (scheduledNexusOperation scb None ty ep sv op fc)
    [mkDelivery cb (payloadArgs r err)] Hb HD) as (h' & Hset & Hbase & Hwrote); [done|].
  rewrite (bind_returned (invoke _ _) _ e tt (set_deliveries (deliveries e ++ _) e)) by done.
  rewrite (run_onHelper (setData _ _) (set_deliveries _ e) _ h' Hset).
  set (e' := set_helper _ _). pose proof (Hwrote e' eq_refl eq_refl eq_refl eq_refl) as Hw.
  split_and!; [by apply Hbase| |done].
  eapply (callbacks_ran e e' d _ _ true cb); [done|exact HD|done| | |exact Hw]; [|done].
  by intros [] cb'.
Qed.

(** *** Attaching data to a new command *)

Lemma attach_base e h1 d t D :
  base e → helper_wf h1 → extends (helper e) h1 → adds t (helper e) d h1 →
  typedData t (Some D) = true →
  ∃ h2, setData d (Some D) h1 = (Returned tt, h2) ∧ base (set_helper h2 e) ∧
    dataAt (helper e) d = None ∧ wrote e (set_helper h2 e) d (Some D) [].
Proof.
  intros [Hwf Hd] Hwf1 He (Hnew & id & el & Ht & Hid & Hel & Hold) HD.
  assert (Hp : points d id h1) by (rewrite <- Hel; by apply (wf_index h1 Hwf1)).
  pose proof Hp as (m & Hm & Hmid).
  assert (Hdold : dataAt (helper e) d = None) by (unfold dataAt; by rewrite Hnew).
  exists (set_machine d (m_set_data (Some D) m) h1). split_and!; [by apply run_setData| |done|].
  - split; simpl; [by apply wf_setData|]. intros id' el' Hid'. simpl in Hid'.
    rewrite dataAt_set_machine. case_decide as Heq.
    + apply (wf_index h1 Hwf1) in Hid' as [_ (m' & Hm' & Hmid')]. rewrite Heq in Hm'.
      congruence.
    + rewrite (extends_dataAt _ _ _ He). apply Hd, Hold; [|done]. intros ->. congruence.
  - split; simpl; [|done..|by rewrite app_nil_r]. intros d'.
    rewrite dataAt_set_machine, (extends_dataAt _ _ _ He). done.
Qed.

Lemma eh_attach {B} P t (m : M ref) D (k : ref → Env B) R :
  creates t m → typedData t (Some D) = true →
  (∀ e, P e → ∀ w cb, holds (Some D) w cb → free cb e) →
  (∀ e cb, P e → holds (Some D) true cb → ¬ holds (Some D) false cb) →
  (∀ d, eh (λ _, True) (k d) R) →
  eh P (d ← onHelper m; _ ← onHelper (setData d (Some D)); k d) R.
Proof.
  intros [Hm Ha] HD Hfree Hdist Hk e Hb Hc HP. rewrite wp_bind, wp_onHelper.
  specialize (Hm _ (base_wf e Hb) I). specialize (Ha _ (base_wf e Hb)).
  unfold wp at 1. unfold wp at 1 in Hm. unfold wp in Ha.
  destruct (m (helper e)) as [[d|p] h1]; simpl in *; destruct Hm as (Hwf1 & He1 & Hp).
  - destruct (attach_base e h1 d t D Hb Hwf1 He1 Ha HD) as (h2 & Hset & Hb2 & Hnone & Hw).
    unfold wp. rewrite (bind_returned _ _ _ tt (set_helper h2 e)).
    + apply Hk; [done| |done]. eapply (callbacks_attach e _ d D); [done|done|by apply Hfree| |done].
      intros cb. by apply (Hdist e).
    + by apply (run_onHelper (setData d (Some D)) (set_helper h1 e)).
  - destruct (helper_step e h1) as [? Hs]; auto.
    split_and!; [done|by eapply callbacks_ok_footprint|done].
Qed.

(** *** Running callbacks directly *)

Lemma eh_invoke P cb args :
  (∀ e, P e → free cb e) → (∀ x err, args ≠ startedArgs x err) →
  eh P (invoke cb args) (λ _ _, True).
Proof.
  intros HP Hargs e [Hwf Hd] Hc HPe. unfold invoke. rewrite wp_modify. split_and!; [by split| |done].
  eapply (callbacks_direct e _ cb [mkDelivery cb args]); eauto.
  unfold resultCallbacks; simpl. destruct args; naive_solver.
Qed.

(** The start notification of a child is not counted. *)
Lemma eh_invoke_started P cb x err :
  (∀ e, P e → P (set_deliveries (deliveries e ++ [mkDelivery cb (startedArgs x err)]) e)) →
  eh P (invoke cb (startedArgs x err)) (λ _, P).
Proof.
  intros HP e [Hwf Hd] [H1 H2 H3 H4 H5] HPe. unfold invoke. rewrite wp_modify.
  split_and!; [by split| |by apply HP].
  split; simpl; rewrite ?resultCallbacks_app; simpl; rewrite ?app_nil_r; auto.
Qed.

Lemma free_started cb scb x err e :
  free cb e → free cb (set_deliveries (deliveries e ++ [mkDelivery scb (startedArgs x err)]) e).
Proof.
  intros (? & ? & ?). split_and!; [done|done|]. simpl. rewrite resultCallbacks_app. simpl.
  by rewrite app_nil_r.
Qed.

Lemma newClosure_spec e :
  base e → callbacks_ok e →
  let e' := set_nextCallback (S (nextCallback e)) e in
  newClosure e = (Returned (nextCallback e), e') ∧ base e' ∧ callbacks_ok e' ∧
  free (nextCallback e) e' ∧ (∀ cb, free cb e → free cb e' ∧ cb ≠ nextCallback e).
Proof.
  intros [Hwf Hd] [H1 H2 H3 H4 H5]. split_and!; [done|by split| | |].
  - split; simpl; auto.
    + intros o cb Ho. apply (H1 o) in Ho. lia.
    + intros cb Hcb. apply H5 in Hcb. lia.
  - split_and!; simpl; [lia| |].
    + intros o Ho. apply (H1 o) in Ho. lia.
    + intros Hcb. apply H5 in Hcb. lia.
  - intros cb (Hb & Hno & Hl). split; [|lia]. split_and!; simpl; [lia|done|done].
Qed.

Lemma eh_newClosure : eh (λ _, True) newClosure free.
Proof.
  intros e Hb Hc _. destruct (newClosure_spec e Hb Hc) as (Hrun & ? & ? & ? & _).
  unfold wp. rewrite Hrun. auto.
Qed.

Lemma eh_newClosure_again cb0 :
  eh (free cb0) newClosure (λ cb e, free cb0 e ∧ free cb e ∧ cb ≠ cb0).
Proof.
  intros e Hb Hc H0. destruct (newClosure_spec e Hb Hc) as (Hrun & ? & ? & ? & Hold).
  unfold wp. rewrite Hrun. destruct (Hold cb0 H0). auto.
Qed.
