(* ===== verification/Callbacks.v ===== *)
(** * Callbacks run at most once, and type assertions hold.

    The workflow code is any composition of the operations of the environment;
    the history is any sequence of events.  Whatever they are, no callback is
    run twice and no handler finds data of an unexpected type. *)

From stdpp Require Import base list gmap strings.
From S2P Require Import Prelude Proto CommandMachine CommandsHelper CommandInvariant CommandSend CommandReachable CommandEventIDs CommandData Flags Replay Errors Environment EventHandlers EnvironmentFacts.
Open Scope Z_scope.

(** ** Operations that leave callbacks alone *)

Create HintDb gentle discriminated.

#[export] Hint Resolve calm_getNextID calm_setCurrentWorkflowTaskStartedEventID
  calm_handleActivityTaskClosed calm_handleActivityTaskScheduled
  calm_handleActivityTaskCancelRequested calm_handleActivityTaskCanceled
  calm_handleNexusOperationScheduled calm_handleNexusOperationStarted
  calm_handleNexusOperationCompleted calm_recordVersionMarker calm_handleVersionMarker
  calm_recordSideEffectMarker calm_recordMutableSideEffectMarker
  calm_handleStartChildWorkflowExecutionInitiated calm_handleStartChildWorkflowExecutionFailed
  calm_handleRequestCancelExternalWorkflowExecutionInitiated
  calm_handleExternalWorkflowExecutionCancelRequested
  calm_handleRequestCancelExternalWorkflowExecutionFailed calm_upsertSearchAttributes
  calm_modifyProperties calm_handleSignalExternalWorkflowExecutionInitiated
  calm_handleSignalExternalWorkflowExecutionCompleted
  calm_handleSignalExternalWorkflowExecutionFailed calm_handleTimerClosed
  calm_handleTimerStarted calm_handleTimerCanceled calm_handleChildWorkflowExecutionStarted
  calm_handleChildWorkflowExecutionClosed calm_handleChildWorkflowExecutionCanceled
  calm_addProtocolMessage calm_getActivityAndScheduledEventIDs calm_recordLocalActivityMarker
  calm_getCommands calm_getNexusOperationCommand calm_handleNexusOperationCancelRequested
  calm_handleNexusOperationCancelRequestDelivered calm_requestCancelActivityTask
  calm_cancelTimer calm_requestCancelNexusOperation calm_requestCancelChild calm_deref
  calm_getState : gentle.
#[export] Hint Constants Opaque : gentle.

#[export] Hint Resolve gentle_get : gentle.
#[export] Hint Extern 1 (gentle (mret _)) => (apply gentle_ret) : gentle.
#[export] Hint Extern 1 (gentle (panic _)) => (by apply gentle_panic) : gentle.
#[export] Hint Extern 1 (gentle nilDereference) => (by apply gentle_panic) : gentle.
#[export] Hint Extern 1 (gentle (modify _)) =>
  (apply gentle_modify; intros ?; repeat case_match; by split_and!) : gentle.
#[export] Hint Extern 1 (gentle (onHelper _)) =>
  (apply gentle_onHelper; eauto 1 with gentle) : gentle.

Ltac gentle_steps :=
  repeat first
    [ solve [eauto 2 with gentle]
    | apply gentle_bind; [|intros ?]
    | progress cbv zeta
    | match goal with
      | |- gentle (if decide ?P then _ else _) => destruct (decide P)
      | |- gentle (if ?b then _ else _) => destruct b
      | |- gentle (match ?x with _ => _ end) => destruct x
      end ].

Lemma gentle_GenerateSequence : gentle GenerateSequence.
Proof. unfold GenerateSequence. gentle_steps. Qed.
#[export] Hint Resolve gentle_GenerateSequence : gentle.
Lemma gentle_GenerateSequenceID : gentle GenerateSequenceID.
Proof. unfold GenerateSequenceID. gentle_steps. Qed.
Lemma gentle_getNextSideEffectID : gentle getNextSideEffectID.
Proof. unfold getNextSideEffectID. gentle_steps. Qed.
Lemma gentle_getNextLocalActivityID : gentle getNextLocalActivityID.
Proof. unfold getNextLocalActivityID. gentle_steps. Qed.
Lemma gentle_SetCurrentReplayTime t : gentle (SetCurrentReplayTime t).
Proof. unfold SetCurrentReplayTime. gentle_steps. Qed.
Lemma gentle_getRandomStream n : gentle (getRandomStream n).
Proof. unfold getRandomStream. gentle_steps. Qed.
Lemma gentle_reseedRandoms r : gentle (reseedRandoms r).
Proof. unfold reseedRandoms. gentle_steps. Qed.
Lemma gentle_updateSearchAttributes a : gentle (updateWorkflowInfoWithSearchAttributes a).
Proof.
  unfold updateWorkflowInfoWithSearchAttributes. apply gentle_bind; [eauto with gentle|]. intros e.
  apply gentle_bind; [|intros ?; gentle_steps]. apply gentle_lift.
  intros p Hp. unfold mergeSearchAttributes in Hp. repeat case_match; by simplify_eq.
Qed.
Lemma gentle_updateMemo a : gentle (updateWorkflowInfoWithMemo a).
Proof.
  unfold updateWorkflowInfoWithMemo. apply gentle_bind; [eauto with gentle|]. intros e.
  apply gentle_bind; [|intros ?; gentle_steps]. apply gentle_lift.
  intros p Hp. unfold mergeMemo in Hp. repeat case_match; by simplify_eq.
Qed.
Lemma gentle_mustEncode {A} (r : string + A) : gentle (mustEncode r).
Proof. unfold mustEncode. gentle_steps. Qed.
Lemma gentle_validateVersion c v lo hi : gentle (validateVersion c v lo hi).
Proof. unfold validateVersion. gentle_steps. Qed.
Lemma gentle_Complete r err : gentle (Complete r err).
Proof. unfold Complete. gentle_steps. Qed.
Lemma gentle_RequestCancelChildWorkflow n w : gentle (RequestCancelChildWorkflow n w).
Proof. unfold RequestCancelChildWorkflow. gentle_steps. Qed.
#[export] Hint Resolve gentle_GenerateSequenceID gentle_getNextSideEffectID
  gentle_getNextLocalActivityID gentle_SetCurrentReplayTime gentle_getRandomStream
  gentle_reseedRandoms gentle_updateSearchAttributes gentle_updateMemo @gentle_mustEncode
  gentle_validateVersion gentle_Complete gentle_RequestCancelChildWorkflow : gentle.

Lemma gentle_RequestCancelLocalActivity i : gentle (RequestCancelLocalActivity i).
Proof.
  apply gentle_modify. intros e. split_and!; try done. simpl. apply map_eq. intros j.
  rewrite !lookup_fmap. destruct (decide (j = i)) as [->|Hne].
  - rewrite lookup_alter_eq. by destruct (pendingLaTasks e !! i).
  - by rewrite lookup_alter_ne.
Qed.

Lemma gentle_ResetLAWFTAttemptCounts : gentle ResetLAWFTAttemptCounts.
Proof.
  apply gentle_modify. intros e. split_and!; try done. simpl. by rewrite <- map_fmap_compose.
Qed.
#[export] Hint Resolve gentle_RequestCancelLocalActivity gentle_ResetLAWFTAttemptCounts : gentle.

Section Calls.
Context (allowed : gmap sdkFlag bool) (dc defaultDC : DataConverter) (envFC : nat).
Context (provider : option (WorkflowInfo → string → Z → Z → option PreferredVersion)).
Context (rangeVersions : gmap string Z → list (string * Z)).

Lemma gentle_TryUse flag : gentle (TryUse allowed flag).
Proof.
  intros e [Hwf Hd]. unfold wp, TryUse. destruct (tryUse _ _ _ _) as [b sf]. by split; split.
Qed.
#[local] Hint Resolve gentle_TryUse : gentle.

(** [TemporalChangeVersion] is reserved for the versions themselves. *)
Lemma gentle_UpsertSearchAttributes attrs g :
  match attrs !! TemporalChangeVersion with
  | None | Some (searchAny (goStrings (_ :: _))) => True
  | _ => False
  end →
  gentle (UpsertSearchAttributes defaultDC attrs g).
Proof.
  intros Hreserved. unfold UpsertSearchAttributes. destruct (validateAndSerializeSearchAttributes _ _);
    [gentle_steps|]. apply gentle_bind.
  - repeat case_match; try done; eauto with gentle.
  - intros id. gentle_steps.
Qed.

Lemma gentle_UpsertTypedSearchAttributes attrs g :
  gentle (UpsertTypedSearchAttributes defaultDC attrs g).
Proof.
  unfold UpsertTypedSearchAttributes. destruct (serializeTypedSearchAttributes _ _) as [|raw];
    [gentle_steps|]. case_decide as Hr; [gentle_steps|]. apply gentle_UpsertSearchAttributes.
  rewrite lookup_fmap. destruct (raw !! TemporalChangeVersion); [by destruct Hr|done].
Qed.

Lemma gentle_UpsertMemo memo g : gentle (UpsertMemo allowed dc defaultDC memo g).
Proof. unfold UpsertMemo. gentle_steps. Qed.

Lemma gentle_recordVersion c v g :
  gentle (recordVersion allowed dc defaultDC rangeVersions c v g).
Proof.
  unfold recordVersion. apply gentle_bind; [eauto with gentle|]. intros e. cbv zeta.
  set (sa := createSearchAttributesForChangeVersion _ _ _ _).
  destruct (validateAndSerializeSearchAttributes _ _); [eauto with gentle|].
  apply gentle_bind; [eauto with gentle|]. intros b.
  apply gentle_bind; [eauto with gentle|]. intros ?. destruct (negb _); [|eauto with gentle].
  apply gentle_bind; [|intros ?; eauto with gentle]. apply gentle_UpsertSearchAttributes.
  unfold sa, createSearchAttributesForChangeVersion. by rewrite lookup_singleton_eq.
Qed.
#[local] Hint Resolve gentle_recordVersion : gentle.

Lemma gentle_resolvePreferredVersion i c lo hi :
  gentle (lift (resolvePreferredVersion provider i c lo hi)).
Proof.
  apply gentle_lift. intros p Hp. unfold resolvePreferredVersion in Hp. repeat case_match; by simplify_eq.
Qed.
#[local] Hint Resolve gentle_resolvePreferredVersion : gentle.

Lemma gentle_GetVersion c lo hi g :
  gentle (GetVersion allowed dc defaultDC provider rangeVersions c lo hi g).
Proof. unfold GetVersion. gentle_steps. Qed.

Lemma gentle_lookupMutableSideEffect id : gentle (lookupMutableSideEffect id).
Proof. unfold lookupMutableSideEffect. gentle_steps. Qed.
Lemma gentle_recordMutableSideEffect id n data s g :
  gentle (recordMutableSideEffect dc id n data s g).
Proof. unfold recordMutableSideEffect. gentle_steps. Qed.
Lemma gentle_encodeValue v : gentle (encodeValue dc v).
Proof. unfold encodeValue. eauto with gentle. Qed.
Lemma gentle_isEqualValue v o eq : gentle (isEqualValue dc v o eq).
Proof. unfold isEqualValue. gentle_steps. Qed.
#[local] Hint Resolve gentle_lookupMutableSideEffect gentle_recordMutableSideEffect
  gentle_encodeValue gentle_isEqualValue : gentle.

Lemma gentle_MutableSideEffect id f eq s g :
  gentle f → gentle (MutableSideEffect dc id f eq s g).
Proof. intros Hf. unfold MutableSideEffect. gentle_steps. Qed.

(** ** Operations that take a callback *)

(** The callbacks of new data are free. *)
Ltac held := intros ? ? [] ? ?; simpl in *; simplify_eq; tauto.

(** Reading the data of a command whose type is known. *)
Lemma eh_getData {B} P t d (k : option machineData → Env B) R :
  dataType t = true →
  (∀ D, typedData t (Some D) = true → eh (λ e, P e ∧ dataIs d D e) (k (Some D)) R) →
  eh (λ e, P e ∧ typedAt t d e) (onHelper (getData d) ≫= k) R.
Proof.
  intros Hdt Hk e Hb Hc [HP Ht]. unfold typedAt in Ht.
  destruct (dataAt (helper e) d) as [D|] eqn:HD.
  - unfold wp. rewrite (bind_returned _ _ _ _ _ (run_getData d e Hb D HD)).
    by apply (Hk D Ht).
  - by destruct t.
Qed.

Lemma eh_weaken {A} P (m : Env A) R : eh (λ _, True) m R → eh P m R.
Proof. intros Hm. by eapply eh_conseq. Qed.

Lemma eh_done {A} P (a : A) : eh P (mret a) (λ _ _, True).
Proof. by apply eh_ret. Qed.

Lemma eh_fails {A} P p (Q : A → workflowEnvironmentImpl → Prop) :
  p ≠ runtimeError "interface conversion" → eh P (panic p) Q.
Proof. apply eh_panic. Qed.

#[local] Hint Resolve gentle_UpsertMemo gentle_GetVersion : gentle.

Lemma eh_ExecuteActivity p cb :
  eh (free cb) (ExecuteActivity dc envFC p cb) (λ _ _, True).
Proof.
  unfold ExecuteActivity. apply eh_then; [apply _|gentle_steps|]. intros i. cbv zeta.
  apply eh_get. intros e0. destruct (BuildUserMetadata _ _ _).
  - eapply eh_bind; [by apply eh_invoke|]. intros ?. apply eh_done.
  - eapply eh_attach; [apply creates_scheduleActivityTask|done| |by intros ? ? ? ? []|intros ?; apply eh_done].
    held.
Qed.

Lemma eh_NewTimer d s g cb : eh (free cb) (NewTimer dc d s g cb) (λ _ _, True).
Proof.
  unfold NewTimer. case_decide; [|case_decide].
  1-2: eapply eh_bind; [by apply eh_invoke|]; intros ?; apply eh_done.
  apply eh_then; [apply _|gentle_steps|]. intros i.
  eapply eh_attach; [apply creates_startTimer|done| |by intros ? ? ? ? []|intros ?; apply eh_done].
  held.
Qed.

(** Attaching as the last step. *)
Lemma eh_attach_last P t (m : M ref) D :
  creates t m → typedData t (Some D) = true →
  (∀ e, P e → ∀ w cb, holds (Some D) w cb → free cb e) →
  (∀ e cb, P e → holds (Some D) true cb → ¬ holds (Some D) false cb) →
  eh P (d ← onHelper m; onHelper (setData d (Some D))) (λ _ _, True).
Proof.
  intros Hm HD Hf Hdist e Hb Hc HP.
  pose proof (eh_attach P t m D (λ _, mret tt) _ Hm HD Hf Hdist (λ _, eh_done _ tt) e Hb Hc HP) as H.
  rewrite wp_bind in H |- *. eapply wp_mono; [exact H| |done].
  intros d e1. rewrite wp_bind. intros H1. eapply wp_mono; [exact H1| |done].
  intros [] e2. by rewrite wp_ret.
Qed.

Lemma eh_RequestCancelExternalWorkflow n w r g cb :
  eh (free cb) (RequestCancelExternalWorkflow n w r g cb) (λ _ _, True).
Proof.
  unfold RequestCancelExternalWorkflow. apply eh_then; [apply _|gentle_steps|]. intros i.
  eapply eh_attach_last; [apply creates_requestCancelExternal|done| |by intros ? ? ? ? []].
  held.
Qed.

Lemma eh_SignalExternalWorkflow n w r s p hd b g cb :
  eh (free cb) (SignalExternalWorkflow n w r s p hd b g cb) (λ _ _, True).
Proof.
  unfold SignalExternalWorkflow. apply eh_then; [apply _|gentle_steps|]. intros i.
  eapply eh_attach_last; [apply creates_signalExternal|done| |by intros ? ? ? ? []].
  held.
Qed.

Lemma eh_reportNotStarted cb scb err :
  eh (free cb) (reportNotStarted allowed cb scb err) (λ _ _, True).
Proof.
  unfold reportNotStarted. apply eh_then; [apply _|eauto using gentle_TryUse|]. intros b.
  eapply (eh_bind _ _ _ (λ _, free cb)); [|intros ?; by apply eh_invoke].
  destruct b; [|by apply eh_ret]. apply eh_invoke_started. intros e. apply free_started.
Qed.

Lemma eh_ExecuteChildWorkflow p cb scb :
  eh (free cb) (ExecuteChildWorkflow allowed dc defaultDC envFC p cb scb) (λ _ _, True).
Proof.
  unfold ExecuteChildWorkflow. apply eh_get. intros e0.
  apply eh_then; [apply _|gentle_steps|]. intros w.
  apply eh_then; [apply _|eauto using gentle_TryUse|]. intros b.
  destruct (GetWorkflowMemo _ _ _ _); [apply eh_reportNotStarted|].
  destruct (SerializeSearchAttributes _ _ _); [apply eh_reportNotStarted|]. cbv zeta.
  destruct (BuildUserMetadata _ _ _); [by apply eh_invoke|].
  intros e Hb Hc Hf. rewrite wp_bind, wp_onHelper.
  set (a := childAttributes _ _ _ _ _). set (md := o1). set (g := ewp_EventGroupMarkers p).
  pose proof (hoare_startChildWorkflowExecution a md g _ (base_wf e Hb) I) as Hm.
  pose proof (creates_startChildWorkflowExecution a md g _ (base_wf e Hb)) as Ha.
  unfold wp at 1. unfold wp at 1 in Hm. unfold wp in Ha.
  destruct (startChildWorkflowExecution a md g (helper e)) as [[[x|d]|q] h1]; simpl in *;
    destruct Hm as (Hwf1 & He1 & Hq).
  - destruct (helper_step e h1) as [? Hs]; auto.
    apply eh_reportNotStarted; [done|by eapply callbacks_ok_footprint|by eapply free_footprint].
  - destruct (attach_base e h1 d _ (scheduledChildWorkflow cb scb (ewp_WaitForCancellation p) false
      (default envFC (ewp_FailureConverter p))) Hb Hwf1 He1 Ha) as (h2 & Hset & Hb2 & Hnone & Hw);
      [done|].
    unfold wp. rewrite (run_onHelper (setData d _) (set_helper h1 e) _ h2) by exact Hset.
    split_and!; [exact Hb2| |done].
    eapply (callbacks_attach e _ d); [done|done| | |exact Hw]; [|by intros ? ? []].
    intros [] cb' Hcb; simpl in Hcb; [by subst|done].
  - destruct (helper_step e h1) as [? Hs]; auto.
    split_and!; [done|by eapply callbacks_ok_footprint|done].
Qed.

(** *** Nexus operations *)

Lemma eh_ExecuteNexusOperation p cb scb :
  scb ≠ cb →
  eh (λ e, free cb e ∧ free scb e) (ExecuteNexusOperation dc envFC p cb scb) (λ _ _, True).
Proof.
  intros Hne. unfold ExecuteNexusOperation. apply eh_then; [apply _|gentle_steps|]. intros seq.
  cbv zeta. destruct (BuildUserMetadata _ _ _).
  - eapply eh_bind; [apply eh_invoke; [tauto|done]|]. intros ?. apply eh_done.
  - eapply eh_attach; [apply creates_scheduleNexusOperation|done|held| |intros ?; apply eh_done].
    simpl. intros ? ? _ [= <-] [= ?]. done.
Qed.

Lemma eh_RequestCancelNexusOperation seq :
  eh (λ _, True) (RequestCancelNexusOperation seq) (λ _ _, True).
Proof.
  unfold RequestCancelNexusOperation. eapply eh_bind.
  { apply (eh_resolves (λ _, True)); [apply _|eauto with gentle|
      apply resolves_requestCancelNexusOperation]. }
  intros d. eapply eh_conseq; [apply (eh_getData (typedAt commandTypeNexusOperation d)
    commandTypeNexusOperation d)|tauto|done]; [done|].
  intros [] Ht; try done. apply eh_then; [apply _|gentle_steps|]. intros s.
  destruct (_ || _); [|apply eh_done].
  eapply eh_bind; [eapply eh_conseq; [apply eh_runStarted|by intros ? [? _]|intros ??; exact id]|].
  intros ?. apply eh_runCompleted.
Qed.

(** Dropping the callbacks of a command. *)
Lemma eh_AbandonNexusOperation seq :
  eh (λ _, True) (AbandonNexusOperation seq) (λ _ _, True).
Proof.
  unfold AbandonNexusOperation. eapply eh_bind.
  { apply (eh_resolves (λ _, True)); [apply _|eauto with gentle|
      apply resolves_getNexusOperationCommand]. }
  intros d. apply eh_getData; [done|]. intros [] Ht; try done.
  intros e Hb [H1 H2 H3 H4 H5] [_ HD]. rewrite wp_onHelper. unfold wp.
  destruct (replaceData e d _ (scheduledNexusOperation None None cancellationType endpoint service
    operation failureConverter) [] Hb HD) as (h' & Hset & Hbase & Hwrote); [done|].
  rewrite Hset. split_and!; [by apply Hbase| |done].
  destruct (Hwrote (set_helper h' e)) as [Wd Wt Wn Wl]; [done..|by rewrite app_nil_r|].
  assert (Hown : ∀ o cb, owns (set_helper h' e) o cb → owns e o cb).
  { intros [d' w|i] cb; simpl; [|done]. simpl in Wd. rewrite Wd. case_decide; [by destruct w|done]. }
  split; simpl; eauto.
Qed.

(** *** Local activities and side effects *)

Lemma eh_ExecuteLocalActivity p cb : eh (free cb) (ExecuteLocalActivity p cb) (λ _ _, True).
Proof.
  unfold ExecuteLocalActivity. apply eh_then; [apply _|gentle_steps|]. intros i.
  eapply eh_bind; [|intros ?; apply eh_done].
  intros e [Hwf Hd] [H1 H2 H3 H4 H5] (Hb & Hno & Hl). rewrite wp_modify.
  split_and!; [by split| |instantiate (1 := λ _ _, True); done].
  set (e' := set_unstartedLaTasks _ _).
  assert (Hown : ∀ o c, owns e' o c → owns e o c ∨ (o = ownTask i ∧ c = cb)).
  { intros [d w|j] c; simpl; [by left|]. destruct (decide (j = i)) as [->|Hne].
    - rewrite lookup_insert_eq. intros [= <-]. by right.
    - rewrite lookup_insert_ne by done. by left. }
  split; simpl; [| | |done|done].
  - intros o c [?|[-> ->]]%Hown; eauto.
  - intros o1 o2 c [?|[-> ->]]%Hown [?|[-> ?]]%Hown; [eauto|subst|subst|done];
      [by destruct (Hno o1)|by destruct (Hno o2)].
  - intros o c [?|[-> ->]]%Hown; eauto.
Qed.

Lemma eh_SideEffect f cb s g : gentle f → eh (free cb) (SideEffect dc f cb s g) (λ _ _, True).
Proof.
  intros Hf. unfold SideEffect. apply eh_then; [apply _|gentle_steps|]. intros i.
  apply eh_get. intros e0. apply eh_then; [apply _|gentle_steps|]. intros [r [err|]].
  - by apply eh_invoke.
  - destruct (BuildUserMetadata _ _ _); [by apply eh_panic|].
    apply eh_then; [apply _|gentle_steps|]. intros ?. by apply eh_invoke.
Qed.

Lemma eh_RequestCancelActivity a : eh (λ _, True) (RequestCancelActivity a) (λ _ _, True).
Proof.
  unfold RequestCancelActivity. eapply eh_bind.
  { apply (eh_resolves (λ _, True)); [apply _|eauto with gentle|apply resolves_requestCancelActivityTask]. }
  intros d. apply eh_getData; [done|]. intros [] Ht; try done. destruct handled; [apply eh_done|].
  apply eh_then; [apply _|gentle_steps|]. intros m. destruct (_ || _); [|apply eh_done].
  apply eh_handle. intros e [_ HD]. by eexists _, _.
Qed.

Lemma eh_RequestCancelTimer t : eh (λ _, True) (RequestCancelTimer t) (λ _ _, True).
Proof.
  unfold RequestCancelTimer. eapply eh_bind.
  { apply (eh_resolves (λ _, True)); [apply _|eauto with gentle|apply resolves_cancelTimer]. }
  intros d. apply eh_getData; [done|]. intros [] Ht; try done. destruct handled; [apply eh_done|].
  apply eh_handle. intros e [_ HD]. by eexists _, _.
Qed.
End Calls.
