(* ===== verification/Deliveries.v ===== *)
(** * Every callback is run at most once; no type assertion fails.

    Workflow code is any composition of the operations of the environment, and
    the history any sequence of events, well formed or not. *)

From stdpp Require Import base list gmap strings.
From S2P Require Import Prelude Proto CommandMachine CommandsHelper CommandInvariant CommandReachable CommandEventIDs CommandLifecycle CommandData Flags Replay Errors Environment EventHandlers EnvironmentFacts Callbacks.
Open Scope Z_scope.

Section Deliveries.
Context (allowed : gmap sdkFlag bool) (dc defaultDC : DataConverter) (envFC : nat).
Context (provider : option (WorkflowInfo → string → Z → Z → option PreferredVersion)).
Context (rangeVersions : gmap string Z → list (string * Z)).
Context (FailureToError : nat → option Failure → option goError).
Context (ErrorToFailure : nat → option goError → option Failure).
Context (HistoryEventToString : HistoryEvent → string) (EventType_String : EventType → string).
Context (stackTrace : string).

(** ** Workflow code *)

(** Compositions of the operations of the environment; every callback passed
    is a new closure, and the functions passed to side effects do not use the
    environment. *)
Inductive workflowCode : ∀ {A : Type}, Env A → Prop :=
| code_ret {A} (a : A) : workflowCode (mret a)
| code_bind {A B} (m : Env A) (k : A → Env B) :
    workflowCode m → (∀ a, workflowCode (k a)) → workflowCode (m ≫= k)
| code_get : workflowCode get
| code_panic {A} s : workflowCode (A:=A) (panic (panicString s))
| code_ExecuteActivity p : workflowCode (cb ← newClosure; ExecuteActivity dc envFC p cb)
| code_RequestCancelActivity a : workflowCode (RequestCancelActivity a)
| code_NewTimer d s g : workflowCode (cb ← newClosure; NewTimer dc d s g cb)
| code_RequestCancelTimer t : workflowCode (RequestCancelTimer t)
| code_RequestCancelChildWorkflow n w : workflowCode (RequestCancelChildWorkflow n w)
| code_RequestCancelExternalWorkflow n w r g :
    workflowCode (cb ← newClosure; RequestCancelExternalWorkflow n w r g cb)
| code_SignalExternalWorkflow n w r s p hd b g :
    workflowCode (cb ← newClosure; SignalExternalWorkflow n w r s p hd b g cb)
| code_ExecuteChildWorkflow p :
    workflowCode (cb ← newClosure; scb ← newClosure;
                  ExecuteChildWorkflow allowed dc defaultDC envFC p cb scb)
| code_ExecuteNexusOperation p :
    workflowCode (cb ← newClosure; scb ← newClosure; ExecuteNexusOperation dc envFC p cb scb)
| code_RequestCancelNexusOperation s : workflowCode (RequestCancelNexusOperation s)
| code_AbandonNexusOperation s : workflowCode (AbandonNexusOperation s)
| code_ExecuteLocalActivity p : workflowCode (cb ← newClosure; ExecuteLocalActivity p cb)
| code_RequestCancelLocalActivity i : workflowCode (RequestCancelLocalActivity i)
| code_GetVersion c lo hi g :
    workflowCode (GetVersion allowed dc defaultDC provider rangeVersions c lo hi g)
| code_SideEffect r s g : workflowCode (cb ← newClosure; SideEffect dc (mret r) cb s g)
| code_MutableSideEffect i v eq s g : workflowCode (MutableSideEffect dc i (mret v) eq s g)
| code_UpsertSearchAttributes a g :
    a !! TemporalChangeVersion = None → workflowCode (UpsertSearchAttributes defaultDC a g)
| code_UpsertTypedSearchAttributes a g : workflowCode (UpsertTypedSearchAttributes defaultDC a g)
| code_UpsertMemo m g : workflowCode (UpsertMemo allowed dc defaultDC m g)
| code_RegisterCancelHandler : workflowCode RegisterCancelHandler
| code_RegisterSignalHandler : workflowCode RegisterSignalHandler
| code_TryUse f : workflowCode (TryUse allowed f)
| code_GenerateSequence : workflowCode GenerateSequence
| code_getRandomStream n : workflowCode (getRandomStream n)
| code_AddSession s : workflowCode (AddSession s)
| code_RemoveSession s : workflowCode (RemoveSession s)
| code_addProtocolMessage i : workflowCode (onHelper (addProtocolMessage i))
| code_Complete r err : workflowCode (Complete r err).

Lemma eh_with_closure {A} (k : nat → Env A) :
  (∀ cb, eh (free cb) (k cb) (λ _ _, True)) → eh (λ _, True) (newClosure ≫= k) (λ _ _, True).
Proof. intros Hk. eapply eh_bind; [apply eh_newClosure|exact Hk]. Qed.

Lemma eh_gently {A} (m : Env A) : gentle m → eh (λ _, True) m (λ _ _, True).
Proof. intros Hm. apply (eh_gentle (λ _, True)); [apply _|done]. Qed.

Lemma eh_workflowCode {A} (m : Env A) : workflowCode m → eh (λ _, True) m (λ _ _, True).
Proof.
  induction 1; try (apply eh_with_closure; intros cb);
    eauto using eh_ExecuteActivity, eh_RequestCancelActivity, eh_NewTimer, eh_RequestCancelTimer,
      eh_RequestCancelExternalWorkflow, eh_SignalExternalWorkflow, eh_RequestCancelNexusOperation,
      eh_AbandonNexusOperation, eh_ExecuteLocalActivity.
  - by apply eh_ret.
  - by eapply eh_bind.
  - apply eh_gently, gentle_get.
  - by apply eh_panic.
  - apply eh_gently, gentle_RequestCancelChildWorkflow.
  - eapply eh_bind; [apply eh_newClosure_again|]. intros scb.
    eapply eh_conseq; [apply eh_ExecuteChildWorkflow|tauto|done].
  - eapply eh_bind; [apply eh_newClosure_again|]. intros scb e Hb Hc (H1 & H2 & H3).
    by apply eh_ExecuteNexusOperation.
  - apply eh_gently, gentle_RequestCancelLocalActivity.
  - apply eh_gently, gentle_GetVersion.
  - apply eh_SideEffect, gentle_ret.
  - apply eh_gently, gentle_MutableSideEffect, gentle_ret.
  - apply eh_gently, gentle_UpsertSearchAttributes. by rewrite H.
  - apply eh_gently, gentle_UpsertTypedSearchAttributes.
  - apply eh_gently, gentle_UpsertMemo.
  - apply eh_gently, gentle_modify. done.
  - apply eh_gently, gentle_modify. done.
  - apply eh_gently, gentle_TryUse.
  - apply eh_gently, gentle_GenerateSequence.
  - apply eh_gently, gentle_getRandomStream.
  - apply eh_gently, gentle_modify. done.
  - apply eh_gently, gentle_modify. done.
  - apply eh_gently, gentle_onHelper, calm_addProtocolMessage.
  - apply eh_gently, gentle_Complete.
Qed.

Definition definitionCode (wd : WorkflowDefinition) : Prop :=
  (∀ h i, workflowCode (wd_Execute wd h i)) ∧ workflowCode (wd_OnWorkflowTaskStarted wd) ∧
  workflowCode (wd_cancelHandler wd) ∧ ∀ n i h, workflowCode (wd_signalHandler wd n i h).

(** ** Event handlers *)

Context (registered : goError + WorkflowDefinition).

Definition registeredCode : Prop :=
  match registered with inr wd => definitionCode wd | inl _ => True end.

Hypothesis Hcode : registeredCode.

Abbreviation safe m := (eh (λ _, True) m (λ _ _, True)).

Lemma eh_callDefinition {A} (f : WorkflowDefinition → Env A) :
  (∀ wd, definitionCode wd → workflowCode (f wd)) → safe (callDefinition registered f).
Proof.
  intros Hf. unfold callDefinition. apply eh_get. intros e0. unfold registeredCode in Hcode.
  destruct (started e0); [destruct registered|]; try (by apply eh_panic).
  by apply eh_workflowCode, Hf.
Qed.

Lemma eh_OnWorkflowTaskStarted : safe (OnWorkflowTaskStarted registered).
Proof. apply eh_callDefinition. by intros wd (_ & ? & _). Qed.

Lemma eh_step {A B} (m : Env A) (k : A → Env B) : safe m → (∀ a, safe (k a)) → safe (m ≫= k).
Proof. intros Hm Hk. by eapply eh_bind. Qed.

Lemma eh_gentle_step {A B} (m : Env A) (k : A → Env B) : gentle m → (∀ a, safe (k a)) → safe (m ≫= k).
Proof. intros Hm Hk. apply eh_step; [by apply eh_gently|done]. Qed.

Lemma eh_handleWorkflowExecutionStarted h i :
  safe (handleWorkflowExecutionStarted allowed registered h i).
Proof.
  unfold handleWorkflowExecutionStarted. unfold registeredCode in Hcode.
  destruct registered as [err|wd]; [apply eh_done|].
  apply eh_gentle_step; [by apply gentle_modify|]. intros ?.
  apply eh_gentle_step; [apply gentle_TryUse|]. intros ?.
  apply eh_step; [|intros ?; apply eh_done]. apply eh_workflowCode, Hcode.
Qed.

(** The attributes read at the start of a handler. *)
Ltac open_tuple :=
  match goal with
  | |- eh _ (match ?x with _ => _ end) _ =>
      first [destruct x as [[[[? ?] ?] ?] ?] | destruct x as [[[? ?] ?] ?]
        | destruct x as [[? ?] ?] | destruct x as [? ?]]
  end.

Lemma eh_handleWorkflowTaskStarted ev : safe (handleWorkflowTaskStarted registered ev).
Proof.
  unfold handleWorkflowTaskStarted. apply eh_gentle_step; [apply gentle_SetCurrentReplayTime|].
  intros ?. open_tuple.
  apply eh_gentle_step; [by apply gentle_modify|]. intros ?.
  apply eh_gentle_step; [gentle_steps|]. intros ?. apply eh_OnWorkflowTaskStarted.
Qed.

Lemma eh_handleWorkflowTaskFailed ev : safe (handleWorkflowTaskFailed ev).
Proof. apply eh_gently. unfold handleWorkflowTaskFailed. gentle_steps. Qed.

(** Looking a command up and going on with its data. *)
Lemma eh_lookup {B} t (m : M ref) (k : ref → option machineData → Env B) :
  calmOp m → resolves t m → dataType t = true →
  (∀ d D, typedData t (Some D) = true → eh (dataIs d D) (k d (Some D)) (λ _ _, True)) →
  safe (d ← onHelper m; data ← onHelper (getData d); k d data).
Proof.
  intros Hc Hr Ht Hk. eapply eh_bind; [by apply (eh_resolves (λ _, True) t)|]. intros d.
  apply eh_getData; [done|]. intros D HD. eapply eh_conseq; [by apply Hk|tauto|done].
Qed.

Lemma eh_handle_now d D cb r err :
  awaits D cb → eh (dataIs d D) (handle d r err) (λ _ _, True).
Proof. intros Haw. apply eh_handle. intros e HD. by exists D, cb. Qed.

Ltac deliver := repeat case_match; simpl in *; simplify_eq;
  first [apply eh_done | by apply eh_panic | by eapply eh_handle_now].

Lemma eh_withClosedActivity ev k :
  (∀ d a ty fc cb w, eh (dataIs d (scheduledActivity cb w false ty fc)) (k d a ty fc) (λ _ _, True)) →
  safe (withClosedActivity HistoryEventToString EventType_String ev k).
Proof.
  intros Hk. unfold withClosedActivity. apply eh_gentle_step; [gentle_steps|]. intros [a i].
  apply (eh_lookup commandTypeActivity); [eauto with gentle|apply resolves_handleActivityTaskClosed|done|].
  intros d [] HD; try done. destruct handled; [apply eh_done|apply Hk].
Qed.

Lemma eh_handleActivityTaskCompleted ev :
  safe (handleActivityTaskCompleted HistoryEventToString EventType_String ev).
Proof. apply eh_withClosedActivity. intros. deliver. Qed.
Lemma eh_handleActivityTaskFailed ev :
  safe (handleActivityTaskFailed FailureToError HistoryEventToString EventType_String ev).
Proof. apply eh_withClosedActivity. intros. deliver. Qed.
Lemma eh_handleActivityTaskTimedOut ev :
  safe (handleActivityTaskTimedOut FailureToError HistoryEventToString EventType_String ev).
Proof. apply eh_withClosedActivity. intros. deliver. Qed.

Lemma eh_handleActivityTaskCanceled ev :
  safe (handleActivityTaskCanceled HistoryEventToString EventType_String ev).
Proof.
  unfold handleActivityTaskCanceled. apply eh_gentle_step; [gentle_steps|]. intros [a i].
  apply (eh_lookup commandTypeActivity); [eauto with gentle|apply resolves_handleActivityTaskCanceled|done|].
  intros d [] HD; try done. destruct handled; [apply eh_done|].
  apply eh_then; [apply _|gentle_steps|]. intros m. destruct (_ || _); deliver.
Qed.

Lemma eh_handleTimerFired ev : safe (handleTimerFired ev).
Proof.
  unfold handleTimerFired. cbv zeta.
  apply (eh_lookup commandTypeTimer); [eauto with gentle|apply resolves_handleTimerClosed|done|].
  intros d [] HD; try done. deliver.
Qed.

(** *** Child workflows *)

Lemma eh_withChild (m : M ref) (k : ref → nat → nat → Env unit) :
  calmOp m → resolves commandTypeChildWorkflow m →
  (∀ d scb fc cb w, eh (dataIs d (scheduledChildWorkflow cb scb w false fc)) (k d scb fc) (λ _ _, True)) →
  safe (d ← onHelper m; withChild d (k d)).
Proof.
  intros Hc Hr Hk. apply (eh_lookup commandTypeChildWorkflow m); [done|done|done|].
  intros d [] HD; try done. destruct handled; [apply eh_done|apply Hk].
Qed.

Ltac child := eapply eh_withChild; [eauto with gentle|
  first [apply resolves_handleChildWorkflowExecutionStarted
    | apply resolves_handleChildWorkflowExecutionClosed
    | apply resolves_handleChildWorkflowExecutionCanceled
    | apply resolves_handleStartChildWorkflowExecutionFailed]|]; intros ? ? ? ? ?.

Lemma eh_handleStartChildWorkflowExecutionFailed ev :
  safe (handleStartChildWorkflowExecutionFailed ev).
Proof.
  unfold handleStartChildWorkflowExecutionFailed.
  open_tuple. child. cbv zeta.
  unfold handleFailedToStart. eapply eh_bind; [by eapply eh_handle_now|]. intros ?.
  eapply eh_conseq; [by apply (eh_invoke_started (λ _, True))|done|done].
Qed.

Lemma eh_handleChildWorkflowExecutionStarted ev : safe (handleChildWorkflowExecutionStarted ev).
Proof.
  unfold handleChildWorkflowExecutionStarted. cbv zeta. child.
  eapply eh_conseq; [by apply (eh_invoke_started (λ _, True))|done|done].
Qed.
Lemma eh_handleChildWorkflowExecutionCompleted ev : safe (handleChildWorkflowExecutionCompleted ev).
Proof. unfold handleChildWorkflowExecutionCompleted. cbv zeta. child. deliver. Qed.
Lemma eh_handleChildWorkflowExecutionFailed ev :
  safe (handleChildWorkflowExecutionFailed FailureToError ev).
Proof. unfold handleChildWorkflowExecutionFailed. cbv zeta. child. deliver. Qed.
Lemma eh_handleChildWorkflowExecutionCanceled ev : safe (handleChildWorkflowExecutionCanceled ev).
Proof. unfold handleChildWorkflowExecutionCanceled. cbv zeta. child. deliver. Qed.
Lemma eh_handleChildWorkflowExecutionTimedOut ev : safe (handleChildWorkflowExecutionTimedOut ev).
Proof. unfold handleChildWorkflowExecutionTimedOut. cbv zeta. child. deliver. Qed.
Lemma eh_handleChildWorkflowExecutionTerminated ev :
  safe (handleChildWorkflowExecutionTerminated ev).
Proof. unfold handleChildWorkflowExecutionTerminated. cbv zeta. child. deliver. Qed.

(** *** External workflows *)

Lemma eh_cancellation (m : M (bool * ref)) err :
  calmOp m → resolvesCancellation m →
  safe (r ← onHelper m; if r.1 : bool then withCancellation r.2 err else mret tt).
Proof.
  intros [Hm Hq] Hr. eapply (eh_bind _ _ _ (λ r e, if r.1 : bool then
    typedAt commandTypeCancellation r.2 e else True)).
  - intros e Hb Hc _. rewrite wp_onHelper. specialize (Hm _ (base_wf e Hb) I).
    specialize (Hq _ (base_wf e Hb)). specialize (Hr (helper e)). unfold wp, final, result in *.
    destruct (m (helper e)) as [[[b d]|p] h']; simpl in *; destruct Hm as (? & ? & ?);
      destruct (helper_step e h') as [? Hs]; auto.
    + split_and!; [done|by eapply callbacks_ok_footprint|]. destruct b; [|done].
      destruct (Hr d eq_refl) as (id & el & Hid & <- & <-).
      unfold typedAt. rewrite (same_data _ _ Hs). by apply (base_data e Hb).
    + split_and!; [done|by eapply callbacks_ok_footprint|done].
  - intros [[] d]; [|apply eh_done]. simpl. unfold withCancellation.
    eapply eh_conseq; [apply (eh_getData (λ _, True) commandTypeCancellation)|done|done]; [done|].
    intros [] HD; try done. destruct handled; [apply eh_done|].
    apply eh_handle. intros e [_ HD']. by eexists _, _.
Qed.

Lemma eh_withSignal (m : M ref) err :
  calmOp m → resolves commandTypeSignal m → safe (d ← onHelper m; withSignal d err).
Proof.
  intros Hc Hr. apply (eh_lookup commandTypeSignal m); [done|done|done|].
  intros d [] HD; try done. deliver.
Qed.

(** *** Nexus operations *)

Lemma eh_nexus (m : M ref) (k : ref → Z * nat → Env unit) :
  calmOp m → resolves commandTypeNexusOperation m →
  (∀ d x, eh (typedAt commandTypeNexusOperation d) (k d x) (λ _ _, True)) →
  safe (d ← onHelper m; x ← getNexusData d; k d x).
Proof.
  intros Hc Hr Hk. eapply eh_bind; [by apply (eh_resolves (λ _, True) commandTypeNexusOperation)|].
  intros d. eapply (eh_bind _ _ _ (λ _, typedAt commandTypeNexusOperation d)); [|apply Hk].
  apply (eh_getData (λ _, True) commandTypeNexusOperation); [done|].
  intros [] HD; try done. apply eh_ret. intros e [_ HD']. unfold typedAt. by rewrite HD'.
Qed.

Lemma eh_bothCallbacks d tok r err err' :
  eh (typedAt commandTypeNexusOperation d)
    (_ ← runStarted d tok err; runCompleted d r err') (λ _ _, True).
Proof. eapply eh_bind; [apply eh_runStarted|]. intros ?. apply eh_runCompleted. Qed.

Lemma eh_handleNexusOperationStarted ev : safe (handleNexusOperationStarted ev).
Proof.
  unfold handleNexusOperationStarted. destruct (Event_Attributes ev); try (by apply eh_panic).
  apply eh_nexus; [eauto with gentle|apply resolves_handleNexusOperationStarted|]. intros d x.
  eapply eh_conseq; [apply eh_runStarted|done|done].
Qed.

Lemma eh_handleNexusOperationCompleted ev :
  safe (handleNexusOperationCompleted FailureToError EventType_String ev).
Proof.
  unfold handleNexusOperationCompleted.
  destruct (nexusResolution ev) as [[[r f] i]|]; [|by apply eh_panic].
  apply eh_nexus; [eauto with gentle|apply resolves_handleNexusOperationCompleted|]. intros d x.
  apply eh_bothCallbacks.
Qed.

Lemma eh_handleNexusOperationCancelRequested ev : safe (handleNexusOperationCancelRequested ev).
Proof.
  unfold handleNexusOperationCancelRequested. cbv zeta.
  apply eh_nexus; [eauto with gentle|apply resolves_handleNexusOperationCancelRequested|]. intros d x.
  case_decide; [apply eh_bothCallbacks|apply eh_done].
Qed.

Lemma eh_handleNexusOperationCancelRequestDelivered ev :
  safe (handleNexusOperationCancelRequestDelivered FailureToError EventType_String ev).
Proof.
  unfold handleNexusOperationCancelRequestDelivered.
  destruct (nexusCancelResolution ev) as [[i f]|]; [|by apply eh_panic].
  case_decide; [apply eh_done|].
  apply eh_nexus; [eauto with gentle|apply resolves_handleNexusOperationCancelRequestDelivered|].
  intros d x. cbv zeta. case_decide; [apply eh_bothCallbacks|apply eh_done].
Qed.

(** *** Markers and local activities *)

#[local] Instance owns_footprint o cb : Footprint (λ e, owns e o cb).
Proof. intros e e' Hs Ho. by apply (same_owns e e'). Qed.

(** A task that is no longer pending frees its callback. *)
Lemma eh_forgetTask i cb :
  eh (λ e, owns e (ownTask i) cb)
    (modify (λ e, set_unstartedLaTasks (unstartedLaTasks e ∖ {[i]})
                    (set_pendingLaTasks (delete i (pendingLaTasks e)) e)))
    (λ _, free cb).
Proof.
  intros e [Hwf Hd] [H1 H2 H3 H4 H5] Ho. rewrite wp_modify. set (e' := set_unstartedLaTasks _ _).
  assert (Hown : ∀ o c, owns e' o c → owns e o c ∧ o ≠ ownTask i).
  { intros [d w|j] c; simpl; [done|]. destruct (decide (j = i)) as [->|Hne].
    - by rewrite lookup_delete_eq.
    - rewrite lookup_delete_ne by done. naive_solver. }
  split_and!; [by split| |].
  - split; simpl; [intros o c [? _]%Hown; eauto|intros o1 o2 c [? _]%Hown [? _]%Hown; eauto
      |intros o c [? _]%Hown; eauto|done|done].
  - split_and!; simpl; [by eapply H1| |by eapply H3].
    intros o [Ho' Hne]%Hown. by apply Hne, (H2 _ _ cb).
Qed.

Lemma eh_handleLocalActivityMarker details failure :
  safe (handleLocalActivityMarker dc FailureToError registered details failure).
Proof.
  unfold handleLocalActivityMarker. destruct (details !! _) as [data|]; [|apply eh_done].
  destruct (FromPayloads _ _ _) as [|vs]; [apply eh_done|]. cbv zeta.
  match goal with |- context [lamd_ActivityID ?x] => generalize x; intros lamd end.
  intros e Hb Hc _. rewrite wp_bind, wp_get.
  destruct (pendingLaTasks e !! lamd_ActivityID lamd) as [la|] eqn:Hla; [|by apply (eh_done (λ _, True))].
  case_decide; [by apply (eh_panic (λ _, True))|].
  destruct (BuildUserMetadata _ _ _); [by apply (eh_done (λ _, True))|].
  assert (Ho : owns e (ownTask (lamd_ActivityID lamd)) (lat_callback la)) by (simpl; by rewrite Hla).
  clear Hla. revert e Hb Hc Ho.
  match goal with |- ∀ e, _ → _ → _ → wp ?m _ _ e =>
    change (eh (λ e, owns e (ownTask (lamd_ActivityID lamd)) (lat_callback la)) m (λ _ _, True)) end.
  apply eh_then; [apply _|gentle_steps|]. intros ?.
  apply eh_then; [apply _|apply gentle_modify; intros e; by case_match|]. intros ?.
  eapply eh_bind; [apply eh_forgetTask|]. intros ?.
  eapply eh_bind; [by apply eh_invoke|]. intros ?.
  apply eh_gentle_step; [apply gentle_SetCurrentReplayTime|]. intros ?.
  apply eh_step; [apply eh_OnWorkflowTaskStarted|]. intros ?. apply eh_done.
Qed.

Lemma gentle_handleSideEffectMarker details : gentle (handleSideEffectMarker dc details).
Proof. unfold handleSideEffectMarker. gentle_steps. Qed.

Lemma gentle_handleVersionMarkerRecorded id details :
  gentle (handleVersionMarkerRecorded dc id details).
Proof. unfold handleVersionMarkerRecorded. gentle_steps. Qed.

Lemma gentle_handleMutableSideEffectMarker details :
  gentle (handleMutableSideEffectMarker dc details).
Proof. unfold handleMutableSideEffectMarker. gentle_steps. Qed.

Lemma eh_handleMarkerRecorded id name details failure :
  safe (handleMarkerRecorded dc FailureToError registered id name details failure).
Proof.
  unfold handleMarkerRecorded. apply eh_step; [|intros ?; apply eh_done].
  destruct details; [|apply eh_done]. repeat case_decide; [..|apply eh_done].
  - apply eh_gently, gentle_handleSideEffectMarker.
  - apply eh_gently, gentle_handleVersionMarkerRecorded.
  - apply eh_handleLocalActivityMarker.
  - apply eh_gently, gentle_handleMutableSideEffectMarker.
Qed.

(** *** The event loop *)

Abbreviation handleEvent := (handleEvent allowed dc FailureToError registered HistoryEventToString
  EventType_String).
Abbreviation processEvent := (processEvent allowed dc FailureToError registered
  HistoryEventToString EventType_String).
Abbreviation ProcessEvent := (ProcessEvent allowed dc FailureToError registered
  HistoryEventToString EventType_String stackTrace).
Abbreviation ProcessLocalActivityResult := (ProcessLocalActivityResult allowed dc FailureToError
  ErrorToFailure registered HistoryEventToString EventType_String stackTrace).

Lemma eh_noError m : safe m → safe (noError m).
Proof. intros Hm. apply eh_step; [done|]. intros ?. apply eh_done. Qed.

Lemma gentle_noError m : gentle m → safe (noError m).
Proof. intros Hm. by apply eh_noError, eh_gently. Qed.

Lemma eh_external ev :
  safe (handleExternalWorkflowExecutionCancelRequested ev) ∧
  safe (handleRequestCancelExternalWorkflowExecutionFailed ev) ∧
  safe (handleSignalExternalWorkflowExecutionCompleted ev) ∧
  safe (handleSignalExternalWorkflowExecutionFailed ev).
Proof.
  split_and!.
  - unfold handleExternalWorkflowExecutionCancelRequested. open_tuple.
    apply eh_cancellation; [eauto with gentle|apply resolves_externalCancelRequested].
  - unfold handleRequestCancelExternalWorkflowExecutionFailed. open_tuple.
    apply eh_cancellation; [eauto with gentle|apply resolves_requestCancelExternalFailed].
  - apply eh_withSignal; [eauto with gentle|apply resolves_handleSignalExternalWorkflowExecutionCompleted].
  - unfold handleSignalExternalWorkflowExecutionFailed. open_tuple.
    apply eh_withSignal; [eauto with gentle|apply resolves_handleSignalExternalWorkflowExecutionFailed].
Qed.

Lemma eh_handleEvent ev : safe (handleEvent ev).
Proof.
  destruct (eh_external ev) as (? & ? & ? & ?).
  unfold EventHandlers.handleEvent. cbv zeta.
  destruct (Event_EventType ev); try (case_match; apply eh_done);
    try (apply eh_noError; eauto using eh_handleWorkflowTaskStarted, eh_handleWorkflowTaskFailed,
      eh_handleActivityTaskCompleted, eh_handleActivityTaskFailed, eh_handleActivityTaskTimedOut,
      eh_handleActivityTaskCanceled, eh_handleTimerFired, eh_handleStartChildWorkflowExecutionFailed,
      eh_handleChildWorkflowExecutionStarted, eh_handleChildWorkflowExecutionCompleted,
      eh_handleChildWorkflowExecutionFailed, eh_handleChildWorkflowExecutionCanceled,
      eh_handleChildWorkflowExecutionTimedOut, eh_handleChildWorkflowExecutionTerminated,
      eh_handleNexusOperationStarted, eh_handleNexusOperationCompleted,
      eh_handleNexusOperationCancelRequested, eh_handleNexusOperationCancelRequestDelivered; fail);
    try apply eh_done;
    try (repeat case_match; first [by apply eh_panic | apply gentle_noError; gentle_steps]; fail).
  - case_match; first [by apply eh_panic|apply eh_handleWorkflowExecutionStarted].
  - apply eh_get. intros e0. apply eh_noError. case_match; [|by apply eh_panic].
    apply eh_callDefinition. by intros wd (_ & _ & ? & _).
  - case_match; apply eh_handleMarkerRecorded.
  - case_match; try (by apply eh_panic). apply eh_get. intros e0. case_match; [|by apply eh_panic].
    apply eh_callDefinition. by intros wd (_ & _ & _ & ?).
Qed.

Lemma eh_processEvent ev replay isLast : safe (processEvent ev replay isLast).
Proof.
  apply eh_gentle_step; [by apply gentle_modify|]. intros ?.
  apply eh_step; [apply eh_handleEvent|]. intros [err|]; [apply eh_done|].
  apply eh_step; [|intros ?; apply eh_done]. case_match; [apply eh_OnWorkflowTaskStarted|apply eh_done].
Qed.

Lemma eh_recovered m : safe m → safe (recovered stackTrace m).
Proof.
  intros Hm e Hb Hc _. specialize (Hm e Hb Hc I). unfold wp, recovered in *.
  destruct (m e) as [[err|p] e']; [done|]. destruct Hm as (Hb' & Hc' & _).
  apply (eh_gentle_step (Complete None _) (λ _, mret None)); [apply gentle_Complete| |done..].
  intros ?. apply eh_done.
Qed.

Lemma eh_ProcessEvent ev replay isLast : safe (ProcessEvent ev replay isLast).
Proof. destruct ev; [|apply eh_done]. apply eh_recovered, eh_processEvent. Qed.

Lemma eh_ProcessLocalActivityResult lar : safe (ProcessLocalActivityResult lar).
Proof.
  apply eh_get. intros e0. cbv zeta. case_match; [apply eh_done|]. apply eh_ProcessEvent.
Qed.

(** ** Executions *)

(** The states of an environment: history events, results of local activities
    and workflow code run for queries and updates come in any order, commands
    are taken between workflow tasks, and time passes. *)
Inductive runs : workflowEnvironmentImpl → Prop :=
| runs_new taskQueue runID capabilities now : runs (newEnvironment taskQueue runID capabilities now)
| runs_event e ev replay isLast : runs e → runs (final (ProcessEvent ev replay isLast) e)
| runs_local e lar : runs e → runs (final (ProcessLocalActivityResult lar) e)
| runs_code e (m : Env unit) : workflowCode m → runs e → runs (final m e)
| runs_commands e b : runs e → runs (final (onHelper (getCommands b)) e)
| runs_attempts e : runs e → runs (final ResetLAWFTAttemptCounts e)
| runs_time e now : runs e → runs (set_clock now e).

Lemma eh_final {A} (m : Env A) e :
  safe m → base e ∧ callbacks_ok e → base (final m e) ∧ callbacks_ok (final m e).
Proof.
  intros Hm [Hb Hc]. specialize (Hm e Hb Hc I). unfold wp, final in *.
  by destruct (m e) as [[a|p] e']; destruct Hm as (? & ? & _).
Qed.

Lemma base_new q r c n : base (newEnvironment q r c n) ∧ callbacks_ok (newEnvironment q r c n).
Proof.
  split; split; simpl; try done.
  - apply newCommandsHelper_wf.
  - intros [d w|i] cb; simpl; [unfold dataAt; simpl; rewrite lookup_empty|rewrite lookup_empty]; done.
  - intros [d w|i] o2 cb; simpl; [unfold dataAt; simpl; rewrite lookup_empty|rewrite lookup_empty]; done.
  - intros o cb _. apply not_elem_of_nil.
  - apply NoDup_nil_2.
  - intros cb Hcb. by apply elem_of_nil in Hcb.
Qed.

Lemma runs_ok e : runs e → base e ∧ callbacks_ok e.
Proof.
  induction 1.
  - apply base_new.
  - apply eh_final; [apply eh_ProcessEvent|done].
  - apply eh_final; [apply eh_ProcessLocalActivityResult|done].
  - apply eh_final; [by apply eh_workflowCode|done].
  - apply eh_final; [apply eh_gently, gentle_onHelper, calm_getCommands|done].
  - apply eh_final; [apply eh_gently, gentle_ResetLAWFTAttemptCounts|done].
  - apply (eh_final (modify (set_clock now))); [|done]. apply eh_gently, gentle_modify. done.
Qed.

(** C4. Results are delivered once.  Whatever the history, however the worker
    replays it and whatever operations the workflow code performs, the callback
    of an activity, timer, child workflow, external signal or cancellation,
    Nexus operation (its start and its completion), local activity or side
    effect is run at most once; a callback that a command or a pending local
    activity still holds has not been run, and nothing else holds it. *)
Theorem callbacks_run_once e :
  runs e →
  NoDup (resultCallbacks (deliveries e)) ∧
  (∀ o cb, owns e o cb →
     (∀ o', owns e o' cb → o' = o) ∧ cb ∉ resultCallbacks (deliveries e)).
Proof using Hcode.
  intros [_ [H1 H2 H3 H4 H5]]%runs_ok. split; [done|]. intros o cb Ho.
  split; [|by apply (H3 o)]. intros o' Ho'. by apply (H2 o' o cb).
Qed.

(** C5. Type assertions hold.  The type assertions of the handlers on the data
    a command carries ([command.getData().( *scheduledActivity)] and the like)
    hold: neither the processing of an event nor an operation of the workflow
    code panics with an interface conversion, in any state of the
    environment. *)
Theorem type_assertions_hold e :
  runs e →
  (∀ ev replay isLast,
     result (processEvent ev replay isLast) e ≠ Panicked (runtimeError "interface conversion")) ∧
  (∀ m : Env unit, workflowCode m →
     result m e ≠ Panicked (runtimeError "interface conversion")).
Proof using Hcode.
  intros [Hb Hc]%runs_ok.
  assert (Hsafe : ∀ A (m : Env A), safe m →
    result m e ≠ Panicked (runtimeError "interface conversion")).
  { intros A m Hm. specialize (Hm e Hb Hc I). unfold wp, result in *.
    destruct (m e) as [[a|p] e']; [done|]. destruct Hm as (_ & _ & Hp). simpl. congruence. }
  split; [intros; apply Hsafe, eh_processEvent|intros; by apply Hsafe, eh_workflowCode].
Qed.
End Deliveries.

(** ** An execution *)

Definition exampleActivity : ExecuteActivityParams :=
  mkExecuteActivityParams 0 "" "A" "q" None (mkActivityTimeouts 0 0 10 0) false None false
    VersioningIntentUnspecified "" None None ∅ [].

(** Schedules an activity and a timer in the first workflow task. *)
Definition exampleTask : Env unit :=
  e ← get;
  if decide (nextCallback e = 0%nat) then
    _ ← (cb ← newClosure; ExecuteActivity noConverter 0 exampleActivity cb);
    _ ← (cb ← newClosure; NewTimer noConverter 60 "" [] cb);
    mret tt
  else mret tt.

Definition exampleDefinition : WorkflowDefinition :=
  mkWorkflowDefinition (λ _ _, mret tt) exampleTask (mret tt) (λ _ _ _, mret None).

Definition exampleStarted : startedExecution :=
  mkStartedExecution (Some "q") "r" "r" "" 0 0 10 1 None None "" "" None None None None None None None.

(** The timer fires twice in this history; the second event is an error. *)
Definition exampleEvents : list HistoryEvent :=
  (λ x, mkHistoryEvent x.1.1 x.1.2 x.2 0 false) <$>
  [(1, EVENT_TYPE_WORKFLOW_EXECUTION_STARTED, WorkflowExecutionStartedEventAttributes ∅ None exampleStarted);
   (3, EVENT_TYPE_WORKFLOW_TASK_STARTED, WorkflowTaskStartedEventAttributes false [] false 0);
   (5, EVENT_TYPE_ACTIVITY_TASK_SCHEDULED, ActivityTaskScheduledEventAttributes "5" "A");
   (6, EVENT_TYPE_TIMER_STARTED, TimerStartedEventAttributes "6");
   (7, EVENT_TYPE_TIMER_FIRED, TimerFiredEventAttributes "6");
   (8, EVENT_TYPE_TIMER_FIRED, TimerFiredEventAttributes "6");
   (9, EVENT_TYPE_ACTIVITY_TASK_COMPLETED, ActivityTaskCompletedEventAttributes 5 None)].

Definition exampleStep (e : workflowEnvironmentImpl) (ev : HistoryEvent) : workflowEnvironmentImpl :=
  final (ProcessEvent ∅ noConverter (λ _ _, None) (inr exampleDefinition) noEvent noType ""
           (Some ev) true false) e.

(** The commands of the first workflow task are taken when it ends. *)
Definition exampleRun : workflowEnvironmentImpl :=
  foldl exampleStep
    (final (onHelper (getCommands true))
       (foldl exampleStep (newEnvironment "q" "r" true 0) (take 2 exampleEvents)))
    (drop 2 exampleEvents).

Lemma exampleTask_code :
  workflowCode ∅ noConverter noConverter 0 None (λ _, []) exampleTask.
Proof.
  apply code_bind; [apply code_get|]. intros e. case_decide; [|apply code_ret].
  apply code_bind; [apply code_ExecuteActivity|]. intros ?.
  apply code_bind; [apply code_NewTimer|]. intros ?. apply code_ret.
Qed.

Lemma exampleDefinition_code :
  registeredCode ∅ noConverter noConverter 0 None (λ _, []) (inr exampleDefinition).
Proof.
  split_and!; [intros; apply code_ret|apply exampleTask_code|apply code_ret|intros; apply code_ret].
Qed.

Abbreviation exampleRuns := (runs ∅ noConverter noConverter 0 None (λ _, []) (λ _ _, None)
  (λ _ _, None) noEvent noType "" (inr exampleDefinition)).

Lemma exampleSteps_run evs e : exampleRuns e → exampleRuns (foldl exampleStep e evs).
Proof.
  revert e. induction evs as [|ev evs IH]; intros e He; [exact He|]. simpl. apply IH.
  by apply runs_event.
Qed.

Lemma exampleRun_runs : exampleRuns exampleRun.
Proof. apply exampleSteps_run, runs_commands, exampleSteps_run, runs_new. Qed.

Lemma callbacks_run_once_witness :
  delivered_callback <$> deliveries exampleRun = [1; 0]%nat ∧
  NoDup (resultCallbacks (deliveries exampleRun)).
Proof.
  split; [vm_compute; reflexivity|].
  exact (proj1 (callbacks_run_once _ _ _ _ _ _ _ _ _ _ _ _ exampleDefinition_code _ exampleRun_runs)).
Defined.

Lemma type_assertions_hold_witness :
  result (processEvent ∅ noConverter (λ _ _, None) (inr exampleDefinition) noEvent noType
    (mkHistoryEvent 9 EVENT_TYPE_ACTIVITY_TASK_COMPLETED
       (ActivityTaskCompletedEventAttributes 6 None) 0 false) true false) exampleRun
  ≠ Panicked (runtimeError "interface conversion").
Proof.
  exact (proj1 (type_assertions_hold _ _ _ _ _ _ _ _ _ _ _ _ exampleDefinition_code _ exampleRun_runs)
    _ _ _).
Defined.
