(* ===== verification/Tunnel.v ===== *)
(** * The local activity tunnel
      ([src/internal/internal_task_pollers.go], [localActivityTunnel]).

    Workflow tasks hand local activities to the pollers through a queue that
    never blocks the sender: an intrusive linked list under a mutex, and a
    channel of capacity one that wakes a waiting poller.

    Tasks are pointers, compared by identity; [nextQueuedTask] is the field of
    that name of all tasks, where a missing entry is nil.  The sections that
    hold [taskQueueMu] are atomic: [stopCh] is the only thing another goroutine
    changes meanwhile, and closing it inside such a section has the effect of
    closing it at its end. *)

From stdpp Require Import base list gmap relations.
From S2P Require Import Prelude.

Open Scope nat_scope.

Section Tunnel.
  Context {task : Type} `{Countable task}.

Record localActivityTunnel : Type := mkTunnel {
  taskQueueHead : option task;
  taskQueueTail : option task;
  nextQueuedTask : gmap task task;
  (** [taskReadyCh] holds a token. *)
  taskReadyCh : bool;
  (** [stopCh] is closed. *)
  stopCh : bool;
}.

Definition newLocalActivityTunnel : localActivityTunnel := mkTunnel None None ∅ false false.

Definition set_queue (hd tl : option task) (nq : gmap task task) (lat : localActivityTunnel)
    : localActivityTunnel :=
  mkTunnel hd tl nq (taskReadyCh lat) (stopCh lat).

Definition set_ready (b : bool) (lat : localActivityTunnel) : localActivityTunnel :=
  mkTunnel (taskQueueHead lat) (taskQueueTail lat) (nextQueuedTask lat) b (stopCh lat).

Definition close_stopCh (lat : localActivityTunnel) : localActivityTunnel :=
  mkTunnel (taskQueueHead lat) (taskQueueTail lat) (nextQueuedTask lat) (taskReadyCh lat) true.

(** A send on a channel of capacity one, with a default. *)
Definition notifyTaskReady : localActivityTunnel → localActivityTunnel := set_ready true.

(** The section of [sendTask] under the mutex, once [stopCh] was seen open. *)
Definition enqueue (t : task) (lat : localActivityTunnel) : localActivityTunnel :=
  match taskQueueTail lat with
  | None => set_queue (Some t) (Some t) (nextQueuedTask lat) lat
  | Some tl => set_queue (taskQueueHead lat) (Some t) (<[tl := t]> (nextQueuedTask lat)) lat
  end.

(** The section of [getTask] under the mutex: the task and [hasMore]. *)
Definition dequeue (lat : localActivityTunnel) : option (task * bool * localActivityTunnel) :=
  match taskQueueHead lat with
  | None => None
  | Some t =>
      let hd := nextQueuedTask lat !! t in
      let hasMore := bool_decide (is_Some hd) in
      Some (t, hasMore,
        set_queue hd (if hasMore then taskQueueTail lat else None)
          (delete t (nextQueuedTask lat)) lat)
  end.

Fixpoint clearLoop (fuel : nat) (lat : localActivityTunnel) : localActivityTunnel :=
  match fuel with
  | O => lat
  | S fuel' =>
      match taskQueueHead lat with
      | None => set_queue None None (nextQueuedTask lat) lat
      | Some t =>
          clearLoop fuel'
            (set_queue (nextQueuedTask lat !! t) (taskQueueTail lat) (delete t (nextQueuedTask lat)) lat)
      end
  end.

(** A queue of [n] tasks has [n - 1] pointers. *)
Definition clearTasks (lat : localActivityTunnel) : localActivityTunnel :=
  clearLoop (S (S (size (nextQueuedTask lat)))) lat.

(** [sendTask] when nobody else runs. *)
Definition sendTask (t : task) (lat : localActivityTunnel) : bool * localActivityTunnel :=
  if stopCh lat then (false, lat) else (true, notifyTaskReady (enqueue t lat)).

(** ** Goroutines *)

(** Where a goroutine is in [sendTask] or [getTask]. *)
Inductive position : Type :=
| sendCheck (t : task)
| sendLocked (t : task)
| sendNotify (t : task)
| sendReturn (ok : bool)
| getCheck
| getLocked
| getNotify (t : task)
| getWait
| getClear
| getReturn (r : option task).

(** The moves of a goroutine; none when it is blocked or has returned. *)
Definition advance (c : position) (lat : localActivityTunnel)
    : list (position * localActivityTunnel) :=
  match c with
  | sendCheck t => [(if stopCh lat then sendReturn false else sendLocked t, lat)]
  | sendLocked t =>
      if stopCh lat then [(sendReturn false, lat)] else [(sendNotify t, enqueue t lat)]
  | sendNotify t => [(sendReturn true, notifyTaskReady lat)]
  | getCheck => [(if stopCh lat then getClear else getLocked, lat)]
  | getLocked =>
      match dequeue lat with
      | Some (t, hasMore, lat') =>
          [(if hasMore : bool then getNotify t else getReturn (Some t), lat')]
      | None => [(getWait, lat)]
      end
  | getNotify t => [(getReturn (Some t), notifyTaskReady lat)]
  | getWait =>
      (if taskReadyCh lat then [(getCheck, set_ready false lat)] else [])
      ++ (if stopCh lat then [(getClear, lat)] else [])
  | getClear => [(getReturn None, clearTasks lat)]
  | sendReturn _ | getReturn _ => []
  end.

(** The queue, read off the pointers. *)
Fixpoint walk (fuel : nat) (nq : gmap task task) (hd : option task) : list task :=
  match fuel, hd with
  | S fuel', Some t => t :: walk fuel' nq (nq !! t)
  | _, _ => []
  end.

Definition queuedTasks (lat : localActivityTunnel) : list task :=
  walk (S (size (nextQueuedTask lat))) (nextQueuedTask lat) (taskQueueHead lat).

(** The tunnel, the goroutines in a call, and the tasks that were queued and
    taken so far, in order. *)
Record world : Type := mkWorld {
  tunnel : localActivityTunnel;
  goroutines : gmap nat position;
  accepted : list task;
  taken : list task;
}.

Definition sending (c : position) : option task :=
  match c with sendCheck t | sendLocked t => Some t | _ => None end.

Definition accepts (c c' : position) : list task :=
  match c, c' with sendLocked t, sendNotify _ => [t] | _, _ => [] end.

Definition takes (c c' : position) : list task :=
  match c, c' with
  | getLocked, getNotify t | getLocked, getReturn (Some t) => [t]
  | _, _ => []
  end.

(** A task is owned by the tunnel while it is queued: nobody sends it then. *)
Inductive step : world → world → Prop :=
| call_sendTask w i t :
    goroutines w !! i = None →
    t ∉ queuedTasks (tunnel w) →
    (∀ j c, goroutines w !! j = Some c → sending c ≠ Some t) →
    step w (mkWorld (tunnel w) (<[i := sendCheck t]> (goroutines w)) (accepted w) (taken w))
| call_getTask w i :
    goroutines w !! i = None →
    step w (mkWorld (tunnel w) (<[i := getCheck]> (goroutines w)) (accepted w) (taken w))
| run_goroutine w i c c' lat' :
    goroutines w !! i = Some c →
    (c', lat') ∈ advance c (tunnel w) →
    step w (mkWorld lat' (<[i := c']> (goroutines w)) (accepted w ++ accepts c c')
              (taken w ++ takes c c'))
| leave_call w i c :
    goroutines w !! i = Some c →
    (∀ lat, advance c lat = []) →
    step w (mkWorld (tunnel w) (delete i (goroutines w)) (accepted w) (taken w))
| stop_worker w :
    step w (mkWorld (close_stopCh (tunnel w)) (goroutines w) (accepted w) (taken w)).

Definition initial : world := mkWorld newLocalActivityTunnel ∅ [] [].

Definition reachable (w : world) : Prop := rtc step initial w.

(** ** The linked list is a queue *)

Record holds (lat : localActivityTunnel) (l : list task) : Prop := {
  holds_head : taskQueueHead lat = head l;
  holds_tail : taskQueueTail lat = last l;
  holds_next : ∀ i x, l !! i = Some x → nextQueuedTask lat !! x = l !! S i;
  holds_else : ∀ x, x ∉ l → nextQueuedTask lat !! x = None;
  holds_nodup : NoDup l;
}.

Lemma holds_new : holds newLocalActivityTunnel [].
Proof. split; simpl; try done. constructor. Qed.

Lemma holds_ready b lat l : holds (set_ready b lat) l ↔ holds lat l.
Proof. split; intros []; by split. Qed.

Lemma holds_stop lat l : holds (close_stopCh lat) l ↔ holds lat l.
Proof. split; intros []; by split. Qed.

Lemma holds_size lat l : holds lat l → length l ≤ S (size (nextQueuedTask lat)).
Proof.
  intros [_ _ Hn _ Hd]. destruct l as [|x l]; [simpl; lia|].
  assert (Hsub : list_to_set (removelast (x :: l)) ⊆ dom (nextQueuedTask lat)).
  { intros y Hy%elem_of_list_to_set%list_elem_of_lookup. destruct Hy as [i Hy].
    assert (i < length l) by (rewrite <- (length_removelast x l); by eapply lookup_lt_Some).
    destruct (lookup_lt_is_Some_2 (x :: l) (S i)) as [z Hz]; [simpl; lia|].
    apply elem_of_dom. exists z. rewrite <- Hz. apply Hn.
    destruct (exists_last (l := x :: l)) as (l' & e & Hl); [done|].
    rewrite Hl, removelast_app_one in Hy. rewrite Hl. by apply lookup_app_l_Some. }
  apply subseteq_size in Hsub. rewrite size_dom, size_list_to_set, length_removelast in Hsub.
  - simpl. lia.
  - destruct (exists_last (l := x :: l)) as (l' & e & Hl); [done|].
    rewrite Hl, removelast_app_one. rewrite Hl in Hd. by apply NoDup_app in Hd as (? & _ & _).
Qed.

Lemma walk_holds lat l fuel i :
  holds lat l → walk fuel (nextQueuedTask lat) (l !! i) = take fuel (drop i l).
Proof.
  intros Hl. revert i. induction fuel as [|fuel IH]; intros i; [done|].
  simpl. destruct (l !! i) as [x|] eqn:Hx.
  - rewrite (holds_next _ _ Hl _ _ Hx), IH. by rewrite (drop_S l x i Hx).
  - by rewrite drop_ge by by apply lookup_ge_None_1.
Qed.

Lemma queuedTasks_holds lat l : holds lat l → queuedTasks lat = l.
Proof.
  intros Hl. unfold queuedTasks.
  rewrite (holds_head _ _ Hl), head_lookup, (walk_holds _ l) by done.
  rewrite drop_0. apply take_ge, holds_size, Hl.
Qed.

Lemma holds_enqueue t lat l : holds lat l → t ∉ l → holds (enqueue t lat) (l ++ [t]).
Proof.
  intros [Hh Ht Hn He Hd] Hin. unfold enqueue. rewrite Ht.
  assert (Hnew : NoDup (l ++ [t])).
  { apply NoDup_app. repeat split; [done| |apply NoDup_singleton].
    intros x Hx ->%list_elem_of_singleton. done. }
  destruct (last l) as [tl|] eqn:Hl.
  - apply last_Some in Hl as [l' ->].
    split; simpl; [by rewrite Hh; destruct l'|by rewrite last_snoc| | |done].
    + intros i x Hx.
      destruct (decide (x = tl)) as [->|Hne].
      * rewrite lookup_insert. rewrite decide_True by done.
        assert (i = length l') as ->.
        { eapply (NoDup_lookup _ _ _ tl Hnew Hx).
          apply lookup_app_l_Some. by apply list_lookup_middle. }
        symmetry. apply list_lookup_middle. rewrite length_app. simpl. lia.
      * rewrite lookup_insert_ne by done.
        apply lookup_app_Some in Hx as [Hx|[Hge Hx]].
        -- rewrite (Hn _ _ Hx). assert (i < length l').
           { apply lookup_app_Some in Hx as Hx'. destruct Hx' as [Hx'|[? Hx']].
             - by eapply lookup_lt_Some.
             - apply list_lookup_singleton_Some in Hx' as [_ ?]. congruence. }
           symmetry. apply lookup_app_l. rewrite length_app. simpl. lia.
        -- apply list_lookup_singleton_Some in Hx as [Hi ->].
           rewrite He by done. symmetry. apply lookup_ge_None_2. rewrite length_app. simpl. lia.
    + intros x Hx. rewrite not_elem_of_app in Hx. destruct Hx as [Hx _].
      rewrite lookup_insert_ne by (intros ->; apply Hx; apply list_elem_of_In, in_or_app; simpl; auto).
      by apply He.
  - apply last_None in Hl as ->. split; simpl; try done.
    + intros i x Hx%list_lookup_singleton_Some. destruct Hx as [-> ->]. by rewrite He.
    + intros x Hx. by apply He, not_elem_of_nil.
Qed.
Lemma holds_dequeue_nil lat : holds lat [] → dequeue lat = None.
Proof. intros Hl. unfold dequeue. by rewrite (holds_head _ _ Hl). Qed.

(** What is left of the pointers once the first task is unlinked. *)
Lemma holds_unlink lat t l :
  holds lat (t :: l) →
  nextQueuedTask lat !! t = head l ∧
  (∀ i x, l !! i = Some x → delete t (nextQueuedTask lat) !! x = l !! S i) ∧
  (∀ x, x ∉ l → delete t (nextQueuedTask lat) !! x = None).
Proof.
  intros [_ _ Hn He Hd]. apply NoDup_cons in Hd as [Hin Hd]. repeat split.
  - rewrite (Hn 0 t eq_refl). simpl. by rewrite head_lookup.
  - intros i x Hx. rewrite lookup_delete_ne.
    + by rewrite (Hn (S i) x Hx).
    + intros ->. apply Hin. by eapply list_elem_of_lookup_2.
  - intros x Hx. destruct (decide (x = t)) as [->|Hne]; [by rewrite lookup_delete, decide_True|].
    rewrite lookup_delete_ne by done. apply He. set_solver.
Qed.

Lemma holds_dequeue lat t l :
  holds lat (t :: l) →
  ∃ lat', dequeue lat = Some (t, bool_decide (l ≠ []), lat') ∧ holds lat' l
    ∧ taskReadyCh lat' = taskReadyCh lat ∧ stopCh lat' = stopCh lat.
Proof.
  intros Hl. destruct (holds_unlink _ _ _ Hl) as (Hh & Hn & He).
  pose proof (holds_nodup _ _ Hl) as [_ Hd]%NoDup_cons.
  unfold dequeue. rewrite (holds_head _ _ Hl). simpl. rewrite Hh.
  assert (bool_decide (is_Some (head l)) = bool_decide (l ≠ [])) as ->.
  { by destruct l. }
  eexists. split; [done|]. split; [|done]. split; simpl; try done.
  rewrite (holds_tail _ _ Hl). by destruct l.
Qed.

Lemma clearLoop_empties fuel lat l :
  taskQueueHead lat = head l → length l < fuel →
  (∀ i x, l !! i = Some x → nextQueuedTask lat !! x = l !! S i) →
  (∀ x, x ∉ l → nextQueuedTask lat !! x = None) → NoDup l →
  clearLoop fuel lat = set_queue None None ∅ lat.
Proof.
  revert lat l. induction fuel as [|fuel IH]; intros lat l Hh Hf Hn He Hd; [lia|].
  destruct l as [|x l]; simpl; rewrite Hh; simpl in Hh, Hf |- *.
  - unfold set_queue. f_equal. apply map_eq. intros y. rewrite lookup_empty. apply He, not_elem_of_nil.
  - assert (Hl : holds (mkTunnel (Some x) (last (x :: l)) (nextQueuedTask lat) false false) (x :: l)).
    { split; simpl; done. }
    destruct (holds_unlink _ _ _ Hl) as (Hh' & Hn' & He'). simpl in Hh', Hn', He'.
    apply NoDup_cons in Hd as [Hx Hd].
    rewrite (IH _ l); simpl; try done. lia.
Qed.

Lemma holds_clear lat l : holds lat l → clearTasks lat = set_queue None None ∅ lat.
Proof.
  intros Hl. pose proof (holds_size _ _ Hl). destruct Hl as [Hh _ Hn He Hd].
  eapply clearLoop_empties; try done. lia.
Qed.

Lemma holds_cleared lat : holds (set_queue None None ∅ lat) [].
Proof. split; simpl; try done. constructor. Qed.

(** ** Reachable states *)

(** A goroutine that will look at the queue, or wake one that will. *)
Definition awake (c : position) : bool :=
  match c with
  | sendNotify _ | getCheck | getLocked | getNotify _ => true
  | _ => false
  end.

Record tunnel_inv (w : world) (l : list task) : Prop := {
  inv_holds : holds (tunnel w) l;
  inv_sending : ∀ i c t, goroutines w !! i = Some c → sending c = Some t → t ∉ l;
  inv_distinct : ∀ i j c d t, goroutines w !! i = Some c → goroutines w !! j = Some d →
    sending c = Some t → sending d = Some t → i = j;
  inv_fifo : accepted w = taken w ++ l ∨ stopCh (tunnel w) = true ∧ l = [];
  inv_taken : taken w `prefix_of` accepted w;
  inv_woken : l = [] ∨ stopCh (tunnel w) = true ∨ taskReadyCh (tunnel w) = true
    ∨ ∃ i c, goroutines w !! i = Some c ∧ awake c = true;
  inv_clearing : ∀ i, goroutines w !! i = Some getClear → stopCh (tunnel w) = true;
}.

Lemma inv_move w l i c c' lat' l' acc tk :
  tunnel_inv w l → goroutines w !! i = Some c → holds lat' l' →
  (sending c' = None ∨ sending c' = sending c ∧ l' = l) →
  (∀ t, t ∈ l' → t ∈ l ∨ sending c = Some t) →
  (stopCh (tunnel w) = true → stopCh lat' = true) →
  (c' = getClear → stopCh lat' = true) →
  acc = tk ++ l' ∨ stopCh lat' = true ∧ l' = [] → tk `prefix_of` acc →
  l' = [] ∨ stopCh lat' = true ∨ taskReadyCh lat' = true ∨ awake c' = true
    ∨ (l' = l ∧ taskReadyCh lat' = taskReadyCh (tunnel w) ∧ awake c = false) →
  tunnel_inv (mkWorld lat' (<[i := c']> (goroutines w)) acc tk) l'.
Proof.
  intros [Hh Hs Hd Hf Hp Hw Hc] Hi Hh' Hsend Hl Hstop Hclear Hf' Hp' Hw'. split; simpl; try done.
  - intros j d t [[<- <-]|[Hne Hj]]%lookup_insert_Some Ht Hin.
    + destruct Hsend as [Hn|[Hn ->]]; [congruence|]. apply (Hs i c t); congruence.
    + destruct (Hl t Hin) as [?|Hct]; [by apply (Hs j d t)|].
      apply Hne. by eapply (Hd i j c d t).
  - intros j k d e t [[<- <-]|[Hj Hjd]]%lookup_insert_Some [[<- <-]|[Hk Hke]]%lookup_insert_Some Hdt Het;
      [done| | |by eapply Hd].
    + destruct Hsend as [Hn|[Hn ->]]; [congruence|]. eapply (Hd i k c e t); congruence.
    + destruct Hsend as [Hn|[Hn ->]]; [congruence|]. eapply (Hd j i d c t); congruence.
  - destruct Hw' as [?|[?|[?|[?|(-> & Hr & Ha)]]]]; eauto.
    + do 3 right. exists i, c'. by rewrite lookup_insert, decide_True.
    + destruct Hw as [?|[?|[Hr'|(j & d & Hj & Hda)]]]; [by left|by right; left; apply Hstop| |].
      * right. right. left. congruence.
      * do 3 right. exists j, d. rewrite lookup_insert_ne; [done|]. intros ->. congruence.
  - intros j [[<- ->]|[_ Hj]]%lookup_insert_Some; eauto.
Qed.

(** A move that leaves the queue alone. *)
Lemma inv_stay w l i c c' lat' :
  tunnel_inv w l → goroutines w !! i = Some c → holds lat' l →
  stopCh lat' = stopCh (tunnel w) →
  (sending c' = None ∨ sending c' = sending c) →
  (c' = getClear → stopCh (tunnel w) = true) →
  l = [] ∨ stopCh lat' = true ∨ taskReadyCh lat' = true ∨ awake c' = true
    ∨ (taskReadyCh lat' = taskReadyCh (tunnel w) ∧ awake c = false) →
  tunnel_inv (mkWorld lat' (<[i := c']> (goroutines w)) (accepted w ++ []) (taken w ++ [])) l.
Proof.
  intros Hinv Hi Hh Hst Hs Hc Hw. pose proof Hinv as [_ _ _ Hf Hp _ _]. rewrite !app_nil_r.
  eapply inv_move; eauto; rewrite ?Hst; eauto.
  - destruct Hs; eauto.
  - rewrite <- Hst. naive_solver.
Qed.

Lemma enqueue_flags t lat :
  stopCh (enqueue t lat) = stopCh lat ∧ taskReadyCh (enqueue t lat) = taskReadyCh lat.
Proof. unfold enqueue. by destruct (taskQueueTail lat). Qed.

Lemma inv_enqueue w l i t :
  tunnel_inv w l → goroutines w !! i = Some (sendLocked t) → stopCh (tunnel w) = false →
  tunnel_inv (mkWorld (enqueue t (tunnel w)) (<[i := sendNotify t]> (goroutines w))
                (accepted w ++ [t]) (taken w ++ [])) (l ++ [t]).
Proof.
  intros Hinv Hi Hst. pose proof Hinv as [Hh Hs _ Hf Hp _ _]. rewrite app_nil_r.
  destruct (enqueue_flags t (tunnel w)) as [Hst' _].
  destruct Hf as [Hf|[??]]; [|congruence].
  eapply inv_move; eauto.
  - apply holds_enqueue; eauto.
  - intros x. rewrite elem_of_app, list_elem_of_singleton. intros [?| ->]; eauto.
  - by rewrite Hst'.
  - left. by rewrite Hf, app_assoc.
  - by apply prefix_app_r.
Qed.

Lemma inv_dequeue w l i t hasMore lat' :
  tunnel_inv w l → goroutines w !! i = Some getLocked →
  dequeue (tunnel w) = Some (t, hasMore, lat') →
  ∃ l', tunnel_inv (mkWorld lat'
          (<[i := if hasMore : bool then getNotify t else getReturn (Some t)]> (goroutines w))
          (accepted w ++ []) (taken w ++ [t])) l'.
Proof.
  intros Hinv Hi Hd. pose proof Hinv as [Hh Hs _ Hf Hp _ _]. rewrite app_nil_r.
  destruct l as [|x l]; [by rewrite holds_dequeue_nil in Hd|].
  destruct (holds_dequeue _ _ _ Hh) as (lat'' & Hd' & Hh' & _ & Hst). simplify_eq. exists l.
  destruct Hf as [Hf|[??]]; [|done].
  assert (Hf' : accepted w = (taken w ++ [t]) ++ l) by by rewrite <- app_assoc.
  eapply inv_move; [done..| | | | | | |].
  - by destruct l; left.
  - set_solver.
  - by rewrite Hst.
  - by destruct l.
  - by left.
  - rewrite Hf'. by eexists.
  - destruct l; simpl; auto.
Qed.

Lemma inv_clear w l i :
  tunnel_inv w l → goroutines w !! i = Some getClear →
  tunnel_inv (mkWorld (clearTasks (tunnel w)) (<[i := getReturn None]> (goroutines w))
                (accepted w ++ []) (taken w ++ [])) [].
Proof.
  intros Hinv Hi. pose proof Hinv as [Hh Hs _ Hf Hp _ Hc]. rewrite !app_nil_r.
  rewrite (holds_clear _ _ Hh).
  eapply inv_move; eauto using holds_cleared; try done; simpl; eauto.
  intros t ?%not_elem_of_nil. done.
Qed.

Lemma inv_run w l i c c' lat' :
  tunnel_inv w l → goroutines w !! i = Some c → (c', lat') ∈ advance c (tunnel w) →
  ∃ l', tunnel_inv (mkWorld lat' (<[i := c']> (goroutines w)) (accepted w ++ accepts c c')
                      (taken w ++ takes c c')) l'.
Proof.
  intros Hinv Hi Hadv. pose proof (inv_holds _ _ Hinv) as Hh.
  assert (Hstay : ∀ lat'' c'', holds lat'' l → stopCh lat'' = stopCh (tunnel w) →
    accepts c c'' = [] → takes c c'' = [] →
    (sending c'' = None ∨ sending c'' = sending c) →
    (c'' = getClear → stopCh (tunnel w) = true) →
    l = [] ∨ stopCh lat'' = true ∨ taskReadyCh lat'' = true ∨ awake c'' = true
      ∨ (taskReadyCh lat'' = taskReadyCh (tunnel w) ∧ awake c = false) →
    ∃ l', tunnel_inv (mkWorld lat'' (<[i := c'']> (goroutines w)) (accepted w ++ accepts c c'')
                        (taken w ++ takes c c'')) l').
  { intros lat'' c'' ?? -> -> ???. exists l. by eapply inv_stay. }
  destruct c as [t|t|t|ok| | |t| | |r]; simpl in Hadv.
  - apply list_elem_of_singleton in Hadv. simplify_eq.
    destruct (stopCh (tunnel w)) eqn:?; apply Hstay; simpl; auto 10; done.
  - destruct (stopCh (tunnel w)) eqn:Hst; apply list_elem_of_singleton in Hadv; simplify_eq.
    + apply Hstay; simpl; auto 10; done.
    + eexists. by apply inv_enqueue.
  - apply list_elem_of_singleton in Hadv. simplify_eq. apply Hstay; simpl; auto 10; first [done | by apply holds_ready].
  - by apply not_elem_of_nil in Hadv.
  - apply list_elem_of_singleton in Hadv. simplify_eq.
    destruct (stopCh (tunnel w)) eqn:?; apply Hstay; simpl; auto 10; done.
  - destruct (dequeue (tunnel w)) as [[[t more] lat'']|] eqn:Hd; apply list_elem_of_singleton in Hadv;
      simplify_eq.
    + destruct (inv_dequeue _ _ _ _ _ _ Hinv Hi Hd) as [l' Hl']. exists l'. by destruct more.
    + apply Hstay; simpl; auto 10; [done|]. left.
      destruct l as [|x l]; [done|]. destruct (holds_dequeue _ _ _ Hh) as (? & ? & _). congruence.
  - apply list_elem_of_singleton in Hadv. simplify_eq. apply Hstay; simpl; auto 10; first [done | by apply holds_ready].
  - apply elem_of_app in Hadv as [Hadv|Hadv].
    + destruct (taskReadyCh (tunnel w)); [|by apply not_elem_of_nil in Hadv].
      apply list_elem_of_singleton in Hadv. simplify_eq.
      apply Hstay; simpl; auto 10; first [done | by apply holds_ready].
    + destruct (stopCh (tunnel w)) eqn:?; [|by apply not_elem_of_nil in Hadv].
      apply list_elem_of_singleton in Hadv. simplify_eq. apply Hstay; simpl; auto 10; done.
  - apply list_elem_of_singleton in Hadv. simplify_eq. exists []. by eapply inv_clear.
  - by apply not_elem_of_nil in Hadv.
Qed.

(** Goroutines that enter or leave a call, or the worker stopping. *)
Lemma inv_enter w l i c :
  tunnel_inv w l → goroutines w !! i = None → c ≠ getClear →
  (∀ t, sending c = Some t → (t ∉ l) ∧ (∀ j d, goroutines w !! j = Some d → sending d ≠ Some t)) →
  tunnel_inv (mkWorld (tunnel w) (<[i := c]> (goroutines w)) (accepted w) (taken w)) l.
Proof.
  intros [Hh Hs Hd Hf Hp Hw Hc] Hi Hne Hnew. split; simpl; try done.
  - intros j d t [[<- <-]|[_ Hj]]%lookup_insert_Some Ht; [by apply Hnew|by eapply Hs].
  - intros j k d e t [[<- <-]|[Hj Hjd]]%lookup_insert_Some [[<- <-]|[Hk Hke]]%lookup_insert_Some Hdt Het;
      [done| | |by eapply Hd]; exfalso; by eapply Hnew.
  - destruct Hw as [?|[?|[?|(j & d & Hj & ?)]]]; [auto..|].
    do 3 right. exists j, d. rewrite lookup_insert_ne; [done|]. by intros ->; congruence.
  - intros j [[<- ?]|[_ Hj]]%lookup_insert_Some; [done|by eapply Hc].
Qed.

Lemma inv_leave w l i c :
  tunnel_inv w l → goroutines w !! i = Some c → awake c = false →
  tunnel_inv (mkWorld (tunnel w) (delete i (goroutines w)) (accepted w) (taken w)) l.
Proof.
  intros [Hh Hs Hd Hf Hp Hw Hc] Hi Ha. split; simpl; try done.
  - intros j d t [_ Hj]%lookup_delete_Some. by eapply Hs.
  - intros j k d e t [_ Hj]%lookup_delete_Some [_ Hk]%lookup_delete_Some. by eapply Hd.
  - destruct Hw as [?|[?|[?|(j & d & Hj & ?)]]]; [auto..|].
    do 3 right. exists j, d. rewrite lookup_delete_ne; [done|]. by intros ->; congruence.
  - intros j [_ Hj]%lookup_delete_Some. by eapply Hc.
Qed.

Lemma inv_step w l w' : tunnel_inv w l → step w w' → ∃ l', tunnel_inv w' l'.
Proof.
  intros Hinv Hstep. pose proof (queuedTasks_holds _ _ (inv_holds _ _ Hinv)) as Hq.
  destruct Hstep as [w i t Hi Ht Hn|w i Hi|w i c c' lat' Hi Hadv|w i c Hi Hadv|w].
  - exists l. apply inv_enter; [done..|]. intros t' [= <-]. rewrite <- Hq. eauto.
  - exists l. by apply inv_enter.
  - by eapply inv_run.
  - exists l. eapply inv_leave; [done..|].
    destruct c; simpl in *; try done; by specialize (Hadv (tunnel w)); repeat case_match.
  - exists l. destruct Hinv as [Hh Hs Hd Hf Hp Hw Hc]. split; simpl; try done; [by apply holds_stop| |auto].
    destruct Hf as [?|[_ ?]]; auto.
Qed.

Lemma reachable_inv w : reachable w → ∃ l, tunnel_inv w l.
Proof.
  intros Hr. unfold reachable in Hr. apply rtc_ind_r with (P := λ w, ∃ l, tunnel_inv w l) in Hr; [done| |].
  - exists []. split; simpl; try done; auto using holds_new.
  - intros ?? _ Hst [l Hl]. by eapply inv_step.
Qed.

Lemma awake_moves c lat : awake c = true → advance c lat ≠ [].
Proof. destruct c; simpl; try done; intros _; by repeat case_match. Qed.

(** C24. Local activities reach the pollers in the order in which they were
    sent, each accepted task once: what was taken is always a first part of
    what was accepted, and until the worker stops the rest is the queue. No
    wakeup is lost: when no goroutine can move and a poller waits, the queue
    is empty. *)
Theorem tunnel_delivers (w : world) :
  reachable w →
  taken w `prefix_of` accepted w
  ∧ (stopCh (tunnel w) = false →
     accepted w = taken w ++ queuedTasks (tunnel w)
     ∧ ((∀ i c, goroutines w !! i = Some c → advance c (tunnel w) = []) →
        (∃ i, goroutines w !! i = Some getWait) → queuedTasks (tunnel w) = [])).
Proof.
  intros [l Hl]%reachable_inv. rewrite (queuedTasks_holds _ _ (inv_holds _ _ Hl)).
  destruct Hl as [_ _ _ Hf Hp Hw _]. split; [done|]. intros Hst. split.
  - destruct Hf as [?|[??]]; congruence.
  - intros Hblocked [i Hi]. destruct Hw as [?|[?|[Hr|(j & c & Hj & Hc)]]]; [done|congruence| |].
    + specialize (Hblocked _ _ Hi). simpl in Hblocked. by rewrite Hr in Hblocked.
    + by destruct (awake_moves c (tunnel w) Hc), (Hblocked _ _ Hj).
Qed.
End Tunnel.

Definition exampleWorld : world (task := nat) :=
  mkWorld (mkTunnel (Some 7) (Some 7) ∅ false false) {[0 := getWait; 1 := sendNotify 7]} [7] [].

Lemma exampleWorld_reachable : reachable exampleWorld.
Proof.
  unfold reachable, initial.
  eapply rtc_l.
  { apply (call_sendTask _ 1 7); [reflexivity|apply not_elem_of_nil|].
    simpl. by intros j c ?%lookup_empty_Some. }
  eapply rtc_l; [by apply (call_getTask _ 0)|].
  eapply rtc_l; [by eapply (run_goroutine _ 0); [reflexivity|constructor]|].
  eapply rtc_l; [by eapply (run_goroutine _ 0); [reflexivity|constructor]|].
  eapply rtc_l; [by eapply (run_goroutine _ 1); [reflexivity|constructor]|].
  eapply rtc_l; [by eapply (run_goroutine _ 1); [reflexivity|constructor]|].
  match goal with |- rtc _ ?w _ => replace w with exampleWorld by (vm_compute; reflexivity) end.
  apply rtc_refl.
Qed.

Lemma tunnel_delivers_witness :
  taken exampleWorld `prefix_of` accepted exampleWorld
  ∧ accepted exampleWorld = [] ++ queuedTasks (tunnel exampleWorld).
Proof.
  destruct (tunnel_delivers exampleWorld exampleWorld_reachable) as [Hp Hq].
  split; [exact Hp|]. exact (proj1 (Hq eq_refl)).
Defined.
