(* ===== verification/TaskContext.v ===== *)
(** * The cached state of a workflow execution
      ([src/internal/internal_task_handlers.go],
      [workflowExecutionContextImpl]).

    A context keeps the event handler of an execution between its workflow
    tasks.  This file has the state, its creation from a history and its
    clearing; [TaskProcessing.v] runs workflow tasks on it.

    The event handler is known to this code through an interface
    ([workflowExecutionEventHandler]), the class below; [TaskHandlers.v] gives
    the instance made of [EventHandlers.v] and [Update.v]. *)

From stdpp Require Import base list gmap strings.
From S2P Require Import Prelude Proto CommandMachine CommandsHelper Flags History Replay Update Errors Retry Environment EventHandlers.
Open Scope Z_scope.

(** ** The event handler *)

(** [workflowExecutionEventHandlerImpl]: the environment and what updates add
    to it ([updateEnv]), and the SDK that ran the execution. *)
Record eventHandler : Type := mkEventHandler {
  eh_env : workflowEnvironmentImpl;
  eh_instances : gmap string updateProtocol;
  eh_outbox : list outEntry;
  eh_spawned : list (string * string * bool);
  eh_buffered : gmap string (list (string * bool));
  eh_running : gset string;
  eh_sdkVersion : string;
  eh_sdkName : string;
  eh_sdkVersionUpdated : bool;
  eh_sdkNameUpdated : bool;
}.

Definition set_eh_env (v : workflowEnvironmentImpl) (eh : eventHandler) : eventHandler :=
  mkEventHandler v (eh_instances eh) (eh_outbox eh) (eh_spawned eh) (eh_buffered eh) (eh_running
    eh) (eh_sdkVersion eh) (eh_sdkName eh) (eh_sdkVersionUpdated eh) (eh_sdkNameUpdated eh).
Definition set_eh_instances (v : gmap string updateProtocol) (eh : eventHandler) : eventHandler :=
  mkEventHandler (eh_env eh) v (eh_outbox eh) (eh_spawned eh) (eh_buffered eh) (eh_running eh)
    (eh_sdkVersion eh) (eh_sdkName eh) (eh_sdkVersionUpdated eh) (eh_sdkNameUpdated eh).
Definition set_eh_outbox (v : list outEntry) (eh : eventHandler) : eventHandler :=
  mkEventHandler (eh_env eh) (eh_instances eh) v (eh_spawned eh) (eh_buffered eh) (eh_running
    eh) (eh_sdkVersion eh) (eh_sdkName eh) (eh_sdkVersionUpdated eh) (eh_sdkNameUpdated eh).
Definition set_eh_sdkVersion (v : string) (eh : eventHandler) : eventHandler :=
  mkEventHandler (eh_env eh) (eh_instances eh) (eh_outbox eh) (eh_spawned eh) (eh_buffered eh)
    (eh_running eh) v (eh_sdkName eh) (eh_sdkVersionUpdated eh) (eh_sdkNameUpdated eh).
Definition set_eh_sdkName (v : string) (eh : eventHandler) : eventHandler :=
  mkEventHandler (eh_env eh) (eh_instances eh) (eh_outbox eh) (eh_spawned eh) (eh_buffered eh)
    (eh_running eh) (eh_sdkVersion eh) v (eh_sdkVersionUpdated eh) (eh_sdkNameUpdated eh).
Definition set_eh_sdkVersionUpdated (v : bool) (eh : eventHandler) : eventHandler :=
  mkEventHandler (eh_env eh) (eh_instances eh) (eh_outbox eh) (eh_spawned eh) (eh_buffered eh)
    (eh_running eh) (eh_sdkVersion eh) (eh_sdkName eh) v (eh_sdkNameUpdated eh).
Definition set_eh_sdkNameUpdated (v : bool) (eh : eventHandler) : eventHandler :=
  mkEventHandler (eh_env eh) (eh_instances eh) (eh_outbox eh) (eh_spawned eh) (eh_buffered eh)
    (eh_running eh) (eh_sdkVersion eh) (eh_sdkName eh) (eh_sdkVersionUpdated eh) v.

(** A call on the environment, and one on the part that updates use. *)
Definition onEnv {A} (m : Env A) : Go eventHandler A := λ eh,
  let '(r, e) := m (eh_env eh) in (r, set_eh_env e eh).

Definition onUpdates {A} (m : U A) : Go eventHandler A := λ eh,
  let e := eh_env eh in
  let '(r, u) := m (mkUpdateEnv (eh_instances eh) (helper e) (Environment.flags e) (isReplay e)
                      (eh_outbox eh) (eh_spawned eh) (eh_buffered eh) (eh_running eh)) in
  (r, mkEventHandler
        (set_flags (env_sdkFlags u) (set_helper (env_commandsHelper u) e))
        (instances u) (outbox u) (spawned u) (bufferedUpdateRequests u) (runningUpdatesHandles u)
        (eh_sdkVersion eh) (eh_sdkName eh) (eh_sdkVersionUpdated eh) (eh_sdkNameUpdated eh)).

Definition newWorkflowExecutionEventHandler (info : WorkflowInfo) (capabilities : bool) (now : Z)
    : eventHandler :=
  mkEventHandler
    (set_workflowInfo info (newEnvironment (TaskQueueName info) (currentRunID info) capabilities now))
    ∅ [] [] ∅ ∅ "" "" false false.

Definition getNewSdkNameAndReset (eh : eventHandler) : string * eventHandler :=
  if eh_sdkNameUpdated eh then (eh_sdkName eh, set_eh_sdkNameUpdated false eh) else ("", eh).

Definition getNewSdkVersionAndReset (eh : eventHandler) : string * eventHandler :=
  if eh_sdkVersionUpdated eh then (eh_sdkVersion eh, set_eh_sdkVersionUpdated false eh) else ("", eh).

(** The interface [workflowExecutionEventHandler], and
    [ProcessLocalActivityResult]. *)
Class WorkflowExecutionEventHandler : Type := mkHandler {
  handler_ProcessEvent : HistoryEvent → bool → bool → Go eventHandler (option goError);
  handler_ProcessMessage : Message → bool → bool → Go eventHandler (option goError);
  handler_ProcessQuery : string → option Payloads → gmap string Payload →
    Go eventHandler (goError + option Payloads);
  handler_ProcessLocalActivityResult : localActivityResult → Go eventHandler (option goError);
  handler_Close : Go eventHandler unit;
}.

(** ** Data *)

(** [PollWorkflowTaskQueueResponse]; [None] is a nil message. *)
Record WorkflowQuery : Type := mkWorkflowQuery {
  QueryType : string;
  QueryArgs : option Payloads;
  Query_Header : gmap string Payload;
}.

Record pollTask : Type := mkPollTask {
  TaskToken : string;
  task_WorkflowExecution : WorkflowExecution;
  task_WorkflowType : string;
  task_PreviousStartedEventId : Z;
  StartedEventId : Z;
  task_History : option (list HistoryEvent);
  task_Query : option WorkflowQuery;
  Queries : gmap string WorkflowQuery;
  Messages : list Message;
  PollerGroupId : string;
}.

Definition set_History (v : option (list HistoryEvent)) (t : pollTask) : pollTask :=
  mkPollTask (TaskToken t) (task_WorkflowExecution t) (task_WorkflowType t)
    (task_PreviousStartedEventId t) (StartedEventId t) v (task_Query t) (Queries t) (Messages t)
    (PollerGroupId t).

(** The fields of [WorkflowInfo] that no operation changes. *)
Record executionInfo : Type := mkExecutionInfo {
  info_WorkflowExecution : WorkflowExecution;
  OriginalRunID : string;
  FirstRunID : string;
  info_WorkflowType : string;
  WorkflowExecutionTimeout : Z;
  WorkflowRunTimeout : Z;
  WorkflowTaskTimeout : Z;
  info_Namespace : string;
  Attempt : Z;
  WorkflowStartTime : Z;
  lastCompletionResult : option Payloads;
  lastFailure : option Failure;
  CronSchedule : string;
  ContinuedExecutionRunID : string;
  ParentWorkflowNamespace : string;
  ParentWorkflowExecution : option WorkflowExecution;
  RootWorkflowExecution : option WorkflowExecution;
  info_RetryPolicy : option RetryPolicy;
  info_Priority : option opaqueMessage;
  propagatedNexusSerializationContext : option opaqueMessage;
}.

(** The tunnel as a context uses it: whether it is stopped, and the tasks sent
    to it so far ([Tunnel.v] has the tunnel). *)
Record tunnelEnd : Type := mkTunnelEnd {
  tunnel_stopped : bool;
  tunnel_sent : list localActivityTask;
}.

(** [workflowExecutionContextImpl].  [w_info] is what [workflowInfo] points to
    while there is no event handler; a handler holds the same pointer, so its
    copy is the current one then. *)
Record workflowExecutionContextImpl : Type := mkContext {
  w_execution : executionInfo;
  w_info : WorkflowInfo;
  w_BinaryChecksum : string;
  w_currentTaskBuildID : string;
  w_eventHandler : option eventHandler;
  isWorkflowCompleted : bool;
  w_result : option Payloads;
  w_err : option goError;
  previousStartedEventID : Z;
  w_lastHandledEventID : Z;
  newCommands : list Command;
  newMessages : list outMessage;
  currentWorkflowTask : option pollTask;
  laTunnel : option tunnelEnd;
  cached : bool;
}.

Abbreviation Ctx := (Go workflowExecutionContextImpl).

Definition set_w_execution (v : executionInfo) (w : workflowExecutionContextImpl) : workflowExecutionContextImpl :=
  mkContext v (w_info w) (w_BinaryChecksum w) (w_currentTaskBuildID w) (w_eventHandler w)
    (isWorkflowCompleted w) (w_result w) (w_err w) (previousStartedEventID w)
    (w_lastHandledEventID w) (newCommands w) (newMessages w) (currentWorkflowTask w) (laTunnel
    w) (cached w).
Definition set_w_info (v : WorkflowInfo) (w : workflowExecutionContextImpl) : workflowExecutionContextImpl :=
  mkContext (w_execution w) v (w_BinaryChecksum w) (w_currentTaskBuildID w) (w_eventHandler w)
    (isWorkflowCompleted w) (w_result w) (w_err w) (previousStartedEventID w)
    (w_lastHandledEventID w) (newCommands w) (newMessages w) (currentWorkflowTask w) (laTunnel
    w) (cached w).
Definition set_w_BinaryChecksum (v : string) (w : workflowExecutionContextImpl) : workflowExecutionContextImpl :=
  mkContext (w_execution w) (w_info w) v (w_currentTaskBuildID w) (w_eventHandler w)
    (isWorkflowCompleted w) (w_result w) (w_err w) (previousStartedEventID w)
    (w_lastHandledEventID w) (newCommands w) (newMessages w) (currentWorkflowTask w) (laTunnel
    w) (cached w).
Definition set_w_currentTaskBuildID (v : string) (w : workflowExecutionContextImpl) : workflowExecutionContextImpl :=
  mkContext (w_execution w) (w_info w) (w_BinaryChecksum w) v (w_eventHandler w)
    (isWorkflowCompleted w) (w_result w) (w_err w) (previousStartedEventID w)
    (w_lastHandledEventID w) (newCommands w) (newMessages w) (currentWorkflowTask w) (laTunnel
    w) (cached w).
Definition set_w_eventHandler (v : option eventHandler) (w : workflowExecutionContextImpl) : workflowExecutionContextImpl :=
  mkContext (w_execution w) (w_info w) (w_BinaryChecksum w) (w_currentTaskBuildID w) v
    (isWorkflowCompleted w) (w_result w) (w_err w) (previousStartedEventID w)
    (w_lastHandledEventID w) (newCommands w) (newMessages w) (currentWorkflowTask w) (laTunnel
    w) (cached w).
Definition set_isWorkflowCompleted (v : bool) (w : workflowExecutionContextImpl) : workflowExecutionContextImpl :=
  mkContext (w_execution w) (w_info w) (w_BinaryChecksum w) (w_currentTaskBuildID w)
    (w_eventHandler w) v (w_result w) (w_err w) (previousStartedEventID w) (w_lastHandledEventID
    w) (newCommands w) (newMessages w) (currentWorkflowTask w) (laTunnel w) (cached w).
Definition set_w_result (v : option Payloads) (w : workflowExecutionContextImpl) : workflowExecutionContextImpl :=
  mkContext (w_execution w) (w_info w) (w_BinaryChecksum w) (w_currentTaskBuildID w)
    (w_eventHandler w) (isWorkflowCompleted w) v (w_err w) (previousStartedEventID w)
    (w_lastHandledEventID w) (newCommands w) (newMessages w) (currentWorkflowTask w) (laTunnel
    w) (cached w).
Definition set_w_err (v : option goError) (w : workflowExecutionContextImpl) : workflowExecutionContextImpl :=
  mkContext (w_execution w) (w_info w) (w_BinaryChecksum w) (w_currentTaskBuildID w)
    (w_eventHandler w) (isWorkflowCompleted w) (w_result w) v (previousStartedEventID w)
    (w_lastHandledEventID w) (newCommands w) (newMessages w) (currentWorkflowTask w) (laTunnel
    w) (cached w).
Definition set_previousStartedEventID (v : Z) (w : workflowExecutionContextImpl) : workflowExecutionContextImpl :=
  mkContext (w_execution w) (w_info w) (w_BinaryChecksum w) (w_currentTaskBuildID w)
    (w_eventHandler w) (isWorkflowCompleted w) (w_result w) (w_err w) v (w_lastHandledEventID w)
    (newCommands w) (newMessages w) (currentWorkflowTask w) (laTunnel w) (cached w).
Definition set_w_lastHandledEventID (v : Z) (w : workflowExecutionContextImpl) : workflowExecutionContextImpl :=
  mkContext (w_execution w) (w_info w) (w_BinaryChecksum w) (w_currentTaskBuildID w)
    (w_eventHandler w) (isWorkflowCompleted w) (w_result w) (w_err w) (previousStartedEventID w)
    v (newCommands w) (newMessages w) (currentWorkflowTask w) (laTunnel w) (cached w).
Definition set_newCommands (v : list Command) (w : workflowExecutionContextImpl) : workflowExecutionContextImpl :=
  mkContext (w_execution w) (w_info w) (w_BinaryChecksum w) (w_currentTaskBuildID w)
    (w_eventHandler w) (isWorkflowCompleted w) (w_result w) (w_err w) (previousStartedEventID w)
    (w_lastHandledEventID w) v (newMessages w) (currentWorkflowTask w) (laTunnel w) (cached w).
Definition set_newMessages (v : list outMessage) (w : workflowExecutionContextImpl) : workflowExecutionContextImpl :=
  mkContext (w_execution w) (w_info w) (w_BinaryChecksum w) (w_currentTaskBuildID w)
    (w_eventHandler w) (isWorkflowCompleted w) (w_result w) (w_err w) (previousStartedEventID w)
    (w_lastHandledEventID w) (newCommands w) v (currentWorkflowTask w) (laTunnel w) (cached w).
Definition set_currentWorkflowTask (v : option pollTask) (w : workflowExecutionContextImpl) : workflowExecutionContextImpl :=
  mkContext (w_execution w) (w_info w) (w_BinaryChecksum w) (w_currentTaskBuildID w)
    (w_eventHandler w) (isWorkflowCompleted w) (w_result w) (w_err w) (previousStartedEventID w)
    (w_lastHandledEventID w) (newCommands w) (newMessages w) v (laTunnel w) (cached w).
Definition set_laTunnel (v : option tunnelEnd) (w : workflowExecutionContextImpl) : workflowExecutionContextImpl :=
  mkContext (w_execution w) (w_info w) (w_BinaryChecksum w) (w_currentTaskBuildID w)
    (w_eventHandler w) (isWorkflowCompleted w) (w_result w) (w_err w) (previousStartedEventID w)
    (w_lastHandledEventID w) (newCommands w) (newMessages w) (currentWorkflowTask w) v (cached
    w).
Definition set_cached (v : bool) (w : workflowExecutionContextImpl) : workflowExecutionContextImpl :=
  mkContext (w_execution w) (w_info w) (w_BinaryChecksum w) (w_currentTaskBuildID w)
    (w_eventHandler w) (isWorkflowCompleted w) (w_result w) (w_err w) (previousStartedEventID w)
    (w_lastHandledEventID w) (newCommands w) (newMessages w) (currentWorkflowTask w) (laTunnel
    w) v.

(** ** Configuration *)

(** [WorkflowPanicPolicy] is an [int]. *)
Inductive WorkflowPanicPolicy : Type :=
| BlockWorkflow
| FailWorkflow
| unknownPanicPolicy (value : Z).

Inductive VersioningBehavior : Type :=
| VersioningBehaviorUnspecified
| VersioningBehaviorPinned
| VersioningBehaviorAutoUpgrade
| unknownVersioningBehavior (value : Z).

#[export] Instance VersioningBehavior_eq_dec : EqDecision VersioningBehavior.
Proof. solve_decision. Defined.

Record WorkerDeploymentVersion : Type := mkWorkerDeploymentVersion {
  DeploymentName : string;
  Version_BuildID : string;
}.

#[export] Instance WorkerDeploymentVersion_eq_dec : EqDecision WorkerDeploymentVersion.
Proof. solve_decision. Defined.

(** What the server can do, as far as this code asks. *)
Record Capabilities : Type := mkCapabilities {
  SdkMetadata : bool;
  BuildIdBasedVersioning : bool;
}.

(** [workflowTaskHandlerImpl]; [registry] is its
    [getWorkflowVersioningBehavior]. *)
Record workflowTaskHandlerImpl : Type := mkTaskHandler {
  wth_namespace : string;
  identity : string;
  workerBuildID : string;
  useBuildIDForVersioning : bool;
  workerDeploymentVersion : WorkerDeploymentVersion;
  defaultVersioningBehavior : VersioningBehavior;
  registry : string → option VersioningBehavior;
  workflowPanicPolicy : WorkflowPanicPolicy;
  capabilities : option Capabilities;
  workerControlTaskQueue : string;
  maxWorkflowCacheSize : Z;
}.

(** ** The context *)

(** [*w.workflowInfo], wherever the pointer leads. *)
Definition currentInfo (w : workflowExecutionContextImpl) : WorkflowInfo :=
  match w_eventHandler w with
  | Some eh => workflowInfo (eh_env eh)
  | None => w_info w
  end.

Definition set_currentInfo (v : WorkflowInfo) (w : workflowExecutionContextImpl)
    : workflowExecutionContextImpl :=
  match w_eventHandler w with
  | Some eh => set_w_eventHandler (Some (set_eh_env (set_workflowInfo v (eh_env eh)) eh)) w
  | None => set_w_info v w
  end.

(** The completion handler of the event handler. *)
Definition context_completeWorkflow (result : option Payloads) (err : option goError)
    (w : workflowExecutionContextImpl) : workflowExecutionContextImpl :=
  set_w_err err (set_w_result result (set_isWorkflowCompleted true w)).

(** A call on the event handler: what it completed the workflow with reaches
    the context. *)
Definition afterCall (eh : eventHandler) (w : workflowExecutionContextImpl)
    : workflowExecutionContextImpl :=
  let w' := set_w_eventHandler (Some (set_eh_env (set_completed None (eh_env eh)) eh)) w in
  match completed (eh_env eh) with
  | Some (result, err) => context_completeWorkflow result err w'
  | None => w'
  end.

Definition callHandler {A} (m : Go eventHandler A) : Ctx A := λ w,
  match w_eventHandler w with
  | None => (Panicked History.nilDereference, w)
  | Some eh => let '(r, eh') := m eh in (r, afterCall eh' w)
  end.

Definition clearCurrentTask (w : workflowExecutionContextImpl) : workflowExecutionContextImpl :=
  set_currentWorkflowTask None (set_newMessages [] (set_newCommands [] w)).

(** The pointer to the handler is gone, the one to [workflowInfo] stays. *)
Definition dropHandler (w : workflowExecutionContextImpl) : workflowExecutionContextImpl :=
  set_w_eventHandler None (set_w_info (currentInfo w) w).

Definition IsDestroyed (w : workflowExecutionContextImpl) : bool :=
  bool_decide (w_eventHandler w = None).

Definition isFullHistory (h : option (list HistoryEvent)) : outcome bool :=
  match h with
  | None => Panicked History.nilDereference
  | Some [] => Returned false
  | Some (e :: _) =>
      Returned (bool_decide (Event_EventType e = EVENT_TYPE_WORKFLOW_EXECUTION_STARTED))
  end.

Definition startedExecutionOf (e : HistoryEvent) : option startedExecution :=
  match Event_Attributes e with
  | WorkflowExecutionStartedEventAttributes _ _ execution => Some execution
  | _ => None
  end.

Definition SetCurrentTask (task : pollTask) (w : workflowExecutionContextImpl)
    : workflowExecutionContextImpl :=
  let w' := set_currentWorkflowTask (Some task) w in
  match task_Query task with
  | None => set_previousStartedEventID (StartedEventId task) w'
  | Some _ => w'
  end.

Definition SetPreviousStartedEventID (eventID : Z) (w : workflowExecutionContextImpl)
    : workflowExecutionContextImpl :=
  set_previousStartedEventID eventID
    (set_w_lastHandledEventID (wrap64 (w_lastHandledEventID w - 2)) w).

Definition hasPendingLocalActivityWork (w : workflowExecutionContextImpl) : bool :=
  negb (isWorkflowCompleted w) &&
  match currentWorkflowTask w, w_eventHandler w with
  | Some task, Some eh =>
      bool_decide (task_Query task = None) && bool_decide (pendingLaTasks (eh_env eh) ≠ ∅)
  | _, _ => false
  end.

Section Context.
  Context `{WorkflowExecutionEventHandler}.
  Variable wth : workflowTaskHandlerImpl.
  (** What [time.Now] returns. *)
  Variable now : Z.

Definition clearState : Ctx unit :=
  _ ← modify (λ w,
        set_newMessages [] (set_newCommands [] (set_w_lastHandledEventID 0
          (set_previousStartedEventID 0 (set_w_err None (set_w_result None
            (set_isWorkflowCompleted false (clearCurrentTask w))))))));
  w ← get;
  match w_eventHandler w with
  | None => mret tt
  | Some _ =>
      _ ← callHandler (onEnv (modify (set_isReplay true)));
      _ ← callHandler handler_Close;
      modify dropHandler
  end.

Definition createEventHandler : Ctx unit :=
  _ ← clearState;
  modify (λ w, set_w_eventHandler (Some (newWorkflowExecutionEventHandler (currentInfo w)
    (match capabilities wth with Some c => SdkMetadata c | None => false end) now)) w).

Definition newWorkflowExecutionContext (execution : executionInfo) (info : WorkflowInfo)
    : workflowExecutionContextImpl :=
  final createEventHandler
    (mkContext execution info "" "" None false None None 0 0 [] [] None None false).

Definition createWorkflowContext (task : pollTask)
    : outcome (goError + workflowExecutionContextImpl) :=
  match task_History task with
  | None => Panicked History.nilDereference
  | Some [] => Panicked (runtimeError "index out of range")
  | Some (startedEvent :: _) =>
      match startedExecutionOf startedEvent with
      | None => Returned (inl (newError "first history event is not WorkflowExecutionStarted"))
      | Some a =>
          let taskQueue := default "" (started_TaskQueue a) in
          if decide (taskQueue = "") then
            Returned (inl (newError "nil or empty TaskQueue in WorkflowExecutionStarted event"))
          else
            let execution := mkExecutionInfo (task_WorkflowExecution task)
              (started_OriginalExecutionRunId a) (started_FirstExecutionRunId a)
              (task_WorkflowType task) (started_WorkflowExecutionTimeout a)
              (started_WorkflowRunTimeout a) (started_WorkflowTaskTimeout a) (wth_namespace wth)
              (started_Attempt a) (Event_EventTime startedEvent) (started_LastCompletionResult a)
              (started_ContinuedFailure a) (started_CronSchedule a)
              (started_ContinuedExecutionRunId a) (started_ParentNamespace a)
              (started_ParentExecution a) (started_RootExecution a)
              (convertFromPBRetryPolicy (started_RetryPolicy a)) (started_Priority a)
              (started_PropagatedNexusSerializationContext a) in
            let info := mkWorkflowInfo taskQueue (started_OriginalExecutionRunId a)
              (started_SearchAttributes a) (started_Memo a) 0 0 false [] false in
            Returned (inr (newWorkflowExecutionContext execution info))
      end
  end.

(** ** Resetting to the start of the history *)

Section Pages.
  Variable decodeJSON : string → string + list HistoryEvent.
  Variable unmarshal : string → string + list HistoryEvent.
  Variable visitPayloads : list HistoryEvent → string + list HistoryEvent.

(** The context and the workflow task being handled: the response of the
    service and its iterator. *)
Record taskRun : Type := mkTaskRun {
  run_context : workflowExecutionContextImpl;
  run_task : pollTask;
  run_iterator : option historyIterator;
}.

Definition inContext {A} (m : Ctx A) : Go taskRun A := λ s,
  let '(r, w) := m (run_context s) in (r, mkTaskRun w (run_task s) (run_iterator s)).

(** The task and its iterator. *)
Definition resetHistory : Go (pollTask * option historyIterator) (goError + option (list HistoryEvent)) :=
  λ '(task, iterator),
  match iterator with
  | None => (Panicked History.nilDereference, (task, None))
  | Some it =>
      let '(r, it') := GetNextPage decodeJSON unmarshal visitPayloads (Reset it) in
      match r with
      | Panicked p => (Panicked p, (task, Some it'))
      | Returned (inl err) => (Returned (inl (newError err)), (task, Some it'))
      | Returned (inr page) => (Returned (inr page), (set_History page task, Some it'))
      end
  end.

Definition onHistory {A} (m : Go (pollTask * option historyIterator) A) : Go taskRun A := λ s,
  let '(r, (task, it)) := m (run_task s, run_iterator s) in (r, mkTaskRun (run_context s) task it).

(** Search attributes and memo are set back to those of the started event. *)
Definition resetInfo : Go taskRun (goError + unit) :=
  s ← get;
  match task_History (run_task s) with
  | None => panic History.nilDereference
  | Some [] => panic (runtimeError "index out of range")
  | Some (startedEvent :: _) =>
      match startedExecutionOf startedEvent with
      | None => mret (inl (newError "first history event is not WorkflowExecutionStarted"))
      | Some a =>
          _ ← inContext (modify (λ w,
                set_currentInfo (set_Memo (started_Memo a)
                  (set_SearchAttributes (started_SearchAttributes a) (currentInfo w))) w));
          mret (inr tt)
      end
  end.

Definition resetStateIfDestroyed : Go taskRun (goError + unit) :=
  s ← get;
  if IsDestroyed (run_context s) then
    _ ← inContext createEventHandler;
    full ← lift (isFullHistory (task_History (run_task s)));
    _ ←? (if full : bool then mret (inr tt) else _ ←? onHistory resetHistory; mret (inr tt));
    resetInfo
  else mret (inr tt).

Definition ResetIfStale : Go taskRun (goError + unit) :=
  s ← get;
  match task_History (run_task s) with
  | None => panic History.nilDereference
  | Some (e :: _) =>
      if decide (Event_EventId e ≠ wrap64 (previousStartedEventID (run_context s) + 1)) then
        _ ← inContext clearState;
        resetStateIfDestroyed
      else mret (inr tt)
  | Some [] => mret (inr tt)
  end.
End Pages.
End Context.
