(* ===== verification/TaskCompletion.v ===== *)
(** * Completing a workflow task
      ([src/internal/internal_task_handlers.go], [completeWorkflow],
      [CompleteWorkflowTask], [applyWorkflowPanicPolicy],
      [ProcessLocalActivityResult]).

    What a context answers the service with: the commands and messages of the
    workflow, a command that closes it when it completed, the answers to
    queries. *)

From stdpp Require Import base list gmap strings.
From S2P Require Import Prelude Proto Floats CommandMachine CommandsHelper Flags History Replay Update Errors FailureConverter Retry Environment EventHandlers TaskContext.
Open Scope Z_scope.

(** ** Data *)

Inductive QueryResultType : Type :=
| QUERY_RESULT_TYPE_ANSWERED
| QUERY_RESULT_TYPE_FAILED.

Record RespondQueryTaskCompletedRequest : Type := mkQueryCompleted {
  query_TaskToken : string;
  query_Namespace : string;
  query_PollerGroupId : string;
  CompletedType : QueryResultType;
  ErrorMessage : string;
  query_Failure : option Failure;
  QueryResult : option Payloads;
}.

(** [WorkflowQueryResult] *)
Inductive workflowQueryResult : Type :=
| queryFailed (message : string)
| queryAnswered (answer : option Payloads).

Inductive WorkerVersioningMode : Type :=
| WORKER_VERSIONING_MODE_UNVERSIONED
| WORKER_VERSIONING_MODE_VERSIONED.

Record WorkerDeploymentOptions : Type := mkDeploymentOptions {
  options_DeploymentName : string;
  options_BuildId : string;
  options_WorkerVersioningMode : WorkerVersioningMode;
}.

(** [VERSIONING_BEHAVIOR_...] of the service. *)
Inductive PBVersioningBehavior : Type :=
| VERSIONING_BEHAVIOR_UNSPECIFIED
| VERSIONING_BEHAVIOR_PINNED
| VERSIONING_BEHAVIOR_AUTO_UPGRADE.

Record RespondWorkflowTaskCompletedRequest : Type := mkTaskCompleted {
  completed_TaskToken : string;
  Commands : list Command;
  completed_Messages : list outMessage;
  completed_Identity : string;
  ForceCreateNewWorkflowTask : bool;
  completed_BinaryChecksum : string;
  QueryResults : gmap string workflowQueryResult;
  completed_Namespace : string;
  ResourceId : string;
  NonfirstLocalActivityExecutionAttempts : Z;
  LangUsedFlags : list sdkFlag;
  completed_SdkName : string;
  completed_SdkVersion : string;
  (** [WorkerVersionStamp] *)
  stamp_BuildId : string;
  stamp_UseVersioning : bool;
  (** [Deployment] *)
  deployment_BuildId : string;
  deployment_SeriesName : string;
  DeploymentOptions : option WorkerDeploymentOptions;
  completed_WorkerControlTaskQueue : string;
  completed_VersioningBehavior : PBVersioningBehavior;
}.

(** [workflowTaskCompletion], without its metrics. *)
Inductive workflowTaskCompletion : Type :=
| queryTaskCompletion (r : RespondQueryTaskCompletedRequest)
| taskCompletion (r : RespondWorkflowTaskCompletedRequest).

(** ** Conversions *)

Definition versioningBehaviorToProto (t : VersioningBehavior) : outcome PBVersioningBehavior :=
  match t with
  | VersioningBehaviorUnspecified => Returned VERSIONING_BEHAVIOR_UNSPECIFIED
  | VersioningBehaviorPinned => Returned VERSIONING_BEHAVIOR_PINNED
  | VersioningBehaviorAutoUpgrade => Returned VERSIONING_BEHAVIOR_AUTO_UPGRADE
  | unknownVersioningBehavior _ => Panicked (panicString "unknown versioning behavior type")
  end.

(** The values of the two enumerations are the same. *)
Definition continueAsNewVersioningBehaviorToProto (t : Z) : outcome Z :=
  if decide (t = 0 ∨ t = 1 ∨ t = 2) then Returned t
  else Panicked (panicString "unknown continue-as-new versioning behavior type").

Definition noDeploymentVersion : WorkerDeploymentVersion := mkWorkerDeploymentVersion "" "".

Definition workerDeploymentOptionsToProto (useVersioning : bool) (version : WorkerDeploymentVersion)
    : option WorkerDeploymentOptions :=
  if decide (version = noDeploymentVersion) then None
  else Some (mkDeploymentOptions (DeploymentName version) (Version_BuildID version)
               (if useVersioning then WORKER_VERSIONING_MODE_VERSIONED
                else WORKER_VERSIONING_MODE_UNVERSIONED)).

Definition getWorkflowResourceId (workflowId : string) : string :=
  if decide (workflowId = "") then "" else ("workflow:" +:+ workflowId)%string.

Definition isPanicError (err : goError) : bool :=
  match err with PanicError _ _ _ => true | _ => false end.
Definition isContinueAsNewError (err : goError) : bool :=
  match err with ContinueAsNewError _ => true | _ => false end.

(** [errors.As] on an error that may be nil. *)
Definition errorAs (p : goError → bool) (err : option goError) : option goError :=
  err ≫= errorsAs p.

Definition lat_scheduled (now : Z) (t : localActivityTask) : localActivityTask :=
  mkLocalActivityTask (lat_activityID t) (lat_params t) (lat_callback t) (lat_canceled t)
    (lat_attempt t) (lat_attemptsThisWFT t) (lat_pastFirstWFT t) (lat_expireTime t) now.

Section Completion.
  Context `{WorkflowExecutionEventHandler}.
  Variable wth : workflowTaskHandlerImpl.
  Variable now : Z.
  (** The worker's data converter, and its failure converter bound to the
      workflow. *)
  Variable dataConverter : DataConverter.
  Variable ErrorToFailure : option goError → option Failure.
  (** [Error()], and [int64(x)] of a float out of range. *)
  Variable errorText : goError → string.
  Variable implementation : float64 → Z.

(** ** The command that closes the workflow *)

Definition continueAsNewCommand (w : workflowExecutionContextImpl) (c : continueAsNew)
    : outcome Command :=
  let info := currentInfo w in
  let retryPolicy :=
    match can_RetryPolicy c with
    | None => info_RetryPolicy (w_execution w)
    | Some p => Some p
    end in
  let useCompat := determineInheritBuildIdFlagForCommand (can_VersioningIntent c)
                     (TaskQueueName info) (can_TaskQueueName c) in
  behavior ← continueAsNewVersioningBehaviorToProto (can_InitialVersioningBehavior c);
  mret (mkCommand COMMAND_TYPE_CONTINUE_AS_NEW_WORKFLOW_EXECUTION
    (Some (Command_ContinueAsNewWorkflowExecutionCommandAttributes (mkContinueAsNewAttributes
       (can_WorkflowType c) (can_Input c) (can_TaskQueueName c) (can_WorkflowRunTimeout c)
       (can_WorkflowTaskTimeout c)
       (if decide (can_BackoffStartInterval c = 0) then None else Some (can_BackoffStartInterval c))
       (can_Header c) (Memo info) (sanitizeSearchAttributesForStart (SearchAttributes info))
       (ConvertToPBRetryPolicy retryPolicy) useCompat behavior)))
    None (can_eventGroupMarkers c)).

Definition closeCommand (w : workflowExecutionContextImpl) : outcome (option Command) :=
  match errorAs isCanceledError (w_err w) with
  | Some (CanceledError _ _ _ details) =>
      payloads ← convertErrDetailsToPayloads
                   (mkDefaultFailureConverter dataConverter false) details;
      mret (Some (mkCommand COMMAND_TYPE_CANCEL_WORKFLOW_EXECUTION
        (Some (Command_CancelWorkflowExecutionCommandAttributes payloads)) None []))
  | _ =>
      match errorAs isContinueAsNewError (w_err w) with
      | Some (ContinueAsNewError c) => d ← continueAsNewCommand w c; mret (Some d)
      | _ =>
          match w_err w with
          | Some err =>
              mret (Some (mkCommand COMMAND_TYPE_FAIL_WORKFLOW_EXECUTION
                (Some (Command_FailWorkflowExecutionCommandAttributes (ErrorToFailure (Some err))))
                None []))
          | None =>
              if isWorkflowCompleted w then
                mret (Some (mkCommand COMMAND_TYPE_COMPLETE_WORKFLOW_EXECUTION
                  (Some (Command_CompleteWorkflowExecutionCommandAttributes (w_result w))) None []))
              else mret None
          end
      end
  end.

(** ** The request *)

Definition ProcessQuery (q : WorkflowQuery) : Ctx (goError + option Payloads) :=
  callHandler (handler_ProcessQuery (QueryType q) (QueryArgs q) (Query_Header q)).

(** The answer to a query task. *)
Definition answerQueryTask (task : pollTask) (q : WorkflowQuery) : Ctx workflowTaskCompletion :=
  w ← get;
  let request completedType message failure result :=
    queryTaskCompletion (mkQueryCompleted (TaskToken task) (wth_namespace wth) (PollerGroupId task)
      completedType message failure result) in
  match errorAs isPanicError (w_err w) with
  | Some panicErr =>
      mret (request QUERY_RESULT_TYPE_FAILED ("Workflow panic: " +:+ errorText panicErr)%string None None)
  | None =>
      answer ← ProcessQuery q;
      match answer with
      | inl err =>
          mret (request QUERY_RESULT_TYPE_FAILED (errorText err) (ErrorToFailure (Some err)) None)
      | inr result => mret (request QUERY_RESULT_TYPE_ANSWERED "" None result)
      end
  end.

(** The queries that came with a workflow task, in the order of [range]. *)
Fixpoint answerQueries (queries : list (string * WorkflowQuery))
    : Ctx (gmap string workflowQueryResult) :=
  match queries with
  | [] => mret ∅
  | (queryID, q) :: queries' =>
      answer ← ProcessQuery q;
      results ← answerQueries queries';
      mret (<[queryID := match answer with
                         | inl err => queryFailed (errorText err)
                         | inr result => queryAnswered result
                         end]> results)
  end.

Definition versioningBehaviorOf (w : workflowExecutionContextImpl) : outcome PBVersioningBehavior :=
  if useBuildIDForVersioning wth || bool_decide (workerDeploymentVersion wth ≠ noDeploymentVersion) then
    match registry wth (info_WorkflowType (w_execution w)) with
    | Some behavior => versioningBehaviorToProto behavior
    | None => versioningBehaviorToProto (defaultVersioningBehavior wth)
    end
  else Returned VERSIONING_BEHAVIOR_UNSPECIFIED.

(** [completeWorkflow] of the task handler.  The result fields that are not
    listed have constant values. *)
Definition completeWorkflow (task : pollTask) (commands : list Command) (messages : list outMessage)
    (forceNewWorkflowTask : bool) : Ctx workflowTaskCompletion :=
  match task_Query task with
  | Some q => answerQueryTask task q
  | None =>
      w ← get;
      close ← lift (closeCommand w);
      let commands' := match close with Some d => commands ++ [d] | None => commands end in
      let force := match close with Some _ => false | None => forceNewWorkflowTask end in
      queryResults ← answerQueries (map_to_list (Queries task));
      nonfirst ← callHandler (onEnv (e ← get; mret (GatherLAAttemptsThisWFT e)));
      langUsedFlags ← callHandler (onEnv (e ← get; mret (gatherNewSDKFlags (Environment.flags e))));
      name ← callHandler (λ eh, let '(n, eh') := getNewSdkNameAndReset eh in (Returned n, eh'));
      version ← callHandler (λ eh, let '(v, eh') := getNewSdkVersionAndReset eh in (Returned v, eh'));
      behavior ← lift (versioningBehaviorOf w);
      let seriesName :=
        if decide (workerDeploymentVersion wth = noDeploymentVersion) then ""
        else DeploymentName (workerDeploymentVersion wth) in
      let checksum :=
        match capabilities wth with
        | Some c => if BuildIdBasedVersioning c then "" else workerBuildID wth
        | None => workerBuildID wth
        end in
      mret (taskCompletion (mkTaskCompleted (TaskToken task) commands' messages (identity wth) force
        checksum queryResults (wth_namespace wth)
        (getWorkflowResourceId (we_WorkflowId (task_WorkflowExecution task))) nonfirst langUsedFlags
        name version (workerBuildID wth) (useBuildIDForVersioning wth) (workerBuildID wth) seriesName
        (workerDeploymentOptionsToProto (useBuildIDForVersioning wth) (workerDeploymentVersion wth))
        (workerControlTaskQueue wth) behavior))
  end.

(** ** Completing the current task *)

(** [sendTask] on the tunnel of the context. *)
Definition sendTask (t : localActivityTask) : Ctx bool := λ w,
  match laTunnel w with
  | None => (Panicked History.nilDereference, w)
  | Some te =>
      if tunnel_stopped te then (Returned false, w)
      else (Returned true,
            set_laTunnel (Some (mkTunnelEnd (tunnel_stopped te) (tunnel_sent te ++ [t]))) w)
  end.

(** The loop over the local activities not started yet, with those that could
    not be sent. *)
Fixpoint startLaTasks (activityIDs : list string) : Ctx (gset string) :=
  match activityIDs with
  | [] => mret ∅
  | activityID :: rest =>
      t ← callHandler (onEnv (
            e ← get;
            match pendingLaTasks e !! activityID with
            | None => panic History.nilDereference
            | Some t =>
                let t' := lat_scheduled now t in
                _ ← modify (set_pendingLaTasks (<[activityID := t']> (pendingLaTasks e)));
                mret t'
            end));
      sent ← sendTask t;
      unstarted ← startLaTasks rest;
      mret (if sent : bool then unstarted else {[activityID]} ∪ unstarted)
  end.

Definition startLocalActivities : Ctx unit :=
  e ← callHandler (onEnv get);
  if decide (unstartedLaTasks e = ∅) then mret tt
  else
    unstarted ← startLaTasks (elements (unstartedLaTasks e));
    callHandler (onEnv (modify (set_unstartedLaTasks unstarted))).

Definition CompleteWorkflowTask (waitLocalActivities : bool) : Ctx (option workflowTaskCompletion) :=
  w ← get;
  match currentWorkflowTask w with
  | None => mret None
  | Some task =>
      let waiting := hasPendingLocalActivityWork w && bool_decide (is_Some (laTunnel w)) in
      _ ← (if waiting then startLocalActivities else mret tt);
      if waiting && waitLocalActivities then mret None
      else
        eventCommands ← callHandler (onEnv (onHelper (getCommands true)));
        _ ← modify (λ w, set_newCommands (newCommands w ++ eventCommands) w);
        messages ← callHandler (onUpdates (λ u, let '(ms, u') := takeOutgoingMessages u in (Returned ms, u')));
        _ ← modify (λ w, set_newMessages (newMessages w ++ messages) w);
        _ ← callHandler (onUpdates (modify ClearCompleted));
        w ← get;
        completeRequest ← completeWorkflow task (newCommands w) (newMessages w) (negb waitLocalActivities);
        _ ← modify clearCurrentTask;
        mret (Some completeRequest)
  end.

(** ** The panic policy *)

Definition failOnPanic (workflowError : goError) : goError :=
  NewApplicationError "Workflow failed on panic due to FailWorkflow workflow panic policy" "" false
    (Some workflowError) [].

Definition applyWorkflowPanicPolicy (workflowError : option goError)
    : Ctx (goError + option workflowTaskCompletion) :=
  w ← get;
  let workflowError' :=
    match workflowError, w_err w with
    | None, Some err => if isWorkflowPanicError err then Some err else None
    | _, _ => workflowError
    end in
  match workflowError' with
  | None => r ← CompleteWorkflowTask true; mret (inr r)
  | Some err =>
      match workflowPanicPolicy wth with
      | FailWorkflow =>
          _ ← callHandler (onEnv (Environment.Complete None (Some (failOnPanic err))));
          r ← CompleteWorkflowTask true; mret (inr r)
      | BlockWorkflow => mret (inl err)
      | unknownPanicPolicy _ => panic (panicString "unknown mismatched workflow history policy.")
      end
  end.

(** ** Local activity results *)

Definition getRetryBackoff (lar : localActivityResult) (p : RetryPolicy) : Z :=
  getRetryBackoffWithNowTime implementation p (lat_attempt (lres_task lar)) (lres_err lar) now
    (if decide (lat_expireTime (lres_task lar) = zeroTime) then None
     else Some (lat_expireTime (lres_task lar))).

(** Whether the activity is retried locally, and the result with the backoff
    to record otherwise. *)
Definition retryLocalActivity (w : workflowExecutionContextImpl) (lar : localActivityResult)
    : bool * localActivityResult :=
  match elap_RetryPolicy (lat_params (lres_task lar)), lres_err lar with
  | Some p, Some err =>
      if IsCanceledError err then (false, lar)
      else
        let retryBackoff := getRetryBackoff lar p in
        if bool_decide (0 < retryBackoff)
           && bool_decide (retryBackoff ≤ WorkflowTaskTimeout (w_execution w)) then (true, lar)
        else (false, mkLocalActivityResult (lres_task lar) (lres_result lar) (lres_err lar) retryBackoff)
  | _, _ => (false, lar)
  end.

Definition ProcessLocalActivityResult (lar : localActivityResult)
    : Ctx (goError + option workflowTaskCompletion) :=
  w ← get;
  let '(retrying, lar') :=
    match lres_err lar with Some _ => retryLocalActivity w lar | None => (false, lar) end in
  if retrying : bool then mret (inr None)
  else
    err ← callHandler (handler_ProcessLocalActivityResult lar');
    applyWorkflowPanicPolicy err.
End Completion.
