(* ===== verification/TaskProcessing.v ===== *)
(** * Processing a workflow task
      ([src/internal/internal_task_handlers.go],
      [workflowExecutionContextImpl.ProcessWorkflowTask] and
      [workflowTaskHandlerImpl.ProcessWorkflowTask];
      [src/internal/internal_message.go]).

    The loop [ProcessEvents] takes the workflow tasks of a history one by one
    ([History.v]), feeds their markers, messages and events to the event
    handler, collects the commands of the replayed ones and compares them with
    the history ([Replay.v]); then the task is completed
    ([TaskCompletion.v]). *)

From stdpp Require Import base list gmap strings.
From S2P Require Import Prelude Proto Floats CommandMachine CommandsHelper Flags History Replay Update Errors Environment EventHandlers TaskContext TaskCompletion.
Open Scope Z_scope.

(** ** Messages by event *)

(** [eventMsgIndex]; [indexMessagesByEventID] is the identity. *)
Definition takeLTE (eventID : Z) (emi : list Message) : list Message * list Message :=
  (filter (λ m, Msg_EventId m ≤ eventID) emi, filter (λ m, ¬ (Msg_EventId m ≤ eventID)) emi).

(** The admitted updates replace the accepted ones of the same id; each
    message then has a body. *)
Fixpoint replaceAdmitted (admittedUpdatesByID : gmap string Message) (historyMessages : list Message)
    : goError + list Message :=
  match historyMessages with
  | [] => inr []
  | msg :: rest =>
      let msg' := default msg (admittedUpdatesByID !! Msg_ProtocolInstanceId msg) in
      match Msg_Body msg' with
      | None =>
          inl (newError ("missing body in message for update ID " +:+ Msg_ProtocolInstanceId msg)%string)
      | Some _ =>
          match replaceAdmitted admittedUpdatesByID rest with
          | inl err => inl err
          | inr rest' => inr (msg' :: rest')
          end
      end
  end.

Definition indexByID (admittedUpdates : list Message) : gmap string Message :=
  foldl (λ m u, <[Msg_ProtocolInstanceId u := u]> m) ∅ admittedUpdates.

(** ** The state of the loop *)

(** The context, the history and the local variables of
    [ProcessWorkflowTask]; [msgs] is the index of the iteration, and
    [curReplayCmdsIndex] is [None] for -1. *)
Record processing : Type := mkProcessing {
  p_context : workflowExecutionContextImpl;
  p_history : history;
  taskMessages : list Message;
  msgs : list Message;
  respondEvents : list HistoryEvent;
  replayCommands : list Command;
  replayOutbox : list outboxEntry;
  partialHistory : bool;
  curReplayCmdsIndex : option nat;
}.

Abbreviation P := (Go processing).

Definition set_p_context (v : workflowExecutionContextImpl) (s : processing) : processing :=
  mkProcessing v (p_history s) (taskMessages s) (msgs s) (respondEvents s) (replayCommands s)
    (replayOutbox s) (partialHistory s) (curReplayCmdsIndex s).
Definition set_p_history (v : history) (s : processing) : processing :=
  mkProcessing (p_context s) v (taskMessages s) (msgs s) (respondEvents s) (replayCommands s)
    (replayOutbox s) (partialHistory s) (curReplayCmdsIndex s).
Definition set_taskMessages (v : list Message) (s : processing) : processing :=
  mkProcessing (p_context s) (p_history s) v (msgs s) (respondEvents s) (replayCommands s)
    (replayOutbox s) (partialHistory s) (curReplayCmdsIndex s).
Definition set_msgs (v : list Message) (s : processing) : processing :=
  mkProcessing (p_context s) (p_history s) (taskMessages s) v (respondEvents s) (replayCommands
    s) (replayOutbox s) (partialHistory s) (curReplayCmdsIndex s).
Definition set_respondEvents (v : list HistoryEvent) (s : processing) : processing :=
  mkProcessing (p_context s) (p_history s) (taskMessages s) (msgs s) v (replayCommands s)
    (replayOutbox s) (partialHistory s) (curReplayCmdsIndex s).
Definition set_replayCommands (v : list Command) (s : processing) : processing :=
  mkProcessing (p_context s) (p_history s) (taskMessages s) (msgs s) (respondEvents s) v
    (replayOutbox s) (partialHistory s) (curReplayCmdsIndex s).
Definition set_replayOutbox (v : list outboxEntry) (s : processing) : processing :=
  mkProcessing (p_context s) (p_history s) (taskMessages s) (msgs s) (respondEvents s)
    (replayCommands s) v (partialHistory s) (curReplayCmdsIndex s).
Definition set_partialHistory (v : bool) (s : processing) : processing :=
  mkProcessing (p_context s) (p_history s) (taskMessages s) (msgs s) (respondEvents s)
    (replayCommands s) (replayOutbox s) v (curReplayCmdsIndex s).
Definition set_curReplayCmdsIndex (v : option nat) (s : processing) : processing :=
  mkProcessing (p_context s) (p_history s) (taskMessages s) (msgs s) (respondEvents s)
    (replayCommands s) (replayOutbox s) (partialHistory s) v.

Definition inTask {A} (m : Ctx A) : P A := λ s,
  let '(r, w) := m (p_context s) in (r, set_p_context w s).

Definition inHistory {A} (m : Go history A) : P A := λ s,
  let '(r, h) := m (p_history s) in (r, set_p_history h s).

(** Whether a loop goes on, or [break ProcessEvents] left it. *)
Inductive flow : Type :=
| Continue
| Break.

(** An error of type [error]. *)
Definition orError (err : option goError) (f : flow) : goError + flow :=
  match err with Some e => inl e | None => inr f end.

(** [m], and unless it left the loop, [k]. *)
Definition andThen (m k : P (goError + flow)) : P (goError + flow) :=
  f ←? m;
  match f with Continue => k | Break => mret (inr Break) end.

Fixpoint forEach {A} (f : A → P (goError + flow)) (l : list A) : P (goError + flow) :=
  match l with
  | [] => mret (inr Continue)
  | x :: l' => andThen (f x) (forEach f l')
  end.

(** [i] counts from the first element. *)
Definition forEachIndexed {A} (f : nat → A → P (goError + flow)) (l : list A) : P (goError + flow) :=
  forEach (λ ix, f ix.1 ix.2) (zip (seq 0 (length l)) l).

Definition SDKName : string := "temporal-go".
Definition SDKVersion : string := "1.50.0".

Section Processing.
  Context `{WorkflowExecutionEventHandler}.
  Variable wth : workflowTaskHandlerImpl.
  Variable now : Z.
  Variable dataConverter : DataConverter.
  Variable ErrorToFailure : option goError → option Failure.
  Variable errorText : goError → string.
  Variable implementation : float64 → Z.
  Variable decodeJSON : string → string + list HistoryEvent.
  Variable unmarshal : string → string + list HistoryEvent.
  Variable visitPayloads : list HistoryEvent → string + list HistoryEvent.
  Variable allowed : gmap sdkFlag bool.
  (** [ppMgr.Execute] at an event, when there is a manager of pressure points
      (the stress tests of the SDK). *)
  Variable ppMgr : option (string → HistoryEvent → option goError).
  (** [util.HistoryEventToString] and [util.CommandToString]. *)
  Variable HistoryEventToString : HistoryEvent → string.
  Variable CommandToString : Command → string.

Definition executeAnyPressurePoints (event : HistoryEvent) (isInReplay : bool) : option goError :=
  match ppMgr with
  | None => None
  | Some Execute =>
      if isInReplay then None
      else
        match Event_EventType event with
        | EVENT_TYPE_WORKFLOW_TASK_STARTED => Execute "workflow-task-start-timeout" event
        | EVENT_TYPE_ACTIVITY_TASK_SCHEDULED => Execute "activity-task-schedule-timeout" event
        | EVENT_TYPE_ACTIVITY_TASK_STARTED => Execute "activity-task-start-timeout" event
        | EVENT_TYPE_WORKFLOW_TASK_COMPLETED => Execute "workflow-task-complete" event
        | _ => None
        end
  end.

Definition isInReplayer : bool := IsReplayNamespace (wth_namespace wth).

Definition shouldForceReplayCheck (w : workflowExecutionContextImpl) : bool :=
  negb (match w_err w with Some err => isWorkflowPanicError err | None => false end) && isInReplayer.

(** [if w.isWorkflowCompleted && !shouldForceReplayCheck() { break ProcessEvents }] *)
Definition leaves (w : workflowExecutionContextImpl) : flow :=
  if isWorkflowCompleted w && negb (shouldForceReplayCheck w) then Break else Continue.

Definition skipReplayCheck (task : pollTask) : outcome bool :=
  match task_Query task with
  | Some _ => Returned true
  | None => full ← isFullHistory (task_History task); mret (negb full)
  end.

(** ** One event *)

Definition callEvent (isInReplay isLast : bool) (event : HistoryEvent) : P (goError + flow) :=
  err ← inTask (callHandler (handler_ProcessEvent event isInReplay isLast));
  s ← get;
  mret (orError err (leaves (p_context s))).

Definition callMessage (isInReplay isLast : bool) (msg : Message) : P (goError + flow) :=
  err ← inTask (callHandler (handler_ProcessMessage msg isInReplay isLast));
  s ← get;
  mret (orError err (leaves (p_context s))).

(** The messages up to [eventID]. *)
Definition callMessages (isInReplay isLast : bool) (eventID : Z) : P (goError + flow) :=
  s ← get;
  let '(taken, rest) := takeLTE eventID (msgs s) in
  _ ← modify (set_msgs rest);
  forEach (callMessage isInReplay isLast) taken.

Definition processEvent (skip : bool) (count i : nat) (event : HistoryEvent) : P (goError + flow) :=
  s ← get;
  let isInReplay := IsReplayEvent (p_history s) event in
  let isLast := negb isInReplay && bool_decide (S i = count) in
  _ ← (if negb skip && isCommandEvent (Event_EventType event)
       then modify (λ s, set_respondEvents (respondEvents s ++ [event]) s) else mret tt);
  if isPreloadMarkerEvent event then mret (inr Continue)
  else
    match executeAnyPressurePoints event isInReplay with
    | Some err => mret (inl err)
    | None =>
        andThen (callMessages isInReplay isLast (wrap64 (Event_EventId event - 1)))
          (andThen (callEvent isInReplay isLast event)
             (callMessages isInReplay isLast (Event_EventId event)))
    end.

(** ** One task of the history *)

Definition isLocalActivityMarker (m : HistoryEvent) : bool :=
  bool_decide (eventMarkerName m = localActivityMarkerName).

Definition processMarkers (local : bool) (markers : list HistoryEvent) : P (goError + flow) :=
  forEach (callEvent true false) (filter (λ m, isLocalActivityMarker m = local) markers).

(** The messages of the task: those of the history when it is replayed, those
    of the poll response otherwise. *)
Definition prepareMessages (replayed : bool) (task : preparedTask) : P (goError + unit) :=
  if replayed then
    match replaceAdmitted (indexByID (admittedMsgs task)) (acceptedMsgs task) with
    | inl err => mret (inl err)
    | inr historyMessages =>
        _ ← modify (set_msgs historyMessages);
        _ ← inTask (callHandler (modify (λ eh,
              set_eh_sdkName (task_sdkName task) (set_eh_sdkVersion (task_sdkVersion task) eh))));
        mret (inr tt)
    end
  else
    _ ← modify (λ s, set_taskMessages [] (set_msgs (taskMessages s ++ admittedMsgs task) s));
    _ ← inTask (callHandler (modify (λ eh,
          if decide (eh_sdkVersion eh = SDKVersion) then eh
          else set_eh_sdkVersion SDKVersion (set_eh_sdkVersionUpdated true eh))));
    _ ← inTask (callHandler (modify (λ eh,
          if decide (eh_sdkName eh = SDKName) then eh
          else set_eh_sdkName SDKName (set_eh_sdkNameUpdated true eh))));
    mret (inr tt).

Definition setTaskInfo (replayed : bool) (task : preparedTask) (w : workflowExecutionContextImpl)
    : workflowExecutionContextImpl :=
  let w' := set_w_BinaryChecksum
    (if decide (task_binaryChecksum task = "") then workerBuildID wth else task_binaryChecksum task) w in
  match buildID task with
  | Some id => if replayed then set_w_currentTaskBuildID id w' else w'
  | None => w'
  end.

(** The commands of a replayed task, kept for the comparison. *)
Definition collectReplayed (skip : bool) : P unit :=
  eventCommands ← inTask (callHandler (onEnv (onHelper (getCommands true))));
  sent ← inTask (callHandler (eh ← get; mret (eh_outbox eh)));
  _ ← (if skip then mret tt
       else modify (λ s, set_replayOutbox (replayOutbox s ++ (toOutboxEntry <$> sent))
              (set_replayCommands (replayCommands s ++ eventCommands) s)));
  inTask (callHandler (modify (set_eh_outbox []))).

(** The events of the task, with its markers. *)
Definition processTask (skip replayed : bool) (task : preparedTask) : P (goError + flow) :=
  _ ← modify (λ s, set_curReplayCmdsIndex (Some (length (replayCommands s))) s);
  _ ← inTask (modify (setTaskInfo replayed task));
  _ ← inTask (callHandler (onEnv (modify (set_mutableSideEffectsRecorded ∅))));
  andThen (processMarkers false (markers task))
    (andThen (forEachIndexed (processEvent skip (length (events task))) (events task))
      (andThen (processMarkers true (markers task))
        (_ ← (if replayed then collectReplayed skip else mret tt); mret (inr Continue)))).

(** The last started task of a partial history, in the replayer. *)
Definition isLastOfPartial (h : history) (reorderedEvents : list HistoryEvent) : bool :=
  match last reorderedEvents with
  | Some e =>
      bool_decide (Event_EventType e = EVENT_TYPE_WORKFLOW_TASK_STARTED)
      && bool_decide (next h = []) && isInReplayer
  | None => false
  end.

(** The body of [ProcessEvents] once the next task is known. *)
Definition processNext (skip : bool) (task : preparedTask) : P (goError + flow) :=
  s ← get;
  if isLastOfPartial (p_history s) (events task) then
    _ ← modify (set_partialHistory true); mret (inr Break)
  else
    let replayed :=
      match last (events task) with
      | Some e => IsReplayEvent (p_history s) e
      | None => false
      end in
    _ ←? prepareMessages replayed task;
    _ ← inTask (callHandler (onEnv (modify (λ e,
          set_flags (setFlags (History.flags task) (Environment.flags e)) e))));
    if decide (events task = []) then mret (inr Break) else processTask skip replayed task.

Definition historyGoError (err : historyError) : goError :=
  match err with
  | plainError text => newError text
  | unknownSdkFlagError message => otherError "unknownSdkFlagError" message None
  end.

(** An iteration of [ProcessEvents]. *)
Definition iteration (skip : bool) : P (goError + flow) :=
  r ← inHistory (nextTask decodeJSON unmarshal visitPayloads allowed);
  match r with
  | inl err => mret (inl (historyGoError err))
  | inr task => processNext skip task
  end.

Fixpoint processEvents (fuel : nat) (skip : bool) : P (goError + unit) :=
  match fuel with
  | O => panic (runtimeError "out of fuel")
  | S fuel' =>
      f ←? iteration skip;
      match f with
      | Break => mret (inr tt)
      | Continue => processEvents fuel' skip
      end
  end.

(** ** The whole task *)

Definition mismatchText (m : historyMismatchError) : string :=
  match m with
  | missingReplayCommand e =>
      "[TMPRL1100] nondeterministic workflow: missing replay command for " +:+ HistoryEventToString e
  | extraReplayCommand d =>
      "[TMPRL1100] nondeterministic workflow: extra replay command for " +:+ CommandToString d
  | mismatch e d =>
      "[TMPRL1100] nondeterministic workflow: history event is " +:+ HistoryEventToString e
      +:+ ", replay command is " +:+ CommandToString d
  end.

Definition mismatchError (m : historyMismatchError) : goError :=
  otherError "historyMismatchError" (mismatchText m) None.

(** [replayCommands[:curReplayCmdsIndex]] for a partial history. *)
Definition dropPartial (s : processing) : processing :=
  if partialHistory s then
    match curReplayCmdsIndex s with
    | Some n => set_replayCommands (take n (replayCommands s)) s
    | None => s
    end
  else s.

(** The comparison with the history, and what follows from it. *)
Definition checkReplay (skip : bool) : P (option goError) :=
  s ← get;
  let w := p_context s in
  if negb skip && (negb (isWorkflowCompleted w) || shouldForceReplayCheck w) then
    sf ← inTask (callHandler (onEnv (e ← get; mret (Environment.flags e))));
    r ← lift (matchReplayWithHistory allowed (replayCommands s) (respondEvents s) (replayOutbox s) sf);
    match r with
    | None => mret None
    | Some m =>
        _ ← inTask (modify (set_w_err (Some (mismatchError m))));
        mret (Some (mismatchError m))
    end
  else mret None.

Definition processing_measure (h : history) : nat :=
  (2 + length (next h) + events_left decodeJSON unmarshal visitPayloads h)%nat.

(** The end of the task. *)
Definition checkAndComplete (skip : bool) : P (goError + option workflowTaskCompletion) :=
  workflowError ← checkReplay skip;
  inTask (applyWorkflowPanicPolicy wth now dataConverter ErrorToFailure errorText workflowError).

(** From the loop on. *)
Definition processAll (skip : bool) : P (goError + option workflowTaskCompletion) :=
  s ← get;
  _ ←? processEvents (processing_measure (p_history s)) skip;
  _ ← modify dropPartial;
  checkAndComplete skip.

(** [defer func() { w.lastHandledEventID = reorderedHistory.lastHandledEventID }()] *)
Definition rememberHandled (s : processing) : workflowExecutionContextImpl :=
  set_w_lastHandledEventID (lastHandledEventID (p_history s)) (p_context s).

(** From [newHistory] on, with the deferred assignment. *)
Definition runHistory (task : pollTask) (skip : bool)
    : Go taskRun (goError + option workflowTaskCompletion) := λ s,
  let h := newHistory (w_lastHandledEventID (run_context s)) (default [] (task_History task))
             (StartedEventId task) (task_PreviousStartedEventId task) (run_iterator s) in
  let '(r, s') :=
    (_ ← inTask (callHandler (onEnv ResetLAWFTAttemptCounts));
     _ ← inTask (callHandler (onEnv (modify (λ e,
           set_flags (markSDKFlagsSent (Environment.flags e)) e))));
     _ ← inTask (modify (set_w_currentTaskBuildID (workerBuildID wth)));
     processAll skip)
      (mkProcessing (run_context s) h (Messages task) [] [] [] [] false None) in
  (r, mkTaskRun (rememberHandled s') task (iterator (p_history s'))).

Definition ProcessWorkflowTask : Go taskRun (goError + option workflowTaskCompletion) :=
  _ ←? ResetIfStale wth now decodeJSON unmarshal visitPayloads;
  s ← get;
  let task := run_task s in
  _ ← inContext (modify (SetCurrentTask task));
  skip ← lift (skipReplayCheck task);
  runHistory task skip.

(** ** The task handler *)

(** What ends a wait for local activities: the workflow task has to be
    heartbeat, an activity is due for a retry, or its result came. *)
Inductive waitOutcome : Type :=
| heartbeatDue
| laRetryReady (activityID : string)
| laResultReady (lar : localActivityResult).

(** The results of the handler, or that it still waits. *)
Inductive handled : Type :=
| finished (response : option workflowTaskCompletion) (err : option goError)
| stillWaiting.

(** A pointer to the error. *)
Definition heartbeatError (err : goError) : goError :=
  otherError "*workflowTaskHeartbeatError" ("error sending workflow task heartbeat " +:+ errorText err)%string
    None.

(** [laRetry.attempt++], undone when the task could not be sent. *)
Definition lat_retry (t : localActivityTask) : localActivityTask :=
  mkLocalActivityTask (lat_activityID t) (lat_params t) (lat_callback t) (lat_canceled t)
    (wrap32 (lat_attempt t + 1)) (lat_attemptsThisWFT t) (lat_pastFirstWFT t) (lat_expireTime t)
    (lat_scheduledTime t).

(** Whether the handler goes on waiting. *)
Definition retryLaTask (activityID : string) : Ctx bool :=
  w ← get;
  match w_eventHandler w with
  | None => mret false
  | Some eh =>
      match pendingLaTasks (eh_env eh) !! activityID with
      | None => mret false
      | Some t =>
          sent ← sendTask (lat_retry t);
          _ ← (if sent : bool then
                 callHandler (onEnv (modify (λ e,
                   set_pendingLaTasks (<[activityID := lat_retry t]> (pendingLaTasks e)) e)))
               else mret tt);
          mret true
      end
  end.

(** [stopCh] of the tunnel of the context. *)
Definition tunnelStopped : Ctx bool :=
  w ← get;
  match laTunnel w with
  | None => panic History.nilDereference
  | Some te => mret (tunnel_stopped te)
  end.

(** [task.History], which is never nil for the handler. *)
Definition ensureHistory : Go taskRun pollTask :=
  s ← get;
  let task := set_History (Some (default [] (task_History (run_task s)))) (run_task s) in
  _ ← modify (λ s, mkTaskRun (run_context s) task (run_iterator s));
  mret task.

(** The handler runs where its caller keeps the context, and calls
    [heartbeatFunc], which is the caller's. *)
Section Handler.
  Context {W : Type}.
  Variable inRun : ∀ A, Go taskRun A → Go W A.
  Variable heartbeatFunc : option workflowTaskCompletion →
    Go W (goError + option (pollTask * option historyIterator)).
  #[local] Arguments inRun {A}.

(** The answer of [ProcessWorkflowTask] or [ProcessLocalActivityResult]: when
    there is neither an error nor a response, local activities are pending. *)
Definition orWait (r : goError + option workflowTaskCompletion) (wait : Go W handled) : Go W handled :=
  match r with
  | inl err => mret (finished None (Some err))
  | inr (Some response) => mret (finished (Some response) None)
  | inr None => wait
  end.

Fixpoint waitLoop (outcomes : list waitOutcome) : Go W handled :=
  match outcomes with
  | [] => mret stillWaiting
  | heartbeatDue :: rest =>
      stopped ← inRun (inContext tunnelStopped);
      if stopped : bool then mret (finished None None)
      else
        completion ← inRun (inContext (CompleteWorkflowTask wth now dataConverter ErrorToFailure
                                         errorText false));
        reply ← heartbeatFunc completion;
        match reply with
        | inl err => mret (finished None (Some (heartbeatError err)))
        | inr None => mret (finished None None)
        | inr (Some (task, it)) =>
            _ ← inRun (modify (λ s, mkTaskRun (run_context s) task it));
            r ← inRun ProcessWorkflowTask;
            orWait r (waitLoop rest)
        end
  | laRetryReady activityID :: rest =>
      goesOn ← inRun (inContext (retryLaTask activityID));
      if goesOn : bool then waitLoop rest else mret (finished None None)
  | laResultReady lar :: rest =>
      r ← inRun (inContext (ProcessLocalActivityResult wth now dataConverter ErrorToFailure errorText
                              implementation lar));
      orWait r (waitLoop rest)
  end.

(** [workflowTaskHandlerImpl.ProcessWorkflowTask]. *)
Definition handleWorkflowTask (outcomes : list waitOutcome) : Go W handled :=
  task ← inRun ensureHistory;
  match task_Query task, task_History task with
  | None, Some [] => mret (finished None (Some (newError "nil or empty history")))
  | _, _ =>
      if bool_decide (is_Some (task_Query task)) && bool_decide (Queries task ≠ ∅)
      then mret (finished None (Some (newError "invalid query workflow task")))
      else r ← inRun ProcessWorkflowTask; orWait r (waitLoop outcomes)
  end.
End Handler.
End Processing.
