(* ===== verification/TaskFacts.v ===== *)
(** * What the processing of a workflow task hands to the event handler.

    The calls of the loop [ProcessEvents] ([TaskProcessing.v]) as a plain list:
    for each task of the history its side effect markers, then each event
    between the messages that precede it and those at it, then the markers of
    local activities.  Any run makes the calls of this list up to a point; a
    run that is not cut short makes all of them. *)

From stdpp Require Import base list gmap strings sorting.
From S2P Require Import Prelude Proto Floats CommandMachine CommandsHelper Flags History HistoryFacts HistoryTasks Replay Update Errors Environment EventHandlers TaskContext TaskCompletion TaskProcessing.
Open Scope Z_scope.

(** ** The schedule *)

Inductive call : Type :=
| eventCall (e : HistoryEvent) (isInReplay isLast : bool)
| messageCall (m : Message) (isInReplay isLast : bool).

(** The events from the [i]th of [count] on, and the messages left. *)
Fixpoint eventCalls (h : history) (count i : nat) (es : list HistoryEvent) (ms : list Message)
    : list call * list Message :=
  match es with
  | [] => ([], ms)
  | e :: es' =>
      if isPreloadMarkerEvent e then eventCalls h count (S i) es' ms
      else
        let replay := IsReplayEvent h e in
        let isLast := negb replay && bool_decide (S i = count) in
        let '(before, ms1) := takeLTE (wrap64 (Event_EventId e - 1)) ms in
        let '(at_, ms2) := takeLTE (Event_EventId e) ms1 in
        let '(cs, ms3) := eventCalls h count (S i) es' ms2 in
        (((λ m, messageCall m replay isLast) <$> before) ++ [eventCall e replay isLast]
         ++ ((λ m, messageCall m replay isLast) <$> at_) ++ cs, ms3)
  end.

Definition markerCalls (local : bool) (ms : list HistoryEvent) : list call :=
  (λ m, eventCall m true false) <$> filter (λ m, isLocalActivityMarker m = local) ms.

Definition taskCalls (h : history) (ms : list Message) (task : preparedTask) : list call :=
  markerCalls false (markers task)
  ++ (eventCalls h (length (events task)) 0 (events task) ms).1
  ++ markerCalls true (markers task).

(** The events among the calls, without the markers. *)
Definition eventOf (c : call) : option HistoryEvent :=
  match c with
  | eventCall e _ _ => if isPreloadMarkerEvent e then None else Some e
  | messageCall _ _ _ => None
  end.

Definition eventsOf (cs : list call) : list HistoryEvent := omap eventOf cs.

(** ** Handlers that record their calls *)

(** [calls] is what the handler was called with, in order, as far as [view]
    shows it; it is read off the part of the handler that only the handler
    itself writes. *)
Class RecordsCalls `{WorkflowExecutionEventHandler} {A} (view : call → A)
    (calls : eventHandler → list A) : Prop := {
  calls_event : ∀ e r l eh,
    calls (final (handler_ProcessEvent e r l) eh) = calls eh ++ [view (eventCall e r l)];
  calls_message : ∀ m r l eh,
    calls (final (handler_ProcessMessage m r l) eh) = calls eh ++ [view (messageCall m r l)];
  calls_stable : ∀ eh eh',
    deliveries (eh_env eh) = deliveries (eh_env eh') → calls eh = calls eh';
}.

Section Calls.
  Context `{WorkflowExecutionEventHandler} {V} (view : call → V) (calls : eventHandler → list V).
  Context `{!RecordsCalls view calls}.
  Variable wth : workflowTaskHandlerImpl.
  Variable ppMgr : option (string → HistoryEvent → option goError).

Definition traced (w : workflowExecutionContextImpl) : list V :=
  match w_eventHandler w with Some eh => calls eh | None => [] end.

(** [m] makes the calls of [full] up to a point, and all of them when it goes
    on, with the messages [ms'] left; it leaves the loop only when the workflow
    is done. *)
Definition walks (m : P (goError + flow)) (s : processing) (full : list call) (ms' : list Message)
    : Prop :=
  ∃ pre,
    traced (p_context (final m s)) = traced (p_context s) ++ (view <$> pre) ∧ pre `prefix_of` full
    ∧ p_history (final m s) = p_history s ∧ taskMessages (final m s) = taskMessages s
    ∧ (result m s = Returned (inr Continue) → pre = full ∧ msgs (final m s) = ms')
    ∧ (result m s = Returned (inr Break) → leaves wth (p_context (final m s)) = Break).

(** An operation that calls nothing the record shows. *)
Definition silent {A} (m : P A) : Prop := ∀ s,
  traced (p_context (final m s)) = traced (p_context s) ∧ p_history (final m s) = p_history s
  ∧ taskMessages (final m s) = taskMessages s ∧ msgs (final m s) = msgs s.

Lemma walks_andThen m k s f1 f2 ms1 ms2 :
  walks m s f1 ms1 →
  (∀ s', msgs s' = ms1 → p_history s' = p_history s → taskMessages s' = taskMessages s → walks k s' f2 ms2) →
  walks (andThen m k) s (f1 ++ f2) ms2.
Proof.
  intros (pre & Ht & Hp & Hh & Htm & Hc & Hb) Hk. unfold walks, final, result in *.
  unfold andThen, try_bind, mbind, go_bind. destruct (m s) as [[[err|[|]]|p] s1] eqn:Hm; simpl in *.
  - exists pre. split_and!; first [done | by apply prefix_app_r].
  - destruct (Hc eq_refl) as [-> Hms]. destruct (Hk s1 Hms Hh Htm) as (pre2 & Ht2 & Hp2 & Hh2 & Htm2 & Hc2 & Hb2).
    exists (f1 ++ pre2). unfold final, result in *. split_and!; try congruence.
    + by rewrite Ht2, Ht, fmap_app, app_assoc.
    + by apply prefix_app.
    + intros Hr. destruct (Hc2 Hr) as [-> ?]. done.
    + done.
  - exists pre. split_and!; first [done | by apply prefix_app_r | auto].
  - exists pre. split_and!; first [done | by apply prefix_app_r].
Qed.

Lemma walks_ret s : walks (mret (inr Continue)) s [] (msgs s).
Proof. exists []. csimpl. rewrite app_nil_r. done. Qed.

Lemma walks_error err s full ms : walks (mret (inl err)) s full ms.
Proof. exists []. csimpl. rewrite app_nil_r. split_and!; first [done | apply prefix_nil]. Qed.

Lemma walks_silent {A} (m : P A) k s full ms :
  silent m → (∀ a s', msgs s' = msgs s → p_history s' = p_history s → taskMessages s' = taskMessages s →
     walks (k a) s' full ms) →
  walks (m ≫= k) s full ms.
Proof.
  intros Hs Hk. destruct (Hs s) as (Ht & Hh & Htm & Hms). unfold walks, final, result, mbind, go_bind in *.
  destruct (m s) as [[a|p] s1] eqn:Hm; simpl in *.
  - destruct (Hk a s1 Hms Hh Htm) as (pre & Ht1 & Hp1 & Hh1 & Htm1 & Hc & Hb). exists pre.
    unfold final, result in *. split_and!; try congruence; auto.
  - exists []. csimpl. rewrite app_nil_r. split_and!; first [done | apply prefix_nil].
Qed.

Lemma walks_forEach {A} (f : A → P (goError + flow)) (c : A → call) l s :
  (∀ x s, walks (f x) s [c x] (msgs s)) → walks (forEach f l) s (c <$> l) (msgs s).
Proof.
  intros Hf. revert s. induction l as [|x l IH]; intros s; [apply walks_ret|].
  change (c <$> x :: l) with ([c x] ++ (c <$> l)).
  eapply walks_andThen; [apply Hf|]. intros s' <- _ _. apply IH.
Qed.

Lemma traced_afterCall eh w : traced (afterCall eh w) = calls eh.
Proof.
  unfold afterCall, traced. destruct (completed (eh_env eh)) as [[result err]|]; by apply calls_stable.
Qed.

(** A call on the handler that it records. *)
Lemma walks_call (m : Go eventHandler (option goError)) c s :
  (∀ eh, calls (final m eh) = calls eh ++ [view c]) →
  walks (err ← inTask (callHandler m); s ← get; mret (orError err (leaves wth (p_context s)))) s [c] (msgs s).
Proof.
  intros Hm. unfold walks, final, result, mbind, go_bind, inTask, callHandler.
  destruct (w_eventHandler (p_context s)) as [eh|] eqn:Hw; simpl.
  - specialize (Hm eh). unfold final in Hm. exists [c].
    destruct (m eh) as [[[err|]|p] eh']; simpl in *; rewrite traced_afterCall; unfold traced; rewrite Hw.
    + by split_and!.
    + split_and!; [done..| |]; by destruct (leaves wth (afterCall eh' (p_context s))).
    + by split_and!.
  - exists []. csimpl. rewrite app_nil_r. split_and!; first [done | apply prefix_nil].
Qed.

Lemma walks_callEvent r l e s : walks (callEvent wth r l e) s [eventCall e r l] (msgs s).
Proof. apply (walks_call (handler_ProcessEvent e r l)). intros eh. apply calls_event. Qed.

Lemma walks_callMessage r l m s : walks (callMessage wth r l m) s [messageCall m r l] (msgs s).
Proof. apply (walks_call (handler_ProcessMessage m r l)). intros eh. apply calls_message. Qed.

Lemma walks_callMessages r l id s :
  walks (callMessages wth r l id) s ((λ m, messageCall m r l) <$> (takeLTE id (msgs s)).1)
    (takeLTE id (msgs s)).2.
Proof.
  destruct (walks_forEach (callMessage wth r l) (λ m, messageCall m r l) (takeLTE id (msgs s)).1
              (set_msgs (takeLTE id (msgs s)).2 s)) as (pre & Hw).
  { intros. apply walks_callMessage. }
  exists pre. exact Hw.
Qed.

(** ** Operations between the calls *)

Lemma silent_modify f :
  (∀ s, traced (p_context (f s)) = traced (p_context s) ∧ p_history (f s) = p_history s
     ∧ taskMessages (f s) = taskMessages s ∧ msgs (f s) = msgs s) → silent (modify f).
Proof. done. Qed.

Lemma silent_ret {A} (a : A) : silent (mret a).
Proof. done. Qed.

Lemma silent_bind {A B} (m : P A) (k : A → P B) : silent m → (∀ a, silent (k a)) → silent (m ≫= k).
Proof.
  intros Hm Hk s. destruct (Hm s) as (? & ? & ? & ?). unfold final, mbind, go_bind in *.
  destruct (m s) as [[a|p] s1] eqn:Hms; simpl in *; [|done].
  destruct (Hk a s1) as (? & ? & ? & ?). unfold final in *. split_and!; congruence.
Qed.

Lemma silent_context f : (∀ w, traced (f w) = traced w) → silent (inTask (modify f)).
Proof. intros Hf s. split_and!; try done. apply Hf. Qed.

Lemma silent_handler {A} (m : Go eventHandler A) :
  (∀ eh, deliveries (eh_env (final m eh)) = deliveries (eh_env eh)) → silent (inTask (callHandler m)).
Proof.
  intros Hm s. unfold final, inTask, callHandler in *.
  destruct (w_eventHandler (p_context s)) as [eh|] eqn:Hw; simpl; [|done].
  specialize (Hm eh). destruct (m eh) as [r eh']; simpl in *. split_and!; try done.
  rewrite traced_afterCall. unfold traced. rewrite Hw. by apply calls_stable.
Qed.

Lemma silent_env {A} (m : Env A) :
  (∀ e, deliveries (final m e) = deliveries e) → silent (inTask (callHandler (onEnv m))).
Proof.
  intros Hm. apply silent_handler. intros eh. specialize (Hm (eh_env eh)).
  unfold final, onEnv in *. by destruct (m (eh_env eh)).
Qed.

Lemma silent_if {A} (b : bool) (m k : P A) : silent m → silent k → silent (if b then m else k).
Proof. by destruct b. Qed.

(** ** A task *)

Lemma walks_get k s full ms : walks (k s) s full ms → walks (get ≫= k) s full ms.
Proof. done. Qed.

Lemma silent_respond skip e :
  silent (if negb skip && isCommandEvent (Event_EventType e)
          then modify (λ s, set_respondEvents (respondEvents s ++ [e]) s) else mret tt).
Proof. by apply silent_if. Qed.

Lemma walks_event skip count i e s :
  isPreloadMarkerEvent e = false →
  let replay := IsReplayEvent (p_history s) e in
  let isLast := negb replay && bool_decide (S i = count) in
  let before := takeLTE (wrap64 (Event_EventId e - 1)) (msgs s) in
  let at_ := takeLTE (Event_EventId e) before.2 in
  walks (processEvent wth ppMgr skip count i e) s
    (((λ m, messageCall m replay isLast) <$> before.1) ++ [eventCall e replay isLast]
     ++ ((λ m, messageCall m replay isLast) <$> at_.1)) at_.2.
Proof.
  intros Hm replay isLast before at_. unfold processEvent. apply walks_get.
  eapply walks_silent; [apply silent_respond|]. intros _ s1 Hmsgs _ _. rewrite Hm.
  destruct (executeAnyPressurePoints _ _ _) as [err|]; [apply walks_error|].
  fold replay isLast. subst at_ before. rewrite <- Hmsgs.
  eapply walks_andThen; [apply walks_callMessages|]. intros s2 <- _ _.
  eapply walks_andThen; [apply walks_callEvent|]. intros s3 <- _ _. apply walks_callMessages.
Qed.

Lemma walks_marker skip count i e s :
  isPreloadMarkerEvent e = true → walks (processEvent wth ppMgr skip count i e) s [] (msgs s).
Proof.
  intros Hm. unfold processEvent. apply walks_get.
  eapply walks_silent; [apply silent_respond|]. intros _ s1 <- _ _. rewrite Hm. apply walks_ret.
Qed.

Lemma walks_events skip count es i s :
  walks (forEach (λ ix, processEvent wth ppMgr skip count ix.1 ix.2) (zip (seq i (length es)) es)) s
    (eventCalls (p_history s) count i es (msgs s)).1 (eventCalls (p_history s) count i es (msgs s)).2.
Proof.
  revert i s. induction es as [|e es IH]; intros i s; [apply walks_ret|].
  cbn [length seq zip_with forEach eventCalls fst snd]. destruct (isPreloadMarkerEvent e) eqn:Hm.
  - eapply (walks_andThen _ _ _ []); [by apply walks_marker|]. intros s1 <- <- _. apply IH.
  - destruct (takeLTE _ (msgs s)) as [before ms1] eqn:Hb.
    destruct (takeLTE (Event_EventId e) ms1) as [at_ ms2] eqn:Ha.
    destruct (eventCalls (p_history s) count (S i) es ms2) as [cs ms3] eqn:Hc. cbn [fst snd].
    pose proof (walks_event skip count i e s Hm) as Hw. cbv zeta in Hw. rewrite Hb in Hw. cbn [fst snd] in Hw.
    rewrite Ha in Hw. cbn [fst snd] in Hw.
    match goal with |- walks _ _ (?a ++ ?b ++ ?c ++ ?d) _ =>
      replace (a ++ b ++ c ++ d) with ((a ++ b ++ c) ++ d) by (by rewrite <- !app_assoc) end.
    eapply walks_andThen; [exact Hw|]. intros s1 Hms Hh _.
    specialize (IH (S i) s1). by rewrite Hms, Hh, Hc in IH.
Qed.

Lemma walks_markers local ms s : walks (processMarkers wth local ms) s (markerCalls local ms) (msgs s).
Proof. apply walks_forEach. intros. apply walks_callEvent. Qed.

Lemma silent_collect skip : silent (collectReplayed skip).
Proof.
  apply silent_bind; [apply silent_env|intros cs].
  { intros e. unfold final, onHelper. by destruct (getCommands true (helper e)). }
  apply silent_bind; [by apply silent_handler|intros sent].
  apply silent_bind; [by apply silent_if|intros _]. by apply silent_handler.
Qed.

Lemma walks_task skip replayed task s :
  walks (processTask wth ppMgr skip replayed task) s (taskCalls (p_history s) (msgs s) task)
    (eventCalls (p_history s) (length (events task)) 0 (events task) (msgs s)).2.
Proof.
  unfold processTask, taskCalls.
  eapply walks_silent; [by apply silent_modify|]. intros _ s1 <- <- _.
  eapply walks_silent; [apply silent_context|]. { intros w. unfold setTaskInfo. by repeat case_match. }
  intros _ s2 <- <- _. eapply walks_silent; [by apply silent_env|]. intros _ s3 <- <- _.
  eapply walks_andThen; [apply walks_markers|]. intros s4 <- <- _.
  eapply walks_andThen; [apply walks_events|]. intros s5 <- _ _.
  rewrite <- (app_nil_r (markerCalls true _)).
  eapply walks_andThen; [apply walks_markers|]. intros s6 <- _ _.
  eapply walks_silent; [apply silent_if; [apply silent_collect|done]|]. intros _ s7 <- _ _. apply walks_ret.
Qed.

(** ** The loop *)

Definition nonMarkers (es : list HistoryEvent) : list HistoryEvent :=
  filter (λ e, isPreloadMarkerEvent e = false) es.

Lemma eventsOf_app cs cs' : eventsOf (cs ++ cs') = eventsOf cs ++ eventsOf cs'.
Proof. apply omap_app. Qed.

Lemma eventsOf_messages ms r l : eventsOf ((λ m, messageCall m r l) <$> ms) = [].
Proof. by induction ms. Qed.

Lemma eventsOf_markers local ms :
  Forall (λ e, isPreloadMarkerEvent e = true) ms → eventsOf (markerCalls local ms) = [].
Proof.
  intros Hms. unfold markerCalls. assert (Hall : Forall (λ e, isPreloadMarkerEvent e = true)
    (filter (λ m, isLocalActivityMarker m = local) ms)).
  { rewrite Forall_forall in *. intros e [_ He]%list_elem_of_filter. by apply Hms. }
  induction Hall as [|e es He _ IH]; [done|]. csimpl. by rewrite He.
Qed.

Lemma eventsOf_events h count es : ∀ i ms, eventsOf (eventCalls h count i es ms).1 = nonMarkers es.
Proof.
  induction es as [|e es IH]; intros i ms; [done|]. unfold nonMarkers. cbn [eventCalls].
  destruct (isPreloadMarkerEvent e) eqn:Hm.
  - rewrite filter_cons_False by congruence. apply IH.
  - rewrite filter_cons_True by done. destruct (takeLTE _ ms) as [before ms1].
    destruct (takeLTE _ ms1) as [at_ ms2]. specialize (IH (S i) ms2).
    destruct (eventCalls h count (S i) es ms2) as [cs ms3]. cbn [fst] in *.
    rewrite !eventsOf_app, !eventsOf_messages, IH. cbn. by rewrite Hm.
Qed.

Lemma eventsOf_task h ms task :
  Forall (λ e, isPreloadMarkerEvent e = true) (markers task) →
  eventsOf (taskCalls h ms task) = nonMarkers (events task).
Proof.
  intros Hm. unfold taskCalls. rewrite !eventsOf_app, !eventsOf_markers by done.
  by rewrite eventsOf_events, app_nil_r.
Qed.

Lemma eventsOf_prefix cs cs' : cs `prefix_of` cs' → eventsOf cs `prefix_of` eventsOf cs'.
Proof. intros [k ->]. rewrite eventsOf_app. by apply prefix_app_r. Qed.

(** An operation that calls nothing the record shows, and does not read on. *)
Definition unseen {A} (m : P A) : Prop := ∀ s,
  traced (p_context (final m s)) = traced (p_context s) ∧ p_history (final m s) = p_history s.

Lemma silent_unseen {A} (m : P A) : silent m → unseen m.
Proof. intros Hm s. by destruct (Hm s) as (? & ? & _). Qed.

Lemma unseen_bind {A B} (m : P A) (k : A → P B) : unseen m → (∀ a, unseen (k a)) → unseen (m ≫= k).
Proof.
  intros Hm Hk s. destruct (Hm s) as [? ?]. unfold final, mbind, go_bind in *.
  destruct (m s) as [[a|p] s1] eqn:Hms; simpl in *; [|done].
  destruct (Hk a s1) as [? ?]. unfold final in *. split; congruence.
Qed.

Lemma unseen_messages replayed task : unseen (prepareMessages replayed task).
Proof.
  unfold prepareMessages. destruct replayed.
  - destruct (replaceAdmitted _ _) as [err|ms]; [done|].
    apply unseen_bind; [done|intros _]. apply unseen_bind; [|done].
    by apply silent_unseen, silent_handler.
  - apply unseen_bind; [done|intros _].
    apply unseen_bind; [apply silent_unseen, silent_handler; intros eh; unfold final; simpl; by case_decide|intros _].
    apply unseen_bind; [apply silent_unseen, silent_handler; intros eh; unfold final; simpl; by case_decide|done].
Qed.

(** ** The messages of a task *)

Definition messageOf (c : call) : option Message :=
  match c with messageCall m _ _ => Some m | eventCall _ _ _ => None end.

Definition messagesOf (cs : list call) : list Message := omap messageOf cs.

(** A message comes after the events up to its event id and before the others. *)
Definition ordered (c c' : call) : Prop :=
  match c, c' with
  | eventCall e _ _, messageCall m _ _ => Event_EventId e ≤ Msg_EventId m
  | messageCall m _ _, eventCall e _ _ => Msg_EventId m < Event_EventId e
  | eventCall e _ _, eventCall e' _ _ => Event_EventId e < Event_EventId e'
  | messageCall _ _ _, messageCall _ _ _ => True
  end.

Lemma messages_sorted r l ms : StronglySorted ordered ((λ m, messageCall m r l) <$> ms).
Proof.
  induction ms as [|m ms IH]; csimpl; constructor; [done|].
  apply Forall_fmap, Forall_true. done.
Qed.

Lemma messagesOf_messages r l ms : messagesOf ((λ m, messageCall m r l) <$> ms) = ms.
Proof. induction ms as [|m ms IH]; [done|]. cbn. by f_equal. Qed.

(** Taking messages out of an index splits it, and keeps the order among those
    of one event. *)
Lemma takeLTE_split id ms :
  (takeLTE id ms).1 ++ (takeLTE id ms).2 ≡ₚ ms
  ∧ ∀ k, filter (λ m, Msg_EventId m = k) ((takeLTE id ms).1 ++ (takeLTE id ms).2)
         = filter (λ m, Msg_EventId m = k) ms.
Proof.
  unfold takeLTE. cbn [fst snd]. induction ms as [|m ms [IHp IHf]]; [done|].
  destruct (decide (Msg_EventId m ≤ id)) as [Hm|Hm].
  - rewrite filter_cons_True, filter_cons_False by tauto. cbn [app]. split; [by f_equiv|].
    intros k. rewrite !filter_cons. case_decide; by rewrite IHf.
  - rewrite filter_cons_False, filter_cons_True by tauto. split.
    + rewrite <- Permutation_middle. by f_equiv.
    + intros k. specialize (IHf k). rewrite filter_app in *. rewrite !(filter_cons _ m).
      case_decide as Hk; [|done]. rewrite <- IHf.
      rewrite (filter_none _ (filter (λ m, Msg_EventId m ≤ id) ms)); [done|].
      intros x [Hx _]%list_elem_of_filter. lia.
Qed.

Lemma messagesOf_app cs cs' : messagesOf (cs ++ cs') = messagesOf cs ++ messagesOf cs'.
Proof. apply omap_app. Qed.

Lemma elem_of_messageCalls c r l (ms : list Message) :
  c ∈ ((λ m, messageCall m r l) <$> ms) → ∃ m, c = messageCall m r l ∧ m ∈ ms.
Proof. by intros (m & -> & Hm)%list_elem_of_fmap; exists m. Qed.

(** A call is an event of the task or one of its messages. *)
Lemma call_cases h count i es ms c :
  c ∈ (eventCalls h count i es ms).1 →
  match c with
  | eventCall e _ _ => e ∈ nonMarkers es
  | messageCall m _ _ => m ∈ messagesOf (eventCalls h count i es ms).1
  end.
Proof.
  intros Hc. destruct c as [e r l|m r l].
  - rewrite <- (eventsOf_events h count es i ms). apply list_elem_of_omap. exists (eventCall e r l).
    split; [done|]. cbn. destruct (isPreloadMarkerEvent e) eqn:He; [|done]. exfalso. revert i ms Hc.
    induction es as [|e' es IH]; intros i ms; cbn [eventCalls]; [by intros ?%not_elem_of_nil|].
    destruct (isPreloadMarkerEvent e') eqn:He'; [apply IH|].
    destruct (takeLTE _ ms) as [b ms1], (takeLTE _ ms1) as [a ms2]. specialize (IH (S i) ms2).
    destruct (eventCalls h count (S i) es ms2) as [cs ms3]. cbn [fst] in *.
    rewrite !elem_of_app, list_elem_of_singleton. intros [(? & ? & _)%elem_of_messageCalls|[?|[(? & ? & _)%elem_of_messageCalls|?]]];
      simplify_eq; [congruence|by apply IH].
  - apply list_elem_of_omap. by exists (messageCall m r l).
Qed.

Lemma takeLTE_bounds id ms :
  0 < id < 2 ^ 63 - 1 →
  let before := takeLTE (wrap64 (id - 1)) ms in
  let at_ := takeLTE id before.2 in
  (∀ m, m ∈ before.1 → Msg_EventId m < id) ∧ (∀ m, m ∈ at_.1 → Msg_EventId m = id)
  ∧ (∀ m, m ∈ at_.2 → id < Msg_EventId m).
Proof.
  intros Hid before at_. unfold at_, before, takeLTE. cbn [fst snd].
  rewrite wrap64_id by (unfold int64_range; lia).
  split_and!; intros m Hm; rewrite !list_elem_of_filter in Hm; lia.
Qed.

Lemma placed_sorted e r l r' l' before at_ cs :
  (∀ m, m ∈ before → Msg_EventId m < Event_EventId e) → (∀ m, m ∈ at_ → Msg_EventId m = Event_EventId e) →
  (∀ c, c ∈ cs → match c with eventCall e' _ _ => Event_EventId e < Event_EventId e'
                 | messageCall m _ _ => Event_EventId e < Msg_EventId m end) →
  StronglySorted ordered cs →
  StronglySorted ordered (((λ m, messageCall m r l) <$> before) ++ [eventCall e r' l']
    ++ ((λ m, messageCall m r l) <$> at_) ++ cs).
Proof.
  intros Hb Ha Hc Hs. apply StronglySorted_app_2; [|apply messages_sorted|apply StronglySorted_app_2;
    [|repeat constructor|apply StronglySorted_app_2; [|apply messages_sorted|done]]].
  - intros c c' (m & -> & Hm)%elem_of_messageCalls Hc'. specialize (Hb m Hm).
    rewrite !elem_of_app, list_elem_of_singleton in Hc'.
    destruct Hc' as [->|[(m' & -> & _)%elem_of_messageCalls|Hc']]; [done..|].
    specialize (Hc c' Hc'). destruct c'; [simpl; lia|done].
  - intros c c' ->%list_elem_of_singleton [(m & -> & Hm)%elem_of_messageCalls|Hc']%elem_of_app.
    + simpl. rewrite (Ha m Hm). lia.
    + specialize (Hc c' Hc'). destruct c'; simpl in *; lia.
  - intros c c' (m & -> & Hm)%elem_of_messageCalls Hc'. specialize (Hc c' Hc').
    destruct c'; [|done]. simpl. rewrite (Ha m Hm). lia.
Qed.

Lemma eventCalls_messages h count es : ∀ i ms,
  StronglySorted (λ e e', Event_EventId e < Event_EventId e') (nonMarkers es) → Forall event_ok es →
  let '(cs, unsent) := eventCalls h count i es ms in
  StronglySorted ordered cs ∧ messagesOf cs ++ unsent ≡ₚ ms
  ∧ (∀ k, filter (λ m, Msg_EventId m = k) (messagesOf cs ++ unsent) = filter (λ m, Msg_EventId m = k) ms)
  ∧ (∀ m e, m ∈ unsent → e ∈ nonMarkers es → Event_EventId e < Msg_EventId m).
Proof.
  induction es as [|e es IH]; intros i ms Hs Hok.
  { cbn. split_and!; [constructor|done|done|]. by intros ?? _ ?%not_elem_of_nil. }
  unfold nonMarkers in *. apply Forall_cons in Hok as [He Hok]. cbn [eventCalls].
  destruct (isPreloadMarkerEvent e) eqn:Hm.
  { rewrite filter_cons_False in * by congruence. by apply IH. }
  rewrite filter_cons_True in * by done. apply StronglySorted_cons in Hs as [Hlt Hs].
  rewrite Forall_forall in Hlt.
  destruct (takeLTE_split (wrap64 (Event_EventId e - 1)) ms) as [Hp1 Hf1].
  destruct (takeLTE_bounds (Event_EventId e) ms He) as (Hbefore & Hat & Hafter).
  destruct (takeLTE _ ms) as [before ms1]. cbn [fst snd] in *.
  destruct (takeLTE_split (Event_EventId e) ms1) as [Hp2 Hf2].
  destruct (takeLTE _ ms1) as [at_ ms2]. cbn [fst snd] in *.
  pose proof (call_cases h count (S i) es ms2) as Hcases.
  specialize (IH (S i) ms2 Hs Hok). destruct (eventCalls h count (S i) es ms2) as [cs unsent].
  destruct IH as (Hso & Hp & Hf & Hl). cbn [fst] in Hcases.
  assert (Hin : ∀ m, m ∈ messagesOf cs → Event_EventId e < Msg_EventId m).
  { intros m Hm'. apply Hafter. rewrite <- Hp. set_solver. }
  rewrite !messagesOf_app, !messagesOf_messages. cbn [messagesOf omap list_omap messageOf].
  split_and!.
  - apply placed_sorted; [done|done| |done].
    intros c Hc. specialize (Hcases c Hc). destruct c as [e' r l|m r l]; [|by apply Hin].
    by apply Hlt.
  - rewrite <- Hp1, <- Hp2, <- Hp. by rewrite !app_nil_l, <- !app_assoc.
  - intros k. rewrite <- Hf1, !filter_app, <- Hf2, filter_app, <- Hf, filter_app. cbn. by rewrite <- !app_assoc.
  - intros m e' Hm' [->|He']%elem_of_cons; [|by apply Hl].
    apply Hafter. rewrite <- Hp. set_solver.
Qed.
(** Update messages are delivered at the right place. Over the events of a
    workflow task the handler is called with a first part of a list of calls
    (all of it, unless it fails, panics or completes the workflow) in which the
    events have their order, each message comes after all events up to its
    event id and before all later ones, messages of one event id keep their
    order, and no message is called twice or lost: those left in the index are
    for events after all of these. *)
Theorem messages_in_order skip es s :
  StronglySorted (λ e e', Event_EventId e < Event_EventId e') (nonMarkers es) → Forall event_ok es →
  let m := forEachIndexed (processEvent wth ppMgr skip (length es)) es in
  ∃ cs unsent pre,
    traced (p_context (final m s)) = traced (p_context s) ++ (view <$> pre) ∧ pre `prefix_of` cs
    ∧ (result m s = Returned (inr Continue) → pre = cs ∧ msgs (final m s) = unsent)
    ∧ eventsOf cs = nonMarkers es ∧ StronglySorted ordered cs
    ∧ messagesOf cs ++ unsent ≡ₚ msgs s
    ∧ (∀ k, filter (λ m, Msg_EventId m = k) (messagesOf cs ++ unsent)
            = filter (λ m, Msg_EventId m = k) (msgs s))
    ∧ (∀ m e, m ∈ unsent → e ∈ nonMarkers es → Event_EventId e < Msg_EventId m).
Proof.
  intros Hs Hok m.
  destruct (walks_events skip (length es) es 0 s) as (pre & Ht & Hp & _ & _ & Hc & _).
  pose proof (eventCalls_messages (p_history s) (length es) es 0 (msgs s) Hs Hok) as Hprops.
  pose proof (eventsOf_events (p_history s) (length es) es 0 (msgs s)) as He.
  destruct (eventCalls (p_history s) (length es) 0 es (msgs s)) as [cs unsent].
  exists cs, unsent, pre. by destruct Hprops as (? & ? & ? & ?).
Qed.

Section Loop.
  Variable decodeJSON : string → string + list HistoryEvent.
  Variable unmarshal : string → string + list HistoryEvent.
  Variable visitPayloads : list HistoryEvent → string + list HistoryEvent.
  Variable allowed : gmap sdkFlag bool.

  Local Abbreviation task := (nextTask decodeJSON unmarshal visitPayloads allowed).
  Local Abbreviation iterate := (iteration wth decodeJSON unmarshal visitPayloads allowed ppMgr).
  Local Abbreviation loop := (processEvents wth decodeJSON unmarshal visitPayloads allowed ppMgr).

(** What an operation of the iteration shows of a task with the events [es]. *)
Definition shows (m : P (goError + flow)) (es : list HistoryEvent) (s : processing) : Prop :=
  p_history (final m s) = p_history s ∧
  ∃ pre, traced (p_context (final m s)) = traced (p_context s) ++ (view <$> pre)
    ∧ eventsOf pre `prefix_of` nonMarkers es
    ∧ (result m s = Returned (inr Continue) → eventsOf pre = nonMarkers es)
    ∧ (result m s = Returned (inr Break) → isInReplayer wth = false →
       isWorkflowCompleted (p_context (final m s)) = false → es = []).

Lemma shows_unseen {A} (m : P A) k es s :
  unseen m → (∀ a s', shows (k a) es s') → shows (m ≫= k) es s.
Proof.
  intros Hm Hk. destruct (Hm s) as [Ht Hh]. unfold shows, final, result, mbind, go_bind in *.
  destruct (m s) as [[a|p] s1]; simpl in *.
  - destruct (Hk a s1) as (Hh1 & pre & Ht1 & Hrest). unfold final, result in *.
    split; [congruence|]. exists pre. by rewrite <- Ht.
  - split; [done|]. exists []. csimpl. rewrite app_nil_r. split_and!; first [done | apply prefix_nil].
Qed.

Lemma shows_try {E} (m : P (goError + E)) k es s :
  unseen m → (∀ a s', shows (k a) es s') → shows (try_bind m k) es s.
Proof.
  intros Hm Hk. apply shows_unseen; [done|]. intros [err|a] s'; [|apply Hk].
  split; [done|]. exists []. csimpl. rewrite app_nil_r. split_and!; first [done | apply prefix_nil].
Qed.

Lemma shows_task skip replayed t s :
  Forall (λ e, isPreloadMarkerEvent e = true) (markers t) →
  shows (processTask wth ppMgr skip replayed t) (events t) s.
Proof.
  intros Hm. destruct (walks_task skip replayed t s) as (pre & Ht & Hp & Hh & _ & Hc & Hb).
  split; [done|]. exists pre. split_and!; [done| | |].
  - rewrite <- (eventsOf_task (p_history s) (msgs s)) by done. by apply eventsOf_prefix.
  - intros [-> _]%Hc. by apply eventsOf_task.
  - intros Hr _ Hnot. specialize (Hb Hr). unfold leaves in Hb. by rewrite Hnot in Hb.
Qed.

Lemma shows_next skip t s :
  (events t ≠ [] → Forall (λ e, isPreloadMarkerEvent e = true) (markers t)) →
  shows (processNext wth ppMgr skip t) (events t) s.
Proof.
  intros Hm. apply (shows_unseen get); [done|]. intros s0 s1.
  destruct (isLastOfPartial wth (p_history s0) (events t)) eqn:Hpart.
  - split; [done|]. exists []. csimpl. rewrite app_nil_r. split_and!; [done|apply prefix_nil|done|].
    intros _ Hno. unfold isLastOfPartial in Hpart. destruct (last (events t)); [|done].
    by rewrite Hno, andb_false_r in Hpart.
  - apply shows_try; [apply unseen_messages|]. intros _ s2.
    apply shows_unseen; [by apply silent_unseen, silent_env|]. intros _ s3.
    case_decide as He; [|by apply shows_task, Hm]. split; [done|].
    exists []. csimpl. rewrite app_nil_r. split_and!; first [done | apply prefix_nil].
Qed.

Lemma loop_step fuel skip s t h1 :
  task (p_history s) = (Returned (inr t), h1) →
  loop (S fuel) skip s =
  (f ←? processNext wth ppMgr skip t;
   match f with Break => mret (inr tt) | Continue => loop fuel skip end) (set_p_history h1 s).
Proof.
  intros Hn. cbn [processEvents]. unfold iteration, inHistory, try_bind, mbind, go_bind. rewrite Hn. done.
Qed.

Lemma next_continues skip t s :
  result (processNext wth ppMgr skip t) s = Returned (inr Continue) → events t ≠ [].
Proof.
  intros Hr He. revert Hr. unfold processNext, result, try_bind, mbind, go_bind, get.
  destruct (isLastOfPartial _ _ _); [done|].
  destruct (prepareMessages _ _ s) as [[[err|u]|p] s1]; [done| |done].
  destruct (inTask _ s1) as [[u'|p] s2]; [|done]. by rewrite decide_True.
Qed.

(** One task, and what comes after it. *)
Lemma loop_shows_step fuel skip s t h1 es :
  task (p_history s) = (Returned (inr t), h1) →
  (events t ≠ [] → Forall (λ e, isPreloadMarkerEvent e = true) (markers t)) →
  (events t = [] → es = []) →
  (∀ s', p_history s' = h1 → events t ≠ [] →
     ∃ pre, traced (p_context (final (loop fuel skip) s')) = traced (p_context s') ++ (view <$> pre)
       ∧ eventsOf pre `prefix_of` nonMarkers es
       ∧ (result (loop fuel skip) s' = Returned (inr tt) → isInReplayer wth = false →
          isWorkflowCompleted (p_context (final (loop fuel skip) s')) = false →
          eventsOf pre = nonMarkers es)) →
  ∃ pre, traced (p_context (final (loop (S fuel) skip) s)) = traced (p_context s) ++ (view <$> pre)
    ∧ eventsOf pre `prefix_of` nonMarkers (events t ++ es)
    ∧ (result (loop (S fuel) skip) s = Returned (inr tt) → isInReplayer wth = false →
       isWorkflowCompleted (p_context (final (loop (S fuel) skip) s)) = false →
       eventsOf pre = nonMarkers (events t ++ es)).
Proof.
  intros Hn Hm Hes Hk. unfold final, result. rewrite (loop_step _ _ _ _ _ Hn). unfold nonMarkers at 1 2.
  rewrite !filter_app. fold (nonMarkers (events t)) (nonMarkers es).
  destruct (shows_next skip t (set_p_history h1 s) Hm) as (Hh & pre & Ht & Hp & Hc & Hb).
  pose proof (next_continues skip t (set_p_history h1 s)) as Hcont.
  unfold final, result, try_bind, mbind, go_bind in *.
  destruct (processNext wth ppMgr skip t (set_p_history h1 s)) as [[[err|[|]]|p] s1]; simpl in *.
  - exists pre. split_and!; first [done | by apply prefix_app_r].
  - destruct (Hk s1 Hh (Hcont eq_refl)) as (pre' & Ht' & Hp' & Hc'). exists (pre ++ pre').
    rewrite eventsOf_app, (Hc eq_refl). split_and!.
    + by rewrite Ht', Ht, fmap_app, app_assoc.
    + by apply prefix_app.
    + intros Hr Hno Hw. by rewrite (Hc' Hr Hno Hw).
  - exists pre. split_and!; [done|by apply prefix_app_r|]. intros _ Hno Hw.
    specialize (Hb eq_refl Hno Hw). rewrite (Hes Hb), Hb in *. simpl in *.
    by apply prefix_nil_inv in Hp.
  - exists pre. split_and!; first [done | by apply prefix_app_r].
Qed.

(** The tasks [ts] of the history, one iteration each. *)
Lemma loop_shows skip ts : ∀ fuel s,
  drained (nextTasks task (S (length ts)) (p_history s)) ts →
  Forall (λ t, Forall (λ e, isPreloadMarkerEvent e = true) (markers t)) ts → (length ts < fuel)%nat →
  ∃ pre, traced (p_context (final (loop fuel skip) s)) = traced (p_context s) ++ (view <$> pre)
    ∧ eventsOf pre `prefix_of` nonMarkers (concat (events <$> ts))
    ∧ (result (loop fuel skip) s = Returned (inr tt) → isInReplayer wth = false →
       isWorkflowCompleted (p_context (final (loop fuel skip) s)) = false →
       eventsOf pre = nonMarkers (concat (events <$> ts))).
Proof.
  induction ts as [|t ts IH]; intros fuel s (t_end & Hrs & Hend & Hall) Hm Hf;
    (destruct fuel as [|fuel]; [simpl in Hf; lia|]); cbn [nextTasks length] in Hrs;
    destruct (task (p_history s)) as [r h1] eqn:Hn; simpl in Hrs.
  - injection Hrs as ->. csimpl. rewrite <- Hend, <- (app_nil_r (events t_end)).
    by apply (loop_shows_step _ _ _ _ h1).
  - injection Hrs as -> Hrs. apply Forall_cons in Hm as [Hmt Hm]. apply Forall_cons in Hall as [Ht Hall].
    csimpl. apply (loop_shows_step _ _ _ _ h1); [done..|]. intros s' <- _.
    apply IH; [by exists t_end|done|simpl in Hf; lia].
Qed.

(** ** From the history of the server to the handler *)

Lemma addEvent_markers e t :
  Forall (λ e, isPreloadMarkerEvent e = true) (markers t) →
  Forall (λ e, isPreloadMarkerEvent e = true) (markers (addEvent e t)).
Proof.
  intros Ht. unfold addEvent. case_decide; [done|]. destruct (isPreloadMarkerEvent e) eqn:He.
  - apply Forall_app. by repeat constructor.
  - by destruct (Event_Attributes e).
Qed.

Lemma flat_orderEvents_markers es : ∀ t f t' f',
  Forall (λ e, isPreloadMarkerEvent e = true) (markers t) →
  flat_orderEvents allowed es t f = (Returned (inr t'), f') →
  Forall (λ e, isPreloadMarkerEvent e = true) (markers t').
Proof.
  induction es as [|e es IH]; intros t f t' f' Ht; cbn [flat_orderEvents].
  { destruct (_ && _); intros; by simplify_eq. }
  case_decide; [done|]. case_decide; [by eapply IH|].
  destruct (Event_EventType e); try (by eapply IH; eauto using addEvent_markers).
  destruct (finishedAfter allowed es) as [[?|fin]|?]; [done| |done].
  destruct (isFailed fin); [by eapply IH|]. intros ?. by simplify_eq.
Qed.

Lemma flat_nextTask_markers f t f' :
  flat_nextTask allowed f = (Returned (inr t), f') →
  Forall (λ e, isPreloadMarkerEvent e = true) (markers t).
Proof.
  assert (Hprep : ∀ f t f', flat_prepareTask allowed f = (Returned (inr t), f') →
    Forall (λ e, isPreloadMarkerEvent e = true) (markers t)).
  { intros f0 t0 f0'. by apply flat_orderEvents_markers. }
  unfold flat_nextTask, try_bind, mbind, go_bind, get, modify, mret, go_ret.
  destruct (decide (f_next f = [])) as [He|He].
  - destruct (flat_prepareTask allowed f) as [[[err|t1]|p] f1]; [done| |done].
    case_decide; [intros; simplify_eq; constructor|].
    destruct (flat_prepareTask allowed _) as [[[err|t2]|p] f2] eqn:H2; [done| |done].
    intros ?. simplify_eq. exact (Hprep _ _ _ H2).
  - rewrite decide_False by done.
    destruct (flat_prepareTask allowed _) as [[[err|t2]|p] f2] eqn:H2; [done| |done].
    intros ?. simplify_eq. exact (Hprep _ _ _ H2).
Qed.

Lemma nextTasks_forall {S} (m : Go S (historyError + preparedTask)) (Q : preparedTask → Prop) n : ∀ s,
  (∀ s t s', m s = (Returned (inr t), s') → Q t) →
  Forall (λ r, ∀ t, r = Returned (inr t) → Q t) (nextTasks m n s).
Proof.
  induction n as [|n IH]; intros s Hm; simpl; [constructor|].
  destruct (m s) as [r s'] eqn:Hr. constructor; [|by apply IH].
  intros t ->. by eapply Hm.
Qed.

Lemma drained_length rs ts : drained rs ts → (length ts ≤ length (concat (events <$> ts)))%nat.
Proof.
  intros (t_end & _ & _ & Hall). induction Hall as [|t ts Ht _ IH]; [done|]. csimpl.
  rewrite length_app. destruct (events t); [done|]. simpl. lia.
Qed.

Lemma delivered_length h es : (length (delivered h es) ≤ length es)%nat.
Proof.
  induction es as [|e es IH]; [done|]. simpl. case_decide; [lia|].
  destruct (Event_EventType e); simpl; try lia. destruct (taskFailedNext es); simpl; lia.
Qed.

End Loop.
End Calls.

(** ** An example: a handler that records event ids *)

Definition recordID (id : Z) : Go eventHandler (option goError) :=
  _ ← onEnv (invoke 0 (localActivityArgs (mkLocalActivityOutcome None None id 0)));
  mret None.

Definition recorder : WorkflowExecutionEventHandler :=
  mkHandler (λ e _ _, recordID (Event_EventId e)) (λ m _ _, recordID (- Msg_EventId m))
    (λ _ _ _, mret (inr None)) (λ _, mret None) (mret tt).

Definition viewID (c : call) : Z :=
  match c with eventCall e _ _ => Event_EventId e | messageCall m _ _ => - Msg_EventId m end.

Definition recordedIDs (eh : eventHandler) : list Z :=
  omap (λ d, match delivered_args d with
             | localActivityArgs lar => Some (lar_Attempt lar)
             | _ => None
             end) (deliveries (eh_env eh)).

#[export] Instance recorder_records : RecordsCalls (H := recorder) viewID recordedIDs.
Proof.
  split.
  - intros e r l eh. exact (omap_app _ (deliveries (eh_env eh))
      [mkDelivery 0 (localActivityArgs (mkLocalActivityOutcome None None (Event_EventId e) 0))]).
  - intros m r l eh. exact (omap_app _ (deliveries (eh_env eh))
      [mkDelivery 0 (localActivityArgs (mkLocalActivityOutcome None None (- Msg_EventId m) 0))]).
  - intros eh eh' Hd. unfold recordedIDs. by rewrite Hd.
Qed.

Definition exampleWorkflowInfo : WorkflowInfo := mkWorkflowInfo "q" "r" None None 0 0 false [] false.

Definition exampleExecution : executionInfo :=
  mkExecutionInfo (mkWorkflowExecution "w" "r") "r" "r" "type" 0 0 10 "default" 1 0 None None "" "" ""
    None None None None None.

Definition exampleContext : workflowExecutionContextImpl :=
  mkContext exampleExecution exampleWorkflowInfo "" ""
    (Some (newWorkflowExecutionEventHandler exampleWorkflowInfo true 0)) false None None 0 0 [] [] None
    None false.

Definition exampleTaskHandler : workflowTaskHandlerImpl :=
  mkTaskHandler "default" "worker" "build" false noDeploymentVersion VersioningBehaviorUnspecified
    (λ _, None) BlockWorkflow None "" 10.

Definition exampleProcessing : processing :=
  mkProcessing exampleContext (newHistory 0 exampleHistory 6 0 None)
    [mkMessage "m" "u" 5 (Some "update")] [] [] [] [] false None.


Definition exampleMessages : list Message :=
  [mkMessage "a" "u1" 2 (Some "x"); mkMessage "b" "u2" 1 (Some "y"); mkMessage "c" "u3" 6 (Some "z")].

Lemma messages_in_order_witness :
  let es := [ev 1 EVENT_TYPE_WORKFLOW_EXECUTION_STARTED; ev 3 EVENT_TYPE_WORKFLOW_TASK_STARTED] in
  let s := set_msgs exampleMessages exampleProcessing in
  let run := forEachIndexed (processEvent (H := recorder) exampleTaskHandler None false 2) es in
  ∃ cs, traced recordedIDs (p_context (final run s)) = viewID <$> cs ∧ StronglySorted ordered cs
    ∧ eventsOf cs = es.
Proof.
  intros es s run.
  destruct (messages_in_order (H := recorder) viewID recordedIDs exampleTaskHandler None false es s)
    as (cs & unsent & pre & Ht & _ & Hc & He & Hs & _).
  - vm_compute. repeat constructor.
  - repeat (constructor; [unfold event_ok; simpl; lia|]). constructor.
  - destruct Hc as [-> _]; [vm_compute; reflexivity|]. exists cs. split; [exact Ht|]. split; [exact Hs|exact He].
Defined.
