(* ===== verification/TaskCompletionFacts.v ===== *)
(** * What the completion of a workflow task contains.

    Theorems about [TaskCompletion.v] and the end of [TaskProcessing.v]: the
    commands and messages of a completion, the panic policy, and the start of
    local activities. *)

From stdpp Require Import base list gmap strings.
From S2P Require Import Prelude Proto Floats CommandMachine CommandsHelper Flags History Replay Update Errors FailureConverter Retry Environment EventHandlers TaskContext TaskCompletion TaskProcessing HistoryTasks TaskFacts.
Open Scope Z_scope.

(** ** Calls on the handler *)

Lemma set_completed_id e : completed e = None → set_completed None e = e.
Proof. destruct e. simpl. by intros ->. Qed.

Lemma set_eh_env_id eh : set_eh_env (eh_env eh) eh = eh.
Proof. by destruct eh. Qed.

(** A call that does not complete the workflow only changes the handler. *)
Lemma callHandler_quiet {A} (m : Go eventHandler A) w eh r eh' :
  w_eventHandler w = Some eh → m eh = (r, eh') → completed (eh_env eh') = None →
  callHandler m w = (r, set_w_eventHandler (Some eh') w).
Proof.
  intros Hw Hm Hc. unfold callHandler. rewrite Hw, Hm. unfold afterCall. rewrite Hc.
  by rewrite set_completed_id, set_eh_env_id by done.
Qed.

Lemma callHandler_completes {A} (m : Go eventHandler A) w eh r eh' res err :
  w_eventHandler w = Some eh → m eh = (r, eh') → completed (eh_env eh') = Some (res, err) →
  callHandler m w =
  (r, context_completeWorkflow res err
        (set_w_eventHandler (Some (set_eh_env (set_completed None (eh_env eh')) eh')) w)).
Proof. intros Hw Hm Hc. unfold callHandler. rewrite Hw, Hm. unfold afterCall. by rewrite Hc. Qed.

(** What the task handler's own operations leave of the handler: it is there,
    and did not complete the workflow. *)
Definition alive (w : workflowExecutionContextImpl) (eh : eventHandler) : Prop :=
  w_eventHandler w = Some eh ∧ completed (eh_env eh) = None.

Section Facts.
  Context `{WorkflowExecutionEventHandler}.
  Variable wth : workflowTaskHandlerImpl.
  Variable now : Z.
  Variable dataConverter : DataConverter.
  Variable ErrorToFailure : option goError → option Failure.
  Variable errorText : goError → string.

  Local Abbreviation close := (closeCommand dataConverter ErrorToFailure).
  Local Abbreviation complete := (completeWorkflow wth dataConverter ErrorToFailure errorText).
  Local Abbreviation CompleteTask := (CompleteWorkflowTask wth now dataConverter ErrorToFailure errorText).
  Local Abbreviation policy := (applyWorkflowPanicPolicy wth now dataConverter ErrorToFailure errorText).

(** ** The request *)

Lemma closeCommand_none w : close w = Returned None → isWorkflowCompleted w = false ∧ w_err w = None.
Proof.
  intros Hc. destruct (w_err w) as [err|] eqn:He.
  - exfalso. unfold closeCommand in Hc. rewrite He in Hc. revert Hc.
    repeat match goal with |- context [match errorAs ?p ?e with _ => _ end] =>
      destruct (errorAs p e) as [[]|] end; try done;
      try (by destruct (convertErrDetailsToPayloads _ _));
      match goal with |- context [continueAsNewCommand w ?c] => by destruct (continueAsNewCommand w c) end.
  - split; [|done]. unfold closeCommand in Hc. rewrite He in Hc. simpl in Hc.
    by destruct (isWorkflowCompleted w).
Qed.

Lemma completeWorkflow_request task commands messages force w r w' :
  task_Query task = None →
  complete task commands messages force w = (Returned r, w') →
  ∃ d req, close w = Returned d ∧ r = taskCompletion req
    ∧ Commands req = commands ++ option_list d
    ∧ completed_Messages req = messages
    ∧ ForceCreateNewWorkflowTask req = match d with Some _ => false | None => force end
    ∧ completed_TaskToken req = TaskToken task.
Proof.
  intros Hq. unfold completeWorkflow. rewrite Hq. unfold mbind, go_bind, get, lift.
  destruct (close w) as [d|p]; [|done].
  repeat (match goal with |- context [match ?m ?s with (_, _) => _ end] => destruct (m s) as [[?|?] ?] end; [|done]).
  destruct (versioningBehaviorOf wth w) as [b|p]; [|done].
  unfold mret, go_ret. intros Hr. simplify_eq. eexists d, _. split_and!; try done.
  destruct d; simpl; [done|by rewrite app_nil_r].
Qed.

(** ** The current task *)

(** The part of [CompleteWorkflowTask] that answers. *)
Lemma answer_run w eh task wait cs h' r w' :
  alive w eh → getCommands true (helper (eh_env eh)) = (Returned cs, h') →
  (eventCommands ← callHandler (onEnv (onHelper (getCommands true)));
   _ ← modify (λ w, set_newCommands (newCommands w ++ eventCommands) w);
   messages ← callHandler (onUpdates (λ u, let '(ms, u') := takeOutgoingMessages u in (Returned ms, u')));
   _ ← modify (λ w, set_newMessages (newMessages w ++ messages) w);
   _ ← callHandler (onUpdates (modify ClearCompleted));
   w ← get;
   completeRequest ← complete task (newCommands w) (newMessages w) (negb wait);
   _ ← modify clearCurrentTask;
   mret (Some completeRequest)) w = (Returned r, w') →
  ∃ w1 answer w2,
    complete task (newCommands w ++ cs) (newMessages w ++ (oe_msg <$> eh_outbox eh)) (negb wait) w1
      = (Returned answer, w2)
    ∧ r = Some answer ∧ w' = clearCurrentTask w2
    ∧ isWorkflowCompleted w1 = isWorkflowCompleted w ∧ w_err w1 = w_err w ∧ w_result w1 = w_result w
    ∧ (∃ eh1, alive w1 eh1 ∧ eh_outbox eh1 = [] ∧ workflowInfo (eh_env eh1) = workflowInfo (eh_env eh))
    ∧ w_execution w1 = w_execution w.
Proof.
  intros [Hw Hc] Hcs. unfold mbind, go_bind.
  erewrite callHandler_quiet; [|done|unfold onEnv, onHelper; rewrite Hcs; reflexivity|done].
  unfold modify at 1. erewrite callHandler_quiet; [|done|reflexivity|done].
  unfold modify at 1. erewrite callHandler_quiet; [|done|reflexivity|done].
  cbn [get]. destruct (complete _ _ _ _ _) as [[answer|p] w2] eqn:Hr; [|done].
  unfold modify, mret, go_ret. intros ?. simplify_eq.
  eexists _, answer, w2. split_and!; [exact Hr|done..| |done].
  eexists. by split_and!.
Qed.

(** ** Starting local activities *)

(** [w] with the handler's pending tasks and the tunnel replaced. *)
Definition withLaTasks (pending : gmap string localActivityTask) (te : tunnelEnd)
    (w : workflowExecutionContextImpl) (eh : eventHandler) : workflowExecutionContextImpl :=
  set_w_eventHandler (Some (set_eh_env (set_pendingLaTasks pending (eh_env eh)) eh))
    (set_laTunnel (Some te) w).

Lemma startLaTasks_run ids : ∀ w eh te,
  alive w eh → laTunnel w = Some te → NoDup ids → list_to_set ids ⊆ dom (pendingLaTasks (eh_env eh)) →
  ∃ ts pending,
    startLaTasks now ids w =
      (Returned (if tunnel_stopped te then list_to_set ids else ∅),
       withLaTasks pending
         (if tunnel_stopped te then te else mkTunnelEnd false (tunnel_sent te ++ ts)) w eh)
    ∧ Forall2 (λ id t, ∃ t0, pendingLaTasks (eh_env eh) !! id = Some t0 ∧ t = lat_scheduled now t0) ids ts
    ∧ dom pending = dom (pendingLaTasks (eh_env eh)).
Proof.
  induction ids as [|id ids IH]; intros w eh te [Hw Hc] Ht Hnd Hsub.
  - exists [], (pendingLaTasks (eh_env eh)). split_and!; [|constructor|done].
    cbn. unfold mret, go_ret, withLaTasks. destruct w, eh as [e], te as [[] sent], e; simpl in *; subst;
      by rewrite ?app_nil_r.
  - apply NoDup_cons in Hnd as [Hid Hnd]. cbn [list_to_set] in Hsub.
    assert (is_Some (pendingLaTasks (eh_env eh) !! id)) as [t0 Ht0] by (apply elem_of_dom; set_solver).
    set (eh1 := set_eh_env (set_pendingLaTasks (<[id := lat_scheduled now t0]>
                  (pendingLaTasks (eh_env eh))) (eh_env eh)) eh).
    set (te1 := if tunnel_stopped te then te
                else mkTunnelEnd false (tunnel_sent te ++ [lat_scheduled now t0])).
    destruct (IH (set_laTunnel (Some te1) (set_w_eventHandler (Some eh1) w)) eh1 te1)
      as (ts & pending & Hrun & Hts & Hdom); [done..| |].
    { simpl. rewrite dom_insert. set_solver. }
    exists (lat_scheduled now t0 :: ts), pending. split_and!.
    + cbn [startLaTasks]. unfold mbind at 1, go_bind at 1.
      erewrite callHandler_quiet; [|exact Hw|unfold onEnv, mbind, go_bind, get; rewrite Ht0; reflexivity|done].
      unfold mbind at 1, go_bind at 1, sendTask at 1. simpl laTunnel. rewrite Ht.
      unfold te1 in *. destruct te as [[] sent]; cbn [tunnel_stopped tunnel_sent] in *.
      * match goal with |- (_ ≫= _) ?x = _ =>
          replace x with (set_laTunnel (Some (mkTunnelEnd true sent)) (set_w_eventHandler (Some eh1) w))
            by (destruct w; simpl in *; by subst) end.
        unfold mbind at 1, go_bind at 1. rewrite Hrun. reflexivity.
      * unfold mbind at 1, go_bind at 1.
        change (mkTunnelEnd false (sent ++ lat_scheduled now t0 :: ts))
          with (mkTunnelEnd false (sent ++ [lat_scheduled now t0] ++ ts)).
        rewrite app_assoc. fold eh1. rewrite Hrun. reflexivity.
    + constructor; [by exists t0|]. apply Forall2_same_length_lookup. split; [by eapply Forall2_length|].
      intros i x y Hx Hy. destruct (Forall2_lookup_lr _ _ _ _ _ _ Hts Hx Hy) as (t' & Ht' & ->).
      exists t'. split; [|done]. simpl in Ht'. rewrite lookup_insert_ne in Ht'; [done|].
      intros ->. apply Hid. by eapply list_elem_of_lookup_2.
    + rewrite Hdom. simpl. rewrite dom_insert_L. apply elem_of_dom_2 in Ht0. set_solver.
Qed.

(** The handler once its local activities were given to the tunnel. *)
Definition withStarted (u : gset string) (pending : gmap string localActivityTask) (eh : eventHandler)
    : eventHandler :=
  set_eh_env (set_unstartedLaTasks u (set_pendingLaTasks pending (eh_env eh))) eh.

Lemma startLocalActivities_run w eh te :
  alive w eh → laTunnel w = Some te →
  unstartedLaTasks (eh_env eh) ⊆ dom (pendingLaTasks (eh_env eh)) →
  ∃ ts pending,
    startLocalActivities now w =
      (Returned tt,
       set_w_eventHandler
         (Some (withStarted (if tunnel_stopped te then unstartedLaTasks (eh_env eh) else ∅) pending eh))
         (set_laTunnel
            (Some (if tunnel_stopped te then te else mkTunnelEnd false (tunnel_sent te ++ ts))) w))
    ∧ Forall2 (λ id t, ∃ t0, pendingLaTasks (eh_env eh) !! id = Some t0 ∧ t = lat_scheduled now t0)
        (elements (unstartedLaTasks (eh_env eh))) ts
    ∧ dom pending = dom (pendingLaTasks (eh_env eh)).
Proof.
  intros [Hw Hc] Ht Hsub. unfold startLocalActivities, mbind at 1, go_bind at 1.
  erewrite callHandler_quiet; [|exact Hw|reflexivity|done]. rewrite set_eh_env_id.
  replace (set_w_eventHandler (Some eh) w) with w by (destruct w; simpl in *; by subst).
  case_decide as He.
  - exists [], (pendingLaTasks (eh_env eh)). rewrite He. split_and!; [|done..].
    unfold mret, go_ret, withStarted.
    destruct w, eh as [e], te as [[] sent], e; simpl in *; subst; by rewrite ?app_nil_r.
  - destruct (startLaTasks_run (elements (unstartedLaTasks (eh_env eh))) w eh te)
      as (ts & pending & Hrun & Hts & Hdom); [done|done|apply NoDup_elements| |].
    { by rewrite list_to_set_elements_L. }
    unfold mbind, go_bind. rewrite Hrun. erewrite callHandler_quiet; [|reflexivity|reflexivity|done].
    exists ts, pending. split_and!; [|done..]. rewrite list_to_set_elements_L. reflexivity.
Qed.

Lemma closeCommand_ext w w1 :
  w_err w1 = w_err w → isWorkflowCompleted w1 = isWorkflowCompleted w → w_result w1 = w_result w →
  w_execution w1 = w_execution w → currentInfo w1 = currentInfo w → close w1 = close w.
Proof.
  intros He Hc Hr Hx Hi. unfold closeCommand, continueAsNewCommand. by rewrite He, Hc, Hr, Hx, Hi.
Qed.

(** What a completion of the task [task] by [w] says, with the new commands
    [cs] of the workflow. *)
Definition answers (w : workflowExecutionContextImpl) (eh : eventHandler) (task : pollTask) (wait : bool)
    (cs : list Command) (c : workflowTaskCompletion) : Prop :=
  match c with
  | taskCompletion req =>
      ∃ d, close w = Returned d
        ∧ (d = None ↔ isWorkflowCompleted w = false ∧ w_err w = None)
        ∧ Commands req = newCommands w ++ cs ++ option_list d
        ∧ completed_Messages req = newMessages w ++ (oe_msg <$> eh_outbox eh)
        ∧ ForceCreateNewWorkflowTask req = bool_decide (d = None) && negb wait
        ∧ completed_TaskToken req = TaskToken task
  | queryTaskCompletion _ => False
  end.

Lemma answer_answers w w0 eh eh0 task wait cs r w' h' :
  alive w0 eh0 → task_Query task = None →
  getCommands true (helper (eh_env eh0)) = (Returned cs, h') →
  w0 = set_w_eventHandler (Some eh0) (set_laTunnel (laTunnel w0) w) → w_eventHandler w = Some eh →
  eh_outbox eh0 = eh_outbox eh → workflowInfo (eh_env eh0) = workflowInfo (eh_env eh) →
  (eventCommands ← callHandler (onEnv (onHelper (getCommands true)));
   _ ← modify (λ w, set_newCommands (newCommands w ++ eventCommands) w);
   messages ← callHandler (onUpdates (λ u, let '(ms, u') := takeOutgoingMessages u in (Returned ms, u')));
   _ ← modify (λ w, set_newMessages (newMessages w ++ messages) w);
   _ ← callHandler (onUpdates (modify ClearCompleted));
   w ← get;
   completeRequest ← complete task (newCommands w) (newMessages w) (negb wait);
   _ ← modify clearCurrentTask;
   mret (Some completeRequest)) w0 = (Returned r, w') →
  ∃ c, r = Some c ∧ answers w eh task wait cs c ∧ currentWorkflowTask w' = None ∧ newCommands w' = []
    ∧ newMessages w' = [].
Proof.
  intros Hal Hq Hcs Hw0 Hw Hout Hinfo Hrun.
  destruct (answer_run w0 eh0 task wait cs h' r w' Hal Hcs Hrun)
    as (w1 & c & w2 & Hc & -> & -> & Hcomp & Herr & Hres & (eh1 & [Hw1 _] & _ & Hinfo1) & Hexec).
  destruct (completeWorkflow_request _ _ _ _ _ _ _ Hq Hc) as (d & req & Hd & -> & Hcmds & Hmsgs & Hf & Htok).
  exists (taskCompletion req). split_and!; [done| |done..].
  assert (close w1 = close w) as Hclose.
  { rewrite Hw0 in *. apply closeCommand_ext; [done..|]. unfold currentInfo. by rewrite Hw1, Hw, Hinfo1. }
  exists d. rewrite Hclose in Hd. rewrite Hw0 in Hcmds, Hmsgs. simpl in Hcmds, Hmsgs.
  rewrite Hout in Hmsgs. split_and!; [done| | |done| |done].
  - split; [intros ->; by apply closeCommand_none|]. intros [Hn He]. unfold closeCommand in Hd.
    rewrite He in Hd. simpl in Hd. rewrite Hn in Hd. by injection Hd as <-.
  - by rewrite Hcmds, app_assoc.
  - rewrite Hf. by destruct d.
Qed.

(** C10. A workflow task is completed with what the workflow produced. Unless
    it waits for local activities, the answer has the commands not sent yet in
    their order, closed by at most one more command, present exactly when the
    workflow completed or failed, and the messages of the outbox; it asks for a
    new task only when it neither waited nor closes; and nothing of it is left
    for the next task. If it waits, there is no answer, and every local
    activity not started yet was given to the tunnel once, unless the tunnel is
    stopped. *)
Theorem task_completion w eh task wait cs h' r w' :
  alive w eh → currentWorkflowTask w = Some task → task_Query task = None →
  unstartedLaTasks (eh_env eh) ⊆ dom (pendingLaTasks (eh_env eh)) →
  getCommands true (helper (eh_env eh)) = (Returned cs, h') →
  CompleteTask wait w = (Returned r, w') →
  let waits := wait && hasPendingLocalActivityWork w && bool_decide (is_Some (laTunnel w)) in
  match r with
  | Some c => waits = false ∧ answers w eh task wait cs c ∧ currentWorkflowTask w' = None
      ∧ newCommands w' = [] ∧ newMessages w' = []
  | None => waits = true ∧ currentWorkflowTask w' = Some task ∧
      ∃ te eh' ts, laTunnel w = Some te ∧ w_eventHandler w' = Some eh'
        ∧ (tunnel_stopped te = false →
           unstartedLaTasks (eh_env eh') = ∅ ∧ laTunnel w' = Some (mkTunnelEnd false (tunnel_sent te ++ ts)))
        ∧ Forall2 (λ id t, ∃ t0, pendingLaTasks (eh_env eh) !! id = Some t0 ∧ t = lat_scheduled now t0)
            (elements (unstartedLaTasks (eh_env eh))) ts
  end.
Proof.
  intros Hal Htask Hq Hsub Hcs Hrun. pose proof Hal as [Hw Hc].
  unfold CompleteWorkflowTask in Hrun. unfold mbind at 1, go_bind at 1, get at 1 in Hrun.
  rewrite Htask in Hrun.
  destruct (hasPendingLocalActivityWork w) eqn:Hp; cbn [andb] in *; rewrite ?andb_true_r, ?andb_false_r in *.
  - destruct (laTunnel w) as [te|] eqn:Ht; cbn in Hrun |- *.
    + destruct (startLocalActivities_run w eh te Hal Ht Hsub) as (ts & pending & Hstart & Hts & Hdom).
      unfold mbind at 1, go_bind at 1 in Hrun. rewrite Hstart in Hrun. destruct wait.
      * unfold mret, go_ret in Hrun. injection Hrun as <- <-. split_and!; [done|done|].
        eexists te, _, ts. split_and!; [done|reflexivity| |done].
        intros Hs. simpl. by rewrite Hs.
      * eapply (answer_answers w _ eh (withStarted _ pending eh) task false cs r w' h') in Hrun
          as (c & -> & Ha); done.
    + apply (answer_answers w w eh eh task wait cs r w' h') in Hrun as (c & -> & Ha); try done.
      { split; [by rewrite ?andb_false_r|done]. } destruct w; simpl in *; by subst.
  - apply (answer_answers w w eh eh task wait cs r w' h') in Hrun as (c & -> & Ha); try done.
    destruct w; simpl in *; by subst.
Qed.

(** ** The panic policy *)

Lemma completeTask_closed w eh task wait r w' :
  alive w eh → currentWorkflowTask w = Some task → task_Query task = None →
  isWorkflowCompleted w = true → CompleteTask wait w = (Returned r, w') →
  ∃ cs c, r = Some c ∧ answers w eh task wait cs c.
Proof.
  intros Hal Htask Hq Hdone Hrun. pose proof Hal as [Hw Hc].
  unfold CompleteWorkflowTask in Hrun. unfold mbind at 1, go_bind at 1, get at 1 in Hrun.
  rewrite Htask in Hrun.
  assert (hasPendingLocalActivityWork w = false) as Hp by (unfold hasPendingLocalActivityWork; by rewrite Hdone).
  rewrite Hp in Hrun. cbn [andb] in Hrun.
  destruct (getCommands true (helper (eh_env eh))) as [[cs|p] h'] eqn:Hcs.
  - exists cs. apply (answer_answers w w eh eh task wait cs r w' h') in Hrun as (c & -> & Ha & _); try done.
    + by exists c.
    + destruct w; simpl in *; by subst.
  - exfalso. revert Hrun. unfold mbind at 1 2, go_bind at 1 2, mret, go_ret.
    erewrite callHandler_quiet; [|exact Hw|unfold onEnv, onHelper; rewrite Hcs; reflexivity|done]. done.
Qed.

(** The command that fails the workflow with [err]. *)
Definition failCommand (err : goError) : Command :=
  mkCommand COMMAND_TYPE_FAIL_WORKFLOW_EXECUTION
    (Some (Command_FailWorkflowExecutionCommandAttributes (ErrorToFailure (Some err)))) None [].

Section Policy.
  Variable allowed : gmap sdkFlag bool.
  Variable HistoryEventToString : HistoryEvent → string.
  Variable CommandToString : Command → string.

  Local Abbreviation mismatched := (mismatchError HistoryEventToString CommandToString).

  Local Abbreviation finish :=
    (checkAndComplete wth now dataConverter ErrorToFailure errorText allowed HistoryEventToString CommandToString).

(** The comparison runs, and finds [m]. *)
Record mismatches (s : processing) (eh : eventHandler) (m : historyMismatchError) : Prop := {
  mm_alive : alive (p_context s) eh;
  mm_checked : isWorkflowCompleted (p_context s) = false ∨ shouldForceReplayCheck wth (p_context s) = true;
  mm_found : matchReplayWithHistory allowed (replayCommands s) (respondEvents s) (replayOutbox s)
               (Environment.flags (eh_env eh)) = Returned (Some m);
}.

Lemma checkReplay_mismatch s eh m :
  mismatches s eh m →
  checkReplay wth allowed HistoryEventToString CommandToString false s =
  (Returned (Some (mismatched m)), set_p_context (set_w_err (Some (mismatched m)) (p_context s)) s).
Proof.
  intros [[Hw Hc] Hch Hm]. unfold checkReplay, mbind at 1, go_bind at 1, get at 1. cbn [negb andb].
  replace (negb _ || _) with true by (destruct Hch as [->| ->]; by rewrite ?orb_true_r).
  unfold mbind, go_bind, inTask. erewrite callHandler_quiet; [|exact Hw|reflexivity|done].
  cbn. rewrite Hm. rewrite set_eh_env_id. destruct s as [w ? ? ? ? ? ? ? ?], w; simpl in *. by subst.
Qed.

(** The replay does not match the history, or the workflow code panicked. *)
Definition nondeterministic (s : processing) (eh : eventHandler) (err : goError) : Prop :=
  (∃ m, mismatches s eh m ∧ err = mismatched m)
  ∨ alive (p_context s) eh ∧ isWorkflowCompleted (p_context s) = true
    ∧ w_err (p_context s) = Some err ∧ isWorkflowPanicError err = true.

Lemma checkReplay_nondeterministic s eh err :
  nondeterministic s eh err →
  ∃ found w, checkReplay wth allowed HistoryEventToString CommandToString false s = (Returned found, set_p_context w s)
    ∧ (found = Some err ∨ found = None ∧ isWorkflowPanicError err = true)
    ∧ w_err w = Some err ∧ alive w eh ∧ currentWorkflowTask w = currentWorkflowTask (p_context s)
    ∧ errorsAs isCanceledError err = None ∧ errorsAs isContinueAsNewError err = None.
Proof.
  intros [(m & Hm & ->)|([Hw Hc] & Hdone & Herr & Hp)].
  - exists (Some (mismatched m)), (set_w_err (Some (mismatched m)) (p_context s)).
    rewrite (checkReplay_mismatch s eh m Hm). destruct Hm as [[Hw Hc] _ _]. by split_and!; try left.
  - exists None, (p_context s). unfold checkReplay, shouldForceReplayCheck, mbind, go_bind, get.
    rewrite Hdone, Herr, Hp. cbn [negb andb orb].
    split_and!; [by destruct s|by right|done|done|done|by destruct err..].
Qed.

End Policy.
End Facts.

(** ** Examples *)

Definition exampleTask : pollTask :=
  mkPollTask "token" (mkWorkflowExecution "w" "r") "type" 0 6 (Some exampleHistory) None ∅ [] "".

(** A workflow that completed, and has a task to answer. *)
Definition completedContext : workflowExecutionContextImpl :=
  context_completeWorkflow None None (set_currentWorkflowTask (Some exampleTask) exampleContext).

Definition exampleHandler : eventHandler := newWorkflowExecutionEventHandler exampleWorkflowInfo true 0.

Definition exampleConverter : DataConverter :=
  mkDataConverter (λ _, inl "none") (λ _, inr None) (λ _ _, inl "none") (λ _ _, inl "none").

Lemma task_completion_witness :
  let run := CompleteWorkflowTask (H := recorder) exampleTaskHandler 0 exampleConverter (λ _, None) (λ _, "")
               true completedContext in
  ∃ c, run.1 = Returned (Some c)
    ∧ answers exampleConverter (λ _, None) completedContext exampleHandler exampleTask true [] c.
Proof.
  intros run. assert (∃ c, run.1 = Returned (Some c)) as [c Hc] by (eexists; vm_compute; reflexivity).
  exists c. split; [exact Hc|].
  pose proof (task_completion (H := recorder) exampleTaskHandler 0 exampleConverter (λ _, None) (λ _, "")
    completedContext exampleHandler exampleTask true [] newCommandsHelper (Some c) run.2) as Ht.
  destruct Ht as (_ & Ha & _); [done|done|done|set_solver|vm_compute; reflexivity| |exact Ha].
  fold run. destruct run as [r w']. simpl in *. by subst.
Defined.

