(* ===== verification/TaskLoop.v ===== *)
(** * The loop over the tasks of a history ends.

    Each round of [ProcessEvents] ([TaskProcessing.v]) that goes on has read at
    least one more event of the history, so the rounds that
    [processing_measure] allows are enough, whatever the pages hold and
    whatever the event handler does. *)

From stdpp Require Import base list gmap strings.
From S2P Require Import Prelude Proto Floats Flags History HistoryTasks Replay Errors Environment EventHandlers TaskContext TaskCompletion TaskProcessing TaskFacts.
Open Scope Z_scope.

Section Reading.
  Variable decodeJSON : string → string + list HistoryEvent.
  Variable unmarshal : string → string + list HistoryEvent.
  Variable visitPayloads : list HistoryEvent → string + list HistoryEvent.
  Variable allowed : gmap sdkFlag bool.

  Local Abbreviation remaining := (events_left decodeJSON unmarshal visitPayloads).
  Local Abbreviation load := (loadMoreEvents decodeJSON unmarshal visitPayloads).
  Local Abbreviation loadU := (loadUntil decodeJSON unmarshal visitPayloads).
  Local Abbreviation order := (orderEvents decodeJSON unmarshal visitPayloads allowed).
  Local Abbreviation prepare := (prepareTask decodeJSON unmarshal visitPayloads allowed).
  Local Abbreviation task := (nextTask decodeJSON unmarshal visitPayloads allowed).

(** Reading ahead: no event is gained, the cursor stays and the window only
    grows. *)
Definition ahead (h h' : history) : Prop :=
  (remaining h' ≤ remaining h)%nat ∧ currentIndex h' = currentIndex h ∧ next h' = next h
  ∧ (length (loadedEvents h) ≤ length (loadedEvents h'))%nat.

#[local] Instance ahead_preorder : PreOrder ahead.
Proof.
  split; [by intros h|]. intros h1 h2 h3 (? & ? & ? & ?) (? & ? & ? & ?). unfold ahead.
  split_and!; [lia|congruence..|lia].
Qed.

Lemma load_ahead h u h' : load h = (Returned (inr u), h') → ahead h h'.
Proof.
  unfold loadMoreEvents, try_bind, getMoreEvents, mbind, go_bind, modify, mret, go_ret, panic.
  destruct (iterator h) as [it|] eqn:Hit; [|done].
  destruct (GetNextPage decodeJSON unmarshal visitPayloads it) as [[[err|[page|]]|p] it'] eqn:Hp; try done.
  intros [= _ <-]. unfold GetNextPage, try_bind, inner_GetNextPage, mbind, go_bind in Hp.
  destruct (answers it) as [|a rest] eqn:Ha; [done|].
  destruct (getHistoryPage decodeJSON unmarshal (maxEventID it) a) as [[err|[pg tok]]|p] eqn:Hg; try done.
  destruct pg as [pg|]; [|done]. destruct (visitPayloads pg) as [err|visited] eqn:Hv; [done|].
  unfold mret, go_ret in Hp. injection Hp as <- <-. unfold ahead, events_left. simpl. rewrite Hit, Ha.
  assert (answer_events decodeJSON unmarshal visitPayloads (maxEventID it) a = visited) as Hans
    by (unfold answer_events; by rewrite Hg, Hv).
  csimpl. rewrite Hans, !length_app. split_and!; try done; lia.
Qed.

Lemma loadU_ahead n i : ∀ h u h', loadU n i h = (Returned (inr u), h') → ahead h h'.
Proof.
  induction n as [|n IH]; intros h u h'; [done|]. cbn [loadUntil].
  unfold mbind at 1, go_bind at 1, get at 1. destruct (_ && _); [|by intros [= _ <-]].
  unfold try_bind, mbind, go_bind. destruct (load h) as [[[err|u1]|p] h1] eqn:Hl; try done.
  intros Hu. etrans; [by eapply load_ahead|by eapply IH].
Qed.

Lemma incIndex_remaining h :
  (currentIndex h < length (loadedEvents h))%nat → (S (remaining (incIndex h)) ≤ remaining h)%nat.
Proof. intros Hi. unfold events_left. simpl. destruct (iterator h); lia. Qed.

Lemma failed_ahead h fin h' :
  isNextWorkflowTaskFailed decodeJSON unmarshal visitPayloads allowed h = (Returned (inr fin), h') → ahead h h'.
Proof.
  unfold isNextWorkflowTaskFailed. unfold mbind at 1, go_bind at 1, get at 1.
  unfold try_bind, mbind, go_bind. destruct (loadU _ _ h) as [[[err|u]|p] h1] eqn:Hl; try done.
  unfold get, mret, go_ret, lift. intros Hf. apply loadU_ahead in Hl.
  destruct (loadedEvents h1 !! _); by simplify_eq.
Qed.

Lemma addEvent_length e t : length (events (addEvent e t)) = S (length (events t)).
Proof.
  unfold addEvent. repeat case_match; simpl; rewrite length_app; simpl; lia.
Qed.

(** A round that passes over an event. *)
Lemma pass_remaining n t h h1 t' h' :
  (∀ t h t' h', order n t h = (Returned (inr t'), h') →
     (length (events t') + remaining h' ≤ length (events t) + remaining h)%nat ∧ next h' = next h) →
  order n t (incIndex h1) = (Returned (inr t'), h') → ahead h h1 →
  (currentIndex h < length (loadedEvents h))%nat →
  (S (length (events t') + remaining h') ≤ length (events t) + remaining h)%nat ∧ next h' = next h.
Proof.
  intros IH Ho (Hr & Hi & Hn & Hl) Hlt. apply IH in Ho as [Ho Hnext].
  pose proof (incIndex_remaining h1 ltac:(lia)). split; [lia|]. by rewrite Hnext.
Qed.

Lemma order_remaining n : ∀ t h t' h',
  order n t h = (Returned (inr t'), h') →
  (length (events t') + remaining h' ≤ length (events t) + remaining h)%nat ∧ next h' = next h.
Proof.
  induction n as [|n IH]; intros t h t' h'; [done|]. cbn [orderEvents].
  unfold mbind at 1, go_bind at 1, get at 1. unfold try_bind at 1, mbind at 1, go_bind at 1.
  destruct (loadU _ _ h) as [[[err|u]|p] h1] eqn:Hl; try done.
  apply loadU_ahead in Hl as (Hr1 & Hi1 & Hn1 & Hl1).
  unfold mbind at 1, go_bind at 1, get at 1. case_decide as Hend.
  { destruct (verifyAllEventsProcessed h1); [done|]. intros [= <- <-]. split; [lia|done]. }
  destruct (loadedEvents h1 !! currentIndex h1) as [e|] eqn:He; [|done].
  apply lookup_lt_Some in He. case_decide; [done|].
  unfold mbind at 1, go_bind at 1, modify at 1.
  assert (Hwin : ∀ x y, ahead h1 (set_window (loadedEvents h1) (currentIndex h1) x y h1)) by by intros.
  assert (Hgo : ∀ t1 h2, order n t1 (incIndex h2) = (Returned (inr t'), h') → ahead h1 h2 →
    (length (events t1) ≤ S (length (events t)))%nat →
    (length (events t') + remaining h' ≤ length (events t) + remaining h)%nat ∧ next h' = next h).
  { intros t1 h2 Ho Ha Ht1. destruct (pass_remaining n t1 h1 h2 t' h' IH Ho Ha He) as [Hs Hnx].
    split; [lia|congruence]. }
  case_decide; [intros Ho; by eapply Hgo; [exact Ho|apply Hwin|lia]|].
  unfold mbind at 1, go_bind at 1, modify at 1.
  destruct (Event_EventType e);
    try (intros Ho; eapply Hgo; [exact Ho|apply Hwin|first [lia | by rewrite addEvent_length]]; fail).
  unfold try_bind, mbind, go_bind.
  destruct (isNextWorkflowTaskFailed _ _ _ _ _) as [[[err|fin]|p] h3] eqn:Hf; try done.
  apply failed_ahead in Hf. assert (ahead h1 h3) as Ha by (etrans; [apply Hwin|exact Hf]).
  destruct (isFailed fin); [intros Ho; by eapply Hgo; [exact Ho|done|lia]|].
  unfold modify, mret, go_ret. intros [= <- <-]. destruct Ha as (Hr & Hi & Hn & Hl).
  pose proof (incIndex_remaining (set_binaryChecksum (finished_binaryChecksum fin) h3)) as Hs.
  simpl in Hs |- *. specialize (Hs ltac:(lia)). rewrite length_app. simpl.
  split; [|congruence]. unfold events_left in *. simpl in *. lia.
Qed.

Lemma prepare_remaining h t h' :
  prepare h = (Returned (inr t), h') →
  (length (events t) + remaining h' ≤ remaining h)%nat ∧ next h' = next h.
Proof.
  unfold prepareTask. unfold mbind at 1, go_bind at 1, get at 1. destruct (_ && _).
  - destruct (verifyAllEventsProcessed h); [done|]. intros [= <- <-]. simpl. split; [lia|done].
  - unfold try_bind, mbind, go_bind. destruct (order _ _ h) as [[[err|t1]|p] h1] eqn:Ho; try done.
    unfold modify, mret, go_ret. intros [= <- <-]. apply order_remaining in Ho as [Ho Hn].
    split; [|done]. unfold events_left in *. simpl in *. rewrite length_drop. lia.
Qed.

(** What is left to hand out and to read. *)
Definition work (h : history) : nat := (length (next h) + remaining h)%nat.

Lemma task_work h t h' :
  task h = (Returned (inr t), h') → events t ≠ [] → (work h' < work h)%nat.
Proof.
  unfold nextTask. unfold mbind at 1, go_bind at 1, get at 1. unfold try_bind at 1, mbind at 1, go_bind at 1.
  assert (Hsnd : ∀ h1 t2 h2, next h1 ≠ [] → prepare h1 = (Returned (inr t2), h2) →
    (work (keepTask t2 h2) < work h1)%nat).
  { intros h1 t2 h2 Hne Hp. apply prepare_remaining in Hp as [Hp _]. unfold work. simpl.
    unfold events_left in *. simpl in *. destruct (next h1); [done|]. simpl. lia. }
  destruct (decide (next h = [])) as [Hn|Hn].
  - unfold try_bind at 1, mbind at 1, go_bind at 1.
    destruct (prepare h) as [[[err|t1]|p] h1] eqn:H1; try done.
    apply prepare_remaining in H1 as [H1 _]. unfold try_bind, mbind, go_bind, modify, get, mret, go_ret.
    assert ((work (keepTask t1 h1) ≤ work h)%nat) as Hw.
    { unfold work. simpl. rewrite Hn. unfold events_left in *. simpl in *. lia. }
    case_decide as Ht1; [intros [= <- <-] Hne; by destruct Hne|].
    destruct (prepare (keepTask t1 h1)) as [[[err|t2]|p] h2] eqn:H2; try done.
    intros Heq _. simplify_eq. pose proof (Hsnd _ _ _ Ht1 H2). lia.
  - unfold mret at 1, go_ret at 1. unfold try_bind, mbind, go_bind, modify, get, mret, go_ret.
    rewrite decide_False by done. destruct (prepare h) as [[[err|t2]|p] h2] eqn:H2; try done.
    intros [= <- <-] _. by apply Hsnd.
Qed.

(** ** The loop *)

Section Loop.
  Context `{WorkflowExecutionEventHandler}.
  Variable wth : workflowTaskHandlerImpl.
  Variable ppMgr : option (string → HistoryEvent → option goError).

  Local Abbreviation iterate := (iteration wth decodeJSON unmarshal visitPayloads allowed ppMgr).
  Local Abbreviation loop := (processEvents wth decodeJSON unmarshal visitPayloads allowed ppMgr).

(** [for { ... }] without a bound on its rounds. *)
Inductive loops (skip : bool) : processing → outcome (goError + unit) → processing → Prop :=
| loops_break s s' : iterate skip s = (Returned (inr Break), s') → loops skip s (Returned (inr tt)) s'
| loops_error s s' err : iterate skip s = (Returned (inl err), s') → loops skip s (Returned (inl err)) s'
| loops_panic s s' p : iterate skip s = (Panicked p, s') → loops skip s (Panicked p) s'
| loops_more s s1 r s' :
    iterate skip s = (Returned (inr Continue), s1) → loops skip s1 r s' → loops skip s r s'.

(** Everything but [nextTask] leaves the history alone. *)
Definition keepsHistory {A} (m : P A) : Prop := ∀ s, p_history (final m s) = p_history s.

Lemma keeps_seq {A B} (m : P A) (k : A → P B) :
  keepsHistory m → (∀ a, keepsHistory (k a)) → keepsHistory (m ≫= k).
Proof.
  intros Hm Hk s. specialize (Hm s). unfold final, mbind, go_bind in *.
  destruct (m s) as [[a|p] s1]; simpl in *; [|done]. specialize (Hk a s1). unfold final in Hk. congruence.
Qed.

Lemma keeps_try {E A B} (m : P (E + A)) (k : A → P (E + B)) :
  keepsHistory m → (∀ a, keepsHistory (k a)) → keepsHistory (try_bind m k).
Proof. intros Hm Hk. apply keeps_seq; [done|]. by intros [|]. Qed.

Lemma keeps_inTask {A} (m : Ctx A) : keepsHistory (inTask m).
Proof. intros s. unfold final, inTask. by destruct (m (p_context s)). Qed.

Lemma keeps_andThen m k : keepsHistory m → keepsHistory k → keepsHistory (andThen m k).
Proof. intros Hm Hk. apply keeps_try; [done|]. by intros [|]. Qed.

Lemma keeps_forEach {A} (f : A → P (goError + flow)) l :
  (∀ x, keepsHistory (f x)) → keepsHistory (forEach f l).
Proof. intros Hf. induction l; [done|]. by apply keeps_andThen. Qed.

Lemma keeps_callEvent r l e : keepsHistory (callEvent wth r l e).
Proof. apply keeps_seq; [apply keeps_inTask|done]. Qed.

Lemma keeps_callMessages r l id : keepsHistory (callMessages wth r l id).
Proof.
  apply keeps_seq; [done|intros s]. destruct (takeLTE id (msgs s)). apply keeps_seq; [done|intros _].
  apply keeps_forEach. intros m. apply keeps_seq; [apply keeps_inTask|done].
Qed.

Lemma keeps_processTask skip replayed t : keepsHistory (processTask wth ppMgr skip replayed t).
Proof.
  assert (Hmarkers : ∀ b ms, keepsHistory (processMarkers wth b ms)).
  { intros b ms. apply keeps_forEach. apply keeps_callEvent. }
  apply keeps_seq; [done|intros _]. do 2 (apply keeps_seq; [apply keeps_inTask|intros _]).
  repeat apply keeps_andThen; try apply Hmarkers.
  - apply keeps_forEach. intros [i e]. apply keeps_seq; [done|intros s].
    apply keeps_seq; [by destruct (_ && _)|intros _]. cbn [fst snd].
    destruct (isPreloadMarkerEvent e); [done|]. destruct (executeAnyPressurePoints _ _ _); [done|].
    apply keeps_andThen; [apply keeps_callMessages|].
    apply keeps_andThen; [apply keeps_callEvent|apply keeps_callMessages].
  - apply keeps_seq; [|done]. destruct replayed; [|done].
    do 2 (apply keeps_seq; [apply keeps_inTask|intros ?]). apply keeps_seq; [by destruct skip|intros _].
    apply keeps_inTask.
Qed.

Lemma keeps_processNext skip t : keepsHistory (processNext wth ppMgr skip t).
Proof.
  apply keeps_seq; [done|intros s]. destruct (isLastOfPartial _ _ _); [done|]. apply keeps_try.
  - generalize (match last (events t) with Some e => IsReplayEvent (p_history s) e | None => false end).
    intros [|]; unfold prepareMessages; [destruct (replaceAdmitted _ _); [done|]|].
    + apply keeps_seq; [done|intros _]. apply keeps_seq; [apply keeps_inTask|done].
    + apply keeps_seq; [done|intros _]. apply keeps_seq; [apply keeps_inTask|intros _].
      apply keeps_seq; [apply keeps_inTask|done].
  - intros _. apply keeps_seq; [apply keeps_inTask|intros _]. case_decide; [done|apply keeps_processTask].
Qed.

Lemma iterate_work skip s s' :
  iterate skip s = (Returned (inr Continue), s') → (work (p_history s') < work (p_history s))%nat.
Proof.
  unfold iteration, inHistory, mbind at 1, go_bind at 1.
  destruct (task (p_history s)) as [[[err|t]|p] h1] eqn:Ht; try done. intros Hn.
  pose proof (keeps_processNext skip t (set_p_history h1 s)) as Hk. unfold final in Hk. rewrite Hn in Hk.
  simpl in Hk. rewrite Hk. eapply task_work; [exact Ht|]. eapply next_continues. unfold result.
  by rewrite Hn.
Qed.

End Loop.
End Reading.
