(* ===== verification/WorkerCache.v ===== *)
(** * The sticky cache of the workers of a process
      ([src/internal/internal_worker_cache.go]).

    Workers share a cache of workflow contexts.  Each holds a lease; the last
    lease to be released detaches the cache and destroys what is in it, and a
    later worker starts a new one.  Contexts are pointers here; [Lru.v] is the
    cache itself. *)

From stdpp Require Import base list gmap strings.
From S2P Require Import Prelude Lru LruFacts.
Open Scope Z_scope.

(** A cache of context pointers. *)
Abbreviation workflowCache := (lru nat).

(** [WorkerCache] and the [workerCacheLease] of its owner: the cache it was
    made for, and whether the lease was released. *)
Record WorkerCache : Type := mkWorkerCache {
  wc_cache : nat;
  wc_maxSize : Z;
  wc_released : bool;
}.

(** The process: [sharedWorkerCache], all caches made so far, the workers'
    handles, and the contexts [clearWorkflowCache] called [onEviction] with.
    The other calls of [onEviction] are in the caches ([removed]). *)
Record cacheWorld : Type := mkCacheWorld {
  workerRefcount : Z;
  sharedCache : option nat;
  shared_maxSize : Z;
  caches : list workflowCache;
  workerCaches : list WorkerCache;
  bulkEvicted : list nat;
}.

Definition emptyWorld : cacheWorld := mkCacheWorld 0 None 0 [] [] [].

Definition errWorkerCacheReleased : string := "workflow cache handle is released".

(** The contexts among removed values. *)
Definition contextsOf (gone : list (option nat)) : list nat := omap id gone.

(** An operation on a cache. *)
Definition onCache {A} (g : nat) (m : Go workflowCache A) : Go cacheWorld A := λ s,
  match caches s !! g with
  | None => (Panicked nilDereference, s)
  | Some c =>
      let '(r, c') := m c in
      (r, mkCacheWorld (workerRefcount s) (sharedCache s) (shared_maxSize s)
            (<[g := c']> (caches s)) (workerCaches s) (bulkEvicted s))
  end.

(** [clearWorkflowCache] *)
Definition clearWorkflowCache (g : nat) : Go cacheWorld unit := λ s,
  match caches s !! g with
  | None => (Panicked nilDereference, s)
  | Some c =>
      let '(c', gone) := ClearWithCallback c in
      (Returned tt, mkCacheWorld (workerRefcount s) (sharedCache s) (shared_maxSize s)
         (<[g := c']> (caches s)) (workerCaches s)
         (bulkEvicted s ++ contextsOf gone))
  end.

(** The handle of the new worker is returned by its number. *)
Definition newWorkerCache (cacheSize : Z) : Go cacheWorld nat := λ s,
  let s1 :=
    if decide (workerRefcount s = 0)
    then mkCacheWorld 0 (Some (length (caches s))) cacheSize
           (caches s ++ [New (V := nat) (wrap64 (cacheSize - 1)) 0 false true])
           (workerCaches s) (bulkEvicted s)
    else s in
  match sharedCache s1 with
  | None => (Panicked nilDereference, s1)
  | Some g =>
      (Returned (length (workerCaches s1)),
       mkCacheWorld (wrap64 (workerRefcount s1 + 1)) (sharedCache s1) (shared_maxSize s1) (caches s1)
         (workerCaches s1 ++ [mkWorkerCache g (shared_maxSize s1) false]) (bulkEvicted s1))
  end.

Definition markReleased (wc : WorkerCache) : WorkerCache :=
  mkWorkerCache (wc_cache wc) (wc_maxSize wc) true.

(** [lease.release()]: once. *)
Definition release (i : nat) : Go cacheWorld unit := λ s,
  match workerCaches s !! i with
  | None => (Panicked nilDereference, s)
  | Some wc =>
      if wc_released wc then (Returned tt, s)
      else
        let n := wrap64 (workerRefcount s - 1) in
        let s1 := mkCacheWorld n (if decide (n = 0) then None else sharedCache s) (shared_maxSize s)
                    (caches s) (<[i := markReleased wc]> (workerCaches s)) (bulkEvicted s) in
        if decide (n = 0)
        then match sharedCache s with
             | Some g => clearWorkflowCache g s1
             | None => (Returned tt, s1)
             end
        else (Returned tt, s1)
  end.

Definition getHandle (i : nat) : Go cacheWorld WorkerCache := λ s,
  match workerCaches s !! i with
  | None => (Panicked nilDereference, s)
  | Some wc => (Returned wc, s)
  end.

Definition getWorkflowContext (now : Z) (i : nat) (runID : string) : Go cacheWorld (option nat) :=
  wc ← getHandle i;
  onCache (wc_cache wc) (Get now runID).

(** The context to use and the error. *)
Definition putWorkflowContext (now : Z) (i : nat) (runID : string) (wec : nat)
    : Go cacheWorld (option nat * option string) :=
  wc ← getHandle i;
  if wc_released wc then mret (Some wec, Some errWorkerCacheReleased)
  else
    r ← onCache (wc_cache wc) (PutIfNotExist now runID (Some wec));
    match r with
    | inl err => mret (None, Some err)
    | inr None => panic (runtimeError "interface conversion")
    | inr (Some existing) => mret (Some existing, None)
    end.

Definition removeWorkflowContext (i : nat) (runID : string) (expected : nat) : Go cacheWorld bool :=
  wc ← getHandle i;
  onCache (wc_cache wc) (DeleteIf runID (λ cached, bool_decide (cached = Some expected))).

(** [PurgeStickyWorkflowCache] *)
Definition PurgeStickyWorkflowCache : Go cacheWorld unit := λ s,
  match sharedCache s with
  | Some g => clearWorkflowCache g s
  | None => (Returned tt, s)
  end.

(** ** What workers do, in any order *)

Inductive cacheOp : Type :=
| doNewWorker (cacheSize : Z)
| doRelease (i : nat)
| doGet (now : Z) (i : nat) (runID : string)
| doPut (now : Z) (i : nat) (runID : string) (wec : nat)
| doRemove (i : nat) (runID : string) (expected : nat)
| doPurge.

Definition cacheStep (op : cacheOp) (s : cacheWorld) : cacheWorld :=
  match op with
  | doNewWorker size => final (newWorkerCache size) s
  | doRelease i => final (release i) s
  | doGet now i k => final (getWorkflowContext now i k) s
  | doPut now i k p => final (putWorkflowContext now i k p) s
  | doRemove i k p => final (removeWorkflowContext i k p) s
  | doPurge => final PurgeStickyWorkflowCache s
  end.

Definition runCache (ops : list cacheOp) : cacheWorld := foldl (λ s op, cacheStep op s) emptyWorld ops.

(** ** Contexts are kept or destroyed *)

Definition holding (c : workflowCache) : list nat := contextsOf (value <$> entries c).
Definition lost (c : workflowCache) : list nat := contextsOf (removed c).

Lemma elem_of_contexts p gone : p ∈ contextsOf gone ↔ Some p ∈ gone.
Proof. unfold contextsOf. rewrite list_elem_of_omap. naive_solver. Qed.

Lemma elem_of_holding p c : p ∈ holding c ↔ ∃ e, e ∈ entries c ∧ value e = Some p.
Proof. unfold holding. rewrite elem_of_contexts, list_elem_of_fmap. naive_solver. Qed.

(** The context [p] is in the cache, or its eviction was reported. *)
Definition accounted (p : nat) (c : workflowCache) : Prop := p ∈ holding c ∨ p ∈ lost c.

Record cache_wf (c : workflowCache) : Prop := {
  cw_wf : lru_wf c;
  cw_rm : rmFunc c = true;
  cw_some : ∀ e, e ∈ entries c → is_Some (value e);
}.

(** [p] is in the entries [es] or among the values [gone]. *)
Definition among (es : list (cacheEntry nat)) (gone : list (option nat)) (p : nat) : Prop :=
  (∃ e, e ∈ es ∧ value e = Some p) ∨ Some p ∈ gone.

Lemma implements_accounted es gone c c' p :
  cache_wf c → implements es gone c c' → (p ∈ holding c → among es gone p) →
  accounted p c → accounted p c'.
Proof.
  intros [_ Hrm _] [He _ _ Hr] Hp [Hc|Hc]; unfold accounted; rewrite elem_of_holding, He;
    unfold lost in *; rewrite elem_of_contexts in *; rewrite Hr, Hrm, elem_of_app; [|auto].
  destruct (Hp Hc); auto.
Qed.

Lemma implements_cache_wf es gone c c' :
  cache_wf c → implements es gone c c' → (∀ e, e ∈ es → is_Some (value e)) → cache_wf c'.
Proof. intros [_ Hrm _] [He Hwf (_ & _ & _ & Hr) _] Hs. split; [done|congruence|by rewrite He]. Qed.

(** With one entry per key, all entries but the one of [k] are others. *)
Lemma entry_or_other (c : workflowCache) k e x :
  lru_wf c → lookupEntry k (entries c) = Some e → x ∈ entries c → x = e ∨ x ∈ others k (entries c).
Proof.
  intros Hwf Hl Hx. apply lookupEntry_Some in Hl as [Hk He].
  destruct (decide (key x = k)) as [Hxk|Hxk]; [left|right; by apply list_elem_of_filter].
  eapply (NoDup_fmap_elem_inj key (entries c)); [|done..|congruence]. apply Hwf.
Qed.

Lemma toResult_snd {A} (f : A → lruResult) (r : outcome A * workflowCache) : (toResult f r).2 = r.2.
Proof. by destruct r as [[]]. Qed.

(** What a cache operation keeps: the cache is well formed and accounts for
    every context it accounted for. *)
Definition preserves (c c' : workflowCache) : Prop :=
  cache_wf c' ∧ (∀ p, accounted p c → accounted p c').

Lemma value_setExpiration now (c : workflowCache) e : value (setExpiration now c e) = value e.
Proof. unfold setExpiration. by case_decide. Qed.

Lemma value_pinEntry (c : workflowCache) e : value (pinEntry c e) = value e.
Proof. unfold pinEntry. by destruct (pin c). Qed.

Lemma elem_of_others_inv k e (es : list (cacheEntry nat)) : e ∈ others k es → e ∈ es.
Proof. by intros [_ ?]%list_elem_of_filter. Qed.

Lemma implements_preserves es gone c c' :
  cache_wf c → implements es gone c c' → (∀ e, e ∈ es → is_Some (value e)) →
  (∀ p, p ∈ holding c → among es gone p) → preserves c c'.
Proof.
  intros Hc Hi Hs Hp. split; [by eapply implements_cache_wf|]. intros p.
  eapply implements_accounted; [done|done|apply Hp].
Qed.

Lemma Get_preserves now k c : cache_wf c → preserves c (final (Get now k) c).
Proof.
  intros Hc. pose proof (runOp_implements c (opGet now k) (cw_wf c Hc)) as Hi. simpl in Hi.
  rewrite toResult_snd in Hi. pose proof (cw_some c Hc) as Hs.
  destruct (lookupEntry k (entries c)) as [e0|] eqn:Hl; [destruct (expired now (pinEntry c e0))|];
    destruct Hi as [_ Hi]; apply (implements_preserves _ _ _ _ Hc Hi); try done;
    try (intros p (x & Hx & Hv)%elem_of_holding).
  - intros e He%elem_of_others_inv. by apply Hs.
  - destruct (entry_or_other c k e0 x (cw_wf c Hc) Hl Hx) as [->|Ho]; [|left; by exists x].
    right. by rewrite list_elem_of_singleton, value_pinEntry.
  - intros e [->|He%elem_of_others_inv]%elem_of_cons; [|by apply Hs].
    rewrite value_pinEntry. apply Hs. by apply lookupEntry_Some in Hl as [_ ?].
  - left. destruct (entry_or_other c k e0 x (cw_wf c Hc) Hl Hx) as [->|Ho].
    + exists (pinEntry c e0). split; [by left|]. by rewrite value_pinEntry.
    + exists x. split; [by right|done].
  - left. by exists x.
Qed.

Lemma DeleteIf_preserves k predicate c : cache_wf c → preserves c (final (DeleteIf k predicate) c).
Proof.
  intros Hc. pose proof (runOp_implements c (opDeleteIf k predicate) (cw_wf c Hc)) as Hi. simpl in Hi.
  rewrite toResult_snd in Hi. pose proof (cw_some c Hc) as Hs.
  destruct (lookupEntry k (entries c)) as [e0|] eqn:Hl; [destruct (predicate (value e0))|];
    destruct Hi as [_ Hi]; apply (implements_preserves _ _ _ _ Hc Hi); try done;
    try (intros p (x & Hx & Hv)%elem_of_holding; first [by left; exists x|idtac]).
  - intros e He%elem_of_others_inv. by apply Hs.
  - destruct (entry_or_other c k e0 x (cw_wf c Hc) Hl Hx) as [->|Ho]; [|left; by exists x].
    right. by rewrite Hv, list_elem_of_singleton.
Qed.

Lemma elem_of_removelast_inv {A} (l : list A) x : x ∈ removelast l → x ∈ l.
Proof.
  destruct l as [|y l]; [done|]. destruct (exists_last (l := y :: l)) as (l' & z & ->); [done|].
  rewrite removelast_app by done. simpl. rewrite app_nil_r. set_solver.
Qed.

Lemma elem_of_removelast {A} (y : A) l x :
  x ∈ y :: l → x ∈ removelast (y :: l) ∨ x = default y (last l).
Proof.
  destruct (exists_last (l := y :: l)) as (l' & z & Hl); [done|].
  assert (default y (last l) = z) as ->.
  { assert (last (y :: l) = Some z) as Hz by by rewrite Hl, last_snoc.
    rewrite last_cons in Hz. by destruct (last l); simplify_eq/=. }
  rewrite Hl, removelast_app_one, elem_of_app, list_elem_of_singleton. done.
Qed.

(** The entries and removals of an insertion account for what was there and,
    unless it fails, for the context it returns. *)
Lemma specPut_accounts now k p0 c r es gone :
  cache_wf c → specPut c now k (Some p0) false (entries c) = (r, es, gone) →
  (∀ e, e ∈ es → is_Some (value e)) ∧ (∀ p, p ∈ holding c → among es gone p) ∧
  match r with inl _ => True | inr None => among es gone p0 | inr (Some x) => among es gone x end.
Proof.
  intros Hc. unfold specPut. set (entry := setExpiration now c (pinEntry c (mkCacheEntry k None (Some p0) 0))).
  assert (Hentry : value entry = Some p0) by (unfold entry; by rewrite value_setExpiration, value_pinEntry).
  pose proof (cw_some c Hc) as Hs.
  assert (Hall : ∀ e, e ∈ entry :: entries c → is_Some (value e)).
  { intros e [->|He]%elem_of_cons; [by eexists|by apply Hs]. }
  destruct (lookupEntry k (entries c)) as [e0|] eqn:Hl.
  - intros [= <- <- <-]. set (e1 := pinEntry c (setExpiration now c e0)).
    assert (Hv1 : value e1 = value e0) by (unfold e1; by rewrite value_pinEntry, value_setExpiration).
    assert (Hin : ∀ p, value e0 = Some p → among (e1 :: others k (entries c)) [] p).
    { intros p Hp. left. exists e1. split; [by left|congruence]. }
    destruct (Hs e0) as [x0 Hx0]; [by apply lookupEntry_Some in Hl as [_ ?]|].
    rewrite Hx0. split_and!; [| |by apply Hin].
    + intros e [->|He%elem_of_others_inv]%elem_of_cons; [by eexists; rewrite Hv1|by apply Hs].
    + intros p (x & Hx & Hv)%elem_of_holding.
      destruct (entry_or_other c k e0 x (cw_wf c Hc) Hl Hx) as [->|Ho]; [by apply Hin|].
      left. exists x. split; [by right|done].
  - case_decide; [case_decide|]; intros [= <- <- <-].
    + split_and!; [done| |done]. intros p (x & Hx & Hv)%elem_of_holding. left. by exists x.
    + assert (Hin : ∀ x p, x ∈ entry :: entries c → value x = Some p →
        among (removelast (entry :: entries c)) [value (default entry (last (entries c)))] p).
      { intros x p [Hx| ->]%elem_of_removelast Hv; [left; by exists x|]. right.
        by rewrite Hv, list_elem_of_singleton. }
      split_and!; [|intros p (x & Hx & Hv)%elem_of_holding; eapply Hin; [by right|done]|by eapply Hin; [left|]].
      intros e He. apply Hall. by apply (elem_of_removelast_inv (entry :: entries c)).
    + split_and!; [done| |left; exists entry; split; [by left|done]].
      intros p (x & Hx & Hv)%elem_of_holding. left. exists x. split; [by right|done].
Qed.

Lemma PutIfNotExist_preserves now k p0 c :
  cache_wf c →
  preserves c (final (PutIfNotExist now k (Some p0)) c) ∧
  (∀ x, result (PutIfNotExist now k (Some p0)) c = Returned (inr (Some x)) →
     accounted x (final (PutIfNotExist now k (Some p0)) c)).
Proof.
  intros Hc. pose proof (putInternal_implements c now k (Some p0) false (cw_wf c Hc)) as Hi.
  destruct (specPut c now k (Some p0) false (entries c)) as [[r es] gone] eqn:Hsp.
  destruct (specPut_accounts _ _ _ _ _ _ _ Hc Hsp) as (Hs & Hp & Hr).
  destruct Hi as (c' & Hrun & Hi). unfold final, result, PutIfNotExist, mbind, go_bind. rewrite Hrun.
  assert (Hacc : ∀ x, among es gone x → accounted x c').
  { intros x Hx. unfold accounted, lost. rewrite elem_of_holding, elem_of_contexts.
    destruct Hi as [-> _ _ ->]. rewrite (cw_rm c Hc), elem_of_app. destruct Hx; auto. }
  assert (preserves c c') by (by eapply implements_preserves).
  destruct r as [err|[x|]]; simpl; (split; [done|]); intros y [= <-]; by apply Hacc.
Qed.

Lemma ClearWithCallback_empties (c : workflowCache) :
  cache_wf c →
  let '(c', gone) := ClearWithCallback c in
  cache_wf c' ∧ entries c' = [] ∧ (∀ p, accounted p c → accounted p c' ∨ p ∈ contextsOf gone).
Proof.
  intros [Hwf Hrm Hs]. unfold ClearWithCallback.
  pose proof (clear_fold (map_to_list (byKey c)) c [] Hwf) as H.
  destruct (foldl _ _ _) as [c' gone]. destruct H as (Ha & Hm & Hg & (H1 & H2 & H3 & H4) & Hr).
  { rewrite (wf_index c Hwf). unfold index. apply map_to_list_to_map.
    rewrite index_keys. apply (wf_lists c Hwf). }
  assert (entries c' = []) as He by (unfold entries; by rewrite Ha).
  split_and!; [split| |]; [|congruence| |done|].
  - split; rewrite ?Ha, ?Hm; [split; constructor|done|]. by intros ? ?%elem_of_nil.
  - rewrite He. by intros e ?%elem_of_nil.
  - intros p [Hp|Hp]; unfold accounted, lost; [|left; right; by rewrite Hr].
    right. apply elem_of_contexts. rewrite Hg. by apply elem_of_contexts.
Qed.

(** ** The invariant of the process *)

Definition unreleased (s : cacheWorld) : list WorkerCache :=
  filter (λ wc, wc_released wc = false) (workerCaches s).

(** The contexts [onEviction] was called for. *)
Definition evicted (s : cacheWorld) : list nat := (caches s ≫= lost) ++ bulkEvicted s.

Definition known (p : nat) (s : cacheWorld) : Prop :=
  (∃ g c, caches s !! g = Some c ∧ accounted p c) ∨ p ∈ bulkEvicted s.

Record world_wf (s : cacheWorld) : Prop := {
  ww_caches : ∀ g c, caches s !! g = Some c → cache_wf c;
  ww_count : workerRefcount s = Z.of_nat (length (unreleased s));
  ww_shared : match sharedCache s with
              | Some g => is_Some (caches s !! g) ∧ unreleased s ≠ []
              | None => unreleased s = []
              end;
  ww_owners : ∀ i wc, workerCaches s !! i = Some wc → wc_released wc = false →
                sharedCache s = Some (wc_cache wc);
  ww_detached : ∀ g c, caches s !! g = Some c → sharedCache s ≠ Some g → entries c = [];
}.

Definition progresses (s s' : cacheWorld) : Prop := world_wf s' ∧ (∀ p, known p s → known p s').

Lemma progresses_refl s : world_wf s → progresses s s.
Proof. by split. Qed.

(** Exchanging a cache for one that accounts for its contexts, together with
    the contexts that were evicted meanwhile. *)
Lemma progresses_cache s g c c' gone :
  world_wf s → caches s !! g = Some c → cache_wf c' →
  (sharedCache s ≠ Some g → entries c' = []) →
  (∀ p, accounted p c → accounted p c' ∨ p ∈ gone) →
  progresses s (mkCacheWorld (workerRefcount s) (sharedCache s) (shared_maxSize s)
                  (<[g := c']> (caches s)) (workerCaches s) (bulkEvicted s ++ gone)).
Proof.
  intros [Hc Hn Hs Ho Hd] Hg Hwf He Hp.
  pose proof (lookup_lt_Some _ _ _ Hg) as Hlt. split; [split; simpl; try done|].
  - intros g' d [(-> & <- & _)|[_ Hd']]%list_lookup_insert_Some; [done|]. by eapply Hc.
  - destruct (sharedCache s) as [h|]; [|done]. destruct Hs as [Hs ?]. split; [|done].
    apply lookup_lt_is_Some. rewrite length_insert. by apply lookup_lt_is_Some.
  - intros g' d [(-> & <- & _)|[_ Hd']]%list_lookup_insert_Some; [done|]. by apply Hd.
  - intros p [(g' & d & Hl & Ha)|Hb]; [|right; simpl; set_solver]. unfold known. simpl.
    destruct (decide (g' = g)) as [->|Hne].
    + rewrite Hg in Hl. injection Hl as <-. destruct (Hp p Ha) as [?|?]; [left|right; set_solver].
      exists g, c'. by rewrite list_lookup_insert_eq.
    + left. exists g', d. by rewrite list_lookup_insert_ne.
Qed.

Lemma onCache_progresses {A} s g (m : Go workflowCache A) :
  world_wf s → 
  (∀ c, cache_wf c → preserves c (final m c)) →
  (sharedCache s ≠ Some g → ∀ c, cache_wf c → entries c = [] → entries (final m c) = []) →
  progresses s (final (onCache g m) s).
Proof.
  intros Hs Hm He. unfold final at 1, onCache. destruct (caches s !! g) as [c|] eqn:Hg; [|by apply progresses_refl].
  pose proof (ww_caches s Hs g c Hg) as Hc. specialize (Hm c Hc) as [Hwf Hp]. specialize (λ h, He h c Hc).
  unfold final in *. destruct (m c) as [r c'].
  rewrite <-(app_nil_r (bulkEvicted s)). eapply progresses_cache; try done; [|auto].
  intros Hne. apply He; [done|]. by apply (ww_detached s Hs g).
Qed.

Lemma Get_empty now k c : cache_wf c → entries c = [] → entries (final (Get now k) c) = [].
Proof.
  intros Hc He. pose proof (runOp_implements c (opGet now k) (cw_wf c Hc)) as Hi. simpl in Hi.
  rewrite toResult_snd, He in Hi. by destruct Hi as [_ [? _ _ _]].
Qed.

Lemma DeleteIf_empty k predicate c :
  cache_wf c → entries c = [] → entries (final (DeleteIf k predicate) c) = [].
Proof.
  intros Hc He. pose proof (runOp_implements c (opDeleteIf k predicate) (cw_wf c Hc)) as Hi. simpl in Hi.
  rewrite toResult_snd, He in Hi. by destruct Hi as [_ [? _ _ _]].
Qed.

Lemma clear_progresses s g : world_wf s → progresses s (final (clearWorkflowCache g) s).
Proof.
  intros Hs. unfold final, clearWorkflowCache.
  destruct (caches s !! g) as [c|] eqn:Hg; [|by apply progresses_refl].
  pose proof (ClearWithCallback_empties c (ww_caches s Hs g c Hg)) as H.
  destruct (ClearWithCallback c) as [c' gone]. destruct H as (Hwf & He & Hp). simpl.
  by eapply progresses_cache.
Qed.

Lemma unreleased_mark l i wc :
  l !! i = Some wc → wc_released wc = false →
  length (filter (λ w, wc_released w = false) l) =
  S (length (filter (λ w, wc_released w = false) (<[i := markReleased wc]> l))).
Proof.
  intros Hl Hr. rewrite insert_take_drop by by eapply lookup_lt_Some.
  rewrite <-(take_drop_middle l i wc Hl) at 1. rewrite !filter_app, !length_app.
  rewrite filter_cons_True, filter_cons_False by done. simpl. lia.
Qed.

(** The world with the handle released and the cache shared from now on. *)
Definition marked (i : nat) (wc : WorkerCache) (shared : option nat) (s : cacheWorld) : cacheWorld :=
  mkCacheWorld (workerRefcount s - 1) shared (shared_maxSize s) (caches s)
    (<[i := markReleased wc]> (workerCaches s)) (bulkEvicted s).

Lemma marked_progresses s i wc shared :
  world_wf s → workerCaches s !! i = Some wc → wc_released wc = false →
  (if decide (workerRefcount s = 1)
   then shared = None ∧ (∀ g c, sharedCache s = Some g → caches s !! g = Some c → entries c = [])
   else shared = sharedCache s) →
  progresses s (marked i wc shared s).
Proof.
  intros [Hc Hn Hs Ho Hd] Hi Hr Hsh. pose proof (unreleased_mark _ _ _ Hi Hr) as Hlen.
  fold (unreleased s) in Hlen. split; [|done]. split; simpl; [done|unfold unreleased; simpl; lia|..].
  - unfold unreleased in *. simpl. case_decide.
    + destruct Hsh as [-> _]. apply nil_length_inv. lia.
    + rewrite Hsh, (Ho _ _ Hi Hr) in *. split; [apply Hs|]. intros Hnil. rewrite Hnil in Hlen. simpl in Hlen. lia.
  - intros j w [(<- & <- & _)|[Hne Hj]]%list_lookup_insert_Some Hw; [done|].
    case_decide as H1; [|subst; by apply (Ho j)]. exfalso.
    assert (w ∈ filter (λ w, wc_released w = false) (<[i := markReleased wc]> (workerCaches s))) as Hin.
    { apply list_elem_of_filter. split; [done|]. apply list_elem_of_lookup. exists j.
      by rewrite list_lookup_insert_ne. }
    destruct (filter _ (<[_ := _]> _)); [by apply elem_of_nil in Hin|simpl in Hlen; lia].
  - intros g c Hg Hne. destruct (decide (sharedCache s = Some g)) as [He|He]; [|by apply (Hd g)].
    case_decide; [destruct Hsh as [_ Hsh]; by apply (Hsh g)|congruence].
Qed.

Lemma progresses_trans s s' s'' : progresses s s' → progresses s' s'' → progresses s s''.
Proof. intros [_ H1] [H2 H3]. split; [done|]. auto. Qed.

(** The detached cache is cleared after the handle is marked; nothing but the
    order distinguishes that from clearing first. *)
Lemma release_last s i wc g c :
  workerCaches s !! i = Some wc → wc_released wc = false → workerRefcount s = 1 →
  sharedCache s = Some g → caches s !! g = Some c →
  final (release i) s = marked i wc None (final (clearWorkflowCache g) s).
Proof.
  intros Hi Hr Hn Hs Hg. unfold final, release, clearWorkflowCache. rewrite Hi, Hr, Hn, Hs. simpl.
  rewrite Hg. by destruct (ClearWithCallback c).
Qed.

Lemma release_progresses s i :
  world_wf s → (workerRefcount s < 2 ^ 63)%Z → progresses s (final (release i) s).
Proof.
  intros Hwf Hb. destruct (workerCaches s !! i) as [wc|] eqn:Hi;
    [|unfold final, release; rewrite Hi; by apply progresses_refl].
  destruct (wc_released wc) eqn:Hr; [unfold final, release; rewrite Hi, Hr; by apply progresses_refl|].
  pose proof (ww_owners s Hwf _ _ Hi Hr) as Hs. pose proof (ww_shared s Hwf) as Hsh. rewrite Hs in Hsh.
  destruct Hsh as [[c Hg] _]. pose proof (unreleased_mark _ _ _ Hi Hr) as Hlen. fold (unreleased s) in Hlen.
  pose proof (ww_count s Hwf) as Hn.
  destruct (decide (workerRefcount s = 1)) as [H1|H1].
  - rewrite (release_last _ _ _ _ _ Hi Hr H1 Hs Hg). pose proof (clear_progresses s (wc_cache wc) Hwf) as Hp.
    eapply progresses_trans; [exact Hp|].
    pose proof (ClearWithCallback_empties c (ww_caches s Hwf _ _ Hg)) as He.
    unfold final, clearWorkflowCache in *. rewrite Hg in *.
    destruct (ClearWithCallback c) as [c' gone]. destruct He as (_ & He & _).
    apply marked_progresses; simpl in *; [apply Hp|done|done|]. rewrite decide_True by done. split; [done|].
    intros g d Hgs Hd. rewrite Hs in Hgs. injection Hgs as <-.
    rewrite list_lookup_insert_eq in Hd by by eapply lookup_lt_Some. by injection Hd as <-.
  - assert (final (release i) s = marked i wc (sharedCache s) s) as ->.
    { unfold final, release. rewrite Hi, Hr. rewrite wrap64_id by (unfold int64_range; lia).
      by rewrite !decide_False by lia. }
    apply marked_progresses; try done. by rewrite decide_False.
Qed.

Lemma New_cache_wf size : cache_wf (New (V := nat) size 0 false true).
Proof.
  split; [|done|by intros e ?%elem_of_nil].
  split; simpl; [split; constructor|done|by intros ? ?%elem_of_nil].
Qed.

(** The world with a new cache, which nobody shares yet. *)
Lemma newCache_known s c d g n m p :
  known p s → known p (mkCacheWorld n g m (caches s ++ [c]) d (bulkEvicted s)).
Proof.
  intros [(g' & c' & Hl & Ha)|Hb]; [left|by right]. exists g', c'. split; [|done].
  simpl. by apply lookup_app_l_Some.
Qed.

Lemma newWorkerCache_progresses s size :
  world_wf s → (workerRefcount s + 1 < 2 ^ 63)%Z → progresses s (final (newWorkerCache size) s).
Proof.
  intros [Hc Hn Hs Ho Hd] Hb. unfold final, newWorkerCache.
  assert (∀ wc, length (unreleased s) + 1 =
    length (filter (λ w, wc_released w = false) (workerCaches s ++ [mkWorkerCache wc size false])))%nat as Hlen.
  { intros wc. rewrite filter_app, length_app. done. }
  destruct (decide (workerRefcount s = 0)) as [H0|H0]; simpl.
  - assert (unreleased s = []) as Hnil by (apply nil_length_inv; lia).
    destruct (sharedCache s) as [g|] eqn:Hsh; [by destruct Hs|]. split; [split; simpl|].
    + intros g c [Hg|[_ Hg]]%lookup_app_Some; [by eapply Hc|].
      apply list_lookup_singleton_Some in Hg as [_ <-]. apply New_cache_wf.
    + unfold unreleased. simpl. by rewrite <-Hlen, Hnil.
    + split; [rewrite lookup_app_r, Nat.sub_diag by done; by eexists|].
      unfold unreleased. simpl. intros H%(f_equal length). rewrite <-Hlen in H. simpl in H. lia.
    + intros i wc [Hi|[_ Hi]]%lookup_app_Some Hr; [|by apply list_lookup_singleton_Some in Hi as [_ <-]].
      by pose proof (Ho i wc Hi Hr).
    + intros g c [Hg|[Hge Hg]]%lookup_app_Some Hne; [by apply (Hd g)|].
      by apply list_lookup_singleton_Some in Hg as [_ <-].
    + intros p. apply newCache_known.
  - destruct (sharedCache s) as [g|] eqn:Hsh; [|rewrite Hs in Hn; done]. split; [|done]. split; simpl; try done.
    + unfold unreleased. simpl. rewrite filter_app, length_app. simpl.
      fold (unreleased s). rewrite wrap64_id by (unfold int64_range; lia). lia.
    + split; [apply Hs|]. unfold unreleased. simpl. rewrite filter_app. by destruct (filter _ _).
    + intros i wc [Hi|[_ Hi]]%lookup_app_Some Hr; [by apply (Ho i)|].
      by apply list_lookup_singleton_Some in Hi as [_ <-].
Qed.

Lemma handle_progresses {A} (k : WorkerCache → Go cacheWorld A) s i :
  world_wf s →
  (∀ wc, workerCaches s !! i = Some wc → progresses s (final (k wc) s)) →
  progresses s (final (wc ← getHandle i; k wc) s).
Proof.
  intros Hs Hk. unfold final, getHandle, mbind, go_bind.
  destruct (workerCaches s !! i) as [wc|]; [by apply Hk|by apply progresses_refl].
Qed.

Lemma put_final now i k p s wc :
  workerCaches s !! i = Some wc →
  final (putWorkflowContext now i k p) s =
  if wc_released wc then s else final (onCache (wc_cache wc) (PutIfNotExist now k (Some p))) s.
Proof.
  intros Hi. unfold final, putWorkflowContext, getHandle, mbind, go_bind. rewrite Hi.
  destruct (wc_released wc); [done|]. by destruct (onCache _ _ _) as [[[|[]]|] ].
Qed.

Lemma get_progresses s now i k : world_wf s → progresses s (final (getWorkflowContext now i k) s).
Proof.
  intros Hs. apply handle_progresses; [done|]. intros wc _.
  apply onCache_progresses; auto using Get_preserves, Get_empty.
Qed.

Lemma remove_progresses s i k p : world_wf s → progresses s (final (removeWorkflowContext i k p) s).
Proof.
  intros Hs. apply handle_progresses; [done|]. intros wc _.
  apply onCache_progresses; auto using DeleteIf_preserves, DeleteIf_empty.
Qed.

Lemma put_progresses s now i k p : world_wf s → progresses s (final (putWorkflowContext now i k p) s).
Proof.
  intros Hs. destruct (workerCaches s !! i) as [wc|] eqn:Hi.
  - rewrite (put_final _ _ _ _ _ _ Hi). destruct (wc_released wc) eqn:Hr; [by apply progresses_refl|].
    apply onCache_progresses; [done|intros; by apply PutIfNotExist_preserves|].
    intros Hne. destruct Hne. by apply (ww_owners s Hs i).
  - apply handle_progresses; [done|]. by intros wc ?; simplify_eq.
Qed.

Lemma cacheStep_progresses s op :
  world_wf s → (workerRefcount s + 1 < 2 ^ 63)%Z → progresses s (cacheStep op s).
Proof.
  intros Hs Hb. destruct op as [size|i|now i k|now i k p|i k p|]; simpl.
  - by apply newWorkerCache_progresses.
  - apply release_progresses; [done|lia].
  - by apply get_progresses.
  - by apply put_progresses.
  - by apply remove_progresses.
  - unfold PurgeStickyWorkflowCache, final. destruct (sharedCache s) as [g|]; [|by apply progresses_refl].
    by apply clear_progresses.
Qed.

Lemma onCache_handles {A} g (m : Go workflowCache A) s :
  workerCaches (final (onCache g m) s) = workerCaches s.
Proof. unfold final, onCache. destruct (caches s !! g); [|done]. by destruct (m _). Qed.

Lemma clear_handles g s : workerCaches (final (clearWorkflowCache g) s) = workerCaches s.
Proof. unfold final, clearWorkflowCache. destruct (caches s !! g); [|done]. by destruct (ClearWithCallback _). Qed.

(** A step makes at most one handle. *)
Lemma cacheStep_handles s op : (length (workerCaches (cacheStep op s)) ≤ S (length (workerCaches s)))%nat.
Proof.
  destruct op as [size|i|now i k|now i k p|i k p|]; simpl.
  - unfold final, newWorkerCache. destruct (decide _); simpl; [rewrite length_app; simpl; lia|].
    destruct (sharedCache s); simpl; rewrite ?length_app; simpl; lia.
  - unfold final, release. destruct (workerCaches s !! i) as [wc|]; [|simpl; lia].
    destruct (wc_released wc); [simpl; lia|]. destruct (decide _); [destruct (sharedCache s)|]; simpl;
      try (rewrite length_insert; lia).
    match goal with |- context [(clearWorkflowCache ?g ?s').2] => pose proof (clear_handles g s') as Hh end.
    unfold final in Hh. rewrite Hh. simpl. rewrite length_insert. lia.
  - unfold final, getWorkflowContext, getHandle, mbind, go_bind.
    destruct (workerCaches s !! i) as [wc|]; [|simpl; lia].
    pose proof (onCache_handles (wc_cache wc) (Get now k) s) as Hh. unfold final in Hh. rewrite Hh. lia.
  - destruct (workerCaches s !! i) as [wc|] eqn:Hi.
    + rewrite (put_final _ _ _ _ _ _ Hi). destruct (wc_released wc); [lia|]. rewrite onCache_handles. lia.
    + unfold final, putWorkflowContext, getHandle, mbind, go_bind. rewrite Hi. simpl. lia.
  - unfold final, removeWorkflowContext, getHandle, mbind, go_bind.
    destruct (workerCaches s !! i) as [wc|]; [|simpl; lia].
    match goal with |- context [onCache ?g ?m s] => pose proof (onCache_handles g m s) as Hh end.
    unfold final in Hh. rewrite Hh. lia.
  - unfold final, PurgeStickyWorkflowCache. destruct (sharedCache s) as [g|]; [|simpl; lia].
    pose proof (clear_handles g s) as Hh. unfold final in Hh. rewrite Hh. lia.
Qed.

Lemma runCache_snoc ops op : runCache (ops ++ [op]) = cacheStep op (runCache ops).
Proof. unfold runCache. by rewrite foldl_app. Qed.

Lemma unreleased_length s : (length (unreleased s) ≤ length (workerCaches s))%nat.
Proof. unfold unreleased. apply length_filter. Qed.

Lemma emptyWorld_wf : world_wf emptyWorld.
Proof. split; simpl; done. Qed.

Lemma runCache_wf ops :
  Z.of_nat (length ops) < 2 ^ 63 →
  world_wf (runCache ops) ∧ (length (workerCaches (runCache ops)) ≤ length ops)%nat.
Proof.
  induction ops as [|op ops IH] using rev_ind; intros Hlen; [split; [apply emptyWorld_wf|done]|].
  rewrite length_app in *. simpl in *. destruct IH as [Hwf Hh]; [lia|]. rewrite runCache_snoc.
  pose proof (cacheStep_handles (runCache ops) op). split; [|lia].
  apply cacheStep_progresses; [done|]. rewrite (ww_count _ Hwf). pose proof (unreleased_length (runCache ops)). lia.
Qed.

Lemma runCache_known pre post p :
  Z.of_nat (length (pre ++ post)) < 2 ^ 63 → known p (runCache pre) → known p (runCache (pre ++ post)).
Proof.
  induction post as [|op post IH] using rev_ind; intros Hlen Hp; [by rewrite app_nil_r|].
  rewrite (app_assoc pre post [op]) in *. rewrite length_app in Hlen. simpl in Hlen. rewrite runCache_snoc.
  destruct (runCache_wf (pre ++ post)) as [Hwf Hh]; [lia|].
  apply cacheStep_progresses; [done| |apply IH; [lia|done]].
  rewrite (ww_count _ Hwf). pose proof (unreleased_length (runCache (pre ++ post))). lia.
Qed.

(** The context a put returns is in the shared cache, or was evicted. *)
Lemma put_known s now i k p x :
  world_wf s → result (putWorkflowContext now i k p) s = Returned (Some x, None) →
  known x (final (putWorkflowContext now i k p) s).
Proof.
  intros Hs. destruct (workerCaches s !! i) as [wc|] eqn:Hi;
    [|unfold result, putWorkflowContext, getHandle, mbind, go_bind; by rewrite Hi].
  rewrite (put_final _ _ _ _ _ _ Hi).
  unfold result, putWorkflowContext, getHandle, mbind, go_bind. rewrite Hi.
  destruct (wc_released wc) eqn:Hr; [by intros [= ?]|].
  unfold onCache, final. destruct (caches s !! wc_cache wc) as [c|] eqn:Hc; [|done].
  destruct (PutIfNotExist_preserves now k p c) as [_ Hp]; [by apply (ww_caches s Hs (wc_cache wc))|].
  unfold result, final in Hp. destruct (PutIfNotExist now k (Some p) c) as [[[err|[y|]]|q] c']; simpl in *; try done.
  intros [= <-]. left. exists (wc_cache wc), c'. simpl.
  rewrite list_lookup_insert_eq by by eapply lookup_lt_Some. auto.
Qed.

Lemma elem_of_evicted p s : p ∈ evicted s ↔ (∃ g c, caches s !! g = Some c ∧ p ∈ lost c) ∨ p ∈ bulkEvicted s.
Proof.
  unfold evicted. rewrite elem_of_app, list_elem_of_bind. split; (intros [H|H]; [left|by right]).
  - destruct H as (c & Hp & [g Hc]%list_elem_of_lookup). eauto.
  - destruct H as (g & c & Hc & Hp). exists c. split; [done|]. by eapply list_elem_of_lookup_2.
Qed.

(** C25. Whatever sequence of worker starts, lease releases, lookups, puts,
    removals and purges a process goes through, the shared cache's count is
    the number of leases that are not released; every worker that holds a
    lease uses the shared cache; every cache that is no longer shared is
    empty, so a shutdown leaves no late entry behind; and a context that a put
    returned for use is, from then on, in the shared cache or was destroyed by
    an eviction callback, so once all leases are released none is left alive. *)
Theorem cache_lifecycle ops :
  Z.of_nat (length ops) < 2 ^ 63 →
  let s := runCache ops in
  workerRefcount s = Z.of_nat (length (unreleased s)) ∧
  (∀ i wc, workerCaches s !! i = Some wc → wc_released wc = false → sharedCache s = Some (wc_cache wc)) ∧
  (∀ g c, caches s !! g = Some c → sharedCache s ≠ Some g → entries c = []) ∧
  (∀ pre now i runID p x post,
     ops = pre ++ doPut now i runID p :: post →
     result (putWorkflowContext now i runID p) (runCache pre) = Returned (Some x, None) →
     (∃ g c, sharedCache s = Some g ∧ caches s !! g = Some c ∧ x ∈ holding c ∧ unreleased s ≠ []) ∨
     x ∈ evicted s).
Proof.
  intros Hlen s. destruct (runCache_wf ops Hlen) as [Hwf Hh]. fold s in Hwf.
  split_and!; [apply Hwf|apply Hwf|apply Hwf|].
  intros pre now i k p x post -> Hput.
  assert (known x s) as Hk.
  { unfold s. rewrite cons_middle, app_assoc in *. apply runCache_known; [done|]. rewrite runCache_snoc.
    apply put_known; [|done]. apply runCache_wf. rewrite !length_app in Hlen. simpl in Hlen. lia. }
  rewrite elem_of_evicted. destruct Hk as [(g & c & Hc & [Hin|Hin])|Hb]; [|right; left; by exists g, c|auto].
  destruct (decide (sharedCache s = Some g)) as [Hg|Hg].
  - left. exists g, c. split_and!; try done. pose proof (ww_shared s Hwf) as Hs. rewrite Hg in Hs. apply Hs.
  - unfold holding in Hin. rewrite (ww_detached s Hwf g c Hc Hg) in Hin. by apply elem_of_nil in Hin.
Qed.

(** A worker caches context 7, a second worker starts; the first releases its
    lease and then tries to cache another context, which fails; the second
    releases its lease, which destroys context 7. *)
Definition exampleOps : list cacheOp :=
  [doNewWorker 10; doPut 0 0 "run" 7; doNewWorker 10; doRelease 0; doPut 0 0 "late" 8; doRelease 1].

Lemma cache_lifecycle_witness :
  let s := runCache exampleOps in
  (workerRefcount s = 0 ∧ sharedCache s = None) ∧
  result (putWorkflowContext 0 0 "late" 8) (runCache (take 4 exampleOps)) =
    Returned (Some 8%nat, Some errWorkerCacheReleased) ∧
  7%nat ∈ evicted s.
Proof.
  intros s. split; [split; reflexivity|]. split; [vm_compute; reflexivity|].
  destruct (cache_lifecycle exampleOps ltac:(vm_compute; reflexivity)) as (_ & _ & _ & H).
  specialize (H [doNewWorker 10] 0 0%nat "run" 7%nat 7%nat _ eq_refl ltac:(vm_compute; reflexivity)).
  destruct H as [(g & c & Hg & _)|H]; [|exact H].
  exfalso. vm_compute in Hg. discriminate Hg.
Defined.
