(* ===== verification/TaskCache.v ===== *)
(** * Finding the context of a workflow task
      ([src/internal/internal_task_handlers.go],
      [GetOrCreateWorkflowContext], [Unlock] and [onEviction]).

    Contexts are shared objects: the caches of [WorkerCache.v] hold pointers
    to them, and a task locks the one it works on.  The functions here are the
    critical sections, one after the other; an eviction callback, which the
    source runs in a goroutine of its own, is a call of [onEviction]. *)

From stdpp Require Import base list gmap strings.
From S2P Require Import Prelude Lru LruFacts WorkerCache Proto CommandMachine CommandsHelper Flags History Replay Update Errors Retry Environment EventHandlers Callbacks Deliveries HistoryTasks TaskContext TaskCompletion TaskProcessing TaskFacts.
Open Scope Z_scope.

(** A context and the task handler [wth] it belongs to. *)
Record sharedContext : Type := mkSharedContext {
  cx_wth : nat;
  cx_context : workflowExecutionContextImpl;
}.

(** The caches, the contexts by their pointers, and the task at hand. *)
Record lookupState : Type := mkLookupState {
  ls_caches : cacheWorld;
  ls_contexts : gmap nat sharedContext;
  ls_next : nat;
  ls_task : pollTask;
  ls_iterator : option historyIterator;
}.

Definition inCaches {A} (m : Go cacheWorld A) : Go lookupState A := λ s,
  let '(r, c) := m (ls_caches s) in
  (r, mkLookupState c (ls_contexts s) (ls_next s) (ls_task s) (ls_iterator s)).

(** What the pointer [p] leads to. *)
Definition deref (p : nat) : Go lookupState sharedContext := λ s,
  match ls_contexts s !! p with
  | None => (Panicked History.nilDereference, s)
  | Some cx => (Returned cx, s)
  end.

(** An operation on the context of [p] and the task. *)
Definition onRun {A} (p : nat) (m : Go taskRun A) : Go lookupState A := λ s,
  match ls_contexts s !! p with
  | None => (Panicked History.nilDereference, s)
  | Some cx =>
      let '(r, run) := m (mkTaskRun (cx_context cx) (ls_task s) (ls_iterator s)) in
      (r, mkLookupState (ls_caches s)
            (<[p := mkSharedContext (cx_wth cx) (run_context run)]> (ls_contexts s)) (ls_next s)
            (run_task run) (run_iterator run))
  end.

Definition onContext {A} (p : nat) (m : Ctx A) : Go lookupState A := onRun p (inContext m).

(** A new object. *)
Definition alloc (cx : sharedContext) : Go lookupState nat := λ s,
  (Returned (ls_next s),
   mkLookupState (ls_caches s) (<[ls_next s := cx]> (ls_contexts s)) (S (ls_next s))
     (ls_task s) (ls_iterator s)).

Section Lookup.
  Context `{WorkflowExecutionEventHandler}.
  Variable decodeJSON : string → string + list HistoryEvent.
  Variable unmarshal : string → string + list HistoryEvent.
  Variable visitPayloads : list HistoryEvent → string + list HistoryEvent.
  (** The task handlers, and the number of the cache handle of each. *)
  Variable handlers : nat → workflowTaskHandlerImpl.
  Variable handleOf : nat → nat.
  (** The handler that looks for a context, its tunnel, and the time. *)
  Variable wth : nat.
  Variable tunnel : option tunnelEnd.
  Variable now : Z.

Definition onEviction (p : nat) : Go lookupState unit := onContext p clearState.

Definition Unlock (p : nat) (err : option goError) : Go lookupState unit :=
  cx ← deref p;
  let w := cx_context cx in
  if bool_decide (err ≠ None) || bool_decide (w_err w ≠ None) || isWorkflowCompleted w ||
     (bool_decide (maxWorkflowCacheSize (handlers (cx_wth cx)) ≤ 0) && negb (hasPendingLocalActivityWork w))
  then
    _ ← inCaches (removeWorkflowContext (handleOf (cx_wth cx))
                    (we_RunId (info_WorkflowExecution (w_execution w))) p);
    _ ← onContext p (modify (set_cached false));
    onContext p clearState
  else if negb (cached w) then onContext p clearState
  else mret tt.

(** The events of the task's history. *)
Definition historyEvents (task : pollTask) : list HistoryEvent := default [] (task_History task).

Definition continuesHistory (task : pollTask) (w : workflowExecutionContextImpl) : bool :=
  match historyEvents task with
  | e :: _ => bool_decide (Event_EventId e = wrap64 (previousStartedEventID w + 1))
  | [] => false
  end.

(** The cached context, if it is current and of this worker; otherwise it is
    discarded. *)
Definition checkCached (runID : string) (full : bool) (p : nat) : Go lookupState (option nat) :=
  cx ← deref p;
  s ← get;
  let w := cx_context cx in
  let valid := bool_decide (wth = cx_wth cx) && negb (IsDestroyed w) in
  if bool_decide (task_Query (ls_task s) ≠ None) && negb full && valid then mret (Some p)
  else if continuesHistory (ls_task s) w && valid then mret (Some p)
  else
    _ ← (if negb (IsDestroyed w) then
           _ ← inCaches (removeWorkflowContext (handleOf wth) runID p);
           onContext p clearState
         else mret tt);
    _ ← Unlock p None;
    mret None.

Definition onTask {A} (m : Go (pollTask * option historyIterator) A) : Go lookupState A := λ s,
  let '(r, (task, it)) := m (ls_task s, ls_iterator s) in
  (r, mkLookupState (ls_caches s) (ls_contexts s) (ls_next s) task it).

(** Locking what the cache returned, and noting whether it is cached. *)
Definition lockNew (runID : string) (found : option nat) (cacheReleased : bool)
    : Go lookupState (goError + nat) :=
  match found with
  | None => panic History.nilDereference
  | Some q =>
      isCached ← (if cacheReleased then mret false
                  else inCache ← inCaches (getWorkflowContext now (handleOf wth) runID);
                       mret (bool_decide (inCache = Some q)));
      _ ← onContext q (modify (set_cached isCached));
      mret (inr q)
  end.

(** A new context, or the one that is in the cache by now. *)
Definition makeContext (runID : string) (full : bool) : Go lookupState (goError + nat) :=
  _ ←? (if full then mret (inr None) else onTask (resetHistory decodeJSON unmarshal visitPayloads));
  s ← get;
  w ←? lift (createWorkflowContext (handlers wth) now (ls_task s));
  p ← alloc (mkSharedContext wth w);
  if bool_decide (0 < maxWorkflowCacheSize (handlers wth)) && bool_decide (task_Query (ls_task s) = None) then
    '(found, err) ← inCaches (putWorkflowContext now (handleOf wth) runID p);
    match err with
    | None => lockNew runID found false
    | Some e =>
        if decide (e = errWorkerCacheReleased) then lockNew runID found true
        else mret (inl (newError e))
    end
  else mret (inr p).

(** The deferred function: a context without a tunnel gets the handler's. *)
Definition giveTunnel (p : nat) : Go lookupState unit :=
  onContext p (modify (λ w, match laTunnel w with None => set_laTunnel tunnel w | Some _ => w end)).

Definition GetOrCreateWorkflowContext : Go lookupState (goError + nat) :=
  s ← get;
  let task := ls_task s in
  let runID := we_RunId (task_WorkflowExecution task) in
  full ← lift (isFullHistory (task_History task));
  let query := bool_decide (task_Query task ≠ None) in
  found ← (if negb query || (query && negb full)
           then inCaches (getWorkflowContext now (handleOf wth) runID)
           else mret None);
  hit ← (match found with None => mret None | Some p => checkCached runID full p end);
  p ←? (match hit with Some p => mret (inr p) | None => makeContext runID full end);
  cx ← deref p;
  r ← onRun p (resetStateIfDestroyed (handlers (cx_wth cx)) now decodeJSON unmarshal visitPayloads);
  match r with
  | inl err => _ ← Unlock p (Some err); mret (inl err)
  | inr _ => _ ← giveTunnel p; mret (inr p)
  end.
End Lookup.

(** ** What the cache holds for a run *)

Definition cachedIn (runID : string) (c : workflowCache) : option nat :=
  e ← lookupEntry runID (entries c); value e.

Definition cachedAt (i : nat) (runID : string) (s : cacheWorld) : option nat :=
  wc ← workerCaches s !! i; c ← caches s !! wc_cache wc; cachedIn runID c.

Lemma lookupEntry_others k k' (es : list (cacheEntry nat)) :
  lookupEntry k (others k' es) = if decide (k = k') then None else lookupEntry k es.
Proof.
  unfold lookupEntry, others. rewrite list_filter_filter. induction es as [|e es IH]; [by case_decide|].
  rewrite !filter_cons. destruct (decide (key e = k ∧ key e ≠ k')) as [[Hk Hk']|Hn].
  - rewrite (decide_False (P := k = k')), (decide_True (P := key e = k)) by congruence. done.
  - rewrite IH. destruct (decide (k = k')); [done|]. rewrite (decide_False (P := key e = k)); [done|]. naive_solver.
Qed.

Lemma lookupEntry_cons k e (es : list (cacheEntry nat)) : key e = k → lookupEntry k (e :: es) = Some e.
Proof. intros Hk. unfold lookupEntry. by rewrite filter_cons_True. Qed.

Lemma Get_cached now k c r :
  cache_wf c → result (Get now k) c = Returned r → cachedIn k (final (Get now k) c) = r.
Proof.
  intros Hc. pose proof (runOp_implements c (opGet now k) (cw_wf c Hc)) as Hi. simpl in Hi.
  rewrite toResult_snd in Hi. unfold result, final, cachedIn in *.
  destruct (lookupEntry k (entries c)) as [e0|] eqn:Hl; [destruct (expired now (pinEntry c e0))|];
    destruct Hi as [Hr [-> _ _ _]]; destruct (Get now k c) as [[v|] c']; simplify_eq/=; intros [= <-].
  - rewrite lookupEntry_others. by rewrite decide_True.
  - rewrite lookupEntry_cons; [done|]. rewrite key_pinEntry. by apply lookupEntry_Some in Hl as [? _].
  - by rewrite Hl.
Qed.

Lemma Put_cached now k p c v :
  cache_wf c → result (PutIfNotExist now k (Some p)) c = Returned (inr v) →
  v = Some (default p (cachedIn k c)).
Proof.
  intros Hc. pose proof (putInternal_implements c now k (Some p) false (cw_wf c Hc)) as Hi.
  unfold result, PutIfNotExist, mbind, go_bind, cachedIn. unfold specPut in Hi.
  destruct (lookupEntry k (entries c)) as [e0|] eqn:Hl.
  - destruct Hi as (c' & Hrun & _). rewrite Hrun.
    destruct (cw_some c Hc e0) as [x Hx]; [by apply lookupEntry_Some in Hl as [_ ?]|].
    simpl. rewrite Hx. by intros [= <-].
  - destruct (decide (maxSize c < _)); [destruct (decide (0 < _))|]; destruct Hi as (c' & Hrun & _); rewrite Hrun;
      simpl; by intros [= <-].
Qed.

Lemma DeleteIf_cached k k' predicate c :
  cache_wf c →
  cachedIn k (final (DeleteIf k' predicate) c) =
  if decide (k = k' ∧ predicate (cachedIn k c) = true) then None else cachedIn k c.
Proof.
  intros Hc. pose proof (runOp_implements c (opDeleteIf k' predicate) (cw_wf c Hc)) as Hi. simpl in Hi.
  rewrite toResult_snd in Hi. unfold final, cachedIn in *.
  destruct (lookupEntry k' (entries c)) as [e0|] eqn:Hl; [destruct (predicate (value e0)) eqn:Hp|];
    destruct Hi as [Hr [-> _ _ _]].
  - rewrite lookupEntry_others. destruct (decide (k = k')) as [->|Hne].
    + rewrite decide_True; [done|]. rewrite Hl. done.
    + rewrite decide_False; [done|tauto].
  - destruct (decide _) as [[-> He]|_]; [|done]. rewrite Hl in He. simpl in He. congruence.
  - destruct (decide _) as [[-> He]|_]; [|done]. by rewrite Hl.
Qed.

Lemma onCache_cachedAt {A} (m : Go workflowCache A) i j k s wc :
  workerCaches s !! j = Some wc →
  cachedAt i k (final (onCache (wc_cache wc) m) s) =
  wci ← workerCaches s !! i; c ← caches s !! wc_cache wci;
  if decide (wc_cache wci = wc_cache wc) then cachedIn k (final m c) else cachedIn k c.
Proof.
  intros Hj. unfold cachedAt. rewrite onCache_handles. destruct (workerCaches s !! i) as [wci|]; [|done]. simpl.
  unfold final, onCache. destruct (caches s !! wc_cache wc) as [c|] eqn:Hc.
  - destruct (m c) as [r c'] eqn:Hm. simpl. destruct (decide (wc_cache wci = wc_cache wc)) as [->|Hne].
    + rewrite list_lookup_insert_eq, Hc by by eapply lookup_lt_Some. simpl. by rewrite Hm.
    + by rewrite list_lookup_insert_ne.
  - simpl. destruct (caches s !! wc_cache wci) as [c|] eqn:Hci; [|done]. simpl.
    rewrite decide_False; [done|]. congruence.
Qed.

Lemma get_cachedAt now i k s r :
  world_wf s → result (getWorkflowContext now i k) s = Returned r →
  cachedAt i k (final (getWorkflowContext now i k) s) = r.
Proof.
  intros Hs. unfold result, final, getWorkflowContext, getHandle, mbind, go_bind.
  destruct (workerCaches s !! i) as [wc|] eqn:Hi; [|done]. intros Hr.
  pose proof (onCache_cachedAt (Get now k) i i k s wc Hi) as Heq. unfold final in Heq.
  rewrite Heq, Hi. simpl. unfold onCache in Hr.
  destruct (caches s !! wc_cache wc) as [c|] eqn:Hc; [|done]. simpl. rewrite decide_True by done.
  apply Get_cached; [by apply (ww_caches s Hs (wc_cache wc))|]. unfold result. by destruct (Get now k c).
Qed.

Lemma put_cachedAt now i k p s q err :
  world_wf s → result (putWorkflowContext now i k p) s = Returned (q, err) →
  match err with
  | None => q = Some (default p (cachedAt i k s))
  | Some e => e = errWorkerCacheReleased ∧ q = Some p ∨ q = None
  end.
Proof.
  intros Hs. unfold result, putWorkflowContext, getHandle, mbind, go_bind, cachedAt.
  destruct (workerCaches s !! i) as [wc|] eqn:Hi; [|done]. simpl.
  destruct (wc_released wc); [intros [= <- <-]; auto|].
  unfold onCache. destruct (caches s !! wc_cache wc) as [c|] eqn:Hc; [|done]. simpl.
  pose proof (Put_cached now k p c) as Hp. specialize (λ v, Hp v (ww_caches s Hs _ _ Hc)).
  unfold result in Hp. destruct (PutIfNotExist now k (Some p) c) as [[[e|[v|]]|] c']; simpl in *; try done.
  - intros [= <- <-]. auto.
  - intros [= <- <-]. by apply Hp.
Qed.

Lemma remove_cachedAt i j k k' p s :
  world_wf s →
  let s' := final (removeWorkflowContext j k' p) s in
  (cachedAt i k s' = cachedAt i k s ∨ cachedAt i k s' = None) ∧
  (i = j → k = k' → cachedAt i k s' ≠ Some p).
Proof.
  intros Hs s'. unfold s', final, removeWorkflowContext, getHandle, mbind, go_bind.
  destruct (workerCaches s !! j) as [wc|] eqn:Hj.
  - pose proof (onCache_cachedAt (DeleteIf k' (λ cached, bool_decide (cached = Some p))) i j k s wc Hj) as Heq.
    unfold final in Heq. rewrite Heq. unfold cachedAt.
    destruct (workerCaches s !! i) as [wci|] eqn:Hi; [|by auto].
    simpl. destruct (caches s !! wc_cache wci) as [c|] eqn:Hc; [|by auto]. simpl.
    pose proof (DeleteIf_cached k k' (λ cached, bool_decide (cached = Some p)) c) as Hd.
    unfold final in Hd. rewrite Hd by by apply (ww_caches s Hs (wc_cache wci)).
    destruct (decide (wc_cache wci = wc_cache wc)); [destruct (decide _) as [|Hn]|]; split; auto; intros -> ->.
    + rewrite bool_decide_eq_true in Hn. tauto.
    + naive_solver.
  - simpl. split; [auto|]. intros -> _. unfold cachedAt. by rewrite Hj.
Qed.

(** ** What the lookup does to the contexts *)

Abbreviation returns m Q := (wp m Q (λ _ _, True)).

(** The state but the caches. *)
Definition sameContexts (s s' : lookupState) : Prop :=
  ls_contexts s' = ls_contexts s ∧ ls_next s' = ls_next s ∧ ls_task s' = ls_task s ∧
  ls_iterator s' = ls_iterator s.

Lemma wp_inCaches {A} (m : Go cacheWorld A) (Q : A → lookupState → Prop) s :
  (∀ r, result m (ls_caches s) = Returned r →
     Q r (mkLookupState (final m (ls_caches s)) (ls_contexts s) (ls_next s) (ls_task s) (ls_iterator s))) →
  returns (inCaches m) Q s.
Proof.
  unfold wp, inCaches, result, final. destruct (m (ls_caches s)) as [[r|] c]; [|done]. intros HQ. by apply HQ.
Qed.

Lemma wp_onContext {A} p (m : Ctx A) (Q : A → lookupState → Prop) s :
  (∀ cx, ls_contexts s !! p = Some cx →
     returns m (λ r w', Q r (mkLookupState (ls_caches s)
       (<[p := mkSharedContext (cx_wth cx) w']> (ls_contexts s)) (ls_next s) (ls_task s) (ls_iterator s)))
       (cx_context cx)) →
  returns (onContext p m) Q s.
Proof.
  unfold wp, onContext, onRun, inContext. destruct (ls_contexts s !! p) as [cx|]; [|done].
  intros Hm. specialize (Hm cx eq_refl). simpl. by destruct (m (cx_context cx)) as [[r|] w].
Qed.

Lemma wp_deref p (Q : sharedContext → lookupState → Prop) s :
  (∀ cx, ls_contexts s !! p = Some cx → Q cx s) → returns (deref p) Q s.
Proof. unfold wp, deref. destruct (ls_contexts s !! p) as [cx|]; [|done]. auto. Qed.

Lemma wp_any {S A} (m : Go S A) (Q : A → S → Prop) s : (∀ a s', Q a s') → returns m Q s.
Proof. unfold wp. intros HQ. by destruct (m s) as [[a|] s']. Qed.

Lemma wp_lift {S A} (o : outcome A) (Q : A → S → Prop) s :
  (∀ a, o = Returned a → Q a s) → returns (lift o) Q s.
Proof. unfold wp, lift. destruct o; auto. Qed.

Lemma wp_try {S E A B} (m : Go S (E + A)) (k : A → Go S (E + B)) (Q : E + B → S → Prop) s :
  returns m (λ r s', match r with inl e => Q (inl e) s' | inr a => returns (k a) Q s' end) s →
  returns (try_bind m k) Q s.
Proof. unfold try_bind. rewrite wp_bind. intros Hm. eapply wp_mono; [exact Hm| |done]. by intros [e|a] s'. Qed.

(** ** Contexts that are discarded, and new ones *)

Definition destroyedIn (s : lookupState) (p : nat) : Prop :=
  ∃ cx, ls_contexts s !! p = Some cx ∧ IsDestroyed (cx_context cx) = true.

Section Clearing.
  Context `{WorkflowExecutionEventHandler}.
  Variable decodeJSON : string → string + list HistoryEvent.
  Variable unmarshal : string → string + list HistoryEvent.
  Variable visitPayloads : list HistoryEvent → string + list HistoryEvent.
  Variable handlers : nat → workflowTaskHandlerImpl.
  Variable handleOf : nat → nat.
  Variable wth : nat.
  Variable tunnel : option tunnelEnd.
  Variable now : Z.

Lemma clearState_destroys w : returns clearState (λ _ w', IsDestroyed w' = true) w.
Proof.
  unfold clearState. rewrite wp_bind, wp_modify, wp_bind, wp_get.
  destruct (w_eventHandler _) as [eh|] eqn:He; [|rewrite wp_ret; by apply bool_decide_eq_true_2].
  rewrite wp_bind. apply wp_any. intros _ w1. rewrite wp_bind. apply wp_any. intros _ w2.
  rewrite wp_modify. by apply bool_decide_eq_true_2.
Qed.

(** The state an operation of this file keeps: the caches are well formed,
    and the next object is new. *)
Definition lookup_wf (s : lookupState) : Prop :=
  world_wf (ls_caches s) ∧ ls_contexts s !! ls_next s = None.

(** What is in the cache for the run is destroyed. *)
Definition onlyDestroyed (runID : string) (s : lookupState) : Prop :=
  ∀ q, cachedAt (handleOf wth) runID (ls_caches s) = Some q → destroyedIn s q.

(** What a discarding operation keeps. *)
Record discards (runID : string) (s s' : lookupState) : Prop := {
  ds_wf : lookup_wf s → lookup_wf s';
  ds_next : ls_next s' = ls_next s;
  ds_task : ls_task s' = ls_task s;
  ds_destroyed : ∀ q, destroyedIn s q → destroyedIn s' q;
  ds_cached : lookup_wf s → ∀ q, cachedAt (handleOf wth) runID (ls_caches s') = Some q →
                cachedAt (handleOf wth) runID (ls_caches s) = Some q;
}.

Lemma discards_refl runID s : discards runID s s.
Proof. by split. Qed.

Lemma discards_trans runID s1 s2 s3 : discards runID s1 s2 → discards runID s2 s3 → discards runID s1 s3.
Proof.
  intros [Hw Hn Ht Hd Hc] [Hw' Hn' Ht' Hd' Hc']. split; [auto|congruence|congruence|auto|].
  intros Hs q Hq. apply Hc, Hc'; auto.
Qed.

Lemma wp_discards_bind {A B} runID (m : Go lookupState A) (k : A → Go lookupState B) s :
  returns m (λ _, discards runID s) s → (∀ a s', returns (k a) (λ _, discards runID s') s') →
  returns (m ≫= k) (λ _, discards runID s) s.
Proof.
  intros Hm Hk. rewrite wp_bind. eapply wp_mono; [exact Hm| |done]. intros a s' Hd.
  eapply wp_mono; [apply Hk| |done]. intros b s'' Hd'. exact (discards_trans _ _ _ _ Hd Hd').
Qed.

Lemma remove_discards runID j k p s :
  returns (inCaches (removeWorkflowContext j k p)) (λ _, discards runID s) s.
Proof.
  apply wp_inCaches. intros r _. split; simpl; try done.
  - intros [Hw Hn]. split; [|done]. by apply remove_progresses.
  - intros [Hw _] q Hq. destruct (remove_cachedAt (handleOf wth) j runID k p (ls_caches s) Hw) as [[He|He] _];
      simpl in *; congruence.
Qed.

Lemma insert_discards runID p cx w s :
  ls_contexts s !! p = Some cx → (IsDestroyed (cx_context cx) = true → IsDestroyed w = true) →
  discards runID s (mkLookupState (ls_caches s) (<[p := mkSharedContext (cx_wth cx) w]> (ls_contexts s))
                      (ls_next s) (ls_task s) (ls_iterator s)).
Proof.
  intros Hp Hw. split; simpl; try done.
  - intros [? Hn]. split; [done|]. simpl. rewrite lookup_insert_ne; [done|]. intros ->. congruence.
  - intros q (cxq & Hq & Hd). unfold destroyedIn. simpl. destruct (decide (p = q)) as [->|Hne].
    + eexists. rewrite lookup_insert_eq. split; [done|]. simplify_eq. by apply Hw.
    + exists cxq. by rewrite lookup_insert_ne.
Qed.

Lemma clear_discards runID p s :
  returns (onContext p clearState) (λ _ s', discards runID s s' ∧ destroyedIn s' p) s.
Proof.
  apply wp_onContext. intros cx Hp. eapply wp_mono; [apply clearState_destroys| |done].
  intros ? w Hw. simpl in Hw. split; [by apply insert_discards|]. eexists. simpl. rewrite lookup_insert_eq. done.
Qed.

Lemma Unlock_discards runID p err s : returns (Unlock handlers handleOf p err) (λ _, discards runID s) s.
Proof.
  assert (∀ s, returns (onContext p clearState) (λ _, discards runID s) s) as Hclear.
  { intros s'. eapply wp_mono; [apply (clear_discards runID)|by intros ? ? []|done]. }
  unfold Unlock. rewrite wp_bind. apply wp_deref. intros cx Hp. cbv zeta.
  destruct (_ || _); [|destruct (negb _); [apply Hclear|rewrite wp_ret; apply discards_refl]].
  apply wp_discards_bind; [apply remove_discards|]. intros _ s1.
  apply wp_discards_bind; [|intros; apply Hclear].
  apply wp_onContext. intros cx' Hp'. rewrite wp_modify. apply insert_discards; [done|].
  unfold IsDestroyed. by destruct (cx_context cx').
Qed.
(** The cached context is taken, or the cache has nothing alive for the run. *)
Lemma checkCached_spec runID full p s :
  lookup_wf s → cachedAt (handleOf wth) runID (ls_caches s) = Some p →
  returns (checkCached handlers handleOf wth runID full p)
    (λ hit s', lookup_wf s' ∧ ls_task s' = ls_task s ∧
       match hit with
       | Some q => q = p ∧ s' = s ∧ ∃ cx, ls_contexts s !! p = Some cx ∧ cx_wth cx = wth ∧
           IsDestroyed (cx_context cx) = false ∧
           (task_Query (ls_task s) ≠ None ∧ full = false ∨
            continuesHistory (ls_task s) (cx_context cx) = true)
       | None => onlyDestroyed runID s'
       end) s.
Proof.
  intros Hs Hc. unfold checkCached. rewrite wp_bind. apply wp_deref. intros cx Hp.
  rewrite wp_bind, wp_get. cbv zeta. set (valid := bool_decide (wth = cx_wth cx) && _).
  assert (valid = true → cx_wth cx = wth ∧ IsDestroyed (cx_context cx) = false) as Hv.
  { unfold valid. rewrite andb_true_iff, bool_decide_eq_true, negb_true_iff. by intros [-> ?]. }
  destruct (bool_decide (task_Query (ls_task s) ≠ None) && negb full && valid) eqn:H1.
  { rewrite !andb_true_iff, bool_decide_eq_true, negb_true_iff in H1. destruct H1 as [[? ?] Hvalid].
    rewrite wp_ret. split_and!; try done. exists cx. naive_solver. }
  destruct (continuesHistory (ls_task s) (cx_context cx) && valid) eqn:H2.
  { apply andb_true_iff in H2 as [? Hvalid]. rewrite wp_ret. split_and!; try done. exists cx. naive_solver. }
  assert (∀ s1, lookup_wf s1 → ls_task s1 = ls_task s → onlyDestroyed runID s1 →
    returns (_ ← Unlock handlers handleOf p None; mret None)
      (λ (hit : option nat) s', lookup_wf s' ∧ ls_task s' = ls_task s ∧
         match hit with Some _ => False | None => onlyDestroyed runID s' end) s1) as Hunlock.
  { intros s1 Hwf Ht Ho. rewrite wp_bind. eapply wp_mono; [apply (Unlock_discards runID)| |done].
    intros ? s2 [Hw _ Ht2 Hd Hc2]. rewrite wp_ret. split_and!; [auto|congruence|]. intros q Hq. auto. }
  rewrite wp_bind. destruct (IsDestroyed (cx_context cx)) eqn:Hd; simpl.
  - rewrite wp_ret. eapply wp_mono; [apply Hunlock| |done]; [done|done| |by intros [] s2 (? & ? & ?)].
    intros q Hq. rewrite Hc in Hq. injection Hq as <-. by exists cx.
  - rewrite wp_bind. apply wp_inCaches. intros r _. set (s1 := mkLookupState _ _ _ _ _).
    destruct (remove_cachedAt (handleOf wth) (handleOf wth) runID runID p (ls_caches s)) as [He Hne]; [apply Hs|].
    assert (lookup_wf s1) as Hs1 by (split; [by apply remove_progresses, Hs|apply Hs]).
    eapply wp_mono; [apply (clear_discards runID)| |done]. intros ? s2 [[Hw _ Ht _ Hcc] _].
    eapply wp_mono; [apply Hunlock| |done]; [auto|done| |by intros [] s3 (? & ? & ?)].
    intros q Hq. apply Hcc in Hq; [|done]. simpl in Hq. destruct (Hne eq_refl eq_refl).
    destruct He; congruence.
Qed.

(** A context that starts over, with the attributes of the started event at
    the head of the task's history. *)
Definition restarted (task : pollTask) (w : workflowExecutionContextImpl) : Prop :=
  ∃ e es a info metadata,
    task_History task = Some (e :: es) ∧ startedExecutionOf e = Some a ∧
    Environment.SearchAttributes info = started_SearchAttributes a ∧ Environment.Memo info = started_Memo a ∧
    w_eventHandler w = Some (newWorkflowExecutionEventHandler info metadata now) ∧
    previousStartedEventID w = 0 ∧ w_lastHandledEventID w = 0 ∧ currentWorkflowTask w = None ∧
    newCommands w = [] ∧ newMessages w = [] ∧ isWorkflowCompleted w = false ∧ w_err w = None.

Lemma createWorkflowContext_restarts h task w :
  createWorkflowContext h now task = Returned (inr w) → restarted task w.
Proof.
  unfold createWorkflowContext. destruct (task_History task) as [[|e es]|] eqn:Hh; try done.
  destruct (startedExecutionOf e) as [a|] eqn:Ha; [|done]. destruct (decide _); [done|].
  intros [= <-].
  exists e, es, a, (mkWorkflowInfo (default "" (started_TaskQueue a)) (started_OriginalExecutionRunId a)
                      (started_SearchAttributes a) (started_Memo a) 0 0 false [] false),
    (match capabilities h with Some c => SdkMetadata c | None => false end).
  split_and!; done.
Qed.

Lemma createEventHandler_starts h w :
  w_eventHandler w = None →
  createEventHandler h now w =
  (Returned tt, set_w_eventHandler (Some (newWorkflowExecutionEventHandler (w_info w)
     (match capabilities h with Some c => SdkMetadata c | None => false end) now))
     (mkContext (w_execution w) (w_info w) (w_BinaryChecksum w) (w_currentTaskBuildID w) None false None None
        0 0 [] [] None (laTunnel w) (cached w))).
Proof. destruct w. simpl. intros ->. reflexivity. Qed.

(** Resetting leaves a live context as it is; a destroyed one starts over. *)
Lemma resetStateIfDestroyed_spec h s :
  returns (resetStateIfDestroyed h now decodeJSON unmarshal visitPayloads)
    (λ r s', match r with
             | inl _ => True
             | inr _ => if IsDestroyed (run_context s) then restarted (run_task s') (run_context s')
                        else s' = s
             end) s.
Proof.
  unfold resetStateIfDestroyed. rewrite wp_bind, wp_get.
  destruct (IsDestroyed (run_context s)) eqn:Hd; [|by rewrite wp_ret].
  apply bool_decide_eq_true in Hd. unfold inContext at 1. rewrite wp_bind. unfold wp at 1.
  rewrite (createEventHandler_starts _ _ Hd). set (w := set_w_eventHandler _ _).
  set (s1 := mkTaskRun w (run_task s) (run_iterator s)).
  rewrite wp_bind. apply wp_lift. intros full _. apply wp_try.
  assert (∀ s2, run_context s2 = w →
    returns resetInfo (λ r s', match r with inl _ => True | inr _ => restarted (run_task s') (run_context s') end) s2)
    as Hinfo.
  { intros s2 Hw. unfold resetInfo. rewrite wp_bind, wp_get.
    destruct (task_History (run_task s2)) as [[|e es]|] eqn:Hh; try done.
    destruct (startedExecutionOf e) as [a|] eqn:Ha; [|done].
    unfold wp, inContext, modify, mbind, go_bind. simpl. rewrite Hw.
    exists e, es, a, (set_Memo (started_Memo a) (set_SearchAttributes (started_SearchAttributes a)
                        (w_info (run_context s)))),
      (match capabilities h with Some c => SdkMetadata c | None => false end).
    split_and!; done. }
  destruct full; [by apply Hinfo|]. apply wp_try. unfold wp at 1, onHistory.
  destruct (resetHistory _ _ _ _) as [[[err|page]|] [task it]]; [done| |done]. by apply Hinfo.
Qed.
Lemma restarted_set_cached task w b : restarted task w → restarted task (set_cached b w).
Proof. by destruct w. Qed.

Lemma IsDestroyed_set_cached w b : IsDestroyed (set_cached b w) = IsDestroyed w.
Proof. by destruct w. Qed.

(** The context [q] starts over, or is about to. *)
Definition startsOver (s : lookupState) (q : nat) : Prop :=
  ∃ cx, ls_contexts s !! q = Some cx ∧
    (restarted (ls_task s) (cx_context cx) ∨ IsDestroyed (cx_context cx) = true).

Lemma lockNew_spec runID found released s :
  (∀ q, found = Some q → startsOver s q) →
  returns (lockNew handleOf wth now runID found released)
    (λ r s', match r with inl _ => True | inr q => startsOver s' q end) s.
Proof.
  intros Hq. unfold lockNew. destruct found as [q|]; [|done]. specialize (Hq q eq_refl).
  assert (∀ b s1, startsOver s1 q → returns (_ ← onContext q (modify (set_cached b)); mret (inr q))
    (λ (r : goError + nat) s', match r with inl _ => True | inr q => startsOver s' q end) s1) as Hset.
  { intros b s1 (cx & Hp & Hcx). rewrite wp_bind. apply wp_onContext. intros cx' Hp'. simplify_eq.
    rewrite wp_modify, wp_ret. eexists. simpl. rewrite lookup_insert_eq. split; [done|]. simpl.
    rewrite IsDestroyed_set_cached. destruct Hcx; auto using restarted_set_cached. }
  rewrite wp_bind. destruct released; [rewrite wp_ret; by apply Hset|].
  rewrite wp_bind. apply wp_inCaches. intros r _. rewrite wp_ret. by apply Hset.
Qed.

Lemma makeContext_spec runID full s :
  lookup_wf s → (task_Query (ls_task s) = None → onlyDestroyed runID s) →
  returns (makeContext decodeJSON unmarshal visitPayloads handlers handleOf wth now runID full)
    (λ r s', match r with inl _ => True | inr q => startsOver s' q end) s.
Proof.
  intros Hs Hd. unfold makeContext. apply wp_try.
  assert (returns (if full then mret (inr None) else onTask (resetHistory decodeJSON unmarshal visitPayloads))
    (λ _ s1, ls_caches s1 = ls_caches s ∧ ls_contexts s1 = ls_contexts s ∧ ls_next s1 = ls_next s ∧
             task_Query (ls_task s1) = task_Query (ls_task s)) s) as Hreset.
  { destruct full; [by rewrite wp_ret|]. unfold wp, onTask, resetHistory.
    destruct (ls_iterator s) as [it|]; [|done]. by destruct (GetNextPage _ _ _ _) as [[[]|] it']. }
  eapply wp_mono; [exact Hreset| |done]. intros [err|_] s1 (Hca & Hco & Hne & Hqu); [done|].
  rewrite wp_bind, wp_get. apply wp_try. apply wp_lift. intros [err|w] Hw; [done|].
  apply createWorkflowContext_restarts in Hw. rewrite wp_bind. unfold wp at 1, alloc.
  set (p := ls_next s1). set (s2 := mkLookupState _ _ _ _ _).
  assert (startsOver s2 p) as Hnew.
  { eexists. simpl. rewrite lookup_insert_eq. split; [done|]. by left. }
  destruct (_ && _) eqn:Hcond; [|by rewrite wp_ret].
  apply andb_true_iff in Hcond as [_ Hquery%bool_decide_eq_true]. rewrite Hqu in Hquery.
  destruct Hs as [Hworld Hfresh]. rewrite wp_bind. apply wp_inCaches. intros [found err] Hput.
  set (s3 := mkLookupState _ _ _ _ _).
  assert (world_wf (ls_caches s2)) as Hw2 by by rewrite <-Hca in Hworld.
  assert (∀ q, found = Some q → startsOver s3 q) as Hfound;
    [|destruct err as [e|]; [destruct (decide _); [|done]|]; by apply lockNew_spec].
  intros q ->. apply put_cachedAt in Hput; [|done].
  assert (q = p ∨ cachedAt (handleOf wth) runID (ls_caches s2) = Some q) as [->|Hq]; [|exact Hnew|].
  { destruct err as [e|]; [by destruct Hput as [[_ [= ->]]|]; [left|]|]. injection Hput as ->.
    by destruct (cachedAt _ _ _); [right|left]. }
  simpl in Hq. rewrite Hca in Hq. destruct (Hd Hquery q Hq) as (cx & Hp & Hcx).
  exists cx. split; [|by right]. simpl. rewrite lookup_insert_ne; [congruence|]. unfold p. congruence.
Qed.

(** The context as it was, with a tunnel. *)
Definition withTunnel (w : workflowExecutionContextImpl) : workflowExecutionContextImpl :=
  match laTunnel w with None => set_laTunnel tunnel w | Some _ => w end.

Lemma restarted_withTunnel task w : restarted task w → restarted task (withTunnel w).
Proof. unfold withTunnel. destruct (laTunnel w); [done|]. by destruct w. Qed.

(** The state after the tail of the lookup, from a context that was found
    alive or that starts over. *)
Lemma finish_spec p s (P : sharedContext → Prop) :
  (∃ cx, ls_contexts s !! p = Some cx ∧ (IsDestroyed (cx_context cx) = false ∧ P cx)) ∨ startsOver s p →
  returns (cx ← deref p;
    r ← onRun p (resetStateIfDestroyed (handlers (cx_wth cx)) now decodeJSON unmarshal visitPayloads);
    match r with
    | inl err => _ ← Unlock handlers handleOf p (Some err); mret (inl err)
    | inr _ => _ ← giveTunnel tunnel p; mret (inr p)
    end)
    (λ r s', match r with
             | inl _ => True
             | inr q => q = p ∧ ∃ cx, ls_contexts s' !! p = Some cx ∧
                 ((∃ cx0, ls_contexts s !! p = Some cx0 ∧ P cx0 ∧ IsDestroyed (cx_context cx0) = false ∧
                     cx = mkSharedContext (cx_wth cx0) (withTunnel (cx_context cx0)) ∧ ls_task s' = ls_task s) ∨
                  restarted (ls_task s') (cx_context cx))
             end) s.
Proof.
  intros Hp. rewrite wp_bind. apply wp_deref. intros cx Hcx. rewrite wp_bind. unfold wp at 1, onRun. rewrite Hcx.
  pose proof (resetStateIfDestroyed_spec (handlers (cx_wth cx))
    (mkTaskRun (cx_context cx) (ls_task s) (ls_iterator s))) as Hr. unfold wp at 1 in Hr.
  destruct (resetStateIfDestroyed _ _ _ _ _ _) as [[[err|[]]|] run]; [|simpl in Hr|done].
  { rewrite wp_bind. apply wp_any. intros _ s1. by rewrite wp_ret. }
  rewrite wp_bind. apply wp_onContext. intros cx' Hcx'. simpl in Hcx'. rewrite lookup_insert_eq in Hcx'.
  injection Hcx' as <-. rewrite wp_modify, wp_ret. split; [done|]. eexists. simpl. rewrite lookup_insert_eq.
  split; [done|]. destruct (IsDestroyed (cx_context cx)) eqn:Hd.
  - right. by apply restarted_withTunnel.
  - subst run. simpl. destruct Hp as [(cx1 & Hcx1 & _ & HP)|(cx1 & Hcx1 & [Hre|Hde])]; simplify_eq.
    + left. by eexists.
    + right. by apply restarted_withTunnel.
    + congruence.
Qed.

(** In [s'] the context [p] is the one of [s], alive, of this worker and at the
    point of the history where the task goes on; or it starts over. *)
Definition fits (s s' : lookupState) (p : nat) : Prop :=
  ∃ cx, ls_contexts s' !! p = Some cx ∧
    ((∃ cx0, ls_contexts s !! p = Some cx0 ∧ cx_wth cx0 = wth ∧ IsDestroyed (cx_context cx0) = false ∧
        (continuesHistory (ls_task s) (cx_context cx0) = true ∨
         task_Query (ls_task s) ≠ None ∧ isFullHistory (task_History (ls_task s)) = Returned false) ∧
        cx = mkSharedContext wth (withTunnel (cx_context cx0)) ∧ ls_task s' = ls_task s) ∨
     restarted (ls_task s') (cx_context cx)).

Lemma make_fits s0 s runID full :
  lookup_wf s → (task_Query (ls_task s) = None → onlyDestroyed runID s) →
  returns (p ←? makeContext decodeJSON unmarshal visitPayloads handlers handleOf wth now runID full;
    cx ← deref p;
    r ← onRun p (resetStateIfDestroyed (handlers (cx_wth cx)) now decodeJSON unmarshal visitPayloads);
    match r with
    | inl err => _ ← Unlock handlers handleOf p (Some err); mret (inl err)
    | inr _ => _ ← giveTunnel tunnel p; mret (inr p)
    end) (λ r s', match r with inl _ => True | inr p => fits s0 s' p end) s.
Proof.
  intros Hs Hd. apply wp_try. eapply wp_mono; [by apply makeContext_spec| |done].
  intros [err|p] s1 Hp; [done|]. eapply wp_mono; [apply (finish_spec p s1 (λ _, False)); auto| |done].
  intros [err|q] s2; [done|]. intros (-> & cx & Hcx & Hor). exists cx. split; [done|].
  destruct Hor as [(? & _ & [] & _)|Hre]. by right.
Qed.


(** C37. A restarted context keeps the run ID of its previous life.  A new
    context of a history takes the original run ID from the started event, so
    that the IDs of child workflows up to a reset point replay as they were
    generated; a destroyed context that is reset to the start of the same
    history gets search attributes and memo from the started event, but its
    run ID is the one a reset event had set, so those children get other IDs
    on this replay. *)
Theorem restart_keeps_run_id h s e es a w :
  IsDestroyed (run_context s) = true → Event_EventType e = EVENT_TYPE_WORKFLOW_EXECUTION_STARTED →
  task_History (run_task s) = Some (e :: es) → startedExecutionOf e = Some a →
  createWorkflowContext h now (run_task s) = Returned (inr w) →
  let m := resetStateIfDestroyed h now decodeJSON unmarshal visitPayloads in
  result m s = Returned (inr tt) ∧
  let restart := currentInfo (run_context (final m s)) in
  currentRunID (currentInfo w) = started_OriginalExecutionRunId a ∧
  currentRunID restart = currentRunID (w_info (run_context s)) ∧
  Environment.SearchAttributes restart = Environment.SearchAttributes (currentInfo w) ∧
  Environment.Memo restart = Environment.Memo (currentInfo w).
Proof.
  intros Hd Ht Hh Ha Hw m. pose proof Hd as Hnone. apply bool_decide_eq_true in Hnone.
  unfold createWorkflowContext in Hw. rewrite Hh, Ha in Hw. destruct (decide _); [done|]. injection Hw as <-.
  unfold m, resetStateIfDestroyed, result, final, lift, resetInfo, inContext, modify, get, mret, go_ret, try_bind,
    mbind, go_bind.
  rewrite Hd, (createEventHandler_starts _ _ Hnone). simpl. rewrite Hh. simpl.
  rewrite bool_decide_eq_true_2 by done. simpl. rewrite Hh, Ha. done.
Qed.
End Clearing.

(** ** An example *)

Definition exampleStart (originalRunID : string) : HistoryEvent :=
  mkHistoryEvent 1 EVENT_TYPE_WORKFLOW_EXECUTION_STARTED
    (WorkflowExecutionStartedEventAttributes ∅ None
       (mkStartedExecution (Some "q") originalRunID "r" "" 0 0 10 1 None None "" "" None None None None None
          None None)) 0 false.

Definition exampleTaskOf (es : list HistoryEvent) : pollTask :=
  mkPollTask "token" (mkWorkflowExecution "w" "r") "type" 3 9 (Some es) None ∅ [] "".

(** The cached context has processed events up to 3, the task begins with
    event 7: the events in between were lost, the history is fetched again. *)
Definition exampleLookup : lookupState :=
  mkLookupState (runCache [doNewWorker 10; doPut 0 0 "r" 0])
    {[ 0%nat := mkSharedContext 0 (set_previousStartedEventID 3 exampleContext) ]} 1
    (exampleTaskOf [ev 7 EVENT_TYPE_WORKFLOW_TASK_SCHEDULED])
    (Some (mkHistoryIterator None 9 [inr (mkHistoryResponse None (Some [exampleStart "r"]) None)])).


Lemma restart_keeps_run_id_witness :
  let s := mkTaskRun (set_w_info (mkWorkflowInfo "q" "after" None None 0 0 false [] false)
             (set_w_eventHandler None exampleContext)) (exampleTaskOf [exampleStart "before"]) None in
  let m := resetStateIfDestroyed (H := recorder) exampleTaskHandler 0 decodeFails decodeFails inr in
  result m s = Returned (inr tt) ∧ currentRunID (currentInfo (run_context (final m s))) = "after".
Proof.
  intros s m.
  destruct (restart_keeps_run_id (H := recorder) decodeFails decodeFails inr 0 exampleTaskHandler s
    (exampleStart "before") [] (mkStartedExecution (Some "q") "before" "r" "" 0 0 10 1 None None "" "" None None
       None None None None None) _ eq_refl eq_refl eq_refl eq_refl eq_refl) as (Hr & _ & Hi & _).
  split; [exact Hr|]. exact Hi.
Defined.
