(* ===== verification/TaskHandlers.v ===== *)
(** * The event handler of a workflow execution
      ([src/internal/internal_event_handlers.go],
      [workflowExecutionEventHandlerImpl]).

    [EventHandlers.v] has what events do and [Update.v] what messages of the
    update protocol do; here they are the handler that [TaskContext.v] knows
    as a class.  A panic of either is the error the workflow completes with,
    and reaches the context as such. *)

From stdpp Require Import base list gmap strings.
From S2P Require Import Prelude Proto CommandMachine CommandsHelper CommandEventIDs CommandLifecycle Flags History Replay Update Errors Retry Environment EventHandlers Deliveries TaskContext TaskCompletion TaskProcessing TaskFacts.
Open Scope Z_scope.

Definition updateProtocolV1 : string := "temporal.api.update.v1".

(** What precedes the last dot. *)
Fixpoint beforeLastDot (s : string) : option string :=
  match s with
  | EmptyString => None
  | String c rest =>
      match beforeLastDot rest with
      | Some part => Some (String c part)
      | None => if bool_decide (c = dot) then Some "" else None
      end
  end.

Definition ErrProtoNameNotFound : string := "protocol name not found".

(** With the name of the type that the [Any] holds. *)
Definition NameFromMessage (bodyType : string) : string + string :=
  if decide (bodyType = "") then inl ErrProtoNameNotFound
  else inr (default bodyType (beforeLastDot bodyType)).

Section Handler.
  Variable allowed : gmap sdkFlag bool.
  Variables dc : DataConverter.
  Variable FailureToError : nat → option Failure → option goError.
  Variable ErrorToFailure : nat → option goError → option Failure.
  Variable registered : goError + WorkflowDefinition.
  Variable HistoryEventToString : HistoryEvent → string.
  Variable EventType_String : EventType → string.
  Variable stackTrace : string.
  (** The type name of a message's body, and what [Update.v] assumes. *)
  Variable MessageName : Message → string.
  Variable unmarshalRequest : option string → string + updateRequest.
  Variable propagateHeader : gmap string Payload → option string.
  Variable errorToFailure : string → Failure.
  (** What the workflow has registered: its update handlers, by their number,
      and the handler of queries; and its definition's remaining methods. *)
  Variable updateHandlers : eventHandler → nat.
  Variable queryHandler : eventHandler →
    option (string → option Payloads → gmap string Payload → Go eventHandler (goError + option Payloads)).
  Variable StackTrace : eventHandler → string.
  Variable closeDefinition : Go eventHandler unit.

(** [protocolConstructorForMessage], as far as it can fail. *)
Definition protocolConstructorForMessage (msg : Message) : string + unit :=
  match NameFromMessage (MessageName msg) with
  | inl err => inl err
  | inr protoName =>
      if decide (protoName = updateProtocolV1) then inr tt
      else inl ("unsupported protocol: " +:+ protoName)%string
  end.

Definition processMessage (msg : Message) : Go eventHandler (option goError) :=
  match protocolConstructorForMessage msg with
  | inl _ => mret None
  | inr _ =>
      eh ← get;
      r ← onUpdates (Update.ProcessMessage allowed unmarshalRequest propagateHeader errorToFailure
        (updateHandlers eh) msg);
      mret (match r with inl err => Some (newError err) | inr _ => None end)
  end.

Definition ProcessMessage (msg : Message) (replay isLast : bool) : Go eventHandler (option goError) := λ eh,
  match processMessage msg eh with
  | (Returned err, eh') => (Returned err, eh')
  | (Panicked p, eh') =>
      onEnv (_ ← Complete None (Some (workflowPanicError p stackTrace)); mret None) eh'
  end.

Definition QueryTypeStackTrace : string := "__stack_trace".
Definition QueryTypeOpenSessions : string := "__open_sessions".

(** In the order of the map's iteration. *)
Definition getOpenSessions (e : workflowEnvironmentImpl) : list (string * string) :=
  (λ kv, (SessionID kv.2, HostName kv.2)) <$> map_to_list (openSessions e).

Definition encodeArg (v : goValue) : goError + option Payloads :=
  match ToPayloads dc [v] with inl err => inl (newError err) | inr p => inr p end.

Definition ProcessQuery (queryType : string) (queryArgs : option Payloads) (header : gmap string Payload)
    : Go eventHandler (goError + option Payloads) :=
  eh ← get;
  if decide (queryType = QueryTypeStackTrace) then
    if started (eh_env eh) then mret (encodeArg (goString (StackTrace eh)))
    else panic History.nilDereference
  else if decide (queryType = QueryTypeOpenSessions) then
    mret (encodeArg (goSessionInfos (getOpenSessions (eh_env eh))))
  else
    match queryHandler eh with
    | None => panic History.nilDereference
    | Some handler => handler queryType queryArgs header
    end.

Definition Close : Go eventHandler unit :=
  eh ← get;
  if started (eh_env eh) then closeDefinition else mret tt.

Definition workflowExecutionEventHandlerImpl : WorkflowExecutionEventHandler :=
  mkHandler
    (λ event replay isLast, onEnv (ProcessEvent allowed dc FailureToError registered HistoryEventToString
       EventType_String stackTrace (Some event) replay isLast))
    ProcessMessage ProcessQuery
    (λ lar, onEnv (EventHandlers.ProcessLocalActivityResult allowed dc FailureToError ErrorToFailure registered
       HistoryEventToString EventType_String stackTrace lar))
    Close.

(** ** Panics stay in the workflow *)

(** The context after a call that panicked in the handler: the workflow has
    failed with the panic. *)
Definition failedWith (p : panicValue) (w : workflowExecutionContextImpl) : Prop :=
  isWorkflowCompleted w = true ∧ w_result w = None ∧
  w_err w = Some (workflowPanicError p stackTrace).

Lemma callHandler_contains (body m : Go eventHandler (option goError)) w :
  is_Some (w_eventHandler w) →
  (∀ eh, match body eh with
         | (Returned err, eh') => m eh = (Returned err, eh')
         | (Panicked p, eh') =>
             m eh = onEnv (_ ← Complete None (Some (workflowPanicError p stackTrace)); mret None) eh'
         end) →
  match result (callHandler body) w with
  | Returned err => callHandler m w = callHandler body w
  | Panicked p => result (callHandler m) w = Returned None ∧ failedWith p (final (callHandler m) w)
  end.
Proof.
  intros [eh Heh] Hm. specialize (Hm eh). unfold result, final, callHandler. rewrite Heh.
  destruct (body eh) as [[err|p] eh']; rewrite Hm; [done|]. done.
Qed.

Existing Instance workflowExecutionEventHandlerImpl.

End Handler.

(** ** An example *)

Definition exampleHandler : WorkflowExecutionEventHandler :=
  workflowExecutionEventHandlerImpl ∅ noConverter (λ _ _, None) (λ _ _, None) (inr exampleDefinition) noEvent
    noType "trace" (λ _, "temporal.api.update.v1.Request") (λ _, inl "bad request") (λ _, None)
    (λ text, mkFailure text "" "" None None NoFailureInfo)
    (λ _, 0%nat) (λ _, None) (λ _, "") (mret tt).

