(* ===== verification/Slots.v ===== *)
(** * Slots ([src/internal/tuning.go], [src/internal/internal_eager_activity.go]).

    A worker polls for a task only when it holds a slot for it.  Slots come from
    a [SlotSupplier], an interface that users may implement; the SDK's own
    supplier has a fixed number of slots.  [trackingSlotSupplier] wraps a
    supplier, counts the slots issued and records the ones in use.

    This file has the suppliers and the eager activity executor; the goroutines
    that use them are in [WorkerSlots.v]. *)

From stdpp Require Import base list gmap strings.
From S2P Require Import Prelude Proto CommandMachine.
Open Scope Z_scope.

(** ** The interface *)

(** What [ReserveSlot] returns: a permit, a nil permit without an error, or an
    error, which may be [context.Canceled]. *)
Inductive reservation : Type :=
| permitReserved
| permitNil
| reserveFailed (isCanceled : bool).

(** [SlotSupplier].  [ReserveSlot] has the answers it may give at this point,
    none as long as it must block; its argument tells whether its context is
    done.  A permit is a new object, so that it is made by the caller here. *)
Class SlotSupplier (S : Type) : Type := {
  ReserveSlot : bool → S → list (reservation * S);
  TryReserveSlot : S → option S;
  MarkSlotUsed : S → S;
  ReleaseSlot : S → outcome S;
  MaxSlots : S → Z;
}.

(** What the worker relies on, from a proper state on: a supplier counts the
    slots it gave out, takes back each of them, keeps to its maximum if it has
    one, and does not block once the context is done. *)
Class SlotSupplierLaws (S : Type) `{SlotSupplier S} : Type := {
  supplier_ok : S → Prop;
  outstanding : S → nat;
  ReserveSlot_law done s r s' : supplier_ok s → (r, s') ∈ ReserveSlot done s →
    supplier_ok s' ∧ MaxSlots s' = MaxSlots s ∧
    outstanding s' = (match r with permitReserved => 1 | _ => 0 end + outstanding s)%nat ∧
    (r = permitReserved → MaxSlots s ≠ 0 → Z.of_nat (outstanding s') ≤ MaxSlots s);
  ReserveSlot_done s : supplier_ok s → ReserveSlot true s ≠ [];
  TryReserveSlot_law s s' : supplier_ok s → TryReserveSlot s = Some s' →
    supplier_ok s' ∧ MaxSlots s' = MaxSlots s ∧ outstanding s' = (1 + outstanding s)%nat ∧
    (MaxSlots s ≠ 0 → Z.of_nat (outstanding s') ≤ MaxSlots s);
  MarkSlotUsed_law s : supplier_ok s →
    supplier_ok (MarkSlotUsed s) ∧ MaxSlots (MarkSlotUsed s) = MaxSlots s ∧
    outstanding (MarkSlotUsed s) = outstanding s;
  ReleaseSlot_law s : supplier_ok s → (0 < outstanding s)%nat → ∃ s',
    ReleaseSlot s = Returned s' ∧ supplier_ok s' ∧ MaxSlots s' = MaxSlots s ∧
    outstanding s = (1 + outstanding s')%nat;
}.

(** ** The supplier with a fixed size *)

(** [semaphore.Weighted] of golang.org/x/sync.  [Acquire] has its possible
    returns: whether it acquired; [Release] panics on more than is held. *)
Class Weighted (W : Type) : Type := {
  NewWeighted : Z → W;
  Acquire : bool → Z → W → list (bool * W);
  TryAcquire : Z → W → option W;
  Release : Z → W → outcome W;
}.

(** Its documentation: an acquisition never takes the total above the size, a
    failed one leaves the semaphore unchanged, and happens only when the
    context is done, in which case [Acquire] returns. *)
Class WeightedLaws (W : Type) `{Weighted W} : Type := {
  sem_size : W → Z;
  sem_held : W → Z;
  NewWeighted_law n : sem_size (NewWeighted n) = n ∧ sem_held (NewWeighted n) = 0;
  Acquire_law done n w ok w' : (ok, w') ∈ Acquire done n w →
    sem_size w' = sem_size w ∧
    if ok : bool then sem_held w' = sem_held w + n ∧ sem_held w' ≤ sem_size w
    else done = true ∧ sem_held w' = sem_held w;
  Acquire_done n w : Acquire true n w ≠ [];
  TryAcquire_law n w w' : TryAcquire n w = Some w' →
    sem_size w' = sem_size w ∧ sem_held w' = sem_held w + n ∧ sem_held w' ≤ sem_size w;
  Release_law n w : n ≤ sem_held w → ∃ w',
    Release n w = Returned w' ∧ sem_size w' = sem_size w ∧ sem_held w' = sem_held w - n;
}.

Record FixedSizeSlotSupplier (W : Type) : Type := mkFixedSize {
  numSlots : Z;
  sem : W;
}.
Arguments mkFixedSize {W} _ _.
Arguments numSlots {W} _.
Arguments sem {W} _.

Section FixedSize.
  Context {W : Type} `{Weighted W}.

Definition NewFixedSizeSlotSupplier (n : Z) : string + FixedSizeSlotSupplier W :=
  if decide (n ≤ 0) then inl "NumSlots must be positive" else inr (mkFixedSize n (NewWeighted n)).

(** The error wraps that of the context, [context.Canceled]. *)
Definition FixedSize_ReserveSlot (done : bool) (f : FixedSizeSlotSupplier W)
    : list (reservation * FixedSizeSlotSupplier W) :=
  (λ '(ok, w), (if ok : bool then permitReserved else reserveFailed true, mkFixedSize (numSlots f) w))
    <$> Acquire done 1 (sem f).

Definition FixedSize_TryReserveSlot (f : FixedSizeSlotSupplier W) : option (FixedSizeSlotSupplier W) :=
  mkFixedSize (numSlots f) <$> TryAcquire 1 (sem f).

Definition FixedSize_ReleaseSlot (f : FixedSizeSlotSupplier W) : outcome (FixedSizeSlotSupplier W) :=
  w ← Release 1 (sem f); mret (mkFixedSize (numSlots f) w).

#[global] Instance FixedSizeSlotSupplier_supplier : SlotSupplier (FixedSizeSlotSupplier W) := {
  ReserveSlot := FixedSize_ReserveSlot;
  TryReserveSlot := FixedSize_TryReserveSlot;
  MarkSlotUsed f := f;
  ReleaseSlot := FixedSize_ReleaseSlot;
  MaxSlots := numSlots;
}.
End FixedSize.

(** ** Tracking *)

(** [usedSlotsVersion] and the gauges are in [SlotGauges.v].  Permits are
    pointers; [nextPermit] is the next one to be allocated, and
    [extraReleaseCallback] has the permits for which that field is set. *)
Record trackingSlotSupplier (S : Type) : Type := mkTracking {
  inner : S;
  issuedSlotsAtomic : Z;
  usedSlots : gset nat;
  nextPermit : nat;
  extraReleaseCallback : gset nat;
}.
Arguments mkTracking {S} _ _ _ _ _.
Arguments inner {S} _.
Arguments issuedSlotsAtomic {S} _.
Arguments usedSlots {S} _.
Arguments nextPermit {S} _.
Arguments extraReleaseCallback {S} _.

Section Tracking.
  Context {S : Type} `{SlotSupplier S}.

Definition newTrackingSlotSupplier (s : S) : trackingSlotSupplier S := mkTracking s 0 ∅ 0 ∅.

Definition set_inner (s : S) (t : trackingSlotSupplier S) : trackingSlotSupplier S :=
  mkTracking s (issuedSlotsAtomic t) (usedSlots t) (nextPermit t) (extraReleaseCallback t).
Definition set_usedSlots (u : gset nat) (t : trackingSlotSupplier S) : trackingSlotSupplier S :=
  mkTracking (inner t) (issuedSlotsAtomic t) u (nextPermit t) (extraReleaseCallback t).
Definition set_callback (p : nat) (t : trackingSlotSupplier S) : trackingSlotSupplier S :=
  mkTracking (inner t) (issuedSlotsAtomic t) (usedSlots t) (nextPermit t) ({[p]} ∪ extraReleaseCallback t).

(** [issuedSlotsAtomic.Add(n)] on an int32. *)
Definition addIssued (n : Z) (t : trackingSlotSupplier S) : trackingSlotSupplier S :=
  mkTracking (inner t) (wrap32 (issuedSlotsAtomic t + n)) (usedSlots t) (nextPermit t)
    (extraReleaseCallback t).

(** The supplier gave a new permit. *)
Definition newPermit (s : S) (t : trackingSlotSupplier S) : nat * trackingSlotSupplier S :=
  (nextPermit t,
   mkTracking s (issuedSlotsAtomic t) (usedSlots t) (1 + nextPermit t) (extraReleaseCallback t)).

(** The call of the supplier in [ReserveSlot]: the permit, or the error, nil
    permits included, by whether it is [context.Canceled]. *)
Definition tracking_ReserveSlot (done : bool) (t : trackingSlotSupplier S)
    : list ((bool + nat) * trackingSlotSupplier S) :=
  (λ '(r, s),
     match r with
     | permitReserved => let '(p, t') := newPermit s t in (inr p, t')
     | permitNil => (inl false, set_inner s t)
     | reserveFailed isCanceled => (inl isCanceled, set_inner s t)
     end) <$> ReserveSlot done (inner t).

(** The same in [TryReserveSlot]. *)
Definition tracking_TryReserveSlot (t : trackingSlotSupplier S)
    : option (nat * trackingSlotSupplier S) :=
  match TryReserveSlot (inner t) with
  | Some s => Some (newPermit s t)
  | None => None
  end.

Definition tracking_MarkSlotUsed (p : nat) (t : trackingSlotSupplier S) : trackingSlotSupplier S :=
  set_inner (MarkSlotUsed (inner t)) (set_usedSlots ({[p]} ∪ usedSlots t) t).
End Tracking.

(** ** The eager activity executor *)

Record eagerActivityExecutorOptions : Type := mkEagerOptions {
  disabled : bool;
  eager_taskQueue : string;
  (** If 0, there is no maximum. *)
  maxConcurrent : Z;
  maxPerTask : Z;
}.

(** The executor and whether its [activityWorker] is set. *)
Record eagerActivityExecutor : Type := mkEagerExecutor {
  eagerOptions : eagerActivityExecutorOptions;
  hasActivityWorker : bool;
}.

Definition newEagerActivityExecutor (options : eagerActivityExecutorOptions)
    : outcome eagerActivityExecutor :=
  if decide (maxPerTask options ≤ 0) then Panicked (panicString "maxPerTask must be positive")
  else Returned (mkEagerExecutor options false).

(** [command.GetScheduleActivityTaskCommandAttributes()] *)
Definition GetScheduleActivityTask (c : Command) : option ScheduleActivityTaskCommandAttributes :=
  match Command_Attributes c with
  | Some (Command_ScheduleActivityTaskCommandAttributes attrs) => Some attrs
  | _ => None
  end.

(** [attrs.RequestEagerExecution = b] *)
Definition setRequestEager (b : bool) (c : Command) : Command :=
  match Command_Attributes c with
  | Some (Command_ScheduleActivityTaskCommandAttributes a) =>
      mkCommand (Command_CommandType c)
        (Some (Command_ScheduleActivityTaskCommandAttributes
           (mkScheduleActivityTask (sat_ActivityId a) (sat_ActivityType a) (sat_TaskQueue a)
              (sat_Input a) b (sat_Timeouts a) (sat_UseWorkflowBuildId a) (sat_Header a)
              (sat_RetryPolicy a) (sat_Priority a))))
        (Command_UserMetadata c) (Command_EventGroupMarkers c)
  | _ => c
  end.

(** A nil executor is [None]. *)
Definition eagerDisallowed (e : option eagerActivityExecutor)
    (attrs : ScheduleActivityTaskCommandAttributes) (eagerRequestsThisTask : Z) : bool :=
  match e with
  | None => true
  | Some e =>
      disabled (eagerOptions e)
      || negb (sat_RequestEagerExecution attrs)
      || negb (hasActivityWorker e)
      || bool_decide (eager_taskQueue (eagerOptions e) ≠ sat_TaskQueue attrs)
      || bool_decide (maxPerTask (eagerOptions e) ≤ eagerRequestsThisTask)
  end.

(** Whether the count of slots leaves no room for another one. *)
Definition noMoreRoom (e : eagerActivityExecutor) (heldSlotCount : Z) : bool :=
  bool_decide (0 < maxConcurrent (eagerOptions e))
  && bool_decide (maxConcurrent (eagerOptions e) ≤ heldSlotCount).

(** What [handleResponse] does with the answer. *)
Inductive responseAction : Type :=
| ignoreResponse
| tooManyTasks
| useResponse (unfulfilledSlots : nat).

Definition responseActionOf (e : option eagerActivityExecutor) (activityTasks reservedPermits : nat)
    : responseAction :=
  match e with
  | None => ignoreResponse
  | Some e =>
      if negb (hasActivityWorker e) || disabled (eagerOptions e)
         || (bool_decide (activityTasks = 0%nat) && bool_decide (reservedPermits = 0%nat))
      then ignoreResponse
      else if bool_decide (reservedPermits < activityTasks)%nat then tooManyTasks
      else useResponse (reservedPermits - activityTasks)
  end.
