(* ===== verification/WorkerSlots.v ===== *)
(** * The goroutines of a worker
      ([src/internal/internal_worker_base.go]).

    A started [baseWorker] runs pollers, which reserve a slot, poll for a task
    and hand it to the dispatcher; the dispatcher starts a goroutine for each
    task, which releases the slot in the end.  Slots are also reserved from
    outside, for eager activities ([src/internal/internal_eager_activity.go])
    and eager workflow tasks.

    A goroutine is the point it has reached, with its local variables.  An
    [event] lets one goroutine go on to its next access of shared state, or two
    meet on an unbuffered channel; a [choice] resolves what the program leaves
    open: the branch of a [select], the answers of the service and of users'
    code.  Accesses under a lock and atomic operations are single steps. *)

From stdpp Require Import base list gmap strings.
From S2P Require Import Prelude Proto CommandMachine Slots.
Open Scope Z_scope.

(** Room in [eagerTaskQueueCh]. *)
Definition eagerCapacity : nat := 2000.

(** [sessionTokenBucket] of [src/internal/session.go]. *)
Record sessionTokenBucket : Type := mkTokenBucket {
  availableToken : Z;
  bucket_closed : bool;
}.

(** [waitForAvailableToken]: its result, none as long as it waits. *)
Definition waitForAvailableToken (t : sessionTokenBucket) : option bool :=
  if bool_decide (availableToken t = 0) && negb (bucket_closed t) then None
  else Some (negb (bucket_closed t)).

Definition bucket_close (t : sessionTokenBucket) : sessionTokenBucket :=
  mkTokenBucket (availableToken t) true.
Definition addToken (t : sessionTokenBucket) : sessionTokenBucket :=
  mkTokenBucket (availableToken t + 1) (bucket_closed t).
Definition getToken (t : sessionTokenBucket) : bool * sessionTokenBucket :=
  if decide (availableToken t = 0) then (false, t)
  else (true, mkTokenBucket (availableToken t - 1) (bucket_closed t)).

(** The errors of a poll that are told apart. *)
Inductive pollError : Type :=
| InvalidArgument
| NamespaceNotFound
| ClientVersionNotSupported
| otherPollError.

Definition isNonRetriableError (err : pollError) : bool :=
  match err with
  | InvalidArgument | NamespaceNotFound | ClientVersionNotSupported => true
  | otherPollError => false
  end.

(** [workerPollCompleteOnShutdown] is settled before a worker starts. *)
Record baseWorkerOptions : Type := mkWorkerOptions {
  drainOnShutdown : bool;
  hasPollLimiter : bool;
  hasFatalErrCb : bool;
  eagerExecutor : option eagerActivityExecutor;
}.

Section Worker.
  Context {task : Type} (isEmpty : task → bool).
  Context {S : Type} `{SlotSupplier S}.

(** ** State *)

(** The parts of [baseWorker] that control its goroutines: whether the channels
    are closed and the contexts cancelled, the wait groups, and the admissions
    that the autoscaling runners gave out.  [reserveContexts] has the pollers
    whose own context is cancelled, [pollWG] the wait group of each autoscaling
    poller. *)
Record workerControl : Type := mkControl {
  stopCh : bool;
  noRepoll : bool;
  limiterContext : bool;
  taskLimiterContext : bool;
  tokenBucket : option sessionTokenBucket;
  taskQueueCh : bool;
  pollerWG : nat;
  reserveContexts : gset nat;
  pollWG : gmap nat nat;
  active : nat;
}.

Record workerState : Type := mkWorker {
  slots : trackingSlotSupplier S;
  heldSlotCount : Z;
  countLock : bool;
  eagerTaskQueueCh : list (task * nat);
  control : workerControl;
}.

Definition set_slots (t : trackingSlotSupplier S) (w : workerState) : workerState :=
  mkWorker t (heldSlotCount w) (countLock w) (eagerTaskQueueCh w) (control w).
Definition set_held (n : Z) (lock : bool) (w : workerState) : workerState :=
  mkWorker (slots w) n lock (eagerTaskQueueCh w) (control w).
Definition set_queue (q : list (task * nat)) (w : workerState) : workerState :=
  mkWorker (slots w) (heldSlotCount w) (countLock w) q (control w).
Definition set_control (c : workerControl) (w : workerState) : workerState :=
  mkWorker (slots w) (heldSlotCount w) (countLock w) (eagerTaskQueueCh w) c.

Definition set_noRepoll (c : workerControl) : workerControl :=
  mkControl (stopCh c) true (limiterContext c) (taskLimiterContext c) (tokenBucket c)
    (taskQueueCh c) (pollerWG c) (reserveContexts c) (pollWG c) (active c).
Definition close_stopCh (c : workerControl) : workerControl :=
  mkControl true (noRepoll c) (limiterContext c) (taskLimiterContext c) (tokenBucket c)
    (taskQueueCh c) (pollerWG c) (reserveContexts c) (pollWG c) (active c).
Definition limiterContextCancel (c : workerControl) : workerControl :=
  mkControl (stopCh c) (noRepoll c) true (taskLimiterContext c) (tokenBucket c)
    (taskQueueCh c) (pollerWG c) (reserveContexts c) (pollWG c) (active c).
Definition taskLimiterContextCancel (c : workerControl) : workerControl :=
  mkControl (stopCh c) (noRepoll c) (limiterContext c) true (tokenBucket c)
    (taskQueueCh c) (pollerWG c) (reserveContexts c) (pollWG c) (active c).
Definition set_tokenBucket (b : option sessionTokenBucket) (c : workerControl) : workerControl :=
  mkControl (stopCh c) (noRepoll c) (limiterContext c) (taskLimiterContext c) b
    (taskQueueCh c) (pollerWG c) (reserveContexts c) (pollWG c) (active c).
Definition close_taskQueueCh (c : workerControl) : workerControl :=
  mkControl (stopCh c) (noRepoll c) (limiterContext c) (taskLimiterContext c) (tokenBucket c)
    true (pollerWG c) (reserveContexts c) (pollWG c) (active c).
Definition pollerWG_Done (c : workerControl) : workerControl :=
  mkControl (stopCh c) (noRepoll c) (limiterContext c) (taskLimiterContext c) (tokenBucket c)
    (taskQueueCh c) (pollerWG c - 1) (reserveContexts c) (pollWG c) (active c).
Definition cancelReserve (i : nat) (c : workerControl) : workerControl :=
  mkControl (stopCh c) (noRepoll c) (limiterContext c) (taskLimiterContext c) (tokenBucket c)
    (taskQueueCh c) (pollerWG c) ({[i]} ∪ reserveContexts c) (pollWG c) (active c).
Definition pollsOf (i : nat) (c : workerControl) : nat := default 0%nat (pollWG c !! i).
Definition set_polls (i n : nat) (c : workerControl) : workerControl :=
  mkControl (stopCh c) (noRepoll c) (limiterContext c) (taskLimiterContext c) (tokenBucket c)
    (taskQueueCh c) (pollerWG c) (reserveContexts c) (<[i := n]> (pollWG c)) (active c).
Definition set_active (n : nat) (c : workerControl) : workerControl :=
  mkControl (stopCh c) (noRepoll c) (limiterContext c) (taskLimiterContext c) (tokenBucket c)
    (taskQueueCh c) (pollerWG c) (reserveContexts c) (pollWG c) n.

(** ** Goroutines *)

(** How far [ReleaseSlot] has come: the next thing it does. *)
Inductive releasePhase : Type :=
| deleteUsed
| releaseInner
| subIssued
| callCallback.

(** [i] is the poller that a goroutine works for. *)
Inductive goroutine : Type :=
(** [ReleaseSlot], and what follows *)
| releasing (phase : releasePhase) (p : nat) (next : goroutine)
(** [runPoller] *)
| pollerLoop
| pollerWait
| pollerGot (permit : option nat)
| pollerToken (p : nat)
| pollerReturn
| pollerDone
(** [runAutoscalingPoller] *)
| autoLoop
| autoAcquire
| autoAdmitted
| autoWait
| autoGot (permit : option nat)
| autoToken (p : nat)
| autoReturn
| autoJoin
| admissionRelease (next : goroutine)
| admissionFinish (i : nat)
| pollDone (i : nat)
(** [pollTask], and what follows *)
| pollThrottle (p : nat) (next : goroutine)
| pollLimit (p : nat) (next : goroutine)
| pollCheck (p : nat) (next : goroutine)
| pollCall (p : nat) (next : goroutine)
| pollSend (t : task) (p : nat) (next : goroutine)
(** [reserveSlotAsync] *)
| reserving (i : nat)
| reserveIssue (i p : nat)
| reserveSend (i : nat) (permit : option nat)
(** the goroutine that closes [taskQueueCh] *)
| closer
(** [runTaskDispatcher], [discardTaskQueue] and [runEagerTaskDispatcher] *)
| dispatch
| dispatchLimit (t : task) (p : nat)
| discard
| eagerDispatch
| eagerDrain
(** [processTaskAsync] *)
| processStart (t : task) (p : nat)
| processRun (t : task) (p : nat)
(** [sendTaskCompletedRequest] with eager activities: the commands left and
    done, [eagerRequestsThisTask] and [reservedPermits] *)
| applyLoop (todo done : list Command) (n : Z) (reserved : list nat)
| applyLocked (c : Command) (todo done : list Command) (n : Z) (reserved : list nat)
| applyIssue (c : Command) (todo done : list Command) (n : Z) (reserved : list nat) (p : nat)
| applyHold (c : Command) (todo done : list Command) (n : Z) (reserved : list nat) (p : nat)
| eagerCall (request : list Command) (reserved : list nat)
| eagerRelease (activityTasks : list task) (reserved : list nat)
| eagerPush (activityTasks : list (task * nat))
(** another user of [tryReserveSlot] *)
| clientTry
| clientIssue (p : nat)
| clientHold (p : nat)
(** [Stop] *)
| stopClose
| stopLimiter
| stopBucket
| stopWait
(** returned, possibly without giving back some slots; ended the process *)
| returned (lost : list nat)
| crashed.

Abbreviation done := (returned []).

Inductive choice : Type :=
| pick (n : nat)
| polled (t : task)
| polledNothing
| pollFailed (err : pollError) (pastGracePeriod : bool)
| response (activityTasks : list task)
| push (t : task)
| giveBack
| giveUp.

(** A move: where the goroutine goes, the goroutines it starts, the state. *)
Definition moved : Type := goroutine * list goroutine * workerState.

Variable options : baseWorkerOptions.

Definition goto (g : goroutine) (w : workerState) : option moved := Some (g, [], w).
Definition release (p : nat) (next : goroutine) : goroutine := releasing deleteUsed p next.

Definition moveRelease (phase : releasePhase) (p : nat) (next : goroutine) (w : workerState)
    : option moved :=
  match phase with
  | deleteUsed =>
      goto (releasing releaseInner p next)
        (set_slots (Slots.set_usedSlots (usedSlots (slots w) ∖ {[p]}) (slots w)) w)
  | releaseInner =>
      match ReleaseSlot (inner (slots w)) with
      | Returned s => goto (releasing subIssued p next) (set_slots (set_inner s (slots w)) w)
      | Panicked _ => goto crashed w
      end
  | subIssued => goto (releasing callCallback p next) (set_slots (addIssued (-1) (slots w)) w)
  | callCallback =>
      if decide (p ∈ extraReleaseCallback (slots w)) then
        if countLock w then None else goto next (set_held (heldSlotCount w - 1) false w)
      else goto next w
  end.

Definition movePoller (c : choice) (i : nat) (g : goroutine) (w : workerState) : option moved :=
  match g, c with
  | pollerLoop, _ =>
      if noRepoll (control w) then goto pollerReturn w else Some (pollerWait, [reserving i], w)
  | pollerWait, _ => if stopCh (control w) then goto pollerReturn w else None
  | pollerGot None, _ => goto pollerLoop w
  | pollerGot (Some p), _ =>
      if noRepoll (control w) then goto (release p pollerReturn) w else goto (pollerToken p) w
  | pollerToken p, _ =>
      match tokenBucket (control w) with
      | None => goto (pollThrottle p pollerLoop) w
      | Some t =>
          match waitForAvailableToken t with
          | None => None
          | Some true => goto (pollThrottle p pollerLoop) w
          | Some false => goto (release p pollerReturn) w
          end
      end
  | pollerReturn, _ => goto pollerDone (set_control (cancelReserve i (control w)) w)
  | pollerDone, _ => goto done (set_control (pollerWG_Done (control w)) w)
  | _, _ => None
  end.

(** [acquire] of the runner fails only when its context is done. *)
Definition moveAutoscaling (c : choice) (i : nat) (g : goroutine) (w : workerState) : option moved :=
  match g, c with
  | autoLoop, _ => if noRepoll (control w) then goto autoReturn w else goto autoAcquire w
  | autoAcquire, pick 0 => goto autoAdmitted (set_control (set_active (1 + active (control w)) (control w)) w)
  | autoAcquire, pick _ => if limiterContext (control w) then goto autoReturn w else None
  | autoAdmitted, _ =>
      if noRepoll (control w) then goto (admissionRelease autoReturn) w
      else Some (autoWait, [reserving i], w)
  | autoWait, _ => if stopCh (control w) then goto (admissionRelease autoReturn) w else None
  | autoGot None, _ => goto (admissionRelease autoLoop) w
  | autoGot (Some p), _ =>
      if noRepoll (control w) then goto (release p (admissionRelease autoReturn)) w
      else goto (autoToken p) w
  | autoToken p, _ =>
      let start := Some (autoLoop, [pollThrottle p (admissionFinish i)],
                         set_control (set_polls i (1 + pollsOf i (control w)) (control w)) w) in
      match tokenBucket (control w) with
      | None => start
      | Some t =>
          match waitForAvailableToken t with
          | None => None
          | Some true => start
          | Some false => goto (release p (admissionRelease autoReturn)) w
          end
      end
  | autoReturn, _ => goto autoJoin (set_control (cancelReserve i (control w)) w)
  | autoJoin, _ => if decide (pollsOf i (control w) = 0%nat) then goto pollerDone w else None
  | admissionRelease next, _ =>
      goto next (set_control (set_active (active (control w) - 1) (control w)) w)
  | admissionFinish m, _ =>
      goto (pollDone m) (set_control (set_active (active (control w) - 1) (control w)) w)
  | pollDone m, _ =>
      goto done (set_control (set_polls m (pollsOf m (control w) - 1) (control w)) w)
  | _, _ => None
  end.

(** The callback for fatal errors stops further polls. *)
Definition fatalErrCb (w : workerState) : workerState :=
  if hasFatalErrCb options then set_control (set_noRepoll (control w)) w else w.

Definition movePoll (c : choice) (g : goroutine) (w : workerState) : option moved :=
  match g, c with
  | pollThrottle p next, _ => goto (pollLimit p next) w
  | pollLimit p next, pick 0 => goto (pollCheck p next) w
  | pollLimit p next, pick _ =>
      if hasPollLimiter options && limiterContext (control w) then goto (release p next) w else None
  | pollCheck p next, _ =>
      if noRepoll (control w) then goto (release p next) w else goto (pollCall p next) w
  | pollCall p next, polled t => goto (pollSend t p next) w
  | pollCall p next, polledNothing => goto (release p next) w
  | pollCall p next, pollFailed err pastGracePeriod =>
      if isNonRetriableError err && pastGracePeriod then goto (release p next) (fatalErrCb w)
      else goto (release p next) w
  | pollSend t p next, _ =>
      if negb (drainOnShutdown options) && stopCh (control w) then goto (release p next) w else None
  | _, _ => None
  end.

Definition moveReserve (c : choice) (g : goroutine) (w : workerState) : option moved :=
  match g, c with
  | reserving i, pick n =>
      match tracking_ReserveSlot (bool_decide (i ∈ reserveContexts (control w))) (slots w) !! n with
      | None => None
      | Some (inr p, t) => goto (reserveIssue i p) (set_slots t w)
      | Some (inl true, t) => goto done (set_slots t w)
      | Some (inl false, t) => goto (reserveSend i None) (set_slots t w)
      end
  | reserveIssue i p, _ => goto (reserveSend i (Some p)) (set_slots (addIssued 1 (slots w)) w)
  | reserveSend i permit, _ =>
      if decide (i ∈ reserveContexts (control w)) then
        match permit with
        | None => goto done w
        | Some p => goto (release p done) w
        end
      else None
  | _, _ => None
  end.

Definition moveCloser (w : workerState) : option moved :=
  if decide (pollerWG (control w) = 0%nat) then goto done (set_control (close_taskQueueCh (control w)) w)
  else None.

(** All tasks of [taskQueueCh] are polled ones, so that each waits for the
    limiter, which fails only when its context is done. *)
Definition moveDispatch (c : choice) (g : goroutine) (w : workerState) : option moved :=
  match g, c with
  | dispatch, _ =>
      if taskQueueCh (control w) || (negb (drainOnShutdown options) && stopCh (control w))
      then goto done w else None
  | dispatchLimit t p, pick 0 => Some (dispatch, [processStart t p], w)
  | dispatchLimit t p, pick _ =>
      if drainOnShutdown options then
        if taskLimiterContext (control w) then goto (release p discard) w else None
      else if limiterContext (control w) then
        if stopCh (control w) then goto (release p done) w
        else Some (dispatch, [processStart t p], w)
      else None
  | discard, _ => if taskQueueCh (control w) then goto done w else None
  | _, _ => None
  end.

Definition moveEagerDispatch (c : choice) (g : goroutine) (w : workerState) : option moved :=
  match g, c with
  | eagerDispatch, pick 0 => if stopCh (control w) then goto eagerDrain w else None
  | eagerDispatch, pick _ =>
      match eagerTaskQueueCh w with
      | [] => None
      | (t, p) :: q => Some (eagerDispatch, [processStart t p], set_queue q w)
      end
  | eagerDrain, _ =>
      match eagerTaskQueueCh w with
      | [] => goto done w
      | (t, p) :: q => Some (eagerDrain, [processStart t p], set_queue q w)
      end
  | _, _ => None
  end.

Definition moveProcess (g : goroutine) (w : workerState) : option moved :=
  match g with
  | processStart t p =>
      goto (processRun t p)
        (if isEmpty t then w else set_slots (tracking_MarkSlotUsed p (slots w)) w)
  | processRun t p => goto (release p done) w
  | _ => None
  end.

(** [applyToRequest] with [reserveOnePendingSlot]. *)
Definition moveApply (g : goroutine) (w : workerState) : option moved :=
  match g with
  | applyLoop [] processed n reserved => goto (eagerCall processed reserved) w
  | applyLoop (c :: todo) processed n reserved =>
      match GetScheduleActivityTask c with
      | None => goto (applyLoop todo (processed ++ [c]) n reserved) w
      | Some attrs =>
          if eagerDisallowed (eagerExecutor options) attrs n then
            goto (applyLoop todo (processed ++ [setRequestEager false c]) n reserved) w
          else if countLock w then None
          else goto (applyLocked c todo processed n reserved) (set_held (heldSlotCount w) true w)
      end
  | applyLocked c todo processed n reserved =>
      match eagerExecutor options with
      | None => goto crashed w
      | Some e =>
          let refused :=
            goto (applyLoop todo (processed ++ [setRequestEager false c]) n reserved)
              (set_held (heldSlotCount w) false w) in
          if noMoreRoom e (heldSlotCount w) || stopCh (control w) then refused
          else
            match tracking_TryReserveSlot (slots w) with
            | None => refused
            | Some (p, t) => goto (applyIssue c todo processed n reserved p) (set_slots t w)
            end
      end
  | applyIssue c todo processed n reserved p =>
      goto (applyHold c todo processed n reserved p) (set_slots (addIssued 1 (slots w)) w)
  | applyHold c todo processed n reserved p =>
      goto (applyLoop todo (processed ++ [setRequestEager true c]) (n + 1) (reserved ++ [p]))
        (set_held (heldSlotCount w + 1) false (set_slots (set_callback p (slots w)) w))
  | _ => None
  end.

(** [handleResponse]: a failed request has no activity tasks. *)
Definition moveResponse (c : choice) (g : goroutine) (w : workerState) : option moved :=
  match g, c with
  | eagerCall request reserved, response activityTasks =>
      match responseActionOf (eagerExecutor options) (length activityTasks) (length reserved) with
      | ignoreResponse => goto (returned reserved) w
      | tooManyTasks => goto (returned reserved) w
      | useResponse _ => goto (eagerRelease activityTasks reserved) w
      end
  | eagerRelease activityTasks reserved, _ =>
      if decide (length activityTasks < length reserved)%nat then
        match last reserved with
        | Some p => goto (release p (eagerRelease activityTasks (removelast reserved))) w
        | None => None
        end
      else goto (eagerPush (zip activityTasks reserved)) w
  | eagerPush [], _ => goto done w
  | eagerPush (a :: activityTasks), _ =>
      if decide (length (eagerTaskQueueCh w) < eagerCapacity)%nat then
        goto (eagerPush activityTasks) (set_queue (eagerTaskQueueCh w ++ [a]) w)
      else None
  | _, _ => None
  end.

(** A client reserves a slot; it pushes a task, gives the slot back, or fails
    to do either. *)
Definition moveClient (c : choice) (g : goroutine) (w : workerState) : option moved :=
  match g, c with
  | clientTry, _ =>
      if stopCh (control w) then goto done w
      else match tracking_TryReserveSlot (slots w) with
           | None => goto done w
           | Some (p, t) => goto (clientIssue p) (set_slots t w)
           end
  | clientIssue p, _ => goto (clientHold p) (set_slots (addIssued 1 (slots w)) w)
  | clientHold p, push t =>
      if decide (length (eagerTaskQueueCh w) < eagerCapacity)%nat then
        goto done (set_queue (eagerTaskQueueCh w ++ [(t, p)]) w)
      else None
  | clientHold p, giveBack => goto (release p done) w
  | clientHold p, giveUp => goto (returned [p]) w
  | _, _ => None
  end.

(** The wait for the goroutines ends when they have ended or after
    [stopTimeout]. *)
Definition moveStop (g : goroutine) (w : workerState) : option moved :=
  match g with
  | stopClose => goto stopLimiter (set_control (close_stopCh (control w)) w)
  | stopLimiter => goto stopBucket (set_control (limiterContextCancel (control w)) w)
  | stopBucket =>
      goto stopWait (set_control (set_tokenBucket (bucket_close <$> tokenBucket (control w)) (control w)) w)
  | stopWait => goto done (set_control (taskLimiterContextCancel (control w)) w)
  | _ => None
  end.

Definition move (c : choice) (i : nat) (g : goroutine) (w : workerState) : option moved :=
  match g with
  | releasing phase p next => moveRelease phase p next w
  | pollerLoop | pollerWait | pollerGot _ | pollerToken _ | pollerReturn | pollerDone =>
      movePoller c i g w
  | autoLoop | autoAcquire | autoAdmitted | autoWait | autoGot _ | autoToken _ | autoReturn | autoJoin
  | admissionRelease _ | admissionFinish _ | pollDone _ => moveAutoscaling c i g w
  | pollThrottle _ _ | pollLimit _ _ | pollCheck _ _ | pollCall _ _ | pollSend _ _ _ => movePoll c g w
  | reserving _ | reserveIssue _ _ | reserveSend _ _ => moveReserve c g w
  | closer => moveCloser w
  | dispatch | dispatchLimit _ _ | discard => moveDispatch c g w
  | eagerDispatch | eagerDrain => moveEagerDispatch c g w
  | processStart _ _ | processRun _ _ => moveProcess g w
  | applyLoop _ _ _ _ | applyLocked _ _ _ _ _ | applyIssue _ _ _ _ _ _ | applyHold _ _ _ _ _ _ => moveApply g w
  | eagerCall _ _ | eagerRelease _ _ | eagerPush _ => moveResponse c g w
  | clientTry | clientIssue _ | clientHold _ => moveClient c g w
  | stopClose | stopLimiter | stopBucket | stopWait => moveStop g w
  | returned _ | crashed => None
  end.

(** ** The worker as a whole *)

Record world : Type := mkWorld {
  pool : list goroutine;
  worker : workerState;
  (** [Stop] was called; it is called once. *)
  stopCalled : bool;
}.

Inductive event : Type :=
| run (i : nat) (c : choice)
(** Goroutine [a] sends on [reserveChan] of a poller. *)
| handPermit (a : nat)
(** Goroutine [a] sends on [taskQueueCh], [b] receives. *)
| handTask (a b : nat)
(** Outside: [Stop]; other workers of the process stop polling; sessions; a
    workflow task completion with eager activities; a client. *)
| callStop
| stopPolling
| sessionEnds
| sessionStarts
| completeTask (commands : list Command)
| tryEager.

Definition receivePermit (g : goroutine) (permit : option nat) : option goroutine :=
  match g with
  | pollerWait => Some (pollerGot permit)
  | autoWait => Some (autoGot permit)
  | _ => None
  end.

Definition receiveTask (g : goroutine) (t : task) (p : nat) : option goroutine :=
  match g with
  | dispatch => Some (dispatchLimit t p)
  | discard => Some (release p discard)
  | _ => None
  end.

Definition onControl (f : workerControl → workerControl) (x : world) : world :=
  mkWorld (pool x) (set_control (f (control (worker x))) (worker x)) (stopCalled x).
Definition spawn (g : goroutine) (x : world) : world :=
  mkWorld (pool x ++ [g]) (worker x) (stopCalled x).

Definition step (e : event) (x : world) : option world :=
  match e with
  | run i c =>
      g ← pool x !! i;
      '(g', started, w) ← move c i g (worker x);
      Some (mkWorld (<[i := g']> (pool x) ++ started) w (stopCalled x))
  | handPermit a =>
      match pool x !! a with
      | Some (reserveSend i permit) =>
          g ← pool x !! i;
          g' ← receivePermit g permit;
          Some (mkWorld (<[a := done]> (<[i := g']> (pool x))) (worker x) (stopCalled x))
      | _ => None
      end
  | handTask a b =>
      match pool x !! a with
      | Some (pollSend t p next) =>
          g ← pool x !! b;
          g' ← receiveTask g t p;
          Some (mkWorld (<[a := next]> (<[b := g']> (pool x))) (worker x) (stopCalled x))
      | _ => None
      end
  | callStop =>
      if stopCalled x then None else Some (mkWorld (pool x ++ [stopClose]) (worker x) true)
  | stopPolling => Some (onControl set_noRepoll x)
  | sessionEnds => Some (onControl (λ c, set_tokenBucket (addToken <$> tokenBucket c) c) x)
  | sessionStarts =>
      Some (onControl (λ c, set_tokenBucket ((λ t, snd (getToken t)) <$> tokenBucket c) c) x)
  | completeTask commands => Some (spawn (applyLoop commands [] 0 []) x)
  | tryEager => Some (spawn clientTry x)
  end.

Fixpoint runEvents (es : list event) (x : world) : option world :=
  match es with
  | [] => Some x
  | e :: es' => x' ← step e x; runEvents es' x'
  end.

(** [newBaseWorker] and [Start]: fixed and autoscaling pollers, then the
    goroutines every worker has. *)
Definition Start (s : S) (bucket : option sessionTokenBucket) (fixed autoscaling : nat) : world :=
  mkWorld
    (replicate fixed pollerLoop ++ replicate autoscaling autoLoop ++ [closer; dispatch; eagerDispatch])
    (mkWorker (newTrackingSlotSupplier s) 0 false []
       (mkControl false false false false bucket false (fixed + autoscaling) ∅ ∅ 0))
    false.
End Worker.
