(* ===== verification/WorkerSlotsFacts.v ===== *)
(** * Slots are neither lost nor used twice

    The invariant of the goroutines of [WorkerSlots.v]: every slot that was
    reserved and not given back is in exactly one place, and the counts of the
    supplier, of the tracking and of the eager executor are those of the places.
    From it follow the bounds on what a worker runs at once. *)

From stdpp Require Import base list gmap strings.
From S2P Require Import Prelude Proto CommandMachine Slots WorkerSlots.
Open Scope nat_scope.

(** ** The supplier with a fixed size is one *)

Section FixedSizeLaws.
  Context {W : Type} `{WeightedLaws W}.

#[global] Program Instance FixedSize_laws : SlotSupplierLaws (FixedSizeSlotSupplier W) := {
  supplier_ok f := sem_size (sem f) = numSlots f ∧ (0 ≤ sem_held (sem f))%Z;
  outstanding f := Z.to_nat (sem_held (sem f));
}.
Next Obligation.
  intros done f r f' [Hsize Hheld] Hin. apply list_elem_of_fmap in Hin as ([ok w] & Heq & Hin).
  apply Acquire_law in Hin as [Hs Hok]. destruct ok; simplify_eq; simpl.
  - split_and!; [lia..|]. intros _ _. lia.
  - split_and!; [lia..|]. done.
Qed.
Next Obligation. intros f _ Hnil. apply fmap_nil_inv in Hnil. by eapply Acquire_done. Qed.
Next Obligation.
  intros f f' [Hsize Hheld] Htry. simpl in Htry. unfold FixedSize_TryReserveSlot in Htry.
  destruct (TryAcquire 1 (sem f)) as [w|] eqn:Hw; simplify_eq/=.
  apply TryAcquire_law in Hw. split_and!; simpl; lia.
Qed.
Next Obligation. done. Qed.
Next Obligation.
  intros f [Hsize Hheld] Hpos. destruct (Release_law 1 (sem f)) as (w & Hw & Hs & Hh); [lia|].
  exists (mkFixedSize (numSlots f) w). simpl. unfold FixedSize_ReleaseSlot. rewrite Hw. split_and!; simpl; lia || done.
Qed.

Lemma NewFixedSize_ok n f :
  NewFixedSizeSlotSupplier (W := W) n = inr f → supplier_ok f ∧ outstanding f = 0 ∧ MaxSlots f = n ∧ (0 < n)%Z.
Proof.
  unfold NewFixedSizeSlotSupplier. case_decide; [done|]. intros [= <-].
  destruct (NewWeighted_law (W := W) n) as [Hs Hh]. simpl. rewrite Hs, Hh. split_and!; lia.
Qed.
End FixedSizeLaws.

(** ** Who holds what *)

Lemma sum_list_with_insert {A} (f : A → nat) (l : list A) i x y :
  l !! i = Some x → sum_list_with f (<[i := y]> l) + f x = sum_list_with f l + f y.
Proof.
  revert i. induction l as [|z l IH]; intros [|i] Hi; simplify_eq/=; [lia|].
  specialize (IH i Hi). lia.
Qed.

Lemma sum_list_with_elem {A} (f : A → nat) (l : list A) i x :
  l !! i = Some x → f x ≤ sum_list_with f l.
Proof. revert i. induction l as [|z l IH]; intros [|i] Hi; simplify_eq/=; [lia|]. specialize (IH i Hi). lia. Qed.

Lemma sum_list_with_pos {A} (f : A → nat) (l : list A) :
  0 < sum_list_with f l → ∃ i x, l !! i = Some x ∧ 0 < f x.
Proof.
  induction l as [|z l IH]; simpl; [lia|]. intros Hs. destruct (decide (0 < f z)) as [Hz|Hz].
  - by exists 0, z.
  - destruct IH as (i & x & Hi & Hx); [lia|]. by exists (S i), x.
Qed.

Lemma sum_list_with_mono {A} (f g : A → nat) (l : list A) :
  (∀ x, x ∈ l → f x ≤ g x) → sum_list_with f l ≤ sum_list_with g l.
Proof.
  induction l as [|z l IH]; intros Hfg; simpl; [lia|].
  pose proof (Hfg z ltac:(by left)). enough (sum_list_with f l ≤ sum_list_with g l) by lia.
  apply IH. intros x Hx. apply Hfg. by right.
Qed.

Lemma sum_list_with_plus {A} (h f g : A → nat) (l : list A) :
  (∀ x, h x = f x + g x) → sum_list_with h l = sum_list_with f l + sum_list_with g l.
Proof. intros Hh. induction l as [|z l IH]; simpl; [done|]. rewrite Hh. lia. Qed.

Lemma sum_list_with_zero {A} (f : A → nat) (l : list A) :
  (∀ x, x ∈ l → f x = 0) → sum_list_with f l = 0.
Proof.
  induction l as [|z l IH]; intros Hf; simpl; [lia|]. rewrite (Hf z) by by left.
  apply IH. intros x Hx. apply Hf. by right.
Qed.

(** How often [p] occurs, and how many of a set do. *)
Definition occ (p : nat) (l : list nat) : nat := length (filter (λ q, q = p) l).
Definition among (X : gset nat) (l : list nat) : nat := length (filter (λ q, q ∈ X) l).

(** A measure of lists that adds up. *)
Class Additive (μ : list nat → nat) : Prop := {
  additive_nil : μ [] = 0;
  additive_app l k : μ (l ++ k) = μ l + μ k;
}.
#[global] Instance occ_additive p : Additive (occ p).
Proof. split; [done|]. intros l k. unfold occ. by rewrite filter_app, length_app. Qed.
#[global] Instance among_additive X : Additive (among X).
Proof. split; [done|]. intros l k. unfold among. by rewrite filter_app, length_app. Qed.
#[global] Instance length_additive : Additive (@length nat).
Proof. split; [done|]. intros l k. by rewrite length_app. Qed.

Lemma additive_cons μ `{!Additive μ} x l : μ (x :: l) = μ [x] + μ l.
Proof. apply (additive_app [x] l). Qed.

Lemma occ_one p q : occ p [q] = if decide (q = p) then 1 else 0.
Proof. unfold occ. rewrite filter_cons. by destruct (decide (q = p)). Qed.

Lemma among_one X q : among X [q] = if decide (q ∈ X) then 1 else 0.
Proof. unfold among. rewrite filter_cons. by destruct (decide (q ∈ X)). Qed.

Lemma among_insert p X l : p ∉ X → among ({[p]} ∪ X) l = among X l + occ p l.
Proof.
  intros Hp. induction l as [|q l IH]; [done|].
  rewrite (additive_cons (among ({[p]} ∪ X))), (additive_cons (among X)), (additive_cons (occ p)), IH.
  rewrite !among_one, occ_one.
  repeat case_decide; simplify_eq; try set_solver; lia.
Qed.

Section Holding.
  Context {task : Type} (isEmpty : task → bool).
#[local] Abbreviation goroutine := (goroutine (task := task)).

(** The slots a goroutine is responsible for. *)
Fixpoint holds (g : goroutine) : list nat :=
  match g with
  | releasing _ p next => p :: holds next
  | pollerGot permit | autoGot permit | reserveSend _ permit => option_list permit
  | pollerToken p | autoToken p | reserveIssue _ p | dispatchLimit _ p | processStart _ p
  | processRun _ p | clientIssue p | clientHold p => [p]
  | admissionRelease next => holds next
  | pollThrottle p next | pollLimit p next | pollCheck p next | pollCall p next | pollSend _ p next =>
      p :: holds next
  | applyLoop _ _ _ reserved | applyLocked _ _ _ _ reserved | eagerCall _ reserved
  | eagerRelease _ reserved => reserved
  | applyIssue _ _ _ _ reserved p | applyHold _ _ _ _ reserved p => reserved ++ [p]
  | eagerPush activityTasks => activityTasks.*2
  | returned lost => lost
  | _ => []
  end.

(** Adding up over a goroutine and what follows. *)
Fixpoint along (f : goroutine → nat) (g : goroutine) : nat :=
  f g + match g with
        | releasing _ _ next | admissionRelease next | pollThrottle _ next | pollLimit _ next
        | pollCheck _ next | pollCall _ next | pollSend _ _ next => along f next
        | _ => 0
        end.

(** Slots that went back to the supplier already. *)
Definition givenBack : goroutine → nat := along (λ g,
  match g with
  | releasing (subIssued | callCallback) _ _ => 1
  | _ => 0
  end).

(** Slots not in [issuedSlotsAtomic]. *)
Definition notIssued : goroutine → nat := along (λ g,
  match g with
  | releasing callCallback _ _ | reserveIssue _ _ | applyIssue _ _ _ _ _ _ | clientIssue _ => 1
  | _ => 0
  end).

(** Slots that may be in [usedSlots]. *)
Definition mayUse (p : nat) : goroutine → nat := along (λ g,
  match g with
  | processRun _ q | releasing deleteUsed q _ => if decide (q = p) then 1 else 0
  | _ => 0
  end).

(** Holding [countLock], and about to take a slot for an eager activity. *)
Definition locks : goroutine → nat := along (λ g,
  match g with
  | applyLocked _ _ _ _ _ | applyIssue _ _ _ _ _ _ | applyHold _ _ _ _ _ _ => 1
  | _ => 0
  end).
Definition takes : goroutine → nat := along (λ g,
  match g with
  | applyIssue _ _ _ _ _ _ | applyHold _ _ _ _ _ _ => 1
  | _ => 0
  end).

(** Running a task. *)
Definition processes (g : goroutine) : nat :=
  match g with processRun _ _ => 1 | _ => 0 end.
End Holding.

Section Moves.
  Context {task : Type} (isEmpty : task → bool).
  Context {S : Type} `{SlotSupplierLaws S}.
  Variable options : baseWorkerOptions.
Implicit Types (w : workerState (task := task) (S := S)) (x : world (task := task) (S := S)).

Lemma tracking_ReserveSlot_law done (t : trackingSlotSupplier S) n r t' :
  supplier_ok (inner t) → tracking_ReserveSlot done t !! n = Some (r, t') →
  supplier_ok (inner t') ∧ MaxSlots (inner t') = MaxSlots (inner t) ∧
  issuedSlotsAtomic t' = issuedSlotsAtomic t ∧ usedSlots t' = usedSlots t ∧
  extraReleaseCallback t' = extraReleaseCallback t ∧
  match r with
  | inr p => p = nextPermit t ∧ nextPermit t' = Datatypes.S (nextPermit t) ∧
      outstanding (inner t') = 1 + outstanding (inner t) ∧
      (MaxSlots (inner t) ≠ 0%Z → (Z.of_nat (outstanding (inner t')) ≤ MaxSlots (inner t))%Z)
  | inl _ => nextPermit t' = nextPermit t ∧ outstanding (inner t') = outstanding (inner t)
  end.
Proof.
  intros Hok Hn. apply list_elem_of_lookup_2, list_elem_of_fmap in Hn as ([a s] & Heq & Hin).
  apply ReserveSlot_law in Hin as (? & ? & ? & Hb); [|done].
  destruct a; simplify_eq/=; split_and!; auto.
Qed.

Lemma tracking_TryReserveSlot_law (t : trackingSlotSupplier S) p t' :
  supplier_ok (inner t) → tracking_TryReserveSlot t = Some (p, t') →
  supplier_ok (inner t') ∧ MaxSlots (inner t') = MaxSlots (inner t) ∧
  issuedSlotsAtomic t' = issuedSlotsAtomic t ∧ usedSlots t' = usedSlots t ∧
  extraReleaseCallback t' = extraReleaseCallback t ∧
  p = nextPermit t ∧ nextPermit t' = Datatypes.S (nextPermit t) ∧
  outstanding (inner t') = 1 + outstanding (inner t) ∧
  (MaxSlots (inner t) ≠ 0%Z → (Z.of_nat (outstanding (inner t')) ≤ MaxSlots (inner t))%Z).
Proof.
  unfold tracking_TryReserveSlot. intros Hok. destruct (TryReserveSlot (inner t)) as [s|] eqn:Hs; [|done].
  intros [= <- <-]. apply TryReserveSlot_law in Hs as (? & ? & ? & ?); [|done]. simpl. split_and!; auto.
Qed.

(** The slot that a move takes from the supplier, and the one it is done with. *)
Definition taken (w w' : workerState (task := task) (S := S)) : list nat :=
  if decide (nextPermit (slots w') = nextPermit (slots w)) then [] else [nextPermit (slots w)].
Definition freed (g : goroutine (task := task)) : list nat :=
  match g with releasing callCallback p _ => [p] | _ => [] end.

Lemma taken_same w w' : nextPermit (slots w') = nextPermit (slots w) → taken w w' = [].
Proof. intros. unfold taken. by rewrite decide_True. Qed.
Lemma taken_next w w' : nextPermit (slots w') = Datatypes.S (nextPermit (slots w)) → taken w w' = [nextPermit (slots w)].
Proof. intros. unfold taken. rewrite decide_False; [done|lia]. Qed.
End Moves.

Ltac open_move Hm :=
  unfold move, moveRelease, movePoller, moveAutoscaling, fatalErrCb, movePoll, moveReserve, moveCloser,
    moveDispatch, moveEagerDispatch, moveProcess, moveApply, moveResponse, moveClient, moveStop, goto, release in Hm;
  repeat case_match; simplify_eq; simpl in *.

(** The laws of the supplier for a reservation among the hypotheses. *)
Ltac slot_laws :=
  try match goal with
  | Ht : tracking_ReserveSlot _ _ !! _ = Some _ |- _ =>
      apply tracking_ReserveSlot_law in Ht as (?&?&?&?&?&?); [|done]; destruct_and?
  | Ht : tracking_TryReserveSlot _ = Some _ |- _ =>
      apply tracking_TryReserveSlot_law in Ht as (?&?&?&?&?&?&?&?&?); [|done]
  end; simplify_eq/=.

Section MoveFacts.
  Context {task : Type} (isEmpty : task → bool).
  Context {S : Type} `{SlotSupplierLaws S}.
  Variable options : baseWorkerOptions.
Implicit Types (w : workerState (task := task) (S := S)) (x : world (task := task) (S := S)).

Lemma move_holds μ `{!Additive μ} c i g w g' st w' :
  supplier_ok (inner (slots w)) →
  move isEmpty options c i g w = Some (g', st, w') → g' ≠ crashed →
  μ (holds g') + sum_list_with (μ ∘ holds) st + μ (eagerTaskQueueCh w').*2 + μ (freed g) =
  μ (holds g) + μ (eagerTaskQueueCh w).*2 + μ (taken w w').
Proof.
  intros Hok Hm Hc. pose proof (additive_nil (μ := μ)) as Hnil. destruct g; simpl in Hm.
  all: open_move Hm; slot_laws; try done.
  all: first [rewrite taken_same by done | rewrite taken_next by done]; simpl.
  all: rewrite ?fmap_app, ?additive_app; simpl.
  all: rewrite ?Hnil.
  all: try lia.
  all: repeat match goal with Hq : eagerTaskQueueCh _ = _ |- _ => rewrite Hq end.
  all: rewrite ?(additive_cons μ _ (holds _)), ?(additive_cons μ _ (list_fmap _ _ _ _)), ?(additive_cons μ _ (removelast _)).
  all: try (rewrite snd_zip by lia); simpl; rewrite ?Hnil; unfold fmap; try lia.
  match goal with Hl : last _ = Some _ |- _ => apply last_Some in Hl as [init ->] end.
  rewrite removelast_app_one, additive_app. lia.
Qed.

Lemma move_slots c i g w g' st w' :
  supplier_ok (inner (slots w)) →
  (∀ p next, g = releasing releaseInner p next → 0 < outstanding (inner (slots w))) →
  move isEmpty options c i g w = Some (g', st, w') → g' ≠ crashed →
  supplier_ok (inner (slots w')) ∧ MaxSlots (inner (slots w')) = MaxSlots (inner (slots w)) ∧
  outstanding (inner (slots w')) + givenBack g' + sum_list_with givenBack st + length (freed g) =
  outstanding (inner (slots w)) + givenBack g + length (taken w w') ∧
  (taken w w' ≠ [] → MaxSlots (inner (slots w)) ≠ 0%Z →
   (Z.of_nat (outstanding (inner (slots w'))) ≤ MaxSlots (inner (slots w)))%Z).
Proof.
  intros Hok Hpos Hm Hc. destruct g; simpl in Hm.
  all: open_move Hm; slot_laws; try done.
  all: try (destruct (MarkSlotUsed_law (inner (slots w)) Hok) as (?&?&?)).
  all: try (destruct (ReleaseSlot_law (inner (slots w)) Hok) as (s&Hs&?&?&?); [by eapply Hpos|];
    rewrite Hs in *; simplify_eq/=).
  all: first [rewrite taken_same by done | rewrite taken_next by done]; simpl.
  all: unfold givenBack in *; simpl; split_and!; try done; try lia; auto.
Qed.

(** The change of [issuedSlotsAtomic]. *)
Lemma move_issued c i g w g' st w' :
  supplier_ok (inner (slots w)) →
  move isEmpty options c i g w = Some (g', st, w') → g' ≠ crashed → ∃ k : Z,
  issuedSlotsAtomic (slots w') =
    (if decide (k = 0%Z) then issuedSlotsAtomic (slots w) else wrap32 (issuedSlotsAtomic (slots w) + k)) ∧
  (Z.of_nat (notIssued g' + sum_list_with notIssued st + length (freed g)) + k =
   Z.of_nat (notIssued g + length (taken w w')))%Z.
Proof.
  intros Hok Hm Hc. destruct g; simpl in Hm.
  all: open_move Hm; slot_laws; try done.
  all: first [rewrite taken_same by done | rewrite taken_next by done]; unfold notIssued; simpl.
  all: first [by exists 0%Z; split; [auto|lia] | by exists 1%Z; split; [auto|lia] | by exists (-1)%Z; split; [auto|lia]].
Qed.

(** [countLock] is held by one goroutine or none. *)
Definition lockCount w : nat := if countLock w then 1 else 0.

Lemma move_lock c i g w g' st w' :
  locks g ≤ lockCount w →
  move isEmpty options c i g w = Some (g', st, w') → g' ≠ crashed →
  lockCount w' + locks g = lockCount w + locks g' + sum_list_with locks st.
Proof.
  intros Hl Hm Hc. destruct g; simpl in Hm.
  all: open_move Hm; slot_laws; try done.
  all: unfold locks, lockCount in *; simpl in *; repeat case_match; simplify_eq/=; lia || done.
Qed.
(** Nothing is broken: no goroutine panicked, or is about to. *)
Definition broken : goroutine (task := task) → nat := along (λ g,
  match g with
  | crashed => 1
  | applyLocked _ _ _ _ _ => match eagerExecutor options with Some _ => 0 | None => 1 end
  | _ => 0
  end).

Lemma move_sound c i g w g' st w' :
  supplier_ok (inner (slots w)) →
  (∀ p next, g = releasing releaseInner p next → 0 < outstanding (inner (slots w))) →
  broken g = 0 → move isEmpty options c i g w = Some (g', st, w') →
  g' ≠ crashed ∧ broken g' + sum_list_with broken st = 0.
Proof.
  intros Hok Hpos Hb Hm. enough (broken g' + sum_list_with broken st = 0) as Hb'.
  { split; [|done]. intros ->. unfold broken in Hb'. simpl in Hb'. lia. }
  destruct g; simpl in Hm.
  all: open_move Hm; unfold broken in *; simpl in *; repeat case_match; simplify_eq/=; try lia.
  all: try (destruct (ReleaseSlot_law (inner (slots w')) Hok) as (s&Hs&?); [by eapply Hpos|]; by rewrite Hs in *).
  all: match goal with He : eagerExecutor _ = None, Hd : eagerDisallowed _ _ _ = _ |- _ => by rewrite He in Hd end.
Qed.

(** The permit a goroutine will set a callback on. *)
Definition pendingHold (p : nat) : goroutine (task := task) → nat := along (λ g,
  match g with
  | applyIssue _ _ _ _ _ q | applyHold _ _ _ _ _ q => if decide (q = p) then 1 else 0
  | _ => 0
  end).

(** The count of the eager executor and the callbacks that lower it. *)
Inductive heldChange (g g' : goroutine (task := task)) w w' : Prop :=
| heldSame : extraReleaseCallback (slots w') = extraReleaseCallback (slots w) →
    heldSlotCount w' = (heldSlotCount w - Z.of_nat (among (extraReleaseCallback (slots w)) (freed g)))%Z →
    heldChange g g' w w'
| heldMore p : pendingHold p g = 1 → pendingHold p g' = 0 → 0 < occ p (holds g') → freed g = [] → taken w w' = [] →
    extraReleaseCallback (slots w') = {[p]} ∪ extraReleaseCallback (slots w) →
    heldSlotCount w' = (heldSlotCount w + 1)%Z → 0 < takes g →
    heldChange g g' w w'.

Lemma move_held c i g w g' st w' :
  supplier_ok (inner (slots w)) →
  move isEmpty options c i g w = Some (g', st, w') → heldChange g g' w w'.
Proof.
  intros Hok Hm. destruct g; simpl in Hm.
  all: open_move Hm; slot_laws; try done.
  all: try (apply heldSame; simpl; [done|]; rewrite additive_nil; lia).
  - apply heldSame; simpl; [done|]. rewrite among_one, decide_True by done. lia.
  - apply heldSame; simpl; [done|]. rewrite among_one, decide_False by done. lia.
  - eapply heldMore with p; simpl; unfold pendingHold, takes, taken; simpl; rewrite ?decide_True by done; try done; try lia.
    rewrite additive_app, occ_one, decide_True by done. lia.
Qed.

Lemma move_pending p c i g w g' st w' :
  supplier_ok (inner (slots w)) →
  move isEmpty options c i g w = Some (g', st, w') →
  pendingHold p g' + sum_list_with (pendingHold p) st ≤ pendingHold p g + occ p (taken w w').
Proof.
  intros Hok Hm. destruct g; simpl in Hm.
  all: open_move Hm; slot_laws; try done.
  all: first [rewrite taken_same by done | rewrite taken_next by done].
  all: rewrite ?occ_one; unfold pendingHold; simpl; repeat case_decide; simplify_eq; lia.
Qed.

Lemma move_room c i g w g' st w' e :
  eagerExecutor options = Some e → (0 < maxConcurrent (eagerOptions e))%Z →
  move isEmpty options c i g w = Some (g', st, w') →
  (0 < takes g' + sum_list_with takes st → 0 < takes g ∨ (heldSlotCount w' < maxConcurrent (eagerOptions e))%Z) ∧
  (countLock w = true → locks g = 0 → heldSlotCount w' = heldSlotCount w).
Proof.
  intros He Hpos Hm. destruct g; simpl in Hm.
  all: open_move Hm; unfold takes, locks; simpl; split; intros; try done; auto; try lia.
  right. match goal with Hr : noMoreRoom _ _ || _ = false |- _ => apply orb_false_iff in Hr as [Hr _] end.
  unfold noMoreRoom in *. rewrite bool_decide_true in * by done. simpl in *.
  match goal with Hr : bool_decide _ = false |- _ => apply bool_decide_eq_false in Hr end. simplify_eq. simpl. lia.
Qed.

Lemma move_used p c i g w g' st w' :
  supplier_ok (inner (slots w)) →
  move isEmpty options c i g w = Some (g', st, w') → g' ≠ crashed → p ∈ usedSlots (slots w') →
  (p ∈ usedSlots (slots w) ∧ mayUse p g ≤ mayUse p g' + sum_list_with (mayUse p) st) ∨
  0 < mayUse p g'.
Proof.
  intros Hok Hm Hc Hp. destruct g; simpl in Hm.
  all: open_move Hm; slot_laws; try done; unfold mayUse in *; simpl in *.
  all: try (left; split; [set_solver|]; repeat case_decide; simplify_eq; lia || set_solver).
  all: try (left; split; [congruence|]; repeat case_decide; simplify_eq; lia || set_solver).
  apply elem_of_union in Hp as [Hp|Hp]; [|by left; split; [|lia]].
  apply elem_of_singleton in Hp as ->. right. rewrite decide_True by done. lia.
Qed.
End MoveFacts.
