(* ===== verification/SlotAccounts.v ===== *)
(** * The account of slots

    [slots_inv] holds in every state that a started worker reaches: the places
    where slots are, taken together, agree with all counts.  The claims on the
    bounds of a worker follow. *)

From stdpp Require Import base list gmap strings.
From S2P Require Import Prelude Proto CommandMachine Slots WorkerSlots WorkerSlotsFacts.
Open Scope nat_scope.

Section Accounts.
  Context {task : Type} (isEmpty : task → bool).
  Context {S : Type} `{SlotSupplierLaws S}.
  Variable options : baseWorkerOptions.
Implicit Types (w : workerState (task := task) (S := S)) (x : world (task := task) (S := S)).

(** What [μ] says about all slots that are held somewhere. *)
Definition measure (μ : list nat → nat) x : nat :=
  sum_list_with (μ ∘ holds) (pool x) + μ (eagerTaskQueueCh (worker x)).*2.

Definition total (f : goroutine (task := task) → nat) x : nat := sum_list_with f (pool x).

Record slots_inv x : Prop := {
  inv_ok : supplier_ok (inner (slots (worker x)));
  inv_once p : measure (occ p) x ≤ if decide (p < nextPermit (slots (worker x))) then 1 else 0;
  inv_out : outstanding (inner (slots (worker x))) + total givenBack x = measure length x;
  inv_max : MaxSlots (inner (slots (worker x))) ≠ 0%Z →
    (Z.of_nat (outstanding (inner (slots (worker x)))) ≤ MaxSlots (inner (slots (worker x))))%Z;
  inv_issued : issuedSlotsAtomic (slots (worker x)) =
    wrap32 (Z.of_nat (measure length x) - Z.of_nat (total notIssued x));
  inv_callbacks p : p ∈ extraReleaseCallback (slots (worker x)) →
    p < nextPermit (slots (worker x)) ∧ total (pendingHold p) x = 0;
  inv_held : heldSlotCount (worker x) = Z.of_nat (measure (among (extraReleaseCallback (slots (worker x)))) x);
  inv_lock : total locks x = lockCount (worker x);
  inv_room e : eagerExecutor options = Some e → (0 < maxConcurrent (eagerOptions e))%Z →
    (heldSlotCount (worker x) ≤ maxConcurrent (eagerOptions e))%Z ∧
    (0 < total takes x → (heldSlotCount (worker x) < maxConcurrent (eagerOptions e))%Z);
  inv_used p : p ∈ usedSlots (slots (worker x)) → 0 < total (mayUse p) x;
  inv_sound : total (broken options) x = 0;
}.

(** ** Arithmetic *)

Lemma givenBack_holds (g : goroutine (task := task)) : givenBack g ≤ length (holds g).
Proof.
  unfold givenBack. induction g; simpl in *; try lia. destruct phase; simpl; lia.
Qed.

Lemma pendingHold_occ p (g : goroutine (task := task)) : pendingHold p g ≤ occ p (holds g).
Proof.
  unfold pendingHold. induction g; simpl in *; try lia.
  all: rewrite ?additive_app, ?occ_one; try (rewrite (additive_cons (occ p))); try (case_decide; lia); lia.
Qed.

Lemma takes_locks (g : goroutine (task := task)) : takes g ≤ locks g.
Proof. unfold takes, locks. induction g; simpl in *; lia. Qed.

(** Sums over all but one goroutine. *)
Lemma sum_gap {A} (f g : A → nat) (l : list A) i y :
  (∀ z, f z ≤ g z) → l !! i = Some y → sum_list_with f l + (g y - f y) ≤ sum_list_with g l.
Proof.
  intros Hfg. revert i. induction l as [|z l IH]; intros [|i] Hi; simplify_eq/=.
  - pose proof (Hfg y). pose proof (sum_list_with_mono f g l ltac:(auto)). lia.
  - specialize (IH i Hi). pose proof (Hfg z). lia.
Qed.

Lemma wrap32_add a k : wrap32 (wrap32 a + k) = wrap32 (a + k).
Proof.
  unfold wrap32. f_equal.
  replace ((a + 2 ^ 31) `mod` 2 ^ 32 - 2 ^ 31 + k + 2 ^ 31)%Z with ((a + 2 ^ 31) `mod` 2 ^ 32 + k)%Z by lia.
  rewrite Z.add_mod_idemp_l by lia. f_equal. lia.
Qed.

(** A goroutine about to give a slot back holds one of those counted. *)
Lemma release_outstanding x i p next :
  slots_inv x → pool x !! i = Some (releasing releaseInner p next) →
  0 < outstanding (inner (slots (worker x))).
Proof.
  intros Hinv Hi. pose proof (inv_out x Hinv) as Hout. unfold measure, total in Hout.
  pose proof (sum_gap givenBack (length ∘ holds) (pool x) i _ givenBack_holds Hi) as Hgap.
  pose proof (givenBack_holds next).
  assert (givenBack (releasing releaseInner p next) = givenBack next) as Hg by done.
  rewrite Hg in Hgap. simpl in Hgap. lia.
Qed.

Lemma pending_held x i g q : pool x !! i = Some g → 0 < pendingHold q g → 0 < measure (occ q) x.
Proof.
  intros Hi Hq. pose proof (sum_list_with_elem (occ q ∘ holds) _ _ _ Hi).
  pose proof (pendingHold_occ q g). unfold measure. simpl in *. lia.
Qed.

(** ** One goroutine moves *)

Section Run.
  Variables (x : world (task := task) (S := S)) (i : nat) (c : choice (task := task)).
  Variables (g g' : goroutine (task := task)) (started : list (goroutine (task := task))).
  Variable w' : workerState (task := task) (S := S).
  Hypothesis Hinv : slots_inv x.
  Hypothesis Hi : pool x !! i = Some g.
  Hypothesis Hm : move isEmpty options c i g (worker x) = Some (g', started, w').

Definition ran : world := mkWorld (<[i := g']> (pool x) ++ started) w' (stopCalled x).

Lemma total_ran f : total f ran + f g = total f x + f g' + sum_list_with f started.
Proof.
  unfold total, ran. simpl. rewrite sum_list_with_app.
  pose proof (sum_list_with_insert f (pool x) i g g' Hi). lia.
Qed.

Lemma ran_sound : g' ≠ crashed ∧ total (broken options) ran = 0.
Proof.
  assert (broken options g = 0) as Hb.
  { pose proof (inv_sound x Hinv) as Hs. pose proof (sum_list_with_elem (broken options) _ _ _ Hi).
    unfold total in Hs. lia. }
  destruct (move_sound isEmpty options c i g (worker x) g' started w') as [Hc Hb']; try done.
  - apply Hinv.
  - intros p next ->. by eapply release_outstanding.
  - split; [done|]. pose proof (total_ran (broken options)). pose proof (inv_sound x Hinv). lia.
Qed.

Lemma ran_measure μ `{!Additive μ} :
  measure μ ran + μ (freed g) = measure μ x + μ (taken (worker x) w').
Proof.
  pose proof (move_holds isEmpty options μ c i g (worker x) g' started w' (inv_ok x Hinv) Hm (proj1 ran_sound)).
  pose proof (total_ran (μ ∘ holds)) as Ht. unfold total in Ht. unfold measure. simpl in *. lia.
Qed.

Lemma ran_slots :
  supplier_ok (inner (slots w')) ∧
  outstanding (inner (slots w')) + total givenBack ran = measure length ran ∧
  (MaxSlots (inner (slots w')) ≠ 0%Z →
   (Z.of_nat (outstanding (inner (slots w'))) ≤ MaxSlots (inner (slots w')))%Z).
Proof.
  destruct (move_slots isEmpty options c i g (worker x) g' started w') as (Hok & Hmax & Hout & Hb); try done.
  - apply Hinv.
  - intros p next ->. by eapply release_outstanding.
  - apply ran_sound.
  - pose proof (inv_out x Hinv) as Hout0. pose proof (ran_measure length) as Hl.
    pose proof (total_ran givenBack). split_and!; [done|lia|]. rewrite Hmax. intros Hne.
    destruct (taken (worker x) w') as [|p l] eqn:Ht; [|by apply Hb].
    pose proof (inv_max x Hinv Hne). simpl in Hl.
    enough (outstanding (inner (slots w')) ≤ outstanding (inner (slots (worker x)))) by lia.
    assert (givenBack g ≤ givenBack g' + sum_list_with givenBack started + length (freed g)).
    { destruct ran_sound as [Hc _]. clear -Hm Hc.
      destruct g; simpl in Hm; open_move Hm; unfold givenBack; simpl; done || lia. }
    simpl in Hout. lia.
Qed.

Lemma ran_issued :
  issuedSlotsAtomic (slots w') =
  wrap32 (Z.of_nat (measure length ran) - Z.of_nat (total notIssued ran)).
Proof.
  destruct (move_issued isEmpty options c i g (worker x) g' started w') as (k & Hk & Heq); try done.
  { apply Hinv. }
  { apply ran_sound. }
  pose proof (inv_issued x Hinv) as Hi0. pose proof (ran_measure length) as Hl.
  pose proof (total_ran notIssued). rewrite Hk, Hi0.
  replace (Z.of_nat (measure length ran) - Z.of_nat (total notIssued ran))%Z with
    (Z.of_nat (measure length x) - Z.of_nat (total notIssued x) + k)%Z by lia.
  case_decide; [|apply wrap32_add]. f_equal. lia.
Qed.

Lemma next_taken :
  nextPermit (slots w') = nextPermit (slots (worker x)) + length (taken (worker x) w') ∧
  (taken (worker x) w' = [] ∨ taken (worker x) w' = [nextPermit (slots (worker x))]).
Proof.
  assert (nextPermit (slots w') = nextPermit (slots (worker x)) ∨
          nextPermit (slots w') = Datatypes.S (nextPermit (slots (worker x)))) as [Hn|Hn].
  { pose proof (inv_ok x Hinv) as Hok. clear -Hm Hok.
    destruct g; simpl in Hm; open_move Hm; slot_laws; auto. }
  - rewrite taken_same by done. simpl. split; [lia|by left].
  - rewrite taken_next by done. simpl. split; [lia|by right].
Qed.

Lemma ran_once p : measure (occ p) ran ≤ if decide (p < nextPermit (slots w')) then 1 else 0.
Proof.
  pose proof (ran_measure (occ p)). pose proof (inv_once x Hinv p) as Ho.
  destruct next_taken as [Hn [Ht|Ht]]; rewrite Hn; rewrite Ht in *; simpl in *;
    rewrite ?additive_nil, ?occ_one in *; repeat case_decide; lia.
Qed.

Lemma ran_callbacks p :
  p ∈ extraReleaseCallback (slots w') → p < nextPermit (slots w') ∧ total (pendingHold p) ran = 0.
Proof.
  intros Hp. pose proof (move_pending isEmpty options p c i g (worker x) g' started w' (inv_ok x Hinv) Hm).
  pose proof (total_ran (pendingHold p)) as Ht. destruct next_taken as [Hn Htk].
  assert (∀ p, p ∈ extraReleaseCallback (slots (worker x)) → occ p (taken (worker x) w') = 0) as Hold.
  { intros q Hq. apply (inv_callbacks x Hinv) in Hq as [Hq _].
    destruct Htk as [->| ->]; [done|]. rewrite occ_one. case_decide; lia. }
  destruct (move_held isEmpty options c i g (worker x) g' started w' (inv_ok x Hinv) Hm)
    as [Hcb _|q Hq Hq' Ho Hf Htn Hcb _ _].
  - rewrite Hcb in Hp. pose proof (Hold p Hp). apply (inv_callbacks x Hinv) in Hp. lia.
  - rewrite Hcb, elem_of_union, elem_of_singleton in Hp. destruct Hp as [->|Hp].
    + pose proof (ran_once q) as Hle. pose proof (pending_held x i g q Hi ltac:(lia)) as Hpos.
      pose proof (ran_measure (occ q)) as Hr. rewrite Htn, Hf in Hr.
      assert (pool ran !! i = Some g') as Hi'.
      { unfold ran. simpl. rewrite lookup_app_l by (rewrite length_insert; by eapply lookup_lt_Some).
        apply list_lookup_insert_eq. by eapply lookup_lt_Some. }
      pose proof (sum_gap (pendingHold q) (occ q ∘ holds) (pool ran) i g' (pendingHold_occ q) Hi').
      unfold measure, total in *. simpl in *. case_decide; lia.
    + pose proof (Hold p Hp). apply (inv_callbacks x Hinv) in Hp. lia.
Qed.

Lemma ran_held :
  heldSlotCount w' = Z.of_nat (measure (among (extraReleaseCallback (slots w'))) ran).
Proof.
  pose proof (inv_held x Hinv) as Hh. destruct next_taken as [Hn Htk].
  pose proof (ran_measure (among (extraReleaseCallback (slots (worker x))))) as Hr.
  destruct (move_held isEmpty options c i g (worker x) g' started w' (inv_ok x Hinv) Hm)
    as [Hcb Hw|q Hq Hq' Ho Hf Htn Hcb Hw _].
  - rewrite Hw, Hh, Hcb.
    enough (among (extraReleaseCallback (slots (worker x))) (taken (worker x) w') = 0) by lia.
    destruct Htk as [->| ->]; [done|]. rewrite among_one. case_decide as Hd; [|done].
    apply (inv_callbacks x Hinv) in Hd. lia.
  - rewrite Hcb, Hw, Hh.
    assert (q ∉ extraReleaseCallback (slots (worker x))) as Hnq.
    { intros [_ Hz]%(inv_callbacks x Hinv). pose proof (sum_list_with_elem (pendingHold q) _ _ _ Hi).
      unfold total in Hz. lia. }
    assert (measure (among ({[q]} ∪ extraReleaseCallback (slots (worker x)))) ran =
            measure (among (extraReleaseCallback (slots (worker x)))) ran + measure (occ q) ran) as ->.
    { unfold measure. rewrite among_insert by done. rewrite (sum_list_with_plus _
        (among (extraReleaseCallback (slots (worker x))) ∘ holds) (occ q ∘ holds)); [lia|].
      intros z. by apply among_insert. }
    rewrite Htn, Hf, !additive_nil in Hr. pose proof (ran_once q) as Hle.
    pose proof (ran_measure (occ q)) as Hro. rewrite Htn, Hf, !additive_nil in Hro.
    pose proof (pending_held x i g q Hi ltac:(lia)). case_decide; lia.
Qed.

Lemma ran_lock : total locks ran = lockCount w'.
Proof.
  pose proof (inv_lock x Hinv) as Hl. pose proof (sum_list_with_elem locks _ _ _ Hi) as He.
  unfold total in Hl. pose proof (total_ran locks) as Ht. unfold total in Ht.
  pose proof (move_lock isEmpty options c i g (worker x) g' started w' ltac:(lia) Hm (proj1 ran_sound)).
  unfold total. lia.
Qed.

Lemma ran_room e : eagerExecutor options = Some e → (0 < maxConcurrent (eagerOptions e))%Z →
  (heldSlotCount w' ≤ maxConcurrent (eagerOptions e))%Z ∧
  (0 < total takes ran → (heldSlotCount w' < maxConcurrent (eagerOptions e))%Z).
Proof.
  intros He Hpos. destruct (inv_room x Hinv e He Hpos) as [Hle Hlt].
  destruct (move_room isEmpty options c i g (worker x) g' started w' e He Hpos Hm) as [Hroom Hsame].
  pose proof (sum_list_with_elem takes _ _ _ Hi) as Htk. pose proof (total_ran takes) as Ht.
  pose proof (inv_lock x Hinv) as Hl. pose proof (takes_locks g) as Hgl.
  pose proof (sum_gap takes locks (pool x) i g takes_locks Hi) as Hgap.
  unfold total in *. unfold lockCount in Hl.
  destruct (move_held isEmpty options c i g (worker x) g' started w' (inv_ok x Hinv) Hm)
    as [_ Hw|q _ _ _ _ _ _ Hw Htg].
  - split; [lia|]. intros Hrun. destruct (decide (0 < sum_list_with takes (pool x))) as [Hx|Hx].
    + pose proof (Hlt Hx). lia.
    + destruct Hroom as [?|?]; lia.
  - assert (sum_list_with takes (<[i:=g']> (pool x) ++ started) = 0) as Hz.
    { pose proof (sum_list_with_insert takes (pool x) i g g' Hi).
      assert (takes g' + sum_list_with takes started = 0 ∧ takes g = 1 ∧ locks g = 1) as (?&?&?).
      { clear -Hm Hw Htg. destruct g; simpl in Hm; open_move Hm; unfold takes, locks in *; simpl in *; lia. }
      rewrite sum_list_with_app. destruct (countLock (worker x)); lia. }
    unfold ran. simpl. rewrite Hz. pose proof (Hlt ltac:(lia)). lia.
Qed.

Lemma ran_used p : p ∈ usedSlots (slots w') → 0 < total (mayUse p) ran.
Proof.
  intros Hp. pose proof (total_ran (mayUse p)) as Ht. pose proof (sum_list_with_elem (mayUse p) _ _ _ Hi) as He.
  destruct (move_used isEmpty options p c i g (worker x) g' started w' (inv_ok x Hinv) Hm (proj1 ran_sound) Hp)
    as [[Hold Hle]|Hnew].
  - apply (inv_used x Hinv) in Hold. unfold total in *. lia.
  - unfold total in *. lia.
Qed.

Lemma ran_inv : slots_inv ran.
Proof.
  destruct ran_slots as (? & ? & ?). pose proof ran_sound as [_ ?].
  split; simpl; auto using ran_once, ran_issued, ran_callbacks, ran_held, ran_lock, ran_room, ran_used.
Qed.
End Run.

(** ** The other events *)

(** The pool changes, but no slot moves in or out. *)
Lemma inv_pool x l (w' : workerState) b :
  slots w' = slots (worker x) → heldSlotCount w' = heldSlotCount (worker x) →
  countLock w' = countLock (worker x) → eagerTaskQueueCh w' = eagerTaskQueueCh (worker x) →
  (∀ μ, Additive μ → sum_list_with (μ ∘ holds) l = sum_list_with (μ ∘ holds) (pool x)) →
  (∀ p, total (mayUse p) x ≤ sum_list_with (mayUse p) l) →
  (∀ f, f = givenBack ∨ f = notIssued ∨ f = locks ∨ f = takes ∨ f = broken options ∨ (∃ p, f = pendingHold p) →
        sum_list_with f l = total f x) →
  slots_inv x → slots_inv (mkWorld l w' b).
Proof.
  intros Hs Hh Hl Hq Hμ Hu Hf Hinv. destruct Hinv.
  assert (∀ μ, Additive μ → measure μ (mkWorld l w' b) = measure μ x) as Hm.
  { intros μ ?. unfold measure. simpl. by rewrite Hq, Hμ. }
  assert (∀ f, f = givenBack ∨ f = notIssued ∨ f = locks ∨ f = takes ∨ f = broken options ∨ (∃ p, f = pendingHold p) →
    total f (mkWorld l w' b) = total f x) as Ht by done.
  split; simpl; rewrite ?Hs, ?Hh; try done.
  - intros p. rewrite Hm by apply _. apply inv_once0.
  - rewrite Hm, Ht by (apply _ || tauto). done.
  - rewrite Hm, Ht by (apply _ || tauto). done.
  - intros p Hp. rewrite Ht by eauto 10. auto.
  - rewrite Hm by apply _. done.
  - rewrite Ht by tauto. unfold lockCount. by rewrite Hl.
  - intros e He Hpos. rewrite Ht by tauto. auto.
  - intros p Hp. specialize (inv_used0 p Hp). specialize (Hu p). unfold total in *. simpl. lia.
  - rewrite Ht by tauto. done.
Qed.

Lemma sum_two {A} (f : A → nat) (l : list A) a b y z y' z' :
  l !! a = Some y → l !! b = Some z → a ≠ b →
  sum_list_with f (<[a := y']> (<[b := z']> l)) + f y + f z = sum_list_with f l + f y' + f z'.
Proof.
  intros Ha Hb Hne. pose proof (sum_list_with_insert f l b z z' Hb).
  pose proof (sum_list_with_insert f (<[b := z']> l) a y y') as Hi.
  rewrite list_lookup_insert_ne in Hi by done. specialize (Hi Ha). lia.
Qed.

(** A permit or a task changes hands. *)
Lemma inv_hand x a b y z y' z' :
  pool x !! a = Some y → pool x !! b = Some z → a ≠ b →
  (∀ μ, Additive μ → μ (holds y') + μ (holds z') = μ (holds y) + μ (holds z)) →
  (∀ p, mayUse p y + mayUse p z ≤ mayUse p y' + mayUse p z') →
  (∀ f, f = givenBack ∨ f = notIssued ∨ f = locks ∨ f = takes ∨ f = broken options ∨ (∃ p, f = pendingHold p) →
        f y' + f z' = f y + f z) →
  slots_inv x → slots_inv (mkWorld (<[a := y']> (<[b := z']> (pool x))) (worker x) (stopCalled x)).
Proof.
  intros Ha Hb Hne Hμ Hu Hf. apply inv_pool; try done.
  - intros μ Hadd. pose proof (sum_two (μ ∘ holds) _ _ _ _ _ y' z' Ha Hb Hne).
    specialize (Hμ μ Hadd). simpl in *. lia.
  - intros p. pose proof (sum_two (mayUse p) _ _ _ _ _ y' z' Ha Hb Hne). specialize (Hu p). unfold total. lia.
  - intros f Hin. pose proof (sum_two f _ _ _ _ _ y' z' Ha Hb Hne). specialize (Hf f Hin). unfold total. lia.
Qed.

(** A goroutine without slots starts. *)
Lemma inv_spawn x g w' b :
  slots w' = slots (worker x) → heldSlotCount w' = heldSlotCount (worker x) →
  countLock w' = countLock (worker x) → eagerTaskQueueCh w' = eagerTaskQueueCh (worker x) →
  holds g = [] → (∀ f, f = givenBack ∨ f = notIssued ∨ f = locks ∨ f = takes ∨ f = broken options ∨
    (∃ p, f = pendingHold p) → f g = 0) →
  slots_inv x → slots_inv (mkWorld (pool x ++ [g]) w' b).
Proof.
  intros ???? Hh Hf. apply inv_pool; try done.
  - intros μ Hadd. rewrite sum_list_with_app. simpl. rewrite Hh, additive_nil. lia.
  - intros p. rewrite sum_list_with_app. unfold total. lia.
  - intros f Hin. rewrite sum_list_with_app. simpl. rewrite (Hf f Hin). unfold total. lia.
Qed.

Lemma step_inv e x x' : slots_inv x → step isEmpty options e x = Some x' → slots_inv x'.
Proof.
  intros Hinv Hs. destruct e as [i c|a|a b| | | | |commands|]; simpl in Hs.
  - destruct (pool x !! i) as [g|] eqn:Hi; [|done]. simpl in Hs.
    destruct (move isEmpty options c i g (worker x)) as [[[g' st] w']|] eqn:Hm; simplify_eq/=.
    by eapply ran_inv.
  - destruct (pool x !! a) as [[]|] eqn:Ha; try done. destruct (pool x !! i) as [g|] eqn:Hi; [|done].
    simpl in Hs. destruct (receivePermit g permit) as [g'|] eqn:Hg; simplify_eq/=.
    eapply inv_hand; [done|done|by intros ->; simplify_eq/=|..|done].
    all: destruct g; simplify_eq/=.
    + intros μ ?. simpl. rewrite !additive_nil. lia.
    + intros μ ?. simpl. rewrite !additive_nil. lia.
    + intros p. unfold mayUse. simpl. lia.
    + intros p. unfold mayUse. simpl. lia.
    + by intros f [->|[->|[->|[->|[->|[p ->]]]]]].
    + by intros f [->|[->|[->|[->|[->|[p ->]]]]]].
  - destruct (pool x !! a) as [[]|] eqn:Ha; try done. destruct (pool x !! b) as [g'|] eqn:Hi; [|done].
    simpl in Hs. destruct (receiveTask g' t p) as [g''|] eqn:Hg; simplify_eq/=.
    eapply inv_hand; [done|done|by intros ->; simplify_eq/=|..|done].
    all: destruct g'; simplify_eq/=.
    + intros μ ?. simpl. rewrite (additive_cons μ p (holds _)), ?additive_nil. lia.
    + intros μ ?. simpl. rewrite (additive_cons μ p (holds _)), ?additive_nil. lia.
    + intros q. unfold mayUse. simpl. lia.
    + intros q. unfold mayUse. simpl. lia.
    + intros f [->|[->|[->|[->|[->|[q ->]]]]]]; unfold givenBack, notIssued, locks, takes, broken, pendingHold; simpl; lia.
    + intros f [->|[->|[->|[->|[->|[q ->]]]]]]; unfold givenBack, notIssued, locks, takes, broken, pendingHold; simpl; lia.
  - destruct (stopCalled x); simplify_eq/=. eapply inv_spawn; try done.
    by intros f [->|[->|[->|[->|[->|[p ->]]]]]].
  - simplify_eq/=. by apply (inv_pool x).
  - simplify_eq/=. by apply (inv_pool x).
  - simplify_eq/=. by apply (inv_pool x).
  - simplify_eq/=. eapply inv_spawn; try done. by intros f [->|[->|[->|[->|[->|[p ->]]]]]].
  - simplify_eq/=. eapply inv_spawn; try done. by intros f [->|[->|[->|[->|[->|[p ->]]]]]].
Qed.

Lemma runEvents_inv es x x' : slots_inv x → runEvents isEmpty options es x = Some x' → slots_inv x'.
Proof.
  revert x. induction es as [|e es IH]; intros x Hinv Hr; simplify_eq/=; [done|].
  destruct (step isEmpty options e x) as [y|] eqn:Hs; [|done]. eapply IH; [|done]. by eapply step_inv.
Qed.

Lemma total_Start f s bucket fixed autoscaling :
  total f (Start s bucket fixed autoscaling) =
  fixed * f pollerLoop + autoscaling * f autoLoop + f closer + f dispatch + f eagerDispatch.
Proof.
  unfold total. simpl. rewrite !sum_list_with_app. simpl.
  assert (∀ n g, sum_list_with f (replicate n g) = n * f g) as Hr.
  { intros n g. induction n as [|n IH]; simpl; lia. }
  rewrite !Hr. lia.
Qed.

Lemma Start_inv s bucket fixed autoscaling :
  supplier_ok s → outstanding s = 0 → (0 ≤ MaxSlots s)%Z →
  slots_inv (Start s bucket fixed autoscaling).
Proof.
  intros Hok Hout Hmax.
  assert (∀ μ, Additive μ → measure μ (Start s bucket fixed autoscaling) = 0) as Hm.
  { intros μ Hadd. unfold measure. fold (total (μ ∘ holds) (Start s bucket fixed autoscaling)).
    rewrite total_Start. simpl. rewrite !additive_nil. lia. }
  split; simpl; rewrite ?total_Start, ?Hm by apply _; try done.
  - intros p. rewrite Hm by apply _. lia.
  - rewrite Hout. unfold givenBack. simpl. lia.
  - intros _. lia.
  - unfold notIssued. simpl. by rewrite !Nat.mul_0_r.
  - unfold locks. simpl. unfold lockCount. simpl. lia.
  - intros e _ Hpos. unfold takes. simpl. split; [lia|]. intros; lia.
  - unfold broken. simpl. lia.
Qed.

(** ** What it means *)

Definition running x : nat := total processes x.

Lemma processes_gap (g : goroutine (task := task)) : processes g + givenBack g ≤ length (holds g).
Proof.
  pose proof (givenBack_holds g). unfold givenBack in *. destruct g; simpl in *; lia.
Qed.

Lemma occ_elem p l : p ∈ l → 0 < occ p l.
Proof.
  intros Hp. apply list_elem_of_split in Hp as (l1 & l2 & ->).
  rewrite additive_app, (additive_cons (occ p)), occ_one, decide_True by done. lia.
Qed.

Lemma mayUse_holds p (g : goroutine (task := task)) : 0 < mayUse p g → p ∈ holds g.
Proof.
  unfold mayUse. induction g; simpl; try lia; try (rewrite elem_of_cons; auto; fail).
  - destruct phase; simpl; try (rewrite elem_of_cons; auto; fail).
    case_decide; subst; [by left|]. intros. right. auto.
  - auto.
  - case_decide; [|lia]. subst. intros _. by left.
Qed.

Lemma running_bounded x : slots_inv x → running x ≤ outstanding (inner (slots (worker x))).
Proof.
  intros Hinv. pose proof (inv_out x Hinv) as Hout. unfold running, total, measure in *.
  pose proof (sum_list_with_mono (λ g, processes g + givenBack g) (length ∘ holds) (pool x)
    ltac:(intros; apply processes_gap)) as Hm.
  rewrite (sum_list_with_plus _ processes givenBack) in Hm by done. lia.
Qed.

(** Two places never hold the same slot. *)
Lemma held_once x i j g h p :
  slots_inv x → pool x !! i = Some g → pool x !! j = Some h → p ∈ holds g → p ∈ holds h → i = j.
Proof.
  intros Hinv Hi Hj Hg Hh. destruct (decide (i = j)) as [|Hne]; [done|].
  pose proof (inv_once x Hinv p) as Ho. unfold measure in Ho.
  pose proof (sum_two (occ p ∘ holds) (pool x) i j g h (returned []) (returned []) Hi Hj Hne) as Ht.
  pose proof (occ_elem p _ Hg). pose proof (occ_elem p _ Hh). simpl in Ht. change (occ p []) with 0 in Ht.
  case_decide; lia.
Qed.

(** C6. However the goroutines of a started worker are scheduled, and whatever
    the service, the limiters, the sessions and the clients for eager tasks do:
    no goroutine panics over a slot; at most as many tasks run at once as the
    supplier has slots; a slot is never in two hands; the executor for eager
    activities counts exactly the slots its requests hold, and keeps to its
    maximum; a slot marked as used belongs to one goroutine that still has to
    give it back. *)
Theorem slots_accounted s bucket fixed autoscaling es x :
  supplier_ok s → outstanding s = 0 → (0 ≤ MaxSlots s)%Z →
  runEvents isEmpty options es (Start s bucket fixed autoscaling) = Some x →
  (crashed ∉ pool x) ∧
  (MaxSlots (inner (slots (worker x))) ≠ 0%Z →
   (Z.of_nat (running x) ≤ MaxSlots (inner (slots (worker x))))%Z) ∧
  (∀ i j g h p, pool x !! i = Some g → pool x !! j = Some h → p ∈ holds g → p ∈ holds h → i = j) ∧
  heldSlotCount (worker x) = Z.of_nat (measure (among (extraReleaseCallback (slots (worker x)))) x) ∧
  (∀ e, eagerExecutor options = Some e → (0 < maxConcurrent (eagerOptions e))%Z →
   (heldSlotCount (worker x) ≤ maxConcurrent (eagerOptions e))%Z) ∧
  (∀ p, p ∈ usedSlots (slots (worker x)) → ∃ i g, pool x !! i = Some g ∧ p ∈ holds g).
Proof.
  intros Hok Hout Hmax Hr. pose proof (runEvents_inv es _ _ (Start_inv s bucket fixed autoscaling Hok Hout Hmax) Hr) as Hinv.
  split_and!.
  - intros [i Hi]%list_elem_of_lookup. pose proof (sum_list_with_elem (broken options) _ _ _ Hi) as Hb.
    pose proof (inv_sound x Hinv). unfold total, broken in *. simpl in *. lia.
  - intros Hne. pose proof (inv_max x Hinv Hne). pose proof (running_bounded x Hinv). lia.
  - intros i j g h p. by apply held_once.
  - apply Hinv.
  - intros e He Hpos. by apply (inv_room x Hinv).
  - intros p Hp. apply (inv_used x Hinv), sum_list_with_pos in Hp as (i & g & Hi & Hu).
    exists i, g. auto using mayUse_holds.
Qed.
End Accounts.

(** ** A semaphore *)

(** A semaphore as its documentation describes it: size and units held. *)
Record counter : Type := mkCounter { counter_size : Z; counter_held : Z }.

#[global] Instance counter_weighted : Weighted counter := {
  NewWeighted n := mkCounter n 0;
  Acquire done n w :=
    (if decide (counter_held w + n ≤ counter_size w)%Z
     then [(true, mkCounter (counter_size w) (counter_held w + n))] else []) ++
    (if done : bool then [(false, w)] else []);
  TryAcquire n w :=
    if decide (counter_held w + n ≤ counter_size w)%Z
    then Some (mkCounter (counter_size w) (counter_held w + n)) else None;
  Release n w :=
    if decide (counter_held w < n)%Z then Panicked (panicString "semaphore: released more than held")
    else Returned (mkCounter (counter_size w) (counter_held w - n));
}.

#[global] Program Instance counter_laws : WeightedLaws counter := {
  sem_size := counter_size;
  sem_held := counter_held;
}.
Next Obligation. done. Qed.
Next Obligation.
  intros done n w ok w' Hin. simpl in Hin. apply elem_of_app in Hin as [Hin|Hin].
  - case_decide; [|by apply not_elem_of_nil in Hin]. apply list_elem_of_singleton in Hin as [= -> ->].
    simpl. split_and!; done || lia.
  - destruct done; [|by apply not_elem_of_nil in Hin]. by apply list_elem_of_singleton in Hin as [= -> ->].
Qed.
Next Obligation. intros n w. simpl. by case_decide. Qed.
Next Obligation. intros n w w'. simpl. case_decide; [|done]. intros [= <-]. simpl. split_and!; done || lia. Qed.
Next Obligation.
  intros n w Hn. simpl. rewrite decide_False by lia. eexists. split_and!; done.
Qed.

Definition oneSlot : FixedSizeSlotSupplier counter := mkFixedSize 1 (NewWeighted 1).

Definition eagerByOne : baseWorkerOptions :=
  mkWorkerOptions false false true (Some (mkEagerExecutor (mkEagerOptions false "q" 1 3) true)).

Definition eagerActivity : Command :=
  mkCommand COMMAND_TYPE_SCHEDULE_ACTIVITY_TASK
    (Some (Command_ScheduleActivityTaskCommandAttributes
       (mkScheduleActivityTask "1" "a" "q" None true (mkActivityTimeouts 0 0 0 0) false ∅ None None))) None [].

(** A poller gets the only slot and a task; an eager activity is refused. *)
Definition oneTask : list (event (task := bool)) :=
  [run 0 (pick 0); run 4 (pick 0); run 4 (pick 0); handPermit 4; run 0 (pick 0); run 0 (pick 0); run 0 (pick 0);
   run 0 (pick 0); run 0 (pick 0); run 0 (polled false); handTask 0 2; run 2 (pick 0); run 5 (pick 0);
   completeTask [eagerActivity]; run 6 (pick 0); run 6 (pick 0); run 6 (pick 0)].

Lemma slots_accounted_witness :
  match runEvents (λ b, b) eagerByOne oneTask (Start oneSlot None 1 0) with
  | Some x => running x = 1 ∧ usedSlots (slots (worker x)) = {[0]} ∧ (Z.of_nat (running x) ≤ 1)%Z
  | None => False
  end.
Proof.
  destruct (runEvents (λ b, b) eagerByOne oneTask (Start oneSlot None 1 0)) as [x|] eqn:Hx.
  - assert (supplier_ok oneSlot) as Hok by (simpl; lia).
    pose proof (slots_accounted (λ b : bool, b) eagerByOne oneSlot None 1 0 oneTask x Hok eq_refl
      ltac:(simpl; lia) Hx) as (_ & Hb & _).
    vm_compute in Hx. injection Hx as <-. split; [reflexivity|]. split; [reflexivity|]. by apply Hb.
  - vm_compute in Hx. discriminate.
Defined.
