(* ===== verification/TaskExecution.v ===== *)
(** * Work on a context leaves its execution alone

    A context belongs to one workflow execution.  Whatever is done with it (its
    event handler replaced, its history read again, the task processed,
    completed or failed, panics included), the execution stays the one it was
    created for. *)

From stdpp Require Import base list gmap strings.
From S2P Require Import Prelude Proto Floats CommandMachine CommandsHelper Flags History Replay Update Errors Environment EventHandlers TaskContext TaskCompletion TaskProcessing.
Open Scope Z_scope.

(** ** The parts of a run *)

Definition runExecution (s : taskRun) : executionInfo := w_execution (run_context s).
Definition processingExecution (s : processing) : executionInfo := w_execution (p_context s).

Lemma afterCall_execution eh w : w_execution (afterCall eh w) = w_execution w.
Proof. unfold afterCall. by destruct (completed (eh_env eh)) as [[? ?]|]. Qed.

Lemma keeps_callHandler {A} (m : Go eventHandler A) : keeps w_execution (callHandler m).
Proof.
  intros w. unfold final, callHandler. destruct (w_eventHandler w) as [eh|]; [|done].
  destruct (m eh) as [r eh']. apply afterCall_execution.
Qed.
#[export] Hint Resolve keeps_callHandler : keeps.

Lemma keeps_inContext {A} (m : Ctx A) : keeps w_execution m → keeps runExecution (inContext m).
Proof.
  intros Hm s. specialize (Hm (run_context s)). unfold final, runExecution, inContext in *.
  by destruct (m (run_context s)).
Qed.

Lemma keeps_inTask_execution {A} (m : Ctx A) : keeps w_execution m → keeps processingExecution (inTask m).
Proof.
  intros Hm s. specialize (Hm (p_context s)). unfold final, processingExecution, inTask in *.
  by destruct (m (p_context s)).
Qed.

Lemma keeps_inHistory {A} (m : Go history A) : keeps processingExecution (inHistory m).
Proof. intros s. unfold final, processingExecution, inHistory. by destruct (m (p_history s)). Qed.

Lemma keeps_onHistory {A} (m : Go (pollTask * option historyIterator) A) : keeps runExecution (onHistory m).
Proof.
  intros s. unfold final, runExecution, onHistory. by destruct (m (run_task s, run_iterator s)) as [r [task it]].
Qed.
#[export] Hint Resolve keeps_inContext keeps_inTask_execution keeps_inHistory keeps_onHistory : keeps.

Section Execution.
  Context `{WorkflowExecutionEventHandler}.
  Variable wth : workflowTaskHandlerImpl.
  Variable now : Z.
  Variable dataConverter : DataConverter.
  Variable ErrorToFailure : option goError → option Failure.
  Variable errorText : goError → string.
  Variable implementation : float64 → Z.
  Variable decodeJSON : string → string + list HistoryEvent.
  Variable unmarshal : string → string + list HistoryEvent.
  Variable visitPayloads : list HistoryEvent → string + list HistoryEvent.
  Variable allowed : gmap sdkFlag bool.
  Variable ppMgr : option (string → HistoryEvent → option goError).
  Variable HistoryEventToString : HistoryEvent → string.
  Variable CommandToString : Command → string.

(** ** The context *)

Lemma keeps_clearState : keeps w_execution clearState.
Proof. unfold clearState. keep_steps; done. Qed.
#[local] Hint Resolve keeps_clearState : keeps.

Lemma keeps_createEventHandler : keeps w_execution (createEventHandler wth now).
Proof. unfold createEventHandler. keep_steps; done. Qed.
#[local] Hint Resolve keeps_createEventHandler : keeps.

Lemma keeps_resetInfo : keeps runExecution resetInfo.
Proof.
  unfold resetInfo. keep_steps. apply keeps_inContext, keep_modify. intros w. unfold set_currentInfo.
  by destruct (w_eventHandler w).
Qed.
#[local] Hint Resolve keeps_resetInfo : keeps.

Lemma keeps_ResetIfStale : keeps runExecution (ResetIfStale wth now decodeJSON unmarshal visitPayloads).
Proof. unfold ResetIfStale, resetStateIfDestroyed. keep_steps. Qed.
#[local] Hint Resolve keeps_ResetIfStale : keeps.

(** ** Completing a task *)

Lemma keeps_sendTask t : keeps w_execution (sendTask t).
Proof. intros w. unfold final, sendTask. destruct (laTunnel w) as [te|]; [|done]. by destruct (tunnel_stopped te). Qed.
#[local] Hint Resolve keeps_sendTask : keeps.

Lemma keeps_startLaTasks ids : keeps w_execution (startLaTasks now ids).
Proof. induction ids as [|id ids IH]; simpl; keep_steps. Qed.
#[local] Hint Resolve keeps_startLaTasks : keeps.

Lemma keeps_answerQueries qs : keeps w_execution (answerQueries errorText qs).
Proof. induction qs as [|[id q] qs IH]; simpl; unfold ProcessQuery; keep_steps. Qed.
#[local] Hint Resolve keeps_answerQueries : keeps.

Lemma keeps_completeWorkflow task cs ms force :
  keeps w_execution (completeWorkflow wth dataConverter ErrorToFailure errorText task cs ms force).
Proof. unfold completeWorkflow, answerQueryTask, ProcessQuery. keep_steps. Qed.
#[local] Hint Resolve keeps_completeWorkflow : keeps.

Lemma keeps_CompleteWorkflowTask wait :
  keeps w_execution (CompleteWorkflowTask wth now dataConverter ErrorToFailure errorText wait).
Proof. unfold CompleteWorkflowTask, startLocalActivities. keep_steps; done. Qed.
#[local] Hint Resolve keeps_CompleteWorkflowTask : keeps.

Lemma keeps_applyWorkflowPanicPolicy err :
  keeps w_execution (applyWorkflowPanicPolicy wth now dataConverter ErrorToFailure errorText err).
Proof. unfold applyWorkflowPanicPolicy. keep_steps. Qed.
#[local] Hint Resolve keeps_applyWorkflowPanicPolicy : keeps.

Lemma keeps_ProcessLocalActivityResult lar :
  keeps w_execution (ProcessLocalActivityResult wth now dataConverter ErrorToFailure errorText implementation lar).
Proof. unfold ProcessLocalActivityResult. keep_steps. Qed.

Lemma keeps_retryLaTask id : keeps w_execution (retryLaTask id).
Proof. unfold retryLaTask. keep_steps. Qed.

Lemma keeps_tunnelStopped : keeps w_execution tunnelStopped.
Proof. unfold tunnelStopped. keep_steps. Qed.

(** ** Processing a task *)

Lemma keeps_andThen_execution m k :
  keeps processingExecution m → keeps processingExecution k → keeps processingExecution (andThen m k).
Proof. intros Hm Hk. unfold andThen. apply keep_try_bind; [done|]. intros []; [done|apply keep_ret]. Qed.
#[local] Hint Resolve keeps_andThen_execution : keeps.

Lemma keeps_forEach_execution {A} (f : A → P (goError + flow)) l :
  (∀ a, keeps processingExecution (f a)) → keeps processingExecution (forEach f l).
Proof. intros Hf. induction l as [|a l IH]; simpl; auto with keeps. Qed.
#[local] Hint Resolve keeps_forEach_execution : keeps.

Lemma keeps_callEvent_execution r l e : keeps processingExecution (callEvent wth r l e).
Proof. unfold callEvent. keep_steps. Qed.
#[local] Hint Resolve keeps_callEvent_execution : keeps.

Lemma keeps_callMessages_execution r l id : keeps processingExecution (callMessages wth r l id).
Proof.
  unfold callMessages. keep_steps. apply keeps_forEach_execution. intros m. unfold callMessage. keep_steps.
Qed.
#[local] Hint Resolve keeps_callMessages_execution : keeps.

Lemma keeps_processEvent skip count i e : keeps processingExecution (processEvent wth ppMgr skip count i e).
Proof. unfold processEvent. keep_steps; done. Qed.
#[local] Hint Resolve keeps_processEvent : keeps.

Lemma setTaskInfo_execution replayed t w : w_execution (setTaskInfo wth replayed t w) = w_execution w.
Proof. unfold setTaskInfo. by destruct (buildID t), replayed. Qed.

Lemma keeps_processTask_execution skip replayed t :
  keeps processingExecution (processTask wth ppMgr skip replayed t).
Proof.
  assert (keeps processingExecution (collectReplayed skip)) as Hc by (unfold collectReplayed; keep_steps; done).
  assert (keeps processingExecution (inTask (modify (setTaskInfo wth replayed t)))) as Ht.
  { apply keeps_inTask_execution, keep_modify. intros w. apply setTaskInfo_execution. }
  unfold processTask, processMarkers, forEachIndexed. keep_steps.
  all: repeat (apply keeps_andThen_execution; [auto with keeps|]); keep_steps.
Qed.
#[local] Hint Resolve keeps_processTask_execution : keeps.

Lemma keeps_processEvents fuel skip :
  keeps processingExecution (processEvents wth decodeJSON unmarshal visitPayloads allowed ppMgr fuel skip).
Proof.
  induction fuel as [|fuel IH]; simpl; [auto with keeps|]. unfold iteration, processNext, prepareMessages.
  keep_steps; done.
Qed.
#[local] Hint Resolve keeps_processEvents : keeps.

Lemma keeps_checkReplay skip :
  keeps processingExecution (checkReplay wth allowed HistoryEventToString CommandToString skip).
Proof. unfold checkReplay. keep_steps. apply keeps_inTask_execution, keep_modify. done. Qed.
#[local] Hint Resolve keeps_checkReplay : keeps.

Lemma dropPartial_execution s : processingExecution (dropPartial s) = processingExecution s.
Proof. unfold dropPartial. destruct (partialHistory s); [|done]. by destruct (curReplayCmdsIndex s). Qed.

Lemma keeps_processAll skip :
  keeps processingExecution (processAll wth now dataConverter ErrorToFailure errorText decodeJSON unmarshal
    visitPayloads allowed ppMgr HistoryEventToString CommandToString skip).
Proof. unfold processAll, checkAndComplete. keep_steps. apply dropPartial_execution. Qed.
#[local] Hint Resolve keeps_processAll : keeps.

Lemma keeps_runHistory task skip :
  keeps runExecution (runHistory wth now dataConverter ErrorToFailure errorText decodeJSON unmarshal
    visitPayloads allowed ppMgr HistoryEventToString CommandToString task skip).
Proof.
  intros s. unfold final, runHistory.
  match goal with |- context [?m (mkProcessing (run_context s) ?h ?a ?b ?c ?d ?e ?f ?g)] =>
    assert (keeps processingExecution m) as Hm
      by (keep_steps; apply keeps_inTask_execution, keep_modify; done);
    specialize (Hm (mkProcessing (run_context s) h a b c d e f g)); unfold final, processingExecution in Hm;
    destruct (m (mkProcessing (run_context s) h a b c d e f g)) as [r s']
  end. exact Hm.
Qed.
#[local] Hint Resolve keeps_runHistory : keeps.

Lemma keeps_ProcessWorkflowTask :
  keeps runExecution (ProcessWorkflowTask wth now dataConverter ErrorToFailure errorText decodeJSON unmarshal
    visitPayloads allowed ppMgr HistoryEventToString CommandToString).
Proof.
  unfold ProcessWorkflowTask. keep_steps. apply keeps_inContext, keep_modify. intros w. unfold SetCurrentTask.
  by destruct (task_Query _).
Qed.

Lemma keeps_ensureHistory : keeps runExecution ensureHistory.
Proof. unfold ensureHistory. keep_steps; done. Qed.
End Execution.
