(* ===== verification/SlotShutdown.v ===== *)
(** * Stopping a worker

    The goroutines of [WorkerSlots.v] wait for each other in several ways:
    pollers for the supplier and for the dispatcher, the dispatcher for
    pollers, the goroutine that closes the queue and the autoscaling pollers
    for a wait group.  [control_inv] relates the wait groups, contexts and
    channels to the goroutines; it follows that a stopped worker does not
    deadlock, and that its slots are back when nothing is left to do. *)

From stdpp Require Import base list gmap strings.
From S2P Require Import Prelude Proto CommandMachine Slots WorkerSlots WorkerSlotsFacts SlotAccounts.
Open Scope nat_scope.

(** The cases of a disjunction with existentials. *)
Ltac split_wf :=
  destruct_or?; repeat match goal with Hx : ∃ _, _ |- _ => destruct Hx end.

Section Shutdown.
  Context {task : Type} (isEmpty : task → bool).
  Context {S : Type} `{SlotSupplierLaws S}.
  Variable options : baseWorkerOptions.
Implicit Types (w : workerState (task := task) (S := S)) (x : world (task := task) (S := S)).
#[local] Abbreviation goroutine := (goroutine (task := task)).

(** ** Roles *)

(** What may follow a release, and a poll. *)
Definition wf_goroutine (g : goroutine) : Prop :=
  match g with
  | releasing _ _ n =>
      n = pollerLoop ∨ n = pollerReturn ∨ n = admissionRelease autoReturn ∨ (∃ m, n = admissionFinish m) ∨
      n = returned [] ∨ n = discard ∨ (∃ a r, n = eagerRelease a r)
  | admissionRelease n => n = autoReturn ∨ n = autoLoop
  | pollThrottle _ n | pollLimit _ n | pollCheck _ n | pollCall _ n | pollSend _ _ n =>
      n = pollerLoop ∨ ∃ m, n = admissionFinish m
  | _ => True
  end.

(** The pollers that count in [pollerWG]. *)
Definition pollers : goroutine → nat := along (λ g,
  match g with
  | pollerLoop | pollerWait | pollerGot _ | pollerToken _ | pollerReturn | pollerDone
  | autoLoop | autoAcquire | autoAdmitted | autoWait | autoGot _ | autoToken _ | autoReturn | autoJoin => 1
  | _ => 0
  end).

(** Pollers whose context is not cancelled. *)
Definition openPollers : goroutine → nat := along (λ g,
  match g with
  | pollerLoop | pollerWait | pollerGot _ | pollerToken _ | pollerReturn
  | autoLoop | autoAcquire | autoAdmitted | autoWait | autoGot _ | autoToken _ | autoReturn => 1
  | _ => 0
  end).

(** Autoscaling pollers, as long as they may wait for their polls. *)
Definition managers : goroutine → nat := along (λ g,
  match g with
  | autoLoop | autoAcquire | autoAdmitted | autoWait | autoGot _ | autoToken _ | autoReturn | autoJoin => 1
  | _ => 0
  end).

(** The polls that the autoscaling poller [m] waits for. *)
Definition pollsFor (m : nat) : goroutine → nat := along (λ g,
  match g with
  | admissionFinish n | pollDone n => if decide (n = m) then 1 else 0
  | _ => 0
  end).

(** Reservations for the poller [m]. *)
Definition reservesFor (m : nat) (g : goroutine) : nat :=
  match g with
  | reserving n | reserveIssue n _ | reserveSend n _ => if decide (n = m) then 1 else 0
  | _ => 0
  end.

(** Admissions of the runner. *)
Definition admissions : goroutine → nat := along (λ g,
  match g with
  | autoAdmitted | autoWait | autoGot _ | autoToken _ | admissionRelease _ | admissionFinish _ => 1
  | _ => 0
  end).

Definition closers (g : goroutine) : nat := match g with closer => 1 | _ => 0 end.
Definition dispatchers (g : goroutine) : nat :=
  match g with
  | dispatch | dispatchLimit _ _ | discard | releasing _ _ discard => 1
  | _ => 0
  end.
Definition limiterStops (g : goroutine) : nat := match g with stopLimiter => 1 | _ => 0 end.
Definition bucketStops (g : goroutine) : nat := match g with stopLimiter | stopBucket => 1 | _ => 0 end.

Definition bucketClosed (c : workerControl) : Prop :=
  match tokenBucket c with Some t => bucket_closed t = true | None => True end.

Record control_inv x : Prop := {
  ctl_wf g : g ∈ pool x → wf_goroutine g;
  ctl_pollers : pollerWG (control (worker x)) = total pollers x;
  ctl_polls m : pollsOf m (control (worker x)) = total (pollsFor m) x;
  ctl_active : active (control (worker x)) = total admissions x;
  ctl_managers m : 0 < total (pollsFor m) x → ∃ g, pool x !! m = Some g ∧ managers g = 1;
  ctl_reserves m : 0 < total (reservesFor m) x →
    m ∈ reserveContexts (control (worker x)) ∨ ∃ g, pool x !! m = Some g ∧ openPollers g = 1;
  ctl_closed : taskQueueCh (control (worker x)) = true → pollerWG (control (worker x)) = 0;
  ctl_closer : taskQueueCh (control (worker x)) = true ∨ 0 < total closers x;
  ctl_dispatcher : drainOnShutdown options = true →
    taskQueueCh (control (worker x)) = true ∨ 0 < total dispatchers x;
  ctl_limiter : stopCh (control (worker x)) = true →
    limiterContext (control (worker x)) = true ∨ 0 < total limiterStops x;
  ctl_bucket : stopCh (control (worker x)) = true →
    bucketClosed (control (worker x)) ∨ 0 < total bucketStops x;
}.

(** ** Moves *)

Lemma move_wf c i g w g' st w' :
  wf_goroutine g → move isEmpty options c i g w = Some (g', st, w') →
  wf_goroutine g' ∧ ∀ h, h ∈ st → wf_goroutine h.
Proof.
  intros Hwf Hm. destruct g; simpl in Hm.
  all: open_move Hm; (split; [|intros h; rewrite ?elem_of_nil, ?list_elem_of_singleton; intros; simplify_eq]); simpl; try done; eauto 10; try tauto.
  all: split_wf; subst; simpl; eauto.
Qed.

Lemma move_pollers c i g w g' st w' :
  pollers g ≤ pollerWG (control w) → move isEmpty options c i g w = Some (g', st, w') → g' ≠ crashed →
  pollerWG (control w') + pollers g = pollerWG (control w) + pollers g' + sum_list_with pollers st.
Proof.
  intros Hle Hm Hc. destruct g; simpl in Hm.
  all: open_move Hm; try done; unfold pollers in *; simpl in *; lia.
Qed.

Lemma pollsOf_set m n k c : pollsOf m (set_polls n k c) = if decide (n = m) then k else pollsOf m c.
Proof.
  unfold pollsOf, set_polls. simpl. case_decide; subst; [by rewrite lookup_insert_eq|by rewrite lookup_insert_ne].
Qed.

Lemma move_polls m c i g w g' st w' :
  pollsFor m g ≤ pollsOf m (control w) → move isEmpty options c i g w = Some (g', st, w') → g' ≠ crashed →
  pollsOf m (control w') + pollsFor m g = pollsOf m (control w) + pollsFor m g' + sum_list_with (pollsFor m) st.
Proof.
  intros Hle Hm Hc. destruct g; simpl in Hm.
  all: open_move Hm; try done; unfold pollsFor in *; simpl in *; rewrite ?pollsOf_set; repeat case_decide;
    subst; try lia; unfold pollsOf in *; simpl in *; lia.
Qed.

Lemma move_active c i g w g' st w' :
  admissions g ≤ active (control w) → move isEmpty options c i g w = Some (g', st, w') → g' ≠ crashed →
  active (control w') + admissions g = active (control w) + admissions g' + sum_list_with admissions st.
Proof.
  intros Hle Hm Hc. destruct g; simpl in Hm.
  all: open_move Hm; try done; unfold admissions in *; simpl in *; lia.
Qed.

(** An autoscaling poller leaves its role only when it has no polls, and polls
    are started by it only. *)
Lemma move_managers m c i g w g' st w' :
  move isEmpty options c i g w = Some (g', st, w') → g' ≠ crashed →
  (managers g = 1 → managers g' = 1 ∨ pollsOf i (control w) = 0 ∧ st = [] ∧ pollsFor m g' = 0) ∧
  (pollsFor m g' + sum_list_with (pollsFor m) st ≤ pollsFor m g ∨ (m = i ∧ managers g' = 1)).
Proof.
  intros Hm Hc. destruct g; simpl in Hm.
  all: open_move Hm; try done; unfold managers, pollsFor in *; simpl in *; split; intros; try lia; auto.
  all: repeat case_decide; subst; auto; lia.
Qed.

Lemma move_reserves m c i g w g' st w' :
  wf_goroutine g → move isEmpty options c i g w = Some (g', st, w') → g' ≠ crashed →
  reserveContexts (control w) ⊆ reserveContexts (control w') ∧
  (openPollers g = 1 → openPollers g' = 1 ∨ i ∈ reserveContexts (control w')) ∧
  (reservesFor m g' + sum_list_with (reservesFor m) st ≤ reservesFor m g ∨ (m = i ∧ openPollers g' = 1)).
Proof.
  intros Hwf Hm Hc. destruct g; simpl in Hm.
  all: open_move Hm; try done; unfold openPollers, reservesFor in *; simpl in *;
    (split; [set_solver|split; [intros; try lia; auto|]]).
  all: try (right; apply elem_of_union_l, elem_of_singleton; reflexivity).
  all: try (repeat case_decide; subst; auto; lia).
  all: split_wf; subst; simpl; auto.
Qed.

Lemma move_channels c i g w g' st w' :
  wf_goroutine g → move isEmpty options c i g w = Some (g', st, w') → g' ≠ crashed →
  (taskQueueCh (control w') = true →
     taskQueueCh (control w) = true ∨ pollerWG (control w') = 0) ∧
  (taskQueueCh (control w') = true ∨ taskQueueCh (control w) = false ∧ closers g ≤ closers g') ∧
  (drainOnShutdown options = true →
     taskQueueCh (control w') = true ∨ taskQueueCh (control w) = false ∧ dispatchers g ≤ dispatchers g').
Proof.
  intros Hwf Hm Hc. destruct g; simpl in Hm.
  all: open_move Hm; try done; (split_and!; [intros|destruct (taskQueueCh (control _)) eqn:?|intros; destruct (taskQueueCh (control _)) eqn:?]); simpl in *; try congruence; auto; try (right; split; [done|lia]).
  1,2: right; split; [done|]; destruct g'; simpl; lia.
  match goal with Hd : drainOnShutdown _ = true |- _ => rewrite Hd in * end. simpl in *. congruence.
Qed.

Lemma move_stop c i g w g' st w' :
  move isEmpty options c i g w = Some (g', st, w') → g' ≠ crashed →
  (stopCh (control w') = true →
     (stopCh (control w) = true ∧ limiterStops g ≤ limiterStops g' ∧
        (limiterContext (control w) = true → limiterContext (control w') = true)) ∨
     limiterContext (control w') = true ∨ 0 < limiterStops g') ∧
  (stopCh (control w') = true →
     (stopCh (control w) = true ∧ bucketStops g ≤ bucketStops g' ∧
        (bucketClosed (control w) → bucketClosed (control w'))) ∨
     bucketClosed (control w') ∨ 0 < bucketStops g').
Proof.
  intros Hm Hc. destruct g; simpl in Hm.
  all: open_move Hm; try done; split; intros; simpl in *; auto with lia; try congruence.
  right. left. unfold bucketClosed. simpl. by destruct (tokenBucket (control w)).
Qed.

(** ** The invariant *)

Lemma elem_le f x i g : pool x !! i = Some g → f g ≤ total f x.
Proof. apply sum_list_with_elem. Qed.

(** A clause about the goroutine at an index survives a move of one that keeps
    it. *)
Lemma ran_lookup x i g g' st w' m h :
  pool x !! i = Some g → pool x !! m = Some h →
  pool (ran x i g' st w') !! m = Some (if decide (m = i) then g' else h).
Proof.
  intros Hi Hm. unfold ran. simpl. pose proof (lookup_lt_Some _ _ _ Hm).
  rewrite lookup_app_l by (by rewrite length_insert). case_decide; subst.
  - by rewrite list_lookup_insert_eq.
  - by rewrite list_lookup_insert_ne.
Qed.

Section Run.
  Variables (x : world (task := task) (S := S)) (i : nat) (c : choice (task := task)).
  Variables (g g' : goroutine) (st : list goroutine).
  Variable w' : workerState (task := task) (S := S).
  Hypothesis Hslots : slots_inv options x.
  Hypothesis Hinv : control_inv x.
  Hypothesis Hi : pool x !! i = Some g.
  Hypothesis Hm : move isEmpty options c i g (worker x) = Some (g', st, w').
#[local] Abbreviation after := (ran x i g' st w').

Lemma not_crashed : g' ≠ crashed.
Proof. by eapply ran_sound. Qed.

Lemma mover_wf : wf_goroutine g.
Proof. eapply ctl_wf; [done|]. by eapply list_elem_of_lookup_2. Qed.

Lemma after_total f : total f after + f g = total f x + f g' + sum_list_with f st ∧ f g ≤ total f x.
Proof. split; [by apply total_ran|]. by eapply elem_le. Qed.

Lemma after_counts :
  pollerWG (control w') = total pollers after ∧
  (∀ m, pollsOf m (control w') = total (pollsFor m) after) ∧
  active (control w') = total admissions after.
Proof.
  split_and!; [|intros m|].
  - destruct (after_total pollers) as [Ht Hle]. pose proof (ctl_pollers x Hinv) as Hp. rewrite <- Hp in Hle.
    pose proof (move_pollers _ _ _ _ _ _ _ Hle Hm not_crashed). lia.
  - destruct (after_total (pollsFor m)) as [Ht Hle]. pose proof (ctl_polls x Hinv m) as Hp. rewrite <- Hp in Hle.
    pose proof (move_polls m _ _ _ _ _ _ _ Hle Hm not_crashed). lia.
  - destruct (after_total admissions) as [Ht Hle]. pose proof (ctl_active x Hinv) as Hp. rewrite <- Hp in Hle.
    pose proof (move_active _ _ _ _ _ _ _ Hle Hm not_crashed). lia.
Qed.

Lemma after_wf h : h ∈ pool after → wf_goroutine h.
Proof.
  intros Hh. destruct (move_wf _ _ _ _ _ _ _ mover_wf Hm) as [Hg Hst].
  apply elem_of_app in Hh as [Hh|Hh]; [|auto].
  apply list_elem_of_lookup in Hh as [j Hj]. apply list_lookup_insert_Some in Hj as [(->&->&_)|[_ Hj]]; [done|].
  eapply ctl_wf; [done|]. by eapply list_elem_of_lookup_2.
Qed.

Lemma after_managers m : 0 < total (pollsFor m) after → ∃ h, pool after !! m = Some h ∧ managers h = 1.
Proof.
  intros Hpos. destruct (after_total (pollsFor m)) as [Ht Hle].
  destruct (move_managers m _ _ _ _ _ _ _ Hm not_crashed) as [Hman [Hnew|[-> Hg']]].
  2: { exists g'. split; [|done]. erewrite ran_lookup by done. by rewrite decide_True. }
  destruct (ctl_managers x Hinv m) as (h & Hh & Hmh); [lia|]. erewrite ran_lookup by done.
  case_decide; [|eauto]. subst. simplify_eq. destruct (Hman Hmh) as [?|(Hz & -> & Hz')]; [by eauto|].
  pose proof (ctl_polls x Hinv i). simpl in *. lia.
Qed.

Lemma after_reserves m : 0 < total (reservesFor m) after →
  m ∈ reserveContexts (control w') ∨ ∃ h, pool after !! m = Some h ∧ openPollers h = 1.
Proof.
  intros Hpos. destruct (after_total (reservesFor m)) as [Ht Hle].
  destruct (move_reserves m _ _ _ _ _ _ _ mover_wf Hm not_crashed) as (Hsub & Hop & [Hnew|[-> Hg']]).
  2: { right. exists g'. split; [|done]. erewrite ran_lookup by done. by rewrite decide_True. }
  destruct (ctl_reserves x Hinv m) as [?|(h & Hh & Hmh)]; [lia|set_solver|]. erewrite ran_lookup by done.
  case_decide; [|eauto]. subst. simplify_eq. destruct (Hop Hmh); eauto.
Qed.

Lemma after_channels :
  (taskQueueCh (control w') = true → pollerWG (control w') = 0) ∧
  (taskQueueCh (control w') = true ∨ 0 < total closers after) ∧
  (drainOnShutdown options = true → taskQueueCh (control w') = true ∨ 0 < total dispatchers after).
Proof.
  pose proof (move_channels _ _ _ _ _ _ _ mover_wf Hm not_crashed) as (Hq & Hcl & Hd). split_and!.
  - intros Hcl'. destruct (Hq Hcl') as [Hold|?]; [|done]. apply (ctl_closed x Hinv) in Hold as Hz.
    destruct (after_total pollers) as [Ht Hle]. pose proof (ctl_pollers x Hinv) as Hp.
    destruct after_counts as [Hpw _]. enough (pollers g' + sum_list_with pollers st ≤ pollers g) by lia.
    pose proof not_crashed as Hc. clear -Hm Hc.
    destruct g; simpl in Hm; open_move Hm; try done; unfold pollers; simpl; lia.
  - destruct Hcl as [?|[Hf Hle']]; [by left|]. right. destruct (ctl_closer x Hinv) as [?|?]; [congruence|].
    destruct (after_total closers). lia.
  - intros Hdr. destruct (Hd Hdr) as [?|[Hf Hle']]; [by left|]. right.
    destruct (ctl_dispatcher x Hinv Hdr) as [?|?]; [congruence|]. destruct (after_total dispatchers). lia.
Qed.

Lemma after_stop : stopCh (control w') = true →
  (limiterContext (control w') = true ∨ 0 < total limiterStops after) ∧
  (bucketClosed (control w') ∨ 0 < total bucketStops after).
Proof.
  intros Hst. pose proof (move_stop _ _ _ _ _ _ _ Hm not_crashed) as [Hlim Hbuc].
  destruct (after_total limiterStops), (after_total bucketStops). split.
  - destruct (Hlim Hst) as [(Ho & Hl & Hk)|[?|?]]; [|by left|right; lia].
    destruct (ctl_limiter x Hinv Ho); [by left; auto|right; lia].
  - destruct (Hbuc Hst) as [(Ho & Hl & Hk)|[?|?]]; [|by left|right; lia].
    destruct (ctl_bucket x Hinv Ho); [by left; auto|right; lia].
Qed.

Lemma ran_control : control_inv after.
Proof.
  destruct after_counts as (? & ? & ?). destruct after_channels as (? & ? & ?).
  split; simpl; auto using after_wf, after_managers, after_reserves; intros; by apply after_stop.
Qed.
End Run.
(** ** The other events *)

Lemma control_pool x l w' b :
  pollerWG (control w') = pollerWG (control (worker x)) → pollWG (control w') = pollWG (control (worker x)) →
  active (control w') = active (control (worker x)) →
  reserveContexts (control w') = reserveContexts (control (worker x)) →
  taskQueueCh (control w') = taskQueueCh (control (worker x)) →
  stopCh (control w') = stopCh (control (worker x)) →
  limiterContext (control w') = limiterContext (control (worker x)) →
  (bucketClosed (control (worker x)) → bucketClosed (control w')) →
  (∀ g, g ∈ l → wf_goroutine g) →
  (∀ f, f = pollers ∨ f = admissions ∨ (∃ m, f = pollsFor m) → sum_list_with f l = total f x) →
  (∀ m, sum_list_with (reservesFor m) l ≤ total (reservesFor m) x) →
  (∀ f, f = closers ∨ f = dispatchers ∨ f = limiterStops ∨ f = bucketStops → total f x ≤ sum_list_with f l) →
  (∀ m h, pool x !! m = Some h →
     ∃ h', l !! m = Some h' ∧ managers h' = managers h ∧ openPollers h' = openPollers h) →
  control_inv x → control_inv (mkWorld l w' b).
Proof.
  intros H1 H2 H3 H4 H5 H6 H7 H8 Hwf Heq Hres Hle Hlook Hinv. destruct Hinv.
  assert (∀ f, f = closers ∨ f = dispatchers ∨ f = limiterStops ∨ f = bucketStops →
    0 < total f x → 0 < total f (mkWorld l w' b)) as Hpos.
  { intros f Hf Hp. specialize (Hle f Hf). unfold total in *. simpl. lia. }
  split; simpl; rewrite ?H1, ?H3, ?H4, ?H5, ?H6, ?H7; auto.
  - rewrite ctl_pollers0. symmetry. apply Heq. auto.
  - intros m. unfold pollsOf. rewrite H2. fold (pollsOf m (control (worker x))). rewrite ctl_polls0.
    symmetry. apply Heq. eauto.
  - rewrite ctl_active0. symmetry. apply Heq. auto.
  - intros m Hm. destruct (ctl_managers0 m) as (h & Hh & Hmh).
    { unfold total in Hm. simpl in Hm. rewrite Heq in Hm by eauto. done. }
    destruct (Hlook m h Hh) as (h' & ? & ? & ?). exists h'. split; [done|congruence].
  - intros m Hm. destruct (ctl_reserves0 m) as [?|(h & Hh & Hmh)].
    { specialize (Hres m). unfold total in *. simpl in Hm. lia. }
    { by left. }
    right. destruct (Hlook m h Hh) as (h' & ? & ? & ?). exists h'. split; [done|congruence].
  - destruct ctl_closer0; auto.
  - intros Hd. destruct (ctl_dispatcher0 Hd); auto 10.
  - intros Hs. destruct (ctl_limiter0 Hs); auto 10.
  - intros Hs. destruct (ctl_bucket0 Hs); auto 10.
Qed.

Lemma control_spawn x g b :
  wf_goroutine g →
  (∀ f, f = pollers ∨ f = admissions ∨ (∃ m, f = pollsFor m) ∨ (∃ m, f = reservesFor m) → f g = 0) →
  control_inv x → control_inv (mkWorld (pool x ++ [g]) (worker x) b).
Proof.
  intros Hwf Hf Hinv. apply (control_pool x); try done.
  - intros h [Hh|Hh%list_elem_of_singleton]%elem_of_app; [by eapply ctl_wf|by subst].
  - intros f Hin. rewrite sum_list_with_app. simpl. rewrite Hf by tauto. unfold total. lia.
  - intros m. rewrite sum_list_with_app. simpl. rewrite Hf by eauto 10. unfold total. lia.
  - intros f Hin. rewrite sum_list_with_app. unfold total. lia.
  - intros m h Hm. exists h. split_and!; [|done..]. rewrite lookup_app_l; [done|]. by eapply lookup_lt_Some.
Qed.

Lemma control_hand x a b y z y' z' :
  pool x !! a = Some y → pool x !! b = Some z → a ≠ b → wf_goroutine y' → wf_goroutine z' →
  (∀ f, f = pollers ∨ f = admissions ∨ (∃ m, f = pollsFor m) → f y' + f z' = f y + f z) →
  (∀ m, reservesFor m y' + reservesFor m z' ≤ reservesFor m y + reservesFor m z) →
  (∀ f, f = closers ∨ f = dispatchers ∨ f = limiterStops ∨ f = bucketStops → f y + f z ≤ f y' + f z') →
  managers y' = managers y → managers z' = managers z →
  openPollers y' = openPollers y → openPollers z' = openPollers z →
  control_inv x → control_inv (mkWorld (<[a := y']> (<[b := z']> (pool x))) (worker x) (stopCalled x)).
Proof.
  intros Ha Hb Hne Hy Hz Hf Hr Hg ???? Hinv.
  pose proof (λ f, sum_two f _ _ _ _ _ y' z' Ha Hb Hne) as Hs. apply (control_pool x); try done.
  - intros h [j Hj]%list_elem_of_lookup.
    apply list_lookup_insert_Some in Hj as [(->&->&_)|[_ Hj]]; [done|].
    apply list_lookup_insert_Some in Hj as [(->&->&_)|[_ Hj]]; [done|].
    eapply ctl_wf; [done|]. by eapply list_elem_of_lookup_2.
  - intros f Hin. specialize (Hs f). specialize (Hf f Hin). unfold total. lia.
  - intros m. specialize (Hs (reservesFor m)). specialize (Hr m). unfold total. lia.
  - intros f Hin. specialize (Hs f). specialize (Hg f Hin). unfold total. lia.
  - intros m h Hm. destruct (decide (m = a)) as [->|].
    { exists y'. simplify_eq. split_and!; [|done..]. apply list_lookup_insert_eq.
      rewrite length_insert. by eapply lookup_lt_Some. }
    rewrite list_lookup_insert_ne by done. destruct (decide (m = b)) as [->|].
    { exists z'. simplify_eq. split_and!; [|done..]. apply list_lookup_insert_eq. by eapply lookup_lt_Some. }
    exists h. by rewrite list_lookup_insert_ne.
Qed.

Lemma step_control e x x' :
  slots_inv options x → control_inv x → step isEmpty options e x = Some x' → control_inv x'.
Proof.
  intros Hsl Hinv Hs. destruct e as [i c|a|a b| | | | |commands|]; simpl in Hs.
  - destruct (pool x !! i) as [g|] eqn:Hi; [|done]. simpl in Hs.
    destruct (move isEmpty options c i g (worker x)) as [[[g' st] w']|] eqn:Hm; simplify_eq/=.
    by eapply ran_control.
  - destruct (pool x !! a) as [[]|] eqn:Ha; try done. destruct (pool x !! i) as [g|] eqn:Hi; [|done].
    simpl in Hs. destruct (receivePermit g permit) as [g'|] eqn:Hg; simplify_eq/=.
    destruct g; simplify_eq/=; (eapply control_hand; [done|done|by intros ->; simplify_eq/=|..|done]); try done.
    all: try by intros f [->|[->|[m ->]]].
    all: try (intros m; unfold reservesFor; simpl; lia).
    all: by intros f [->|[->|[->| ->]]].
  - destruct (pool x !! a) as [[]|] eqn:Ha; try done. destruct (pool x !! b) as [g'|] eqn:Hi; [|done].
    simpl in Hs. destruct (receiveTask g' t p) as [g''|] eqn:Hg; simplify_eq/=.
    pose proof (ctl_wf x Hinv _ (list_elem_of_lookup_2 _ _ _ Ha)) as Hwf. simpl in Hwf.
    destruct g'; simplify_eq/=; (eapply control_hand; [done|done|by intros ->; simplify_eq/=|..|done]); try done.
    all: try (destruct Hwf as [->|[m ->]]; done).
    all: try (unfold release; simpl; tauto).
    all: try (intros f [->|[->|[m ->]]]; unfold pollers, admissions, pollsFor; simpl; lia).
    all: try (intros m; destruct Hwf as [->|[n ->]]; unfold reservesFor; simpl; lia).
    all: intros f [->|[->|[->| ->]]]; simpl; lia.
  - destruct (stopCalled x); simplify_eq/=. apply control_spawn; try done.
    by intros f [->|[->|[[m ->]|[m ->]]]].
  - simplify_eq/=. by apply (control_pool x); eauto using ctl_wf.
  - simplify_eq/=. apply (control_pool x); eauto using ctl_wf. simpl. unfold bucketClosed. simpl.
    by destruct (tokenBucket _).
  - simplify_eq/=. apply (control_pool x); eauto using ctl_wf. simpl. unfold bucketClosed. simpl.
    destruct (tokenBucket _); simpl; [|done]. unfold getToken. by case_decide.
  - simplify_eq/=. apply control_spawn; try done. by intros f [->|[->|[[m ->]|[m ->]]]].
  - simplify_eq/=. apply control_spawn; try done. by intros f [->|[->|[[m ->]|[m ->]]]].
Qed.

Lemma Start_control s bucket fixed autoscaling : control_inv (Start s bucket fixed autoscaling).
Proof.
  split; simpl; rewrite ?total_Start; try done.
  - intros g [Hg|[Hg|Hg]%elem_of_app]%elem_of_app.
    + by apply elem_of_replicate in Hg as [-> _].
    + by apply elem_of_replicate in Hg as [-> _].
    + rewrite !elem_of_cons, elem_of_nil in Hg. by destruct_or?; subst.
  - unfold pollers. simpl. lia.
  - intros m. rewrite total_Start. unfold pollsFor. simpl. unfold pollsOf. simpl. rewrite lookup_empty. simpl. lia.
  - unfold admissions. simpl. lia.
  - intros m. rewrite total_Start. unfold pollsFor. simpl. lia.
  - intros m. rewrite total_Start. simpl. lia.
  - right. simpl. lia.
  - right. simpl. lia.
Qed.

Lemma runEvents_control es x x' :
  slots_inv options x → control_inv x → runEvents isEmpty options es x = Some x' → control_inv x'.
Proof.
  revert x. induction es as [|e es IH]; intros x Hsl Hinv Hr; simplify_eq/=; [done|].
  destruct (step isEmpty options e x) as [y|] eqn:Hs; [|done].
  eapply IH; [by eapply step_inv|by eapply step_control|done].
Qed.

(** ** Nothing moves *)

Definition internal (e : event (task := task)) : bool :=
  match e with run _ _ | handPermit _ | handTask _ _ => true | _ => false end.

Definition stuck x : Prop := ∀ e, internal e = true → step isEmpty options e x = None.

(** What a goroutine that cannot go on waits for, once the worker is stopped. *)
Definition blocked x (i : nat) (g : goroutine) : Prop :=
  match g with
  | returned _ => True
  | autoJoin => pollsOf i (control (worker x)) ≠ 0
  | reserving m | reserveSend m _ => m ∉ reserveContexts (control (worker x))
  | closer => pollerWG (control (worker x)) ≠ 0
  | dispatch | discard => taskQueueCh (control (worker x)) = false
  | pollSend _ _ _ => drainOnShutdown options = true
  | eagerPush (_ :: _) => eagerCapacity ≤ length (eagerTaskQueueCh (worker x))
  | _ => False
  end.

Section Stuck.
  Variable x : world (task := task) (S := S).
  Hypothesis Hslots : slots_inv options x.
  Hypothesis Hinv : control_inv x.
  Hypothesis Hstop : stopCh (control (worker x)) = true.
  Hypothesis Hstuck : stuck x.

Lemma stuck_move i g c : pool x !! i = Some g → move isEmpty options c i g (worker x) = None.
Proof.
  intros Hi. specialize (Hstuck (run i c) eq_refl). simpl in Hstuck. rewrite Hi in Hstuck. simpl in Hstuck.
  by destruct (move isEmpty options c i g (worker x)) as [[[]]|].
Qed.

Lemma stuck_no_lock : countLock (worker x) = false.
Proof.
  destruct (countLock (worker x)) eqn:Hl; [|done]. exfalso.
  pose proof (inv_lock _ x Hslots) as Hlk. unfold lockCount in Hlk. rewrite Hl in Hlk.
  destruct (sum_list_with_pos locks (pool x)) as (i & g & Hi & Hg); [unfold total in Hlk; lia|].
  pose proof (stuck_move i g (pick 0) Hi) as Hm.
  pose proof (ctl_wf x Hinv g (list_elem_of_lookup_2 _ _ _ Hi)) as Hwf.
  unfold locks in Hg. destruct g; simpl in *; try lia; split_wf; subst; simpl in *; try lia.
  all: unfold goto in Hm; repeat case_match; done.
Qed.

Lemma stuck_stopped : limiterContext (control (worker x)) = true ∧ bucketClosed (control (worker x)).
Proof.
  split.
  - destruct (ctl_limiter x Hinv Hstop) as [?|(i & g & Hi & Hg)%sum_list_with_pos]; [done|].
    pose proof (stuck_move i g (pick 0) Hi). destruct g; simpl in *; done || lia.
  - destruct (ctl_bucket x Hinv Hstop) as [?|(i & g & Hi & Hg)%sum_list_with_pos]; [done|].
    pose proof (stuck_move i g (pick 0) Hi). destruct g; simpl in *; done || lia.
Qed.

Lemma bucket_answers b : tokenBucket (control (worker x)) = Some b → waitForAvailableToken b = Some false.
Proof.
  intros Hb. destruct stuck_stopped as [_ Hc]. unfold bucketClosed in Hc. rewrite Hb in Hc.
  unfold waitForAvailableToken. rewrite Hc. by rewrite andb_false_r.
Qed.

Lemma reserve_answers m :
  m ∈ reserveContexts (control (worker x)) →
  ∃ r t, tracking_ReserveSlot (bool_decide (m ∈ reserveContexts (control (worker x)))) (slots (worker x)) !! 0 = Some (r, t).
Proof.
  intros Hm. rewrite bool_decide_true by done. pose proof (ReserveSlot_done _ (inv_ok _ x Hslots)) as Hd.
  unfold tracking_ReserveSlot. rewrite list_lookup_fmap.
  destruct (ReserveSlot true (inner (slots (worker x)))) as [|[r s] l]; [done|]. simpl.
  destruct r; eauto.
Qed.

Lemma stuck_sound i g : pool x !! i = Some g → g ≠ crashed.
Proof.
  intros Hi ->. pose proof (inv_sound _ x Hslots) as Hso. pose proof (elem_le (broken options) x i _ Hi) as Hbr.
  rewrite Hso in Hbr. unfold broken in Hbr. simpl in Hbr. lia.
Qed.

Lemma stuck_blocked i g : pool x !! i = Some g → blocked x i g.
Proof.
  intros Hi. pose proof (λ c, stuck_move i g c Hi) as Hm. pose proof stuck_no_lock as Hl.
  destruct stuck_stopped as [Hlim _]. pose proof (stuck_sound i g Hi) as Hnc.
  pose proof (Hm (pick 0)) as H1. pose proof (Hm polledNothing) as H2. pose proof (Hm (response [])) as H3.
  pose proof (Hm giveBack) as H4. clear Hm.
  destruct g; simpl in *; unfold moveRelease, moveCloser, goto, release in *; rewrite ?Hl, ?Hstop, ?Hlim in *; try done.
  all: repeat case_match; simplify_eq; try done; try lia.
  all: try match goal with Ht : tokenBucket _ = Some _ |- _ => apply bucket_answers in Ht; congruence end.
  - by destruct (drainOnShutdown options).
  - intros Hin. apply reserve_answers in Hin as (r & t & Hr). congruence.
  - by destruct (taskQueueCh (control (worker x))).
  - match goal with Hn : last _ = None |- _ => apply last_None in Hn as -> end. simpl in *. lia.
Qed.

Lemma managers_pollers (g : goroutine) : managers g ≤ pollers g ∧ openPollers g ≤ pollers g.
Proof. unfold managers, openPollers, pollers. induction g; simpl in *; lia. Qed.

(** No poller waits to hand over a task: in drain mode the dispatcher stays
    as long as there are pollers. *)
Lemma stuck_no_send i t p n : pool x !! i ≠ Some (pollSend t p n).
Proof.
  intros Hi. pose proof (stuck_blocked i _ Hi) as Hd. simpl in Hd.
  pose proof (ctl_wf x Hinv _ (list_elem_of_lookup_2 _ _ _ Hi)) as Hwf. simpl in Hwf.
  destruct (ctl_dispatcher x Hinv Hd) as [Hc|(j & g & Hj & Hg)%sum_list_with_pos].
  - apply (ctl_closed x Hinv) in Hc. rewrite (ctl_pollers x Hinv) in Hc. destruct Hwf as [->|[m ->]].
    + pose proof (elem_le pollers x i _ Hi). unfold pollers in *. simpl in *. lia.
    + pose proof (elem_le (pollsFor m) x i _ Hi) as Hp. unfold pollsFor in Hp at 1. simpl in Hp.
      rewrite decide_True in Hp by done. destruct (ctl_managers x Hinv m) as (h & Hh & Hm); [lia|].
      pose proof (elem_le pollers x m h Hh). pose proof (managers_pollers h). lia.
  - pose proof (stuck_blocked j g Hj) as Hb. pose proof (Hstuck (handTask i j) eq_refl) as Hs. simpl in Hs.
    rewrite Hi, Hj in Hs. destruct g; simpl in *; done || lia.
Qed.

Lemma stuck_no_join i : pool x !! i ≠ Some autoJoin.
Proof.
  intros Hi. pose proof (stuck_blocked i _ Hi) as Hd. simpl in Hd. rewrite (ctl_polls x Hinv i) in Hd.
  destruct (sum_list_with_pos (pollsFor i) (pool x)) as (j & g & Hj & Hg); [unfold total in Hd; lia|].
  pose proof (stuck_blocked j g Hj) as Hb. unfold pollsFor in Hg. destruct g; simpl in *; try done; try lia.
  by eapply stuck_no_send.
Qed.

Lemma stuck_no_pollers i g : pool x !! i = Some g → pollers g = 0.
Proof.
  intros Hi. pose proof (stuck_blocked i g Hi) as Hb. unfold pollers.
  destruct g; simpl in *; try done; exfalso; [by eapply stuck_no_join|by eapply stuck_no_send].
Qed.

Lemma stuck_pollerWG : pollerWG (control (worker x)) = 0.
Proof.
  rewrite (ctl_pollers x Hinv). apply sum_list_with_zero. intros g [i Hi]%list_elem_of_lookup.
  by eapply stuck_no_pollers.
Qed.

Lemma stuck_closed : taskQueueCh (control (worker x)) = true.
Proof.
  destruct (ctl_closer x Hinv) as [?|(i & g & Hi & Hg)%sum_list_with_pos]; [done|].
  pose proof (stuck_blocked i g Hi) as Hb. rewrite <- stuck_pollerWG in *. destruct g; simpl in *; done || lia.
Qed.

Lemma stuck_no_reserve i m g : pool x !! i = Some g → reservesFor m g = 0.
Proof.
  intros Hi. destruct (decide (reservesFor m g = 0)) as [|Hr]; [done|]. exfalso.
  pose proof (stuck_blocked i g Hi) as Hb. pose proof (elem_le (reservesFor m) x i g Hi).
  destruct (ctl_reserves x Hinv m) as [Hc|(h & Hh & Ho)]; [lia| |].
  - destruct g; simpl in *; try done; case_decide; subst; done.
  - apply stuck_no_pollers in Hh. pose proof (managers_pollers h). lia.
Qed.

(** Only goroutines that have returned are left, and those that wait for room
    in the queue of eager tasks. *)
Lemma stuck_ended g : g ∈ pool x →
  (∃ lost, g = returned lost) ∨
  (∃ activityTasks, g = eagerPush activityTasks ∧ eagerCapacity ≤ length (eagerTaskQueueCh (worker x))).
Proof.
  intros [i Hi]%list_elem_of_lookup. pose proof (stuck_blocked i g Hi) as Hb.
  pose proof (stuck_no_reserve i) as Hr. pose proof stuck_pollerWG as Hp. pose proof stuck_closed as Hc.
  destruct g; simpl in *; try done; eauto.
  - by apply stuck_no_join in Hi.
  - by apply stuck_no_send in Hi.
  - specialize (Hr i0 _ Hi). simpl in Hr. by rewrite decide_True in Hr.
  - specialize (Hr i0 _ Hi). simpl in Hr. by rewrite decide_True in Hr.
  - congruence.
  - congruence.
  - right. destruct activityTasks; [done|]. eauto.
Qed.
End Stuck.

Lemma ended_zero f x :
  (∀ g, g ∈ pool x → (∃ lost, g = returned lost) ∨ (∃ a, g = eagerPush a)) →
  (∀ lost, f (returned lost) = 0) → (∀ a, f (eagerPush a) = 0) → total f x = 0.
Proof. intros He Hr Hp. apply sum_list_with_zero. intros g Hg. destruct (He g Hg) as [[? ->]|[? ->]]; auto. Qed.

(** C7. A worker that was stopped does not deadlock: when no goroutine can go
    on, all have returned, except for those that push eager tasks on a queue
    that is full.  Then all admissions of pollers are returned, no slot is
    marked as used, and the slots that are out are those of the eager tasks
    that came after the queue was drained, and those that a client or a panic
    lost: if there are none, all slots are back. *)
Theorem stopped_worker_returns_slots s bucket fixed autoscaling es x :
  supplier_ok s → outstanding s = 0 → (0 ≤ MaxSlots s)%Z →
  runEvents isEmpty options es (Start s bucket fixed autoscaling) = Some x →
  stopCh (control (worker x)) = true → stuck x →
  (∀ g, g ∈ pool x → (∃ lost, g = returned lost) ∨
     (∃ activityTasks, g = eagerPush activityTasks ∧ eagerCapacity ≤ length (eagerTaskQueueCh (worker x)))) ∧
  taskQueueCh (control (worker x)) = true ∧
  active (control (worker x)) = 0 ∧ usedSlots (slots (worker x)) = ∅ ∧
  outstanding (inner (slots (worker x))) = measure length x ∧
  ((∀ g, g ∈ pool x → g = returned []) → eagerTaskQueueCh (worker x) = [] →
   outstanding (inner (slots (worker x))) = 0 ∧ issuedSlotsAtomic (slots (worker x)) = 0%Z ∧
   heldSlotCount (worker x) = 0%Z).
Proof.
  intros Hok Hout Hmax Hr Hstop Hst.
  pose proof (Start_inv (task := task) options s bucket fixed autoscaling Hok Hout Hmax) as H0'.
  pose proof (runEvents_inv _ _ es _ _ H0' Hr) as Hslots.
  pose proof (runEvents_control es _ _ H0' (Start_control s bucket fixed autoscaling) Hr) as Hinv.
  pose proof (stuck_ended x Hslots Hinv Hstop Hst) as Hend.
  assert (∀ g, g ∈ pool x → (∃ lost, g = returned lost) ∨ (∃ a, g = eagerPush a)) as Hend'.
  { intros g Hg. destruct (Hend g Hg) as [?|(a & -> & _)]; eauto. }
  assert (outstanding (inner (slots (worker x))) = measure length x) as Hm.
  { pose proof (inv_out _ x Hslots). rewrite (ended_zero givenBack x) in * by done. lia. }
  split_and!; [done|by apply stuck_closed| | |done|].
  - rewrite (ctl_active x Hinv). by apply ended_zero.
  - apply elem_of_equiv_empty_L. intros p Hp. apply (inv_used _ x Hslots) in Hp.
    rewrite (ended_zero (mayUse p) x) in Hp by done. lia.
  - intros Hall Hq.
    assert (∀ μ, Additive μ → measure μ x = 0) as Hz.
    { intros μ ?. unfold measure. rewrite Hq. simpl. rewrite additive_nil, sum_list_with_zero; [done|].
      intros g Hg. rewrite (Hall g Hg). simpl. by rewrite additive_nil. }
    rewrite (inv_issued _ x Hslots), (inv_held _ x Hslots), Hm, !Hz, (ended_zero notIssued x) by (done || apply _).
    done.
Qed.

Lemma returned_stuck x : forallb (λ g, match g with returned _ => true | _ => false end) (pool x) = true → stuck x.
Proof.
  intros Hall%Is_true_true%forallb_True. rewrite Forall_forall in Hall.
  assert (∀ i g, pool x !! i = Some g → ∃ lost, g = returned lost) as Hret.
  { intros i g Hi. specialize (Hall g (list_elem_of_lookup_2 _ _ _ Hi)). destruct g; simpl in Hall; done || eauto. }
  intros [i c|a|a b| | | | |commands|] He; simpl in *; try done.
  - destruct (pool x !! i) as [g|] eqn:Hi; [|done]. apply Hret in Hi as [l ->]. done.
  - destruct (pool x !! a) as [g|] eqn:Hi; [|done]. apply Hret in Hi as [l ->]. done.
  - destruct (pool x !! a) as [g|] eqn:Hi; [|done]. apply Hret in Hi as [l ->]. done.
Qed.
End Shutdown.

(** A poller is stopped while its reservation is under way. *)
Definition stopEarly : list (event (task := bool)) :=
  [run 0 (pick 0); run 4 (pick 0); callStop; run 5 (pick 0); run 5 (pick 0); run 5 (pick 0); run 5 (pick 0);
   run 0 (pick 0); run 0 (pick 0); run 0 (pick 0); run 4 (pick 0); run 4 (pick 0); run 4 (pick 0); run 4 (pick 0);
   run 4 (pick 0); run 4 (pick 0); run 1 (pick 0); run 2 (pick 0); run 3 (pick 0); run 3 (pick 0)].

Lemma stopped_worker_returns_slots_witness :
  match runEvents (λ b, b) eagerByOne stopEarly (Start oneSlot None 1 0) with
  | Some x => length (pool x) = 6 ∧ taskQueueCh (control (worker x)) = true ∧ outstanding (inner (slots (worker x))) = 0
  | None => False
  end.
Proof.
  destruct (runEvents (λ b, b) eagerByOne stopEarly (Start oneSlot None 1 0)) as [x|] eqn:Hx.
  - assert (supplier_ok oneSlot) as Hok by (simpl; lia).
    assert (stopCh (control (worker x)) = true ∧
            forallb (λ g, match g with returned _ => true | _ => false end) (pool x) = true ∧
            eagerTaskQueueCh (worker x) = [] ∧ measure length x = 0 ∧ length (pool x) = 6) as (Hs & Hf & Hq & Hm & Hl).
    { clear Hok. vm_compute in Hx. injection Hx as <-. split_and!; reflexivity. }
    pose proof (stopped_worker_returns_slots (λ b : bool, b) eagerByOne oneSlot None 1 0 stopEarly x Hok eq_refl
      ltac:(simpl; lia) Hx Hs (returned_stuck (λ b : bool, b) eagerByOne x Hf)) as (_ & Hc & _ & _ & Ho & _).
    split; [exact Hl|]. split; [exact Hc|]. rewrite Ho. exact Hm.
  - vm_compute in Hx. discriminate.
Defined.
