(* ===== verification/SlotGauges.v ===== *)
(** * The gauges of slots ([src/internal/tuning.go], [publishMetrics]).

    Every operation of [trackingSlotSupplier] publishes the number of used
    slots without holding a lock while it does: it reads the number together
    with a version, updates the gauges, and starts again when the version has
    changed meanwhile.  Several goroutines may publish at once, and an update
    with an old number may come late.  When all have finished the gauges are
    right.

    A goroutine is the point it has reached in [publishMetrics]; critical
    sections and gauge updates are single steps. *)

From stdpp Require Import base list gmap.
From S2P Require Import Prelude.
Open Scope Z_scope.

(** The parts of [trackingSlotSupplier] that matter here.  A gauge is [None]
    until its first update. *)
Record gaugeState : Type := mkGauges {
  gauge_usedSlots : gset nat;
  usedSlotsVersion : Z;
  taskSlotsAvailableGauge : option Z;
  taskSlotsUsedGauge : option Z;
}.

Inductive publisher : Type :=
| publishRead
| publishAvailable (used version : Z)
| publishUsed (used version : Z)
| publishCheck (version : Z)
| published.

(** [usedSlotsVersion++] on a uint64. *)
Definition nextVersion (v : Z) : Z := (v + 1) `mod` 2 ^ 64.

Definition setUsed (u : gset nat) (s : gaugeState) : gaugeState :=
  mkGauges u (nextVersion (usedSlotsVersion s)) (taskSlotsAvailableGauge s) (taskSlotsUsedGauge s).

(** One step of [publishMetrics]; the supplier's [MaxSlots()] does not change. *)
Definition publishStep (maxSlots : Z) (c : publisher) (s : gaugeState) : publisher * gaugeState :=
  match c with
  | publishRead => (publishAvailable (Z.of_nat (size (gauge_usedSlots s))) (usedSlotsVersion s), s)
  | publishAvailable used version =>
      (publishUsed used version,
       if decide (maxSlots = 0) then s
       else mkGauges (gauge_usedSlots s) (usedSlotsVersion s) (Some (maxSlots - used)) (taskSlotsUsedGauge s))
  | publishUsed used version =>
      (publishCheck version,
       mkGauges (gauge_usedSlots s) (usedSlotsVersion s) (taskSlotsAvailableGauge s) (Some used))
  | publishCheck version =>
      (if decide (version = usedSlotsVersion s) then published else publishRead, s)
  | published => (published, s)
  end.

(** [ReserveSlot] and [TryReserveSlot] only publish; [MarkSlotUsed] and
    [ReleaseSlot] change [usedSlots] first; goroutine [i] goes on. *)
Inductive gaugeEvent : Type :=
| slotReserved
| slotMarked (p : nat)
| slotReleased (p : nat)
| publishOn (i : nat).

Record gaugeWorld : Type := mkGaugeWorld {
  publishers : list publisher;
  gauges : gaugeState;
}.

Definition gaugeStep (maxSlots : Z) (e : gaugeEvent) (x : gaugeWorld) : gaugeWorld :=
  match e with
  | slotReserved => mkGaugeWorld (publishers x ++ [publishRead]) (gauges x)
  | slotMarked p =>
      mkGaugeWorld (publishers x ++ [publishRead])
        (setUsed ({[p]} ∪ gauge_usedSlots (gauges x)) (gauges x))
  | slotReleased p =>
      mkGaugeWorld (publishers x ++ [publishRead])
        (setUsed (gauge_usedSlots (gauges x) ∖ {[p]}) (gauges x))
  | publishOn i =>
      match publishers x !! i with
      | None => x
      | Some c =>
          let '(c', s) := publishStep maxSlots c (gauges x) in
          mkGaugeWorld (<[i := c']> (publishers x)) s
      end
  end.

Definition gaugeRun (maxSlots : Z) (es : list gaugeEvent) (x : gaugeWorld) : gaugeWorld :=
  foldl (λ x e, gaugeStep maxSlots e x) x es.

Definition newGauges : gaugeWorld := mkGaugeWorld [] (mkGauges ∅ 0 None None).

(** ** Correctness *)

Section Gauges.
  Variable maxSlots : Z.

Definition usedNow (s : gaugeState) : Z := Z.of_nat (size (gauge_usedSlots s)).

(** A goroutine that will still update the gauge of used slots, or that of
    available ones, with the current number. *)
Definition willUse (v : Z) (c : publisher) : Prop :=
  match c with
  | publishRead => True
  | publishAvailable _ version | publishUsed _ version => True
  | publishCheck version => version ≠ v
  | published => False
  end.
Definition willAvail (v : Z) (c : publisher) : Prop :=
  match c with
  | publishRead => True
  | publishAvailable _ version => True
  | publishUsed _ version | publishCheck version => version ≠ v
  | published => False
  end.

(** What a goroutine read is current if its version is. *)
Definition readOk (s : gaugeState) (c : publisher) : Prop :=
  match c with
  | publishAvailable used version | publishUsed used version =>
      version ≤ usedSlotsVersion s ∧ (version = usedSlotsVersion s → used = usedNow s)
  | publishCheck version => version ≤ usedSlotsVersion s
  | _ => True
  end.

(** [n] changes so far. *)
Record gauges_inv (n : Z) (x : gaugeWorld) : Prop := {
  gv_version : usedSlotsVersion (gauges x) = n;
  gv_read c : c ∈ publishers x → readOk (gauges x) c;
  gv_used : taskSlotsUsedGauge (gauges x) = Some (usedNow (gauges x)) ∨
    (∃ c, c ∈ publishers x ∧ willUse n c) ∨ publishers x = [];
  gv_avail : maxSlots ≠ 0 →
    taskSlotsAvailableGauge (gauges x) = Some (maxSlots - usedNow (gauges x)) ∨
    (∃ c, c ∈ publishers x ∧ willAvail n c) ∨ publishers x = [];
}.

Lemma nextVersion_succ v : 0 ≤ v → v + 1 < 2 ^ 64 → nextVersion v = v + 1.
Proof. intros. unfold nextVersion. apply Z.mod_small. lia. Qed.

(** The goroutine of a new publication. *)
Lemma publish_new n n' x s :
  gauges_inv n x → 0 ≤ n → n ≤ n' → usedSlotsVersion s = n' →
  (n' = n → s = gauges x) →
  gauges_inv n' (mkGaugeWorld (publishers x ++ [publishRead]) s).
Proof.
  intros Hinv Hn Hle Hv Hsame. split; simpl.
  - done.
  - intros c [Hc|Hc%list_elem_of_singleton]%elem_of_app; [|by subst].
    pose proof (gv_read n x Hinv c Hc) as Hr. pose proof (gv_version n x Hinv) as Hvx.
    destruct (decide (n' = n)) as [He|Hne]; [by rewrite (Hsame He)|].
    destruct c; simpl in *; try done; try (split; [lia|]); intros; lia.
  - right. left. exists publishRead. split; [|done]. apply elem_of_app. right. by left.
  - intros _. right. left. exists publishRead. split; [|done]. apply elem_of_app. right. by left.
Qed.

(** A gauge that is right, or will be made so, stays that way when one
    goroutine moves. *)
Lemma publish_keeps (P : publisher → Prop) (l : list publisher) i c c' (G G' : Prop) :
  l !! i = Some c → (G → G' ∨ P c') → (P c → G' ∨ P c') →
  G ∨ (∃ d, d ∈ l ∧ P d) ∨ l = [] → G' ∨ (∃ d, d ∈ <[i := c']> l ∧ P d) ∨ <[i := c']> l = [].
Proof.
  intros Hi HG Hc Hold. assert (c' ∈ <[i := c']> l) as Hin.
  { eapply list_elem_of_lookup_2, list_lookup_insert_eq. by eapply lookup_lt_Some. }
  destruct Hold as [Hg|[(d & Hd & HP)|Hnil]]; [| |by rewrite Hnil in Hi].
  - destruct (HG Hg); eauto.
  - apply list_elem_of_lookup in Hd as [j Hj]. destruct (decide (j = i)) as [->|Hne].
    + simplify_eq. destruct (Hc HP); eauto.
    + right. left. exists d. split; [|done]. eapply list_elem_of_lookup_2. by rewrite list_lookup_insert_ne.
Qed.

Lemma publishStep_used c s :
  gauge_usedSlots (publishStep maxSlots c s).2 = gauge_usedSlots s ∧
  usedSlotsVersion (publishStep maxSlots c s).2 = usedSlotsVersion s.
Proof. destruct c; simpl; try done. by case_decide. Qed.

Lemma publish_on n x i c :
  gauges_inv n x → publishers x !! i = Some c →
  gauges_inv n (mkGaugeWorld (<[i := (publishStep maxSlots c (gauges x)).1]> (publishers x))
                  (publishStep maxSlots c (gauges x)).2).
Proof.
  intros Hinv Hi. pose proof (gv_version n x Hinv) as Hv.
  pose proof (gv_read n x Hinv c (list_elem_of_lookup_2 _ _ _ Hi)) as Hr.
  destruct (publishStep_used c (gauges x)) as [Hu Hvv].
  assert (∀ d, readOk (gauges x) d → readOk (publishStep maxSlots c (gauges x)).2 d) as Hkeep.
  { intros d. unfold readOk, usedNow. by rewrite Hu, Hvv. }
  assert (usedNow (publishStep maxSlots c (gauges x)).2 = usedNow (gauges x)) as Hun.
  { unfold usedNow. by rewrite Hu. }
  split; simpl; rewrite ?Hun.
  - congruence.
  - intros d [j Hj]%list_elem_of_lookup. apply Hkeep.
    apply list_lookup_insert_Some in Hj as [(<-&<-&_)|[_ Hj]].
    + destruct c; simpl in *; try done; [tauto|by case_decide].
    + eapply gv_read; [done|]. by eapply list_elem_of_lookup_2.
  - eapply (publish_keeps (willUse n)); [done|..|apply (gv_used n x Hinv)].
    all: destruct c as [|u v|u v|v|]; simpl; try case_decide; simpl; intros; auto; try congruence.
    all: destruct (decide (v = n)) as [->|]; [|by right]; left; f_equal; by apply Hr.
  - intros Hmax. eapply (publish_keeps (willAvail n)); [done|..|by apply (gv_avail n x Hinv)].
    all: destruct c as [|u v|u v|v|]; simpl; try case_decide; simpl; intros; auto; try congruence.
    all: destruct (decide (v = n)) as [->|]; [|by right]; left; simpl; do 2 f_equal; by apply Hr.
Qed.

(** The changes of [usedSlots] in a run. *)
Fixpoint changes (es : list gaugeEvent) : Z :=
  match es with
  | [] => 0
  | e :: es' => match e with slotMarked _ | slotReleased _ => 1 | _ => 0 end + changes es'
  end.

Lemma changes_nonneg es : 0 ≤ changes es.
Proof. induction es as [|[] es IH]; simpl; lia. Qed.

Lemma gaugeRun_inv es n x :
  gauges_inv n x → 0 ≤ n → n + changes es < 2 ^ 64 → gauges_inv (n + changes es) (gaugeRun maxSlots es x).
Proof.
  revert n x. induction es as [|e es IH]; intros n x Hinv Hn Hlt.
  { simpl. by rewrite Z.add_0_r. }
  pose proof (gv_version n x Hinv) as Hv.
  assert (∃ k, changes (e :: es) = k + changes es ∧ 0 ≤ k ∧ gauges_inv (n + k) (gaugeStep maxSlots e x)) as (k & Hk & Hk0 & Hinv').
  { pose proof (changes_nonneg es). destruct e as [|p|p|i]; simpl in *.
    - exists 0. rewrite Z.add_0_r. split_and!; [lia..|]. by eapply publish_new; eauto with lia.
    - exists 1. split_and!; [lia..|]. eapply publish_new; [done|lia..| |lia].
      simpl. rewrite Hv. apply nextVersion_succ; lia.
    - exists 1. split_and!; [lia..|]. eapply publish_new; [done|lia..| |lia].
      simpl. rewrite Hv. apply nextVersion_succ; lia.
    - exists 0. rewrite Z.add_0_r. split_and!; [lia..|]. destruct (publishers x !! i) as [c|] eqn:Hi; [|done].
      pose proof (publish_on n x i c Hinv Hi) as Hon. by destruct (publishStep maxSlots c (gauges x)). }
  rewrite Hk, Z.add_assoc. apply IH; [done|lia|lia].
Qed.

(** However the publications of slot changes interleave: when every
    publication has finished, and there was one, the gauge of used slots shows
    the number of slots in use, and that of available ones the rest of the
    supplier's maximum, provided the 64-bit version did not wrap around. *)
Theorem gauges_settle es :
  changes es < 2 ^ 64 →
  publishers (gaugeRun maxSlots es newGauges) ≠ [] →
  (∀ c, c ∈ publishers (gaugeRun maxSlots es newGauges) → c = published) →
  taskSlotsUsedGauge (gauges (gaugeRun maxSlots es newGauges)) =
    Some (usedNow (gauges (gaugeRun maxSlots es newGauges))) ∧
  (maxSlots ≠ 0 → taskSlotsAvailableGauge (gauges (gaugeRun maxSlots es newGauges)) =
     Some (maxSlots - usedNow (gauges (gaugeRun maxSlots es newGauges)))).
Proof.
  intros Hlt Hne Hall.
  assert (gauges_inv 0 newGauges) as H0 by (split; simpl; [done|by intros c ?%elem_of_nil|auto|auto]).
  pose proof (gaugeRun_inv es 0 newGauges H0 ltac:(lia) ltac:(lia)) as Hinv. split.
  - destruct (gv_used _ _ Hinv) as [?|[(c & Hc & Hw)|?]]; [done| |done]. by rewrite (Hall c Hc) in Hw.
  - intros Hmax. destruct (gv_avail _ _ Hinv Hmax) as [?|[(c & Hc & Hw)|?]]; [done| |done].
    by rewrite (Hall c Hc) in Hw.
Qed.
End Gauges.

(** A late update with an old number: the second publication overtakes the
    first, which then notices and publishes again. *)
Definition overtaken : list gaugeEvent :=
  [slotMarked 7; publishOn 0; slotReleased 7; publishOn 1; publishOn 1; publishOn 1; publishOn 1;
   publishOn 0; publishOn 0; publishOn 0; publishOn 0; publishOn 0; publishOn 0; publishOn 0].

Lemma gauges_settle_witness :
  changes overtaken < 2 ^ 64 ∧ taskSlotsUsedGauge (gauges (gaugeRun 5 overtaken newGauges)) = Some 0.
Proof.
  split; [vm_compute; reflexivity|].
  destruct (gauges_settle 5 overtaken) as [Hu _].
  - vm_compute. reflexivity.
  - vm_compute. discriminate.
  - intros c Hc. vm_compute in Hc. repeat (inversion Hc as [|? ? ? Hc']; subst; [reflexivity|]; clear Hc; rename Hc' into Hc).
    inversion Hc.
  - rewrite Hu. vm_compute. reflexivity.
Defined.
