(* ===== verification/Processor.v ===== *)
(** * Processing workflow tasks
      ([src/internal/internal_task_pollers.go], [workflowTaskProcessor]).

    A processor takes a polled task, finds the context of its execution, lets
    the task handler work on it, and tells the service what came of it: a
    completion, a failure, the answer to a query.  The answer of the service
    may hold the next task of the same execution.  In the end the context is
    unlocked, and discarded if anything went wrong.

    The task handler is behind an interface ([ProcessorHandler.v] has its
    implementation).  A completion that goes out in pages ([Completion.v])
    counts as one request.  Payload visitors (codecs, external storage),
    message sizes and the slots for eager activities ([WorkerSlots.v]) are
    parameters; metrics and logging are left out. *)

From stdpp Require Import base list gmap strings.
From S2P Require Import Prelude Proto CommandMachine CommandsHelper Flags History Replay Update Errors FailureConverter Retry Environment EventHandlers TaskContext TaskCompletion TaskProcessing Completion Lru WorkerCache TaskCache Slots.
Open Scope Z_scope.

(** ** Messages *)

Inductive WorkflowTaskFailedCause : Type :=
| WORKFLOW_TASK_FAILED_CAUSE_UNSPECIFIED
| WORKFLOW_TASK_FAILED_CAUSE_WORKFLOW_WORKER_UNHANDLED_FAILURE
| WORKFLOW_TASK_FAILED_CAUSE_NON_DETERMINISTIC_ERROR
| WORKFLOW_TASK_FAILED_CAUSE_PAYLOADS_TOO_LARGE
| WORKFLOW_TASK_FAILED_CAUSE_REQUEST_TOO_LARGE
| WORKFLOW_TASK_FAILED_CAUSE_GRPC_MESSAGE_TOO_LARGE.

#[export] Instance WorkflowTaskFailedCause_eq_dec : EqDecision WorkflowTaskFailedCause.
Proof. solve_decision. Defined.

Record RespondWorkflowTaskFailedRequest : Type := mkTaskFailed {
  failed_TaskToken : string;
  failed_Cause : WorkflowTaskFailedCause;
  failed_Failure : option Failure;
  failed_Identity : string;
  failed_BinaryChecksum : string;
  failed_Namespace : string;
  failed_ResourceId : string;
  (** [WorkerVersion] *)
  failed_stamp_BuildId : string;
  failed_stamp_UseVersioning : bool;
  (** [Deployment] *)
  failed_deployment_BuildId : string;
  failed_deployment_SeriesName : string;
  failed_DeploymentOptions : option WorkerDeploymentOptions;
}.

Record StickyExecutionAttributes : Type := mkSticky {
  sticky_Name : string;
  sticky_NormalName : string;
  sticky_ScheduleToStartTimeout : Z;
}.

(** [rawRequest] of a completion: the sticky attributes of a completed task and
    the cause of a query that failed are set by the processor. *)
Inductive rawRequest : Type :=
| requestCompleted (r : RespondWorkflowTaskCompletedRequest) (sticky : option StickyExecutionAttributes)
| requestFailed (r : RespondWorkflowTaskFailedRequest)
| requestQuery (r : RespondQueryTaskCompletedRequest) (cause : WorkflowTaskFailedCause).

Definition requestOf (c : workflowTaskCompletion) : rawRequest :=
  match c with
  | taskCompletion r => requestCompleted r None
  | queryTaskCompletion r => requestQuery r WORKFLOW_TASK_FAILED_CAUSE_UNSPECIFIED
  end.

(** [PollWorkflowTaskQueueResponse] as it arrives, with the answers the service
    will give to requests for more of its history. *)
Record polledResponse : Type := mkPolled {
  polled_task : pollTask;
  polled_Attempt : Z;
  polled_NextPageToken : option string;
  polled_pages : list (string + HistoryResponse);
}.

(** [RespondWorkflowTaskCompletedResponse], with the number of activity tasks. *)
Record completedResponse : Type := mkCompletedResponse {
  resp_WorkflowTask : option polledResponse;
  ResetHistoryEventId : Z;
  resp_ActivityTasks : nat;
}.

Definition toWorkflowTask (response : polledResponse) : pollTask * option historyIterator :=
  (polled_task response,
   Some (mkHistoryIterator (polled_NextPageToken response) (StartedEventId (polled_task response))
           (polled_pages response))).

(** ** Causes of failures *)

Definition isPayloadSizeError (err : goError) : bool :=
  bool_decide (is_Some (errorsAs (hasType "payloadSizeError") err)).
Definition isGrpcMessageTooLarge (err : goError) : bool :=
  bool_decide (is_Some (errorsAs (hasType "*GrpcMessageTooLargeError") err)).

Definition workflowQueryFailureCause (err : goError) : WorkflowTaskFailedCause :=
  if isPayloadSizeError err then WORKFLOW_TASK_FAILED_CAUSE_PAYLOADS_TOO_LARGE
  else
    match err with
    | workflowPanicError (illegalState _) _ => WORKFLOW_TASK_FAILED_CAUSE_NON_DETERMINISTIC_ERROR
    | workflowPanicError _ _ => WORKFLOW_TASK_FAILED_CAUSE_WORKFLOW_WORKER_UNHANDLED_FAILURE
    | _ =>
        if hasType "historyMismatchError" err then WORKFLOW_TASK_FAILED_CAUSE_NON_DETERMINISTIC_ERROR
        else if hasType "unknownSdkFlagError" err then WORKFLOW_TASK_FAILED_CAUSE_NON_DETERMINISTIC_ERROR
        else WORKFLOW_TASK_FAILED_CAUSE_UNSPECIFIED
    end.

Definition workflowTaskFailureCause (err : goError) : WorkflowTaskFailedCause :=
  let cause := WORKFLOW_TASK_FAILED_CAUSE_WORKFLOW_WORKER_UNHANDLED_FAILURE in
  match err with
  | workflowPanicError (illegalState _) _ => WORKFLOW_TASK_FAILED_CAUSE_NON_DETERMINISTIC_ERROR
  | workflowPanicError _ _ => cause
  | _ =>
      if hasType "historyMismatchError" err then WORKFLOW_TASK_FAILED_CAUSE_NON_DETERMINISTIC_ERROR
      else if hasType "unknownSdkFlagError" err then WORKFLOW_TASK_FAILED_CAUSE_NON_DETERMINISTIC_ERROR
      else if isPayloadSizeError err then WORKFLOW_TASK_FAILED_CAUSE_PAYLOADS_TOO_LARGE
      else cause
  end.

(** ** The processor *)

(** [workflowTaskCompletionPagination]: enabled, and the size limit. *)
Record workflowTaskProcessor : Type := mkProcessorOptions {
  wtp_handler : workflowTaskHandlerImpl;
  wtp_taskQueueName : string;
  wtp_stickyQueue : string;
  wtp_stickyCacheSize : Z;
  wtp_StickyScheduleToStartTimeout : Z;
  wtp_pagination : option (bool * Z);
  wtp_eagerExecutor : option eagerActivityExecutor;
}.

Inductive serviceAnswer : Type :=
| serviceError (err : goError)
| serviceResponse (r : completedResponse).

(** The contexts and caches, what the service will answer, and what it was
    sent; when the answers are used up the service is unavailable. *)
Record processor : Type := mkProcessor {
  pr_lookup : lookupState;
  pr_answers : list serviceAnswer;
  pr_sent : list rawRequest;
}.

Definition unavailable : goError := otherError "*Unavailable" "service unavailable" None.

Definition onLookup {A} (m : Go lookupState A) : Go processor A := λ s,
  let '(r, l) := m (pr_lookup s) in (r, mkProcessor l (pr_answers s) (pr_sent s)).

(** A call to the service. *)
Definition callService (request : rawRequest) : Go processor serviceAnswer := λ s,
  match pr_answers s with
  | [] => (Returned (serviceError unavailable),
           mkProcessor (pr_lookup s) [] (pr_sent s ++ [request]))
  | a :: answers => (Returned a, mkProcessor (pr_lookup s) answers (pr_sent s ++ [request]))
  end.

Definition answerError (a : serviceAnswer) : option goError :=
  match a with serviceError err => Some err | serviceResponse _ => None end.
Definition answerResponse (a : serviceAnswer) : option completedResponse :=
  match a with serviceError _ => None | serviceResponse r => Some r end.

(** [heartbeatFunc], and the interface [WorkflowTaskHandler]. *)
Definition heartbeatFunc : Type := option workflowTaskCompletion → Go processor (goError + option polledResponse).

Class WorkflowTaskHandler : Type := {
  handler_ProcessWorkflowTask : nat → heartbeatFunc →
    Go processor (option workflowTaskCompletion * option goError);
}.

Section Processor.
  Context `{WorkflowExecutionEventHandler} `{WorkflowTaskHandler}.
  Variable wtp : workflowTaskProcessor.
  Variable decodeJSON : string → string + list HistoryEvent.
  Variable unmarshal : string → string + list HistoryEvent.
  Variable visitPayloads : list HistoryEvent → string + list HistoryEvent.
  Variable handlers : nat → workflowTaskHandlerImpl.
  Variable handleOf : nat → nat.
  Variable wth : nat.
  Variable tunnel : option tunnelEnd.
  Variable now : Z.
  Variable ErrorToFailure : option goError → option Failure.
  Variable errorText : goError → string.
  (** The visitors of inbound and outbound messages; the second one knows the
      workflow whose commands it visits. *)
  Variable inboundPayloadVisitor : polledResponse → goError + polledResponse.
  Variable outboundPayloadVisitor : rawRequest → goError + rawRequest.
  Variable commandAwarePayloadVisitor : WorkflowInfo → rawRequest → goError + rawRequest.
  (** [proto.Size] *)
  Variable requestSize : RespondWorkflowTaskCompletedRequest → Z.
  Variable commandSize : Command → Z.
  (** [applyToRequest] of the eager activity executor, on the requests so far:
      the commands, and the number of slots reserved. *)
  Variable applyToRequest : nat → list Command → list Command * nat.
  Variable stackTrace : string.

(** ** Requests for failures *)

Definition errorToFailWorkflowTaskWithCause (taskToken workflowId : string) (err : goError)
    (cause : WorkflowTaskFailedCause) : RespondWorkflowTaskFailedRequest :=
  let h := wtp_handler wtp in
  mkTaskFailed taskToken cause (ErrorToFailure (Some err)) (identity h)
    (match capabilities h with
     | Some c => if BuildIdBasedVersioning c then "" else workerBuildID h
     | None => workerBuildID h
     end)
    (wth_namespace h) (getWorkflowResourceId workflowId) (workerBuildID h) (useBuildIDForVersioning h)
    (workerBuildID h)
    (if decide (workerDeploymentVersion h = noDeploymentVersion) then ""
     else DeploymentName (workerDeploymentVersion h))
    (workerDeploymentOptionsToProto (useBuildIDForVersioning h) (workerDeploymentVersion h)).

Definition errorToFailWorkflowTask (taskToken workflowId : string) (err : goError)
    : RespondWorkflowTaskFailedRequest :=
  errorToFailWorkflowTaskWithCause taskToken workflowId err (workflowTaskFailureCause err).

Definition queryFailure (task : pollTask) (err : goError) (cause : WorkflowTaskFailedCause) : rawRequest :=
  requestQuery (mkQueryCompleted (TaskToken task) (wth_namespace (wtp_handler wtp)) (PollerGroupId task)
    QUERY_RESULT_TYPE_FAILED (errorText err) (ErrorToFailure (Some err)) None) cause.

Definition taskFailureCompletion (task : pollTask) (err : goError) : rawRequest :=
  match task_Query task with
  | Some _ => queryFailure task err (workflowQueryFailureCause err)
  | None =>
      requestFailed (errorToFailWorkflowTask (TaskToken task)
        (we_WorkflowId (task_WorkflowExecution task)) err)
  end.

(** ** Sending *)

Definition withSticky (sticky : option StickyExecutionAttributes)
    : option StickyExecutionAttributes :=
  match sticky with
  | None =>
      if decide (0 < wtp_stickyCacheSize wtp)
      then Some (mkSticky (wtp_stickyQueue wtp) (wtp_taskQueueName wtp) (wtp_StickyScheduleToStartTimeout wtp))
      else None
  | Some a => Some a
  end.

Definition set_Commands (commands : list Command) (r : RespondWorkflowTaskCompletedRequest)
    : RespondWorkflowTaskCompletedRequest :=
  mkTaskCompleted (completed_TaskToken r) commands (completed_Messages r) (completed_Identity r)
    (ForceCreateNewWorkflowTask r) (completed_BinaryChecksum r) (QueryResults r) (completed_Namespace r)
    (ResourceId r) (NonfirstLocalActivityExecutionAttempts r) (LangUsedFlags r) (completed_SdkName r)
    (completed_SdkVersion r) (stamp_BuildId r) (stamp_UseVersioning r) (deployment_BuildId r)
    (deployment_SeriesName r) (DeploymentOptions r) (completed_WorkerControlTaskQueue r)
    (completed_VersioningBehavior r).

(** [handleResponse] of the eager activity executor panics on activities that
    were not asked for. *)
Definition handleEagerResponse (activityTasks reserved : nat) : Go processor unit :=
  match responseActionOf (wtp_eagerExecutor wtp) activityTasks reserved with
  | tooManyTasks =>
      panic (panicString ("Unexpectedly received " +:+ FormatInt (Z.of_nat activityTasks) +:+
        " eager activities though we only requested " +:+ FormatInt (Z.of_nat reserved))%string)
  | _ => mret tt
  end.

(** A failed task is reported on its first attempt only. *)
Definition sendTaskCompletedRequest (request : rawRequest) (attempt : Z)
    : Go processor (option completedResponse * option goError) :=
  match request with
  | requestFailed r =>
      if decide (attempt = 1) then a ← callService request; mret (None, answerError a)
      else mret (None, None)
  | requestCompleted r sticky =>
      s ← get;
      let '(commands, reserved) := applyToRequest (length (pr_sent s)) (Commands r) in
      a ← callService (requestCompleted (set_Commands commands r) (withSticky sticky));
      _ ← handleEagerResponse (match answerResponse a with Some p => resp_ActivityTasks p | None => 0%nat end)
            reserved;
      mret (answerResponse a, answerError a)
  | requestQuery r cause => a ← callService request; mret (None, answerError a)
  end.

Definition reportGrpcMessageTooLarge (request : rawRequest) (task : polledResponse) (sendErr : goError)
    : Go processor (option goError) :=
  let t := polled_task task in
  let report :=
    match request with
    | requestCompleted _ _ | requestFailed _ =>
        requestFailed (errorToFailWorkflowTaskWithCause (TaskToken t)
          (we_WorkflowId (task_WorkflowExecution t)) sendErr WORKFLOW_TASK_FAILED_CAUSE_GRPC_MESSAGE_TOO_LARGE)
    | requestQuery _ _ => queryFailure t sendErr WORKFLOW_TASK_FAILED_CAUSE_GRPC_MESSAGE_TOO_LARGE
    end in
  match outboundPayloadVisitor report with
  | inl err => mret (Some err)
  | inr report' => '(_, err) ← sendTaskCompletedRequest report' (polled_Attempt task); mret err
  end.

Definition tooLargeText (commandBytes limit : Z) : string :=
  ("workflow task completion command size " +:+ FormatInt commandBytes +:+
   " exceeds the namespace limit of " +:+ FormatInt limit +:+ " bytes")%string.

(** A paginated completion that the service would reject. *)
Definition limitSize (task : pollTask) (request : rawRequest) : rawRequest :=
  match request, wtp_pagination wtp with
  | requestCompleted r _, Some (true, limit) =>
      let commandBytes := bodySize commandSize (Commands r) in
      if bool_decide (maxWorkflowTaskCompletionPageBytes < requestSize r) && bool_decide (0 < limit)
         && bool_decide (limit < commandBytes)
      then requestFailed (errorToFailWorkflowTaskWithCause (TaskToken task)
             (we_WorkflowId (task_WorkflowExecution task)) (newError (tooLargeText commandBytes limit))
             WORKFLOW_TASK_FAILED_CAUSE_REQUEST_TOO_LARGE)
      else request
  | _, _ => request
  end.

(** The request that a task ends with; there is a completion when there is no
    error. *)
Definition requestFor (task : pollTask) (completion : option workflowTaskCompletion)
    (taskErr : option goError) : outcome rawRequest :=
  match taskErr, completion with
  | Some err, _ => Returned (taskFailureCompletion task err)
  | None, Some c => Returned (requestOf c)
  | None, None => Panicked History.nilDereference
  end.

(** The request that is sent: visited, and within the limit. *)
Definition visitedRequest (task : pollTask) (info : WorkflowInfo) (request : rawRequest) : rawRequest :=
  limitSize task
    (match commandAwarePayloadVisitor info request with
     | inl err => taskFailureCompletion task err
     | inr r => r
     end).

Definition RespondTaskCompletedWithMetrics (completion : option workflowTaskCompletion)
    (taskErr : option goError) (task : polledResponse) (info : WorkflowInfo)
    : Go processor (option completedResponse * option goError) :=
  request ← lift (requestFor (polled_task task) completion taskErr);
  let request' := visitedRequest (polled_task task) info request in
  '(response, err) ← sendTaskCompletedRequest request' (polled_Attempt task);
  match err with
  | Some e =>
      if isGrpcMessageTooLarge e then
        second ← reportGrpcMessageTooLarge request' task e;
        mret (response, match second with Some e' => Some e' | None => Some e end)
      else mret (response, err)
  | None => mret (response, err)
  end.

Definition handleInboundVisitorError (task : polledResponse) (visitErr : goError) : Go processor unit :=
  _ ← sendTaskCompletedRequest (taskFailureCompletion (polled_task task) visitErr) (polled_Attempt task);
  mret tt.

(** [wfctx.workflowInfo] *)
Definition workflowInfoOf (p : nat) : Go processor WorkflowInfo :=
  cx ← onLookup (deref p); mret (currentInfo (cx_context cx)).

(** The next task, with its payloads visited; none if that failed. *)
Definition nextWorkflowTask (response : option completedResponse) : Go processor (option polledResponse) :=
  match response ≫= resp_WorkflowTask with
  | None => mret None
  | Some task =>
      match inboundPayloadVisitor task with
      | inl err => _ ← handleInboundVisitorError task err; mret None
      | inr task' => mret (Some task')
      end
  end.

Definition heartbeat (p : nat) (task : polledResponse) : heartbeatFunc := λ completion,
  info ← workflowInfoOf p;
  '(response, err) ← RespondTaskCompletedWithMetrics completion None task info;
  match err with
  | Some e => mret (inl e)
  | None => next ← nextWorkflowTask response; mret (inr next)
  end.

(** The task at hand. *)
Definition takeTask (task : polledResponse) : Go processor unit :=
  onLookup (modify (λ s, let '(t, it) := toWorkflowTask task in
    mkLookupState (ls_caches s) (ls_contexts s) (ls_next s) t it)).

(** [taskErr.(workflowTaskHeartbeatError)] *)
Definition isHeartbeatError (err : option goError) : bool :=
  match err with Some e => hasType "workflowTaskHeartbeatError" e | None => false end.

(** The loop over the tasks of the execution: [taskErr] and the result. *)
Fixpoint processLoop (fuel : nat) (p : nat) (task : polledResponse)
    : Go processor (option goError * option goError) :=
  match fuel with
  | O => panic (runtimeError "out of fuel")
  | S fuel' =>
      '(completion, taskErr) ← handler_ProcessWorkflowTask p (heartbeat p task);
      if bool_decide (completion = None) && bool_decide (taskErr = None) then mret (None, None)
      else if isHeartbeatError taskErr then mret (taskErr, taskErr)
      else
        info ← workflowInfoOf p;
        '(response, err) ← RespondTaskCompletedWithMetrics completion taskErr task info;
        match err with
        | Some e => mret (Some e, Some e)
        | None =>
            let eventLevel := match response with Some r => ResetHistoryEventId r | None => 0 end in
            _ ← (if decide (eventLevel = 0) then mret tt
                 else onLookup (onContext p (modify (SetPreviousStartedEventID eventLevel))));
            if bool_decide (taskErr ≠ None) then mret (taskErr, None)
            else
              next ← nextWorkflowTask response;
              match next with
              | None => mret (None, None)
              | Some task' => _ ← takeTask task'; processLoop fuel' p task'
              end
        end
  end.

(** The deferred function: a panic becomes an error, and the context is
    unlocked with the error of the task. *)
Definition unlockAfter (p : nat) (m : Go processor (option goError * option goError))
    : Go processor (option goError) := λ s,
  match m s with
  | (Returned (taskErr, retErr), s') => (_ ← onLookup (Unlock handlers handleOf p taskErr); mret retErr) s'
  | (Panicked v, s') =>
      let err := PanicError None (panicText v) stackTrace in
      (_ ← onLookup (Unlock handlers handleOf p (Some err)); mret (Some err)) s'
  end.

Definition processWorkflowTask (task : option polledResponse) : Go processor (option goError) :=
  match task with
  | None => mret None
  | Some task =>
      match inboundPayloadVisitor task with
      | inl err => _ ← handleInboundVisitorError task err; mret None
      | inr task' =>
          _ ← takeTask task';
          r ← onLookup (GetOrCreateWorkflowContext decodeJSON unmarshal visitPayloads handlers handleOf
                          wth tunnel now);
          match r with
          | inl err => mret (Some err)
          | inr p => s ← get; unlockAfter p (processLoop (S (length (pr_answers s))) p task')
          end
      end
  end.

(** What [ProcessTask] is called with. *)
Inductive processorTask : Type :=
| workflowTaskOf (task : option polledResponse)
| eagerWorkflowTaskOf (task : polledResponse)
| otherTask.

Definition errStop : goError := newError "worker stopping".

Definition ProcessTask (drain stopping : bool) (task : processorTask) : Go processor (option goError) :=
  if negb drain && stopping then mret (Some errStop)
  else
    match task with
    | workflowTaskOf t => processWorkflowTask t
    | eagerWorkflowTaskOf t => processWorkflowTask (Some t)
    | otherTask => panic (panicString "unknown task type.")
    end.
End Processor.
