(* ===== verification/ProcessorFacts.v ===== *)
(** * What the processor of workflow tasks guarantees *)

From stdpp Require Import base list gmap strings.
From S2P Require Import Prelude Proto CommandMachine CommandsHelper Flags History Replay Update Errors FailureConverter Retry Environment EventHandlers TaskContext TaskCompletion TaskProcessing Completion Lru WorkerCache TaskCache Slots Processor.
Open Scope Z_scope.

Create HintDb talks.

(** ** The task handler *)

(** What working on the context [p] may change. *)
Definition works (p : nat) (l l' : lookupState) : Prop :=
  ls_caches l' = ls_caches l ∧ ls_next l' = ls_next l ∧
  (∀ q, q ≠ p → ls_contexts l' !! q = ls_contexts l !! q) ∧
  (∀ cx, ls_contexts l !! p = Some cx → ∃ cx', ls_contexts l' !! p = Some cx' ∧ cx_wth cx' = cx_wth cx ∧
     info_WorkflowExecution (w_execution (cx_context cx')) =
     info_WorkflowExecution (w_execution (cx_context cx))).

(** A task handler works on its context and the task at hand, and reaches the
    service through [heartbeatFunc] only. *)
Class WorkflowTaskHandlerLaws `{WorkflowTaskHandler} : Prop :=
  handler_law p (hb : heartbeatFunc) (I : processor → Prop) :
    (∀ s l, I s → works p (pr_lookup s) l → I (mkProcessor l (pr_answers s) (pr_sent s))) →
    (∀ c s, I s → I (final (hb c) s)) →
    ∀ s, I s → I (final (handler_ProcessWorkflowTask p hb) s).

Lemma works_refl p l : works p l l.
Proof. split_and!; eauto. Qed.

Lemma works_trans p l1 l2 l3 : works p l1 l2 → works p l2 l3 → works p l1 l3.
Proof.
  intros (H1 & H2 & H3 & H4) (H1' & H2' & H3' & H4'). split_and!; [congruence|congruence| |].
  - intros q Hq. rewrite H3', H3; done.
  - intros cx Hcx. destruct (H4 cx Hcx) as (cx' & Hcx' & ? & ?). destruct (H4' cx' Hcx') as (cx'' & ? & ? & ?).
    exists cx''. split_and!; congruence.
Qed.

(** ** Causes *)

Lemma query_cause err :
  workflowQueryFailureCause err = WORKFLOW_TASK_FAILED_CAUSE_UNSPECIFIED ∧
    workflowTaskFailureCause err = WORKFLOW_TASK_FAILED_CAUSE_WORKFLOW_WORKER_UNHANDLED_FAILURE ∨
  workflowQueryFailureCause err = workflowTaskFailureCause err ∨
  isPayloadSizeError err = true ∧
    (hasType "historyMismatchError" err = true ∨ hasType "unknownSdkFlagError" err = true).
Proof.
  unfold workflowQueryFailureCause, workflowTaskFailureCause.
  destruct (isWorkflowPanicError err) eqn:Hp.
  - destruct err; try done. simpl. case_match; auto.
  - destruct (isPayloadSizeError err), (hasType "historyMismatchError" err), (hasType "unknownSdkFlagError" err);
      destruct err; try done; auto 10.
Qed.

Section Facts.
  Context `{WorkflowExecutionEventHandler} `{WorkflowTaskHandler} `{!WorkflowTaskHandlerLaws}.
  Variable wtp : workflowTaskProcessor.
  Variable decodeJSON : string → string + list HistoryEvent.
  Variable unmarshal : string → string + list HistoryEvent.
  Variable visitPayloads : list HistoryEvent → string + list HistoryEvent.
  Variable handlers : nat → workflowTaskHandlerImpl.
  Variable handleOf : nat → nat.
  Variable wth : nat.
  Variable tunnel : option tunnelEnd.
  Variable now : Z.
  Variable ErrorToFailure : option goError → option Failure.
  Variable errorText : goError → string.
  Variable inboundPayloadVisitor : polledResponse → goError + polledResponse.
  Variable outboundPayloadVisitor : rawRequest → goError + rawRequest.
  Variable commandAwarePayloadVisitor : WorkflowInfo → rawRequest → goError + rawRequest.
  Variable requestSize : RespondWorkflowTaskCompletedRequest → Z.
  Variable commandSize : Command → Z.
  Variable applyToRequest : nat → list Command → list Command * nat.
  Variable stackTrace : string.
#[local] Abbreviation send := (sendTaskCompletedRequest wtp applyToRequest).
#[local] Abbreviation respond := (RespondTaskCompletedWithMetrics wtp ErrorToFailure errorText
  outboundPayloadVisitor commandAwarePayloadVisitor requestSize commandSize applyToRequest).
#[local] Abbreviation nextTask := (nextWorkflowTask wtp ErrorToFailure errorText inboundPayloadVisitor applyToRequest).
#[local] Abbreviation beat := (heartbeat wtp ErrorToFailure errorText inboundPayloadVisitor
  outboundPayloadVisitor commandAwarePayloadVisitor requestSize commandSize applyToRequest).
#[local] Abbreviation loop := (processLoop wtp ErrorToFailure errorText inboundPayloadVisitor
  outboundPayloadVisitor commandAwarePayloadVisitor requestSize commandSize applyToRequest).

(** ** Calls to the service *)

(** An operation that only talks to the service. *)
Definition talks {A} (m : Go processor A) : Prop := ∀ s,
  pr_lookup (final m s) = pr_lookup s ∧
  (length (pr_answers (final m s)) ≤ length (pr_answers s))%nat ∧
  pr_sent s `prefix_of` pr_sent (final m s).

Lemma talks_ret {A} (a : A) : talks (mret a).
Proof. intros s. done. Qed.

Lemma talks_panic {A} v : talks (panic (A := A) v).
Proof. intros s. done. Qed.

Lemma talks_get : talks get.
Proof. intros s. done. Qed.

Lemma talks_bind {A B} (m : Go processor A) (k : A → Go processor B) :
  talks m → (∀ a, talks (k a)) → talks (m ≫= k).
Proof.
  intros Hm Hk s. unfold final, mbind, go_bind. specialize (Hm s). unfold final in Hm.
  destruct (m s) as [[a|v] s1]; simpl in *; [|done]. destruct (Hk a s1) as (Hl & Ha & Hp), Hm as (Hl' & Ha' & Hp').
  unfold final in *. split_and!; [congruence|lia|by etrans].
Qed.

Lemma talks_call r : talks (callService r).
Proof.
  intros s. unfold final, callService. destruct (pr_answers s) as [|a l] eqn:Ha; simpl.
  - split_and!; [done|lia|by eexists].
  - split_and!; [done|lia|by eexists].
Qed.
#[local] Hint Resolve talks_ret talks_panic talks_get talks_bind talks_call : talks.

Lemma talks_send r attempt : talks (send r attempt).
Proof.
  destruct r as [r sticky|r|r cause]; simpl.
  - apply talks_bind; [auto with talks|]. intros s. destruct (applyToRequest _ _) as [cs n].
    apply talks_bind; [auto with talks|]. intros a. apply talks_bind; [|auto with talks].
    unfold handleEagerResponse. destruct (responseActionOf _ _ _); auto with talks.
  - case_decide; auto with talks.
  - auto with talks.
Qed.
#[local] Hint Resolve talks_send : talks.

Lemma talks_respond completion taskErr task info : talks (respond completion taskErr task info).
Proof.
  unfold RespondTaskCompletedWithMetrics. apply talks_bind; [by intros s|]. intros request. apply talks_bind; [auto with talks|]. intros [response [err|]]; [|auto with talks].
  destruct (isGrpcMessageTooLarge err); [|auto with talks]. apply talks_bind; [|auto with talks].
  unfold reportGrpcMessageTooLarge. destruct (outboundPayloadVisitor _); [auto with talks|].
  apply talks_bind; [auto with talks|]. intros [? ?]. auto with talks.
Qed.

Lemma talks_next response : talks (nextTask response).
Proof.
  unfold nextWorkflowTask, handleInboundVisitorError. destruct (response ≫= resp_WorkflowTask); [|auto with talks].
  destruct (inboundPayloadVisitor _); auto with talks.
Qed.
#[local] Hint Resolve talks_respond talks_next : talks.

Lemma talks_info p : talks (workflowInfoOf p).
Proof.
  intros s. unfold workflowInfoOf, final, mbind, go_bind, onLookup, deref. destruct (ls_contexts (pr_lookup s) !! p); by destruct s.
Qed.
#[local] Hint Resolve talks_info : talks.

Lemma talks_beat p task c : talks (beat p task c).
Proof.
  unfold heartbeat. apply talks_bind; [auto with talks|]. intros info. apply talks_bind; [auto with talks|].
  intros [response [err|]]; auto with talks.
Qed.

(** What the handler leaves, whatever it does. *)
Lemma handler_leaves p task s :
  let s' := final (handler_ProcessWorkflowTask p (beat p task)) s in
  works p (pr_lookup s) (pr_lookup s') ∧ (length (pr_answers s') ≤ length (pr_answers s))%nat ∧
  pr_sent s `prefix_of` pr_sent s'.
Proof.
  cbv zeta. apply (handler_law p _ (λ s', works p (pr_lookup s) (pr_lookup s') ∧
    (length (pr_answers s') ≤ length (pr_answers s))%nat ∧ pr_sent s `prefix_of` pr_sent s')).
  - intros s1 l (Hw & Ha & Hs) Hl. simpl. split_and!; [by eapply works_trans|done|done].
  - intros c s1 (Hw & Ha & Hs). destruct (talks_beat p task c s1) as (Hl & Ha' & Hp).
    split_and!; [by rewrite Hl|lia|by etrans].
  - split_and!; [apply works_refl|done|done].
Qed.

(** ** The loop ends *)

Lemma send_consumes r attempt s response err s' :
  send r attempt s = (Returned (Some response, err), s') →
  (length (pr_answers s') < length (pr_answers s))%nat.
Proof.
  destruct r as [r sticky|r|r cause]; simpl; unfold mbind, go_bind.
  - unfold get. destruct (applyToRequest _ _) as [cs n]. unfold callService.
    destruct (pr_answers s) as [|a l] eqn:Ha; simpl.
    + unfold handleEagerResponse. destruct (responseActionOf _ _ _); simpl; done.
    + unfold handleEagerResponse. destruct (responseActionOf _ _ _); simpl; intros [= ? ? <-]; simpl; lia.
  - case_decide; [|done]. by destruct (callService (requestFailed r) s) as [[]].
  - by destruct (callService (requestQuery r cause) s) as [[]].
Qed.

Lemma respond_consumes completion taskErr task info s response s' :
  respond completion taskErr task info s = (Returned (Some response, None), s') →
  (length (pr_answers s') < length (pr_answers s))%nat.
Proof.
  unfold RespondTaskCompletedWithMetrics, mbind, go_bind, lift.
  destruct (requestFor _ _ _ _ completion taskErr) as [request|]; [|done].
  match goal with |- context [send ?q ?a s] => destruct (send q a s) as [[[resp err]|] s1] eqn:Hs end; [|done].
  destruct err as [e|]; [|intros [= -> ->]; by eapply send_consumes].
  destruct (isGrpcMessageTooLarge e); [|done].
  match goal with |- context [reportGrpcMessageTooLarge ?a ?b ?c ?d ?r ?q ?t ?e s1] =>
    destruct (reportGrpcMessageTooLarge a b c d r q t e s1) as [[[e2|]|] s2] end; done.
Qed.

Lemma beat_consumes p task c s next s' :
  beat p task c s = (Returned (inr (Some next)), s') → (length (pr_answers s') < length (pr_answers s))%nat.
Proof.
  unfold heartbeat, mbind, go_bind, mret, go_ret.
  pose proof (talks_info p s) as (_ & Hi & _). unfold final in Hi.
  destruct (workflowInfoOf p s) as [[info|] s1]; [|done]. simpl in Hi.
  destruct (respond c None task info s1) as [[[response [err|]]|] s2] eqn:Hr; [done| |done].
  pose proof (talks_next response s2) as (_ & Hn & _). unfold final in Hn.
  destruct (nextTask response s2) as [[[task'|]|] s3] eqn:Hnt; intros Heq; simplify_eq/=.
  destruct response as [r|]; [|done]. apply respond_consumes in Hr. simpl in *. lia.
Qed.

Lemma processLoop_fuel n : ∀ f1 f2 p task s,
  (length (pr_answers s) ≤ n)%nat → (n < f1)%nat → (n < f2)%nat → loop f1 p task s = loop f2 p task s.
Proof.
  induction n as [n IH] using lt_wf_ind. intros f1 f2 p task s Hn H1' H2'.
  destruct f1 as [|f1]; [lia|]. destruct f2 as [|f2]; [lia|]. simpl. unfold mbind, go_bind.
  pose proof (handler_leaves p task s) as (_ & Ha & _). unfold final in Ha.
  destruct (handler_ProcessWorkflowTask p _ s) as [[[completion taskErr]|] s1]; [|done]. simpl in Ha.
  destruct (_ && _); [done|]. destruct (isHeartbeatError taskErr); [done|].
  pose proof (talks_info p s1) as (_ & Hb & _). unfold final in Hb.
  destruct (workflowInfoOf p s1) as [[info|] s2]; [|done]. simpl in Hb.
  destruct (respond completion taskErr task info s2) as [[[response [err|]]|] s3] eqn:Hr; try done.
  set (adjust := if decide _ then _ else _).
  assert (length (pr_answers (adjust s3).2) = length (pr_answers s3)) as Had.
  { unfold adjust. case_decide; [done|]. unfold onLookup. by destruct (onContext _ _ _). }
  destruct (adjust s3) as [[[]|] s4]; [|done]. simpl in Had. destruct (bool_decide _); [done|].
  pose proof (talks_next response s4) as (_ & Hc & _). unfold final in Hc.
  destruct (nextTask response s4) as [[[task'|]|] s5] eqn:Hnt; try done. simpl in Hc.
  assert (∃ r, response = Some r) as [r ->].
  { destruct response; [by eexists|]. unfold nextWorkflowTask in Hnt. simplify_eq/=. }
  apply respond_consumes in Hr.
  pose proof (IH (length (pr_answers s5)) ltac:(lia)) as IH'. unfold takeTask, onLookup, modify. simpl.
  apply IH'; simpl; lia.
Qed.

(** The loop over the workflow tasks that the service hands out in its
    answers ends: it makes no more rounds than there are answers, so that the
    number of rounds the processor is given in the model is never reached. *)
Theorem task_chain_terminates fuel p task s :
  (S (length (pr_answers s)) ≤ fuel)%nat →
  loop fuel p task s = loop (S (length (pr_answers s))) p task s.
Proof. intros Hf. apply (processLoop_fuel (length (pr_answers s))); lia. Qed.

(** ** The context afterwards *)

Lemma works_task p (l : lookupState) t it :
  works p l (mkLookupState (ls_caches l) (ls_contexts l) (ls_next l) t it).
Proof. split_and!; simpl; eauto. Qed.

Lemma works_level p eventLevel l :
  works p l (final (onContext p (modify (SetPreviousStartedEventID eventLevel))) l).
Proof.
  unfold final, onContext, onRun, inContext. destruct (ls_contexts l !! p) as [cx|] eqn:Hp; [|apply works_refl].
  simpl. split_and!; simpl; try done.
  - intros q Hq. by rewrite lookup_insert_ne.
  - intros cx' Hcx'. assert (cx' = cx) as -> by congruence. eexists. rewrite lookup_insert_eq.
    split; [done|]. simpl. by destruct (cx_context cx).
Qed.

Lemma processLoop_works fuel : ∀ p task s, works p (pr_lookup s) (pr_lookup (final (loop fuel p task) s)).
Proof.
  induction fuel as [|fuel IH]; intros p task s; [apply works_refl|]. simpl. unfold final, mbind, go_bind.
  pose proof (handler_leaves p task s) as (Hw & _). unfold final in Hw.
  destruct (handler_ProcessWorkflowTask p _ s) as [[[completion taskErr]|] s1]; [|done]. simpl in Hw.
  destruct (_ && _); [done|]. destruct (isHeartbeatError taskErr); [done|].
  pose proof (talks_info p s1) as (Hi & _). unfold final in Hi.
  destruct (workflowInfoOf p s1) as [[info|] s2]; simpl in Hi; [|simpl; by rewrite Hi].
  pose proof (talks_respond completion taskErr task info s2) as (Hr & _). unfold final in Hr.
  destruct (respond completion taskErr task info s2) as [[[response [err|]]|] s3]; simpl in Hr;
    try (simpl; by rewrite Hr, Hi).
  set (adjust := if decide _ then _ else _).
  assert (works p (pr_lookup s3) (pr_lookup (adjust s3).2)) as Had.
  { unfold adjust. case_decide; [apply works_refl|]. unfold onLookup.
    pose proof (works_level p (match response with Some r => ResetHistoryEventId r | None => 0 end) (pr_lookup s3)) as Hl.
    unfold final in Hl. by destruct (onContext _ _ _). }
  rewrite Hr, Hi in Had. pose proof (works_trans _ _ _ _ Hw Had) as Hw4.
  destruct (adjust s3) as [[[]|] s4]; [|done]. simpl in Hw4. destruct (bool_decide _); [done|].
  pose proof (talks_next response s4) as (Hn & _). unfold final in Hn.
  destruct (nextTask response s4) as [[[task'|]|] s5]; simpl in Hn; try (simpl; by rewrite Hn).
  unfold takeTask, onLookup, modify. simpl. eapply works_trans; [exact Hw4|].
  eapply works_trans; [|apply IH]. simpl. rewrite Hn. apply works_task.
Qed.

(** There is no error to return without one of the task. *)
Lemma processLoop_returns fuel : ∀ p task s retErr s',
  loop fuel p task s = (Returned (None, retErr), s') → retErr = None.
Proof.
  induction fuel as [|fuel IH]; intros p task s retErr s' Hl; [done|]. simpl in Hl. unfold mbind, go_bind, mret, go_ret in Hl.
  destruct (handler_ProcessWorkflowTask p _ s) as [[[completion taskErr]|] s1]; [|done].
  destruct (_ && _); [congruence|]. destruct (isHeartbeatError taskErr); [congruence|].
  destruct (workflowInfoOf p s1) as [[info|] s2]; [|done].
  destruct (respond completion taskErr task info s2) as [[[response [err|]]|] s3]; [congruence| |done].
  set (adjust := if decide _ then _ else _) in Hl.
  destruct (adjust s3) as [[[]|] s4]; [|done]. destruct (bool_decide _); [congruence|].
  destruct (nextTask response s4) as [[[task'|]|] s5]; [|congruence|done].
  unfold takeTask, onLookup, modify in Hl. simpl in Hl. by eapply IH.
Qed.

(** A context that is unlocked with an error is not in the cache. *)
Definition uncached (p : nat) (cx : sharedContext) (l : lookupState) : Prop :=
  cachedAt (handleOf (cx_wth cx)) (we_RunId (info_WorkflowExecution (w_execution (cx_context cx))))
    (ls_caches l) ≠ Some p.

(** Nothing is left of it, if it could be destroyed. *)
Definition discards_context {A} (p : nat) (cx : sharedContext) : Go processor A → processor → Prop := λ m s,
  wp m (λ _ s', destroyedIn (pr_lookup s') p ∧ uncached p cx (pr_lookup s'))
    (λ _ s', uncached p cx (pr_lookup s')) s.

Lemma onContext_caches {A} p (m : Ctx A) l : ls_caches (final (onContext p m) l) = ls_caches l.
Proof.
  unfold final, onContext, onRun. destruct (ls_contexts l !! p) as [cx|]; [|done].
  by destruct (inContext m _).
Qed.

Lemma Unlock_uncached p err l cx :
  world_wf (ls_caches l) → ls_contexts l !! p = Some cx →
  uncached p cx (final (Unlock handlers handleOf p (Some err)) l).
Proof.
  intros Hwf Hp. unfold Unlock, deref, final, mbind, go_bind. rewrite Hp. rewrite bool_decide_eq_true_2 by done.
  simpl. unfold inCaches at 1.
  set (key := we_RunId _). set (wc := handleOf _).
  destruct (remove_cachedAt wc wc key key p (ls_caches l) Hwf) as [_ Hn].
  unfold final in Hn. destruct (removeWorkflowContext wc key p (ls_caches l)) as [[r|] c]; simpl in *; [|by apply Hn].
  set (l1 := mkLookupState _ _ _ _ _). pose proof (onContext_caches p (modify (set_cached false)) l1) as H1c.
  unfold final in H1c. destruct (onContext p (modify _) l1) as [[[]|] l2]; simpl in H1c;
    [|unfold uncached; simpl; rewrite H1c; by apply Hn].
  unfold uncached. pose proof (onContext_caches p clearState l2) as H2c. unfold final in H2c. rewrite H2c, H1c. by apply Hn.
Qed.

Lemma Unlock_destroys p err l :
  returns (Unlock handlers handleOf p (Some err)) (λ _ l', destroyedIn l' p) l.
Proof.
  unfold Unlock. rewrite wp_bind. apply wp_deref. intros cx Hcx. cbv zeta.
  rewrite bool_decide_eq_true_2 by done. simpl. rewrite wp_bind. apply wp_inCaches. intros r _. rewrite wp_bind.
  apply wp_onContext. intros cx1 Hcx1. rewrite wp_modify. apply wp_onContext. intros cx2 Hcx2.
  eapply wp_mono; [apply clearState_destroys| |done]. intros [] w' Hw'. simpl in *.
  eexists. simpl. rewrite lookup_insert_eq. done.
Qed.

Lemma unlock_discards p err cx (retErr : option goError) s :
  world_wf (ls_caches (pr_lookup s)) → ls_contexts (pr_lookup s) !! p = Some cx →
  discards_context p cx (_ ← onLookup (Unlock handlers handleOf p (Some err)); mret retErr) s.
Proof.
  intros Hwf Hp. pose proof (Unlock_uncached p err _ cx Hwf Hp) as Hn.
  pose proof (Unlock_destroys p err (pr_lookup s)) as Hd.
  unfold discards_context, wp, final, mbind, go_bind, onLookup in *.
  by destruct (Unlock handlers handleOf p (Some err) (pr_lookup s)) as [[[]|v] l].
Qed.

Lemma discards_context_same {A} p cx cx' (m : Go processor A) s :
  cx_wth cx' = cx_wth cx →
  info_WorkflowExecution (w_execution (cx_context cx')) = info_WorkflowExecution (w_execution (cx_context cx)) →
  discards_context p cx' m s → discards_context p cx m s.
Proof. unfold discards_context, uncached. by intros -> ->. Qed.


(** ** What the service is told *)

(** What [sendTaskCompletedRequest] sends. *)
Definition sentFor (request : rawRequest) (attempt : Z) (s : processor) : list rawRequest :=
  match request with
  | requestFailed _ => if decide (attempt = 1) then [request] else []
  | requestCompleted r sticky =>
      [requestCompleted (set_Commands (applyToRequest (length (pr_sent s)) (Commands r)).1 r)
         (withSticky wtp sticky)]
  | requestQuery _ _ => [request]
  end.

Lemma callService_sent r s : pr_sent (callService r s).2 = pr_sent s ++ [r].
Proof. unfold callService. by destruct (pr_answers s). Qed.

Lemma send_sent request attempt s :
  pr_sent (send request attempt s).2 = pr_sent s ++ sentFor request attempt s.
Proof.
  destruct request as [r sticky|r|r cause]; simpl; unfold mbind, go_bind.
  - unfold get. destruct (applyToRequest _ _) as [cs n]. simpl.
    match goal with |- context [callService ?q s] => pose proof (callService_sent q s) as Hc;
      destruct (callService q s) as [[a|] s1] end; [|done]. simpl in Hc.
    unfold handleEagerResponse. by destruct (responseActionOf _ _ _).
  - case_decide; [|by rewrite app_nil_r].
    pose proof (callService_sent (requestFailed r) s) as Hc. by destruct (callService _ s) as [[a|] s1].
  - pose proof (callService_sent (requestQuery r cause) s) as Hc. by destruct (callService _ s) as [[a|] s1].
Qed.

Definition causeOf (r : rawRequest) : WorkflowTaskFailedCause :=
  match r with
  | requestCompleted _ _ => WORKFLOW_TASK_FAILED_CAUSE_UNSPECIFIED
  | requestFailed f => failed_Cause f
  | requestQuery _ cause => cause
  end.

(** A second request says that the first was too large. *)
Definition reportsTooLarge (task : polledResponse) (second : list rawRequest) : Prop :=
  ∃ report report' s', outboundPayloadVisitor report = inr report' ∧
    causeOf report = WORKFLOW_TASK_FAILED_CAUSE_GRPC_MESSAGE_TOO_LARGE ∧
    second = sentFor report' (polled_Attempt task) s'.

Lemma report_sent request task e s :
  let s' := (reportGrpcMessageTooLarge wtp ErrorToFailure errorText outboundPayloadVisitor applyToRequest
               request task e s).2 in
  pr_sent s' = pr_sent s ∨ ∃ second, pr_sent s' = pr_sent s ++ second ∧ reportsTooLarge task second.
Proof.
  cbv zeta. unfold reportGrpcMessageTooLarge. set (report := match request with requestQuery _ _ => _ | _ => _ end).
  assert (causeOf report = WORKFLOW_TASK_FAILED_CAUSE_GRPC_MESSAGE_TOO_LARGE) as Hcause by (unfold report; by destruct request).
  destruct (outboundPayloadVisitor report) as [err|report'] eqn:Hv; [by left|]. right.
  exists (sentFor report' (polled_Attempt task) s). split; [|by exists report, report', s].
  unfold mbind, go_bind. pose proof (send_sent report' (polled_Attempt task) s) as Hs.
  by destruct (send report' (polled_Attempt task) s) as [[[? ?]|] s1].
Qed.

(** The requests of an answer: the one that the outcome calls for, and the
    report that it was too large. *)
Definition answered (request : rawRequest) (task : polledResponse) (s : processor)
    (run : outcome (option completedResponse * option goError) * processor) : Prop :=
  let first := sentFor request (polled_Attempt task) s in
  pr_sent run.2 = pr_sent s ++ first ∨
  ∃ second response e, (∀ response' err', run.1 = Returned (response', err') → err' ≠ None) ∧
    result (send request (polled_Attempt task)) s = Returned (response, Some e) ∧
    isGrpcMessageTooLarge e = true ∧ reportsTooLarge task second ∧
    pr_sent run.2 = pr_sent s ++ first ++ second.

#[local] Abbreviation visited := (visitedRequest wtp ErrorToFailure errorText commandAwarePayloadVisitor
  requestSize commandSize).

Lemma respond_answers completion taskErr task info s request :
  requestFor wtp ErrorToFailure errorText (polled_task task) completion taskErr = Returned request →
  answered (visited (polled_task task) info request) task s (respond completion taskErr task info s).
Proof.
  intros Hr. unfold answered, RespondTaskCompletedWithMetrics, mbind, go_bind, lift, result. rewrite Hr.
  set (request' := visited _ _ _). set (first := sentFor _ _ _). pose proof (send_sent request' (polled_Attempt task) s) as Hs. fold first in Hs.
  destruct (send request' (polled_Attempt task) s) as [[[response err]|v] s1]; simpl in *; [|by left].
  destruct err as [e|]; [|by left]. destruct (isGrpcMessageTooLarge e) eqn:He; [|by left].
  pose proof (report_sent request' task e s1) as Hrep. cbv zeta in Hrep.
  destruct (reportGrpcMessageTooLarge _ _ _ _ _ request' task e s1) as [[second|v] s2]; simpl in *;
    (destruct Hrep as [Hrep|(l & Hrep & Hl)]; [left; by rewrite Hrep|right]; exists l, response, e;
     split_and!; [|done|done|done|by rewrite Hrep, Hs, app_assoc]).
  - intros ? ? [= <- <-]. by destruct second.
  - done.
Qed.


Lemma answered_first request task s run :
  answered request task s run → pr_sent s ++ sentFor request (polled_Attempt task) s `prefix_of` pr_sent run.2.
Proof. intros [->|(second & _ & _ & _ & _ & _ & _ & ->)]; [done|]. rewrite app_assoc. by apply prefix_app_r. Qed.

Lemma workflowInfoOf_same p s : (workflowInfoOf p s).2 = s.
Proof.
  unfold workflowInfoOf, mbind, go_bind, onLookup, deref. by destruct s as [l ? ?], (ls_contexts _ !! p).
Qed.
(** C40. A task that fails is reported under the token the processor was given.
    When the task handler returns an error on the first attempt of a task that
    is not a query, the service is sent a failure with the token of that task,
    even if the handler has meanwhile heartbeat and works on a later task: what
    its heartbeats returned makes no difference. *)
Theorem failure_names_first_task fuel p task s completion err s1 info :
  handler_ProcessWorkflowTask p (beat p task) s = (Returned (completion, Some err), s1) →
  isHeartbeatError (Some err) = false →
  result (workflowInfoOf p) s1 = Returned info →
  task_Query (polled_task task) = None → polled_Attempt task = 1 →
  let request := requestFailed (errorToFailWorkflowTask wtp ErrorToFailure (TaskToken (polled_task task))
                   (we_WorkflowId (task_WorkflowExecution (polled_task task))) err) in
  commandAwarePayloadVisitor info request = inr request →
  pr_sent s1 ++ [request] `prefix_of` pr_sent (final (loop (S fuel) p task) s).
Proof.
  intros Hh Hb Hi Hq Ha request Hv. unfold final. simpl. unfold mbind, go_bind. rewrite Hh. simpl.
  rewrite andb_false_r. simpl in Hb. rewrite Hb.
  pose proof (workflowInfoOf_same p s1) as Hsame. unfold result in Hi.
  destruct (workflowInfoOf p s1) as [[info'|] s2]; [|done]. simpl in *. simplify_eq.
  assert (requestFor wtp ErrorToFailure errorText (polled_task task) completion (Some err) = Returned request) as Hr.
  { unfold requestFor, taskFailureCompletion. by rewrite Hq. }
  pose proof (answered_first _ _ _ _ (respond_answers completion (Some err) task info s1 request Hr)) as Hp.
  unfold visitedRequest in Hp. rewrite Hv in Hp. simpl in Hp. rewrite decide_True in Hp by done.
  destruct (respond completion (Some err) task info s1) as [[[response [e|]]|v] s3]; simpl in *; try done.
  set (adjust := if decide _ then _ else _).
  assert (pr_sent (adjust s3).2 = pr_sent s3) as Had.
  { unfold adjust. case_decide; [done|]. unfold onLookup. by destruct (onContext _ _ _). }
  rewrite <- Had in Hp. by destruct (adjust s3) as [[[]|v] s4].
Qed.
End Facts.
