(* ===== verification/ProcessorHandler.v ===== *)
(** * The task handler as the processor sees it

    [workflowTaskHandlerImpl] ([TaskProcessing.v]) behind the interface that
    the processor of workflow tasks ([Processor.v]) calls: it works on the
    shared context, and its heartbeats are requests of the processor.  It
    satisfies the laws that the facts about the processor assume, and its wait
    for local activities ends, because a heartbeat that goes on uses up an
    answer of the service. *)

From stdpp Require Import base list gmap strings.
From S2P Require Import Prelude Proto Floats CommandMachine CommandsHelper Flags History HistoryFacts HistoryTasks Replay Update Errors FailureConverter Retry Environment EventHandlers TaskContext TaskCompletion TaskProcessing TaskFacts TaskCompletionFacts Completion Lru WorkerCache TaskCache TaskExecution Slots Processor ProcessorFacts.
Open Scope Z_scope.

Section Implementation.
  Context `{WorkflowExecutionEventHandler}.
  Variable handlers : nat → workflowTaskHandlerImpl.
  Variable now : Z.
  Variable dataConverter : DataConverter.
  Variable ErrorToFailure : option goError → option Failure.
  Variable errorText : goError → string.
  Variable implementation : float64 → Z.
  Variable decodeJSON : string → string + list HistoryEvent.
  Variable unmarshal : string → string + list HistoryEvent.
  Variable visitPayloads : list HistoryEvent → string + list HistoryEvent.
  Variable allowed : gmap sdkFlag bool.
  Variable ppMgr : option (string → HistoryEvent → option goError).
  Variable HistoryEventToString : HistoryEvent → string.
  Variable CommandToString : Command → string.
  (** The retries and results of local activities, and heartbeats, that a call
      of the handler waits for; after them only its heartbeat timer fires. *)
  Variable outcomes : processor → list waitOutcome.

(** Where the handler runs, and [heartbeatFunc] as it calls it. *)
Definition inShared (p : nat) : ∀ A, Go taskRun A → Go processor A := λ _ m, onLookup (onRun p m).

Definition heartbeatTask (hb : heartbeatFunc) (completion : option workflowTaskCompletion)
    : Go processor (goError + option (pollTask * option historyIterator)) :=
  reply ← hb completion;
  mret (match reply with inl err => inl err | inr next => inr (toWorkflowTask <$> next) end).

Definition waits (p : nat) (hb : heartbeatFunc) (wth : workflowTaskHandlerImpl) : list waitOutcome → Go processor handled :=
  waitLoop wth now dataConverter ErrorToFailure errorText implementation decodeJSON unmarshal visitPayloads
    allowed ppMgr HistoryEventToString CommandToString (inShared p) (heartbeatTask hb).

Definition timerFires (s : processor) : list waitOutcome :=
  outcomes s ++ replicate (S (length (pr_answers s))) heartbeatDue.

Definition runTaskHandler (p : nat) (hb : heartbeatFunc) : Go processor handled :=
  cx ← onLookup (deref p);
  s ← get;
  handleWorkflowTask (handlers (cx_wth cx)) now dataConverter ErrorToFailure errorText implementation
    decodeJSON unmarshal visitPayloads allowed ppMgr HistoryEventToString CommandToString (inShared p)
    (heartbeatTask hb) (timerFires s).

Definition taskHandlerImpl : WorkflowTaskHandler := Build_WorkflowTaskHandler (λ p hb,
  r ← runTaskHandler p hb;
  match r with
  | finished response err => mret (response, err)
  | stillWaiting => panic (runtimeError "out of fuel")
  end).

(** ** The laws *)

Section Laws.
  Variable p : nat.
  Variable hb : heartbeatFunc.
  Variable I : processor → Prop.
  Hypothesis I_works : ∀ s l, I s → works p (pr_lookup s) l → I (mkProcessor l (pr_answers s) (pr_sent s)).
  Hypothesis I_heartbeat : ∀ c s, I s → I (final (hb c) s).

Definition holds {A} (m : Go processor A) : Prop := ∀ s, I s → I (final m s).

Lemma holds_ret {A} (a : A) : holds (mret a).
Proof. by intros s. Qed.

Lemma holds_bind {A B} (m : Go processor A) (k : A → Go processor B) :
  holds m → (∀ a, holds (k a)) → holds (m ≫= k).
Proof.
  intros Hm Hk s Hs. specialize (Hm s Hs). unfold final, mbind, go_bind in *.
  destruct (m s) as [[a|v] s1]; [|done]. by apply Hk.
Qed.

Lemma onRun_works {A} (m : Go taskRun A) l : keeps runExecution m → works p l (final (onRun p m) l).
Proof.
  intros Hm. unfold final, onRun. destruct (ls_contexts l !! p) as [cx|] eqn:Hp; [|apply works_refl].
  specialize (Hm (mkTaskRun (cx_context cx) (ls_task l) (ls_iterator l))). unfold final, runExecution in Hm.
  destruct (m _) as [r run]. simpl in *. split_and!; simpl; try done.
  - intros q Hq. by rewrite lookup_insert_ne.
  - intros cx' Hcx'. assert (cx' = cx) as -> by congruence. eexists. rewrite lookup_insert_eq.
    split; [done|]. simpl. by rewrite Hm.
Qed.

Lemma holds_run {A} (m : Go taskRun A) : keeps runExecution m → holds (inShared p A m).
Proof.
  intros Hm s Hs. pose proof (onRun_works m (pr_lookup s) Hm) as Hw. unfold final, inShared, onLookup in *.
  destruct (onRun p m (pr_lookup s)) as [r l]. by apply I_works.
Qed.

Lemma holds_heartbeat c : holds (heartbeatTask hb c).
Proof. apply holds_bind; [exact (I_heartbeat c)|intros r; apply holds_ret]. Qed.

Lemma holds_orWait r wait : holds wait → holds (orWait r wait).
Proof. intros Hw. destruct r as [err|[response|]]; simpl; [apply holds_ret|apply holds_ret|done]. Qed.

Lemma holds_waits wth os : holds (waits p hb wth os).
Proof.
  unfold waits. induction os as [|[|id|lar] os IH]; simpl; [apply holds_ret| | |].
  - apply holds_bind; [apply holds_run; auto using keeps_tunnelStopped with keeps|].
    intros [|]; [apply holds_ret|].
    apply holds_bind; [apply holds_run; auto using keeps_CompleteWorkflowTask with keeps|]. intros completion.
    apply holds_bind; [apply holds_heartbeat|]. intros [err|[[task it]|]]; [apply holds_ret| |apply holds_ret].
    apply holds_bind; [apply holds_run; by apply keep_modify|]. intros _.
    apply holds_bind; [apply holds_run, keeps_ProcessWorkflowTask|]. intros r. by apply holds_orWait.
  - apply holds_bind; [apply holds_run; auto using keeps_retryLaTask with keeps|].
    intros [|]; [done|apply holds_ret].
  - apply holds_bind; [apply holds_run; auto using keeps_ProcessLocalActivityResult with keeps|].
    intros r. by apply holds_orWait.
Qed.

Lemma holds_handler : holds (handler_ProcessWorkflowTask (WorkflowTaskHandler := taskHandlerImpl) p hb).
Proof.
  simpl. apply holds_bind; [|intros [response err|]; [apply holds_ret|by intros s]].
  unfold runTaskHandler. apply holds_bind.
  { intros s Hs. unfold final, onLookup, deref. destruct s, (ls_contexts _ !! p); done. }
  intros cx. apply holds_bind; [by intros s|]. intros s. unfold handleWorkflowTask.
  apply holds_bind; [apply holds_run, keeps_ensureHistory|]. intros task.
  assert (holds (r ← inShared p _ (ProcessWorkflowTask (handlers (cx_wth cx)) now dataConverter ErrorToFailure
    errorText decodeJSON unmarshal visitPayloads allowed ppMgr HistoryEventToString CommandToString);
    orWait r (waits p hb (handlers (cx_wth cx)) (timerFires s)))) as Hrest.
  { apply holds_bind; [apply holds_run, keeps_ProcessWorkflowTask|]. intros r. apply holds_orWait, holds_waits. }
  unfold waits in Hrest.
  destruct (task_Query task), (task_History task) as [[|]|]; try apply holds_ret;
    (destruct (_ && _); [apply holds_ret|exact Hrest]).
Qed.
End Laws.

#[export] Instance taskHandlerImpl_laws : WorkflowTaskHandlerLaws (H := taskHandlerImpl).
Proof. intros p hb I Hw Hb s Hs. by apply (holds_handler p hb I Hw Hb). Qed.

(** ** The wait ends *)

Section Waiting.
  Variable p : nat.
  Variable hb : heartbeatFunc.
  (** A heartbeat that returns a task took an answer of the service. *)
  Hypothesis hb_consumes : ∀ c s next s',
    hb c s = (Returned (inr (Some next)), s') → (length (pr_answers s') < length (pr_answers s))%nat.

Definition beats (os : list waitOutcome) : nat :=
  sum_list_with (λ o, match o with heartbeatDue => 1%nat | _ => 0%nat end) os.

Lemma inShared_answers A (m : Go taskRun A) s : pr_answers (inShared p A m s).2 = pr_answers s.
Proof. unfold inShared, onLookup. by destruct (onRun p m (pr_lookup s)). Qed.

(** An operation on the context comes first. *)
Lemma inShared_then {A B} (m : Go taskRun A) (k : A → Go processor B) s r s' :
  (inShared p A m ≫= k) s = (Returned r, s') →
  ∃ a s1, k a s1 = (Returned r, s') ∧ pr_answers s1 = pr_answers s.
Proof.
  pose proof (inShared_answers A m s) as Ha. unfold mbind, go_bind. destruct (inShared p A m s) as [[a|v] s1]; [|done].
  intros Hk. by exists a, s1.
Qed.

Lemma waits_beats wth os : ∀ s s',
  waits p hb wth os s = (Returned stillWaiting, s') → (beats os ≤ length (pr_answers s))%nat.
Proof.
  unfold waits. induction os as [|[|id|lar] os IH]; intros s s' Hw; [simpl; lia| | |]; simpl in Hw.
  - apply inShared_then in Hw as (stopped & s1 & Hw & Ha1). destruct stopped; [done|].
    apply inShared_then in Hw as (completion & s2 & Hw & Ha2).
    unfold heartbeatTask in Hw. unfold mbind at 1, go_bind at 1 in Hw. unfold mbind at 1, go_bind at 1 in Hw.
    destruct (hb completion s2) as [[[err|[next|]]|] s3] eqn:Hh; simpl in Hw; try done.
    apply hb_consumes in Hh. apply inShared_then in Hw as (u & s4 & Hw & Ha4).
    apply inShared_then in Hw as (r & s5 & Hw & Ha5). destruct r as [err|[response|]]; [done|done|].
    apply IH in Hw. unfold beats in *. simpl. rewrite <- Ha1, <- Ha2. rewrite Ha5, Ha4 in Hw. lia.
  - apply inShared_then in Hw as (goesOn & s1 & Hw & Ha1). destruct goesOn; [|done].
    apply IH in Hw. unfold beats in *. simpl. congruence.
  - apply inShared_then in Hw as (r & s1 & Hw & Ha1). destruct r as [err|[response|]]; [done|done|].
    apply IH in Hw. unfold beats in *. simpl. congruence.
Qed.

Lemma beats_timer s : (length (pr_answers s) < beats (timerFires s))%nat.
Proof.
  unfold beats, timerFires. rewrite sum_list_with_app. simpl.
  induction (length (pr_answers s)) as [|n IH]; simpl in *; lia.
Qed.

Lemma handler_done s s' : runTaskHandler p hb s ≠ (Returned stillWaiting, s').
Proof.
  intros Hw. unfold runTaskHandler in Hw. unfold mbind at 1, go_bind at 1, onLookup, deref in Hw.
  destruct (ls_contexts (pr_lookup s) !! p) as [cx|]; [|done].
  set (s1 := mkProcessor _ _ _) in Hw.
  unfold mbind at 1, go_bind at 1, get in Hw. unfold handleWorkflowTask in Hw.
  apply inShared_then in Hw as (task & s2 & Hw & Ha2).
  assert ((inShared p _ (ProcessWorkflowTask (handlers (cx_wth cx)) now dataConverter ErrorToFailure
    errorText decodeJSON unmarshal visitPayloads allowed ppMgr HistoryEventToString CommandToString) ≫=
    λ r, orWait r (waits p hb (handlers (cx_wth cx)) (timerFires s1))) s2 = (Returned stillWaiting, s')) as Hr.
  { unfold waits. destruct (task_Query task), (task_History task) as [[|]|]; try done;
      (destruct (_ && _); [done|exact Hw]). }
  apply inShared_then in Hr as (r & s3 & Hr & Ha3). destruct r as [err|[response|]]; [done|done|].
  apply waits_beats in Hr. pose proof (beats_timer s1). rewrite Ha3, Ha2 in Hr. lia.
Qed.
End Waiting.

(** C27. The task handler does not wait forever for local activities: whatever
    retries and results arrive, as long as its heartbeat timer goes on firing
    it ends, with a completion, an error or nothing, or panics.  Each heartbeat
    that returns a new workflow task uses up an answer of the service, and once
    the service has no more answers the heartbeat fails. *)
Theorem handler_wait_ends wtp inboundPayloadVisitor outboundPayloadVisitor commandAwarePayloadVisitor requestSize
    commandSize applyToRequest p task s s' :
  runTaskHandler p (heartbeat wtp ErrorToFailure errorText inboundPayloadVisitor outboundPayloadVisitor
    commandAwarePayloadVisitor requestSize commandSize applyToRequest p task) s ≠ (Returned stillWaiting, s').
Proof.
  apply handler_done. intros c s1 next s2. apply beat_consumes.
Qed.
End Implementation.

(** ** Examples *)

Definition completionOf (token : string) : workflowTaskCompletion :=
  taskCompletion (mkTaskCompleted token [] [] "worker" true "build" ∅ "default" "workflow:w" 0 [] "" "" "build" false
    "build" "" None "" VERSIONING_BEHAVIOR_UNSPECIFIED).

(** A handler that heartbeats, and then fails if there is another task. *)
Definition heartbeatThenFail : WorkflowTaskHandler := Build_WorkflowTaskHandler (λ _ hb,
  reply ← hb (Some (completionOf "first"));
  match reply with
  | inr (Some _) => mret (None, Some (newError "boom"))
  | _ => mret (None, None)
  end).

Definition noText : goError → string := λ _, "".
Definition noFailure : option goError → option Failure := λ _, None.

(** The task handler with an event handler that records events. *)
Definition recordingTaskHandler : WorkflowTaskHandler :=
  taskHandlerImpl (H := recorder) (λ _, exampleTaskHandler) 0 exampleConverter noFailure noText (λ _, 0) decodeFails
    decodeFails inr sdkFlagsAllowed None (λ _, "") (λ _, "") (λ _, []).

#[local] Instance recordingTaskHandler_laws : WorkflowTaskHandlerLaws (H := recordingTaskHandler).
Proof. apply taskHandlerImpl_laws. Qed.

Definition exampleProcessor : workflowTaskProcessor :=
  mkProcessorOptions exampleTaskHandler "queue" "sticky" 10 5 None None.

(** A task without history: the handler fails. *)
Definition emptyTask (token : string) : polledResponse :=
  mkPolled (mkPollTask token (mkWorkflowExecution "w" "r") "type" 3 9 None None ∅ [] "") 1 None [].

Definition exampleState (answers : list serviceAnswer) : processor := mkProcessor exampleLookup answers [].

#[local] Abbreviation exampleLoop handler := (processLoop (H0 := handler) exampleProcessor noFailure noText inr inr (λ _, inr)
  (λ _, 0) (λ _, 0) (λ _ cs, (cs, 0%nat))).

Lemma task_chain_terminates_witness :
  exampleLoop recordingTaskHandler 5 0%nat (emptyTask "first") (exampleState [serviceError unavailable]) =
  exampleLoop recordingTaskHandler 2 0%nat (emptyTask "first") (exampleState [serviceError unavailable]).
Proof.
  apply (task_chain_terminates (H0 := recordingTaskHandler) exampleProcessor noFailure noText inr inr (λ _, inr)
    (λ _, 0) (λ _, 0) (λ _ cs, (cs, 0%nat)) 5). vm_compute. lia.
Defined.


(** The service refuses a failure as too large. *)
Definition tooLarge : goError := otherError "*GrpcMessageTooLargeError" "too large" None.


Definition secondTask : list serviceAnswer :=
  [serviceResponse (mkCompletedResponse (Some (emptyTask "second")) 0 0)].

(** The heartbeat was answered with the task "second"; the failure names the
    task "first", which the heartbeat has completed. *)
Lemma failure_names_first_task_witness :
  pr_sent (final (handler_ProcessWorkflowTask (WorkflowTaskHandler := heartbeatThenFail) 0%nat
      (heartbeat exampleProcessor noFailure noText inr inr (λ _, inr) (λ _, 0) (λ _, 0) (λ _ cs, (cs, 0%nat)) 0%nat
         (emptyTask "first"))) (exampleState secondTask)) ++
    [requestFailed (errorToFailWorkflowTask exampleProcessor noFailure "first" "w" (newError "boom"))]
  `prefix_of` pr_sent (final (exampleLoop heartbeatThenFail 1%nat 0%nat (emptyTask "first")) (exampleState secondTask)).
Proof.
  apply (failure_names_first_task (H0 := heartbeatThenFail) exampleProcessor noFailure noText inr inr (λ _, inr)
    (λ _, 0) (λ _, 0) (λ _ cs, (cs, 0%nat)) 0 0%nat (emptyTask "first") (exampleState secondTask) None
    (newError "boom") (final (handler_ProcessWorkflowTask (WorkflowTaskHandler := heartbeatThenFail) 0%nat
      (heartbeat exampleProcessor noFailure noText inr inr (λ _, inr) (λ _, 0) (λ _, 0) (λ _ cs, (cs, 0%nat)) 0%nat
         (emptyTask "first"))) (exampleState secondTask)) exampleWorkflowInfo);
    vm_compute; reflexivity.
Defined.
