(* ===== verification/ClientRun.v ===== *)
(** * Results of workflows
      ([src/internal/internal_workflow_client.go], [workflowRunImpl],
      [historyEventIteratorImpl]).

    A client that waits for a workflow asks the service for the event that
    closed the run: a long poll, repeated until there is an event.  A run may
    have been continued by another one (it was continued as new, retried, or
    runs on a schedule); the client then follows the chain to its last run.

    The service is a list of answers; when they are used up it is unavailable.
    The data and failure converters, the payload visitor and the decoder of raw
    history are parameters. *)

From stdpp Require Import base list gmap strings.
From S2P Require Import Prelude Proto History Errors Retry Environment.
Open Scope Z_scope.

(** ** Data *)

(** [WorkflowExecutionContinuedAsNewEventAttributes] *)
Record continuedAttributes : Type := mkContinued {
  cont_NewExecutionRunId : string;
  cont_WorkflowType : string;
  cont_Input : option Payloads;
  cont_Header : gmap string Payload;
  cont_TaskQueue : string;
  cont_WorkflowRunTimeout : option Z;
  cont_WorkflowTaskTimeout : option Z;
}.

(** The events that close a run, with the attributes of their type; [other]
    has the name of another type. *)
Inductive closeEvent : Type :=
| WORKFLOW_EXECUTION_COMPLETED (result : option Payloads) (newExecutionRunId : string)
| WORKFLOW_EXECUTION_FAILED (failure : option Failure) (newExecutionRunId : string)
| WORKFLOW_EXECUTION_CANCELED (details : option Payloads)
| WORKFLOW_EXECUTION_TERMINATED
| WORKFLOW_EXECUTION_TIMED_OUT (newExecutionRunId : string)
| WORKFLOW_EXECUTION_CONTINUED_AS_NEW (attributes : continuedAttributes)
| otherEvent (eventType : string).

(** [WorkflowRunGetOptions] *)
Record WorkflowRunGetOptions : Type := mkGetOptions { DisableFollowingRuns : bool }.

(** The error of a service that does not answer. *)
Definition serviceUnavailable : goError := otherError "*serviceerror.Unavailable" "unavailable" None.

Section Run.
  (** [NexusSerializationContext] *)
  Context {SerializationContext : Type}.

(** [GetWorkflowExecutionHistoryResponse] *)
Record historyReply : Type := mkReply {
  reply_History : option (list closeEvent);
  reply_RawHistory : option string;
  reply_NextPageToken : string;
  reply_context : option SerializationContext;
}.

(** The answers to come, the requests sent (run and page token), and the
    context that [onSerializationContext] was called with. *)
Record client : Type := mkClient {
  answers : list (goError + historyReply);
  requests : list (string * string);
  propagatedContext : option SerializationContext;
}.

Record historyEventIteratorImpl : Type := mkIterator {
  initialized : bool;
  nextEventIndex : nat;
  iter_events : list closeEvent;
  nexttoken : string;
  iter_err : option goError;
}.

(** [encodedResult] is an [EncodedValue]: the payloads and their converter. *)
Record ClientGetWorkflowResultOutput : Type := mkOutput {
  out_Result : option (Payloads * option SerializationContext);
  out_Error : option goError;
}.

(** [currentRunID] is a function that always returns the same value, until
    [follow] replaces it; [run_visits] tells whether the run was given an
    [inboundPayloadVisitor]. *)
Record workflowRunImpl : Type := mkRun {
  run_workflowType : string;
  run_workflowID : string;
  firstExecutionRunID : string;
  currentRunID : string;
  resultRunID : string;
  run_visits : bool;
}.

Record waiting : Type := mkWaiting {
  w_run : workflowRunImpl;
  w_client : client;
}.

  Variable ensureInitialized : option goError.
  Variable DeserializeBlobDataToHistoryEvents : string → string + list closeEvent.
  Variable inboundPayloadVisitor : closeEvent → goError + closeEvent.
  Variable FailureToError : option SerializationContext → option Failure → option goError.
  Variable dataConverter : option SerializationContext → DataConverter.

(** ** History *)

Definition withEvents (events : list closeEvent) (r : historyReply) : historyReply :=
  mkReply (Some events) (reply_RawHistory r) (reply_NextPageToken r) (reply_context r).

Definition decodeRaw (r : historyReply) : goError + historyReply :=
  match reply_RawHistory r with
  | None => inr r
  | Some blob =>
      match DeserializeBlobDataToHistoryEvents blob with
      | inl err => inl (newError err)
      | inr events => inr (withEvents events r)
      end
  end.

Definition getWorkflowExecutionHistory (runID token : string) : Go client (goError + historyReply) := λ c,
  match ensureInitialized with
  | Some err => (Returned (inl err), c)
  | None =>
      let requests' := requests c ++ [(runID, token)] in
      match answers c with
      | [] => (Returned (inl serviceUnavailable), mkClient [] requests' (propagatedContext c))
      | inl err :: rest => (Returned (inl err), mkClient rest requests' (propagatedContext c))
      | inr r :: rest => (Returned (decodeRaw r), mkClient rest requests' (propagatedContext c))
      end
  end.

Definition onSerializationContext (r : historyReply) : Go client unit :=
  match reply_context r with
  | None => mret tt
  | Some context => modify (λ c, mkClient (answers c) (requests c) (Some context))
  end.

(** [paginate] for a long poll. *)
Fixpoint paginate (fuel : nat) (runID token : string) : Go client (goError + historyReply) :=
  match fuel with
  | O => panic (runtimeError "out of fuel")
  | S fuel' =>
      response ←? getWorkflowExecutionHistory runID token;
      _ ← onSerializationContext response;
      match reply_History response with
      | None => panic (runtimeError "invalid memory address or nil pointer dereference")
      | Some [] =>
          if decide (reply_NextPageToken response = "") then mret (inr response)
          else paginate fuel' runID (reply_NextPageToken response)
      | Some _ => mret (inr response)
      end
  end.

Definition getPage (runID token : string) : Go client (goError + historyReply) :=
  c ← get; paginate (S (length (answers c))) runID token.

(** ** The iterator *)

Definition newIterator : historyEventIteratorImpl := mkIterator false 0 [] "" None.

Definition hasCached (iter : historyEventIteratorImpl) : bool :=
  bool_decide (nextEventIndex iter < length (iter_events iter))%nat || bool_decide (iter_err iter ≠ None).

(** [HasNext], with the iterator it leaves. *)
Definition HasNext (runID : string) (iter : historyEventIteratorImpl)
    : Go client (bool * historyEventIteratorImpl) :=
  if hasCached iter then mret (true, iter)
  else if negb (initialized iter) || bool_decide (nexttoken iter ≠ "") then
    r ← getPage runID (nexttoken iter);
    match r with
    | inl err => mret (true, mkIterator true 0 [] "" (Some err))
    | inr response =>
        match reply_History response with
        | None => panic (runtimeError "invalid memory address or nil pointer dereference")
        | Some events =>
            let iter' := mkIterator true 0 events (reply_NextPageToken response) None in
            mret (hasCached iter', iter')
        end
    end
  else mret (false, iter).

Definition Next (runID : string) (iter : historyEventIteratorImpl)
    : Go client ((goError + closeEvent) * historyEventIteratorImpl) :=
  '(more, iter') ← HasNext runID iter;
  if negb more then panic (panicString "HistoryEventIterator Next() called without checking HasNext()")
  else
    match iter_events iter' !! nextEventIndex iter', iter_err iter' with
    | Some event, _ =>
        mret (inr event, mkIterator (initialized iter') (S (nextEventIndex iter')) (iter_events iter')
                           (nexttoken iter') (iter_err iter'))
    | None, Some err =>
        mret (inl err, mkIterator (initialized iter') (nextEventIndex iter') (iter_events iter')
                         (nexttoken iter') None)
    | None, None => panic (panicString "HistoryEventIterator Next() should return either a history event or a err")
    end.

(** ** The result *)

Definition onClient {A} (m : Go client A) : Go waiting A := λ s,
  let '(r, c) := m (w_client s) in (r, mkWaiting (w_run s) c).

(** The run that the chain goes on with. *)
Definition newExecution (options : WorkflowRunGetOptions) (event : closeEvent) : option string :=
  if DisableFollowingRuns options then None
  else
    match event with
    | WORKFLOW_EXECUTION_COMPLETED _ newRunID | WORKFLOW_EXECUTION_FAILED _ newRunID
    | WORKFLOW_EXECUTION_TIMED_OUT newRunID => if decide (newRunID = "") then None else Some newRunID
    | WORKFLOW_EXECUTION_CONTINUED_AS_NEW a => Some (cont_NewExecutionRunId a)
    | _ => None
    end.

Definition continuedAsNewError (a : continuedAttributes) : goError :=
  ContinueAsNewError (mkContinueAsNew (cont_WorkflowType a) (cont_Input a) (cont_Header a) (cont_TaskQueue a)
    (default 0 (cont_WorkflowRunTimeout a)) (default 0 (cont_WorkflowTaskTimeout a)) 0
    VersioningIntentUnspecified 0 None []).

(** What the last event of the chain says. *)
Definition resultOf (run : workflowRunImpl) (context : option SerializationContext) (event : closeEvent)
    : goError + ClientGetWorkflowResultOutput :=
  let failed err := inr (mkOutput None (Some (NewWorkflowExecutionError (run_workflowID run) (currentRunID run)
                                                 (run_workflowType run) err))) in
  match event with
  | WORKFLOW_EXECUTION_COMPLETED None _ => inr (mkOutput None None)
  | WORKFLOW_EXECUTION_COMPLETED (Some payloads) _ => inr (mkOutput (Some (payloads, context)) None)
  | WORKFLOW_EXECUTION_FAILED failure _ => failed (FailureToError context failure)
  | WORKFLOW_EXECUTION_CANCELED details => failed (Some (NewCanceledError [goEncodedValues details]))
  | WORKFLOW_EXECUTION_TERMINATED => failed (Some newTerminatedError)
  | WORKFLOW_EXECUTION_TIMED_OUT _ =>
      failed (Some (NewTimeoutError "Workflow timeout" TIMEOUT_TYPE_START_TO_CLOSE None []))
  | WORKFLOW_EXECUTION_CONTINUED_AS_NEW a => inr (mkOutput None (Some (continuedAsNewError a)))
  | otherEvent eventType =>
      inl (newError ("unexpected event type " +:+ eventType +:+ " when handling workflow execution result")%string)
  end.

Definition follow (newRunID : string) (s : waiting) : waiting :=
  let run := w_run s in
  mkWaiting (mkRun (run_workflowType run) (run_workflowID run) (firstExecutionRunID run) newRunID newRunID
    (run_visits run)) (w_client s).

(** A visitor that is nil leaves the message as it is. *)
Definition visitProtoPayloads (visits : bool) (event : closeEvent) : goError + closeEvent :=
  if visits then inboundPayloadVisitor event else inr event.

(** The event that closed a run, read with a new iterator. *)
Definition readCloseEvent (runID : string) (visits : bool) : Go client (goError + closeEvent) :=
  _ ← modify (λ c, mkClient (answers c) (requests c) None);
  '(more, iter) ← HasNext runID newIterator;
  if negb more then panic (panicString "could not get last history event for workflow")
  else
    '(r, _) ← Next runID iter;
    match r with
    | inl err => mret (inl err)
    | inr event => mret (visitProtoPayloads visits event)
    end.

Fixpoint getResult (fuel : nat) (options : WorkflowRunGetOptions)
    : Go waiting (goError + ClientGetWorkflowResultOutput) :=
  match fuel with
  | O => panic (runtimeError "out of fuel")
  | S fuel' =>
      s ← get;
      event ←? onClient (readCloseEvent (currentRunID (w_run s)) (run_visits (w_run s)));
      match newExecution options event with
      | Some newRunID => _ ← modify (follow newRunID); getResult fuel' options
      | None => s' ← get; mret (resultOf (w_run s') (propagatedContext (w_client s')) event)
      end
  end.

(** Where the result goes: nothing, something that is not a pointer, or a
    pointer to a value of some kind. *)
Inductive valuePtr : Type :=
| nilPtr
| notPointer
| pointerTo (kind : goKind).

Definition GetWithOptions (target : valuePtr) (options : WorkflowRunGetOptions)
    : Go waiting (goError + option goValue) :=
  s ← get;
  out ←? getResult (S (length (answers (w_client s)))) options;
  match out_Error out with
  | Some err => mret (inl err)
  | None =>
      match target, out_Result out with
      | nilPtr, _ | _, None => mret (inr None)
      | notPointer, Some _ => mret (inl (newError "value parameter is not a pointer"))
      | pointerTo kind, Some (payloads, context) =>
          match FromPayloads (dataConverter context) (Some payloads) [kind] with
          | inl err => mret (inl (newError err))
          | inr [v] => mret (inr (Some v))
          | inr _ => mret (inr None)
          end
      end
  end.

Definition Get (target : valuePtr) : Go waiting (goError + option goValue) :=
  GetWithOptions target (mkGetOptions false).
End Run.
