(* ===== verification/ClientRunFacts.v ===== *)
(** * What a client gets as the result of a workflow *)

From stdpp Require Import base list gmap strings.
From S2P Require Import Prelude Proto History Errors Retry Environment ClientRun.
Open Scope Z_scope.

Section Facts.
  Context {SerializationContext : Type}.
  Variable ensureInitialized : option goError.
  Variable DeserializeBlobDataToHistoryEvents : string → string + list closeEvent.
  Variable inboundPayloadVisitor : closeEvent → goError + closeEvent.
  Variable FailureToError : option SerializationContext → option Failure → option goError.
  Variable dataConverter : option SerializationContext → DataConverter.
#[local] Abbreviation answer := (goError + historyReply (SerializationContext := SerializationContext))%type.
#[local] Abbreviation decode := (decodeRaw DeserializeBlobDataToHistoryEvents).
#[local] Abbreviation pages := (paginate ensureInitialized DeserializeBlobDataToHistoryEvents).
#[local] Abbreviation readEvent := (readCloseEvent ensureInitialized DeserializeBlobDataToHistoryEvents
  inboundPayloadVisitor).
#[local] Abbreviation visit := (visitProtoPayloads inboundPayloadVisitor).
#[local] Abbreviation results := (getResult ensureInitialized DeserializeBlobDataToHistoryEvents
  inboundPayloadVisitor FailureToError).

(** ** What the service says about a run *)

(** The answers to a long poll for the close event [e]: empty pages first; the
    contexts that come along replace each other. *)
Inductive delivers : option SerializationContext → list answer → closeEvent →
    option SerializationContext → Prop :=
| delivers_event c r r' e es :
    decode r = inr r' → reply_History r' = Some (e :: es) →
    delivers c [inr r] e (reply_context r' ∪ c)
| delivers_empty c r r' rest e c' :
    decode r = inr r' → reply_History r' = Some [] → reply_NextPageToken r' ≠ "" →
    delivers (reply_context r' ∪ c) rest e c' → delivers c (inr r :: rest) e c'.

(** The answers about a chain of runs, from the run on, and how it ends: the
    last run, the event that closed it and the context to decode it with. *)
Inductive chain (options : WorkflowRunGetOptions) (visits : bool)
    : string → list answer → string → closeEvent → option SerializationContext → Prop :=
| chain_last run as_ e e' c :
    delivers None as_ e c → visit visits e = inr e' → newExecution options e' = None →
    chain options visits run as_ run e' c
| chain_follow run as_ e e' c run' as' last e'' c'' :
    delivers None as_ e c → visit visits e = inr e' → newExecution options e' = Some run' →
    chain options visits run' as' last e'' c'' → chain options visits run (as_ ++ as') last e'' c''.

(** ** Reading a close event *)

Lemma onContext_union (r : historyReply) (c : client (SerializationContext := SerializationContext)) :
  onSerializationContext r c =
  (Returned tt, mkClient (answers c) (requests c) (reply_context r ∪ propagatedContext c)).
Proof. unfold onSerializationContext. by destruct c as [? ? []], (reply_context r). Qed.

Lemma paginate_delivers c as_ e c' : delivers c as_ e c' → ensureInitialized = None →
  ∀ fuel run token rest reqs, (length as_ < fuel)%nat →
  ∃ r new es, pages fuel run token (mkClient (as_ ++ rest) reqs c) =
    (Returned (inr r), mkClient rest (reqs ++ new) c') ∧ reply_History r = Some (e :: es) ∧
    Forall (λ q, q.1 = run) new.
Proof.
  intros Hd Hi. induction Hd as [c r r' e es Hr He|c r r' as_ e c' Hr He Ht Hd IH];
    intros fuel run token rest reqs Hf; simpl in Hf; (destruct fuel as [|fuel]; [lia|]); simpl;
    unfold try_bind, mbind, go_bind, getWorkflowExecutionHistory; rewrite Hi; simpl; rewrite Hr, onContext_union; cbn [answers requests propagatedContext];
    rewrite He.
  - exists r', [(run, token)], es. split_and!; [done|done|]. by repeat constructor.
  - rewrite decide_False by done.
    destruct (IH fuel run (reply_NextPageToken r') rest (reqs ++ [(run, token)]) ltac:(lia))
      as (r0 & new & es & Heq & Hev & Hnew).
    exists r0, ((run, token) :: new), es. rewrite Hi, <- app_assoc in Heq. rewrite Heq. split_and!; [done|done|]. by constructor.
Qed.

Lemma read_delivers visits as_ e c' run rest reqs c :
  ensureInitialized = None → delivers None as_ e c' →
  ∃ new, readEvent run visits (mkClient (as_ ++ rest) reqs c) =
    (Returned (visit visits e), mkClient rest (reqs ++ new) c') ∧ Forall (λ q, q.1 = run) new.
Proof.
  intros Hi Hd.
  destruct (paginate_delivers None as_ e c' Hd Hi (S (length (as_ ++ rest))) run "" rest reqs)
    as (r & new & es & Hp & He & Hnew); [rewrite length_app; lia|].
  exists new. split; [|done]. unfold readCloseEvent, HasNext, Next, getPage, mbind, go_bind, modify, get, mret, go_ret.
  simpl in Hp |- *. rewrite Hp, He. simpl. done.
Qed.

Lemma chain_result options visits run0 as_ last e c : chain options visits run0 as_ last e c → ensureInitialized = None →
  ∀ fuel run rest reqs c0, currentRunID run = run0 → run_visits run = visits → (length as_ < fuel)%nat →
  ∃ s', results fuel options (mkWaiting run (mkClient (as_ ++ rest) reqs c0)) =
    (Returned (resultOf FailureToError (w_run s') c e), s') ∧
    currentRunID (w_run s') = last ∧ run_workflowID (w_run s') = run_workflowID run ∧
    run_workflowType (w_run s') = run_workflowType run ∧ answers (w_client s') = rest.
Proof.
  intros Hc Hi. induction Hc as [run0 as_ e e' c Hd Hv Hn|run0 as_ e e' c run' as' last e'' c'' Hd Hv Hn Hc IH];
    intros fuel run rest reqs c0 Hrun Hvis Hf; (destruct fuel as [|fuel]; [lia|]); simpl;
    unfold try_bind, mbind, go_bind, get, onClient; simpl.
  - destruct (read_delivers visits as_ e c (currentRunID run) rest reqs c0 Hi Hd) as (new & Hr & _).
    rewrite Hvis, Hr, Hv, Hn. eexists. split; [done|]. done.
  - rewrite <- app_assoc. rewrite length_app in Hf.
    destruct (read_delivers visits as_ e c (currentRunID run) (as' ++ rest) reqs c0 Hi Hd) as (new & Hr & _).
    rewrite Hvis, Hr, Hv, Hn. simpl.
    assert (0 < length as_)%nat as Hpos by (destruct Hd; simpl; lia).
    destruct (IH fuel (mkRun (run_workflowType run) (run_workflowID run) (firstExecutionRunID run) run' run'
      (run_visits run)) rest (reqs ++ new) c ltac:(done) Hvis ltac:(lia)) as (s' & Heq & H1 & H2 & H3 & H4).
    exists s'. split; [exact Heq|]. done.
Qed.

(** ** It ends *)

(** The operation is not cut short, and takes an answer if it returns one. *)
Definition takes {A} (m : outcome (goError + A) * client (SerializationContext := SerializationContext))
    (c : client (SerializationContext := SerializationContext)) : Prop :=
  match m.1 with
  | Panicked v => v ≠ runtimeError "out of fuel"
  | Returned (inl _) => True
  | Returned (inr _) => (length (answers m.2) < length (answers c))%nat
  end.

Lemma paginate_takes fuel : ∀ run token c, (length (answers c) < fuel)%nat → takes (pages fuel run token c) c.
Proof.
  induction fuel as [|fuel IH]; intros run token c Hf; [lia|]. simpl.
  unfold try_bind, mbind, go_bind, getWorkflowExecutionHistory.
  destruct ensureInitialized as [|] eqn:Hi; [done|]. destruct (answers c) as [|[err|r] rest] eqn:Ha; [done|done|].
  destruct (decode r) as [err|r'] eqn:Hr; [done|]. rewrite onContext_union. cbn [answers requests propagatedContext].
  destruct (reply_History r') as [[|e es]|]; [|unfold takes; simpl; rewrite Ha; simpl; lia|done].
  case_decide; [unfold takes; simpl; rewrite Ha; simpl; lia|].
  pose proof (IH run (reply_NextPageToken r') (mkClient rest (requests c ++ [(run, token)])
    (reply_context r' ∪ propagatedContext c))) as IH'. unfold takes in *. simpl in *. rewrite Ha. simpl.
  specialize (IH' ltac:(lia)). destruct (paginate None _ fuel run _ _) as [[[err|r0]|v] c1]; simpl in *; [done|lia|done].
Qed.

Lemma read_takes run visits c : takes (readEvent run visits c) c.
Proof.
  unfold readCloseEvent, HasNext, Next, getPage, mbind, go_bind, modify, get, mret, go_ret. simpl.
  pose proof (paginate_takes (S (length (answers c))) run "" (mkClient (answers c) (requests c) None) ltac:(simpl; lia)) as Hp.
  unfold takes in *. simpl in *.
  match goal with |- context [match ?m with _ => _ end] => destruct m as [[[err|r]|v] c1] eqn:Hm end; simpl in *;
    [done| |done].
  destruct (reply_History r) as [[|e es]|]; simpl; [done| |done]. by destruct (visit visits e).
Qed.

Lemma getResult_fuel n options : ∀ f1 f2 s, (length (answers (w_client s)) ≤ n)%nat → (n < f1)%nat → (n < f2)%nat →
  results f1 options s = results f2 options s ∧ (results f1 options s).1 ≠ Panicked (runtimeError "out of fuel").
Proof.
  induction n as [n IH] using lt_wf_ind. intros f1 f2 s Hn Hf1 Hf2.
  destruct f1 as [|f1]; [lia|]. destruct f2 as [|f2]; [lia|]. simpl. unfold try_bind, mbind, go_bind, get, onClient. simpl.
  pose proof (read_takes (currentRunID (w_run s)) (run_visits (w_run s)) (w_client s)) as Ht. unfold takes in Ht.
  destruct (readEvent (currentRunID (w_run s)) (run_visits (w_run s)) (w_client s)) as [[[err|e]|v] c1]; simpl in *;
    [done| |split; [done|congruence]].
  destruct (newExecution options e) as [run'|]; [|done].
  apply (IH (length (answers c1))); simpl; lia.
Qed.

End Facts.

(** ** An example *)

(** A run that was continued as new by a run that completed. *)
Definition continued : closeEvent :=
  WORKFLOW_EXECUTION_CONTINUED_AS_NEW (mkContinued "second" "type" None ∅ "queue" None None).
Definition completedEvent : closeEvent := WORKFLOW_EXECUTION_COMPLETED None "".

Definition pageOf (events : list closeEvent) (token : string) : goError + historyReply (SerializationContext := unit) :=
  inr (mkReply (Some events) None token None).

