(* ===== verification/ClientStart.v ===== *)
(** * Starting workflows
      ([src/internal/internal_workflow_client.go],
      [src/internal/internal_eager_workflow.go],
      [src/internal/internal_eager.go]).

    A client turns the options of a workflow into a request and sends it.  With
    an eager start it first reserves a slot of one of its own workers, so that
    the service may answer with the first workflow task; the slot goes to the
    worker with the task, or is given back.

    The workers are behind an interface.  Converters, context propagators, the
    payload visitor, the registry of workflow functions and the generator of
    ids are parameters, and the service is what it answers; metrics and gRPC
    contexts are left out. *)

From stdpp Require Import base list gmap strings.
From S2P Require Import Prelude Proto CommandMachine CommandsHelper Flags History Errors Retry Environment ClientRun.
Open Scope Z_scope.

(** ** Data *)

(** Callbacks, links, overrides and priorities are passed on. *)
Record StartWorkflowOptions : Type := mkStartOptions {
  opt_ID : string;
  opt_TaskQueue : string;
  opt_WorkflowExecutionTimeout : Z;
  opt_WorkflowRunTimeout : Z;
  opt_WorkflowTaskTimeout : Z;
  opt_WorkflowIDConflictPolicy : Z;
  opt_WorkflowIDReusePolicy : Z;
  WorkflowExecutionErrorWhenAlreadyStarted : bool;
  opt_RetryPolicy : option RetryPolicy;
  opt_CronSchedule : string;
  opt_Memo : option (gmap string goValue);
  opt_SearchAttributes : option (gmap string searchValue);
  opt_TypedSearchAttributes : list typedSearchAttribute;
  EnableEagerStart : bool;
  opt_StartDelay : Z;
  opt_StaticSummary : string;
  opt_StaticDetails : string;
  opt_VersioningOverride : option opaqueMessage;
  opt_Priority : option opaqueMessage;
  opt_requestID : string;
  opt_callbacks : list opaqueMessage;
  opt_links : list opaqueMessage;
  opt_onConflictOptions : option opaqueMessage;
}.

Record ClientExecuteWorkflowInput : Type := mkExecuteInput {
  in_Options : StartWorkflowOptions;
  in_WorkflowType : string;
  in_Args : list goValue;
}.

(** [WorkerDeploymentOptions] of an eager start. *)
Record eagerDeployment : Type := mkEagerDeployment {
  ed_DeploymentName : string;
  ed_BuildId : string;
  ed_versioned : bool;
}.

Record StartWorkflowExecutionRequest : Type := mkStartRequest {
  start_Namespace : string;
  start_WorkflowId : string;
  start_WorkflowType : string;
  start_TaskQueue : string;
  start_Input : option Payloads;
  start_WorkflowExecutionTimeout : Z;
  start_WorkflowRunTimeout : Z;
  start_WorkflowTaskTimeout : Z;
  start_Identity : string;
  start_WorkflowIdReusePolicy : Z;
  start_WorkflowIdConflictPolicy : Z;
  start_RetryPolicy : option PBRetryPolicy;
  start_CronSchedule : string;
  start_Memo : option (gmap string Payload);
  start_SearchAttributes : option IndexedFields;
  start_Header : gmap string Payload;
  start_CompletionCallbacks : list opaqueMessage;
  start_Links : list opaqueMessage;
  start_VersioningOverride : option opaqueMessage;
  start_OnConflictOptions : option opaqueMessage;
  start_Priority : option opaqueMessage;
  start_PropagatedNexusSerializationContext : option opaqueMessage;
  start_UserMetadata : option UserMetadata;
  start_RequestId : string;
  start_WorkflowStartDelay : option Z;
  RequestEagerExecution : bool;
  EagerWorkerDeploymentOptions : option eagerDeployment;
}.

Definition set_eager (deployment : option eagerDeployment) (r : StartWorkflowExecutionRequest)
    : StartWorkflowExecutionRequest :=
  mkStartRequest (start_Namespace r) (start_WorkflowId r) (start_WorkflowType r) (start_TaskQueue r)
    (start_Input r) (start_WorkflowExecutionTimeout r) (start_WorkflowRunTimeout r) (start_WorkflowTaskTimeout r)
    (start_Identity r) (start_WorkflowIdReusePolicy r) (start_WorkflowIdConflictPolicy r) (start_RetryPolicy r)
    (start_CronSchedule r) (start_Memo r) (start_SearchAttributes r) (start_Header r)
    (start_CompletionCallbacks r) (start_Links r) (start_VersioningOverride r) (start_OnConflictOptions r)
    (start_Priority r) (start_PropagatedNexusSerializationContext r) (start_UserMetadata r) (start_RequestId r)
    (start_WorkflowStartDelay r) true deployment.

(** [StartWorkflowExecutionResponse], with the eager task if there is one. *)
Record startResponse (Task : Type) : Type := mkStartResponse {
  started_RunId : string;
  started_FirstExecutionRunId : string;
  EagerWorkflowTask : option Task;
}.
Arguments mkStartResponse {Task}.
Arguments started_RunId {Task}.
Arguments started_FirstExecutionRunId {Task}.
Arguments EagerWorkflowTask {Task}.

(** What the service answers; a workflow that runs already is an error of its
    own type. *)
Inductive startAnswer (Task : Type) : Type :=
| workflowStarted (response : startResponse Task)
| WorkflowExecutionAlreadyStarted (runId firstExecutionRunId : string)
| startFailed (err : goError).
Arguments workflowStarted {Task}.
Arguments WorkflowExecutionAlreadyStarted {Task}.
Arguments startFailed {Task}.

(** ** Eager starts *)

(** [eagerWorker]; workers are numbered, [W] is the state of all of them. *)
Class EagerWorkers (W Task : Type) : Type := {
  tryReserveSlot : nat → W → option nat * W;
  releaseSlot : nat → nat → W → W;
  pushEagerTask : nat → Task → nat → W → W;
  getDeploymentOptions : nat → W → option eagerDeployment;
}.

(** [workersByTaskQueue] *)
Definition eagerWorkflowDispatcher : Type := gmap string (gset nat).

Definition registerWorker (taskQueue : string) (worker : nat) (e : eagerWorkflowDispatcher)
    : eagerWorkflowDispatcher := <[taskQueue := {[worker]} ∪ default ∅ (e !! taskQueue)]> e.

Definition deregisterWorker (taskQueue : string) (worker : nat) (e : eagerWorkflowDispatcher)
    : eagerWorkflowDispatcher :=
  match e !! taskQueue with
  | None => e
  | Some workers => <[taskQueue := workers ∖ {[worker]}]> e
  end.

(** [handledResponse] tells whether the executor was used. *)
Record eagerWorkflowExecutor : Type := mkEagerExecutor {
  handledResponse : bool;
  executor_worker : nat;
  executor_permit : nat;
}.

Section Eager.
  Context {W Task : Type} `{EagerWorkers W Task}.
  (** [rand.Shuffle] *)
  Variable shuffle : list nat → list nat.

(** The first of the workers that has a slot. *)
Fixpoint reserveFirst (workers : list nat) : Go W (option (nat * nat)) :=
  match workers with
  | [] => mret None
  | worker :: rest => λ w,
      match tryReserveSlot worker w with
      | (Some permit, w') => (Returned (Some (worker, permit)), w')
      | (None, w') => reserveFirst rest w'
      end
  end.

Definition applyToRequest (e : eagerWorkflowDispatcher) (request : StartWorkflowExecutionRequest)
    : Go W (StartWorkflowExecutionRequest * option eagerWorkflowExecutor) :=
  let workers := shuffle (elements (default ∅ (e !! start_TaskQueue request))) in
  r ← reserveFirst workers;
  match r with
  | None => mret (request, None)
  | Some (worker, permit) =>
      w ← get;
      mret (set_eager (getDeploymentOptions worker w) request, Some (mkEagerExecutor false worker permit))
  end.

Definition handleResponse (e : eagerWorkflowExecutor) (task : Task) : Go W unit :=
  if handledResponse e then panic (panicString "eagerWorkflowExecutor trying to handle multiple responses")
  else modify (pushEagerTask (executor_worker e) task (executor_permit e)).

Definition releaseUnused (e : eagerWorkflowExecutor) : Go W unit :=
  if handledResponse e then panic (panicString "trying to release an eagerWorkflowExecutor that was used")
  else modify (releaseSlot (executor_worker e) (executor_permit e)).
End Eager.

(** ** The request *)

Record WorkflowClient : Type := mkWorkflowClient {
  wc_namespace : string;
  wc_identity : string;
  wc_eagerWorkflowStart : bool;
  wc_eagerDispatcher : option eagerWorkflowDispatcher;
}.

Section Start.
  Context {W Task : Type} `{EagerWorkers W Task}.
  Variable shuffle : list nat → list nat.
  (** [uuid.NewString] for the workflow and for the request. *)
  Variable newWorkflowID newRequestID : string.
  Variable dataConverter defaultDC : DataConverter.
  (** The context propagators, and the context of a Nexus operation. *)
  Variable headerPropagated : string + gmap string Payload.
  Variable propagatedNexusSerializationContext : option opaqueMessage.
  Variable outboundPayloadVisitor : StartWorkflowExecutionRequest → goError + StartWorkflowExecutionRequest.
  Variable wc : WorkflowClient.

(** [workflowType] is what [validateFunctionArgs] and [GetWorkflowFunctionName]
    make of the workflow function. *)
Definition createStartWorkflowInput (options : StartWorkflowOptions) (workflowType : goError + string)
    (args : list goValue) : goError + ClientExecuteWorkflowInput :=
  let options' :=
    if decide (opt_ID options = "") then
      mkStartOptions newWorkflowID (opt_TaskQueue options) (opt_WorkflowExecutionTimeout options)
        (opt_WorkflowRunTimeout options) (opt_WorkflowTaskTimeout options)
        (opt_WorkflowIDConflictPolicy options) (opt_WorkflowIDReusePolicy options)
        (WorkflowExecutionErrorWhenAlreadyStarted options) (opt_RetryPolicy options) (opt_CronSchedule options)
        (opt_Memo options) (opt_SearchAttributes options) (opt_TypedSearchAttributes options)
        (EnableEagerStart options) (opt_StartDelay options) (opt_StaticSummary options) (opt_StaticDetails options)
        (opt_VersioningOverride options) (opt_Priority options) (opt_requestID options) (opt_callbacks options)
        (opt_links options) (opt_onConflictOptions options)
    else options in
  match workflowType with
  | inl err => inl err
  | inr name => inr (mkExecuteInput options' name args)
  end.

Definition asError {A} (r : string + A) : goError + A :=
  match r with inl err => inl (newError err) | inr a => inr a end.

Definition createStartWorkflowRequest (input : ClientExecuteWorkflowInput)
    : goError + StartWorkflowExecutionRequest :=
  let options := in_Options input in
  if decide (opt_ID options = "") then inl (newError "no workflow ID in options")
  else
    args ← asError (ToPayloads dataConverter (in_Args input));
    memo ← asError (GetWorkflowMemo dataConverter defaultDC (opt_Memo options)
                      (default false (sdkFlagsAllowed !! SDKFlagMemoUserDCEncode)));
    searchAttr ← asError (SerializeSearchAttributes defaultDC (opt_SearchAttributes options)
                            (opt_TypedSearchAttributes options));
    header ← asError headerPropagated;
    metadata ← asError (BuildUserMetadata (opt_StaticSummary options) (opt_StaticDetails options) dataConverter);
    inr (mkStartRequest (wc_namespace wc) (opt_ID options) (in_WorkflowType input) (opt_TaskQueue options) args
      (opt_WorkflowExecutionTimeout options) (opt_WorkflowRunTimeout options) (opt_WorkflowTaskTimeout options)
      (wc_identity wc) (opt_WorkflowIDReusePolicy options) (opt_WorkflowIDConflictPolicy options)
      (ConvertToPBRetryPolicy (opt_RetryPolicy options)) (opt_CronSchedule options) memo searchAttr header
      (opt_callbacks options) (opt_links options) (opt_VersioningOverride options)
      (opt_onConflictOptions options) (opt_Priority options) propagatedNexusSerializationContext metadata
      (if decide (opt_requestID options = "") then newRequestID else opt_requestID options)
      (if decide (opt_StartDelay options = 0) then None else Some (opt_StartDelay options)) false None).

(** ** Executing *)

Definition eagerTaskOf (answer : startAnswer Task) : option Task :=
  match answer with workflowStarted r => EagerWorkflowTask r | _ => None end.

(** The slot is handed on or given back. *)
Definition settle (executor : option eagerWorkflowExecutor) (answer : startAnswer Task) : Go W unit :=
  match eagerTaskOf answer, executor with
  | Some task, Some e => handleResponse e task
  | None, Some e => releaseUnused e
  | _, None => mret tt
  end.

Definition runOf (input : ClientExecuteWorkflowInput) (runID firstExecutionRunID : string) (visits : bool)
    : workflowRunImpl :=
  mkRun (in_WorkflowType input) (opt_ID (in_Options input)) firstExecutionRunID runID runID visits.

(** The slot of an eager start, if there is one to be had. *)
Definition reserveEager (options : StartWorkflowOptions) (request : StartWorkflowExecutionRequest)
    : Go W (StartWorkflowExecutionRequest * option eagerWorkflowExecutor) :=
  match wc_eagerDispatcher wc with
  | Some dispatcher =>
      if EnableEagerStart options && wc_eagerWorkflowStart wc
      then applyToRequest shuffle dispatcher request
      else mret (request, None)
  | None => mret (request, None)
  end.

(** [service] answers the request. *)
Definition ExecuteWorkflow (service : StartWorkflowExecutionRequest → startAnswer Task)
    (input : ClientExecuteWorkflowInput) : Go W (goError + workflowRunImpl) :=
  startRequest ←? mret (createStartWorkflowRequest input);
  '(request, eagerExecutor) ← reserveEager (in_Options input) startRequest;
  request' ←? mret (outboundPayloadVisitor request);
  let answer := service request' in
  _ ← settle eagerExecutor answer;
  match answer with
  | WorkflowExecutionAlreadyStarted runID firstExecutionRunID =>
      if WorkflowExecutionErrorWhenAlreadyStarted (in_Options input)
      then mret (inl (otherError "*serviceerror.WorkflowExecutionAlreadyStarted"
                        "Workflow execution is already running" None))
      else mret (inr (runOf input runID firstExecutionRunID true))
  | startFailed err => mret (inl err)
  | workflowStarted response =>
      mret (inr (runOf input (started_RunId response) (started_FirstExecutionRunId response) true))
  end.
End Start.

(** ** Slots of eager starts *)

(** The slots of a worker that were reserved for an eager start, and neither
    handed over with a task nor released. *)
Class EagerWorkersLaws (W Task : Type) `{EagerWorkers W Task} : Type := {
  outstanding : nat → W → nat;
  tryReserve_some i w p w' : tryReserveSlot i w = (Some p, w') →
    outstanding i w' = S (outstanding i w) ∧ ∀ j, j ≠ i → outstanding j w' = outstanding j w;
  tryReserve_none i w w' : tryReserveSlot i w = (None, w') → ∀ j, outstanding j w' = outstanding j w;
  release_outstanding i p w j : outstanding j (releaseSlot i p w) =
    if decide (j = i) then pred (outstanding j w) else outstanding j w;
  push_outstanding i t p w j : outstanding j (pushEagerTask i t p w) =
    if decide (j = i) then pred (outstanding j w) else outstanding j w;
}.

Section Facts.
  Context {W Task : Type} `{EagerWorkersLaws W Task}.
  Variable shuffle : list nat → list nat.
  Variable newRequestID : string.
  Variable dataConverter defaultDC : DataConverter.
  Variable headerPropagated : string + gmap string Payload.
  Variable nexusContext : option opaqueMessage.
  Variable outboundPayloadVisitor : StartWorkflowExecutionRequest → goError + StartWorkflowExecutionRequest.
  Variable wc : WorkflowClient.

(** Every worker has as many reserved slots as before, but the worker [i], which
    has one more. *)
Definition reservedOne (i : nat) (w w' : W) : Prop :=
  ∀ j, outstanding j w' = if decide (j = i) then S (outstanding j w) else outstanding j w.

Lemma reserveFirst_reserves workers : ∀ w,
  match reserveFirst workers w with
  | (Returned (Some (i, _)), w') => i ∈ workers ∧ reservedOne i w w'
  | (Returned None, w') => ∀ j, outstanding j w' = outstanding j w
  | (Panicked _, _) => False
  end.
Proof.
  induction workers as [|i workers IH]; intros w; [done|]. simpl.
  destruct (tryReserveSlot i w) as [[p|] w1] eqn:Ht.
  - destruct (tryReserve_some i w p w1 Ht) as [Hi Hj]. split; [left|]. intros j. case_decide; [by subst|by apply Hj].
  - pose proof (tryReserve_none i w w1 Ht) as Hn. specialize (IH w1).
    destruct (reserveFirst workers w1) as [[[[k q]|]|] w2]; [|intros j; by rewrite IH, Hn|done].
    destruct IH as [Hk Hr]. split; [by right|]. intros j. rewrite (Hr j), Hn. done.
Qed.

Lemma applyToRequest_reserves e request w :
  match applyToRequest shuffle e request w with
  | (Returned (_, Some ex), w') => handledResponse ex = false ∧ reservedOne (executor_worker ex) w w'
  | (Returned (_, None), w') => ∀ j, outstanding j w' = outstanding j w
  | (Panicked _, _) => False
  end.
Proof.
  unfold applyToRequest, mbind, go_bind. set (workers := shuffle _).
  pose proof (reserveFirst_reserves workers w) as Hr.
  destruct (reserveFirst workers w) as [[[[i p]|]|] w1]; [|done|done]. simpl. split; [done|]. apply Hr.
Qed.

(** The reserved slots are as they were, or with the one of the executor. *)
Definition reservedFor (ex : option eagerWorkflowExecutor) (w w' : W) : Prop :=
  match ex with
  | Some e => reservedOne (executor_worker e) w w'
  | None => ∀ j, outstanding j w' = outstanding j w
  end.

Lemma reserveEager_reserves options request w :
  ∃ request' ex w1, reserveEager shuffle wc options request w = (Returned (request', ex), w1) ∧
    reservedFor ex w w1 ∧ ∀ e, ex = Some e → handledResponse e = false.
Proof.
  unfold reserveEager. destruct (wc_eagerDispatcher wc) as [d|]; [|by exists request, None, w].
  destruct (_ && _); [|by exists request, None, w].
  pose proof (applyToRequest_reserves d request w) as Ha.
  destruct (applyToRequest shuffle d request w) as [[[request' [e|]]|] w1]; [| |done].
  - destruct Ha as [Hh Hr]. exists request', (Some e), w1. split_and!; [done|done|]. by intros ? [= <-].
  - by exists request', None, w1.
Qed.

Lemma settle_settles ex answer w w1 :
  reservedFor ex w w1 → (∀ e, ex = Some e → handledResponse e = false) →
  ∃ w2, settle ex answer w1 = (Returned tt, w2) ∧ ∀ j, outstanding j w2 = outstanding j w.
Proof.
  intros Hr Hh. unfold settle. destruct ex as [e|]; [|destruct (eagerTaskOf answer); by exists w1].
  specialize (Hh e eq_refl). simpl in Hr. destruct (eagerTaskOf answer) as [task|].
  - unfold handleResponse. rewrite Hh. eexists. split; [done|]. intros j. rewrite push_outstanding, (Hr j). by case_decide.
  - unfold releaseUnused. rewrite Hh. eexists. split; [done|]. intros j. rewrite release_outstanding, (Hr j).
    by case_decide.
Qed.

(** C21. An eager start settles the slot it reserved.  If a slot of a worker was
    reserved for the start of a workflow, it is handed over with the task that
    the service answered with, or released, whatever the service answers:
    afterwards every worker has as many reserved slots as before.  There is one
    exception: if the payload visitor fails after the reservation, the error is
    returned and the slot stays reserved. *)
Theorem eager_slot_settled service input w :
  let create := createStartWorkflowRequest newRequestID dataConverter defaultDC headerPropagated nexusContext wc in
  let '(r, w') := ExecuteWorkflow shuffle newRequestID dataConverter defaultDC headerPropagated nexusContext
                    outboundPayloadVisitor wc service input w in
  match create input with
  | inl err => r = Returned (inl err) ∧ w' = w
  | inr startRequest =>
      ∃ request ex w1, reserveEager shuffle wc (in_Options input) startRequest w = (Returned (request, ex), w1) ∧
        match outboundPayloadVisitor request with
        | inl err => r = Returned (inl err) ∧ reservedFor ex w w'
        | inr _ => (∃ x, r = Returned x) ∧ ∀ j, outstanding j w' = outstanding j w
        end
  end.
Proof.
  intros create. unfold ExecuteWorkflow, try_bind, mbind, go_bind. fold create.
  destruct (create input) as [err|startRequest]; [done|]. simpl.
  destruct (reserveEager_reserves (in_Options input) startRequest w) as (request & ex & w1 & Hr & Hw1 & Hh).
  rewrite Hr. simpl. destruct (outboundPayloadVisitor request) as [err|request'] eqn:Hv.
  - exists request, ex, w1. split; [done|]. rewrite Hv. done.
  - destruct (settle_settles ex (service request') w w1 Hw1 Hh) as (w2 & Hs & Hw2). rewrite Hs.
    destruct (service request') as [response|runID first|err]; [| |];
      try (exists request, ex, w1; split; [done|]; rewrite Hv; split; [by eexists|done]).
    destruct (WorkflowExecutionErrorWhenAlreadyStarted _); exists request, ex, w1; (split; [done|]); rewrite Hv;
      (split; [by eexists|done]).
Qed.
End Facts.

(** ** An example *)

(** Workers with a number of free slots, and the number reserved. *)
#[local] Abbreviation pool := (gmap nat (nat * nat)).

#[local] Instance pool_workers : EagerWorkers pool unit := {
  tryReserveSlot i w :=
    match w !! i with
    | Some (S free, reserved) => (Some 0%nat, <[i := (free, S reserved)]> w)
    | _ => (None, w)
    end;
  releaseSlot i _ w := alter (λ fr, (S fr.1, pred fr.2)) i w;
  pushEagerTask i _ _ w := alter (λ fr, (fr.1, pred fr.2)) i w;
  getDeploymentOptions _ _ := None;
}.

#[local] Instance pool_laws : EagerWorkersLaws pool unit.
Proof.
  refine (Build_EagerWorkersLaws _ _ _ (λ i w, default 0%nat (snd <$> w !! i)) _ _ _ _).
  - intros i w p w'. simpl. destruct (w !! i) as [[[|free] reserved]|] eqn:Hi; intros [= <- <-]. split.
    + by rewrite lookup_insert_eq.
    + intros j Hj. by rewrite lookup_insert_ne.
  - intros i w w'. simpl. destruct (w !! i) as [[[|free] reserved]|]; by intros [= <-].
  - intros i p w j. simpl. case_decide; [subst; rewrite lookup_alter_eq|by rewrite lookup_alter_ne].
    by destruct (w !! i).
  - intros i t p w j. simpl. case_decide; [subst; rewrite lookup_alter_eq|by rewrite lookup_alter_ne].
    by destruct (w !! i).
Defined.

Definition plainConverter : DataConverter :=
  mkDataConverter (λ _, inl "none") (λ _, inr None) (λ _ _, inl "none") (λ _ _, inl "none").

Definition eagerInput : ClientExecuteWorkflowInput :=
  mkExecuteInput (mkStartOptions "w" "queue" 0 0 0 0 0 false None "" None None [] true 0 "" "" None None "" [] [] None)
    "type" [].

Definition eagerClient : WorkflowClient :=
  mkWorkflowClient "default" "client" true (Some (registerWorker "queue" 0%nat ∅)).

Definition visitorFails : StartWorkflowExecutionRequest → goError + StartWorkflowExecutionRequest :=
  λ _, inl (newError "payloads too large").

(** The visitor fails: the only slot of the worker stays reserved. *)
Lemma eager_slot_settled_witness :
  ∃ w', (∀ j, outstanding j w' = if decide (j = 0%nat) then S (outstanding j {[ 0%nat := (1%nat, 0%nat) ]})
                                  else outstanding j {[ 0%nat := (1%nat, 0%nat) ]}) ∧
    ExecuteWorkflow id "request" plainConverter plainConverter (inr ∅) None visitorFails eagerClient
      (λ _, startFailed (Task := unit) serviceUnavailable) eagerInput {[ 0%nat := (1%nat, 0%nat) ]} =
    (Returned (inl (newError "payloads too large")), w').
Proof.
  pose proof (eager_slot_settled id "request" plainConverter plainConverter (inr ∅) None visitorFails eagerClient
    (λ _, startFailed (Task := unit) serviceUnavailable) eagerInput ({[ 0%nat := (1%nat, 0%nat) ]} : pool)) as Hs.
  cbv zeta in Hs. destruct (ExecuteWorkflow _ _ _ _ _ _ _ _ _ _ _) as [r w'].
  exists w'. change (createStartWorkflowRequest _ _ _ _ _ _ _) with
    (createStartWorkflowRequest "request" plainConverter plainConverter (inr ∅) None eagerClient eagerInput) in Hs.
  destruct (createStartWorkflowRequest _ _ _ _ _ _ _) as [err|startRequest] eqn:Hc; [vm_compute in Hc; discriminate Hc|].
  destruct Hs as (request & ex & w1 & Hr & -> & Hw).
  vm_compute in Hc. injection Hc as <-. vm_compute in Hr. injection Hr as <- <- <-. split; [exact Hw|done].
Defined.
