(* ===== verification/ClientUpdate.v ===== *)
(** * Updates from a client
      ([src/internal/internal_workflow_client.go], [UpdateWorkflow],
      [updateWithStartWorkflow], [PollWorkflowUpdate];
      [src/internal/client.go], [withStartWorkflowOperationImpl]).

    An update is sent until the service says that it is durable, that is, at
    least accepted; its outcome comes with the answer or is polled for.  An
    update may be sent together with the start of its workflow.

    The service is the list of its answers to each method; when they are used
    up it is unavailable.  Converters and visitors are parameters. *)

From stdpp Require Import base list gmap strings.
From S2P Require Import Prelude Proto History Errors Retry Environment ClientRun ClientStart.
Open Scope Z_scope.

(** ** Contexts *)

(** The context of the caller, and contexts with a deadline or a cancel
    function of their own. *)
Inductive goContext : Type :=
| callerContext (done : bool)
| derivedContext (parent : goContext) (ended : bool).

(** [ctx.Err() != nil] *)
Fixpoint ctxErr (ctx : goContext) : bool :=
  match ctx with
  | callerContext done => done
  | derivedContext parent ended => ctxErr parent || ended
  end.

(** Calling the cancel function of the context. *)
Definition cancelContext (ctx : goContext) : goContext :=
  match ctx with
  | callerContext done => callerContext done
  | derivedContext parent _ => derivedContext parent true
  end.

(** ** Messages *)

Inductive lifecycleStage : Type :=
| STAGE_UNSPECIFIED
| STAGE_ADMITTED
| STAGE_ACCEPTED
| STAGE_COMPLETED.

#[export] Instance lifecycleStage_eq_dec : EqDecision lifecycleStage.
Proof. solve_decision. Defined.

Inductive WorkflowUpdateStage : Type :=
| WorkflowUpdateStageUnspecified
| WorkflowUpdateStageAdmitted
| WorkflowUpdateStageAccepted
| WorkflowUpdateStageCompleted
| unknownUpdateStage (value : Z).

Definition updateLifeCycleStageToProto (l : WorkflowUpdateStage) : outcome lifecycleStage :=
  match l with
  | WorkflowUpdateStageUnspecified => Returned STAGE_UNSPECIFIED
  | WorkflowUpdateStageAdmitted => Returned STAGE_ADMITTED
  | WorkflowUpdateStageAccepted => Returned STAGE_ACCEPTED
  | WorkflowUpdateStageCompleted => Returned STAGE_COMPLETED
  | unknownUpdateStage _ => Panicked (panicString "unknown update lifecycle stage")
  end.

Record UpdateWorkflowOptions : Type := mkUpdateOptions {
  uo_UpdateID : string;
  uo_WorkflowID : string;
  uo_RunID : string;
  uo_UpdateName : string;
  uo_Args : list goValue;
  uo_WaitForStage : WorkflowUpdateStage;
  uo_FirstExecutionRunID : string;
  uo_requestID : string;
  uo_callbacks : list opaqueMessage;
  uo_links : list opaqueMessage;
}.

(** [ClientUpdateWorkflowInput] has the same fields. *)
Definition ClientUpdateWorkflowInput : Type := UpdateWorkflowOptions.

Record UpdateWorkflowExecutionRequest : Type := mkUpdateRequest {
  ur_LifecycleStage : lifecycleStage;
  ur_Namespace : string;
  ur_WorkflowId : string;
  ur_RunId : string;
  ur_FirstExecutionRunId : string;
  ur_RequestId : string;
  ur_CompletionCallbacks : list opaqueMessage;
  ur_Links : list opaqueMessage;
  ur_PropagatedNexusSerializationContext : option opaqueMessage;
  ur_UpdateId : string;
  ur_Identity : string;
  ur_Header : gmap string Payload;
  ur_Name : string;
  ur_Args : option Payloads;
}.

Record UpdateRef : Type := mkUpdateRef {
  ref_WorkflowId : string;
  ref_RunId : string;
  ref_UpdateId : string;
}.

Inductive outcomeValue : Type :=
| Outcome_Failure (failure : option Failure)
| Outcome_Success (payloads : option Payloads).

Section Update.
  Context {SerializationContext : Type}.

(** [GetOutcome()] and its [GetValue()]. *)
Record UpdateWorkflowExecutionResponse : Type := mkUpdateResponse {
  up_UpdateRef : UpdateRef;
  up_Stage : lifecycleStage;
  up_Outcome : option (option outcomeValue);
  up_context : option SerializationContext;
}.

Record PollWorkflowExecutionUpdateResponse : Type := mkPollResponse {
  poll_Outcome : option (option outcomeValue);
  poll_context : option SerializationContext;
}.

Inductive multiResponse : Type :=
| Response_StartWorkflow (runId firstExecutionRunId : string)
| Response_UpdateWorkflow (response : UpdateWorkflowExecutionResponse)
| Response_other (typeName : string).

(** An answer of the service, and what became of the contexts of the caller and
    of the call meanwhile. *)
Record rpcAnswer (R : Type) : Type := mkAnswer {
  reply : goError + R;
  callerDone : bool;
  deadlinePassed : bool;
}.
#[local] Arguments reply {R}.
#[local] Arguments callerDone {R}.
#[local] Arguments deadlinePassed {R}.

Inductive serviceRequest : Type :=
| sentUpdate (r : UpdateWorkflowExecutionRequest)
| sentPoll (ref : UpdateRef)
| sentMulti (start : StartWorkflowExecutionRequest) (update : UpdateWorkflowExecutionRequest).

(** [withStartWorkflowOperationImpl]; [op_doneCh] tells whether the channel is
    closed. *)
Record withStartWorkflowOperationImpl : Type := mkStartOperation {
  op_input : option ClientExecuteWorkflowInput;
  op_executed : bool;
  op_doneCh : bool;
  op_workflowRun : option workflowRunImpl;
  op_err : option goError;
}.

Record updateService : Type := mkUpdateService {
  us_update : list (rpcAnswer UpdateWorkflowExecutionResponse);
  us_poll : list (rpcAnswer PollWorkflowExecutionUpdateResponse);
  us_multi : list (rpcAnswer (list multiResponse));
  us_sent : list serviceRequest;
  us_operation : withStartWorkflowOperationImpl;
}.

Definition noAnswer {R} : rpcAnswer R := mkAnswer R (inl serviceUnavailable) false false.

Definition callUpdate (r : UpdateWorkflowExecutionRequest) : Go updateService (rpcAnswer UpdateWorkflowExecutionResponse) :=
  λ s, (Returned (default noAnswer (head (us_update s))),
        mkUpdateService (tail (us_update s)) (us_poll s) (us_multi s) (us_sent s ++ [sentUpdate r]) (us_operation s)).

Definition callPoll (ref : UpdateRef) : Go updateService (rpcAnswer PollWorkflowExecutionUpdateResponse) :=
  λ s, (Returned (default noAnswer (head (us_poll s))),
        mkUpdateService (us_update s) (tail (us_poll s)) (us_multi s) (us_sent s ++ [sentPoll ref]) (us_operation s)).

Definition callMulti (start : StartWorkflowExecutionRequest) (update : UpdateWorkflowExecutionRequest)
    : Go updateService (rpcAnswer (list multiResponse)) :=
  λ s, (Returned (default noAnswer (head (us_multi s))),
        mkUpdateService (us_update s) (us_poll s) (tail (us_multi s)) (us_sent s ++ [sentMulti start update])
          (us_operation s)).

(** [EncodedValue]: payloads and the context of their converter. *)
Record encodedValue : Type := mkEncoded {
  ev_value : option Payloads;
  ev_context : option SerializationContext;
}.

Record ClientPollWorkflowUpdateOutput : Type := mkPollOutput {
  po_Result : option encodedValue;
  po_Error : option goError;
}.

Inductive WorkflowUpdateHandle : Type :=
| completedUpdateHandle (ref : UpdateRef) (value : option encodedValue) (err : option goError)
| lazyUpdateHandle (ref : UpdateRef).

  Variable wc : WorkflowClient.
  Variable newUpdateID : string.
  Variable dataConverter : option SerializationContext → DataConverter.
  Variable FailureToError : option SerializationContext → option Failure → option goError.
  Variable headerPropagated : string + gmap string Payload.
  Variable propagatedNexusSerializationContext : option opaqueMessage.
  Variable outboundUpdateVisitor : UpdateWorkflowExecutionRequest → goError + UpdateWorkflowExecutionRequest.
  Variable outboundMultiVisitor : StartWorkflowExecutionRequest * UpdateWorkflowExecutionRequest →
    goError + StartWorkflowExecutionRequest * UpdateWorkflowExecutionRequest.
  Variable inboundUpdateVisitor : UpdateWorkflowExecutionResponse → goError + UpdateWorkflowExecutionResponse.
  Variable inboundPollVisitor : PollWorkflowExecutionUpdateResponse → goError + PollWorkflowExecutionUpdateResponse.
  (** The status code of the error is [Canceled] or [DeadlineExceeded]. *)
  Variable canceledCode : goError → bool.
  (** [OperationErrors] of a [MultiOperationExecution] error. *)
  Variable OperationErrors : goError → list (option goError).
  Variable errorText : goError → string.

Definition NewWorkflowUpdateServiceTimeoutOrCanceledError (err : goError) : goError :=
  otherError "*WorkflowUpdateServiceTimeoutOrCanceledError"
    ("Timeout or cancellation waiting for update: " +:+ errorText err)%string (Some err).

(** ** Requests *)

Definition createUpdateWorkflowInput (options : UpdateWorkflowOptions) : goError + ClientUpdateWorkflowInput :=
  let updateID := if decide (uo_UpdateID options = "") then newUpdateID else uo_UpdateID options in
  match uo_WaitForStage options with
  | WorkflowUpdateStageUnspecified => inl (newError "WaitForStage must be specified")
  | WorkflowUpdateStageAdmitted => inl (newError "WaitForStage WorkflowUpdateStageAdmitted is not supported")
  | _ =>
      inr (mkUpdateOptions updateID (uo_WorkflowID options) (uo_RunID options) (uo_UpdateName options)
        (uo_Args options) (uo_WaitForStage options) (uo_FirstExecutionRunID options) (uo_requestID options)
        (uo_callbacks options) (uo_links options))
  end.

Definition createUpdateWorkflowRequest (input : ClientUpdateWorkflowInput)
    : Go updateService (goError + UpdateWorkflowExecutionRequest) :=
  argPayloads ←? mret (asError (ToPayloads (dataConverter None) (uo_Args input)));
  header ←? mret (asError headerPropagated);
  stage ← lift (updateLifeCycleStageToProto (uo_WaitForStage input));
  mret (inr (mkUpdateRequest stage (wc_namespace wc) (uo_WorkflowID input) (uo_RunID input)
    (uo_FirstExecutionRunID input) (uo_requestID input) (uo_callbacks input) (uo_links input)
    propagatedNexusSerializationContext (uo_UpdateID input) (wc_identity wc) header (uo_UpdateName input)
    argPayloads)).

Definition updateIsDurable (resp : UpdateWorkflowExecutionResponse) : bool :=
  bool_decide (up_Stage resp ≠ STAGE_ADMITTED) && bool_decide (up_Stage resp ≠ STAGE_UNSPECIFIED).

(** What a failed call returns, where the context of the caller is tested. *)
Definition callError {R} (a : rpcAnswer R) (err : goError) : goError :=
  if ctxErr (callerContext (callerDone a)) then NewWorkflowUpdateServiceTimeoutOrCanceledError err
  else if canceledCode err then NewWorkflowUpdateServiceTimeoutOrCanceledError err
  else err.

(** ** Polling *)

(** The loop of [PollWorkflowUpdate]: the context of the call is cancelled
    before it is tested. *)
Fixpoint pollLoop (fuel : nat) (ref : UpdateRef) : Go updateService (goError + ClientPollWorkflowUpdateOutput) :=
  match fuel with
  | O => panic (runtimeError "out of fuel")
  | S fuel' =>
      a ← callPoll ref;
      let ctx := cancelContext (derivedContext (callerContext (callerDone a)) (deadlinePassed a)) in
      match reply a with
      | inl err =>
          mret (inl (if ctxErr ctx then NewWorkflowUpdateServiceTimeoutOrCanceledError err
                     else if canceledCode err then NewWorkflowUpdateServiceTimeoutOrCanceledError err
                     else err))
      | inr resp =>
          match poll_Outcome resp with
          | None => pollLoop fuel' ref
          | Some _ =>
              resp' ←? mret (inboundPollVisitor resp);
              match poll_Outcome resp' with
              | Some (Some (Outcome_Failure f)) =>
                  mret (inr (mkPollOutput None (FailureToError (poll_context resp') f)))
              | Some (Some (Outcome_Success p)) =>
                  mret (inr (mkPollOutput (Some (mkEncoded p (poll_context resp'))) None))
              | _ => mret (inl (newError "unsupported outcome type <nil>"))
              end
          end
      end
  end.

Definition PollWorkflowUpdate (ref : UpdateRef) : Go updateService (goError + ClientPollWorkflowUpdateOutput) :=
  s ← get; pollLoop (S (length (us_poll s))) ref.

Definition updateHandleFromResponse (desiredLifecycleStage : lifecycleStage)
    (resp : UpdateWorkflowExecutionResponse) : Go updateService (goError + WorkflowUpdateHandle) :=
  if bool_decide (desiredLifecycleStage = STAGE_COMPLETED) && bool_decide (up_Stage resp ≠ STAGE_COMPLETED) then
    pollResp ←? PollWorkflowUpdate (up_UpdateRef resp);
    match po_Error pollResp with
    | Some err => mret (inr (completedUpdateHandle (up_UpdateRef resp) None (Some err)))
    | None => mret (inr (completedUpdateHandle (up_UpdateRef resp) (po_Result pollResp) None))
    end
  else
    match up_Outcome resp with
    | None | Some None => mret (inr (lazyUpdateHandle (up_UpdateRef resp)))
    | Some (Some (Outcome_Failure f)) =>
        mret (inr (completedUpdateHandle (up_UpdateRef resp) None (FailureToError (up_context resp) f)))
    | Some (Some (Outcome_Success p)) =>
        mret (inr (completedUpdateHandle (up_UpdateRef resp) (Some (mkEncoded p (up_context resp))) None))
    end.

(** ** Handles *)

Definition ErrNoData : goError := newError "no data available".

Definition encodedValue_Get (v : encodedValue) (kind : goKind) : goError + goValue :=
  match ev_value v with
  | None => inl ErrNoData
  | Some _ =>
      match FromPayloads (dataConverter (ev_context v)) (ev_value v) [kind] with
      | inl err => inl (newError err)
      | inr [x] => inr x
      | inr _ => inl ErrNoData
      end
  end.

(** [target] is the kind of the value the pointer leads to, if it is not nil. *)
Definition getResultValue (value : option encodedValue) (err : option goError) (target : option goKind)
    : outcome (goError + option goValue) :=
  match err, target with
  | Some e, _ => Returned (inl e)
  | None, None => Returned (inr None)
  | None, Some kind =>
      match value with
      | None => Panicked (runtimeError "invalid memory address or nil pointer dereference")
      | Some v => Returned (Some <$> encodedValue_Get v kind)
      end
  end.

Definition handle_Get (handle : WorkflowUpdateHandle) (target : option goKind)
    : Go updateService (goError + option goValue) :=
  match handle with
  | completedUpdateHandle _ value err => lift (getResultValue value err target)
  | lazyUpdateHandle ref =>
      resp ←? PollWorkflowUpdate ref; lift (getResultValue (po_Result resp) (po_Error resp) target)
  end.

(** ** Updates *)

Fixpoint updateLoop (fuel : nat) (req : UpdateWorkflowExecutionRequest)
    : Go updateService (goError + UpdateWorkflowExecutionResponse) :=
  match fuel with
  | O => panic (runtimeError "out of fuel")
  | S fuel' =>
      a ← callUpdate req;
      match reply a with
      | inl err => mret (inl (callError a err))
      | inr resp => if updateIsDurable resp then mret (inr resp) else updateLoop fuel' req
      end
  end.

Definition UpdateWorkflow (input : ClientUpdateWorkflowInput) : Go updateService (goError + WorkflowUpdateHandle) :=
  req ←? createUpdateWorkflowRequest input;
  req' ←? mret (outboundUpdateVisitor req);
  s ← get;
  resp ←? updateLoop (S (length (us_update s))) req';
  resp' ←? mret (inboundUpdateVisitor resp);
  desiredLifecycleStage ← lift (updateLifeCycleStageToProto (uo_WaitForStage input));
  updateHandleFromResponse desiredLifecycleStage resp'.

(** ** Updates that start their workflow *)

Definition errInvalidServerResponse : goError := newError "invalid server response".
Definition errInvalidWithStartWorkflowOperation : goError := newError "invalid WithStartWorkflowOperation".

(** [fmt.Errorf] with the error wrapped first. *)
Definition wrapInvalid (base : goError) (text : string) : goError :=
  otherError "*fmt.wrapError" (errorText base +:+ ": " +:+ text)%string (Some base).

(** The conflict policy [UNSPECIFIED] is 0. *)
Definition NewWithStartWorkflowOperation (newWorkflowID : string) (options : StartWorkflowOptions)
    (workflowType : goError + string) (args : list goValue) : withStartWorkflowOperationImpl :=
  if decide (opt_WorkflowIDConflictPolicy options = 0) then
    mkStartOperation None false false None
      (Some (newError "WorkflowIDConflictPolicy must be set in StartWorkflowOptions for update-with-start"))
  else
    match createStartWorkflowInput newWorkflowID options workflowType args with
    | inl err => mkStartOperation None false false None (Some err)
    | inr input => mkStartOperation (Some input) false false None None
    end.

Definition errCanceledContext : goError := newError "context canceled".

(** What [Get] may return: it waits for the channel and for the context of its
    caller, and blocks if neither is ready. *)
Definition operation_Get (ctxDone : bool) (op : withStartWorkflowOperationImpl)
    : list (option workflowRunImpl * option goError) :=
  (if op_doneCh op then [(op_workflowRun op, op_err op)] else []) ++
  (if ctxDone then
     [(None, Some (if op_executed op then errCanceledContext
                   else joinedError "*fmt.wrapErrors" "context canceled: operation was not executed"
                          [errCanceledContext; newError "operation was not executed"]))]
   else []).

Definition set_operation (op : withStartWorkflowOperationImpl) (s : updateService) : updateService :=
  mkUpdateService (us_update s) (us_poll s) (us_multi s) (us_sent s) op.

Definition markExecuted : Go updateService (goError + unit) :=
  s ← get;
  let op := us_operation s in
  _ ← modify (set_operation (mkStartOperation (op_input op) true (op_doneCh op) (op_workflowRun op) (op_err op)));
  mret (if op_executed op then inl (newError "was already executed") else inr tt).

(** [set]: the fields, then the channel, which cannot be closed twice. *)
Definition operation_set (run : option workflowRunImpl) (err : option goError) : Go updateService unit :=
  s ← get;
  let op := us_operation s in
  _ ← modify (set_operation (mkStartOperation (op_input op) (op_executed op) true run err));
  if op_doneCh op then panic (runtimeError "close of closed channel") else mret tt.

(** The run is made without a visitor of the payloads of its close event. *)
Definition onStart (input : ClientExecuteWorkflowInput) (runID firstExecutionRunID : string)
    : Go updateService unit :=
  operation_set (Some (runOf input runID firstExecutionRunID false)) None.

(** The number of operations in the request. *)
Definition operationCount : nat := 2.

Definition isAborted (err : goError) : bool :=
  bool_decide (is_Some (errorsAs (hasType "*serviceerror.MultiOperationAborted") err)).

(** An operation that failed by itself, in the order of the operations. *)
Definition operationError (multiErr : goError) : goError :=
  let errs := OperationErrors multiErr in
  if decide (length errs ≠ operationCount) then
    wrapInvalid errInvalidServerResponse
      (FormatInt (Z.of_nat (length errs)) +:+ " instead of 2 operation errors")%string
  else
    let failed (prefix : string) (err : option goError) : option goError :=
      match err with
      | Some e =>
          if isAborted e then None else Some (otherError "*fmt.wrapError" (prefix +:+ errorText e)%string (Some e))
      | None => None
      end in
    match errs with
    | [startErr; updateErr] =>
        match failed "failed workflow start: " startErr with
        | Some e => e
        | None =>
            match failed "failed workflow update: " updateErr with
            | Some e => e
            | None => newError (errorText multiErr)
            end
        end
    | _ => newError (errorText multiErr)
    end.

Definition multiError (a : rpcAnswer (list multiResponse)) (err : goError) : goError :=
  let err' := callError a err in
  match errorsAs (hasType "*serviceerror.MultiOperationExecution") err' with
  | Some multiErr => operationError multiErr
  | None => err'
  end.

Definition responseType (r : multiResponse) : string :=
  match r with
  | Response_StartWorkflow _ _ => "*workflowservice.ExecuteMultiOperationResponse_Response_StartWorkflow"
  | Response_UpdateWorkflow _ => "*workflowservice.ExecuteMultiOperationResponse_Response_UpdateWorkflow"
  | Response_other typeName => typeName
  end.

(** The responses to the two operations; [onStart] is called for the first one
    that comes. *)
Definition takeResponses (input : ClientExecuteWorkflowInput) (seenStart : bool) (responses : list multiResponse)
    : Go updateService (goError + UpdateWorkflowExecutionResponse) :=
  let wrongType (operation : string) (r : multiResponse) :=
    wrapInvalid errInvalidServerResponse (operation +:+ " response has the wrong type " +:+ responseType r)%string in
  match responses with
  | [startResp; updateResp] =>
      match startResp with
      | Response_StartWorkflow runID firstExecutionRunID =>
          _ ← (if seenStart then mret tt else onStart input runID firstExecutionRunID);
          match updateResp with
          | Response_UpdateWorkflow resp => mret (inr resp)
          | _ => mret (inl (wrongType "UpdateWorkflow" updateResp))
          end
      | _ => mret (inl (wrongType "StartWorkflow" startResp))
      end
  | _ =>
      mret (inl (wrapInvalid errInvalidServerResponse
        (FormatInt (Z.of_nat (length responses)) +:+ " instead of 2 operation results")%string))
  end.

Fixpoint withStartLoop (fuel : nat) (input : ClientExecuteWorkflowInput) (start : StartWorkflowExecutionRequest)
    (update : UpdateWorkflowExecutionRequest) (seenStart : bool)
    : Go updateService (goError + UpdateWorkflowExecutionResponse) :=
  match fuel with
  | O => panic (runtimeError "out of fuel")
  | S fuel' =>
      a ← callMulti start update;
      match reply a with
      | inl err => mret (inl (multiError a err))
      | inr responses =>
          resp ←? takeResponses input seenStart responses;
          if updateIsDurable resp then mret (inr resp) else withStartLoop fuel' input start update true
      end
  end.

Definition updateWithStartWorkflow (input : ClientExecuteWorkflowInput) (start : StartWorkflowExecutionRequest)
    (update : UpdateWorkflowExecutionRequest) : Go updateService (goError + UpdateWorkflowExecutionResponse) :=
  requests ←? mret (outboundMultiVisitor (start, update));
  s ← get;
  resp ←? withStartLoop (S (length (us_multi s))) input requests.1 requests.2 false;
  mret (inboundUpdateVisitor resp).

Definition set_WorkflowId (id : string) (r : UpdateWorkflowExecutionRequest) : UpdateWorkflowExecutionRequest :=
  mkUpdateRequest (ur_LifecycleStage r) (ur_Namespace r) id (ur_RunId r) (ur_FirstExecutionRunId r)
    (ur_RequestId r) (ur_CompletionCallbacks r) (ur_Links r) (ur_PropagatedNexusSerializationContext r)
    (ur_UpdateId r) (ur_Identity r) (ur_Header r) (ur_Name r) (ur_Args r).

(** [createStart] is [createStartWorkflowRequest]. *)
Definition UpdateWithStartWorkflow
    (createStart : ClientExecuteWorkflowInput → goError + StartWorkflowExecutionRequest)
    (options : UpdateWorkflowOptions) : Go updateService (goError + WorkflowUpdateHandle) :=
  s ← get;
  match op_err (us_operation s) with
  | Some err => mret (inl (wrapInvalid errInvalidWithStartWorkflowOperation (errorText err)))
  | None =>
      executed ← markExecuted;
      match executed with
      | inl err => mret (inl (wrapInvalid errInvalidWithStartWorkflowOperation (errorText err)))
      | inr _ =>
          match op_input (us_operation s) with
          | None => panic (runtimeError "invalid memory address or nil pointer dereference")
          | Some input =>
              startReq ←? mret (createStart input);
              updateInput ←? mret (createUpdateWorkflowInput options);
              updateReq ←? createUpdateWorkflowRequest updateInput;
              let updateReq' :=
                if decide (ur_WorkflowId updateReq = "") then set_WorkflowId (start_WorkflowId startReq) updateReq
                else updateReq in
              resp ←? updateWithStartWorkflow input startReq updateReq';
              updateHandleFromResponse (ur_LifecycleStage updateReq') resp
          end
      end
  end.
End Update.
