(* ===== verification/ClientUpdateFacts.v ===== *)
(** * What a client may rely on about its updates *)

From stdpp Require Import base list gmap strings.
From S2P Require Import Prelude Proto History Errors Retry Environment ClientRun ClientStart ClientUpdate.
Open Scope Z_scope.

Section Facts.
  Context {SerializationContext : Type}.
  Variable wc : WorkflowClient.
  Variable dataConverter : option SerializationContext → DataConverter.
  Variable FailureToError : option SerializationContext → option Failure → option goError.
  Variable headerPropagated : string + gmap string Payload.
  Variable nexusContext : option opaqueMessage.
  Variable outboundUpdateVisitor : UpdateWorkflowExecutionRequest → goError + UpdateWorkflowExecutionRequest.
#[local] Abbreviation updateResp := (UpdateWorkflowExecutionResponse (SerializationContext := SerializationContext)).
#[local] Abbreviation pollResp := (PollWorkflowExecutionUpdateResponse (SerializationContext := SerializationContext)).
#[local] Abbreviation handles := (WorkflowUpdateHandle (SerializationContext := SerializationContext)).
#[local] Abbreviation service := (updateService (SerializationContext := SerializationContext)).
  Variable inboundUpdateVisitor : updateResp → goError + updateResp.
  Variable inboundPollVisitor : pollResp → goError + pollResp.
  Variable canceledCode : goError → bool.
  Variable errorText : goError → string.
#[local] Abbreviation timeoutOrCanceled := (NewWorkflowUpdateServiceTimeoutOrCanceledError errorText).
#[local] Abbreviation polls := (pollLoop FailureToError inboundPollVisitor canceledCode errorText).
#[local] Abbreviation poll := (PollWorkflowUpdate FailureToError inboundPollVisitor canceledCode errorText).
#[local] Abbreviation handleOf := (updateHandleFromResponse FailureToError inboundPollVisitor canceledCode errorText).
#[local] Abbreviation updates := (updateLoop canceledCode errorText).
#[local] Abbreviation update := (UpdateWorkflow wc dataConverter FailureToError headerPropagated nexusContext
  outboundUpdateVisitor inboundUpdateVisitor inboundPollVisitor canceledCode errorText).

(** ** Polling *)

(** The answer to a poll says nothing yet. *)
Definition pending (a : rpcAnswer pollResp) : Prop := ∃ resp, reply _ a = inr resp ∧ poll_Outcome resp = None.

(** What a poll returns for an answer that says something. *)
Definition polled (a : rpcAnswer pollResp) : goError + ClientPollWorkflowUpdateOutput :=
  match reply _ a with
  | inl err => inl (timeoutOrCanceled err)
  | inr resp =>
      match inboundPollVisitor resp with
      | inl err => inl err
      | inr resp' =>
          match poll_Outcome resp' with
          | Some (Some (Outcome_Failure f)) => inr (mkPollOutput None (FailureToError (poll_context resp') f))
          | Some (Some (Outcome_Success p)) => inr (mkPollOutput (Some (mkEncoded p (poll_context resp'))) None)
          | _ => inl (newError "unsupported outcome type <nil>")
          end
      end
  end.

Definition afterPolls (n : nat) (ref : UpdateRef) (s : service) : service :=
  mkUpdateService (us_update s) (drop n (us_poll s)) (us_multi s) (us_sent s ++ replicate n (sentPoll ref))
    (us_operation s).

Lemma pollLoop_polled pre : ∀ fuel ref (s : service) a rest,
  us_poll s = pre ++ a :: rest → Forall pending pre → ¬ pending a → (length pre < fuel)%nat →
  polls fuel ref s = (Returned (polled a), afterPolls (S (length pre)) ref s).
Proof.
  induction pre as [|b pre IH]; intros fuel ref s a rest Hs Hpre Ha Hf; (destruct fuel as [|fuel]; [simpl in Hf; lia|]);
    simpl; unfold mbind, go_bind, callPoll; rewrite Hs; simpl.
  - unfold polled, afterPolls. rewrite Hs. simpl. rewrite orb_true_r. destruct (reply _ a) as [err|resp] eqn:Hr; [done|].
    destruct (poll_Outcome resp) as [o|] eqn:Ho; [|destruct Ha; by exists resp].
    unfold try_bind, mbind, go_bind. simpl. destruct (inboundPollVisitor resp) as [err|resp']; [done|].
    by destruct (poll_Outcome resp') as [[[]|]|].
  - inversion Hpre as [|? ? (resp & Hr & Ho) Hpre']; subst. rewrite Hr, Ho.
    rewrite (IH fuel ref _ a rest) by (try done; simpl in *; lia). unfold afterPolls. simpl.
    rewrite Hs. simpl. by rewrite <- app_assoc.
Qed.

Lemma pollLoop_unanswered : ∀ fuel ref (s : service),
  Forall pending (us_poll s) → (length (us_poll s) < fuel)%nat →
  polls fuel ref s = (Returned (inl (timeoutOrCanceled serviceUnavailable)),
                      afterPolls (S (length (us_poll s))) ref s).
Proof.
  induction fuel as [|fuel IH]; intros ref s Hs Hf; [lia|]. simpl. unfold mbind, go_bind, callPoll.
  destruct s as [ups [|a ps] ms sent op]; simpl in *; [done|].
  inversion Hs as [|? ? (resp & Hr & Ho) Hs']; subst. rewrite Hr, Ho, IH by (simpl; try done; lia).
  unfold afterPolls. simpl. by rewrite <- app_assoc.
Qed.

(** Every list of answers begins with pending ones. *)
Lemma pending_split (l : list (rpcAnswer pollResp)) :
  Forall pending l ∨ ∃ pre a rest, l = pre ++ a :: rest ∧ Forall pending pre ∧ ¬ pending a.
Proof.
  assert (∀ a, pending a ∨ ¬ pending a) as Hdec.
  { intros a. unfold pending. destruct (reply _ a) as [err|resp] eqn:Hr; [right; naive_solver|].
    destruct (poll_Outcome resp) eqn:Ho; [right|left; by exists resp]. intros (? & [= <-] & ?). congruence. }
  induction l as [|a l [IH|(pre & b & rest & -> & Hpre & Hb)]]; [by left| |].
  - destruct (Hdec a); [left; by constructor|right]. by exists [], a, l.
  - right. destruct (Hdec a); [|by exists [], a, (pre ++ b :: rest)].
    exists (a :: pre), b, rest. split_and!; [done|by constructor|done].
Qed.

Lemma poll_total ref (s : service) : ∃ r n, poll ref s = (Returned r, afterPolls n ref s).
Proof.
  unfold PollWorkflowUpdate, mbind, go_bind, get.
  destruct (pending_split (us_poll s)) as [Hp|(pre & a & rest & Hs & Hpre & Ha)].
  - eexists _, _. apply pollLoop_unanswered; [done|lia].
  - eexists _, _. eapply pollLoop_polled; [done|done|done|]. rewrite Hs, length_app. simpl. lia.
Qed.

(** C39. Polling for the outcome of an update goes on until the service answers
    with an outcome or an error.  An outcome is returned as it is.  An error of
    the service, whatever it is, is returned as a timeout or cancellation of
    the call, although neither the context of the caller is done nor the
    deadline of the call has passed: the context that is tested has just been
    cancelled by the client itself. *)
Theorem poll_error_is_timeout pre a rest ref (s : service) :
  us_poll s = pre ++ a :: rest → Forall pending pre → ¬ pending a →
  poll ref s = (Returned (polled a), afterPolls (S (length pre)) ref s) ∧
  ∀ err, reply _ a = inl err → result (poll ref) s = Returned (inl (timeoutOrCanceled err)).
Proof.
  intros Hs Hpre Ha.
  assert (poll ref s = (Returned (polled a), afterPolls (S (length pre)) ref s)) as Hp.
  { unfold PollWorkflowUpdate, mbind, go_bind, get. eapply pollLoop_polled; [done|done|done|].
    rewrite Hs, length_app. simpl. lia. }
  split; [done|]. intros err Herr. unfold result, polled in *. by rewrite Hp, Herr.
Qed.

(** ** Updates *)

(** The service keeps an update that is accepted or completed. *)
Definition durable (stage : lifecycleStage) : Prop := stage = STAGE_ACCEPTED ∨ stage = STAGE_COMPLETED.

Lemma isDurable_spec (resp : updateResp) : reflect (durable (up_Stage resp)) (updateIsDurable resp).
Proof.
  unfold updateIsDurable, durable. destruct (up_Stage resp); simpl; constructor; naive_solver.
Qed.

(** The answer is not an error, but the update is not durable yet. *)
Definition undurable (a : rpcAnswer updateResp) : Prop :=
  ∃ resp, reply _ a = inr resp ∧ ¬ durable (up_Stage resp).

Definition updated (a : rpcAnswer updateResp) : goError + updateResp :=
  match reply _ a with
  | inl err => inl (callError canceledCode errorText a err)
  | inr resp => inr resp
  end.

Definition afterUpdates (n : nat) (req : UpdateWorkflowExecutionRequest) (s : service) : service :=
  mkUpdateService (drop n (us_update s)) (us_poll s) (us_multi s) (us_sent s ++ replicate n (sentUpdate req))
    (us_operation s).

Lemma updateLoop_updated pre : ∀ fuel req (s : service) a rest,
  us_update s = pre ++ a :: rest → Forall undurable pre → ¬ undurable a → (length pre < fuel)%nat →
  updates fuel req s = (Returned (updated a), afterUpdates (S (length pre)) req s).
Proof.
  induction pre as [|b pre IH]; intros fuel req s a rest Hs Hpre Ha Hf; (destruct fuel as [|fuel]; [simpl in Hf; lia|]);
    simpl; unfold mbind, go_bind, callUpdate; rewrite Hs; simpl.
  - unfold updated, afterUpdates. rewrite Hs. simpl. destruct (reply _ a) as [err|resp] eqn:Hr; [done|].
    destruct (isDurable_spec resp) as [|Hd]; [done|]. destruct Ha. by exists resp.
  - inversion Hpre as [|? ? (resp & Hr & Ho) Hpre']; subst. rewrite Hr. destruct (isDurable_spec resp); [done|].
    rewrite (IH fuel req _ a rest) by (try done; simpl in *; lia). unfold afterUpdates. simpl.
    rewrite Hs. simpl. by rewrite <- app_assoc.
Qed.

Lemma updateLoop_unanswered : ∀ fuel req (s : service),
  Forall undurable (us_update s) → (length (us_update s) < fuel)%nat →
  updates fuel req s = (Returned (updated noAnswer), afterUpdates (S (length (us_update s))) req s).
Proof.
  induction fuel as [|fuel IH]; intros req s Hs Hf; [lia|]. simpl. unfold mbind, go_bind, callUpdate.
  destruct s as [[|a us] ps ms sent op]; simpl in *; [done|].
  inversion Hs as [|? ? (resp & Hr & Ho) Hs']; subst. rewrite Hr.
  destruct (isDurable_spec resp); [done|]. rewrite IH by (simpl; try done; lia).
  unfold afterUpdates. simpl. by rewrite <- app_assoc.
Qed.

Lemma undurable_split (l : list (rpcAnswer updateResp)) :
  Forall undurable l ∨ ∃ pre a rest, l = pre ++ a :: rest ∧ Forall undurable pre ∧ ¬ undurable a.
Proof.
  assert (∀ a, undurable a ∨ ¬ undurable a) as Hdec.
  { intros a. unfold undurable. destruct (reply _ a) as [err|resp] eqn:Hr; [right; naive_solver|].
    destruct (isDurable_spec resp); [right|left; by exists resp]. by intros (? & [= <-] & ?). }
  induction l as [|a l [IH|(pre & b & rest & -> & Hpre & Hb)]]; [by left| |].
  - destruct (Hdec a); [left; by constructor|right]. by exists [], a, l.
  - right. destruct (Hdec a); [|by exists [], a, (pre ++ b :: rest)].
    exists (a :: pre), b, rest. split_and!; [done|by constructor|done].
Qed.

(** The loop ends; if it ends with a response, this is the first durable one. *)
Lemma updateLoop_total req (s : service) :
  ∃ r n, updates (S (length (us_update s))) req s = (Returned r, afterUpdates n req s) ∧
    ∀ resp, r = inr resp → ∃ pre a rest, us_update s = pre ++ a :: rest ∧ Forall undurable pre ∧
      reply _ a = inr resp ∧ durable (up_Stage resp) ∧ n = S (length pre).
Proof.
  destruct (undurable_split (us_update s)) as [Hp|(pre & a & rest & Hs & Hpre & Ha)].
  - eexists _, _. split; [apply updateLoop_unanswered; [done|lia]|]. done.
  - exists (updated a), (S (length pre)). split.
    + eapply updateLoop_updated; [done|done|done|]. rewrite Hs, length_app. simpl. lia.
    + intros resp Hr. exists pre, a, rest. unfold updated in Hr. destruct (reply _ a) as [|resp'] eqn:Hra; [done|].
      injection Hr as ->. split_and!; try done. destruct (isDurable_spec resp) as [|Hd]; [done|].
      destruct Ha. by exists resp.
Qed.

(** The handle knows the outcome. *)
Definition knows (handle : handles) (ref : UpdateRef) : Prop :=
  ∃ v e, handle = completedUpdateHandle ref v e.

Lemma handleOf_total stage resp (s : service) :
  ∃ r n, handleOf stage resp s = (Returned r, afterPolls n (up_UpdateRef resp) s) ∧
    ∀ handle, r = inr handle → stage = STAGE_COMPLETED →
      knows handle (up_UpdateRef resp) ∨ up_Stage resp = STAGE_COMPLETED ∧ (mjoin (up_Outcome resp)) = None.
Proof.
  assert (∀ x, ∃ n, ((Returned x, s) : outcome (goError + handles) * service) =
    (Returned x, afterPolls n (up_UpdateRef resp) s)) as Hno.
  { intros x. exists 0%nat. unfold afterPolls. simpl. destruct s. by rewrite app_nil_r. }
  unfold updateHandleFromResponse. destruct (_ && _) eqn:Hb.
  - unfold try_bind, mbind, go_bind. destruct (poll_total (up_UpdateRef resp) s) as (r & n & ->).
    destruct r as [err|out]; [by eexists _, n|]. destruct (po_Error out) as [err|]; eexists _, n;
      (split; [done|]); intros handle [= <-] _; left; by eexists _, _.
  - assert (stage = STAGE_COMPLETED → up_Stage resp = STAGE_COMPLETED) as Hst.
    { intros ->. destruct (decide (up_Stage resp = STAGE_COMPLETED)) as [|Hne]; [done|].
      by rewrite !bool_decide_eq_true_2 in Hb. }
    destruct (up_Outcome resp) as [[[f|p]|]|] eqn:Ho; simpl; match goal with |- context [mret ?x s] =>
      destruct (Hno x) as [n Hn]; exists x, n end; (split; [exact Hn|]); intros handle [= <-] Hc;
      try (left; by eexists _, _); right; by split; [apply Hst|].
Qed.

Lemma createRequest_total input (s : service) :
  (∀ v, uo_WaitForStage input ≠ unknownUpdateStage v) →
  ∃ r stage, createUpdateWorkflowRequest wc dataConverter headerPropagated nexusContext input s = (Returned r, s) ∧
    updateLifeCycleStageToProto (uo_WaitForStage input) = Returned stage ∧
    ∀ req, r = inr req → ur_LifecycleStage req = stage.
Proof.
  intros Hk. assert (∃ stage, updateLifeCycleStageToProto (uo_WaitForStage input) = Returned stage) as [stage Hs].
  { destruct (uo_WaitForStage input); try by eexists. by destruct (Hk value). }
  unfold createUpdateWorkflowRequest, try_bind, mbind, go_bind, mret, go_ret.
  destruct (asError (ToPayloads _ _)) as [err|args]; simpl; [by eexists _, stage|].
  destruct (asError headerPropagated) as [err|header]; simpl; [by eexists _, stage|].
  unfold lift. rewrite Hs. eexists _, stage. split_and!; [done|done|]. by intros req [= <-].
Qed.


(** ** Updates that start their workflow *)

  Variable newUpdateID : string.
  Variable outboundMultiVisitor : StartWorkflowExecutionRequest * UpdateWorkflowExecutionRequest →
    goError + StartWorkflowExecutionRequest * UpdateWorkflowExecutionRequest.
  Variable OperationErrors : goError → list (option goError).

#[local] Abbreviation takeBoth := (takeResponses errorText).
#[local] Abbreviation withStarts := (withStartLoop canceledCode OperationErrors errorText).

Lemma takeResponses_seen input responses (s : service) :
  ∃ r, takeBoth input true responses s = (Returned r, s).
Proof.
  unfold takeResponses. destruct responses as [|[run first|resp|t] [|[? ?|resp'|t'] [|]]]; by eexists.
Qed.

Lemma withStart_seen : ∀ fuel input start upd (s : service), (length (us_multi s) < fuel)%nat →
  ∃ r s', withStarts fuel input start upd true s = (Returned r, s') ∧ us_operation s' = us_operation s.
Proof.
  induction fuel as [|fuel IH]; intros input start upd s Hf; [lia|]. simpl. unfold mbind, go_bind, callMulti. simpl.
  set (s1 := mkUpdateService _ _ _ _ _).
  destruct (reply _ (default noAnswer (head (us_multi s)))) as [err|responses] eqn:Hr; [by eexists _, _|].
  unfold try_bind, mbind, go_bind. destruct (takeResponses_seen input responses s1) as [r Ht]. rewrite Ht.
  destruct r as [err|resp]; [by eexists _, _|]. destruct (updateIsDurable resp); [by eexists _, _|].
  destruct (IH input start upd s1) as (r & s' & Heq & Hop).
  { unfold s1. simpl. destruct (us_multi s); simpl in *; [done|lia]. }
  rewrite Heq. by eexists _, _.
Qed.

(** The operation, once the workflow was started. *)
Definition startedBy (a : rpcAnswer (list multiResponse)) (input : ClientExecuteWorkflowInput)
    (op op' : withStartWorkflowOperationImpl) : Prop :=
  ∃ runID first other, reply _ a = inr [Response_StartWorkflow (SerializationContext := SerializationContext) runID first; other] ∧
    op' = mkStartOperation (op_input op) (op_executed op) true (Some (runOf input runID first false)) None.

Lemma takeResponses_first input responses a (s : service) :
  reply _ a = inr responses → op_doneCh (us_operation s) = false →
  ∃ r s', takeBoth input false responses s = (Returned r, s') ∧ us_multi s' = us_multi s ∧
    (startedBy a input (us_operation s) (us_operation s') ∨
     (∃ err, r = inl err) ∧ us_operation s' = us_operation s).
Proof.
  intros Ha Hd. unfold takeResponses.
  destruct responses as [|[run first|resp|t] [|other [|]]];
    try (eexists _, s; split_and!; [done|done|]; right; split; [by eexists|done]).
  unfold onStart, operation_set, mbind, go_bind, get, modify, mret, go_ret. rewrite Hd.
  destruct other as [run' first'|resp'|t']; eexists _, _; (split_and!; [done|done|]); left;
    by eexists _, _, _.
Qed.

Lemma withStart_first fuel input start upd (s : service) :
  (length (us_multi s) < fuel)%nat → op_doneCh (us_operation s) = false →
  ∃ r s', withStarts fuel input start upd false s = (Returned r, s') ∧
    ((∃ a rest, us_multi s = a :: rest ∧ startedBy a input (us_operation s) (us_operation s')) ∨
     (∃ err, r = inl err) ∧ us_operation s' = us_operation s).
Proof.
  intros Hf Hd. destruct fuel as [|fuel]; [lia|]. simpl. unfold mbind, go_bind, callMulti. simpl.
  set (s1 := mkUpdateService _ _ _ _ _).
  destruct (reply _ (default noAnswer (head (us_multi s)))) as [err|responses] eqn:Hr.
  { eexists _, _. split; [done|]. right. split; [by eexists|done]. }
  destruct (us_multi s) as [|a rest] eqn:Hm; [done|]. simpl in *.
  unfold try_bind, mbind, go_bind. destruct (takeResponses_first input responses a s1 Hr) as (r & s2 & Ht & Hm2 & Hop); [done|].
  rewrite Ht. destruct r as [err|resp].
  { eexists _, _. split; [done|]. destruct Hop as [Hop|[_ Hop]]; [left; by exists a, rest|right].
    split; [by eexists|done]. }
  destruct Hop as [Hop|[[err ?] _]]; [|done].
  destruct (updateIsDurable resp); [eexists _, _; split; [done|]; left; by exists a, rest|].
  destruct (withStart_seen fuel input start upd s2) as (r & s' & Heq & Hop').
  { rewrite Hm2. simpl. lia. }
  rewrite Heq. eexists _, _. split; [done|]. left. exists a, rest. by rewrite Hop'.
Qed.

End Facts.

(** ** Examples *)

Definition plainClient : WorkflowClient := mkWorkflowClient "default" "client" false None.
Definition anyRef : UpdateRef := mkUpdateRef "w" "r" "u".
Definition notFound : goError := otherError "*serviceerror.NotFound" "update not found" None.

#[local] Abbreviation answerOf r := (mkAnswer _ r false false).
Definition textOf : goError → string := λ _, "".

(** The service does not know the update; the client says that the call timed
    out. *)
Lemma poll_error_is_timeout_witness :
  let s := mkUpdateService (SerializationContext := unit) [] [answerOf (inr (mkPollResponse None None)); answerOf (inl notFound)]
             [] [] (mkStartOperation None false false None None) in
  result (PollWorkflowUpdate (λ _ _, None) inr (λ _, false) textOf anyRef) s =
  Returned (inl (NewWorkflowUpdateServiceTimeoutOrCanceledError textOf notFound)).
Proof.
  intros s.
  apply (poll_error_is_timeout (λ _ _, None) inr (λ _, false) textOf [answerOf (inr (mkPollResponse None None))]
    (answerOf (inl notFound)) [] anyRef s); [done| | |done].
  - repeat constructor. by exists (mkPollResponse None None).
  - by intros (? & ? & _).
Defined.

Definition acceptedUpdate : UpdateWorkflowExecutionResponse (SerializationContext := unit) :=
  mkUpdateResponse anyRef STAGE_ACCEPTED None None.
Definition admittedUpdate : UpdateWorkflowExecutionResponse (SerializationContext := unit) :=
  mkUpdateResponse anyRef STAGE_ADMITTED None None.

Definition exampleUpdate : UpdateWorkflowOptions :=
  mkUpdateOptions "u" "w" "" "update" [] WorkflowUpdateStageAccepted "" "" [] [].


