(* ===== verification/Heartbeat.v ===== *)
(** * Heartbeats of an activity
      ([src/internal/internal_task_handlers.go], [temporalInvoker];
      [src/internal/common/retry/interceptor.go], [IsRetryable]).

    The first heartbeat of an activity is sent at once and opens a window; those
    that follow in the window are kept, the newest in place of the one before,
    until a goroutine closes the window and reports it.  An answer of the
    service may cancel the context of the activity, with a cause.

    A heartbeat holds the lock of the invoker, the call of the service included,
    so it is one step; the goroutine of a window has a step that closes the
    window and a step that reports what it found, and anything may happen in
    between.  The run of an activity is a sequence of such events.  The service
    is the list of its answers, and unavailable after them. *)

From stdpp Require Import base list gmap strings.
From S2P Require Import Prelude Proto History Errors Retry Environment.
Open Scope Z_scope.

(** ** Data *)

(** What the requests about an activity task have in common.  The version of
    the worker is its version stamp, deployment and deployment options. *)
Record respondCommon : Type := mkRespond {
  req_TaskToken : string;
  req_Identity : string;
  req_Namespace : string;
  req_ResourceId : string;
  req_WorkerVersion : option opaqueMessage;
}.

Inductive activityRequest : Type :=
| RecordActivityTaskHeartbeat (r : respondCommon) (Details : option Payloads)
| RespondActivityTaskCompleted (r : respondCommon) (Result : option Payloads)
| RespondActivityTaskCanceled (r : respondCommon) (Details : option Payloads)
| RespondActivityTaskFailed (r : respondCommon) (failure : option Failure).

Record RecordActivityTaskHeartbeatResponse : Type := mkHeartbeatResponse {
  CancelRequested : bool;
  ActivityPaused : bool;
  ActivityReset : bool;
}.

(** [hbBatchEndTimer] tells whether there is a timer; [lastDetailsToReport] is
    a pointer to details, which may be nil themselves. *)
Record temporalInvoker : Type := mkInvoker {
  hbBatchEndTimer : bool;
  lastDetailsToReport : option (option Payloads);
  closeCh : bool;
}.

(** The goroutine of a window: it waits, has closed the window and found
    details to report, or is over. *)
Inductive batch : Type :=
| batchWaits
| batchFound (details : option Payloads)
| batchOver.

(** How a context ended; a cancellation has the cause of the run. *)
Inductive contextEnd : Type :=
| contextCanceled
| contextDeadlineExceeded.

Inductive activityEvent : Type :=
| userHeartbeat (details : option Payloads) (skipBatching : bool)
| batchEnds (i : nat)
| batchReports (i : nat)
| batchCloses (i : nat)
| canceledWith (cause : goError)
| deadlinePasses.

(** An activity task at work.  [ar_cause] is the cause of [canCtx], and
    [ar_ctx] the end of the context with the deadline; [ar_err] is the result
    parameter [err] of [Execute]; [ar_schedule] has what else happens at each
    point where [Execute] can be overtaken. *)
Record activityRun : Type := mkActivityRun {
  ar_invoker : temporalInvoker;
  ar_batches : list batch;
  ar_cause : option goError;
  ar_ctx : option contextEnd;
  ar_answers : list (goError + option RecordActivityTaskHeartbeatResponse);
  ar_sent : list activityRequest;
  ar_err : option goError;
  ar_schedule : list (list activityEvent);
}.

Definition set_invoker (i : temporalInvoker) (s : activityRun) : activityRun :=
  mkActivityRun i (ar_batches s) (ar_cause s) (ar_ctx s) (ar_answers s) (ar_sent s) (ar_err s) (ar_schedule s).
Definition set_batches (bs : list batch) (s : activityRun) : activityRun :=
  mkActivityRun (ar_invoker s) bs (ar_cause s) (ar_ctx s) (ar_answers s) (ar_sent s) (ar_err s) (ar_schedule s).
Definition set_ctx (cause : option goError) (ctx : option contextEnd) (s : activityRun) : activityRun :=
  mkActivityRun (ar_invoker s) (ar_batches s) cause ctx (ar_answers s) (ar_sent s) (ar_err s) (ar_schedule s).
Definition set_service (answers : list (goError + option RecordActivityTaskHeartbeatResponse))
    (sent : list activityRequest) (s : activityRun) : activityRun :=
  mkActivityRun (ar_invoker s) (ar_batches s) (ar_cause s) (ar_ctx s) answers sent (ar_err s) (ar_schedule s).
Definition set_err (err : option goError) (s : activityRun) : activityRun :=
  mkActivityRun (ar_invoker s) (ar_batches s) (ar_cause s) (ar_ctx s) (ar_answers s) (ar_sent s) err (ar_schedule s).
Definition set_schedule (schedule : list (list activityEvent)) (s : activityRun) : activityRun :=
  mkActivityRun (ar_invoker s) (ar_batches s) (ar_cause s) (ar_ctx s) (ar_answers s) (ar_sent s) (ar_err s) schedule.

(** ** Errors *)

(** Values of [errors.New] that the code compares with are told by their text. *)
Definition isSentinel (text : string) (err : goError) : bool :=
  match err with
  | otherError typeName t None => bool_decide (typeName = "*errorString") && bool_decide (t = text)
  | _ => false
  end.

(** [errors.Is] for such a value. *)
Definition errorsIs (text : string) (err : goError) : bool :=
  bool_decide (is_Some (errorsAs (isSentinel text) err)).

Definition activityPaused : string := "activity paused".
Definition activityReset : string := "activity reset".
Definition ErrActivityPaused : goError := newError activityPaused.
Definition ErrActivityReset : goError := newError activityReset.

(** [codes.Aborted], [ResourceExhausted], [Unavailable] and [Unknown]. *)
Definition retryableCodesWithoutInternal : list Z := [10; 8; 14; 2].
Definition codes_Internal : Z := 13.

(** What the worker gives to an invoker: the code of [serviceerror.ToStatus],
    whether the details of an error report a lost completion buffer, the
    outbound payload visitor (on payloads and on the failure of a request), the
    failure converter, and [Error]. *)
Record workerParts : Type := mkWorkerParts {
  ToStatus : goError → Z;
  IsWorkflowTaskCompletionBufferLost : goError → bool;
  excludeInternalFromRetry : bool;
  visitPayloads : option Payloads → goError + option Payloads;
  visitFailure : option Failure → goError + option Failure;
  ErrorToFailure : goError → outcome (option Failure);
  errorText : goError → string;
  identity : string;
  namespace : string;
}.

Section Invoker.
  Variable w : workerParts.
  Variables taskToken resourceId : string.

Definition retry_IsRetryable (err : goError) : bool :=
  if hasType "*retry.GrpcMessageTooLargeError" err then false
  else if IsWorkflowTaskCompletionBufferLost w err then false
  else
    let errCode := ToStatus w err in
    if bool_decide (errCode ∈ retryableCodesWithoutInternal) then true
    else if decide (errCode = codes_Internal) then negb (excludeInternalFromRetry w)
    else false.

Definition heartbeatVisitorErrorType : string := "internal.heartbeatVisitorError".
Definition heartbeatVisitorError (err : goError) : goError :=
  otherError heartbeatVisitorErrorType (errorText w err) (Some err).

(** ** Calls *)

Definition visitRequest (r : activityRequest) : goError + activityRequest :=
  match r with
  | RecordActivityTaskHeartbeat c details => RecordActivityTaskHeartbeat c <$> visitPayloads w details
  | RespondActivityTaskCompleted c result => RespondActivityTaskCompleted c <$> visitPayloads w result
  | RespondActivityTaskCanceled c details => RespondActivityTaskCanceled c <$> visitPayloads w details
  | RespondActivityTaskFailed c failure => RespondActivityTaskFailed c <$> visitFailure w failure
  end.

(** The cause of a context is that of its first cancellation. *)
Definition cancelHandler (err : goError) : Go activityRun unit :=
  modify (λ s, match ar_cause s with
               | Some _ => s
               | None => set_ctx (Some err) (Some (default contextCanceled (ar_ctx s))) s
               end).

Definition common (version : option opaqueMessage) : respondCommon :=
  mkRespond taskToken (identity w) (namespace w) resourceId version.

Definition send (r : activityRequest) : Go activityRun unit :=
  modify (λ s, set_service (ar_answers s) (ar_sent s ++ [r]) s).

Definition serviceDown : goError := otherError "*serviceerror.Unavailable" "unavailable" None.

Definition recordActivityHeartbeat (request : activityRequest) : Go activityRun (option goError) :=
  _ ← send request;
  s ← get;
  _ ← modify (λ s, set_service (tail (ar_answers s)) (ar_sent s) s);
  mret match head (ar_answers s) with
       | None => Some serviceDown
       | Some (inl err) => Some err
       | Some (inr None) => None
       | Some (inr (Some r)) =>
           if CancelRequested r then Some (NewCanceledError [])
           else if ActivityPaused r then Some ErrActivityPaused
           else if ActivityReset r then Some ErrActivityReset
           else None
       end.
(** Whether an error of a heartbeat cancels the activity. *)
Definition cancelsActivity (err : goError) : bool :=
  isCanceledError err
  || hasType "*serviceerror.NotFound" err || hasType "*serviceerror.NamespaceNotActive" err
  || hasType "*serviceerror.NamespaceNotFound" err
  || errorsIs activityPaused err || errorsIs activityReset err
  || retry_IsRetryable err.

Definition internalHeartBeat (details : option Payloads) : Go activityRun (bool * option goError) :=
  err ← match visitRequest (RecordActivityTaskHeartbeat (common None) details) with
        | inl visitErr =>
            failure ← lift (ErrorToFailure w visitErr);
            _ ← send (RespondActivityTaskFailed (common None) failure);
            let err := heartbeatVisitorError visitErr in
            _ ← cancelHandler err;
            mret (Some err)
        | inr request => recordActivityHeartbeat request
        end;
  match err with
  | None => mret (false, None)
  | Some e =>
      if cancelsActivity e then _ ← cancelHandler e; mret (true, Some e)
      else mret (false, Some e)
  end.

(** A new window, with its goroutine. *)
Definition startBatch : Go activityRun unit :=
  modify (λ s, set_batches (ar_batches s ++ [batchWaits])
                 (set_invoker (mkInvoker true None (closeCh (ar_invoker s))) s)).

Definition Heartbeat (details : option Payloads) (skipBatching : bool) : Go activityRun (option goError) :=
  s ← get;
  let i := ar_invoker s in
  if hbBatchEndTimer i && negb skipBatching then
    _ ← modify (set_invoker (mkInvoker (hbBatchEndTimer i) (Some details) (closeCh i)));
    mret None
  else
    '(isActivityCanceled, err) ← internalHeartBeat details;
    let sent := match err with None => true | Some _ => isActivityCanceled end in
    _ ← (if sent && negb skipBatching then startBatch else mret tt);
    mret err.

(** [Close]; a channel cannot be closed twice. *)
Definition Close (flushBufferedHeartbeat : bool) : Go activityRun unit :=
  s ← get;
  let i := ar_invoker s in
  if closeCh i then panic (runtimeError "close of closed channel")
  else
    _ ← modify (set_invoker (mkInvoker (hbBatchEndTimer i) (lastDetailsToReport i) true));
    if hbBatchEndTimer i && flushBufferedHeartbeat then
      match lastDetailsToReport i with
      | Some details =>
          _ ← internalHeartBeat details;
          modify (λ s, set_invoker (mkInvoker (hbBatchEndTimer (ar_invoker s)) None (closeCh (ar_invoker s))) s)
      | None => mret tt
      end
    else mret tt.

(** ** Events *)

Definition set_batch (i : nat) (b : batch) : Go activityRun unit :=
  modify (λ s, set_batches (<[i := b]> (ar_batches s)) s).

(** The goroutine of window [i] closes it: the timer has fired or the worker
    stops. *)
Definition endBatch (i : nat) : Go activityRun unit :=
  s ← get;
  let inv := ar_invoker s in
  if hbBatchEndTimer inv then
    _ ← modify (set_invoker (mkInvoker false (lastDetailsToReport inv) (closeCh inv)));
    set_batch i (match lastDetailsToReport inv with Some d => batchFound d | None => batchOver end)
  else panic (runtimeError "invalid memory address or nil pointer dereference").

(** An event that is not due changes nothing. *)
Definition happen (e : activityEvent) : Go activityRun unit :=
  s ← get;
  match e with
  | userHeartbeat details skipBatching => _ ← Heartbeat details skipBatching; mret tt
  | batchEnds i =>
      match ar_batches s !! i with
      | Some batchWaits => endBatch i
      | _ => mret tt
      end
  | batchReports i =>
      match ar_batches s !! i with
      | Some (batchFound details) => _ ← set_batch i batchOver; _ ← Heartbeat details false; mret tt
      | _ => mret tt
      end
  | batchCloses i =>
      match ar_batches s !! i with
      | Some batchWaits => if closeCh (ar_invoker s) then set_batch i batchOver else mret tt
      | _ => mret tt
      end
  | canceledWith cause => cancelHandler cause
  | deadlinePasses =>
      modify (λ s, set_ctx (ar_cause s) (Some (default contextDeadlineExceeded (ar_ctx s))) s)
  end.

Fixpoint happens (es : list activityEvent) : Go activityRun unit :=
  match es with
  | [] => mret tt
  | e :: es' => _ ← happen e; happens es'
  end.
End Invoker.

Definition newServiceInvoker : temporalInvoker := mkInvoker false None false.
