(* ===== verification/HeartbeatFacts.v ===== *)
(** * What becomes of the heartbeats of an activity *)

From stdpp Require Import base list gmap strings.
From S2P Require Import Prelude Proto History Errors Retry Environment Heartbeat.
Open Scope Z_scope.

Section Facts.
  Variable w : workerParts.
  Variables taskToken resourceId : string.
#[local] Abbreviation parties := (common w taskToken resourceId None).
#[local] Abbreviation beat := (internalHeartBeat w taskToken resourceId).
#[local] Abbreviation heartbeats := (Heartbeat w taskToken resourceId).
#[local] Abbreviation closes := (Close w taskToken resourceId).
#[local] Abbreviation occurs := (happen w taskToken resourceId).
#[local] Abbreviation runs := (happens w taskToken resourceId).

(** ** A call of the service *)

(** [r] reports the details, or that the visitor does not let them pass. *)
Definition reports (details : option Payloads) (r : activityRequest) : Prop :=
  (∃ details', visitPayloads w details = inr details' ∧ r = RecordActivityTaskHeartbeat parties details') ∨
  ∃ err failure, visitPayloads w details = inl err ∧ r = RespondActivityTaskFailed parties failure.

(** What a call of the service leaves alone. *)
Definition sameWindows (s s' : activityRun) : Prop :=
  ar_invoker s' = ar_invoker s ∧ ar_batches s' = ar_batches s ∧ ar_err s' = ar_err s ∧
  ar_schedule s' = ar_schedule s.

#[global] Instance sameWindows_refl : Reflexive sameWindows.
Proof. done. Qed.

Lemma cancel_same err s : ∃ s', cancelHandler err s = (Returned tt, s') ∧ sameWindows s s' ∧
  ar_sent s' = ar_sent s.
Proof. unfold cancelHandler, modify. eexists. split; [done|]. by destruct (ar_cause s). Qed.

  (** The errors of the visitor can be turned into failures. *)
  Hypothesis visitorErrors : ∀ d err, visitPayloads w d = inl err → ∃ f, ErrorToFailure w err = Returned f.

Lemma beat_spec details s :
  ∃ b r s', beat details s = (Returned b, s') ∧ sameWindows s s' ∧ reports details r ∧
    ar_sent s' = ar_sent s ++ [r].
Proof.
  unfold internalHeartBeat, reports. simpl.
  assert (∀ e s1, ∃ b s', (if cancelsActivity w e
      then _ ← cancelHandler e; mret (true, Some e) else mret (false, Some e)) s1 = (Returned b, s') ∧
      sameWindows s1 s' ∧ ar_sent s' = ar_sent s1) as Hend.
  { intros e s1. destruct (cancelsActivity _ e); [|by eexists _, _].
    destruct (cancel_same e s1) as (s' & Hc & Hs & Hse). unfold mbind, go_bind. rewrite Hc. by eexists _, _. }
  destruct (visitPayloads w details) as [err|details'] eqn:Hv; simpl.
  - destruct (visitorErrors _ _ Hv) as [f Hf]. unfold mbind, go_bind, lift, send, modify. rewrite Hf.
    set (s1 := set_service _ _ s).
    destruct (cancel_same (heartbeatVisitorError w err) s1) as (s2 & Hc & (H1 & H2 & H3 & H4) & Hs). rewrite Hc.
    unfold mret, go_ret. destruct (Hend (heartbeatVisitorError w err) s2) as (b & s3 & Hb & (H5 & H6 & H7 & H8) & Hs3).
    unfold mret, go_ret in Hb. unfold mbind, go_bind in Hb. rewrite Hb.
    eexists b, _, s3. split_and!; [done| |right; by eexists _, _|].
    + unfold sameWindows. rewrite H5, H6, H7, H8, H1, H2, H3, H4. done.
    + by rewrite Hs3, Hs.
  - unfold recordActivityHeartbeat, send, mbind, go_bind, modify, get, mret, go_ret.
    set (s1 := set_service _ _ (set_service _ _ s)).
    match goal with |- context [match ?o with Some e => if cancelsActivity _ e then _ else _ | None => _ end] =>
      destruct o as [e|] end.
    + destruct (Hend e s1) as (b & s3 & Hb & (H5 & H6 & H7 & H8) & Hs3).
      unfold mret, go_ret, mbind, go_bind in Hb. rewrite Hb. eexists b, _, s3. split_and!; [done| |left; by eexists|by rewrite Hs3].
      by unfold sameWindows; rewrite H5, H6, H7, H8.
    + eexists _, _, s1. split_and!; [done|done|left; by eexists|done].
Qed.

(** ** Windows *)

Definition isWaiting (b : batch) : bool := match b with batchWaits => true | _ => false end.
Definition waiting (bs : list batch) : nat := length (filter isWaiting bs).

(** There is a timer exactly when one goroutine waits for it; only after the
    invoker was closed may the goroutine be gone. *)
Definition windows_inv (s : activityRun) : Prop :=
  let i := ar_invoker s in
  (waiting (ar_batches s) ≤ (if hbBatchEndTimer i then 1 else 0))%nat ∧
  (closeCh i = false → hbBatchEndTimer i = true → waiting (ar_batches s) = 1%nat).

Lemma waiting_snoc bs b : waiting (bs ++ [b]) = (waiting bs + if isWaiting b then 1 else 0)%nat.
Proof. unfold waiting. rewrite filter_app, length_app. by destruct b. Qed.

Lemma waiting_insert bs i b b' : bs !! i = Some b →
  (waiting (<[i := b']> bs) + (if isWaiting b then 1 else 0) = waiting bs + if isWaiting b' then 1 else 0)%nat.
Proof.
  revert i. induction bs as [|c bs IH]; intros [|i] Hi; simplify_eq/=.
  - unfold waiting. rewrite !filter_cons. destruct b, b'; simpl; lia.
  - specialize (IH i Hi). unfold waiting in *. rewrite !filter_cons. destruct c; simpl; lia.
Qed.

(** What an event adds: a window at most, and only when none is open. *)
Lemma heartbeat_spec details skip s : windows_inv s →
  ∃ r s', heartbeats details skip s = (Returned r, s') ∧ windows_inv s' ∧
    closeCh (ar_invoker s') = closeCh (ar_invoker s) ∧
    (length (ar_batches s') - waiting (ar_batches s') = length (ar_batches s) - waiting (ar_batches s))%nat ∧
    ((hbBatchEndTimer (ar_invoker s) && negb skip = true ∧
      s' = set_invoker (mkInvoker true (Some details) (closeCh (ar_invoker s))) s) ∨
     (hbBatchEndTimer (ar_invoker s) && negb skip = false ∧
      ∃ q, reports details q ∧ ar_sent s' = ar_sent s ++ [q] ∧
        (ar_invoker s' = mkInvoker true None (closeCh (ar_invoker s)) ∧ ar_batches s' = ar_batches s ++ [batchWaits] ∧
         hbBatchEndTimer (ar_invoker s) = false ∨
         ar_invoker s' = ar_invoker s ∧ ar_batches s' = ar_batches s))).
Proof.
  intros Hinv. unfold Heartbeat, mbind, go_bind, get. destruct (hbBatchEndTimer (ar_invoker s) && negb skip) eqn:Ht.
  - apply andb_true_iff in Ht as [Ht Hskip]. eexists _, _. split; [done|]. split_and!; [|done|done|].
    + unfold windows_inv in *. simpl. by rewrite Ht in *.
    + left. split; [done|]. by rewrite Ht.
  - destruct (beat_spec details s) as ([canceled err] & q & s1 & Hb & (H1 & H2 & _) & Hq & Hs). rewrite Hb.
    destruct (match err with None => true | Some _ => canceled end && negb skip) eqn:Ho.
    + apply andb_true_iff in Ho as [_ Hskip]. rewrite Hskip, andb_true_r in Ht.
      destruct Hinv as [Hw _]. rewrite Ht in Hw.
      unfold startBatch, modify, mret, go_ret. eexists _, _. split; [done|]. unfold windows_inv. simpl.
      rewrite H1, H2, waiting_snoc, length_app. simpl. split_and!; [lia|lia|done|lia|].
      right. split; [done|]. exists q. split_and!; [done|done|]. by left.
    + unfold mret, go_ret. eexists _, s1. unfold windows_inv. rewrite H1, H2. split_and!; try done; try apply Hinv.
      right. split; [done|]. exists q. split_and!; [done|done|]. by right.
Qed.

(** The events that close a window. *)
Definition closesWindow (e : activityEvent) : bool :=
  match e with batchEnds _ | batchCloses _ => true | _ => false end.

Lemma happen_spec e s : windows_inv s →
  ∃ s', occurs e s = (Returned tt, s') ∧ windows_inv s' ∧ closeCh (ar_invoker s') = closeCh (ar_invoker s) ∧
    (length (ar_batches s') - waiting (ar_batches s') ≤
     length (ar_batches s) - waiting (ar_batches s) + if closesWindow e then 1 else 0)%nat.
Proof.
  intros Hinv. unfold happen, mbind, go_bind, get. destruct e as [details skip|i|i|i|cause|].
  - destruct (heartbeat_spec details skip s Hinv) as (r & s' & Hh & Hi & Hc & Hl & _). rewrite Hh.
    exists s'. split_and!; [done|done|done|simpl; lia].
  - destruct (ar_batches s !! i) as [[]|] eqn:Hi; try (exists s; split_and!; [done|done|done|lia]).
    unfold endBatch, set_batch, mbind, go_bind, get, modify.
    pose proof (waiting_insert _ _ _ (match lastDetailsToReport (ar_invoker s) with Some d => batchFound d | None => batchOver end) Hi) as Hw.
    destruct Hinv as [Hw1 Hw2]. simpl in Hw.
    destruct (hbBatchEndTimer (ar_invoker s)) eqn:Ht; [|by destruct (lastDetailsToReport _); simpl in Hw; lia].
    eexists. split; [done|]. unfold windows_inv. simpl.
    rewrite length_insert. destruct (lastDetailsToReport (ar_invoker s)); simpl in *; split_and!; try done; lia.
  - destruct (ar_batches s !! i) as [[|d|]|] eqn:Hi; try (exists s; split_and!; [done|done|done|lia]).
    pose proof (waiting_insert _ _ _ batchOver Hi) as Hw. simpl in Hw.
    unfold set_batch, mbind, go_bind, modify. set (s1 := set_batches _ s).
    assert (windows_inv s1) as Hinv1 by (unfold windows_inv in *; simpl; destruct Hinv; split; [lia|]; intros; rewrite <- H0; [lia|done..]).
    destruct (heartbeat_spec d false s1 Hinv1) as (r & s' & Hh & Hinv' & Hc & Hl & _). rewrite Hh.
    exists s'. split_and!; [done|done|done|]. simpl in Hl. rewrite length_insert in Hl. simpl. lia.
  - destruct (ar_batches s !! i) as [[]|] eqn:Hi; try (exists s; split_and!; [done|done|done|lia]).
    pose proof (waiting_insert _ _ _ batchOver Hi) as Hw. simpl in Hw.
    destruct (closeCh (ar_invoker s)) eqn:Hc; [|exists s; split_and!; [done|done|done|lia]].
    unfold set_batch, modify. eexists. split; [done|]. destruct Hinv as [Hw1 Hw2]. unfold windows_inv. simpl.
    rewrite length_insert, Hc. split_and!; [lia|done|done|lia].
  - destruct (cancel_same cause s) as (s' & Hc & (H1 & H2 & _) & _). rewrite Hc. exists s'.
    unfold windows_inv. rewrite H1, H2. split_and!; [done|apply Hinv|apply Hinv|done|lia].
  - eexists. split; [done|]. split_and!; [exact Hinv|done|simpl; lia].
Qed.

Lemma happens_spec es : ∀ s, windows_inv s →
  ∃ s', runs es s = (Returned tt, s') ∧ windows_inv s' ∧ closeCh (ar_invoker s') = closeCh (ar_invoker s) ∧
    (length (ar_batches s') - waiting (ar_batches s') ≤
     length (ar_batches s) - waiting (ar_batches s) + length (filter closesWindow es))%nat.
Proof.
  induction es as [|e es IH]; intros s Hs; [exists s; simpl; split_and!; [done|done|done|lia]|].
  destruct (happen_spec e s Hs) as (s1 & He & H1 & Hc1 & Hl1). destruct (IH s1 H1) as (s2 & Hr & H2 & Hc2 & Hl2).
  exists s2. simpl. unfold mbind, go_bind. rewrite He, Hr. split_and!; [done|done|congruence|].
  rewrite filter_cons. destruct (closesWindow e); simpl; lia.
Qed.

(** An activity that starts. *)
Definition newRun (answers : list (goError + option RecordActivityTaskHeartbeatResponse))
    (schedule : list (list activityEvent)) : activityRun :=
  mkActivityRun newServiceInvoker [] None None answers [] None schedule.

Lemma newRun_inv answers schedule : windows_inv (newRun answers schedule).
Proof. by split. Qed.

Lemma close_spec flush s : windows_inv s → closeCh (ar_invoker s) = false →
  ∃ s', closes flush s = (Returned tt, s') ∧ windows_inv s' ∧ ar_batches s' = ar_batches s ∧
    ar_err s' = ar_err s ∧ ar_schedule s' = ar_schedule s ∧
    match (if hbBatchEndTimer (ar_invoker s) && flush then lastDetailsToReport (ar_invoker s) else None) with
    | Some details => ∃ q, reports details q ∧ ar_sent s' = ar_sent s ++ [q]
    | None => ar_sent s' = ar_sent s
    end.
Proof.
  intros [Hw1 Hw2] Hc. unfold Close, mbind, go_bind, get, modify. rewrite Hc.
  set (s1 := set_invoker _ s).
  assert (windows_inv s1) as Hinv by (unfold windows_inv; simpl; done).
  destruct (hbBatchEndTimer (ar_invoker s) && flush) eqn:Ht; [|by exists s1].
  destruct (lastDetailsToReport (ar_invoker s)) as [details|]; [|by exists s1].
  destruct (beat_spec details s1) as (b & q & s2 & Hb & (H1 & H2 & H3 & H4) & Hq & Hs). rewrite Hb.
  eexists. split; [done|]. unfold windows_inv. simpl. rewrite H1, H2, H3, H4. simpl. split_and!; try done.
  by exists q.
Qed.

(** C99. Heartbeats are sent in windows, one after the other.  Whatever the
    activity, the goroutines of the windows and the context do, and in any
    order, no goroutine finds its timer gone; at most one of them waits; and
    there was no more than one window for each that was closed, and one. *)
Theorem heartbeats_in_windows answers schedule es :
  ∃ s, runs es (newRun answers schedule) = (Returned tt, s) ∧ (waiting (ar_batches s) ≤ 1)%nat ∧
    (length (ar_batches s) ≤ S (length (filter closesWindow es)))%nat.
Proof.
  destruct (happens_spec es _ (newRun_inv answers schedule)) as (s & Hr & [Hw _] & _ & Hl).
  exists s. split; [done|]. simpl in Hl. destruct (hbBatchEndTimer (ar_invoker s)); lia.
Qed.

(** ** Requests *)

(** The requests of the invoker are added to those before. *)
Definition extends (s s' : activityRun) : Prop :=
  ar_err s' = ar_err s ∧ ar_schedule s' = ar_schedule s ∧
  ∃ sent, ar_sent s' = ar_sent s ++ sent ∧ Forall (λ r, ∃ details, reports details r) sent.

#[global] Instance extends_preorder : PreOrder extends.
Proof.
  split.
  - intros s. split_and!; [done|done|]. exists []. by rewrite app_nil_r.
  - intros s1 s2 s3 (E1 & S1 & l1 & L1 & H1) (E2 & S2 & l2 & L2 & H2). split_and!; [congruence|congruence|].
    exists (l1 ++ l2). rewrite L2, L1, <- app_assoc. split; [done|]. by apply Forall_app.
Qed.

Lemma extends_refl_of s s' : ar_err s' = ar_err s → ar_schedule s' = ar_schedule s → ar_sent s' = ar_sent s → extends s s'.
Proof. intros He Hs Hl. split_and!; [done|done|]. exists []. by rewrite app_nil_r. Qed.

Lemma beat_extends details s : extends s (beat details s).2.
Proof.
  destruct (beat_spec details s) as (b & q & s' & -> & (_ & _ & He & Hs) & Hq & Hsent).
  split_and!; [done|done|]. exists [q]. split; [done|]. constructor; [by exists details|done].
Qed.

Lemma heartbeat_extends details skip s : extends s (heartbeats details skip s).2.
Proof.
  unfold Heartbeat, mbind, go_bind, get. destruct (hbBatchEndTimer (ar_invoker s) && negb skip); [apply extends_refl_of; done|].
  pose proof (beat_extends details s) as Hb. destruct (beat details s) as [[[canceled err]|v] s1]; [|done].
  destruct (match err with None => true | Some _ => canceled end && negb skip); exact Hb.
Qed.

Lemma happen_extends e s : extends s (occurs e s).2.
Proof.
  unfold happen, mbind, go_bind, get. destruct e as [details skip|i|i|i|cause|].
  - pose proof (heartbeat_extends details skip s) as Hh. by destruct (heartbeats details skip s) as [[]].
  - destruct (ar_batches s !! i) as [[]|]; try reflexivity. unfold endBatch, mbind, go_bind, get, modify, set_batch, panic.
    destruct (hbBatchEndTimer (ar_invoker s)); by apply extends_refl_of.
  - destruct (ar_batches s !! i) as [[|d|]|]; try reflexivity. unfold set_batch, modify. set (s1 := set_batches _ s).
    pose proof (heartbeat_extends d false s1) as Hh. destruct (heartbeats d false s1) as [[]]; exact Hh.
  - destruct (ar_batches s !! i) as [[]|]; try reflexivity.
    destruct (closeCh (ar_invoker s)); [|reflexivity]. by apply extends_refl_of.
  - destruct (cancel_same cause s) as (s' & -> & (_ & _ & He & Hs) & Hse). by apply extends_refl_of.
  - by apply extends_refl_of.
Qed.

Lemma happens_extends es : ∀ s, extends s (runs es s).2.
Proof.
  induction es as [|e es IH]; intros s; [reflexivity|]. cbn [happens]. unfold mbind, go_bind.
  pose proof (happen_extends e s) as He. destruct (occurs e s) as [[[]|v] s1]; [|done].
  etransitivity; [exact He|apply IH].
Qed.

(** ** Progress *)

(** Runs in which a goroutine that closes a window reports what it found before
    anything else happens, and no heartbeat goes past the windows. *)
Inductive orderly : list activityEvent → Prop :=
| orderly_nil : orderly []
| orderly_heartbeat details es : orderly es → orderly (userHeartbeat details false :: es)
| orderly_batch i es : orderly es → orderly (batchEnds i :: batchReports i :: es)
| orderly_cancel cause es : orderly es → orderly (canceledWith cause :: es)
| orderly_deadline es : orderly es → orderly (deadlinePasses :: es).

(** The details that the activity gave last. *)
Fixpoint newest (es : list activityEvent) (d : option (option Payloads)) : option (option Payloads) :=
  match es with
  | [] => d
  | userHeartbeat details _ :: es' => newest es' (Some details)
  | _ :: es' => newest es' d
  end.

(** The newest details were sent last, or wait for the end of the window. *)
Definition current (d : option (option Payloads)) (s : activityRun) : Prop :=
  windows_inv s ∧ Forall (λ b, match b with batchFound _ => False | _ => True end) (ar_batches s) ∧
  closeCh (ar_invoker s) = false ∧
  ((hbBatchEndTimer (ar_invoker s) = true ∧ lastDetailsToReport (ar_invoker s) = d ∧ d ≠ None) ∨
   ((hbBatchEndTimer (ar_invoker s) = true → lastDetailsToReport (ar_invoker s) = None) ∧
    ∀ details, d = Some details → ∃ r, last (ar_sent s) = Some r ∧ reports details r)).

Lemma current_heartbeat details d s : current d s →
  ∃ r s', heartbeats details false s = (Returned r, s') ∧ current (Some details) s'.
Proof.
  intros (Hinv & Hf & Hc & _). destruct (heartbeat_spec details false s Hinv) as (r & s' & Hh & Hinv' & Hc' & _ & Hs).
  exists r, s'. split; [done|]. unfold current. rewrite Hc'. rewrite andb_true_r in Hs.
  destruct Hs as [[Ht ->]|(Ht & q & Hq & Hsent & Hs)].
  - split_and!; [done|done|done|]. left. by simpl.
  - destruct Hs as [(Hi & Hb & _)|[Hi Hb]]; rewrite Hi, Hb; simpl.
    + split_and!; [done|apply Forall_app_2; [done|by repeat constructor]|done|]. right. split; [done|].
      intros ? [= <-]. exists q. by rewrite Hsent, last_snoc.
    + split_and!; [done|done|done|]. right. split; [by rewrite Ht|].
      intros ? [= <-]. exists q. by rewrite Hsent, last_snoc.
Qed.

Lemma current_batch i d s : current d s →
  ∃ s', (_ ← occurs (batchEnds i); occurs (batchReports i)) s = (Returned tt, s') ∧ current d s'.
Proof.
  intros Hcur. pose proof Hcur as (Hinv & Hf & Hc & Hd). pose proof Hinv as [Hw1 Hw2].
  unfold happen, mbind, go_bind, get. destruct (ar_batches s !! i) as [[| |]|] eqn:Hi.
  - unfold endBatch, set_batch, mbind, go_bind, get, modify.
    pose proof (waiting_insert _ _ _ batchOver Hi) as Hw. simpl in Hw.
    destruct (hbBatchEndTimer (ar_invoker s)) eqn:Ht; [|simpl in Hw1; lia]. simpl.
    rewrite list_lookup_insert_eq by (by eapply lookup_lt_Some).
    destruct (lastDetailsToReport (ar_invoker s)) as [details|] eqn:Hl; simpl.
    + rewrite list_insert_insert_eq. set (s1 := set_batches _ _).
      assert (current None s1) as Hcur1.
      { unfold current, windows_inv. simpl. rewrite Hc. split_and!; [lia|done|by apply Forall_insert|done|by right]. }
      destruct (current_heartbeat details None s1 Hcur1) as (r & s' & Hh & Hc'). rewrite Hh. exists s'. split; [done|].
      destruct Hd as [(_ & <- & _)|[Hd _]]; [done|]. by specialize (Hd eq_refl).
    + eexists. split; [done|]. unfold current, windows_inv. simpl. rewrite Hc.
      split_and!; [lia|done|by apply Forall_insert|done|]. right. split; [done|].
      destruct Hd as [(_ & <- & Hne)|[_ Hd]]; [done|exact Hd].
  - rewrite Forall_lookup in Hf. by destruct (Hf _ _ Hi).
  - exists s. unfold mret, go_ret. by rewrite Hi.
  - exists s. unfold mret, go_ret. by rewrite Hi.
Qed.

Lemma run_cons e es s s1 : occurs e s = (Returned tt, s1) → runs (e :: es) s = runs es s1.
Proof. intros He. cbn [happens]. by rewrite (bind_returned _ _ _ _ _ He). Qed.

Lemma current_run es : orderly es → ∀ d s, current d s →
  ∃ s', runs es s = (Returned tt, s') ∧ current (newest es d) s'.
Proof.
  induction 1 as [|details es _ IH|i es _ IH|cause es _ IH|es _ IH]; intros d s Hs.
  - by exists s.
  - destruct (current_heartbeat details d s Hs) as (r & s1 & Hh & H1). destruct (IH _ s1 H1) as (s2 & Hr & H2).
    exists s2. split; [|done]. rewrite (run_cons _ _ _ s1); [done|].
    unfold happen, mbind, go_bind, get. by rewrite Hh.
  - destruct (current_batch i d s Hs) as (s1 & Hb & H1). destruct (IH d s1 H1) as (s2 & Hr & H2). exists s2.
    split; [|done]. unfold mbind at 1, go_bind at 1 in Hb.
    destruct (occurs (batchEnds i) s) as [[[]|] s0] eqn:He; [|done]. by rewrite (run_cons _ _ _ s0), (run_cons _ _ _ s1).
  - destruct (cancel_same cause s) as (s1 & Hc & (E1 & E2 & _) & E3). destruct (IH d s1) as (s2 & Hr & H2).
    { unfold current, windows_inv in *. by rewrite E1, E2, E3. }
    exists s2. by rewrite (run_cons _ _ _ s1).
  - destruct (IH d (set_ctx (ar_cause s) (Some (default contextDeadlineExceeded (ar_ctx s))) s) Hs) as (s2 & Hr & H2).
    exists s2. by rewrite (run_cons _ _ _ (set_ctx (ar_cause s) (Some (default contextDeadlineExceeded (ar_ctx s))) s)).
Qed.

(** C99. The newest progress of an activity reaches the service.  If a
    goroutine that closes a window is not overtaken before it reports, then
    when the invoker is closed and flushed, as it is unless the activity
    completed, the last request to the service reports the details that the
    activity gave last, however many heartbeats were held back or failed; or
    it fails the task because these details may not be sent. *)
Theorem newest_progress_reported answers schedule es details :
  orderly es → newest es None = Some details →
  ∃ s s' r, runs es (newRun answers schedule) = (Returned tt, s) ∧ closes true s = (Returned tt, s') ∧
    last (ar_sent s') = Some r ∧ reports details r.
Proof.
  intros Ho Hn. destruct (current_run es Ho None (newRun answers schedule)) as (s & Hr & Hinv & _ & Hc & Hd).
  { split_and!; [apply newRun_inv|by constructor|done|by right]. }
  destruct (close_spec true s Hinv Hc) as (s' & Hcl & _ & _ & _ & _ & Hs). rewrite andb_true_r in Hs.
  exists s, s'. rewrite Hn in Hd. destruct Hd as [(Ht & Hl & _)|[Hl Hd]].
  - rewrite Ht, Hl in Hs. destruct Hs as (q & Hq & Hsent). exists q. by rewrite Hsent, last_snoc.
  - destruct (Hd details eq_refl) as (r & Hla & Hrep). exists r. split_and!; [done|done| |done].
    destruct (hbBatchEndTimer (ar_invoker s)); [rewrite Hl in Hs by done|]; by rewrite Hs.
Qed.
End Facts.

(** ** Examples *)

Definition progress (n : string) : option Payloads := Some [mkPayload ∅ n].
Definition accepted : goError + option RecordActivityTaskHeartbeatResponse :=
  inr (Some (mkHeartbeatResponse false false false)).

Definition plainWorker : workerParts :=
  mkWorkerParts (λ _, 2) (λ _, false) false inr inr (λ _, Returned None) (λ _, "") "worker" "default".

#[local] Abbreviation example es := (happens plainWorker "token" "workflow:w" es (newRun [accepted; accepted; accepted] [])).

Definition threeSteps : list activityEvent :=
  [userHeartbeat (progress "1") false; userHeartbeat (progress "2") false; batchEnds 0; batchReports 0;
   userHeartbeat (progress "3") false].

Lemma heartbeats_in_windows_witness :
  ∃ s, example threeSteps = (Returned tt, s) ∧ (waiting (ar_batches s) ≤ 1)%nat ∧
    (length (ar_batches s) ≤ S (length (filter closesWindow threeSteps)))%nat.
Proof. apply heartbeats_in_windows. discriminate. Defined.

Lemma newest_progress_reported_witness :
  ∃ s s' r, example threeSteps = (Returned tt, s) ∧
    Close plainWorker "token" "workflow:w" true s = (Returned tt, s') ∧
    last (ar_sent s') = Some r ∧ reports plainWorker "token" "workflow:w" (progress "3") r.
Proof.
  apply (newest_progress_reported plainWorker "token" "workflow:w"); [discriminate| |done].
  repeat constructor.
Defined.

(** A goroutine that is overtaken: the third heartbeat is sent before what it
    found, and the fourth is lost when it reports at last. *)
Lemma overtaken_progress_lost :
  let s := (example [userHeartbeat (progress "1") false; userHeartbeat (progress "2") false; batchEnds 0;
                     userHeartbeat (progress "3") false; userHeartbeat (progress "4") false; batchReports 0]).2 in
  lastDetailsToReport (ar_invoker s) = Some (progress "2") ∧
  Forall (λ r, r ≠ RecordActivityTaskHeartbeat (mkRespond "token" "worker" "default" "workflow:w" None) (progress "4"))
    (ar_sent s).
Proof. vm_compute. split; [done|]. repeat constructor; discriminate. Qed.
