(* ===== verification/ActivityTask.v ===== *)
(** * Activity tasks
      ([src/internal/internal_task_handlers.go], [activityTaskHandlerImpl];
      [src/internal/internal_task_pollers.go], [activityTaskPoller],
      [convertActivityResultToRespondRequest]).

    A worker runs an activity with a context that has a deadline and can be
    cancelled with a cause, turns what it returns into a request, and answers
    the task.  While it does so the activity sends heartbeats, and the
    goroutines of [Heartbeat.v], the service and the worker may cancel the
    context: [Execute] lets anything of that kind happen wherever it can be
    told apart ([yield]).

    Activities, context propagators, interceptors, converters and the payload
    visitors are parameters.  Logging and metrics are left out. *)

From stdpp Require Import base list gmap strings.
From S2P Require Import Prelude Proto History Errors FailureConverter Retry Environment Processor Heartbeat.
Open Scope Z_scope.

(** ** Data *)

Record PollActivityTaskQueueResponse : Type := mkPolledActivity {
  pa_TaskToken : string;
  pa_WorkflowId : string;
  pa_ActivityId : string;
  pa_ActivityType : string;
  pa_Input : option Payloads;
}.

Definition set_Input (input : option Payloads) (t : PollActivityTaskQueueResponse) : PollActivityTaskQueueResponse :=
  mkPolledActivity (pa_TaskToken t) (pa_WorkflowId t) (pa_ActivityId t) (pa_ActivityType t) input.

(** The [response] of a result: a request, or [ErrActivityResultPending]. *)
Inductive activityResponse : Type :=
| respondWith (r : activityRequest)
| resultPending.

Record activityTaskResult : Type := mkTaskResult {
  response : option activityResponse;
  failureErr : option goError;
}.
Definition emptyResult : activityTaskResult := mkTaskResult None None.

Definition resultPendingText : string :=
  "not error: do not autocomplete, using Client.CompleteActivity() to complete".
Definition ErrActivityResultPending : goError := newError resultPendingText.
Definition contextCanceledText : string := "context canceled".
Definition DeadlineExceeded : goError := otherError "context.deadlineExceededError" "context deadline exceeded" None.

(** An activity: what it makes of its input, if it does not panic. *)
Definition activity : Type := option Payloads → outcome (option Payloads * option goError).

Definition getWorkflowResourceId (workflowId : string) : string :=
  if decide (workflowId = "") then "" else ("workflow:" +:+ workflowId)%string.

Definition getActivityResourceId (workflowId activityId : string) : string :=
  if decide (workflowId = "") then
    if decide (activityId = "") then "" else ("activity:" +:+ activityId)%string
  else getWorkflowResourceId workflowId.

(** The task handler of a worker.  [ath_parts] has the failure converter with
    the context of the activity, [workerErrorToFailure] is without it.  The
    inbound visitor gives the input as it leaves it; interceptors may refuse to
    build a context, and propagators to fill it. *)
Record activityTaskHandlerImpl : Type := mkActivityHandler {
  ath_parts : workerParts;
  inboundPayloadVisitor : PollActivityTaskQueueResponse → goError + option Payloads;
  stackTrace : string;
  dataConverter : DataConverter;
  workerErrorToFailure : goError → outcome (option Failure);
  version : option opaqueMessage;
  WithActivityTask : PollActivityTaskQueueResponse → option goError;
  contextWithHeaderPropagated : PollActivityTaskQueueResponse → outcome (option goError);
  getActivity : string → option activity;
  getRegisteredActivityNames : list string;
}.

Section Handler.
  Variable ath : activityTaskHandlerImpl.
#[local] Abbreviation w := (ath_parts ath).

(** ** Requests *)

Definition convertActivityResultToRespondRequest (c : respondCommon) (result : option Payloads)
    (err : option goError) (cancelAllowed : bool) : outcome activityResponse :=
  match err with
  | None => mret (respondWith (RespondActivityTaskCompleted c result))
  | Some e =>
      if isSentinel resultPendingText e then mret resultPending
      else
        match (if cancelAllowed then errorsAs isCanceledError e else None) with
        | Some (CanceledError _ _ _ details) =>
            payloads ← convertErrDetailsToPayloads (mkDefaultFailureConverter (dataConverter ath) false) details;
            mret (respondWith (RespondActivityTaskCanceled c payloads))
        | _ =>
            if cancelAllowed && errorsIs contextCanceledText e
            then mret (respondWith (RespondActivityTaskCanceled c None))
            else
              let e' := if isCanceledError e
                        then otherError "*fmt.wrapError" ("unexpected activity cancel error: " +:+ errorText w e)%string (Some e)
                        else e in
              failure ← ErrorToFailure w e';
              mret (respondWith (RespondActivityTaskFailed c failure))
        end
  end.

Definition commonFor (t : PollActivityTaskQueueResponse) : respondCommon :=
  mkRespond (pa_TaskToken t) (identity w) (namespace w) (getActivityResourceId (pa_WorkflowId t) (pa_ActivityId t))
    (version ath).

Definition visitorErrorToActivityFailure (t : PollActivityTaskQueueResponse) (err : goError)
    : outcome activityRequest :=
  failure ← workerErrorToFailure ath err;
  mret (RespondActivityTaskFailed (commonFor t) failure).

(** ** Execution *)

#[local] Abbreviation resourceOf t := (getActivityResourceId (pa_WorkflowId t) (pa_ActivityId t)).
#[local] Abbreviation events t := (happens w (pa_TaskToken t) (resourceOf t)).
#[local] Abbreviation closeInvoker t := (Close w (pa_TaskToken t) (resourceOf t)).

(** What happens meanwhile. *)
Definition yield (t : PollActivityTaskQueueResponse) : Go activityRun unit :=
  s ← get;
  _ ← modify (set_schedule (tail (ar_schedule s)));
  events t (default [] (head (ar_schedule s))).

Definition returning (result : activityTaskResult) (err : option goError) : Go activityRun activityTaskResult :=
  _ ← modify (set_err err); mret result.

(** The cause of the context is that of a rejected heartbeat. *)
Definition heartbeatRejected (s : activityRun) : bool :=
  match ar_cause s with
  | Some cause => bool_decide (is_Some (errorsAs (hasType heartbeatVisitorErrorType) cause))
  | None => false
  end.

Definition canceledByService (s : activityRun) : bool :=
  match ar_ctx s, ar_cause s with
  | Some contextCanceled, Some cause => IsCanceledError cause
  | _, _ => false
  end.

Definition dlCancelFunc : Go activityRun unit :=
  modify (λ s, set_ctx (ar_cause s) (Some (default contextCanceled (ar_ctx s))) s).

(** The request, once its payloads were visited. *)
Definition postprocess (t : PollActivityTaskQueueResponse) (r : activityResponse) : Go activityRun activityTaskResult :=
  match r with
  | resultPending => returning (mkTaskResult (Some resultPending) None) None
  | respondWith request =>
      match visitRequest w request with
      | inl err =>
          failed ← lift (visitorErrorToActivityFailure t err);
          returning (mkTaskResult (Some (respondWith failed)) (Some err)) None
      | inr request' => returning (mkTaskResult (Some (respondWith request')) None) None
      end
  end.
(** The body of [Execute] under its panic handler. *)
Definition invoke (t : PollActivityTaskQueueResponse) (implementation : activity)
    : Go activityRun activityTaskResult :=
  err ← lift (contextWithHeaderPropagated ath t);
  _ ← modify (set_err err);
  match err with
  | Some _ => mret emptyResult
  | None =>
      _ ← yield t;
      '(output, err) ← lift (implementation (pa_Input t));
      _ ← modify (set_err err);
      _ ← yield t;
      s ← get;
      if heartbeatRejected s then returning emptyResult None
      else
        _ ← yield t;
        s ← get;
        let isActivityCanceled := canceledByService s in
        _ ← yield t;
        _ ← dlCancelFunc;
        s ← get;
        match ar_ctx s with
        | Some contextDeadlineExceeded => returning emptyResult (Some DeadlineExceeded)
        | _ =>
            r ← lift (convertActivityResultToRespondRequest (commonFor t) output err isActivityCanceled);
            postprocess t r
        end
  end.

(** The panic handler sets the result, and leaves [err] as it is. *)
Definition recovering (t : PollActivityTaskQueueResponse) (m : Go activityRun activityTaskResult)
    : Go activityRun activityTaskResult := λ s,
  match m s with
  | (Returned result, s') => (Returned result, s')
  | (Panicked v, s') =>
      (r ← lift (convertActivityResultToRespondRequest (commonFor t) None
                   (Some (newPanicError (panicText v) (stackTrace ath))) false);
       mret (mkTaskResult (Some r) None)) s'
  end.

Definition isCompleted (result : activityTaskResult) : bool :=
  match response result with
  | Some (respondWith (RespondActivityTaskCompleted _ _)) => true
  | _ => false
  end.

(** The invoker is closed at the end. *)
Definition closing (t : PollActivityTaskQueueResponse) (m : Go activityRun activityTaskResult)
    : Go activityRun activityTaskResult := λ s,
  match m s with
  | (Returned result, s') => (_ ← yield t; _ ← closeInvoker t (negb (isCompleted result)); mret result) s'
  | (Panicked v, s') => (_ ← yield t; _ ← closeInvoker t true; panic v) s'
  end.

(** Both results: what to answer, and [err]. *)
Definition Execute (task : PollActivityTaskQueueResponse) : Go activityRun (activityTaskResult * option goError) :=
  result ← match inboundPayloadVisitor ath task with
           | inl err =>
               failed ← lift (visitorErrorToActivityFailure task err);
               returning (mkTaskResult (Some (respondWith failed)) (Some err)) None
           | inr input =>
               let t := set_Input input task in
               match WithActivityTask ath t with
               | Some err => returning emptyResult (Some err)
               | None =>
                   closing t
                     match getActivity ath (pa_ActivityType t) with
                     | None =>
                         r ← lift (convertActivityResultToRespondRequest (commonFor t) None
                                     (Some (ActivityNotRegisteredError (pa_ActivityType t) (getRegisteredActivityNames ath))) false);
                         returning (mkTaskResult (Some r) None) None
                     | Some implementation => recovering t (invoke t implementation)
                     end
               end
           end;
  s ← get;
  mret (result, ar_err s).

(** ** The poller *)

(** [answer] is the error of the service for a request. *)
Definition reportActivityComplete (answer : activityRequest → option goError) (request : option activityRequest)
    : Go activityRun (option goError) :=
  match request with
  | None | Some (RecordActivityTaskHeartbeat _ _) => mret None
  | Some r => _ ← send r; mret (answer r)
  end.

Definition ProcessTask (answer : activityRequest → option goError) (shouldDrainOnShutdown stopping : bool)
    (task : option PollActivityTaskQueueResponse) : Go activityRun (option goError) :=
  if negb shouldDrainOnShutdown && stopping then mret (Some errStop)
  else
    match task with
    | None => mret None
    | Some t =>
        '(result, err) ← Execute t;
        match err with
        | Some e => mret (Some e)
        | None =>
            match response result with
            | Some resultPending => mret None
            | None => _ ← yield t; reportActivityComplete answer None
            | Some (respondWith request) => _ ← yield t; reportActivityComplete answer (Some request)
            end
        end
    end.
End Handler.
