(* ===== verification/ActivityTaskFacts.v ===== *)
(** * How activity tasks are answered *)

From stdpp Require Import base list gmap strings.
From S2P Require Import Prelude Proto History Errors FailureConverter Retry Environment Processor Heartbeat HeartbeatFacts ActivityTask.
Open Scope Z_scope.

Definition commonOf (r : activityRequest) : respondCommon :=
  match r with
  | RecordActivityTaskHeartbeat c _ | RespondActivityTaskCompleted c _
  | RespondActivityTaskCanceled c _ | RespondActivityTaskFailed c _ => c
  end.

(** The requests that end an attempt of an activity. *)
Definition isAnswer (r : activityRequest) : bool :=
  match r with RecordActivityTaskHeartbeat _ _ => false | _ => true end.

Section Facts.
  Variable ath : activityTaskHandlerImpl.
#[local] Abbreviation w := (ath_parts ath).
#[local] Abbreviation resourceOf t := (getActivityResourceId (pa_WorkflowId t) (pa_ActivityId t)).
#[local] Abbreviation reported t := (reports w (pa_TaskToken t) (resourceOf t)).
#[local] Abbreviation grows t := (extends w (pa_TaskToken t) (resourceOf t)).

(** The error can be sent as a failure. *)
Definition sendable (err : goError) : Prop :=
  (∃ f, ErrorToFailure w err = Returned f) ∧ ∃ f, workerErrorToFailure ath err = Returned f.

  (** Errors of the visitors, and those that the worker makes itself, have no
      details that could not be encoded. *)
  Hypothesis payloadErrors : ∀ d err, visitPayloads w d = inl err → sendable err.
  Hypothesis failureErrors : ∀ f err, visitFailure w f = inl err → sendable err.
  Hypothesis inboundErrors : ∀ t err, inboundPayloadVisitor ath t = inl err → sendable err.
  Hypothesis panicErrors : ∀ v trace, sendable (newPanicError v trace).
  Hypothesis registryErrors : ∀ t names, sendable (ActivityNotRegisteredError t names).

(** ** The parts of an execution *)

(** Between two states of a run: the requests of the invoker are added, and
    the goroutines stay as they must be. *)
Definition proceeds (t : PollActivityTaskQueueResponse) (s s' : activityRun) : Prop :=
  windows_inv s' ∧ closeCh (ar_invoker s') = closeCh (ar_invoker s) ∧
  ∃ sent, ar_sent s' = ar_sent s ++ sent ∧ Forall (λ r, ∃ d, reported t d r) sent.

Lemma proceeds_refl t s : windows_inv s → proceeds t s s.
Proof. intros. split_and!; [done|done|]. exists []. by rewrite app_nil_r. Qed.

Lemma proceeds_trans t s1 s2 s3 : proceeds t s1 s2 → proceeds t s2 s3 → proceeds t s1 s3.
Proof.
  intros (_ & C1 & l1 & L1 & H1) (W2 & C2 & l2 & L2 & H2). split_and!; [done|congruence|].
  exists (l1 ++ l2). rewrite L2, L1, <- app_assoc. split; [done|]. by apply Forall_app.
Qed.

Lemma proceeds_same t s s' : windows_inv s → ar_invoker s' = ar_invoker s → ar_batches s' = ar_batches s →
  ar_sent s' = ar_sent s → proceeds t s s'.
Proof.
  intros Hw Hi Hb Hs. unfold proceeds, windows_inv. rewrite Hi, Hb. split_and!; [apply Hw|apply Hw|done|].
  exists []. by rewrite app_nil_r.
Qed.

Lemma visitErrors d err : visitPayloads w d = inl err → ∃ f, ErrorToFailure w err = Returned f.
Proof. intros H. by destruct (payloadErrors _ _ H). Qed.

Lemma yield_spec t s : windows_inv s →
  ∃ s', yield ath t s = (Returned tt, s') ∧ proceeds t s s' ∧ ar_err s' = ar_err s.
Proof.
  intros Hw. unfold yield, mbind, go_bind, get, modify. set (s1 := set_schedule _ s).
  destruct (happens_spec w (pa_TaskToken t) (resourceOf t) visitErrors (default [] (head (ar_schedule s))) s1 Hw)
    as (s' & Hr & Hw' & Hc & _).
  pose proof (happens_extends w (pa_TaskToken t) (resourceOf t) visitErrors (default [] (head (ar_schedule s))) s1) as He.
  rewrite Hr in He. destruct He as (He & _ & Hs). exists s'. done.
Qed.

(** The response of a result ends an attempt of the task. *)
Definition fits (t : PollActivityTaskQueueResponse) (result : activityTaskResult) : Prop :=
  ∀ r, response result = Some (respondWith r) → isAnswer r = true ∧ req_TaskToken (commonOf r) = pa_TaskToken t.

(** [m] ends in a state that follows, with a result that fits or a panic. *)
Definition executes (t : PollActivityTaskQueueResponse) (m : Go activityRun activityTaskResult) : Prop :=
  ∀ s, windows_inv s → proceeds t s (m s).2 ∧ ∀ result, (m s).1 = Returned result → fits t result.

Lemma executes_return t result err : fits t result → executes t (returning result err).
Proof. intros Hf s Hw. split; [by apply proceeds_same|]. by intros ? [= <-]. Qed.

Lemma executes_empty t err : executes t (returning emptyResult err).
Proof. by apply executes_return. Qed.

Lemma executes_yield t (k : Go activityRun activityTaskResult) :
  executes t k → executes t (_ ← yield ath t; k).
Proof.
  intros Hk s Hw. destruct (yield_spec t s Hw) as (s1 & Hy & Hp & _). rewrite (bind_returned _ _ _ _ _ Hy).
  destruct (Hk s1) as [Hp' Hf]; [apply Hp|]. split; [by eapply proceeds_trans|done].
Qed.

Lemma executes_modify t f (k : Go activityRun activityTaskResult) :
  (∀ s, ar_invoker (f s) = ar_invoker s ∧ ar_batches (f s) = ar_batches s ∧ ar_sent (f s) = ar_sent s) →
  executes t k → executes t (_ ← modify f; k).
Proof.
  intros Hf Hk s Hw. destruct (Hf s) as (H1 & H2 & H3). assert (proceeds t s (f s)) as Hp by (by apply proceeds_same).
  destruct (Hk (f s)) as [Hp' Hr]; [apply Hp|]. split; [|exact Hr]. by eapply proceeds_trans.
Qed.

Lemma executes_get t k : (∀ s, executes t (k s)) → executes t (s ← get; k s).
Proof. intros Hk s Hw. apply (Hk s s Hw). Qed.

Lemma executes_lift {A} t (o : outcome A) k : (∀ a, o = Returned a → executes t (k a)) → executes t (a ← lift o; k a).
Proof.
  intros Hk s Hw. unfold lift, mbind, go_bind. destruct o as [a|v]; [by apply Hk|].
  split; [by apply proceeds_refl|done].
Qed.
End Facts.
